(* ===== verification/_CoqProject ===== *)
-Q . S2P
Prelude.v
RustStr.v
BrokerArgs.v
BrokerProto.v
BrokerSafety.v
BrokerServer.v
BrokerCodec.v
BrokerServerProofs.v
BrokerServe.v
Errors.v
HttpBoundary.v
NetAddr.v
Validate.v
StoreSpec.v
Store.v
StoreProofs.v
StoreRefinement.v
Cache.v
Rbac.v
Acl.v
Totp.v
Throttle.v
Users.v
UsersProofs.v
Sessions.v
Operations.v
OperationsProofs.v
Tokens.v
TokensProofs.v
AuditLog.v
LoginApi.v
Command.v
BrokerClient.v
CommandRouting.v
BrokerLink.v
BrokerStreams.v
Host.v
Zfs.v
ZfsProofs.v
Notification.v
Schedules.v
SchedulesProofs.v
VmData.v
DomainXml.v
DomainXmlProofs.v
Firewall.v
CloudInit.v
Kvm.v
KvmDevices.v
KvmSnapshots.v
KvmProofs.v
KvmCreateProofs.v
KvmRuns.v
IsoScan.v
Lxc.v
LxcProofs.v
Console.v
Metrics.v
MetricsProofs.v
Alerts.v
Startup.v
Programs.v
Acme.v
AcmeProofs.v
Backup.v
BackupProofs.v
Library.v
LibraryProofs.v
Pools.v
Shares.v
Network.v
Inventory.v
Api.v
ApiGuests.v
ApiNode.v
ApiAccounts.v
ApiRouter.v
ApiProofs.v
Serving.v
ServingProofs.v
