(* ===== verification/Prelude.v ===== *)
(** * DaygleVE-backend: a verification development

    DaygleVE-backend is the control plane of a virtualisation node: an HTTP server that
    runs as an ordinary account and manages virtual machines (libvirt/KVM), containers
    (LXC), ZFS storage, networks, backups and users, and a small root-owned broker that
    performs the privileged host operations for it over a Unix socket.  This library
    translates the sources below [src/src] into Rocq definitions, file by file and
    function by function with the names of the source, and proves what makes each part
    correct.

    ** The program and how its parts meet

    A request passes the boundary ([api/mod.rs]), is given a caller ([auth/mod.rs]),
    reaches a handler ([api/*.rs]) that checks a permission and calls services
    ([services/*.rs]).  A service keeps its records in a [JsonStore], one file per
    record, and acts on the host through [services/command.rs], which sends the command
    to the broker ([broker/client.rs], [broker/mod.rs], [broker/server.rs]) or, on a
    development host, runs it.  Changes of guests and storage run as operations of a
    journal that survives a crash.  Background tasks take backups and snapshots, fire
    schedules, renew the certificate, sample metrics and evaluate alert rules.

    The library has the same layers; a file requires the ones before it.

    Language:
    - [Prelude]: Rust's [Result], its [?], shared lemmas, tactics and hints;
    - [RustStr]: strings as Unicode scalar values with their UTF-8 bytes, the
      string functions the source uses, printing and parsing of integers;
    - [NetAddr]: the address parser of [std::net].

    Broker:
    - [BrokerArgs], [BrokerProto] ([broker/mod.rs]): the table of programs and argument
      rules; requests, their validation, frames;
    - [BrokerServer] ([broker/server.rs]): a connection, over a world of socket bytes,
      files with a schedule of faults, child processes and a log of effects;
    - [BrokerCodec]: what both ends rely on of serde_json and base64 ([CodecLaws]), with
      an instance;
    - [BrokerClient] ([broker/client.rs]), [CommandRouting] ([services/command.rs]): the
      other end, and the choice between broker and direct execution;
    - [Command]: the model of host commands the services are verified against, [Host]
      and [HasHost]: a service whose state has a host;
    - [BrokerServe] (its [serve]): the listener and its connections;
    - [BrokerSafety], [BrokerServerProofs], [BrokerLink], [BrokerStreams]: the proofs.

    State:
    - [Errors], [HttpBoundary] ([error.rs], [api/mod.rs]): errors, their statuses and
      envelopes, the headers of every answer;
    - [Validate] ([services/mod.rs]): the validators of everything that reaches a host
      command or a file name;
    - [StoreSpec]: the contract of a record store ([RecordStore]), [Store]
      ([services/store.rs]): its implementation over a file system that fails and tears
      writes, [StoreProofs] and [StoreRefinement]: the implementation keeps the
      contract;
    - [Cache]: services as state and error monad [Svc], and the cache in front of a
      store.

    Accounts:
    - [Rbac] ([auth/mod.rs], [services/auth.rs]), [Acl] ([services/acl.rs]);
    - [Totp] ([services/totp.rs]), [Throttle] ([services/login_throttle.rs]), [Users]
      with [UsersProofs] and [Sessions] ([services/auth.rs]), [LoginApi] ([api/auth.rs]);
    - [Tokens] with [TokensProofs] ([services/api_token.rs], [auth/mod.rs]), [AuditLog]
      ([services/audit.rs]).

    Host services:
    - [Operations] with [OperationsProofs] ([services/operations.rs]);
    - [Zfs] with [ZfsProofs] ([services/zfs.rs]);
    - [VmData], [DomainXml], [CloudInit], [Firewall], [Kvm], [KvmDevices],
      [KvmSnapshots], [IsoScan] ([services/kvm.rs]), with [DomainXmlProofs],
      [KvmProofs], [KvmCreateProofs] and [KvmRuns]; the host firewall of
      [services/firewall.rs] is in [Firewall] too;
    - [Lxc] with [LxcProofs] ([services/lxc.rs]); [Console] (the bridges of
      [services/command.rs] and [api/vms.rs]);
    - [Notification], [Alerts], [Schedules] with [SchedulesProofs], [Metrics] with
      [MetricsProofs], [Acme] with [AcmeProofs], [Backup] with [BackupProofs], [Library]
      with [LibraryProofs], [Pools], [Shares], [Network] and [Inventory] (gpu.rs, pci.rs,
      usb.rs), each after the file of [services/] of its name;
    - [Startup] ([config.rs], [state.rs]) and [Programs] ([main.rs],
      [bin/daygleve-broker.rs], [api/health.rs], the timers, the file of the first
      password).

    HTTP:
    - [Api]: a handler as a finite tree of typed service calls, so that what it does on
      every outcome of every call can be read off; [ApiGuests], [ApiNode],
      [ApiAccounts]: the handlers and route tables of [api/*.rs]; [ApiRouter]: the
      merged tree and the specification of what each call needs; [ApiProofs];
    - [Serving] with [ServingProofs]: the server at work, where requests and the workers
      of queued operations run as threads that interleave at every call of a service.

    ** How code becomes definitions

    A struct is a [Record], an enum an [Inductive].  A pure function is a function; a
    fallible one returns [result]; a method of a service is a computation [Svc state A],
    the state being its locked fields, its store and its host.  A method that holds its
    lock throughout is one step; where other requests run in between (the login, a
    backup, an issuance, a tick over schedules) the critical sections are definitions of
    their own and the theorem quantifies over what happens between them.  Integers are
    [N] or [Z] with wrapping, saturation and overflow written out where the source has
    a width; metrics and alert thresholds are binary64 numbers.  Text is [str], whose
    [len] is the length in bytes.

    Code outside the repository is a parameter: the schema crate's records are declared
    with the fields the source reads; argon2, SHA-256, HMAC, base32 and base64,
    serde_json, chrono and the cron library, lettre and reqwest, instant_acme, rcgen and
    the TLS listener, the host tools, randomness and clocks are functions or computations
    the definitions take.  A theorem that needs a law of one of them names it as a
    hypothesis, and its witness instantiates it.

    ** What the theorems show

    - The broker does to the host at most the one effect of a validated request of an
      authorised peer, and accepted requests are confined in path, shape and length
      ([BrokerSafety], [BrokerServerProofs]); client, socket and server together are the
      model of commands the services use, streams included ([BrokerLink],
      [BrokerStreams]), and the ZFS service cannot tell the broker from direct execution
      for the names and sizes the broker takes, SMART reports aside ([ZfsProofs]).  [Console] shows that an attached console has sent a request the
      broker accepts, and that a bridge carries, in order, what precedes its end.
    - A record is replaced as a whole or not at all, and the files refine a map of
      records under any faults ([StoreProofs], [StoreRefinement]).
    - Authorization is exactly role table and grants ([Rbac]); the accounts keep an
      administrator, unique names and a coherent cache ([UsersProofs]); a login has
      checked every factor, sessions and tokens end when they should, guessing is
      locked out ([Sessions], [LoginApi], [TokensProofs]); every call a handler makes is
      permitted ([ApiProofs]); and so it stays in every interleaving of requests and
      workers, with requests dropped on the way, where a change of guests, storage or
      devices has its record written before it is begun, except for the calls that
      [ApiRouter.unrecorded] lists, which the source journals late or not at all
      ([ServingProofs]).
    - The journal is durable before the host is touched and repairs need a fresh
      approval and act on its findings alone ([OperationsProofs]); VM data outlives every
      request that does not destroy it, creates are all or nothing but for the cases that
      the finding on [create] names, the domain document of a record of valid names reads
      back as the record ([KvmProofs], [KvmCreateProofs], [DomainXmlProofs]); containers, disks, bridges,
      shares, devices, pools and install media have the corresponding theorems.
    - Backups, retention, restores, schedules, alerts, downloads, uploads, metrics and
      the certificate: who may run, what is kept, that every tick comes to its end.

    Some theorems state what the code does where that is not what it means to do (a
    mounted NVMe partition that is not noticed, a deleted schedule that comes back, the
    SMART report that reads nothing): they are proved of the same definitions.

    ** Bounds and fuel

    Recursion is structural where it can be.  The printing of a number ([dec]) has its
    bit length as fuel; reading frames ([receive], [feed]) and cutting chunks have the
    number of bytes, of which every round consumes at least one; [strip_0x] and
    [prune_loop] have the length of their argument.  The ISO walk ([scan_loop]) returns
    [None] without fuel, and [iso_listing_exact] gives, for any directory contents, an
    amount that is enough: the depth is at most [ISO_SCAN_DEPTH].  The source's own
    bounds are kept as constants: frames of 1 MiB, 256 arguments, symbolic links
    followed 40 times, six requests of a download, 30 polls of an order, 50,000 samples,
    5,000 audit events, 5 login attempts.

    ** What is not modelled

    - Waiting and logging: the intervals of the timers, the calls that serve a socket.
      Each turn of a loop is a definition, and so are both [main]s over the calls they
      make.
    - tower's layers other than [request_id] and the CORS origins: body limit, tracing,
      static files; percent-decoding and JSON extraction of axum.
    - Constructors that only record directories ([Services::new]) and the broker marker
      of [services/mod.rs], which nothing calls.
    - Starting and killing processes: an execution is a parameter, its timeout an
      outcome.
    - Parallelism within one critical section: locks are taken as the source takes them,
      so a step is atomic; the file system is not shared with other programs, and holds
      no symbolic links below the state directory except where [BrokerServer] follows
      them.

    ** Limits

    In [Serving] the services are a function of the calls, so that its theorems hold for
    any services; the theorems about a service are about its own definitions, from any
    state.  The broker's connections are served one after the other, where the source
    runs them in tasks of their own: two connections that rewrite the same container
    configuration at once are outside the model.  What remains in the sources is
    constructors, markers, comments and tests. *)

From Stdlib Require Export Bool ZArith Lia.
From stdpp Require Export base tactics gmap numbers strings list.

(** ** Notations

    [rust_scope] holds the notations that keep the definitions close to the
    source: [m ;? k] is Rust's [m?; k] (the early return of an error). *)
Declare Scope rust_scope.
Delimit Scope rust_scope with rust.
Open Scope rust_scope.

(** ** Rust's [Result] *)

(** [Result<A, E>], error type first so that [result E] is a monad. *)
Inductive result (E A : Type) : Type :=
  | Ok (a : A)
  | Err (e : E).
Arguments Ok {E A} a.
Arguments Err {E A} e.

#[export] Instance result_ret E : MRet (result E) := λ A a, Ok a.
#[export] Instance result_bind E : MBind (result E) := λ A B f m,
  match m with Ok a => f a | Err e => Err e end.
#[export] Instance result_fmap E : FMap (result E) := λ A B f m,
  match m with Ok a => Ok (f a) | Err e => Err e end.

#[export] Instance result_eq_dec E A `{EqDecision E} `{EqDecision A} :
  EqDecision (result E A).
Proof. solve_decision. Defined.

Notation "m ;? k" := (mbind (λ _, k) m)
  (at level 100, k at level 200, right associativity, only parsing) : rust_scope.

(** [is_ok r]: [Result::is_ok]. *)
Definition is_ok {E A} (r : result E A) : bool :=
  match r with Ok _ => true | Err _ => false end.

(** [Result::map_err]. *)
Definition map_err {E F A} (f : E → F) (r : result E A) : result F A :=
  match r with Ok a => Ok a | Err e => Err (f e) end.

(** [Option::ok_or]. *)
Definition ok_or {E A} (e : E) (o : option A) : result E A :=
  match o with Some a => Ok a | None => Err e end.

(** [for x in l { f(x)?; }]. *)
Fixpoint for_each {E A} (f : A → result E unit) (l : list A) : result E unit :=
  match l with
  | [] => Ok tt
  | x :: l => f x ;? for_each f l
  end.

(** ** Lemmas on results *)
Section result_lemmas.
Context {E A : Type}.
Implicit Types (r : result E A).

Lemma is_ok_true r : is_ok r = true ↔ ∃ a, r = Ok a.
Proof. destruct r; simpl; naive_solver. Qed.

Lemma is_ok_false r : is_ok r = false ↔ ∃ e, r = Err e.
Proof. destruct r; simpl; naive_solver. Qed.

Lemma bind_ok {B} r (f : A → result E B) b :
  mbind f r = Ok b ↔ ∃ a, r = Ok a ∧ f a = Ok b.
Proof. destruct r; simpl; naive_solver. Qed.

Lemma bind_err {B} r (f : A → result E B) e :
  mbind f r = Err e ↔ r = Err e ∨ ∃ a, r = Ok a ∧ f a = Err e.
Proof. destruct r; simpl; naive_solver. Qed.

Lemma map_err_ok {F} (f : E → F) r a : map_err f r = Ok a ↔ r = Ok a.
Proof. destruct r; simpl; naive_solver. Qed.

Lemma ok_or_ok (e : E) (o : option A) a : ok_or e o = Ok a ↔ o = Some a.
Proof. destruct o; simpl; naive_solver. Qed.

Lemma if_err_ok (b : bool) (e : E) r a :
  (if b then Err e else r) = Ok a ↔ b = false ∧ r = Ok a.
Proof. destruct b; naive_solver. Qed.

Lemma if_ok_err (b : bool) (e : E) r a :
  (if b then r else Err e) = Ok a ↔ b = true ∧ r = Ok a.
Proof. destruct b; naive_solver. Qed.
End result_lemmas.

Lemma for_each_ok {E A} (f : A → result E unit) (l : list A) :
  for_each f l = Ok tt ↔ Forall (λ x, f x = Ok tt) l.
Proof.
  induction l as [|x l IH]; simpl; [split; auto using Forall_nil_2|].
  rewrite bind_ok, Forall_cons. split.
  - intros ([] & ? & ?); split; [done | by apply IH].
  - intros [? ?]; exists tt; split; [done | by apply IH].
Qed.

(** ** Booleans *)

Lemma forallb_Forall {A} (p : A → bool) (l : list A) :
  forallb p l = true ↔ Forall (λ x, p x = true) l.
Proof. rewrite List.forallb_forall, Forall_forall. setoid_rewrite list_elem_of_In. done. Qed.

Lemma existsb_Exists {A} (p : A → bool) (l : list A) :
  existsb p l = true ↔ ∃ x, x ∈ l ∧ p x = true.
Proof. rewrite List.existsb_exists. setoid_rewrite list_elem_of_In. done. Qed.

Lemma existsb_false {A} (p : A → bool) (l : list A) :
  existsb p l = false ↔ Forall (λ x, p x = false) l.
Proof.
  induction l as [|x l IH]; simpl; [naive_solver|].
  rewrite orb_false_iff, Forall_cons, IH. done.
Qed.

Lemma forallb_impl {A} (p q : A → bool) (l : list A) :
  (∀ x, p x = true → q x = true) → forallb p l = true → forallb q l = true.
Proof. rewrite !forallb_Forall. eauto using Forall_impl. Qed.

Lemma forallb_ext {A} (p q : A → bool) (l : list A) :
  (∀ x, p x = q x) → forallb p l = forallb q l.
Proof. intros H. induction l as [|x l IH]; [done|]. simpl. by rewrite H, IH. Qed.

Lemma forallb_negb_existsb {A} (p : A → bool) (l : list A) :
  negb (existsb p l) = forallb (λ x, negb (p x)) l.
Proof. induction l as [|x l IH]; [done|]. simpl. by rewrite negb_orb, IH. Qed.

(** ** Tactics and hint databases *)

Create HintDb daygle discriminated.
Create Rewrite HintDb rust_bool.

#[export] Hint Rewrite andb_true_iff orb_true_iff negb_true_iff andb_false_iff
  orb_false_iff negb_false_iff N.eqb_eq N.eqb_neq N.leb_le N.leb_gt N.ltb_lt
  N.ltb_ge Z.eqb_eq Z.eqb_neq Z.leb_le Z.leb_gt Z.ltb_lt Z.ltb_ge
  Nat.eqb_eq Nat.eqb_neq Nat.leb_le Nat.leb_gt Nat.ltb_lt Nat.ltb_ge : rust_bool.

(** Turn the boolean tests of the hypotheses and the goal into propositions. *)
Ltac bool_prop := autorewrite with rust_bool in *.

(** Take apart one success hypothesis [H : m = Ok _] (binds, guards and early
    returns), down to the tests that must have passed. *)
Ltac inv_ok_step :=
  match goal with
  | H : mbind _ _ = Ok _ |- _ =>
      apply bind_ok in H; destruct H as (? & ? & ?)
  | H : map_err _ _ = Ok _ |- _ => apply map_err_ok in H
  | H : ok_or _ _ = Ok _ |- _ => apply ok_or_ok in H
  | H : (if _ then Err _ else _) = Ok _ |- _ =>
      apply if_err_ok in H; destruct H
  | H : (if _ then _ else Err _) = Ok _ |- _ =>
      apply if_ok_err in H; destruct H
  | H : for_each _ _ = Ok ?u |- _ =>
      destruct u; apply for_each_ok in H
  | H : Err _ = Ok _ |- _ => discriminate H
  | H : Ok _ = Ok _ |- _ => injection H as H; subst
  | u : unit |- _ => destruct u
  end.
Ltac inv_ok := repeat inv_ok_step.
