(* ===== verification/RustStr.v ===== *)
(** * Rust strings and characters

    A [String]/[&str] of the source is a sequence of Unicode scalar values;
    [str] is that sequence, one [N] per [char].  [bytes] is its UTF-8 encoding,
    so [len] (Rust's byte length) and the byte-wise tests of the source are the
    ones of the source also on non-ASCII input.  The operations below are the
    methods of [str] and [char] that the modelled code calls. *)

From S2P Require Export Prelude.

Abbreviation char := N (only parsing).
Abbreviation str := (list N).

(** String literals of the source. *)
Definition lit (s : string) : str :=
  map Ascii.N_of_ascii (String.list_ascii_of_string s).
Coercion lit : string >-> list.
Open Scope string_scope.
Open Scope list_scope.

Definition lits (l : list string) : list str := map lit l.

(** ** Characters *)

Definition in_range (lo hi c : char) : bool := (lo <=? c)%N && (c <=? hi)%N.

Definition is_ascii_digit (c : char) : bool := in_range 48 57 c.
Definition is_ascii_uppercase (c : char) : bool := in_range 65 90 c.
Definition is_ascii_lowercase (c : char) : bool := in_range 97 122 c.
Definition is_ascii_alphanumeric (c : char) : bool :=
  is_ascii_digit c || is_ascii_uppercase c || is_ascii_lowercase c.
Definition is_ascii_hexdigit (c : char) : bool :=
  is_ascii_digit c || in_range 65 70 c || in_range 97 102 c.
(** [char::is_control]: the general category Cc. *)
Definition is_control (c : char) : bool := in_range 0 31 c || in_range 127 159 c.
Definition is_ascii_control (c : char) : bool := in_range 0 31 c || (c =? 127)%N.
(** [char::is_whitespace]: the property White_Space. *)
Definition is_whitespace (c : char) : bool :=
  in_range 9 13 c || (c =? 32)%N || (c =? 133)%N || (c =? 160)%N || (c =? 5760)%N
  || in_range 8192 8202 c || (c =? 8232)%N || (c =? 8233)%N || (c =? 8239)%N
  || (c =? 8287)%N || (c =? 12288)%N.
Definition to_ascii_lower (c : char) : char :=
  if is_ascii_uppercase c then (c + 32)%N else c.
Definition to_ascii_upper (c : char) : char :=
  if is_ascii_lowercase c then (c - 32)%N else c.

(** [matches!(c, 'a' | 'b' | ...)], the alternatives as one literal. *)
Definition char_in (c : char) (alts : string) : bool := existsb (N.eqb c) (lit alts).

(** The one character of a literal ['x']. *)
Definition ch (s : string) : char := match lit s with c :: _ => c | [] => 0%N end.

(** ** UTF-8 *)

Definition utf8_encode (c : char) : list N :=
  if (c <? 128)%N then [c]
  else if (c <? 2048)%N then [192 + c / 64; 128 + c mod 64]%N
  else if (c <? 65536)%N then
    [224 + c / 4096; 128 + (c / 64) mod 64; 128 + c mod 64]%N
  else [240 + c / 262144; 128 + (c / 4096) mod 64;
        128 + (c / 64) mod 64; 128 + c mod 64]%N.

Definition bytes (s : str) : list N := flat_map utf8_encode s.

(** [str::len]: the length in bytes. *)
Definition len (s : str) : N := N.of_nat (length (bytes s)).

(** ** Comparison and search *)

Definition str_eqb (a b : str) : bool := bool_decide (a = b).
Infix "=s?" := str_eqb (at level 70, no associativity) : rust_scope.

(** [matches!(s, "a" | "b" | ...)]. *)
Definition str_in (s : str) (alts : list string) : bool :=
  existsb (λ a, s =s? lit a) alts.

Definition is_empty (s : str) : bool := match s with [] => true | _ => false end.

Fixpoint strip_prefix (p s : str) : option str :=
  match p, s with
  | [], _ => Some s
  | a :: p, b :: s => if (a =? b)%N then strip_prefix p s else None
  | _ :: _, [] => None
  end.
Definition starts_with (p s : str) : bool :=
  match strip_prefix p s with Some _ => true | None => false end.
Definition ends_with (p s : str) : bool := starts_with (reverse p) (reverse s).
Definition contains_char (c : char) (s : str) : bool := existsb (N.eqb c) s.
Fixpoint contains (p s : str) : bool :=
  starts_with p s || match s with [] => false | _ :: s => contains p s end.

(** ** Splitting *)

(** [s.split(c)]. *)
Fixpoint split (c : char) (s : str) : list str :=
  match s with
  | [] => [[]]
  | x :: s =>
      if (x =? c)%N then [] :: split c s
      else match split c s with
           | p :: ps => (x :: p) :: ps
           | [] => [[x]]
           end
  end.
(** [s.split_once(c)]. *)
Fixpoint split_once (c : char) (s : str) : option (str * str) :=
  match s with
  | [] => None
  | x :: s =>
      if (x =? c)%N then Some ([], s)
      else match split_once c s with
           | Some (a, b) => Some (x :: a, b)
           | None => None
           end
  end.
(** [s.rsplit_once(c)]. *)
Definition rsplit_once (c : char) (s : str) : option (str * str) :=
  match split_once c (reverse s) with
  | Some (a, b) => Some (reverse b, reverse a)
  | None => None
  end.

(** The longest suffix of [s] whose first character fails [p]. *)
Fixpoint drop_while (p : char → bool) (s : str) : str :=
  match s with
  | [] => []
  | c :: s' => if p c then drop_while p s' else s
  end.
Definition trim_start_by (p : char → bool) (s : str) : str := drop_while p s.
Definition trim_end_by (p : char → bool) (s : str) : str :=
  reverse (drop_while p (reverse s)).
Definition trim_start (s : str) : str := trim_start_by is_whitespace s.
Definition trim_end (s : str) : str := trim_end_by is_whitespace s.
Definition trim (s : str) : str := trim_end (trim_start s).
Definition trim_start_matches (c : char) (s : str) : str := trim_start_by (N.eqb c) s.
Definition trim_end_matches (c : char) (s : str) : str := trim_end_by (N.eqb c) s.

(** [s.split_whitespace()]. *)
Fixpoint split_ws_go (cur : str) (s : str) : list str :=
  match s with
  | [] => if is_empty cur then [] else [reverse cur]
  | c :: s =>
      if is_whitespace c then
        (if is_empty cur then [] else [reverse cur]) ++ split_ws_go [] s
      else split_ws_go (c :: cur) s
  end.
Definition split_whitespace (s : str) : list str := split_ws_go [] s.

(** [s.lines()]: lines end at a line feed, which is dropped with a preceding
    carriage return; a final line feed opens no further line. *)
Definition strip_cr (l : str) : str :=
  match reverse l with
  | 13%N :: r => reverse r
  | _ => l
  end.
Fixpoint lines_of (ps : list str) : list str :=
  match ps with
  | [] => []
  | [last] => if is_empty last then [] else [last]
  | p :: ps => strip_cr p :: lines_of ps
  end.
Definition lines (s : str) : list str := lines_of (split 10 s).

(** ** Building *)

Definition to_ascii_lowercase (s : str) : str := map to_ascii_lower s.
Definition to_ascii_uppercase (s : str) : str := map to_ascii_upper s.
Definition eq_ignore_ascii_case (a b : str) : bool :=
  to_ascii_lowercase a =s? to_ascii_lowercase b.

(** [parts.join(sep)]. *)
Fixpoint join (sep : str) (parts : list str) : str :=
  match parts with
  | [] => []
  | [p] => p
  | p :: ps => p ++ sep ++ join sep ps
  end.

(** [Path::file_stem] and [Path::extension] of a component: a leading dot does
    not start an extension. *)
Definition stem_extension (c : str) : str * option str :=
  match rsplit_once (ch ".") c with
  | Some (stem, ext) => if is_empty stem then (c, None) else (stem, Some ext)
  | None => (c, None)
  end.
Definition with_extension (c ext : str) : str := (stem_extension c).1 ++ "." ++ ext.

(** [xs.windows(2)]. *)
Definition windows2 {A} (xs : list A) : list (A * A) := zip xs (tail xs).

(** ** Numbers *)

Definition digit_char (d : N) : char := (48 + d)%N.
Fixpoint dec_go (fuel : nat) (n : N) (acc : str) : str :=
  match fuel with
  | O => acc
  | S fuel =>
      let acc := digit_char (n mod 10) :: acc in
      if (n <? 10)%N then acc else dec_go fuel (n / 10) acc
  end.
(** Decimal rendering, [format!("{n}")]; the binary length of [n] bounds the
    number of decimal digits, so the fuel never runs out. *)
Definition dec (n : N) : str := dec_go (S (N.size_nat n)) n [].

(** The value of a run of decimal digits. *)
Fixpoint digits_value (acc : N) (s : str) : option N :=
  match s with
  | [] => Some acc
  | c :: s =>
      if is_ascii_digit c then digits_value (acc * 10 + (c - 48))%N s else None
  end.
(** [s.parse::<uN>()] for an unsigned type with maximum [max]: an optional
    plus sign and at least one digit, the value not above [max]. *)
Definition parse_uint (max : N) (s : str) : option N :=
  let body := match strip_prefix "+" s with Some r => r | None => s end in
  if is_empty body then None
  else v ← digits_value 0 body; if (v <=? max)%N then Some v else None.

Definition U8_MAX : N := 255.
Definition U16_MAX : N := 65535.
Definition U32_MAX : N := 4294967295.
Definition U64_MAX : N := 18446744073709551615.
Definition I64_MAX : N := 9223372036854775807.

(** [s.parse::<i64>()]. *)
Definition parse_i64 (s : str) : option Z :=
  match strip_prefix "-" s with
  | Some r => if starts_with "+" r then None else n ← parse_uint 9223372036854775808 r; Some (- Z.of_N n)%Z
  | None => n ← parse_uint 9223372036854775807 s; Some (Z.of_N n)
  end.

(** [format!("{s:?}")]: the escaping of [str]'s [Debug] on the characters it
    escapes by name and on the other ASCII control characters; the remaining
    characters stand for themselves (the Unicode tables that make [Debug] escape
    unprintable non-ASCII characters are not modelled; only the text of error
    messages depends on it). *)
Definition hex_digit (d : N) : char := if (d <? 10)%N then (48 + d)%N else (87 + d)%N.
Definition debug_char (c : char) : str :=
  if (c =? 34)%N then [92; 34]%N
  else if (c =? 92)%N then [92; 92]%N
  else if (c =? 10)%N then [92; 110]%N
  else if (c =? 13)%N then [92; 114]%N
  else if (c =? 9)%N then [92; 116]%N
  else if (c =? 0)%N then [92; 48]%N
  else if is_ascii_control c then
    lit "\u{" ++ (if (c <? 16)%N then [hex_digit c]
                  else [hex_digit (c / 16); hex_digit (c mod 16)]) ++ lit "}"
  else [c].
Definition debug_str (s : str) : str := [34%N] ++ flat_map debug_char s ++ [34%N].

#[global] Arguments lit : simpl never.
#[global] Arguments str_eqb : simpl never.
#[global] Arguments str_in : simpl never.
#[global] Arguments starts_with : simpl never.
#[global] Arguments ends_with : simpl never.
#[global] Arguments contains_char : simpl never.
#[global] Arguments len : simpl never.
#[global] Arguments utf8_encode : simpl never.

(** ** Lemmas *)

Lemma str_eqb_eq (a b : str) : (a =s? b) = true ↔ a = b.
Proof. apply bool_decide_eq_true. Qed.
Lemma str_eqb_neq (a b : str) : (a =s? b) = false ↔ a ≠ b.
Proof. apply bool_decide_eq_false. Qed.
Lemma str_eqb_refl (a : str) : (a =s? a) = true.
Proof. by apply str_eqb_eq. Qed.

#[export] Hint Rewrite str_eqb_eq str_eqb_neq : rust_bool.

Lemma str_in_spec (s : str) (alts : list string) :
  str_in s alts = true ↔ ∃ a, a ∈ alts ∧ s = lit a.
Proof. unfold str_in. rewrite existsb_Exists. by setoid_rewrite str_eqb_eq. Qed.

Lemma is_empty_true (s : str) : is_empty s = true ↔ s = [].
Proof. by destruct s. Qed.
Lemma is_empty_false (s : str) : is_empty s = false ↔ s ≠ [].
Proof. by destruct s. Qed.
#[export] Hint Rewrite is_empty_true is_empty_false : rust_bool.

Lemma strip_prefix_Some (p s r : str) : strip_prefix p s = Some r ↔ s = p ++ r.
Proof.
  revert s; induction p as [|a p IH]; intros s; simpl; [naive_solver|].
  destruct s as [|b s]; [naive_solver|].
  destruct (N.eqb_spec a b) as [->|]; [rewrite IH|]; naive_solver.
Qed.

Lemma strip_prefix_app (p r : str) : strip_prefix p (p ++ r) = Some r.
Proof. by apply strip_prefix_Some. Qed.

Lemma starts_with_spec (p s : str) : starts_with p s = true ↔ ∃ r, s = p ++ r.
Proof.
  unfold starts_with. setoid_rewrite <- strip_prefix_Some.
  destruct (strip_prefix p s); naive_solver.
Qed.

(** A one-character prefix looks at the first character only. *)
Lemma starts_with_char (a x : char) (s : str) : starts_with [a] (x :: s) = (a =? x)%N.
Proof. unfold starts_with. cbn [strip_prefix]. by destruct (a =? x)%N. Qed.

Lemma ends_with_spec (p s : str) : ends_with p s = true ↔ ∃ r, s = r ++ p.
Proof.
  unfold ends_with. rewrite starts_with_spec. split; intros [r Hr].
  - exists (reverse r). apply (inj reverse). by rewrite Hr, reverse_app, reverse_involutive.
  - exists (reverse r). by rewrite Hr, reverse_app.
Qed.

Lemma contains_spec (p s : str) : contains p s = true ↔ ∃ a b, s = a ++ p ++ b.
Proof.
  induction s as [|c s IH]; simpl; rewrite orb_true_iff, starts_with_spec.
  - split.
    + intros [[r Hr]|?]; [by exists [], r | done].
    + intros (a & b & Hab). left. exists b. by destruct a.
  - rewrite IH. split.
    + intros [[r ->]|(a & b & ->)]; [by exists [], r | by exists (c :: a), b].
    + intros ([|x a] & b & Hab); [left; by exists b|right].
      simplify_eq/=. by exists a, b.
Qed.

Lemma contains_char_spec (c : char) (s : str) : contains_char c s = true ↔ c ∈ s.
Proof. unfold contains_char. rewrite existsb_Exists. setoid_rewrite N.eqb_eq. naive_solver. Qed.
Lemma contains_char_false (c : char) (s : str) : contains_char c s = false ↔ c ∉ s.
Proof. rewrite <- contains_char_spec. by destruct (contains_char c s). Qed.
#[export] Hint Rewrite contains_char_spec contains_char_false : rust_bool.

(** *** [split] and [join] *)

Lemma split_cons (c : char) (s : str) : ∃ p ps, split c s = p :: ps.
Proof.
  induction s as [|x s (p & ps & IH)]; simpl; [eauto|].
  rewrite IH. destruct (x =? c)%N; eauto.
Qed.

Lemma split_sep (c : char) (a b : str) : split c (a ++ c :: b) = split c a ++ split c b.
Proof.
  induction a as [|x a IH]; simpl; [by rewrite N.eqb_refl|].
  rewrite IH. destruct (x =? c)%N; [done|].
  by destruct (split_cons c a) as (p & ps & ->).
Qed.

Lemma split_nosep (c : char) (s : str) : c ∉ s → split c s = [s].
Proof.
  induction s as [|x s IH]; [done|]; intros Hs; simpl.
  destruct (N.eqb_spec x c); [set_solver|]. rewrite IH by set_solver. done.
Qed.

Lemma split_no_sep (c : char) (s : str) : Forall (λ p, c ∉ p) (split c s).
Proof.
  induction s as [|x s IH]; simpl; [repeat constructor; set_solver|].
  destruct (N.eqb_spec x c); [constructor; [set_solver|done]|].
  destruct (split_cons c s) as (p & ps & Hp). rewrite Hp in *.
  apply Forall_cons in IH as [? ?]. constructor; set_solver.
Qed.

Lemma join_split (c : char) (s : str) : join [c] (split c s) = s.
Proof.
  induction s as [|x s IH]; [done|]; simpl.
  destruct (split_cons c s) as (p & ps & Hp). rewrite Hp in *.
  destruct (N.eqb_spec x c) as [->|]; simpl; [by rewrite <- IH|].
  by destruct ps; simpl in *; rewrite <- IH.
Qed.

(** A part of a split sits between the separator or the ends of the string. *)
Lemma elem_of_split (c : char) (s p : str) :
  p ∈ split c s →
  s = p ∨ (∃ b, s = p ++ c :: b) ∨ (∃ a, s = a ++ c :: p) ∨
  (∃ a b, s = a ++ c :: p ++ c :: b).
Proof.
  intros Hp. assert (Hs := join_split c s). apply list_elem_of_split in Hp as (l1 & l2 & Hl).
  rewrite Hl in Hs. clear Hl. revert s Hs.
  induction l1 as [|q l1 IH]; intros s Hs; simpl in Hs.
  - destruct l2 as [|q l2]; [by left|]. right; left. by eexists.
  - destruct (IH (join [c] (l1 ++ p :: l2)) eq_refl) as [E|[[b E]|[[a E]|(a & b & E)]]];
      destruct (l1 ++ p :: l2) as [|t ts] eqn:Et; try (by destruct l1); rewrite E in Hs.
    + do 2 right; left. by exists q.
    + do 3 right. by exists q, b.
    + do 2 right; left. exists (q ++ c :: a). by rewrite <- Hs, <- app_assoc.
    + do 3 right. exists (q ++ c :: a), b. by rewrite <- Hs, <- !app_assoc.
Qed.

Lemma split_once_Some (c : char) (s a b : str) :
  split_once c s = Some (a, b) ↔ s = a ++ c :: b ∧ c ∉ a.
Proof.
  revert a; induction s as [|x s IH]; intros a; simpl.
  - split; [done|]. intros [? _]. by destruct a.
  - destruct (N.eqb_spec x c) as [->|Hne].
    + split; [intros; simplify_eq; split; [done|set_solver]|].
      intros [Ha Hc]. destruct a as [|y a]; simplify_eq/=; [done|set_solver].
    + destruct (split_once c s) as [[a' b']|] eqn:E.
      * split.
        -- intros; simplify_eq. destruct (proj1 (IH a') eq_refl) as [-> ?].
           split; [done|set_solver].
        -- intros [Ha Hc]. destruct a as [|y a]; simplify_eq/=.
           assert (Some (a', b') = Some (a, b)) by (apply IH; set_solver). by simplify_eq.
      * split; [done|]. intros [Ha Hc]. destruct a as [|y a]; simplify_eq/=.
        assert (None = Some (a, b)) by (apply IH; set_solver). done.
Qed.

Lemma split_once_None (c : char) (s : str) : split_once c s = None ↔ c ∉ s.
Proof.
  induction s as [|x s IH]; simpl; [set_solver|].
  destruct (N.eqb_spec x c) as [->|Hne]; [set_solver|].
  destruct (split_once c s) as [[? ?]|]; set_solver.
Qed.

(** *** UTF-8 *)

Lemma utf8_encode_ascii (c : char) : (c < 128)%N → utf8_encode c = [c].
Proof. intros Hc. unfold utf8_encode. by rewrite (proj2 (N.ltb_lt c 128)). Qed.

Lemma utf8_encode_high (c b : N) : (128 <= c)%N → b ∈ utf8_encode c → (128 <= b)%N.
Proof.
  intros Hc. unfold utf8_encode. rewrite (proj2 (N.ltb_ge c 128)) by done.
  intros. repeat case_match; decompose_list_elem_of; subst b;
    match goal with |- (128 <= _ + ?x)%N => generalize x; lia end.
Qed.

Lemma utf8_encode_nonempty (c : char) : ∃ b bs, utf8_encode c = b :: bs.
Proof. unfold utf8_encode. repeat case_match; eauto. Qed.

(** A test of ASCII bytes sees the same thing on bytes and on characters. *)
Lemma forallb_bytes (p : N → bool) (s : str) :
  (∀ b, p b = true → (b < 128)%N) → forallb p (bytes s) = forallb p s.
Proof.
  intros Hp. induction s as [|c s IH]; [done|]. simpl. rewrite List.forallb_app, IH. f_equal.
  destruct (N.lt_ge_cases c 128) as [Hc|Hc].
  - rewrite utf8_encode_ascii by done. simpl. by rewrite andb_true_r.
  - destruct (utf8_encode_nonempty c) as (b & bs & E).
    assert (Hb : (128 <= b)%N) by (apply (utf8_encode_high c); [done | rewrite E; set_solver]).
    rewrite E. simpl.
    assert (p b = false) as -> by (apply not_true_is_false; intros ?%Hp; lia).
    symmetry. apply not_true_is_false. intros ?%Hp. lia.
Qed.

Definition is_ascii (c : char) : bool := (c <? 128)%N.

Lemma bytes_ascii (s : str) : forallb is_ascii s = true → bytes s = s.
Proof.
  induction s as [|c s IH]; [done|]. unfold is_ascii at 1. simpl. bool_prop.
  intros [Hc Hs]. rewrite utf8_encode_ascii by done. simpl. f_equal. auto.
Qed.

Lemma len_ascii (s : str) : forallb is_ascii s = true → len s = N.of_nat (length s).
Proof. intros H. unfold len. by rewrite bytes_ascii. Qed.

Lemma in_range_spec (lo hi c : N) : in_range lo hi c = true ↔ (lo <= c <= hi)%N.
Proof. unfold in_range. bool_prop. lia. Qed.
#[export] Hint Rewrite in_range_spec : rust_bool.

Lemma char_in_spec (c : char) (alts : string) : char_in c alts = true ↔ c ∈ lit alts.
Proof. apply contains_char_spec. Qed.

(** Bytes accepted by an [is_ascii_alphanumeric() || matches!(b, ...)] test. *)
Definition alnum_or (alts : string) (b : N) : bool :=
  is_ascii_alphanumeric b || char_in b alts.

Lemma lit_ascii (s : string) (c : char) :
  forallb is_ascii (lit s) = true → c ∈ lit s → (c < 128)%N.
Proof. rewrite forallb_Forall, Forall_forall. intros H Hc. apply N.ltb_lt, (H c Hc). Qed.

Lemma alnum_or_ascii (alts : string) (b : N) :
  forallb is_ascii (lit alts) = true → alnum_or alts b = true → (b < 128)%N.
Proof.
  intros Ha. unfold alnum_or, is_ascii_alphanumeric, is_ascii_digit,
    is_ascii_uppercase, is_ascii_lowercase. rewrite !orb_true_iff, !in_range_spec, char_in_spec.
  intros [?|?]; [lia|]. eauto using lit_ascii.
Qed.

(** *** Decimal numbers *)

Lemma dec_go_digits (fuel : nat) (n : N) (acc : str) :
  Forall (λ c, is_ascii_digit c = true) acc →
  Forall (λ c, is_ascii_digit c = true) (dec_go fuel n acc).
Proof.
  revert n acc; induction fuel as [|fuel IH]; intros n acc Hacc; [done|]. cbn [dec_go]. cbv zeta.
  assert (is_ascii_digit (digit_char (n mod 10)) = true) as Hd.
  { unfold is_ascii_digit, digit_char. apply in_range_spec. generalize (N.mod_lt n 10 ltac:(done)). generalize (n mod 10)%N. lia. }
  case_match; [by constructor|]. apply IH. by constructor.
Qed.

Lemma dec_digits (n : N) : Forall (λ c, is_ascii_digit c = true) (dec n).
Proof. by apply dec_go_digits. Qed.

Lemma dec_go_length (fuel k : nat) (n : N) (acc : str) :
  (n < 10 ^ N.of_nat (S k))%N →
  (length (dec_go fuel n acc) ≤ S k + length acc)%nat.
Proof.
  revert k n acc; induction fuel as [|fuel IH]; intros k n acc Hn; [simpl; lia|].
  cbn [dec_go]. cbv zeta. destruct (N.ltb_spec n 10); [simpl; lia|].
  destruct k as [|k].
  { change (10 ^ N.of_nat 1)%N with 10%N in Hn. lia. }
  etransitivity; [apply (IH k)|simpl; lia].
  rewrite Nat2N.inj_succ, N.pow_succ_r' in Hn. apply N.Div0.div_lt_upper_bound. lia.
Qed.

Lemma dec_length (k : nat) (n : N) : (n < 10 ^ N.of_nat (S k))%N → (length (dec n) ≤ S k)%nat.
Proof. intros H. etransitivity; [by apply (dec_go_length _ k)|simpl; lia]. Qed.

Lemma digits_ascii (s : str) :
  Forall (λ c, is_ascii_digit c = true) s → forallb is_ascii s = true.
Proof.
  intros H. apply forallb_Forall. eapply Forall_impl; [exact H|]. intros c.
  unfold is_ascii_digit, is_ascii. rewrite in_range_spec, N.ltb_lt. lia.
Qed.

(** ** Trimming *)

Lemma drop_while_none (p : char → bool) (s : str) :
  Forall (λ c, p c = false) s → drop_while p s = s.
Proof. destruct 1 as [|c s Hc _]; simpl; [done|by rewrite Hc]. Qed.

Lemma drop_while_suffix (p : char → bool) (s : str) :
  ∃ u, s = u ++ drop_while p s.
Proof.
  induction s as [|c s [u IH]]; [by exists []|]. simpl. destruct (p c).
  - exists (c :: u). simpl. by rewrite <- IH.
  - by exists [].
Qed.

Lemma trim_end_by_prefix (p : char → bool) (s : str) :
  ∃ u, s = trim_end_by p s ++ u.
Proof.
  unfold trim_end_by. destruct (drop_while_suffix p (reverse s)) as [u Hu].
  exists (reverse u). by rewrite <- reverse_app, <- Hu, reverse_involutive.
Qed.

Lemma trim_end_by_last (p : char → bool) (s : str) (c : char) :
  p c = false → trim_end_by p (s ++ [c]) = s ++ [c].
Proof.
  intros Hc. unfold trim_end_by. rewrite reverse_app. simpl. rewrite Hc.
  by rewrite reverse_cons, reverse_involutive.
Qed.

Lemma drop_while_app (p : char → bool) (s t : str) :
  drop_while p s ≠ [] → drop_while p (s ++ t) = drop_while p s ++ t.
Proof. induction s as [|c s IH]; simpl; [done|]. by destruct (p c). Qed.

(** Lines with their terminators, taken apart again. *)
Lemma split_lines (c : char) (ls : list str) :
  Forall (λ l, c ∉ l) ls → split c (concat (map (λ l, l ++ [c]) ls)) = ls ++ [[]].
Proof.
  induction 1 as [|l ls Hl _ IH]; simpl; [done|].
  rewrite <- app_assoc. simpl. by rewrite split_sep, split_nosep, IH.
Qed.

(** A string without white space at its ends is trimmed, and the other way round. *)
Lemma trim_id s : (∀ c, head s = Some c → is_whitespace c = false) →
  (∀ c, last s = Some c → is_whitespace c = false) → trim s = s.
Proof.
  intros Hh Hl. destruct s as [|c s]; [done|]. unfold trim, trim_start, trim_start_by.
  simpl. rewrite (Hh c eq_refl). unfold trim_end, trim_end_by.
  destruct (reverse (c :: s)) as [|d r] eqn:E; [by apply (f_equal reverse) in E; rewrite reverse_involutive in E|].
  assert (c :: s = reverse r ++ [d]) as Es by (by rewrite <- reverse_cons, <- E, reverse_involutive).
  simpl. rewrite (Hl d) by (by rewrite Es, last_snoc). by rewrite reverse_cons.
Qed.
Lemma drop_while_head (p : char → bool) (s : str) c : head (drop_while p s) = Some c → p c = false.
Proof. induction s as [|x s IH]; simpl; [done|]. destruct (p x) eqn:E; [done|]. by intros [= <-]. Qed.
Lemma trim_head s c : head (trim s) = Some c → is_whitespace c = false.
Proof.
  unfold trim, trim_end, trim_start, trim_start_by. intros Hc. apply (drop_while_head _ s).
  destruct (trim_end_by_prefix is_whitespace (drop_while is_whitespace s)) as [u Hu].
  rewrite Hu. by destruct (trim_end_by _ _).
Qed.
Lemma trim_last s c : last (trim s) = Some c → is_whitespace c = false.
Proof.
  unfold trim, trim_end, trim_end_by. rewrite last_reverse. apply drop_while_head.
Qed.
Lemma trim_trim s : trim (trim s) = trim s.
Proof. apply trim_id; [apply trim_head|apply trim_last]. Qed.
Lemma lower_whitespace c : is_whitespace (to_ascii_lower c) = is_whitespace c.
Proof.
  unfold to_ascii_lower, is_ascii_uppercase, in_range.
  destruct ((65 <=? c) && (c <=? 90))%N eqn:E; [|done].
  apply andb_true_iff in E as [H1%N.leb_le H2%N.leb_le]. apply eq_true_iff_eq.
  unfold is_whitespace, in_range. rewrite !orb_true_iff, !andb_true_iff, ?N.leb_le, ?N.eqb_eq. lia.
Qed.
Lemma trim_lower s : trim (to_ascii_lowercase (trim s)) = to_ascii_lowercase (trim s).
Proof.
  apply trim_id; intros c; unfold to_ascii_lowercase.
  - destruct (trim s) as [|x t] eqn:E; [done|]. intros [= <-]. rewrite lower_whitespace.
    apply (trim_head s). by rewrite E.
  - change (map to_ascii_lower (trim s)) with (to_ascii_lower <$> trim s). rewrite fmap_last.
    intros (x & Hx%trim_last & ->)%fmap_Some. by rewrite lower_whitespace.
Qed.
Lemma lower_lower s : to_ascii_lowercase (to_ascii_lowercase s) = to_ascii_lowercase s.
Proof.
  unfold to_ascii_lowercase. rewrite map_map. apply map_ext. intros c.
  unfold to_ascii_lower, is_ascii_uppercase, in_range.
  destruct ((65 <=? c) && (c <=? 90))%N eqn:E; [|by rewrite E].
  apply andb_true_iff in E as [H1%N.leb_le H2%N.leb_le].
  destruct ((65 <=? _) && _)%N eqn:E2; [|done]. apply andb_true_iff in E2 as [_ H3%N.leb_le]. lia.
Qed.

#[global] Arguments strip_prefix : simpl never.
#[global] Arguments contains : simpl never.
#[global] Arguments split_once : simpl never.
