(* ===== verification/BrokerArgs.v ===== *)
(** * The broker's argument validation (src/src/broker/mod.rs)

    The root-owned broker accepts a host command only after [validate_exec]: the
    program must be in a fixed table, every argument must be bounded and free of
    control characters, the subcommand must be one DaygleVE uses
    ([validate_exec_shape]) and the paths, datasets, devices and names among the
    arguments must be confined ([validate_exec_args]).  The definitions follow
    the source function by function; a [while index < args.len()] loop is a
    recursion over the arguments that are left. *)

From S2P Require Export RustStr.

(** [Result<(), String>]. *)
Abbreviation check := (result str unit).

(** ** The program table *)

Definition PROGRAMS : list (string * string) :=
  [("bridge", "/usr/sbin/bridge"); ("ip", "/usr/sbin/ip");
   ("lxc-cgroup", "/usr/bin/lxc-cgroup"); ("lxc-console", "/usr/bin/lxc-console");
   ("lxc-create", "/usr/bin/lxc-create"); ("lxc-destroy", "/usr/bin/lxc-destroy");
   ("lxc-freeze", "/usr/bin/lxc-freeze"); ("lxc-info", "/usr/bin/lxc-info");
   ("lxc-ls", "/usr/bin/lxc-ls"); ("lxc-start", "/usr/bin/lxc-start");
   ("lxc-stop", "/usr/bin/lxc-stop"); ("lxc-unfreeze", "/usr/bin/lxc-unfreeze");
   ("mount", "/usr/bin/mount"); ("nft", "/usr/sbin/nft");
   ("genisoimage", "/usr/bin/genisoimage"); ("xorriso", "/usr/bin/xorriso");
   ("qemu-img", "/usr/bin/qemu-img"); ("smartctl", "/usr/sbin/smartctl");
   ("wipefs", "/usr/sbin/wipefs"); ("umount", "/usr/bin/umount");
   ("virsh", "/usr/bin/virsh"); ("zfs", "/usr/sbin/zfs");
   ("zpool", "/usr/sbin/zpool")].

Fixpoint assoc (k : str) (l : list (string * string)) : option str :=
  match l with
  | [] => None
  | (a, b) :: l => if k =s? a then Some (lit b) else assoc k l
  end.

Definition program_path (program : str) : option str := assoc program PROGRAMS.

(** ** Single values *)

Definition validate_arg (arg : str) : check :=
  if contains_char 0 arg then Err (lit "argument contains NUL")
  else if (4096 <? len arg)%N then Err (lit "argument exceeds 4096 bytes")
  else Ok tt.

Definition safe_zfs_value (value : str) : bool :=
  negb (starts_with "-" value)
  && negb (contains "/../" value)
  && negb (ends_with "/.." value)
  && negb (existsb (λ c, is_control c || is_whitespace c) value)
  && forallb (alnum_or "._-:/@=,%") (bytes value).

Definition safe_zfs_property (value : str) : bool :=
  match split_once (ch "=") value with
  | None => false
  | Some (key, property) =>
      let key_allowed := (key =s? "daygleve:description") || (key =s? "quota") in
      key_allowed
      && negb (is_empty property)
      && (len property <=? 512)%N
      && negb (existsb is_control property)
      && forallb (alnum_or "._- ") (bytes property)
  end.

Definition safe_block_device (value : str) : bool :=
  match strip_prefix "/dev/" value with
  | None => false
  | Some name =>
      negb (is_empty name)
      && negb (contains_char (ch "/") name)
      && negb (starts_with "-" name)
      && forallb (alnum_or "._-") (bytes name)
  end.

Definition safe_cli_name (value : str) : bool :=
  negb (is_empty value)
  && (len value <=? 128)%N
  && negb (starts_with "-" value)
  && forallb (alnum_or "._-/:") (bytes value).

Definition safe_dataset (value : str) : bool :=
  negb (contains_char (ch "@") value)
  && negb (starts_with "/" value)
  && negb (starts_with "-" value)
  && negb (ends_with "/" value)
  && forallb (λ part, negb (is_empty part) && negb (part =s? ".") && negb (part =s? ".."))
       (split (ch "/") value)
  && forallb (alnum_or "._-:/") (bytes value).

Definition safe_snapshot_ref (value : str) : bool :=
  match split_once (ch "@") value with
  | None => false
  | Some (dataset, snapshot) =>
      safe_dataset dataset
      && negb (is_empty snapshot)
      && forallb (alnum_or "._-:") (bytes snapshot)
  end.

Definition validate_zfs_dataset_path (value : str) : check :=
  if safe_dataset value then Ok tt else Err (lit "ZFS dataset path is unsafe").

Definition safe_abs_path (value prefix : str) (suffix : option str) : bool :=
  starts_with prefix value
  && negb (contains "/../" value)
  && negb (ends_with "/.." value)
  && match suffix with None => true | Some ending => ends_with ending value end.

(** [safe_abs_path(value, "/var/lib/daygleve/", _)]. *)
Definition STATE_PREFIX : str := "/var/lib/daygleve/".
Definition in_state (value : str) : bool := safe_abs_path value STATE_PREFIX None.
Definition in_state_xml (value : str) : bool :=
  safe_abs_path value STATE_PREFIX (Some (lit ".xml")).

Definition safe_zvol_device (value : str) : bool :=
  match strip_prefix "/dev/zvol/" value with
  | Some dataset => safe_dataset dataset
  | None => false
  end.

(** ** zfs and zpool *)

Fixpoint zfs_args_loop (command : str) (index : nat) (args : list str) : check :=
  match args with
  | [] => Ok tt
  | arg :: rest =>
      if str_in arg ["-H"; "-h"; "-p"; "-Hp"; "-r"; "-F"] then
        zfs_args_loop command (index + 1) rest
      else if str_in arg ["-o"; "-t"; "-d"; "-V"] then
        match rest with
        | [] => Err (arg ++ " requires a value")
        | value :: rest' =>
            if negb (safe_zfs_value value) then Err (lit "ZFS option value is unsafe")
            else zfs_args_loop command (index + 2) rest'
        end
      else if (command =s? "send") && (arg =s? "-i") then
        match rest with
        | [] => Err (lit "-i requires a base snapshot value")
        | value :: rest' =>
            if (command =s? "send") && negb (safe_snapshot_ref value) then
              Err (lit "ZFS incremental base snapshot is unsafe")
            else zfs_args_loop command (index + 2) rest'
        end
      else if starts_with "-" arg then
        Err ("ZFS option `" ++ arg ++ "` is not permitted")
      else
        (if (command =s? "set") && (index =? 1)%nat then
           if negb (safe_zfs_property arg) then
             Err (lit "ZFS set requires a constrained property=value argument")
           else Ok tt
         else if contains_char (ch "@") arg then
           if negb (safe_snapshot_ref arg) then
             Err (lit "ZFS snapshot reference is unsafe")
           else Ok tt
         else if negb (safe_dataset arg) then
           Err (lit "ZFS dataset argument is unsafe")
         else Ok tt)
        ;? zfs_args_loop command (index + 1) rest
  end.

Definition first_or_default (args : list str) : str :=
  match args with a :: _ => a | [] => [] end.

Definition validate_zfs_args (args : list str) : check :=
  zfs_args_loop (first_or_default args) 1 (tail args).

Fixpoint zpool_args_loop (args : list str) : check :=
  match args with
  | [] => Ok tt
  | arg :: rest =>
      if str_in arg ["-H"; "-p"; "-Hp"; "-L"; "-P"] then zpool_args_loop rest
      else if arg =s? "-o" then
        match rest with
        | [] => Err (lit "zpool -o requires a value")
        | value :: rest' =>
            if negb (safe_zfs_value value) then Err (lit "zpool column list is unsafe")
            else zpool_args_loop rest'
        end
      else if starts_with "-" arg then
        Err ("zpool option `" ++ arg ++ "` is not permitted")
      else if negb (safe_dataset arg) then
        Err (lit "zpool argument contains an unsafe value")
      else zpool_args_loop rest
  end.

Definition validate_zpool_args (args : list str) : check :=
  let command := first_or_default args in
  if command =s? "create" then
    let rest := tail args in
    let rest := match rest with a :: r => if a =s? "-f" then r else rest | [] => rest end in
    match rest with
    | [] => Err (lit "zpool create requires a name")
    | name :: rest =>
        if negb (safe_cli_name name) then Err (lit "zpool name is unsafe")
        else
          let rest :=
            match rest with
            | a :: r => if str_in a ["mirror"; "raidz1"; "raidz2"; "raidz3"] then r else rest
            | [] => rest
            end in
          match rest with
          | [] => Err (lit "zpool create requires devices")
          | _ =>
              for_each (λ device,
                if negb (safe_block_device device)
                then Err (lit "zpool device must be a /dev/<disk> path")
                else Ok tt) rest
          end
    end
  else zpool_args_loop (tail args).

(** ** smartctl, wipefs, qemu-img *)

Definition validate_smartctl_args (args : list str) : check :=
  let err := Err (lit "smartctl requires exactly `-j -a /dev/<disk>`") in
  match args with
  | [json; all; path] =>
      if (json =s? "-j") && (all =s? "-a") && safe_block_device path then Ok tt else err
  | _ => err
  end.

Definition validate_wipefs_args (args : list str) : check :=
  let err := Err (lit "wipefs requires exactly `-a /dev/<disk>`") in
  match args with
  | [flag; path] => if (flag =s? "-a") && safe_block_device path then Ok tt else err
  | _ => err
  end.

Definition qemu_option_error {A} (arg : str) : result str A :=
  Err ("qemu-img option `" ++ arg ++ "` is not permitted").

(** The positionals of [qemu-img info]. *)
Fixpoint qemu_info_loop (positionals : list str) (args : list str) : result str (list str) :=
  match args with
  | [] => Ok positionals
  | arg :: rest =>
      if arg =s? "--output=json" then qemu_info_loop positionals rest
      else if starts_with "-" arg then qemu_option_error arg
      else qemu_info_loop (positionals ++ [arg]) rest
  end.

(** The output format and the positionals of [qemu-img convert]. *)
Fixpoint qemu_convert_loop (format : option str) (positionals : list str)
    (args : list str) : result str (option str * list str) :=
  match args with
  | [] => Ok (format, positionals)
  | arg :: rest =>
      if arg =s? "-O" then
        match rest with
        | [] => Err (lit "qemu-img -O requires a value")
        | value :: rest' =>
            if negb (value =s? "raw") then
              Err (lit "qemu-img convert output format must be raw")
            else qemu_convert_loop (Some value) positionals rest'
        end
      else if str_in arg ["-p"; "-W"] then qemu_convert_loop format positionals rest
      else if starts_with "-" arg then qemu_option_error arg
      else qemu_convert_loop format (positionals ++ [arg]) rest
  end.

Definition validate_qemu_img_args (args : list str) : check :=
  match args with
  | [] => Err (lit "qemu-img subcommand is not permitted")
  | sub :: rest =>
      if sub =s? "info" then
        positionals ← qemu_info_loop [] rest;
        match positionals with
        | [src] =>
            if in_state src then Ok tt
            else Err (lit "qemu-img source is outside DaygleVE state")
        | _ => Err (lit "qemu-img info requires exactly one source path")
        end
      else if sub =s? "convert" then
        '(format, positionals) ← qemu_convert_loop None [] rest;
        match format with
        | None => Err (lit "qemu-img convert requires -O raw")
        | Some _ =>
            match positionals with
            | [src; dest] =>
                if negb (in_state src) then
                  Err (lit "qemu-img source is outside DaygleVE state")
                else if negb (safe_zvol_device dest) then
                  Err (lit "qemu-img destination is not a DaygleVE zvol device")
                else Ok tt
            | _ => Err (lit "qemu-img convert requires a source and destination")
            end
        end
      else Err (lit "qemu-img subcommand is not permitted")
  end.

(** ** mount *)

Definition safe_mount_source (filesystem source : str) : bool :=
  let prefix_ok :=
    if filesystem =s? "nfs" then
      match split_once (ch ":") source with
      | Some (host, export) =>
          negb (is_empty host) && negb (is_empty export) && negb (starts_with "-" export)
      | None => false
      end
    else if filesystem =s? "cifs" then
      starts_with "//" source && contains_char (ch "/") (drop 2 source)
    else false in
  prefix_ok
  && negb (contains ".." source)
  && negb (contains_char (ch ",") source)
  && negb (existsb (λ c, is_control c || is_whitespace c) source)
  && forallb (alnum_or "._-:/") (bytes source).

Definition MOUNT_DENIED : list string := ["rw"; "suid"; "dev"; "exec"; "remount"; "bind"].

Definition option_key (option : str) : str :=
  to_ascii_lowercase (first_or_default (split (ch "=") option)).

Definition validate_mount_option (option : str) : check :=
  let key := option_key option in
  if str_in key MOUNT_DENIED then Err ("mount option `" ++ key ++ "` is not permitted")
  else if key =s? "credentials" then
    let value := match split_once (ch "=") option with
                 | Some (_, value) => value | None => [] end in
    if negb (safe_abs_path value STATE_PREFIX (Some (lit ".cred"))) then
      Err (lit "credentials file is outside DaygleVE state")
    else Ok tt
  else Ok tt.

Definition validate_mount_options (options : str) : check :=
  if is_empty options || negb (forallb (alnum_or "=,._-:/") (bytes options)) then
    Err (lit "mount options contain unsafe characters")
  else for_each validate_mount_option (split (ch ",") options).

(** [arg_after]: the argument after the first occurrence of [flag] that has one. *)
Definition arg_after (args : list str) (flag : str) : option str :=
  match List.find (λ pair, fst pair =s? flag) (windows2 args) with
  | Some (_, value) => Some value
  | None => None
  end.

(** ** Container names *)

Definition lxc_name_char (c : char) : bool := is_ascii_alphanumeric c || char_in c "_-.".

Definition validate_lxc_name (name : str) : check :=
  let ok :=
    negb (is_empty name)
    && (len name <=? 64)%N
    && match name with c :: _ => is_ascii_alphanumeric c | [] => false end
    && forallb lxc_name_char name in
  if ok then Ok tt else Err ("invalid container name `" ++ name ++ "`").

(** ** [validate_exec_args] *)

(** [args.iter().skip_while(|a| a != command).skip(1)]. *)
Fixpoint after_command (command : str) (args : list str) : list str :=
  match args with
  | [] => []
  | a :: rest => if a =s? command then rest else after_command command rest
  end.

(** [args.iter().position(|a| a == flag)]. *)
Fixpoint position (flag : str) (args : list str) : option nat :=
  match args with
  | [] => None
  | a :: rest => if a =s? flag then Some O else S <$> position flag rest
  end.

Definition validate_virsh_args (args : list str) : check :=
  if negb (bool_decide (arg_after args "-c" = Some (lit "qemu:///system"))) then
    Err (lit "virsh must use qemu:///system")
  else
    command ← ok_or (lit "virsh command is missing")
                (i ← position "-c" args; args !! (i + 2)%nat);
    let rest := after_command command args in
    if str_in command ["attach-device"; "detach-device"] then
      match rest with
      | [domain; file] =>
          if negb (safe_cli_name domain) then
            Err (lit "virsh device target domain is unsafe")
          else if negb (in_state_xml file) then
            Err (lit "virsh device XML path is outside DaygleVE state")
          else Ok tt
      | _ => Err (lit "virsh attach/detach-device expects exactly a domain and an XML file")
      end
    else
      for_each (λ arg,
        if (command =s? "define") && negb (in_state_xml arg) then
          Err (lit "virsh define path is outside DaygleVE state")
        else if negb (command =s? "define") && negb (safe_cli_name arg)
                && negb (starts_with "-" arg) then
          Err (lit "virsh argument contains an unsafe value")
        else Ok tt) rest.

Definition validate_lxc_args (args : list str) : check :=
  match arg_after args "-n" with
  | Some container =>
      if negb (is_ok (validate_lxc_name container)) then
        Err (lit "LXC target name is unsafe")
      else Ok tt
  | None => Ok tt
  end
  ;? for_each (λ arg,
       if starts_with "/" arg && negb (in_state arg) then
         Err (lit "LXC path is outside DaygleVE state")
       else Ok tt) args.

Definition validate_network_args (args : list str) : check :=
  for_each (λ arg,
    if starts_with "/" arg || contains_char 0 arg || existsb is_control arg then
      Err (lit "network argument contains an unsafe value")
    else Ok tt) args.

Definition validate_mount_args (args : list str) : check :=
  filesystem ← ok_or (lit "mount type is required") (arg_after args "-t");
  if negb (str_in filesystem ["nfs"; "cifs"]) then
    Err (lit "only nfs and cifs mounts are permitted")
  else
    source ← ok_or (lit "mount source is required") (args !! (length args - 2)%nat);
    if negb (safe_mount_source filesystem source) then
      Err (lit "mount source is not a permitted network share")
    else
      match arg_after args "-o" with
      | Some options => validate_mount_options options
      | None => Ok tt
      end
      ;? let target := List.last args [] in
         if negb (in_state target) then
           Err (lit "mount target is outside DaygleVE state")
         else Ok tt.

Definition validate_umount_args (args : list str) : check :=
  let err := Err (lit "umount target is outside DaygleVE state") in
  match args with
  | [target] => if in_state target then Ok tt else err
  | _ => err
  end.

Definition validate_nft_args (args : list str) : check :=
  file ← ok_or (lit "nft requires -f with a batch file") (arg_after args "-f");
  if negb (in_state file) then Err (lit "nft batch file is outside DaygleVE state")
  else if existsb (λ a, (a =s? "flush") || (a =s? "delete")) args then
    Err (lit "nft flush/delete is not permitted")
  else Ok tt.

Definition validate_iso_args (args : list str) : check :=
  for_each (λ arg,
    if starts_with "/" arg && negb (in_state arg) then
      Err (lit "ISO tool path is outside DaygleVE state")
    else Ok tt) args.

Definition validate_exec_args (program : str) (args : list str) : check :=
  if program =s? "virsh" then validate_virsh_args args
  else if program =s? "zfs" then validate_zfs_args args
  else if program =s? "zpool" then validate_zpool_args args
  else if program =s? "smartctl" then validate_smartctl_args args
  else if program =s? "wipefs" then validate_wipefs_args args
  else if starts_with "lxc-" program then validate_lxc_args args
  else if str_in program ["ip"; "bridge"] then validate_network_args args
  else if program =s? "mount" then validate_mount_args args
  else if program =s? "umount" then validate_umount_args args
  else if program =s? "nft" then validate_nft_args args
  else if str_in program ["genisoimage"; "xorriso"] then validate_iso_args args
  else if program =s? "qemu-img" then validate_qemu_img_args args
  else Ok tt.

(** ** [validate_exec_shape] and [validate_exec] *)

(** The [virsh] subcommand: the first argument after the leading options, of
    which [-c] takes a value. *)
Fixpoint virsh_subcommand (args : list str) : option str :=
  match args with
  | [] => None
  | a :: rest =>
      if a =s? "-c" then
        match rest with [] => None | _ :: rest' => virsh_subcommand rest' end
      else if starts_with "-" a then virsh_subcommand rest
      else Some a
  end.

Definition subcommand_in (subcommand : option str) (allowed : list string) : bool :=
  match subcommand with Some s => str_in s allowed | None => false end.

(** [args.windows(2).any(|pair| pair == [a, b])]. *)
Definition has_pair (args : list str) (a b : string) : bool :=
  existsb (λ pair, (fst pair =s? a) && (snd pair =s? b)) (windows2 args).

Definition VIRSH_SUBCOMMANDS : list string :=
  ["list"; "domstate"; "hostname"; "start"; "shutdown"; "destroy"; "reboot"; "reset";
   "pause"; "resume"; "define"; "undefine"; "domrename"; "vncdisplay"; "ttyconsole";
   "domdisplay"; "qemu-agent-command"; "domifaddr"; "domfsfreeze"; "domfsthaw"; "save";
   "restore"; "blockresize"; "attach-disk"; "detach-disk"; "attach-device";
   "detach-device"].
Definition ZFS_SUBCOMMANDS : list string :=
  ["list"; "create"; "set"; "destroy"; "snapshot"; "clone"; "promote"; "rollback";
   "send"; "receive"].

Definition shape_allowed (program : str) (args : list str) : bool :=
  let subcommand := if program =s? "virsh" then virsh_subcommand args else head args in
  if program =s? "virsh" then subcommand_in subcommand VIRSH_SUBCOMMANDS
  else if program =s? "zfs" then subcommand_in subcommand ZFS_SUBCOMMANDS
  else if program =s? "zpool" then subcommand_in subcommand ["list"; "status"; "create"]
  else if str_in program ["lxc-create"; "lxc-destroy"; "lxc-start"; "lxc-stop";
                          "lxc-freeze"; "lxc-unfreeze"; "lxc-info"; "lxc-cgroup"; "lxc-ls"]
  then true
  else if program =s? "ip" then
    has_pair args "link" "show" || has_pair args "addr" "show"
    || has_pair args "link" "add" || has_pair args "link" "set"
    || has_pair args "link" "del" || has_pair args "addr" "add"
  else if program =s? "bridge" then subcommand_in subcommand ["vlan"]
  else if program =s? "mount" then existsb (λ arg, arg =s? "-t") args
  else if program =s? "umount" then negb (match args with [] => true | _ => false end)
  else if program =s? "nft" then existsb (λ arg, arg =s? "-f") args
  else if str_in program ["genisoimage"; "xorriso"] then true
  else if program =s? "qemu-img" then subcommand_in subcommand ["info"; "convert"]
  else if str_in program ["smartctl"; "wipefs"] then true
  else false.

Definition validate_exec_shape (program : str) (args : list str) : check :=
  if negb (shape_allowed program args) then
    Err ("command shape for `" ++ program ++ "` is not permitted")
  else validate_exec_args program args.

Definition validate_exec_arg (arg : str) : check :=
  map_err (λ e, "invalid argument: " ++ e) (validate_arg arg)
  ;? if existsb is_control arg then Err (lit "argument contains a control character")
     else Ok tt.

Definition validate_exec (program : str) (args : list str) : check :=
  match program_path program with
  | None => Err ("program `" ++ program ++ "` is not permitted")
  | Some _ =>
      if (256 <? length args)%nat then Err (lit "too many arguments (max 256)")
      else for_each validate_exec_arg args
           ;? validate_exec_shape program args
  end.
