(* ===== verification/BrokerProto.v ===== *)
(** * The broker protocol (src/src/broker/mod.rs)

    Requests, the frames that carry them, and [validate_request], the check that
    every request passes before the root-owned broker performs anything:
    container config blocks, PCI writes, console devices and (through
    [BrokerArgs]) host commands. *)

From S2P Require Export BrokerArgs.

(** ** Requests *)

Inductive PciWriteKind := Unbind | Override | Bind.

Inductive Op :=
  | Ping
  | Exec (program : str) (args : list str) (stream stdin_stream : bool) (timeout_secs : N)
  | PciWrite (kind : PciWriteKind) (address : str)
  | LxcConfigAppend (name block : str)
  | LxcRootfsSet (name dataset : str)
  | ConsoleAttach (pty : str) (timeout_secs : N)
  | LxcConsoleAttach (name : str) (timeout_secs : N).

Record Request := mkRequest { req_v : N; req_id : str; req_op : Op }.

Definition PROTOCOL_VERSION : N := 1.
Definition CONTROL_FRAME_MAX : N := 1024 * 1024.
Definition EXEC_TIMEOUT_CAP : N := 900.

(** ** Responses *)

Record Response := mkResponse {
  resp_ok : bool; resp_stdout : str; resp_stderr : str; resp_code : option Z;
  resp_error_kind : option str; resp_error : option str }.

Definition success (stdout stderr : str) (code : Z) : Response :=
  mkResponse true stdout stderr (Some code) None None.
Definition failure (error : str) : Response :=
  mkResponse false [] [] None (Some (lit "protocol")) (Some error).
Definition spawn_not_found (error : str) : Response :=
  mkResponse false [] [] None (Some (lit "spawn_not_found")) (Some error).
Definition exec_failed (error stderr : str) : Response :=
  mkResponse false [] stderr (Some (-1)%Z) (Some (lit "exec")) (Some error).

(** ** PCI *)

Definition validate_pci_address (address : str) : check :=
  let b := bytes address in
  let byte_is i c := match b !! i with Some x => (x =? c)%N | None => false end in
  let valid :=
    (len address =? 12)%N
    && byte_is 4 (ch ":") && byte_is 7 (ch ":") && byte_is 10 (ch ".")
    && match b !! 11 with Some x => is_ascii_digit x && (x <=? ch "7")%N | None => false end
    && forallb (λ ic : nat * char,
         if bool_decide (ic.1 = 4 ∨ ic.1 = 7 ∨ ic.1 = 10)
         then (ic.2 =? ch ":")%N || (ic.2 =? ch ".")%N
         else is_ascii_hexdigit ic.2 && negb (is_ascii_uppercase ic.2))
         (zip (seq 0 (length address)) address) in
  if valid then Ok tt else Err ("invalid PCI address `" ++ address ++ "`").

(** [PathBuf::join]: an absolute component replaces the path, and a slash separates the
    two unless the path is empty or ends with one. *)
Definition path_join (base component : str) : str :=
  if starts_with "/" component then component
  else if is_empty base || ends_with "/" base then base ++ component
  else base ++ "/" ++ component.

Definition pci_write_target (kind : PciWriteKind) (address : str) : str * str :=
  let addr : str := "/sys/bus/pci" in
  match kind with
  | Unbind =>
      (path_join (path_join (path_join (path_join addr "devices") address) "driver") "unbind",
       address)
  | Override =>
      (path_join (path_join (path_join addr "devices") address) "driver_override",
       lit "vfio-pci")
  | Bind => (path_join (path_join (path_join addr "drivers") "vfio-pci") "bind", address)
  end.

(** ** Container configuration *)

Definition no_traversal (p : str) : bool :=
  negb (existsb (λ c, c =s? "..") (split (ch "/") p))
  && negb (contains_char 0 p)
  && forallb (λ c, negb (is_control c)) p.

(** The option loop of [validate_lxc_mount_entry]; the result is [saw_bind]. *)
Fixpoint mount_entry_options (saw_bind : bool) (opts : list str) : result str bool :=
  match opts with
  | [] => Ok saw_bind
  | opt :: opts =>
      if opt =s? "bind" then mount_entry_options true opts
      else if str_in opt ["ro"; "rw"; "create=dir"; "create=file"]
      then mount_entry_options saw_bind opts
      else Err ("mount option `" ++ opt ++ "` not permitted")
  end.

Definition validate_lxc_mount_entry (value : str) : check :=
  match split_whitespace value with
  | [source; dest; fstype; options; dump; pass] =>
      if negb (starts_with "/" source) || negb (no_traversal source) then
        Err (lit "source must be an absolute host path with no `..`")
      else if starts_with "/" dest || is_empty dest || negb (no_traversal dest) then
        Err (lit "destination must be a relative path with no `..`")
      else if negb (fstype =s? "none") then
        Err (lit "filesystem type must be `none` (bind mount)")
      else
        saw_bind ← mount_entry_options false (split (ch ",") options);
        if negb saw_bind then Err (lit "options must include `bind`")
        else if negb (dump =s? "0") || negb (pass =s? "0") then
          Err (lit "dump/pass fields must be `0 0`")
        else Ok tt
  | _ => Err (lit "expected 6 fields")
  end.

Definition truncate (s : str) (max : nat) : str := take max s.

Definition validate_lxc_config_line (line : str) : check :=
  if starts_with "#" (trim_start line) then Ok tt
  else
    let body := trim line in
    let not_permitted : check :=
      Err ("config line not permitted: `" ++ truncate body 80 ++ "`") in
    if negb (contains " = " body) then not_permitted
    else
      match strip_prefix "lxc.mount.entry = " body with
      | Some value =>
          map_err (λ e, "invalid lxc.mount.entry: " ++ e) (validate_lxc_mount_entry value)
      | None =>
          if starts_with "lxc.cgroup2." body || starts_with "lxc.net." body then Ok tt
          else not_permitted
      end.

Definition validate_lxc_config_block (block : str) : check :=
  if is_empty block then Err (lit "config block is empty")
  else if (8192 <? len block)%N then Err (lit "config block exceeds 8192 bytes")
  else if contains_char 0 block then Err (lit "config block contains NUL")
  else for_each validate_lxc_config_line
         (List.filter (λ l, negb (is_empty (trim l))) (lines block)).

(** ** Consoles *)

Definition validate_console_pty (pty : str) : check :=
  match strip_prefix "/dev/pts/" pty with
  | None => Err (lit "console pty must be a /dev/pts/ device")
  | Some index =>
      let valid := negb (is_empty index) && (len index <=? 10)%N
                   && forallb is_ascii_digit (bytes index) in
      if valid then Ok tt else Err ("invalid console pty: " ++ debug_str pty)
  end.

(** ** Requests *)

Definition validate_timeout (timeout_secs : N) : check :=
  if (timeout_secs =? 0)%N || (EXEC_TIMEOUT_CAP <? timeout_secs)%N
  then Err (lit "timeout_secs out of range") else Ok tt.

Definition validate_op (op : Op) : check :=
  match op with
  | Ping => Ok tt
  | Exec program args _ _ timeout_secs =>
      validate_exec program args ;? validate_timeout timeout_secs
  | PciWrite _ address => validate_pci_address address
  | LxcConfigAppend name block =>
      validate_lxc_name name ;? validate_lxc_config_block block
  | LxcRootfsSet name dataset =>
      validate_lxc_name name ;? validate_zfs_dataset_path dataset
  | ConsoleAttach pty timeout_secs =>
      validate_console_pty pty ;? validate_timeout timeout_secs
  | LxcConsoleAttach name timeout_secs =>
      validate_lxc_name name ;? validate_timeout timeout_secs
  end.

Definition validate_request (req : Request) : check :=
  if negb (req_v req =? PROTOCOL_VERSION)%N then
    Err ("unsupported protocol version " ++ dec (req_v req))
  else if is_empty (req_id req) || (128 <? len (req_id req))%N
          || contains_char 0 (req_id req) then
    Err (lit "invalid request id")
  else validate_op (req_op req).

(** ** Framing

    A reader is the bytes that are still to come; [read_exact] fails on a reader
    that ends early, with an error whose text ([eof]) belongs to the I/O library. *)
Section framing.
Context (eof : str).

Definition read_exact (what : str) (n : nat) (input : list N) :
    result str (list N * list N) :=
  if (n <=? length input)%nat then Ok (take n input, drop n input)
  else Err (what ++ ": " ++ eof).

Fixpoint from_le_bytes (bs : list N) : N :=
  match bs with [] => 0 | b :: bs => b + 256 * from_le_bytes bs end%N.
Fixpoint to_le_bytes (n : nat) (v : N) : list N :=
  match n with O => [] | S n => (v mod 256)%N :: to_le_bytes n (v / 256)%N end.

Definition read_frame (input : list N) : result str (list N * list N) :=
  '(len_buf, input) ← read_exact "read length prefix" 4 input;
  let len := from_le_bytes len_buf in
  if (len =? 0)%N then Err (lit "zero-length frame")
  else if (CONTROL_FRAME_MAX <? len)%N then
    Err ("frame of " ++ dec len ++ " bytes exceeds the " ++ dec CONTROL_FRAME_MAX
         ++ " byte limit")
  else read_exact "read frame body" (N.to_nat len) input.

(** The bytes [write_frame] sends for [body]. *)
Definition write_frame (body : list N) : result str (list N) :=
  let len := N.of_nat (length body) in
  if (U32_MAX <? len)%N then Err (lit "frame body too large")
  else if (CONTROL_FRAME_MAX <? len)%N then Err (lit "frame body too large")
  else Ok (to_le_bytes 4 len ++ body).
End framing.
