(* ===== verification/BrokerSafety.v ===== *)
(** * What an accepted broker request guarantees

    The abstract contract of the broker's validation layer, stated without the
    validators: where an accepted path resolves to, which shape an accepted
    address or config line has, and that framing loses nothing.  The last
    section records requests the argument checks let through although the code
    means to refuse them. *)

From S2P Require Export BrokerProto.

(** ** Lexical resolution of a path *)

Definition resolve_step (stack : list str) (component : str) : list str :=
  if is_empty component || (component =s? ".") then stack
  else if component =s? ".." then tail stack
  else component :: stack.

(** The components of an absolute path once [.] and [..] are resolved. *)
Definition resolve (path : str) : list str :=
  reverse (fold_left resolve_step (split (ch "/") path) []).

(** The path resolves to a place below [/var/lib/daygleve]. *)
Definition confined (path : str) : Prop :=
  ∃ rest, resolve path = lits ["var"; "lib"; "daygleve"] ++ rest.

Lemma resolve_no_dotdot (parts : list str) (stack : list str) :
  Forall (λ p, p ≠ lit "..") parts →
  ∃ rest, fold_left resolve_step parts stack = rest ++ stack.
Proof.
  revert stack; induction parts as [|p parts IH]; intros stack; simpl; [by exists []|].
  rewrite Forall_cons. intros [Hp Hps].
  destruct (IH (resolve_step stack p) Hps) as [rest ->]. unfold resolve_step.
  rewrite (proj2 (str_eqb_neq p "..")) by done. destruct (_ || _); [by exists rest|].
  exists (rest ++ [p]). by rewrite <- app_assoc.
Qed.

Lemma no_dotdot_parts (path : str) :
  starts_with "/" path = true → contains "/../" path = false →
  ends_with "/.." path = false → Forall (λ p, p ≠ lit "..") (split (ch "/") path).
Proof.
  intros [r Hr]%starts_with_spec Hc He. apply Forall_forall. intros p Hp ->.
  apply elem_of_split in Hp as [->|[[b ->]|[[a ->]|(a & b & ->)]]]; try by simplify_eq/=.
  - apply not_true_iff_false in He. apply He, ends_with_spec. by exists a.
  - apply not_true_iff_false in Hc. apply Hc, contains_spec. by exists a, b.
Qed.

Lemma safe_abs_path_resolve (value q : str) (suffix : option str) :
  starts_with "/" q = true →
  safe_abs_path value (q ++ "/") suffix = true →
  Forall (λ p, p ≠ lit "..") (split (ch "/") value) ∧
  ∃ rest, resolve value = resolve q ++ rest.
Proof.
  intros Hq. unfold safe_abs_path. rewrite !andb_true_iff, !negb_true_iff.
  intros [[[[r ->]%starts_with_spec Hc] He] _].
  assert (starts_with "/" ((q ++ "/") ++ r) = true) as Hs.
  { apply starts_with_spec in Hq as [q' ->]. apply starts_with_spec.
    eexists. by rewrite <- !app_assoc. }
  pose proof (no_dotdot_parts _ Hs Hc He) as Hnd. split; [done|].
  unfold resolve. rewrite <- app_assoc in *. simpl in Hnd |- *.
  rewrite (split_sep (ch "/")) in Hnd |- *. apply Forall_app in Hnd as [_ Hr].
  rewrite fold_left_app.
  destruct (resolve_no_dotdot (split (ch "/") r)
    (fold_left resolve_step (split (ch "/") q) []) Hr) as [rest ->].
  exists (reverse rest). by rewrite reverse_app.
Qed.

Lemma state_path_confined (value : str) (suffix : option str) :
  safe_abs_path value STATE_PREFIX suffix = true → confined value.
Proof.
  intros H. apply (safe_abs_path_resolve value "/var/lib/daygleve") in H as [_ [rest Hr]];
    [|done]. by exists rest.
Qed.

(** ** Charset lemmas *)

Lemma alnum_bytes (alts : string) (s : str) :
  forallb is_ascii (lit alts) = true →
  forallb (alnum_or alts) (bytes s) = forallb (alnum_or alts) s.
Proof. intros. apply forallb_bytes. intros b. by apply alnum_or_ascii. Qed.

(** ** The contract of an accepted host command *)

Definition chars_in (alts : string) (s : str) : Prop := Forall (λ c, alnum_or alts c = true) s.

(** A dataset path: non-empty components, none of them [.] or [..], of safe
    characters, and not an option. *)
Definition dataset_name (d : str) : Prop :=
  Forall (λ p, p ≠ [] ∧ p ≠ lit "." ∧ p ≠ lit "..") (split (ch "/") d)
  ∧ chars_in "._-:/" d ∧ starts_with "-" d = false.

(** A whole device directly below [/dev]. *)
Definition block_device (p : str) : Prop :=
  ∃ name, p = "/dev/" ++ name ∧ name ≠ [] ∧ (ch "/" ∉ name)
          ∧ chars_in "._-" name ∧ starts_with "-" name = false.

(** A container name: one plain path component. *)
Definition container_name (name : str) : Prop :=
  name ≠ [] ∧ (ch "/" ∉ name) ∧ name ≠ lit "." ∧ name ≠ lit ".."
  ∧ starts_with "-" name = false ∧ chars_in "_-." name.

Definition cli_name (a : str) : Prop :=
  a ≠ [] ∧ chars_in "._-/:" a ∧ starts_with "-" a = false.

(** [value] follows the first occurrence of [flag]: later occurrences of the
    flag are not looked at. *)
Definition first_value (flag : str) (args : list str) (value : str) : Prop :=
  ∃ before after, args = before ++ flag :: value :: after ∧ flag ∉ before.

(** *** zfs and zpool *)

(** A snapshot [dataset@name]. *)
Definition snapshot_name (w : str) : Prop :=
  ∃ d s, w = d ++ ch "@" :: s ∧ dataset_name d ∧ s ≠ [] ∧ chars_in "._-:" s.

(** The two properties [zfs set] may change, with a bounded plain value. *)
Definition zfs_property (w : str) : Prop :=
  ∃ k v, w = k ++ ch "=" :: v ∧ (k = lit "daygleve:description" ∨ k = lit "quota")
         ∧ v ≠ [] ∧ (len v ≤ 512)%N ∧ chars_in "._- " v.

(** The value of an option: plain characters, not itself an option, no [..]. *)
Definition zfs_value (v : str) : Prop :=
  chars_in "._-:/@=,%" v ∧ starts_with "-" v = false
  ∧ contains "/../" v = false ∧ ends_with "/.." v = false.

(** The arguments of a [zfs] command: known flags, known options with a value,
    [-i <snapshot>] of a [send], datasets and snapshots. *)
Inductive zfs_rest (cmd : str) : list str → Prop :=
  | zr_nil : zfs_rest cmd []
  | zr_flag f rest : f ∈ lits ["-H"; "-h"; "-p"; "-Hp"; "-r"; "-F"] →
      zfs_rest cmd rest → zfs_rest cmd (f :: rest)
  | zr_option o v rest : o ∈ lits ["-o"; "-t"; "-d"; "-V"] → zfs_value v →
      zfs_rest cmd rest → zfs_rest cmd (o :: v :: rest)
  | zr_base v rest : cmd = lit "send" → snapshot_name v →
      zfs_rest cmd rest → zfs_rest cmd (lit "-i" :: v :: rest)
  | zr_name w rest : dataset_name w ∨ snapshot_name w →
      zfs_rest cmd rest → zfs_rest cmd (w :: rest).

(** What follows [zfs <cmd>]: a [set] starts with its property. *)
Definition zfs_line (cmd : str) (args : list str) : Prop :=
  zfs_rest cmd args
  ∨ (cmd = lit "set" ∧ ∃ p rest, args = p :: rest ∧ zfs_property p ∧ zfs_rest cmd rest).

Inductive zpool_rest : list str → Prop :=
  | zp_nil : zpool_rest []
  | zp_flag f rest : f ∈ lits ["-H"; "-p"; "-Hp"; "-L"; "-P"] →
      zpool_rest rest → zpool_rest (f :: rest)
  | zp_columns v rest : zfs_value v → zpool_rest rest → zpool_rest (lit "-o" :: v :: rest)
  | zp_name w rest : dataset_name w → zpool_rest rest → zpool_rest (w :: rest).

(** *** virsh *)

(** The options before the subcommand; [-c] takes a value. *)
Inductive virsh_options : list str → Prop :=
  | vo_nil : virsh_options []
  | vo_connect uri rest : virsh_options rest → virsh_options (lit "-c" :: uri :: rest)
  | vo_flag f rest : starts_with "-" f = true → virsh_options rest → virsh_options (f :: rest).

(** What an accepted [virsh] command may be: its subcommand is one of those the
    backend uses, its first [-c] names the system connection; and in the
    backend's form [-c <uri> <command> <arguments>] the arguments are checked by
    the command. *)
Definition virsh_contract (args : list str) : Prop :=
  (∃ options sub rest, args = options ++ sub :: rest ∧ virsh_options options
     ∧ starts_with "-" sub = false
     ∧ sub ∈ lits ["list"; "domstate"; "hostname"; "start"; "shutdown"; "destroy"; "reboot";
         "reset"; "pause"; "resume"; "define"; "undefine"; "domrename"; "vncdisplay";
         "ttyconsole"; "domdisplay"; "qemu-agent-command"; "domifaddr"; "domfsfreeze";
         "domfsthaw"; "save"; "restore"; "blockresize"; "attach-disk"; "detach-disk";
         "attach-device"; "detach-device"]) ∧
  first_value "-c" args "qemu:///system" ∧
  ∀ uri command rest, args = lit "-c" :: uri :: command :: rest →
    starts_with "-" command = false →
    (command = lit "define" → Forall (λ a, confined a ∧ ends_with ".xml" a = true) rest) ∧
    (str_in command ["attach-device"; "detach-device"] = true →
       ∃ domain file, rest = [domain; file] ∧ cli_name domain
         ∧ confined file ∧ ends_with ".xml" file = true) ∧
    (str_in command ["define"; "attach-device"; "detach-device"] = false →
       Forall (λ a, cli_name a ∨ starts_with "-" a = true) rest).

(** *** mount *)

(** What a share may be mounted from: [host:export] for NFS, [//server/share]
    for CIFS; plain characters (no white space, no comma) and no [..]. *)
Definition share_source (fs source : str) : Prop :=
  ((fs = lit "nfs" ∧ ∃ host export, source = host ++ ch ":" :: export ∧ (ch ":" ∉ host)
     ∧ host ≠ [] ∧ export ≠ [] ∧ starts_with "-" export = false)
   ∨ (fs = lit "cifs" ∧ ∃ rest, source = "//" ++ rest ∧ ch "/" ∈ rest))
  ∧ chars_in "._-:/" source ∧ contains ".." source = false.

(** The key of a mount option: what precedes its [=], if any. *)
Definition has_key (option key : str) : Prop :=
  (ch "=" ∉ key) ∧ (option = key ∨ ∃ value, option = key ++ ch "=" :: value).

(** A comma-separated list of plain options, none of which makes the mount
    writable, honours set-uid bits, devices or programs, remounts or binds; a
    credentials file lies below the state directory. *)
Definition mount_option_list (options : str) : Prop :=
  options ≠ [] ∧ chars_in "=,._-:/" options ∧
  ∀ option key, option ∈ split (ch ",") options → has_key option key →
    (to_ascii_lowercase key ∉ lits ["rw"; "suid"; "dev"; "exec"; "remount"; "bind"]) ∧
    (to_ascii_lowercase key = lit "credentials" →
     ∃ value, option = key ++ ch "=" :: value ∧ confined value ∧ ends_with ".cred" value = true).

(** *** All programs *)

Inductive exec_contract : str → list str → Prop :=
  | ec_virsh args : virsh_contract args → exec_contract "virsh" args
  | ec_zfs cmd args :
      cmd ∈ lits ["list"; "create"; "set"; "destroy"; "snapshot"; "clone"; "promote";
                  "rollback"; "send"; "receive"] →
      zfs_line cmd args → exec_contract "zfs" (cmd :: args)
  | ec_zpool_read cmd args :
      cmd ∈ lits ["list"; "status"] → zpool_rest args → exec_contract "zpool" (cmd :: args)
  | ec_zpool_create force name layout devices :
      force ∈ [[]; lits ["-f"]] → cli_name name →
      layout ∈ [[]; lits ["mirror"]; lits ["raidz1"]; lits ["raidz2"]; lits ["raidz3"]] →
      devices ≠ [] → Forall block_device devices →
      exec_contract "zpool" (lit "create" :: force ++ name :: layout ++ devices)
  | ec_smartctl path :
      block_device path → exec_contract "smartctl" [lit "-j"; lit "-a"; path]
  | ec_wipefs path : block_device path → exec_contract "wipefs" [lit "-a"; path]
  | ec_lxc program args :
      program ∈ lits ["lxc-create"; "lxc-destroy"; "lxc-start"; "lxc-stop"; "lxc-freeze";
                      "lxc-unfreeze"; "lxc-info"; "lxc-cgroup"; "lxc-ls"] →
      (∀ name, first_value "-n" args name → container_name name) →
      Forall (λ a, starts_with "/" a = true → confined a) args →
      exec_contract program args
  | ec_ip args before a b after :
      args = before ++ a :: b :: after →
      (a, b) ∈ [(lit "link", lit "show"); (lit "addr", lit "show"); (lit "link", lit "add");
                (lit "link", lit "set"); (lit "link", lit "del"); (lit "addr", lit "add")] →
      Forall (λ a, starts_with "/" a = false) args → exec_contract "ip" args
  | ec_bridge args :
      Forall (λ a, starts_with "/" a = false) args → exec_contract "bridge" (lit "vlan" :: args)
  | ec_mount args fs before source target :
      first_value "-t" args fs → args = before ++ [source; target] →
      share_source fs source → (∀ o, first_value "-o" args o → mount_option_list o) →
      confined target → exec_contract "mount" args
  | ec_umount target : confined target → exec_contract "umount" [target]
  | ec_nft args file :
      first_value "-f" args file → confined file →
      lit "flush" ∉ args → lit "delete" ∉ args → exec_contract "nft" args
  | ec_iso program args :
      program ∈ lits ["genisoimage"; "xorriso"] →
      Forall (λ a, starts_with "/" a = true → confined a) args →
      exec_contract program args
  | ec_qemu_info src args :
      confined src → src ∈ args → Forall (λ a, a = src ∨ a = lit "--output=json") args →
      exec_contract "qemu-img" (lit "info" :: args)
  | ec_qemu_convert src dataset args :
      confined src → dataset_name dataset → lit "-O" ∈ args →
      Forall (λ a, a ∈ [src; "/dev/zvol/" ++ dataset; lit "-O"; lit "raw"; lit "-p"; lit "-W"])
        args →
      exec_contract "qemu-img" (lit "convert" :: args).

(** ** From the validators to the contract *)

Lemma chars_in_bytes (alts : string) (s : str) :
  forallb is_ascii (lit alts) = true →
  forallb (alnum_or alts) (bytes s) = true → chars_in alts s.
Proof. intros ?. rewrite alnum_bytes by done. apply forallb_Forall. Qed.

Lemma chars_in_weaken (a b : string) (s : str) :
  forallb (λ c, char_in c b) (lit a) = true → chars_in a s → chars_in b s.
Proof.
  intros H Hs. eapply Forall_impl; [exact Hs|]. intros c. unfold alnum_or.
  rewrite forallb_Forall, Forall_forall in H.
  rewrite !orb_true_iff, (char_in_spec c a). naive_solver.
Qed.

Lemma chars_in_not (alts : string) (s : str) (c : char) :
  chars_in alts s → alnum_or alts c = false → c ∉ s.
Proof. intros Hs Hc Hin. apply (proj1 (Forall_forall _ _) Hs) in Hin. congruence. Qed.

(** Split the boolean conjunctions of a validator into hypotheses. *)
Ltac split_checks :=
  repeat match goal with
  | H : _ && _ = true |- _ => apply andb_true_iff in H as [? ?]
  | H : negb _ = true |- _ => apply negb_true_iff in H
  | H : negb _ = false |- _ => apply negb_false_iff in H
  | H : _ || _ = false |- _ => apply orb_false_iff in H as [? ?]
  | H : contains_char _ _ = false |- _ => apply contains_char_false in H
  | H : is_empty _ = false |- _ => apply is_empty_false in H
  | H : (_ =s? _) = true |- _ => apply str_eqb_eq in H
  | H : (_ =s? _) = false |- _ => apply str_eqb_neq in H
  end.

Lemma safe_dataset_name (d : str) : safe_dataset d = true → dataset_name d.
Proof.
  unfold safe_dataset. intros H. split_checks. split; [|split]; [|by apply chars_in_bytes|done].
  apply forallb_Forall in H1. eapply Forall_impl; [exact H1|]. simpl. intros p Hp.
  by split_checks.
Qed.

Lemma safe_block_device_spec (p : str) : safe_block_device p = true → block_device p.
Proof.
  unfold safe_block_device. destruct (strip_prefix "/dev/" p) as [name|] eqn:E; [|done].
  apply strip_prefix_Some in E as ->. intros H. split_checks. exists name.
  split_and!; try done. by apply chars_in_bytes.
Qed.

Lemma safe_cli_name_spec (a : str) : safe_cli_name a = true → cli_name a.
Proof.
  unfold safe_cli_name. intros H. split_checks. unfold cli_name. eauto using chars_in_bytes.
Qed.

Lemma validate_lxc_name_spec (name : str) :
  validate_lxc_name name = Ok tt → container_name name.
Proof.
  unfold validate_lxc_name. intros H. inv_ok. split_checks.
  assert (chars_in "_-." name) as Hc by (by apply forallb_Forall).
  destruct name as [|c name]; [done|].
  unfold container_name. split_and!; try done.
  - by eapply chars_in_not.
  - intros Hd. injection Hd as -> ->. done.
  - intros Hd. injection Hd as -> ->. done.
  - apply not_true_iff_false. intros [r Hr]%starts_with_spec. by simplify_eq/=.
Qed.

Lemma validate_arg_ok (a : str) :
  validate_exec_arg a = Ok tt →
  (len a ≤ 4096)%N ∧ Forall (λ c, is_control c = false) a.
Proof.
  unfold validate_exec_arg, validate_arg. intros H. inv_ok. split; [by apply N.ltb_ge|].
  by apply existsb_false.
Qed.

Lemma str_in_lits (s : str) (l : list string) : str_in s l = true → s ∈ lits l.
Proof. intros (o & Ho & ->)%str_in_spec. by apply list_elem_of_fmap_2. Qed.

Lemma arg_after_spec (args : list str) (flag : str) (v : str) :
  arg_after args flag = Some v ↔ first_value flag args v.
Proof.
  unfold arg_after, first_value.
  induction args as [|a args IH]; [split; [done|by intros ([|??] & ? & ? & ?)]|].
  destruct args as [|b args].
  { split; [done|]. intros ([|? [|??]] & ? & ? & ?); done. }
  change (windows2 (a :: b :: args)) with ((a, b) :: windows2 (b :: args)). simpl List.find.
  destruct (a =s? flag) eqn:E.
  - apply str_eqb_eq in E as ->. split.
    + intros [= ->]. exists [], args. by split; [|apply not_elem_of_nil].
    + intros ([|x before] & after & H & Hn); simplify_eq/=; [done|]. exfalso. apply Hn. left.
  - apply str_eqb_neq in E. rewrite IH. split.
    + intros (before & after & -> & Hn). exists (a :: before), after. split; [done|].
      rewrite not_elem_of_cons. by split; [apply not_eq_sym|].
    + intros ([|x before] & after & H & Hn); simplify_eq/=. rewrite not_elem_of_cons in Hn.
      exists before, after. by split; [|destruct Hn].
Qed.

Lemma safe_zfs_value_spec (v : str) : safe_zfs_value v = true → zfs_value v.
Proof.
  unfold safe_zfs_value, zfs_value. intros H. split_checks. split_and!; try done.
  by apply chars_in_bytes.
Qed.

Lemma safe_snapshot_ref_spec (w : str) : safe_snapshot_ref w = true → snapshot_name w.
Proof.
  unfold safe_snapshot_ref. destruct (split_once (ch "@") w) as [[d s]|] eqn:E; [|done].
  apply split_once_Some in E as [-> _]. intros H. split_checks. exists d, s.
  split_and!; [done|by apply safe_dataset_name|done|by apply chars_in_bytes].
Qed.

Lemma safe_zfs_property_spec (w : str) : safe_zfs_property w = true → zfs_property w.
Proof.
  unfold safe_zfs_property. destruct (split_once (ch "=") w) as [[k v]|] eqn:E; [|done].
  apply split_once_Some in E as [-> _]. intros H. split_checks. exists k, v.
  split_and!; [done| |done|by apply N.leb_le|by apply chars_in_bytes].
  apply orb_true_iff in H as [H|H]; apply str_eqb_eq in H as ->; auto.
Qed.

#[local] Hint Constructors zfs_rest zpool_rest virsh_options : core.
#[local] Hint Resolve safe_dataset_name safe_snapshot_ref_spec safe_zfs_value_spec
  safe_zfs_property_spec str_in_lits : core.

(** One round of the loop: a flag, an option with its value, or a name; only
    the first argument of a [set] is read as a property. *)
Lemma zfs_loop_line (cmd : str) (index : nat) (args : list str) :
  zfs_args_loop cmd index args = Ok tt → (1 ≤ index)%nat →
  if (cmd =s? "set") && (index =? 1)%nat then zfs_line cmd args else zfs_rest cmd args.
Proof.
  remember (length args) as n eqn:Hn. assert (length args ≤ n)%nat as Hle by lia. clear Hn.
  revert index args Hle. induction n as [|n IH]; intros index [|a rest] Hle H Hi;
    simpl in Hle; try lia; try (case_match; [left|]; by constructor).
  assert (Hnext : ∀ k args', (length args' ≤ n)%nat →
    zfs_args_loop cmd (index + S k) args' = Ok tt → zfs_rest cmd args').
  { intros k args' Hl Hk. specialize (IH _ args' Hl Hk ltac:(lia)).
    by rewrite (proj2 (Nat.eqb_neq (index + S k) 1)), andb_false_r in IH by lia. }
  assert (Hrest : zfs_rest cmd (a :: rest) →
    if (cmd =s? "set") && (index =? 1)%nat then zfs_line cmd (a :: rest) else zfs_rest cmd (a :: rest))
    by (case_match; [by left|done]).
  simpl in H.
  destruct (str_in a ["-H"; "-h"; "-p"; "-Hp"; "-r"; "-F"]) eqn:E1 in H.
  { apply Hrest. constructor; [by apply str_in_lits|]. apply (Hnext O); [lia|done]. }
  destruct (str_in a ["-o"; "-t"; "-d"; "-V"]) eqn:E2 in H.
  { destruct rest as [|v rest]; [done|]. inv_ok. split_checks. simpl in Hle.
    apply Hrest, zr_option; [by apply str_in_lits|by apply safe_zfs_value_spec|].
    apply (Hnext 1%nat); [lia|done]. }
  destruct ((cmd =s? "send") && (a =s? "-i")) eqn:E3 in H.
  { destruct rest as [|v rest]; [done|]. split_checks. subst. inv_ok. simpl in *. split_checks.
    apply zr_base; [done|by apply safe_snapshot_ref_spec|]. apply (Hnext 1%nat); [lia|done]. }
  destruct (starts_with "-" a) eqn:E4 in H; [done|]. inv_ok.
  clear E1 E2 E3 E4. apply (Hnext O) in H0; [|lia].
  destruct ((cmd =s? "set") && (index =? 1)%nat) eqn:Es; [inv_ok; split_checks; right; split|].
  - done.
  - exists a, rest. split_and!; [done|by apply safe_zfs_property_spec|done].
  - apply zr_name; [|done]. destruct (contains_char _ _) in *; inv_ok; split_checks; auto.
Qed.

Lemma zfs_args_line (cmd : str) (args : list str) :
  validate_zfs_args (cmd :: args) = Ok tt → zfs_line cmd args.
Proof.
  intros H%zfs_loop_line; [|done]. simpl in H. rewrite andb_true_r in H.
  destruct (cmd =s? "set"); [done|by left].
Qed.

Lemma zpool_loop_rest (args : list str) : zpool_args_loop args = Ok tt → zpool_rest args.
Proof.
  remember (length args) as n eqn:Hn. assert (length args ≤ n)%nat as Hle by lia. clear Hn.
  revert args Hle. induction n as [|n IH]; intros [|a rest] Hle H; simpl in Hle; try lia; auto.
  simpl in H. destruct (str_in a ["-H"; "-p"; "-Hp"; "-L"; "-P"]) eqn:E1 in H.
  { apply zp_flag; [by apply str_in_lits|]. apply IH; [lia|done]. }
  destruct (a =s? "-o") eqn:E2 in H.
  { destruct rest as [|v rest]; [done|]. inv_ok. split_checks. subst. simpl in Hle.
    apply zp_columns; [auto|]. apply IH; [lia|done]. }
  destruct (starts_with "-" a) eqn:E3 in H; [done|]. inv_ok. split_checks.
  apply zp_name; [auto|]. apply IH; [lia|done].
Qed.

(** *** qemu-img *)

Lemma qemu_info_positionals (ps args out : list str) :
  qemu_info_loop ps args = Ok out →
  ∃ new, out = ps ++ new ∧ (∀ a, a ∈ new → a ∈ args)
    ∧ ∀ a, a ∈ args → a ∈ new ∨ a = lit "--output=json".
Proof.
  revert ps; induction args as [|a args IH]; intros ps H; simpl in H.
  { inv_ok. exists []. rewrite app_nil_r. set_solver. }
  destruct (a =s? "--output=json") eqn:E1 in H.
  { split_checks. subst. apply IH in H as (new & -> & H1 & H2). exists new. set_solver. }
  destruct (starts_with "-" a) eqn:E2 in H; [done|].
  apply IH in H as (new & -> & H1 & H2). exists (a :: new). rewrite <- app_assoc. set_solver.
Qed.

Lemma qemu_convert_positionals (f f' : option str) (ps args out : list str) :
  qemu_convert_loop f ps args = Ok (f', out) →
  (∃ new, out = ps ++ new
    ∧ ∀ a, a ∈ args → a ∈ new ∨ a ∈ lits ["-O"; "raw"; "-p"; "-W"]) ∧
  (is_Some f' → is_Some f ∨ lit "-O" ∈ args).
Proof.
  remember (length args) as n eqn:Hn. assert (length args ≤ n)%nat as Hle by lia. clear Hn.
  revert f ps args Hle. induction n as [|n IH]; intros f ps [|a rest] Hle H;
    simpl in Hle; try lia; try (simpl in H; inv_ok; split; [exists []; rewrite app_nil_r; set_solver|auto]).
  simpl in H. destruct (a =s? "-O") eqn:E1 in H.
  { destruct rest as [|v rest]; [done|]. inv_ok. split_checks. subst. simpl in Hle.
    apply IH in H0 as [(new & -> & Hn) _]; [|lia]. split; [|right; left].
    exists new. split; [done|]. intros b [->|[->|Hb]%elem_of_cons]%elem_of_cons; [right..|auto].
    - left.
    - right. left. }
  destruct (str_in a ["-p"; "-W"]) eqn:E2 in H.
  { apply IH in H as [(new & -> & Hn) Hf]; [|lia]. split; [|set_solver]. exists new. split; [done|].
    intros b [->|Hb]%elem_of_cons; [|auto]. right. do 2 right. by apply str_in_lits in E2. }
  destruct (starts_with "-" a) eqn:E3 in H; [done|].
  apply IH in H as [(new & -> & Hn) Hf]; [|lia]. split; [|set_solver]. exists (a :: new).
  rewrite <- app_assoc. split; [done|]. set_solver.
Qed.

Lemma in_state_confined (p : str) : in_state p = true → confined p.
Proof. apply state_path_confined. Qed.

Lemma in_state_xml_confined (p : str) :
  in_state_xml p = true → confined p ∧ ends_with ".xml" p = true.
Proof.
  intros H. split; [by apply (state_path_confined p (Some (lit ".xml")))|].
  unfold in_state_xml, safe_abs_path in H. by split_checks.
Qed.

#[local] Hint Resolve in_state_confined safe_block_device_spec safe_cli_name_spec
  validate_lxc_name_spec : core.

Lemma qemu_img_contract (args : list str) :
  validate_qemu_img_args args = Ok tt → exec_contract "qemu-img" args.
Proof.
  unfold validate_qemu_img_args. destruct args as [|sub rest]; [done|].
  destruct (sub =s? "info") eqn:E1.
  { intros H. inv_ok. split_checks. subst. destruct x as [|src [|? ?]]; try done. inv_ok.
    apply qemu_info_positionals in H as (new & Hnew & Hin & H). simpl in Hnew. subst new.
    apply ec_qemu_info with src; [auto|set_solver|]. apply Forall_forall. set_solver. }
  destruct (sub =s? "convert") eqn:E2; [|done]. intros H. inv_ok. split_checks. subst.
  destruct x as [[f|] ps]; [|done]. destruct ps as [|src [|dst [|? ?]]]; try done.
  inv_ok. split_checks. apply qemu_convert_positionals in H as [(new & Hnew & H) HO].
  simpl in Hnew. subst new.
  unfold safe_zvol_device in *.
  destruct (strip_prefix "/dev/zvol/" dst) as [d|] eqn:Ed; [|done].
  apply strip_prefix_Some in Ed as ->. apply ec_qemu_convert with src d; [auto..| |].
  - destruct (HO ltac:(by eexists)) as [[? ?]|?]; done.
  - apply Forall_forall. intros a Ha. apply H in Ha. unfold lits in Ha. cbn [map] in Ha. set_solver.
Qed.

(** *** The remaining programs *)

Lemma zpool_contract (args : list str) :
  shape_allowed "zpool" args = true → validate_zpool_args args = Ok tt →
  exec_contract "zpool" args.
Proof.
  destruct args as [|cmd args]; [done|]. intros Hs. unfold validate_zpool_args. simpl.
  destruct (cmd =s? "create") eqn:E.
  2:{ intros H. apply ec_zpool_read; [|by apply zpool_loop_rest].
      change (str_in cmd ["list"; "status"; "create"] = true) in Hs.
      apply str_in_lits in Hs. apply str_eqb_neq in E.
      unfold lits in *. cbn [map] in *. set_solver. }
  split_checks. subst. intros H.
  set (f := λ device, if negb (safe_block_device device) then _ else _) in H.
  assert (Hdev : ∀ ds, for_each f ds = Ok tt → Forall block_device ds).
  { intros ds Hf. inv_ok. eapply Forall_impl; [exact Hf|]. simpl. unfold f. intros d Hd.
    inv_ok. split_checks. auto. }
  set (r1 := match args with a :: r => if a =s? "-f" then r else args | [] => args end) in H.
  assert (∃ force, force ∈ [[]; lits ["-f"]] ∧ args = force ++ r1) as (force & Hforce & Hr1).
  { destruct args as [|a r]; [by exists []; split; [left|]|]. subst r1; simpl.
    destruct (a =s? "-f") eqn:Ea; [|by exists []; split; [left|]].
    apply str_eqb_eq in Ea as ->. exists (lits ["-f"]). split; [right; left|done]. }
  clearbody r1. destruct r1 as [|name r2]; [done|]. inv_ok. split_checks.
  set (r3 := match r2 with a :: r => if str_in a _ then r else r2 | [] => r2 end) in H0.
  assert (∃ layout, layout ∈ [[]; lits ["mirror"]; lits ["raidz1"]; lits ["raidz2"]; lits ["raidz3"]]
    ∧ r2 = layout ++ r3) as (layout & Hlay & Hr3).
  { destruct r2 as [|a r]; [by exists []; split; [left|]|]. subst r3; simpl.
    destruct (str_in a _) eqn:Ea; [|by exists []; split; [left|]].
    apply str_in_lits in Ea. exists [a]. split; [|done]. right.
    unfold lits in Ea |- *. cbn [map] in Ea |- *. set_unfold in Ea.
    repeat destruct Ea as [->|Ea]; (done || set_solver). }
  clearbody r3. subst.
  apply ec_zpool_create; [done|auto|done|by intros ->|]. destruct r3; [done|]. auto.
Qed.

Lemma smartctl_contract (args : list str) :
  validate_smartctl_args args = Ok tt → exec_contract "smartctl" args.
Proof.
  unfold validate_smartctl_args. destruct args as [|j [|a [|p [|? ?]]]]; try done.
  intros H. inv_ok. split_checks. subst. constructor. by apply safe_block_device_spec.
Qed.

Lemma wipefs_contract (args : list str) :
  validate_wipefs_args args = Ok tt → exec_contract "wipefs" args.
Proof.
  unfold validate_wipefs_args. destruct args as [|j [|p [|? ?]]]; try done.
  intros H. inv_ok. split_checks. subst. constructor. by apply safe_block_device_spec.
Qed.

(** The guard "an absolute argument lies below the state directory". *)
Lemma absolute_args_confined (e : str) (args : list str) :
  for_each (λ a, if starts_with "/" a && negb (in_state a) then Err e else Ok tt) args = Ok tt →
  Forall (λ a, starts_with "/" a = true → confined a) args.
Proof.
  intros H. inv_ok. eapply Forall_impl; [exact H|]. intros a Ha Hs. simpl in Ha.
  rewrite Hs in Ha. simpl in Ha. inv_ok. split_checks. by apply (state_path_confined a None).
Qed.

Lemma lxc_contract (program : str) (args : list str) :
  program ∈ lits ["lxc-create"; "lxc-destroy"; "lxc-start"; "lxc-stop"; "lxc-freeze";
                  "lxc-unfreeze"; "lxc-info"; "lxc-cgroup"; "lxc-ls"] →
  validate_lxc_args args = Ok tt → exec_contract program args.
Proof.
  intros Hp. unfold validate_lxc_args. intros H. inv_ok. apply ec_lxc; [done| |].
  - intros name Hn%arg_after_spec. rewrite Hn in H. inv_ok. split_checks.
    apply is_ok_true in H as [[] ?]. auto.
  - apply (absolute_args_confined (lit "LXC path is outside DaygleVE state")).
    by apply for_each_ok.
Qed.

Lemma network_args_spec (args : list str) :
  validate_network_args args = Ok tt → Forall (λ a, starts_with "/" a = false) args.
Proof.
  intros H. unfold validate_network_args in H. inv_ok.
  eapply Forall_impl; [exact H|]. simpl. intros a Ha. inv_ok. by split_checks.
Qed.

Lemma windows2_split {A} (args : list A) (a b : A) :
  (a, b) ∈ windows2 args → ∃ before after, args = before ++ a :: b :: after.
Proof.
  induction args as [|x [|y args] IH]; [by intros ?%elem_of_nil..|].
  change (windows2 (x :: y :: args)) with ((x, y) :: windows2 (y :: args)).
  intros [[= -> ->]|(before & after & ->)%IH]%elem_of_cons; [by exists [], args|].
  by exists (x :: before), after.
Qed.

Lemma has_pair_split (args : list str) (a b : string) :
  has_pair args a b = true → ∃ before after, args = before ++ lit a :: lit b :: after.
Proof.
  unfold has_pair. intros ([x y] & Hin & H)%existsb_Exists. simpl in H. split_checks. subst.
  by apply windows2_split.
Qed.

Lemma ip_contract (args : list str) :
  shape_allowed "ip" args = true → validate_network_args args = Ok tt → exec_contract "ip" args.
Proof.
  intros Hs Hn%network_args_spec.
  change (shape_allowed "ip" args) with (has_pair args "link" "show" || has_pair args "addr" "show"
    || has_pair args "link" "add" || has_pair args "link" "set"
    || has_pair args "link" "del" || has_pair args "addr" "add") in Hs.
  rewrite !orb_true_iff in Hs.
  destruct Hs as [[[[[H|H]|H]|H]|H]|H]; apply has_pair_split in H as (before & after & ->);
    (eapply ec_ip; [done| |done]); set_solver.
Qed.

Lemma bridge_contract (args : list str) :
  shape_allowed "bridge" args = true → validate_network_args args = Ok tt →
  exec_contract "bridge" args.
Proof.
  intros Hs Hn%network_args_spec. destruct args as [|cmd args]; [done|].
  change (str_in cmd ["vlan"] = true) in Hs. apply str_in_lits, list_elem_of_singleton in Hs as ->.
  apply Forall_cons in Hn as [_ Hn]. by apply ec_bridge.
Qed.

Lemma share_source_spec (fs source : str) :
  str_in fs ["nfs"; "cifs"] = true → safe_mount_source fs source = true → share_source fs source.
Proof.
  intros Hfs. unfold safe_mount_source. intros H. split_checks.
  split; [|split; [by apply chars_in_bytes|done]].
  destruct (fs =s? "nfs") eqn:E1.
  - split_checks. destruct (split_once (ch ":") source) as [[host export]|] eqn:E; [|done].
    apply split_once_Some in E as [-> ?]. split_checks. left. eauto 10.
  - apply str_in_lits in Hfs. split_checks. right.
    destruct (fs =s? "cifs") eqn:E2; [|done]. split_checks. split; [done|].
    apply starts_with_spec in H as [r ->].
    exists r. split; [done|]. by apply contains_char_spec.
Qed.

(** The source's key is the key: what precedes the first [=]. *)
Lemma option_key_spec (option key : str) :
  has_key option key → option_key option = to_ascii_lowercase key.
Proof.
  intros (Hk & H). unfold option_key. f_equal. destruct H as [->|[v ->]].
  - by rewrite split_nosep.
  - by rewrite split_sep, split_nosep.
Qed.

Lemma mount_options_spec (options : str) :
  validate_mount_options options = Ok tt → mount_option_list options.
Proof.
  unfold validate_mount_options, mount_option_list. intros H. inv_ok. split_checks.
  split_and!; [done|by apply chars_in_bytes|]. intros option key Hin Hk.
  apply (proj1 (Forall_forall _ _) H0) in Hin. unfold validate_mount_option in Hin. cbv zeta in Hin.
  rewrite (option_key_spec _ _ Hk) in Hin. inv_ok. split.
  - intros Hd. apply list_elem_of_fmap in Hd as (o & Ho & Hm).
    match goal with H : str_in _ MOUNT_DENIED = false |- _ => apply not_true_iff_false in H; apply H end.
    apply str_in_spec. by exists o.
  - intros Hc. match goal with H : (if _ =s? _ then _ else _) = _ |- _ => rewrite Hc, str_eqb_refl in H end.
    inv_ok. split_checks. destruct Hk as (Hk & [->|[v ->]]).
    + destruct (split_once (ch "=") key) as [[k v]|] eqn:E; [|done].
      apply split_once_Some in E as [-> _]. exfalso. apply Hk. set_solver.
    + rewrite (proj2 (split_once_Some (ch "=") (key ++ ch "=" :: v) key v)) in * by done.
      exists v. split_and!; [done|by eapply state_path_confined|].
      unfold safe_abs_path in *. by split_checks.
Qed.

Lemma last_two {A} (args : list A) (x d : A) :
  (2 ≤ length args)%nat → args !! (length args - 2)%nat = Some x →
  ∃ before, args = before ++ [x; List.last args d].
Proof.
  intros Hl Hx. induction args as [|y args _] using rev_ind; [done|].
  rewrite length_app in Hl, Hx. simpl in Hl, Hx. rewrite List.last_last.
  induction args as [|z args _] using rev_ind; [simpl in Hl; lia|].
  exists args. rewrite <- app_assoc. simpl. do 3 f_equal. rewrite length_app in Hx. simpl in Hx.
  rewrite <- app_assoc, (lookup_app_r args) in Hx by lia.
  replace (length args + 1 + 1 - 2 - length args)%nat with O in Hx by lia. by simplify_eq/=.
Qed.

Lemma mount_contract (args : list str) :
  validate_mount_args args = Ok tt → exec_contract "mount" args.
Proof.
  unfold validate_mount_args. intros H. inv_ok. split_checks.
  match goal with H : arg_after args _ = Some ?f |- _ =>
    apply arg_after_spec in H as Ht; rename f into fs end.
  assert (2 ≤ length args)%nat as Hl.
  { destruct Ht as (be & af & -> & _). rewrite length_app. simpl. lia. }
  match goal with H : args !! _ = Some ?x |- _ =>
    apply (last_two _ _ []) in H as [before Hb]; [|done]; rename x into source end.
  eapply ec_mount; [exact Ht|exact Hb|by apply share_source_spec| |auto].
  intros o Ho%arg_after_spec.
  match goal with H : match arg_after _ _ with _ => _ end = _ |- _ => rewrite Ho in H end.
  by apply mount_options_spec.
Qed.

Lemma umount_contract (args : list str) :
  validate_umount_args args = Ok tt → exec_contract "umount" args.
Proof.
  unfold validate_umount_args. destruct args as [|t [|? ?]]; try done. intros H. inv_ok.
  apply ec_umount. by apply (state_path_confined t None).
Qed.

Lemma nft_contract (args : list str) :
  validate_nft_args args = Ok tt → exec_contract "nft" args.
Proof.
  unfold validate_nft_args. intros H. inv_ok. split_checks.
  apply existsb_false in H1. rewrite Forall_forall in H1.
  apply ec_nft with x; [by apply arg_after_spec|auto| |]; intros Hin; by apply H1 in Hin.
Qed.

Lemma iso_contract (program : str) (args : list str) :
  str_in program ["genisoimage"; "xorriso"] = true → validate_iso_args args = Ok tt →
  exec_contract program args.
Proof.
  intros Hp H. apply ec_iso; [by apply str_in_lits|].
  by apply (absolute_args_confined (lit "ISO tool path is outside DaygleVE state")).
Qed.

(** *** virsh *)

Lemma virsh_subcommand_split (args : list str) (sub : str) :
  virsh_subcommand args = Some sub →
  ∃ options rest, args = options ++ sub :: rest ∧ virsh_options options
    ∧ starts_with "-" sub = false.
Proof.
  remember (length args) as n eqn:Hn. assert (length args ≤ n)%nat as Hle by lia. clear Hn.
  revert args Hle. induction n as [|n IH]; intros [|a rest] Hle H; simpl in Hle; try done; try lia.
  simpl in H. destruct (a =s? "-c") eqn:E1 in H.
  { destruct rest as [|uri rest]; [done|]. split_checks. subst. simpl in Hle.
    apply IH in H as (o & r & -> & ? & ?); [|lia]. exists (lit "-c" :: uri :: o), r. auto. }
  destruct (starts_with "-" a) eqn:E2 in H.
  - apply IH in H as (o & r & -> & ? & ?); [|lia]. exists (a :: o), r. auto.
  - injection H as ->. exists [], rest. auto.
Qed.

Lemma virsh_subcommand_known (args : list str) :
  shape_allowed "virsh" args = true →
  ∃ sub, virsh_subcommand args = Some sub ∧ str_in sub VIRSH_SUBCOMMANDS = true.
Proof.
  unfold shape_allowed. change (lit "virsh" =s? lit "virsh") with true. simpl.
  destruct (virsh_subcommand args) as [sub|]; [|done]. eauto.
Qed.

(** The argument check in the backend's form [-c <uri> <command> <rest>]. *)
Lemma virsh_args_form (uri command : str) (rest : list str) :
  str_in command VIRSH_SUBCOMMANDS = true →
  validate_virsh_args (lit "-c" :: uri :: command :: rest) = Ok tt →
  (command = lit "define" → Forall (λ a, confined a ∧ ends_with ".xml" a = true) rest) ∧
  (str_in command ["attach-device"; "detach-device"] = true →
     ∃ domain file, rest = [domain; file] ∧ cli_name domain
       ∧ confined file ∧ ends_with ".xml" file = true) ∧
  (str_in command ["define"; "attach-device"; "detach-device"] = false →
     Forall (λ a, cli_name a ∨ starts_with "-" a = true) rest).
Proof.
  intros Hin H. unfold validate_virsh_args in H. apply if_err_ok in H as [Huri%negb_false_iff H].
  apply bool_decide_eq_true in Huri.
  change (arg_after (lit "-c" :: uri :: command :: rest) "-c") with (Some uri) in Huri.
  injection Huri as ->.
  change (i ← position "-c" (lit "-c" :: lit "qemu:///system" :: command :: rest);
          (lit "-c" :: lit "qemu:///system" :: command :: rest) !! (i + 2)) with (Some command) in H.
  cbn [ok_or mbind result_bind] in H.
  assert (after_command command (lit "-c" :: lit "qemu:///system" :: command :: rest) = rest)
    as Hafter.
  { simpl. rewrite str_eqb_refl. destruct (lit "-c" =s? command) eqn:E1; split_checks.
    { by subst. }
    destruct (lit "qemu:///system" =s? command) eqn:E2; split_checks; [by subst|done]. }
  rewrite Hafter in H. clear Hafter. split_and!.
  - intros ->. simpl in H. inv_ok. eapply Forall_impl; [exact H|]. simpl. intros a Ha.
    inv_ok. split_checks. by apply in_state_xml_confined.
  - intros E. rewrite E in H. destruct rest as [|d [|f [|? ?]]]; try done. inv_ok.
    split_checks. exists d, f. split_and!; auto; by apply in_state_xml_confined.
  - intros E. assert (str_in command ["attach-device"; "detach-device"] = false ∧
      (command =s? "define") = false) as [E1 E2].
    { unfold str_in in *. simpl in *. split_checks. by rewrite !orb_false_iff, !str_eqb_neq. }
    rewrite E1 in H. inv_ok. eapply Forall_impl; [exact H|]. simpl. intros a Ha.
    rewrite E2 in Ha. simpl in Ha. destruct (starts_with "-" a); [by right|]. left.
    apply safe_cli_name_spec. by destruct (safe_cli_name a).
Qed.

Lemma virsh_contract_holds (args : list str) :
  shape_allowed "virsh" args = true → validate_virsh_args args = Ok tt → virsh_contract args.
Proof.
  intros (sub & Hsub & Hin)%virsh_subcommand_known H. split_and!.
  - apply virsh_subcommand_split in Hsub as (o & r & -> & Ho & Hd).
    exists o, sub, r. split_and!; try done. by apply str_in_lits.
  - unfold validate_virsh_args in H. apply if_err_ok in H as [Huri%negb_false_iff _].
    by apply bool_decide_eq_true, arg_after_spec in Huri.
  - intros uri command rest -> Hdash.
    change (virsh_subcommand (lit "-c" :: uri :: command :: rest))
      with (virsh_subcommand (command :: rest)) in Hsub. simpl in Hsub.
    assert ((command =s? "-c") = false) as Hc by (apply str_eqb_neq; by intros ->).
    rewrite Hc, Hdash in Hsub. injection Hsub as <-. by eapply virsh_args_form.
Qed.

(** The programs whose name decides everything else. *)
Lemma lxc_shape (program : str) (args : list str) :
  starts_with "lxc-" program = true → shape_allowed program args = true →
  program ∈ lits ["lxc-create"; "lxc-destroy"; "lxc-start"; "lxc-stop"; "lxc-freeze";
                  "lxc-unfreeze"; "lxc-info"; "lxc-cgroup"; "lxc-ls"].
Proof.
  intros [r ->]%starts_with_spec H. unfold shape_allowed in H.
  destruct (str_in ("lxc-" ++ r) ["lxc-create"; "lxc-destroy"; "lxc-start"; "lxc-stop";
    "lxc-freeze"; "lxc-unfreeze"; "lxc-info"; "lxc-cgroup"; "lxc-ls"]) eqn:E;
    [by apply str_in_lits|by vm_compute in H].
Qed.

Lemma exec_args_contract (program : str) (args : list str) :
  is_Some (program_path program) →
  validate_exec_shape program args = Ok tt → exec_contract program args.
Proof.
  intros Hp. unfold validate_exec_shape. intros H. inv_ok. split_checks.
  rename H into Hs, H0 into H.
  destruct (starts_with "lxc-" program) eqn:El.
  { apply lxc_contract; [by eapply lxc_shape|]. apply starts_with_spec in El as [r ->]. exact H. }
  unfold program_path in Hp. simpl in Hp.
  repeat match goal with
  | Hp : is_Some (if ?b then _ else _) |- _ => destruct b eqn:?
  end; split_checks; subst; try discriminate El.
  - by apply bridge_contract.
  - by apply ip_contract.
  - by apply mount_contract.
  - by apply nft_contract.
  - by apply iso_contract.
  - by apply iso_contract.
  - by apply qemu_img_contract.
  - by apply smartctl_contract.
  - by apply wipefs_contract.
  - by apply umount_contract.
  - constructor. by apply virsh_contract_holds.
  - destruct args as [|cmd args]; [done|].
    constructor; [by apply (str_in_lits cmd ZFS_SUBCOMMANDS)|]. by apply zfs_args_line.
  - by apply zpool_contract.
  - by destruct Hp.
Qed.

(** C1: a host command the broker accepts has at most 256 arguments, each at
    most 4096 bytes long and free of control characters, and follows the grammar
    of one of the programs below, which is written out without the validators
    ([exec_contract]): the subcommands of [virsh], [zfs], [zpool], [qemu-img],
    [ip] and [bridge]; the flags, options, datasets, snapshots and properties of
    [zfs] and [zpool]; whole disks directly below [/dev]; share sources and
    mount options without a denied key; and files below [/var/lib/daygleve] for
    [umount], [mount], [nft], [virsh define], the ISO tools, [lxc-*] and
    [qemu-img] (or a zvol of a dataset).  Of [-c], [-t], [-o], [-f] and [-n] it
    is the first occurrence that is checked: what a later one may say, and what
    [virsh] may be given behind other leading options, is not constrained
    ([exec_validation_gaps]). *)
Theorem validate_exec_sound (program : str) (args : list str) :
  validate_exec program args = Ok tt →
  is_Some (program_path program) ∧ (length args ≤ 256)%nat ∧
  Forall (λ a, (len a ≤ 4096)%N ∧ Forall (λ c, is_control c = false) a) args ∧
  exec_contract program args.
Proof.
  unfold validate_exec. destruct (program_path program) as [path|] eqn:Hp; [|done].
  intros H. inv_ok. split_and!; [by eexists | by apply Nat.ltb_ge | |].
  2: { apply exec_args_contract; [by rewrite Hp|done]. }
  eapply Forall_impl; [exact H0|]. exact validate_arg_ok.
Qed.

Lemma validate_exec_sound_witness :
  let args := lits ["-t"; "cifs"; "-o"; "ro,credentials=/var/lib/daygleve/share.cred";
                    "//nas/iso"; "/var/lib/daygleve/m/1"] in
  validate_exec "mount" args = Ok tt ∧ exec_contract "mount" args.
Proof.
  split; [by vm_compute|].
  apply (validate_exec_sound "mount"); by vm_compute.
Defined.

(** ** PCI addresses *)

Definition lower_hex (c : char) : bool := is_ascii_digit c || in_range 97 102 c.
Definition pci_function (c : char) : bool := in_range 48 55 c.

(** [dddd:bb:ss.f], lower-case hexadecimal, function 0 to 7. *)
Definition pci_shape (a : str) : Prop :=
  ∃ d1 d2 d3 d4 b1 b2 s1 s2 f,
    a = [d1; d2; d3; d4; 58; b1; b2; 58; s1; s2; 46; f]%N
    ∧ forallb lower_hex [d1; d2; d3; d4; b1; b2; s1; s2] = true ∧ pci_function f = true.

Lemma lower_hex_spec (c : char) :
  is_ascii_hexdigit c && negb (is_ascii_uppercase c) = lower_hex c.
Proof.
  apply eq_true_iff_eq. unfold is_ascii_hexdigit, is_ascii_uppercase, lower_hex, is_ascii_digit.
  rewrite andb_true_iff, negb_true_iff, <- not_true_iff_false, !orb_true_iff, !in_range_spec. lia.
Qed.

Definition pci_char_ok (ic : nat * char) : bool :=
  if bool_decide (ic.1 = 4 ∨ ic.1 = 7 ∨ ic.1 = 10)
  then (ic.2 =? ch ":")%N || (ic.2 =? ch ".")%N
  else is_ascii_hexdigit ic.2 && negb (is_ascii_uppercase ic.2).

Lemma pci_char_ascii (ic : nat * char) : pci_char_ok ic = true → is_ascii ic.2 = true.
Proof.
  unfold pci_char_ok. rewrite lower_hex_spec. unfold is_ascii, lower_hex, is_ascii_digit.
  case_bool_decide; rewrite orb_true_iff, ?N.eqb_eq, ?in_range_spec, N.ltb_lt;
    [|lia]. intros [->| ->]; done.
Qed.

Lemma zip_seq_ascii (n : nat) (a : str) :
  forallb pci_char_ok (zip (seq n (length a)) a) = true → forallb is_ascii a = true.
Proof.
  revert n; induction a as [|c a IH]; intros n; [done|].
  cbn [length seq zip zip_with forallb]. rewrite !andb_true_iff.
  intros [Hc Ha]. split; [by apply (pci_char_ascii (n, c))|eauto].
Qed.

Lemma validate_pci_address_shape (a : str) :
  validate_pci_address a = Ok tt ↔ pci_shape a.
Proof.
  unfold validate_pci_address. rewrite if_ok_err. split.
  - intros [H _]. split_checks. fold pci_char_ok in H0.
    pose proof (zip_seq_ascii 0 a H0) as Ha. rewrite bytes_ascii in * by done.
    rewrite N.eqb_eq, len_ascii in H by done.
    do 13 (destruct a as [|? a]; try (simpl in *; lia)). simpl in *.
    unfold pci_char_ok in H0. simpl in H0. rewrite !lower_hex_spec in H0. split_checks.
    bool_prop. subst. exists n, n0, n1, n2, n4, n5, n7, n8, n10.
    split; [done|]. simpl. rewrite !andb_true_iff. split_and!; try done.
    unfold pci_function, is_ascii_digit in *. rewrite in_range_spec in *.
    change (ch "7") with 55%N in *. lia.
  - intros (d1 & d2 & d3 & d4 & b1 & b2 & s1 & s2 & f & -> & Hh & Hf). split; [|done].
    set (a := [d1; d2; d3; d4; 58; b1; b2; 58; s1; s2; 46; f]%N).
    assert (forallb is_ascii a = true) as Ha.
    { assert (Forall (λ c, lower_hex c = true) [d1; d2; d3; d4; b1; b2; s1; s2])
        as Hl by (by apply forallb_Forall).
      assert (∀ c, lower_hex c = true → is_ascii c = true) as Hx.
      { intros c. unfold is_ascii, lower_hex, is_ascii_digit.
        rewrite orb_true_iff, !in_range_spec, N.ltb_lt. lia. }
      assert (is_ascii f = true) as Hf'.
      { unfold is_ascii, pci_function in *. rewrite in_range_spec in Hf. rewrite N.ltb_lt. lia. }
      rewrite !Forall_cons in Hl. destruct_and!. unfold a. simpl. rewrite !Hx by done.
      by rewrite Hf'. }
    rewrite bytes_ascii, len_ascii by done. subst a. fold pci_char_ok.
    assert (pci_char_ok (11, f) = true) as Hc.
    { unfold pci_char_ok. simpl. rewrite lower_hex_spec. unfold lower_hex, is_ascii_digit.
      unfold pci_function in Hf. rewrite orb_true_iff, !in_range_spec in *. lia. }
    assert (is_ascii_digit f && (f <=? ch "7")%N = true) as Hd.
    { unfold is_ascii_digit, pci_function in *. rewrite andb_true_iff, N.leb_le, in_range_spec in *.
      change (ch "7") with 55%N. lia. }
    simpl in Hh |- *. split_checks. rewrite !andb_true_iff. split_and!; try done.
    all: try (unfold pci_char_ok; simpl; by rewrite lower_hex_spec).
Qed.

(** ** Container configuration *)

Definition no_dotdot (p : str) : Prop := Forall (λ c, c ≠ lit "..") (split (ch "/") p).

(** A bind mount of an absolute host path onto a place below the container's
    root file system, wherever that is. *)
Definition bind_mount_entry (value : str) : Prop :=
  ∃ source dest options,
    split_whitespace value = [source; dest; lit "none"; options; lit "0"; lit "0"]
    ∧ starts_with "/" source = true ∧ no_dotdot source
    ∧ (∀ rootfs, ∃ rest, resolve (path_join rootfs dest) = resolve rootfs ++ rest)
    ∧ lit "bind" ∈ split (ch ",") options
    ∧ Forall (λ o, str_in o ["bind"; "ro"; "rw"; "create=dir"; "create=file"] = true)
        (split (ch ",") options).

Definition config_line (l : str) : Prop :=
  trim l = [] ∨ starts_with "#" (trim_start l) = true
  ∨ starts_with "lxc.cgroup2." (trim l) = true ∨ starts_with "lxc.net." (trim l) = true
  ∨ ∃ value, trim l = "lxc.mount.entry = " ++ value ∧ bind_mount_entry value.

Lemma no_traversal_spec (p : str) : no_traversal p = true → no_dotdot p.
Proof.
  unfold no_traversal, no_dotdot. intros H. split_checks. apply existsb_false in H.
  eapply Forall_impl; [exact H|]. simpl. intros c. apply str_eqb_neq.
Qed.

(** Joining is putting a slash between, as far as the components go. *)
Lemma resolve_path_join (base c : str) :
  starts_with "/" c = false → resolve (path_join base c) = resolve (base ++ ch "/" :: c).
Proof.
  intros Hs. unfold path_join. rewrite Hs. destruct base as [|b base]; [done|].
  destruct (ends_with "/" (b :: base)) eqn:E; simpl is_empty; cbn [orb]; [|done].
  apply ends_with_spec in E as [r E]. rewrite E, <- app_assoc. unfold resolve.
  change (lit "/" ++ c) with (ch "/" :: c). change (r ++ lit "/") with (r ++ ch "/" :: []).
  rewrite <- app_assoc. change ((ch "/" :: []) ++ ch "/" :: c) with (ch "/" :: [] ++ ch "/" :: c).
  rewrite !split_sep, !fold_left_app. done.
Qed.
Lemma path_join_below (rootfs dest : str) :
  starts_with "/" dest = false → no_dotdot dest →
  ∃ rest, resolve (path_join rootfs dest) = resolve rootfs ++ rest.
Proof.
  intros Hs Hd. rewrite resolve_path_join by done. unfold resolve. rewrite split_sep, fold_left_app.
  destruct (resolve_no_dotdot _ (fold_left resolve_step (split (ch "/") rootfs) []) Hd)
    as [rest ->].
  exists (reverse rest). by rewrite reverse_app.
Qed.

Lemma mount_entry_options_spec (saw r : bool) (opts : list str) :
  mount_entry_options saw opts = Ok r →
  Forall (λ o, str_in o ["bind"; "ro"; "rw"; "create=dir"; "create=file"] = true) opts ∧
  (r = true → saw = true ∨ lit "bind" ∈ opts).
Proof.
  revert saw; induction opts as [|o opts IH]; intros saw H; simpl in H.
  { inv_ok. by split; [|left]. }
  destruct (o =s? "bind") eqn:E1 in H.
  { split_checks. subst. apply IH in H as [? ?]. split; [by constructor|]. right. left. }
  destruct (str_in o _) eqn:E2 in H; [|done]. apply IH in H as [? Hb]. split.
  - constructor; [|done]. unfold str_in in *. simpl in *. rewrite E2. by rewrite orb_true_r.
  - intros Hr. destruct (Hb Hr); [by left|]. right. by right.
Qed.

Lemma mount_entry_spec (value : str) :
  validate_lxc_mount_entry value = Ok tt → bind_mount_entry value.
Proof.
  unfold validate_lxc_mount_entry, bind_mount_entry.
  destruct (split_whitespace value) as [|s [|d [|f [|o [|du [|pa [|? ?]]]]]]]; try done.
  intros H. inv_ok. split_checks. subst. apply mount_entry_options_spec in H2 as [Ho Hb].
  exists s, d, o. split_and!; eauto using no_traversal_spec, path_join_below.
  by destruct Hb.
Qed.

Lemma config_line_spec (l : str) : validate_lxc_config_line l = Ok tt → config_line l.
Proof.
  unfold validate_lxc_config_line, config_line.
  destruct (starts_with "#" (trim_start l)); [by auto|]. intros H.
  destruct (contains " = " (trim l)) eqn:?; [|done]. simpl in H.
  destruct (strip_prefix "lxc.mount.entry = " (trim l)) as [value|] eqn:E in H.
  - inv_ok. apply strip_prefix_Some in E. do 4 right. exists value.
    split; [done|]. by apply mount_entry_spec.
  - inv_ok. apply orb_true_iff in H as [?|?]; auto.
Qed.

Lemma config_block_lines (block : str) :
  validate_lxc_config_block block = Ok tt →
  block ≠ [] ∧ (len block ≤ 8192)%N ∧ Forall config_line (lines block).
Proof.
  unfold validate_lxc_config_block. intros H. inv_ok. split_checks.
  split; [done|]. split; [by apply N.ltb_ge|]. apply Forall_forall. intros l Hl.
  destruct (is_empty (trim l)) eqn:E; [left; by apply is_empty_true|].
  apply config_line_spec, (proj1 (Forall_forall _ _) H2), list_elem_of_In, List.filter_In.
  by rewrite E, <- list_elem_of_In.
Qed.

(** ** Whole requests *)

Definition timeout_in_range (t : N) : Prop := (1 ≤ t ≤ EXEC_TIMEOUT_CAP)%N.

Inductive op_contract : Op → Prop :=
  | oc_ping : op_contract Ping
  | oc_exec program args stream stdin t path :
      program_path program = Some path → exec_contract program args → timeout_in_range t →
      op_contract (Exec program args stream stdin t)
  | oc_pci kind address :
      pci_shape address →
      (∃ below, resolve (pci_write_target kind address).1
                = lits ["sys"; "bus"; "pci"] ++ below) →
      op_contract (PciWrite kind address)
  | oc_config name block :
      container_name name → Forall config_line (lines block) →
      resolve (path_join (path_join "/var/lib/lxc" name) "config")
        = lits ["var"; "lib"; "lxc"] ++ [name; lit "config"] →
      op_contract (LxcConfigAppend name block)
  | oc_rootfs name dataset :
      container_name name → dataset_name dataset → op_contract (LxcRootfsSet name dataset)
  | oc_console index t :
      index ≠ [] → Forall (λ c, is_ascii_digit c = true) index → timeout_in_range t →
      op_contract (ConsoleAttach ("/dev/pts/" ++ index) t)
  | oc_lxc_console name t :
      container_name name → timeout_in_range t → op_contract (LxcConsoleAttach name t).

Lemma validate_timeout_spec (t : N) : validate_timeout t = Ok tt → timeout_in_range t.
Proof.
  unfold validate_timeout, timeout_in_range. intros H. inv_ok. split_checks. bool_prop. lia.
Qed.

Lemma no_dotdot_single (p : str) : ch "/" ∉ p → p ≠ lit ".." → no_dotdot p.
Proof. intros ? ?. unfold no_dotdot. rewrite split_nosep by done. by repeat constructor. Qed.

(** One plain component joined to a path is one more component. *)
Lemma resolve_join_plain (base p : str) :
  (ch "/" ∉ p) → p ≠ [] → p ≠ lit "." → p ≠ lit ".." →
  resolve (path_join base p) = resolve base ++ [p].
Proof.
  intros Hp H1 H2 H3. rewrite resolve_path_join.
  2: { apply not_true_iff_false. intros [r ->]%starts_with_spec. apply Hp. by left. }
  unfold resolve. rewrite split_sep, fold_left_app, (split_nosep _ p) by done. simpl.
  unfold resolve_step at 1. rewrite (proj2 (is_empty_false p)), (proj2 (str_eqb_neq p ".")),
    (proj2 (str_eqb_neq p "..")) by done. simpl. by rewrite reverse_cons.
Qed.

Lemma pci_shape_plain (a : str) :
  pci_shape a → (ch "/" ∉ a) ∧ a ≠ [] ∧ a ≠ lit "." ∧ a ≠ lit "..".
Proof.
  intros (d1 & d2 & d3 & d4 & b1 & b2 & s1 & s2 & f & -> & Hh & Hf).
  split_and!; try done. simpl in Hh. split_checks.
  assert (lower_hex f = true) as Hl.
  { unfold pci_function, lower_hex, is_ascii_digit in *.
    rewrite orb_true_iff, !in_range_spec in *. lia. }
  set (p := λ c, lower_hex c || (c =? 58)%N || (c =? 46)%N).
  assert (∀ c, lower_hex c = true → p c = true) as Hp by (intros c Hc; unfold p; by rewrite Hc).
  intros Hin. apply (proj1 (Forall_forall (λ c, p c = true) _)) in Hin; [done|].
  repeat constructor; auto.
Qed.

Lemma pci_target_confined (kind : PciWriteKind) (a : str) :
  pci_shape a →
  ∃ below, resolve (pci_write_target kind a).1 = lits ["sys"; "bus"; "pci"] ++ below.
Proof.
  intros (? & ? & ? & ?)%pci_shape_plain. destruct kind; simpl.
  - rewrite resolve_join_plain, resolve_join_plain, (resolve_join_plain _ a) by (done || set_solver).
    eexists. by rewrite <- !app_assoc.
  - rewrite resolve_join_plain, (resolve_join_plain _ a) by (done || set_solver).
    eexists. by rewrite <- !app_assoc.
  - eexists. by vm_compute.
Qed.

Lemma lxc_config_path (name : str) :
  container_name name →
  resolve (path_join (path_join "/var/lib/lxc" name) "config")
  = lits ["var"; "lib"; "lxc"] ++ [name; lit "config"].
Proof.
  intros (? & ? & ? & ? & _).
  rewrite resolve_join_plain, (resolve_join_plain _ name) by (done || set_solver).
  by rewrite <- app_assoc.
Qed.

Lemma console_pty_spec (pty : str) :
  validate_console_pty pty = Ok tt →
  ∃ index, pty = "/dev/pts/" ++ index ∧ index ≠ []
           ∧ Forall (λ c, is_ascii_digit c = true) index.
Proof.
  unfold validate_console_pty. destruct (strip_prefix "/dev/pts/" pty) as [i|] eqn:E; [|done].
  apply strip_prefix_Some in E. intros H. inv_ok. split_checks. exists i.
  rewrite forallb_bytes in H1.
  - by rewrite <- forallb_Forall.
  - unfold is_ascii_digit. intros b ?%in_range_spec. lia.
Qed.

(** C3: every request the broker's validator lets through has the protocol's
    version, a non-empty id of at most 128 bytes, and an operation within its
    contract: host commands as in [exec_contract], PCI writes only below
    [/sys/bus/pci], config edits only of [/var/lib/lxc/<name>/config], consoles
    only on [/dev/pts/<n>], and timeouts between 1 and 900 seconds. *)
Theorem validate_request_sound (req : Request) :
  validate_request req = Ok tt →
  req_v req = PROTOCOL_VERSION ∧ req_id req ≠ [] ∧ (len (req_id req) ≤ 128)%N
  ∧ op_contract (req_op req).
Proof.
  unfold validate_request. intros H. inv_ok. split_checks.
  rewrite N.eqb_eq in H. rewrite N.ltb_ge in H3. split_and!; try done.
  destruct (req_op req) as [|p args st si t|k a|n b|n d|pty t|n t]; simpl in H1; inv_ok;
    repeat match goal with
    | H : validate_timeout _ = Ok tt |- _ => apply validate_timeout_spec in H
    | H : validate_lxc_name _ = Ok tt |- _ => apply validate_lxc_name_spec in H
    end.
  - constructor.
  - unfold validate_exec in H1. destruct (program_path p) as [path|] eqn:Hp; [|done]. inv_ok.
    by eapply oc_exec; [exact Hp| |]; [by apply exec_args_contract|].
  - apply validate_pci_address_shape in H1. constructor; [done|by apply pci_target_confined].
  - apply config_block_lines in H4 as (? & ? & ?).
    by constructor; [| |apply lxc_config_path].
  - unfold validate_zfs_dataset_path in H4. inv_ok. constructor; [done|].
    by apply safe_dataset_name.
  - apply console_pty_spec in H1 as (i & -> & ? & ?). by constructor.
  - by constructor.
Qed.

Definition sample_block : str :=
  "# limits" ++ [10%N] ++ "lxc.net.0.link = br0" ++ [10%N]
  ++ "lxc.mount.entry = /tank/media srv/media none bind,ro,create=dir 0 0" ++ [10%N].

Lemma validate_request_sound_witness :
  validate_request (mkRequest 1 "r1" (LxcConfigAppend "ct1" sample_block)) = Ok tt ∧
  op_contract (LxcConfigAppend "ct1" sample_block).
Proof.
  split; [by vm_compute|].
  apply (validate_request_sound (mkRequest 1 "r1" (LxcConfigAppend "ct1" sample_block))).
  by vm_compute.
Defined.

(** The PCI write gate.  [validate_pci_address] accepts exactly the
    canonical addresses [dddd:bb:ss.f] (lower-case hexadecimal, function 0 to 7),
    and for an accepted address the broker writes exactly the device's
    [driver/unbind], its [driver_override] or vfio-pci's [bind] file. *)
Theorem pci_write_gate (a : str) :
  (validate_pci_address a = Ok tt ↔ pci_shape a) ∧
  (pci_shape a →
   let devices := lits ["sys"; "bus"; "pci"; "devices"] in
   resolve (pci_write_target Unbind a).1 = devices ++ [a; lit "driver"; lit "unbind"] ∧
   resolve (pci_write_target Override a).1 = devices ++ [a; lit "driver_override"] ∧
   (pci_write_target Override a).2 = lit "vfio-pci" ∧
   resolve (pci_write_target Bind a).1
     = lits ["sys"; "bus"; "pci"; "drivers"; "vfio-pci"; "bind"]).
Proof.
  split; [apply validate_pci_address_shape|]. intros (? & ? & ? & ?)%pci_shape_plain.
  split_and!; [| |done|by vm_compute].
  - simpl. rewrite resolve_join_plain, resolve_join_plain, (resolve_join_plain _ a)
      by (done || set_solver).
    by rewrite <- !app_assoc.
  - simpl. rewrite resolve_join_plain, (resolve_join_plain _ a) by (done || set_solver).
    by rewrite <- !app_assoc.
Qed.

Lemma pci_write_gate_witness :
  pci_shape "0000:01:00.0" ∧
  resolve (pci_write_target Override "0000:01:00.0").1
    = lits ["sys"; "bus"; "pci"; "devices"; "0000:01:00.0"; "driver_override"].
Proof.
  destruct (pci_write_gate "0000:01:00.0") as [[Hs _] Ht].
  assert (pci_shape "0000:01:00.0") as H by (apply Hs; by vm_compute).
  split; [exact H|]. exact (proj1 (proj2 (Ht H))).
Defined.

(** ** Framing *)

Lemma from_to_le_bytes (n : nat) (v : N) :
  (v < 256 ^ N.of_nat n)%N → from_le_bytes (to_le_bytes n v) = v.
Proof.
  revert v; induction n as [|n IH]; intros v Hv; cbn [to_le_bytes from_le_bytes].
  { simpl in Hv. lia. }
  rewrite IH; [pose proof (N.div_mod v 256); lia|].
  rewrite Nat2N.inj_succ, N.pow_succ_r' in Hv. apply N.Div0.div_lt_upper_bound. lia.
Qed.

Lemma length_to_le_bytes (n : nat) (v : N) : length (to_le_bytes n v) = n.
Proof. revert v; induction n; simpl; auto. Qed.

Lemma read_exact_app (eof what : str) (a b : list N) :
  read_exact eof what (length a) (a ++ b) = Ok (a, b).
Proof.
  unfold read_exact. rewrite length_app, (proj2 (Nat.leb_le _ _)) by lia.
  by rewrite take_app_length, drop_app_length.
Qed.

Lemma read_exact_length (e what : str) (n : nat) (input buf rest : list N) :
  read_exact e what n input = Ok (buf, rest) → length buf = n.
Proof.
  unfold read_exact. destruct (n <=? length input)%nat eqn:E; [|done].
  intros [= <- <-]. apply Nat.leb_le in E. rewrite length_take. lia.
Qed.

Lemma write_frame_ok (body frame : list N) :
  write_frame body = Ok frame ↔
  (N.of_nat (length body) ≤ CONTROL_FRAME_MAX)%N ∧
  frame = to_le_bytes 4 (N.of_nat (length body)) ++ body.
Proof.
  unfold write_frame. rewrite !if_err_ok, !N.ltb_ge. unfold CONTROL_FRAME_MAX, U32_MAX.
  split; [intros (? & ? & ?); by simplify_eq|]. intros [? ->]. split_and!; [lia|done|done].
Qed.

Section frames.
Context (eof : str).

Lemma read_frame_write (body frame rest : list N) :
  write_frame body = Ok frame → body ≠ [] → read_frame eof (frame ++ rest) = Ok (body, rest).
Proof.
  intros [Hlen ->]%write_frame_ok Hne. unfold read_frame.
  rewrite <- app_assoc. set (n := N.of_nat (length body)) in *.
  rewrite <- (length_to_le_bytes 4 n) at 1. rewrite read_exact_app.
  cbn [mbind result_bind]. rewrite from_to_le_bytes by (unfold CONTROL_FRAME_MAX in *; lia).
  assert (n ≠ 0)%N as Hn by (destruct body; [done|subst n; simpl; lia]).
  rewrite (proj2 (N.eqb_neq n 0)), (proj2 (N.ltb_ge _ n)) by done.
  subst n. rewrite Nat2N.id. apply read_exact_app.
Qed.

(** C26: framing is lossless and bounded: what [write_frame] emits for a
    non-empty body, [read_frame] returns unchanged and leaves the rest of the
    stream untouched; a body is framed exactly when it has at most 1 MiB; and
    a frame that is read has between one byte and 1 MiB. *)
Theorem frame_roundtrip (body frame rest : list N) :
  (write_frame body = Ok frame → body ≠ [] →
   read_frame eof (frame ++ rest) = Ok (body, rest)) ∧
  (is_ok (write_frame body) = true ↔ (N.of_nat (length body) ≤ CONTROL_FRAME_MAX)%N) ∧
  (read_frame eof frame = Ok (body, rest) →
   (1 ≤ N.of_nat (length body) ≤ CONTROL_FRAME_MAX)%N).
Proof.
  split_and!.
  - apply read_frame_write.
  - rewrite is_ok_true. setoid_rewrite write_frame_ok. naive_solver.
  - unfold read_frame. intros [[lb input] [_ H]]%bind_ok. inv_ok.
    match goal with R : read_exact _ _ _ _ = _ |- _ => apply read_exact_length in R end.
    bool_prop. lia.
Qed.
End frames.

Lemma frame_roundtrip_witness :
  read_frame "eof" ([2; 0; 0; 0; 123; 125]%N ++ [7%N]) = Ok ([123; 125]%N, [7%N]).
Proof.
  apply (proj1 (frame_roundtrip "eof" [123; 125]%N [2; 0; 0; 0; 123; 125]%N [7%N]));
    [by vm_compute | done].
Defined.

(** ** Requests the argument checks let through

    [validate_exec_shape] and [validate_exec_args] disagree on which argument is
    the [virsh] subcommand, and [arg_after] looks at the first occurrence of an
    option only. *)

(** Four commands outside the intended surface pass [validate_exec]: a
    [virsh define] of a file outside the state directory behind [-q] (the two
    validators disagree on the subcommand), a second [virsh -c] to another
    hypervisor connection, denied mount options in a second [-o], and a second
    [nft -f] with a batch file outside the state directory. *)
Theorem exec_validation_gaps :
  (validate_exec "virsh" (lits ["-c"; "qemu:///system"; "-q"; "define"; "/etc/evil.xml"]) = Ok tt
   ∧ ¬ confined "/etc/evil.xml") ∧
  validate_exec "virsh" (lits ["-c"; "qemu:///system"; "-c"; "lxc:///"; "list"]) = Ok tt ∧
  (validate_mount_options "suid,dev,exec" ≠ Ok tt ∧
   validate_exec "mount" (lits ["-t"; "nfs"; "-o"; "ro"; "-o"; "suid,dev,exec"; "nas:/x";
     "/var/lib/daygleve/mounts/a"]) = Ok tt) ∧
  (validate_exec "nft" (lits ["-f"; "/var/lib/daygleve/x.nft"; "-f"; "/etc/evil.nft"]) = Ok tt
   ∧ ¬ confined "/etc/evil.nft").
Proof.
  split_and!; try by vm_compute.
  - intros [rest H].
    change (resolve "/etc/evil.xml") with (lits ["etc"; "evil.xml"]) in H. discriminate H.
  - intros [rest H].
    change (resolve "/etc/evil.nft") with (lits ["etc"; "evil.nft"]) in H. discriminate H.
Qed.
