(* ===== verification/BrokerServer.v ===== *)
(** * The broker's server (src/src/broker/server.rs)

    One connection of the root-owned broker: the peer check, the request, and
    the handler of each operation, over a world that holds the bytes of the
    socket, the files the broker touches and a log of what it does to the host.

    Every system call and socket write asks [w_faults] for its outcome, so the
    error paths are paths of the definitions; when the list is used up the calls
    succeed.  The processes the broker starts, the devices it reads, the JSON and
    base64 codecs and the texts of the operating system's errors are parameters.
    Paths are keys of the file map: symbolic links in the last component are
    modelled, in a directory they are not.  A read loop gets the sequence of
    outcomes its reads have; the task that feeds a child's stdin runs beside the
    loop on the other half of the socket and is computed from the input alone. *)

From S2P Require Export BrokerProto.

(** ** The rest of the protocol *)

Definition CHUNK_PAYLOAD_MAX : N := 256 * 1024.
Definition DEFAULT_TIMEOUT_SECS : N := 300.

Inductive StreamFrame :=
  | Stdin (d : str)
  | StdinEof
  | Stdout (d : str)
  | Exit (code : Z) (stderr : str) (timed_out : bool).

(** [serde_json] for the three messages, base64, and the text of the error a
    reader gets when the stream ends. *)
Class Codec := {
  request_to_json : Request → list N;
  request_of_json : list N → result str Request;
  response_to_json : Response → list N;
  response_of_json : list N → result str Response;
  frame_to_json : StreamFrame → list N;
  frame_of_json : list N → result str StreamFrame;
  b64_encode : list N → str;
  b64_decode : str → result str (list N);
  eof_text : str }.

(** ** Computations with a state and an error *)

Definition Io (S E A : Type) : Type := S → S * result E A.
#[export] Instance io_ret S E : MRet (Io S E) := λ A a s, (s, Ok a).
#[export] Instance io_bind S E : MBind (Io S E) := λ A B f m s,
  match m s with
  | (s, Ok a) => f a s
  | (s, Err e) => (s, Err e)
  end.
Definition io_err {S E A} (e : E) : Io S E A := λ s, (s, Err e).
Definition io_lift {S E A} (r : result E A) : Io S E A := λ s, (s, r).
Definition io_gets {S E A} (f : S → A) : Io S E A := λ s, (s, Ok (f s)).
Definition io_modify {S E} (f : S → S) : Io S E unit := λ s, (f s, Ok tt).
(** [m.map_err(f)], and [m] matched on by its caller. *)
Definition io_map_err {S E F A} (f : E → F) (m : Io S E A) : Io S F A := λ s,
  ((m s).1, map_err f (m s).2).
Definition io_try {S E F A} (m : Io S E A) : Io S F (result E A) := λ s,
  ((m s).1, Ok (m s).2).

(** ** The world of a connection *)

Record command := mkCommand { cmd_exe : str; cmd_args : list str; cmd_env : list (str * str) }.

(** What the broker does to the host. *)
Inductive effect :=
  | Ran (c : command) (timeout : N)
  | Wrote (path value : str)
  | Appended (path block : str)
  | Rewrote (path text : str)
  | Bridged (pty : str)
  | Removed (path : str).

(** A regular file holds the UTF-8 of a text or other bytes. *)
Inductive content := Text (s : str) | Binary (b : list N).
Inductive node :=
  | Regular (c : content) | Symlink (target : str) | Directory | Socket | CharDevice.

Inductive errno := ENOENT | ELOOP | EISDIR | EUTF8.

Record World (X : Type) := mkWorld {
  w_input : list N; w_sent : list (list N); w_faults : list (option (str * nat));
  w_files : gmap str node; w_log : list effect; w_ext : X }.
Arguments mkWorld {X}. Arguments w_input {X}. Arguments w_sent {X}. Arguments w_faults {X}.
Arguments w_files {X}. Arguments w_log {X}. Arguments w_ext {X}.

(** What a process or a read of one gives back. *)
Inductive outcome :=
  | NotSpawned (not_found : bool) (e : str)
  | TimedOut
  | WaitFailed (e : str)
  | Exited (code : option Z) (stdout stderr : str).
Inductive read_event := Deadline | ReadError (e : str) | Chunk (bs : list N).
(** A spawned child: the outcomes of the reads of its stdout (then end of file),
    its trimmed stderr, and what waiting for it gives. *)
Record child := mkChild {
  ch_reads : list read_event; ch_stderr : str; ch_wait : result str (option Z) }.

Inductive ServeError :=
  | Auth (m : str) | BadRequest (m : str) | ExecError (m : str) | SpawnNotFound (m : str).

Definition serve_error_text (e : ServeError) : str :=
  match e with
  | Auth m => "authorization failed: " ++ m
  | BadRequest m => "bad request: " ++ m
  | ExecError m => "execution failed: " ++ m
  | SpawnNotFound m => "program not found: " ++ m
  end.

Definition to_response (e : ServeError) : Response :=
  match e with
  | SpawnNotFound m => spawn_not_found m
  | ExecError m => exec_failed m []
  | Auth m | BadRequest m => failure m
  end.

Definition LXC_ROOT : str := "/var/lib/lxc".
Definition lxc_config_file (name : str) : str := path_join (path_join LXC_ROOT name) "config".

(** [command_for]: the environment is cleared and set. *)
Definition BROKER_ENV : list (str * str) :=
  [(lit "PATH", lit "/usr/local/sbin:/usr/local/bin:/usr/sbin:/usr/bin:/sbin:/bin");
   (lit "LC_ALL", lit "C")].
Definition command_for (executable : str) (args : list str) : command :=
  mkCommand executable args BROKER_ENV.

Definition cap_timeout (timeout_secs : N) : N := N.min timeout_secs EXEC_TIMEOUT_CAP.

(** ** The rewrite of a container's root file system

    The loop over [text.split('\n')]; the result is [out] and [replaced]. *)
Definition is_rootfs_line (line : str) : bool :=
  let trimmed := trim_start line in
  starts_with "lxc.rootfs.path" trimmed || starts_with "lxc.rootfs.device" trimmed.

Fixpoint rewrite_lines (new_path_line : str) (replaced : bool) (ls : list str) : str * bool :=
  match ls with
  | [] => ([], replaced)
  | line :: ls =>
      if is_rootfs_line line then
        let '(out, r) := rewrite_lines new_path_line true ls in
        ((if replaced then out else new_path_line ++ 10%N :: out), r)
      else
        let '(out, r) := rewrite_lines new_path_line replaced ls in
        (trim_end_matches 13 line ++ 10%N :: out, r)
  end.

Definition new_rootfs_line (dataset : str) : str := "lxc.rootfs.path = zfs:" ++ dataset.
Definition rewrite_rootfs (dataset text : str) : option str :=
  match rewrite_lines (new_rootfs_line dataset) false (split 10 text) with
  | (out, true) => Some out
  | (_, false) => None
  end.

Definition content_len (c : content) : N :=
  match c with Text s => len s | Binary b => N.of_nat (length b) end.
Definition content_bytes (c : content) : list N := match c with Text s => bytes s | Binary b => b end.
Definition content_app (c d : content) : content :=
  match c, d with
  | Text s, Text t => Text (s ++ t)
  | _, _ => Binary (content_bytes c ++ content_bytes d)
  end.
(** The first [n] bytes of a text: a text themselves, unless they end inside a
    character. *)
Fixpoint chars_within (n : nat) (s : str) : str :=
  match s with
  | [] => []
  | c :: s => let k := length (utf8_encode c) in if (k <=? n)%nat then c :: chars_within (n - k) s else []
  end.
Definition first_bytes (n : nat) (s : str) : content :=
  let whole := chars_within n s in
  if (length (bytes whole) =? Nat.min n (length (bytes s)))%nat then Text whole else Binary (take n (bytes s)).

Section world.
Context {X : Type}.
Abbreviation W := (World X).

Definition set_input (i : list N) (w : W) : W :=
  mkWorld i (w_sent w) (w_faults w) (w_files w) (w_log w) (w_ext w).
Definition set_files (f : gmap str node) (w : W) : W :=
  mkWorld (w_input w) (w_sent w) (w_faults w) f (w_log w) (w_ext w).
Definition set_ext (x : X) (w : W) : W :=
  mkWorld (w_input w) (w_sent w) (w_faults w) (w_files w) (w_log w) x.
Definition add_sent (bs : list N) (w : W) : W :=
  mkWorld (w_input w) (w_sent w ++ [bs]) (w_faults w) (w_files w) (w_log w) (w_ext w).
Definition add_log (e : effect) (w : W) : W :=
  mkWorld (w_input w) (w_sent w) (w_faults w) (w_files w) (w_log w ++ [e]) (w_ext w).
Definition set_faults (fs : list (option (str * nat))) (w : W) : W :=
  mkWorld (w_input w) (w_sent w) fs (w_files w) (w_log w) (w_ext w).

(** The outcome of the next call; a failed write may have written a part. *)
Definition syscall : Io W (str * nat) unit := λ w,
  match w_faults w with
  | Some e :: fs => (set_faults fs w, Err e)
  | None :: fs => (set_faults fs w, Ok tt)
  | [] => (w, Ok tt)
  end.
Definition sys : Io W str unit := io_map_err fst syscall.
Definition logged (e : effect) {E} : Io W E unit := io_modify (add_log e).

(** *** Writing frames *)

Definition write_all (what : str) (bs : list N) : Io W str unit :=
  _ ← io_map_err (λ e, what ++ ": " ++ e) sys;
  io_modify (add_sent bs).

Definition send_frame (body : list N) : Io W str unit :=
  let n := N.of_nat (length body) in
  if (U32_MAX <? n)%N then io_err (lit "frame body too large")
  else if (CONTROL_FRAME_MAX <? n)%N then io_err (lit "frame body too large")
  else
    _ ← write_all "write length prefix" (to_le_bytes 4 n);
    _ ← write_all "write frame body" body;
    io_map_err (λ e, "flush frame: " ++ e) sys.

(** *** Files *)

Context (strerror : errno → str).

Definition open_nofollow (path : str) : Io W str node :=
  _ ← sys;
  files ← io_gets w_files;
  match files !! path with
  | None => io_err (strerror ENOENT)
  | Some (Symlink _) => io_err (strerror ELOOP)
  | Some Directory => io_err (strerror EISDIR)
  | Some n => mret n
  end.

(** Opening follows at most 40 links. *)
Fixpoint follow (links : nat) (files : gmap str node) (path : str) : result str node :=
  match files !! path with
  | None => Err (strerror ENOENT)
  | Some (Symlink t) => match links with O => Err (strerror ELOOP) | S n => follow n files t end
  | Some Directory => Err (strerror EISDIR)
  | Some n => Ok n
  end.
Definition open_follow (path : str) : Io W str node :=
  _ ← sys; files ← io_gets w_files; io_lift (follow 40 files path).

Definition put_file (path : str) (c : content) {E} : Io W E unit :=
  io_modify (λ w, set_files (<[path := Regular c]> (w_files w)) w).

(** A write to an open regular file at its end; one that fails may have written some
    of the bytes. *)
Definition write_file_end (path : str) (c : content) (s : str) : Io W str unit :=
  r ← io_try syscall;
  match r with
  | Ok _ => put_file path (content_app c (Text s))
  | Err (e, n) => _ ← put_file path (content_app c (first_bytes n s)); io_err e
  end.

Definition remove_stale_socket (path : str) : Io W str unit :=
  _ ← sys;
  files ← io_gets w_files;
  match files !! path with
  | Some Socket =>
      _ ← sys; _ ← logged (Removed path); io_modify (λ w, set_files (delete path (w_files w)) w)
  | Some _ => io_err ("broker socket path is not a Unix socket: " ++ path)
  | None => mret tt
  end.

(** *** The constrained file operations *)

(** [fs::write] opens the file, then writes; the kernel may have acted on a write that
    fails, so that it is logged before its outcome is known. *)
Definition handle_pci_write (kind : PciWriteKind) (address : str) : Io W str unit :=
  let '(path, value) := pci_write_target kind address in
  _ ← io_map_err (λ e, "write " ++ path ++ ": " ++ e) sys;
  _ ← logged (Wrote path value);
  io_map_err (λ e, "write " ++ path ++ ": " ++ e) sys.

Definition handle_lxc_config_append (name block : str) : Io W str unit :=
  _ ← io_lift (validate_lxc_name name);
  _ ← io_lift (validate_lxc_config_block block);
  let path := lxc_config_file name in
  file ← io_map_err (λ e, "open " ++ path ++ ": " ++ e) (open_nofollow path);
  _ ← io_map_err (λ e, "stat " ++ path ++ ": " ++ e) sys;
  match file with
  | Regular c =>
      _ ← logged (Appended path block);
      _ ← io_map_err (λ e, "append " ++ path ++ ": " ++ e) (write_file_end path c block);
      io_map_err (λ e, "sync " ++ path ++ ": " ++ e) sys
  | _ => io_err (path ++ " is not a regular file")
  end.

Definition handle_lxc_rootfs_set (name dataset : str) : Io W str unit :=
  _ ← io_lift (validate_lxc_name name);
  _ ← io_lift (validate_zfs_dataset_path dataset);
  if negb (contains_char (ch "/") dataset) then
    io_err (lit "rootfs dataset must include a pool component")
  else
    let path := lxc_config_file name in
    file ← io_map_err (λ e, "open " ++ path ++ ": " ++ e) (open_nofollow path);
    _ ← io_map_err (λ e, "stat " ++ path ++ ": " ++ e) sys;
    match file with
    | Regular c =>
        if (1024 * 1024 <? content_len c)%N then io_err (path ++ " exceeds 1 MiB")
        else
          text ← io_map_err (λ e, "read " ++ path ++ ": " ++ e)
                   (_ ← sys; match c with Text s => mret s | Binary _ => io_err (strerror EUTF8) end);
          match rewrite_rootfs dataset text with
          | None => io_err (path ++ " has no lxc.rootfs.path line to replace")
          | Some out =>
              _ ← io_map_err (λ e, "seek " ++ path ++ ": " ++ e) sys;
              _ ← io_map_err (λ e, "truncate " ++ path ++ ": " ++ e) sys;
              _ ← logged (Rewrote path out);
              _ ← put_file path (Text []);
              _ ← io_map_err (λ e, "write " ++ path ++ ": " ++ e) (write_file_end path (Text []) out);
              io_map_err (λ e, "sync " ++ path ++ ": " ++ e) sys
          end
    | _ => io_err (path ++ " is not a regular file")
    end.
End world.

Section server.
Context `{Codec} {X : Type} (strerror : errno → str).
Abbreviation W := (World X).
(** Running a command to its end with no input; starting one with the chunks its
    stdin is fed, if it has any; bridging a console device; and whether the
    kernel gives a pty. *)
Context (output : command → N → X → X * outcome).
Context (spawn : command → option (list (list N)) → N → X → X * result (bool * str) child).
Context (pty_reads : str → list (list N) → N → X → X * list read_event).

Definition ext {A E} (f : X → X * A) : Io W E A := λ w,
  let '(x, a) := f (w_ext w) in (set_ext x w, Ok a).

(** ** Replies *)

Definition reply_response (response : Response) : Io W ServeError unit :=
  io_map_err BadRequest (send_frame (response_to_json response)).
Definition write_frame_json (frame : StreamFrame) : Io W str unit :=
  send_frame (frame_to_json frame).
Definition send_exit (code : Z) (stderr : str) (timed_out : bool) : Io W ServeError unit :=
  io_map_err ExecError (write_frame_json (Exit code stderr timed_out)).

Definition check_peer_uid (peer : result str N) (allowed_uid : N) : result ServeError unit :=
  match peer with
  | Err e => Err (Auth ("could not read peer credentials: " ++ e))
  | Ok uid =>
      if (uid =? allowed_uid)%N || (uid =? 0)%N then Ok tt
      else Err (Auth ("peer uid " ++ dec uid ++ " is not authorized (expected "
                      ++ dec allowed_uid ++ ")"))
  end.

(** ** Commands *)

Definition spawn_error (e : bool * str) : ServeError :=
  if e.1 then SpawnNotFound e.2 else ExecError ("spawn failed: " ++ e.2).

Definition permitted_program (program : str) : result ServeError str :=
  ok_or (BadRequest ("program `" ++ program ++ "` is not permitted")) (program_path program).

Definition unary_exec (program : str) (args : list str) (timeout_secs : N) :
    Io W ServeError Response :=
  executable ← io_lift (permitted_program program);
  let timeout := cap_timeout timeout_secs in
  let c := command_for executable args in
  _ ← logged (Ran c timeout);
  o ← ext (output c timeout);
  match o with
  | NotSpawned not_found e => io_err (spawn_error (not_found, e))
  | TimedOut => io_err (ExecError ("`" ++ program ++ "` timed out after " ++ dec timeout ++ "s"))
  | WaitFailed e => io_err (ExecError ("wait for child: " ++ e))
  | Exited status stdout stderr =>
      let code := default (-1)%Z status in
      mret (if (code =? 0)%Z then success stdout stderr code
            else exec_failed ("`" ++ program ++ " " ++ join " " args ++ "` failed: " ++ trim stderr)
                   stderr)
  end.

(** [feed_stdin] and [feed_console]: the chunks read from the client's frames,
    until it signals the end, disconnects or sends something else.  A frame takes
    more than four bytes of input, so its length is fuel enough. *)
Fixpoint feed (fuel : nat) (input : list N) : list (list N) :=
  match fuel with
  | O => []
  | S fuel =>
      match read_frame eof_text input with
      | Err _ => []
      | Ok (body, input) =>
          match frame_of_json body with
          | Ok (Stdin d) =>
              match b64_decode d with
              | Ok bs => if (N.of_nat (length bs) <=? CHUNK_PAYLOAD_MAX)%N
                         then bs :: feed fuel input else []
              | Err _ => []
              end
          | _ => []
          end
      end
  end.
Definition feed_stdin (input : list N) : list (list N) := feed (length input) input.
Definition feed_console (input : list N) : list (list N) := feed (length input) input.

(** The read loop of [stream_exec]. *)
Fixpoint exec_loop (c : child) (reads : list read_event) : Io W ServeError unit :=
  let at_eof :=
    status ← io_lift (map_err (λ e, ExecError ("wait for child: " ++ e)) (ch_wait c));
    send_exit (default (-1)%Z status) (ch_stderr c) false in
  match reads with
  | Deadline :: _ => send_exit (-1) (ch_stderr c) true
  | ReadError e :: _ =>
      send_exit (-1) ("read child stdout: " ++ e ++ "; " ++ ch_stderr c) false
  | [] | Chunk [] :: _ => at_eof
  | Chunk bs :: reads =>
      _ ← io_map_err ExecError (write_frame_json (Stdout (b64_encode bs)));
      exec_loop c reads
  end.

Definition stream_exec (program : str) (args : list str) (stdin_stream : bool)
    (timeout_secs : N) : Io W ServeError unit :=
  executable ← io_lift (permitted_program program);
  let timeout := cap_timeout timeout_secs in
  let c := command_for executable args in
  input ← io_gets w_input;
  _ ← logged (Ran c timeout);
  r ← ext (spawn c (if stdin_stream then Some (feed_stdin input) else None) timeout);
  match r with
  | Err e => send_exit (-1) (serve_error_text (spawn_error e)) false
  | Ok ch => exec_loop ch (ch_reads ch)
  end.

(** ** Consoles *)

(** The read loop of both bridges; [what] names the device in an error. *)
Fixpoint console_loop (what : str) (reads : list read_event) : Io W ServeError unit :=
  match reads with
  | Deadline :: _ => send_exit 0 [] true
  | [] | Chunk [] :: _ => send_exit 0 [] false
  | ReadError e :: _ => send_exit (-1) ("read " ++ what ++ ": " ++ e) false
  | Chunk bs :: reads =>
      r ← io_try (write_frame_json (Stdout (b64_encode bs)));
      match r with Ok _ => console_loop what reads | Err _ => mret tt end
  end.

Definition stream_console (pty : str) (timeout_secs : N) : Io W ServeError unit :=
  match validate_console_pty pty with
  | Err reason => send_exit (-1) reason false
  | Ok _ =>
      r ← io_try (open_follow strerror pty);
      match r with
      | Err e => send_exit (-1) ("open " ++ pty ++ ": " ++ e) false
      | Ok file =>
          r ← io_try sys;
          match r, file with
          | Err e, _ => send_exit (-1) ("stat " ++ pty ++ ": " ++ e) false
          | Ok _, CharDevice =>
              r ← io_try (open_follow strerror pty);
              match r with
              | Err e => send_exit (-1) ("open " ++ pty ++ ": " ++ e) false
              | Ok _ =>
                  input ← io_gets w_input;
                  _ ← logged (Bridged pty);
                  reads ← ext (pty_reads pty (feed_console input) (cap_timeout timeout_secs));
                  console_loop pty reads
              end
          | Ok _, _ => send_exit (-1) (pty ++ " is not a console device") false
          end
      end
  end.

Definition lxc_console_command (exe name : str) : command :=
  mkCommand exe [lit "-n"; name; lit "-t"; lit "0"]
    (BROKER_ENV ++ [(lit "TERM", lit "xterm-256color")]).

Definition stream_lxc_console (name : str) (timeout_secs : N) : Io W ServeError unit :=
  match validate_lxc_name name with
  | Err reason => send_exit (-1) reason false
  | Ok _ =>
      match program_path "lxc-console" with
      | None => send_exit (-1) "lxc-console is not permitted" false
      | Some exe =>
          r ← io_try sys;
          match r with
          | Err e => send_exit (-1) ("allocate pty: " ++ e) false
          | Ok _ =>
              r ← io_try sys;
              match r with
              | Err e => send_exit (-1) ("open pts: " ++ e) false
              | Ok _ =>
                  let timeout := cap_timeout timeout_secs in
                  let c := lxc_console_command exe name in
                  input ← io_gets w_input;
                  _ ← logged (Ran c timeout);
                  r ← ext (spawn c (Some (feed_console input)) timeout);
                  match r with
                  | Err e => send_exit (-1) ("start lxc-console: " ++ e.2) false
                  | Ok ch => console_loop "console" (ch_reads ch)
                  end
              end
          end
      end
  end.

(** ** A connection *)

Definition read_request : Io W str Request := λ w,
  match read_frame eof_text (w_input w) with
  | Err e => (w, Err e)
  | Ok (body, rest) =>
      (set_input rest w, map_err (λ e, "parse frame: " ++ e) (request_of_json body))
  end.

(** The reply of the three operations that write files. *)
Definition reply_outcome (m : Io W str unit) : Io W ServeError unit :=
  r ← io_try m;
  reply_response (match r with
                  | Ok _ => success [] [] 0
                  | Err message => exec_failed message []
                  end).

Definition perform (op : Op) : Io W ServeError unit :=
  match op with
  | Ping => reply_response (success "pong" [] 0)
  | Exec program args true stdin_stream timeout_secs =>
      stream_exec program args stdin_stream timeout_secs
  | Exec program args false false timeout_secs =>
      r ← io_try (unary_exec program args timeout_secs);
      reply_response (match r with Ok response => response | Err error => to_response error end)
  | Exec _ _ false true _ => reply_response (failure "stdin_stream requires stream=true")
  | PciWrite kind address => reply_outcome (handle_pci_write kind address)
  | LxcConfigAppend name block => reply_outcome (handle_lxc_config_append strerror name block)
  | LxcRootfsSet name dataset => reply_outcome (handle_lxc_rootfs_set strerror name dataset)
  | ConsoleAttach pty timeout_secs => stream_console pty timeout_secs
  | LxcConsoleAttach name timeout_secs => stream_lxc_console name timeout_secs
  end.

Definition handle_connection (peer : result str N) (allowed_uid : N) : Io W ServeError unit :=
  match check_peer_uid peer allowed_uid with
  | Err error => _ ← io_try (E:=ServeError) (reply_response (to_response error)); mret tt
  | Ok _ =>
      r ← io_try read_request;
      match r with
      | Err error => _ ← io_try (E:=ServeError) (reply_response (failure error)); mret tt
      | Ok request =>
          match validate_request request with
          | Err reason => reply_response (failure ("request rejected: " ++ reason))
          | Ok _ => perform (req_op request)
          end
      end
  end.
End server.
