(* ===== verification/BrokerCodec.v ===== *)
(** * What the broker's two ends rely on of the codecs

    The laws of [serde_json] and base64 the link between client and server needs,
    and a codec that has them: a message is one number, its code in [Countable]. *)

From stdpp Require Import countable.
From S2P Require Export BrokerServer.

(** What the codecs guarantee: [serde_json] reads back what it wrote, a response
    has no tag of a stream frame, base64 decodes what it encoded, and a chunk of
    at most [CHUNK_PAYLOAD_MAX] bytes fits a frame. *)
Class CodecLaws `{Codec} : Prop := {
  request_json : ∀ r, request_of_json (request_to_json r) = Ok r;
  response_json : ∀ r, response_of_json (response_to_json r) = Ok r;
  frame_json : ∀ f, frame_of_json (frame_to_json f) = Ok f;
  response_no_frame : ∀ r f, frame_of_json (response_to_json r) ≠ Ok f;
  b64_roundtrip : ∀ bs, b64_decode (b64_encode bs) = Ok bs;
  json_request_nonempty : ∀ r, request_to_json r ≠ [];
  json_response_nonempty : ∀ r, response_to_json r ≠ [];
  json_frame_nonempty : ∀ f, frame_to_json f ≠ [];
  chunk_fits : ∀ bs, (N.of_nat (length bs) ≤ CHUNK_PAYLOAD_MAX)%N →
    (N.of_nat (length (frame_to_json (Stdout (b64_encode bs)))) ≤ CONTROL_FRAME_MAX)%N ∧
    (N.of_nat (length (frame_to_json (Stdin (b64_encode bs)))) ≤ CONTROL_FRAME_MAX)%N;
  stdin_eof_fits : (N.of_nat (length (frame_to_json StdinEof)) ≤ CONTROL_FRAME_MAX)%N }.

(** ** A codec with these laws *)

Section messages.
#[local] Instance kind_eq_dec : EqDecision PciWriteKind.
Proof. solve_decision. Defined.
#[local] Instance op_eq_dec : EqDecision Op.
Proof. solve_decision. Defined.
#[local] Instance request_eq_dec : EqDecision Request.
Proof. solve_decision. Defined.
#[local] Instance response_eq_dec : EqDecision Response.
Proof. solve_decision. Defined.
#[local] Instance frame_eq_dec : EqDecision StreamFrame.
Proof. solve_decision. Defined.

Definition op_code (op : Op) : N * list str * (bool * bool) * N :=
  match op with
  | Ping => (0%N, [], (false, false), 0%N)
  | Exec program args stream stdin_stream t => (1%N, program :: args, (stream, stdin_stream), t)
  | PciWrite Unbind address => (2%N, [address], (false, false), 0%N)
  | PciWrite Override address => (2%N, [address], (false, false), 1%N)
  | PciWrite Bind address => (2%N, [address], (false, false), 2%N)
  | LxcConfigAppend name block => (3%N, [name; block], (false, false), 0%N)
  | LxcRootfsSet name dataset => (4%N, [name; dataset], (false, false), 0%N)
  | ConsoleAttach pty t => (5%N, [pty], (false, false), t)
  | LxcConsoleAttach name t => (6%N, [name], (false, false), t)
  end.
Definition op_of_code (c : N * list str * (bool * bool) * N) : option Op :=
  let '(tag, strs, (a, b), n) := c in
  match tag, strs with
  | 0%N, _ => Some Ping
  | 1%N, program :: args => Some (Exec program args a b n)
  | 2%N, [address] =>
      Some (PciWrite (match n with 0%N => Unbind | 1%N => Override | _ => Bind end) address)
  | 3%N, [name; block] => Some (LxcConfigAppend name block)
  | 4%N, [name; dataset] => Some (LxcRootfsSet name dataset)
  | 5%N, [pty] => Some (ConsoleAttach pty n)
  | 6%N, [name] => Some (LxcConsoleAttach name n)
  | _, _ => None
  end.
#[local] Instance op_countable : Countable Op.
Proof. refine (inj_countable op_code op_of_code _). by intros [| |[]| | | |]. Defined.
#[local] Instance request_countable : Countable Request.
Proof.
  refine (inj_countable' (λ r, (req_v r, req_id r, req_op r))
            (λ '(v, id, op), mkRequest v id op) _). by intros [].
Defined.
#[local] Instance response_countable : Countable Response.
Proof.
  refine (inj_countable' (λ r, (resp_ok r, resp_stdout r, resp_stderr r, resp_code r,
            resp_error_kind r, resp_error r))
            (λ '(ok, out, err, code, kind, e), mkResponse ok out err code kind e) _). by intros [].
Defined.
Definition frame_code (f : StreamFrame) : N * str * Z * bool :=
  match f with
  | Stdin d => (0%N, d, 0%Z, false)
  | StdinEof => (1%N, [], 0%Z, false)
  | Stdout d => (2%N, d, 0%Z, false)
  | Exit code stderr t => (3%N, stderr, code, t)
  end.
Definition frame_of_code (c : N * str * Z * bool) : StreamFrame :=
  let '(tag, s, z, b) := c in
  match tag with 0%N => Stdin s | 1%N => StdinEof | 2%N => Stdout s | _ => Exit z s b end.
#[local] Instance frame_countable : Countable StreamFrame.
Proof. refine (inj_countable' frame_code frame_of_code _). by intros []. Defined.

(** A tag and the code. *)
Definition number_to {A} `{Countable A} (tag : N) (a : A) : list N := [tag; Npos (encode a)].
Definition number_of {A} `{Countable A} (tag : N) (bs : list N) : result str A :=
  match bs with
  | [t; Npos p] =>
      if (t =? tag)%N then ok_or (lit "malformed") (decode p) else Err (lit "another message")
  | _ => Err (lit "malformed")
  end.
Lemma number_of_to {A} `{Countable A} tag (a : A) : number_of tag (number_to tag a) = Ok a.
Proof. unfold number_of, number_to. by rewrite N.eqb_refl, decode_encode. Qed.

Definition number_codec : Codec := {|
  request_to_json := number_to 1; request_of_json := number_of 1;
  response_to_json := number_to 2; response_of_json := number_of 2;
  frame_to_json := number_to 3; frame_of_json := number_of 3;
  b64_encode := λ bs, bs; b64_decode := λ s, Ok s; eof_text := lit "early eof" |}.

Lemma number_codec_laws : @CodecLaws number_codec.
Proof.
  split; try (intros; apply number_of_to); try done.
Qed.
End messages.
