(* ===== verification/BrokerServerProofs.v ===== *)
(** * What the broker does for a connection

    The effects of a connection are confined to one permitted operation of an
    authorised peer, and the rewrite of a container's root file system line. *)

From S2P Require Export BrokerSafety BrokerServer BrokerCodec.

(** ** Computations *)

Lemma io_bind_ok {S E A B} (m : Io S E A) (f : A → Io S E B) (s s' : S) (b : B) :
  mbind f m s = (s', Ok b) → ∃ s1 a, m s = (s1, Ok a) ∧ f a s1 = (s', Ok b).
Proof. unfold mbind, io_bind. destruct (m s) as [s1 [a|e]]; naive_solver. Qed.
Lemma io_bind_inv {S E A B} (m : Io S E A) (f : A → Io S E B) (s s' : S) (r : result E B) :
  mbind f m s = (s', r) → (∃ s1 a, m s = (s1, Ok a) ∧ f a s1 = (s', r)) ∨
  (∃ e, m s = (s', Err e) ∧ r = Err e).
Proof. unfold mbind, io_bind. destruct (m s) as [s1 [a|e]]; naive_solver. Qed.
Lemma io_map_err_inv {S E F A} (f : E → F) (m : Io S E A) (s s' : S) (r : result F A) :
  io_map_err f m s = (s', r) → ∃ r0, m s = (s', r0) ∧ r = map_err f r0.
Proof. unfold io_map_err. intros [= <- <-]. destruct (m s). eauto. Qed.

Lemma io_try_inv {S E F A} (m : Io S E A) (s s' : S) (r : result F (result E A)) :
  io_try m s = (s', r) → ∃ r0, m s = (s', r0) ∧ r = Ok r0.
Proof. unfold io_try. intros [= <- <-]. destruct (m s). eauto. Qed.

(** ** Effects *)

Section effects.
Context {X : Type}.
Abbreviation W := (World X).
Implicit Types (w : W).

(** Nothing happened to the host. *)
Definition same w w' : Prop := w_log w' = w_log w ∧ w_files w' = w_files w.

(** The path a file effect writes. *)
Definition effect_path (e : effect) : option str :=
  match e with Appended p _ | Rewrote p _ => Some p | _ => None end.

(** One effect happened; of the files only a regular one that the effect names
    has a new content. *)
Definition acted (P : effect → Prop) w w' : Prop :=
  ∃ e, P e ∧ w_log w' = w_log w ++ [e] ∧
    ∀ p, w_files w' !! p ≠ w_files w !! p →
      effect_path e = Some p ∧
      ∃ c c', w_files w !! p = Some (Regular c) ∧ w_files w' !! p = Some (Regular c').

Definition quiet {E A} (m : Io W E A) : Prop := ∀ w w' r, m w = (w', r) → same w w'.
Definition acts {E A} (P : effect → Prop) (m : Io W E A) : Prop :=
  ∀ w w' r, m w = (w', r) → same w w' ∨ acted P w w'.

Lemma same_trans w1 w2 w3 : same w1 w2 → same w2 w3 → same w1 w3.
Proof. intros [? ?] [? ?]. split; congruence. Qed.
Lemma acted_same_l P w1 w2 w3 : same w1 w2 → acted P w2 w3 → acted P w1 w3.
Proof. intros [Hl Hf] (e & He & Hlog & Hw). rewrite Hl in Hlog. rewrite Hf in Hw. by exists e. Qed.
Lemma acted_same_r P w1 w2 w3 : acted P w1 w2 → same w2 w3 → acted P w1 w3.
Proof.
  intros (e & He & Hlog & Hw) [Hl Hf]. exists e. rewrite Hl, Hf. done.
Qed.

Lemma quiet_ret {E A} (a : A) : quiet (mret a : Io W E A).
Proof. by intros w w' r [= <- _]. Qed.
Lemma quiet_err {E A} (e : E) : quiet (io_err (A:=A) e).
Proof. by intros w w' r [= <- _]. Qed.
Lemma quiet_lift {E A} (r : result E A) : quiet (io_lift r).
Proof. by intros w w' r' [= <- _]. Qed.
Lemma quiet_gets {E A} (f : W → A) : quiet (E:=E) (io_gets f).
Proof. by intros w w' r [= <- _]. Qed.
Lemma quiet_bind {E A B} (m : Io W E A) (f : A → Io W E B) :
  quiet m → (∀ a, quiet (f a)) → quiet (mbind f m).
Proof.
  intros Hm Hf w w' r. unfold mbind, io_bind. destruct (m w) as [w1 [a|e]] eqn:E1.
  - intros E2. eapply same_trans; [by eapply Hm|by eapply Hf].
  - intros [= <- _]. by eapply Hm.
Qed.
Lemma quiet_map_err {E F A} (f : E → F) (m : Io W E A) : quiet m → quiet (io_map_err f m).
Proof. intros Hm w w' r [= <- _]. destruct (m w) eqn:E1. by eapply Hm. Qed.
Lemma quiet_try {E F A} (m : Io W E A) : quiet m → quiet (E:=F) (io_try m).
Proof. intros Hm w w' r [= <- _]. destruct (m w) eqn:E1. by eapply Hm. Qed.
Lemma quiet_syscall : quiet (syscall (X:=X)).
Proof. intros w w' r. unfold syscall. destruct (w_faults w) as [|[]]; by intros [= <- _]. Qed.
Lemma quiet_sys : quiet (sys (X:=X)).
Proof. apply quiet_map_err, quiet_syscall. Qed.
Lemma quiet_write_all what bs : quiet (write_all (X:=X) what bs).
Proof.
  apply quiet_bind; [apply quiet_map_err, quiet_sys|]. by intros _ w w' r [= <- _].
Qed.
Lemma quiet_send_frame body : quiet (send_frame (X:=X) body).
Proof.
  unfold send_frame. cbv zeta. destruct (_ <? _)%N; [apply quiet_err|].
  destruct (_ <? _)%N; [apply quiet_err|]. apply quiet_bind; [apply quiet_write_all|intros ?].
  apply quiet_bind; [apply quiet_write_all|intros ?]. apply quiet_map_err, quiet_sys.
Qed.
Lemma quiet_ext {E A} (f : X → X * A) : quiet (ext (E:=E) f).
Proof. intros w w' r. unfold ext. destruct (f _). by intros [= <- _]. Qed.
Lemma quiet_open_follow strerror path : quiet (open_follow (X:=X) strerror path).
Proof. apply quiet_bind; [apply quiet_sys|intros ?]. apply quiet_bind; [apply quiet_gets|intros ?]. apply quiet_lift. Qed.

Lemma acts_quiet {E A} P (m : Io W E A) : quiet m → acts P m.
Proof. intros Hm w w' r E1. left. by eapply Hm. Qed.
Lemma acts_bind_l {E A B} P (m : Io W E A) (f : A → Io W E B) :
  quiet m → (∀ a, acts P (f a)) → acts P (mbind f m).
Proof.
  intros Hm Hf w w' r. unfold mbind, io_bind. destruct (m w) as [w1 [a|e]] eqn:E1.
  - intros E2. apply Hm in E1. destruct (Hf _ _ _ _ E2).
    + left. by eapply same_trans.
    + right. by eapply acted_same_l.
  - intros [= <- _]. left. by eapply Hm.
Qed.
Lemma acts_bind_r {E A B} P (m : Io W E A) (f : A → Io W E B) :
  acts P m → (∀ a, quiet (f a)) → acts P (mbind f m).
Proof.
  intros Hm Hf w w' r. unfold mbind, io_bind. destruct (m w) as [w1 [a|e]] eqn:E1.
  - intros E2. apply Hf in E2. destruct (Hm _ _ _ E1).
    + left. by eapply same_trans.
    + right. by eapply acted_same_r.
  - intros [= <- _]. by eapply Hm.
Qed.
Lemma acts_try {E F A} P (m : Io W E A) : acts P m → acts (E:=F) P (io_try m).
Proof. intros Hm w w' r [= <- _]. destruct (m w) eqn:E1. by eapply Hm. Qed.
Lemma acts_logged {E} (P : effect → Prop) e : P e → acts P (logged (X:=X) e (E:=E)).
Proof. intros He w w' r [= <- _]. right. by exists e. Qed.
Lemma acts_impl {E A} (P Q : effect → Prop) (m : Io W E A) :
  (∀ e, P e → Q e) → acts P m → acts Q m.
Proof.
  intros HPQ Hm w w' r E1. destruct (Hm _ _ _ E1) as [?|(e & ? & ?)]; [by left|].
  right. exists e. split; auto.
Qed.
End effects.

Create HintDb quiet discriminated.
#[export] Hint Resolve quiet_ret quiet_err quiet_lift quiet_gets quiet_map_err quiet_try
  quiet_syscall quiet_sys quiet_write_all quiet_send_frame quiet_ext quiet_open_follow : quiet.

Ltac quiet_step :=
  lazymatch goal with
  | |- quiet (mbind _ _) => apply quiet_bind; [|intros ?]
  | |- quiet (io_map_err _ _) => apply quiet_map_err
  | |- quiet (io_try _) => apply quiet_try
  | |- quiet (match ?x with _ => _ end) => destruct x
  | |- quiet (let _ := _ in _) => cbv zeta
  | |- quiet _ => solve [auto 2 with quiet nocore]
  end.
Ltac quiet := repeat quiet_step.

(** ** The handlers *)

Section handlers.
Context {X : Type} (strerror : errno → str).
Abbreviation W := (World X).
Implicit Types (w : W).

Lemma open_nofollow_spec path w w' r : open_nofollow strerror path w = (w', r) →
  same w w' ∧ ∀ n, r = Ok n → w_files w' !! path = Some n.
Proof.
  unfold open_nofollow, mbind, io_bind. destruct (sys w) as [w1 [u|e]] eqn:E1.
  - apply quiet_sys in E1. simpl. destruct (w_files w1 !! path) as [[]|] eqn:E2;
      intros [= <- <-]; split; naive_solver.
  - intros [= <- <-]. split; [by eapply quiet_sys|done].
Qed.

Lemma chars_within_all n s : (length (bytes s) ≤ n)%nat → chars_within n s = s.
Proof.
  revert n. induction s as [|c s IH]; intros n Hn; simpl; [done|].
  unfold bytes in Hn. simpl in Hn. rewrite length_app in Hn.
  rewrite (proj2 (Nat.leb_le _ _)) by lia. f_equal. apply IH. unfold bytes. lia.
Qed.
Lemma first_bytes_all n s : (length (bytes s) ≤ n)%nat → first_bytes n s = Text s.
Proof.
  intros Hn. unfold first_bytes. rewrite chars_within_all by done. cbv zeta.
  by rewrite (proj2 (Nat.eqb_eq _ _)) by lia.
Qed.
(** What is kept of a text after a part of it was written is a prefix of its bytes. *)
Lemma first_bytes_prefix n s : content_bytes (first_bytes n s) = take n (bytes s).
Proof.
  unfold first_bytes. cbv zeta. destruct (_ =? _)%nat eqn:E; [|done]. apply Nat.eqb_eq in E. simpl.
  assert (bytes (chars_within n s) `prefix_of` bytes s) as [r Hr].
  { clear E. revert n. induction s as [|c s IH]; intros n; simpl; [done|].
    destruct (_ <=? _)%nat; [|apply prefix_nil]. unfold bytes. simpl. apply prefix_app, IH. }
  rewrite Hr in E |- *. rewrite length_app in E.
  destruct (decide (n ≤ length (bytes (chars_within n s)))%nat).
  - rewrite take_app_le, take_ge by lia. done.
  - rewrite take_app_ge by lia. assert (length r = 0)%nat as ->%nil_length_inv by lia. by rewrite take_nil, app_nil_r.
Qed.

(** Writing at the end of an open file. *)
Lemma write_file_end_spec path c s w w' r :
  write_file_end path c s w = (w', r) →
  w_log w' = w_log w ∧
  (∃ n, w_files w' = <[path := Regular (content_app c (first_bytes n s))]> (w_files w)) ∧
  (r = Ok tt → w_files w' = <[path := Regular (content_app c (Text s))]> (w_files w)).
Proof.
  unfold write_file_end, mbind, io_bind, io_try. destruct (syscall w) as [w1 [u|[e n]]] eqn:E1;
    apply quiet_syscall in E1 as [Hl Hf]; simpl; intros [= <- <-]; simpl; rewrite Hl, Hf;
    split_and!; eauto; try done. exists (length (bytes s)). by rewrite first_bytes_all.
Qed.

(** A computation that logs nothing and changes at most the content of one file. *)
Definition fills {E A} path (m : Io W E A) : Prop := ∀ w w' r, m w = (w', r) →
  w_log w' = w_log w ∧
  (w_files w' = w_files w ∨ ∃ c, w_files w' = <[path := Regular c]> (w_files w)).

Lemma fills_quiet {E A} path (m : Io W E A) : quiet m → fills path m.
Proof. intros Hm w w' r E1. apply Hm in E1 as [? ?]. auto. Qed.
Lemma fills_bind {E A B} path (m : Io W E A) (f : A → Io W E B) :
  fills path m → (∀ a, fills path (f a)) → fills path (mbind f m).
Proof.
  intros Hm Hf w w' r. unfold mbind, io_bind. destruct (m w) as [w1 [a|e]] eqn:E1.
  - intros E2. apply Hm in E1 as [Hl1 H1]. apply Hf in E2 as [Hl2 H2]. split; [congruence|].
    destruct H2 as [->|[c ->]], H1 as [->|[c1 ->]]; rewrite ?insert_insert_eq; eauto.
  - intros [= <- _]. by eapply Hm.
Qed.
Lemma fills_map_err {E F A} path (f : E → F) (m : Io W E A) : fills path m → fills path (io_map_err f m).
Proof. intros Hm w w' r [= <- _]. destruct (m w) eqn:E1. by eapply Hm. Qed.
Lemma fills_put {E} path c : fills path (put_file (X:=X) path c (E:=E)).
Proof. intros w w' r [= <- _]. simpl. eauto. Qed.
Lemma fills_write path c s : fills path (write_file_end (X:=X) path c s).
Proof. intros w w' r E1. apply write_file_end_spec in E1 as (? & [n ?] & _). eauto. Qed.

(** [acts] from a world where [path] is the regular file that was opened. *)
Definition acts_on {E A} P path c (m : Io W E A) : Prop := ∀ w w' r,
  w_files w !! path = Some (Regular c) → m w = (w', r) → same w w' ∨ acted P w w'.

Lemma acts_on_quiet {E A} P path c (m : Io W E A) : quiet m → acts_on P path c m.
Proof. intros Hm w w' r _ E1. left. by eapply Hm. Qed.
Lemma acts_on_bind {E A B} P path c (m : Io W E A) (f : A → Io W E B) :
  quiet m → (∀ a, acts_on P path c (f a)) → acts_on P path c (mbind f m).
Proof.
  intros Hm Hf w w' r Hc. unfold mbind, io_bind. destruct (m w) as [w1 [a|e]] eqn:E1; apply Hm in E1.
  - intros E2. destruct (Hf a w1 w' r) as [?|?]; [|done| |].
    + by destruct E1 as [_ ->].
    + left. by eapply same_trans.
    + right. by eapply acted_same_l.
  - intros [= <- _]. by left.
Qed.
(** An effect on the file, then the writes it announces. *)
Lemma acts_on_fills {E A} (P : effect → Prop) e path c (m : Io W E A) :
  P e → effect_path e = Some path → fills path m →
  acts_on P path c (_ ← logged (X:=X) e; m).
Proof.
  intros He Hpath Hm w w' r Hc. unfold mbind, io_bind. simpl. intros E1.
  apply Hm in E1 as [Hl Hf]. simpl in Hl, Hf. right. exists e. split; [done|]. split; [done|].
  intros p Hp. destruct Hf as [Hf|[c' Hf]]; rewrite Hf in Hp |- *; [done|].
  destruct (decide (p = path)) as [->|]; [|by rewrite lookup_insert_ne in Hp].
  rewrite lookup_insert_eq. eauto 6.
Qed.

(** Opening a file and looking at its metadata, and then [k]. *)
Lemma open_then {A} path (e1 e2 : str → str) (k : node → Io W str A) w w' r :
  (file ← io_map_err e1 (open_nofollow strerror path);
   _ ← io_map_err e2 sys; k file) w = (w', r) →
  (same w w' ∧ ∃ e, r = Err e) ∨
  ∃ n w1, same w w1 ∧ w_files w1 !! path = Some n ∧ k n w1 = (w', r).
Proof.
  intros [(w1 & n & E1 & H)|(e & E1 & ->)]%io_bind_inv;
    apply io_map_err_inv in E1 as ([n0|e0] & E1 & Hr); try done;
    apply open_nofollow_spec in E1 as [Hs Hn]; [|left; eauto].
  injection Hr as <-. specialize (Hn n eq_refl).
  apply io_bind_inv in H as [(w2 & u & E2 & H)|(e & E2 & ->)];
    apply io_map_err_inv in E2 as (r2 & E2 & _); apply quiet_sys in E2;
    [|left; split; [by eapply same_trans|eauto]].
  right. exists n, w2. split_and!; [by eapply same_trans|by destruct E2 as [_ ->]|done].
Qed.

Definition is_regular (n : node) : bool := match n with Regular _ => true | _ => false end.

(** The same when [k] does nothing unless the file is a regular one. *)
Lemma acts_open {A} P path (e1 e2 : str → str) (k : node → Io W str A) :
  (∀ c, acts_on P path c (k (Regular c))) →
  (∀ n, is_regular n = false → quiet (k n)) →
  acts P (file ← io_map_err e1 (open_nofollow strerror path);
          _ ← io_map_err e2 sys; k file).
Proof.
  intros Hreg Hother w w' r [[? _]|(n & w1 & Hs & Hn & E1)]%open_then; [by left|].
  assert (same w1 w' ∨ acted P w1 w') as [?|?].
  - destruct (is_regular n) eqn:Hk; [|left; by eapply Hother].
    destruct n as [c| | | |]; try done. by eapply Hreg.
  - left. by eapply same_trans.
  - right. by eapply acted_same_l.
Qed.
End handlers.

(** ** The rewrite of the root file system line *)

Section rewrite.
Implicit Types (ls : list str).

Abbreviation other_lines ls := (List.filter (λ l, negb (is_rootfs_line l)) ls).
Abbreviation rootfs_lines ls := (List.filter is_rootfs_line ls).

(** The lines the loop emits. *)
Fixpoint emitted (new : str) (replaced : bool) ls : list str :=
  match ls with
  | [] => []
  | l :: ls =>
      if is_rootfs_line l then
        if replaced then emitted new true ls else new :: emitted new true ls
      else trim_end_matches 13 l :: emitted new replaced ls
  end.

Lemma rewrite_lines_emitted new replaced ls :
  rewrite_lines new replaced ls =
    (concat (map (λ l, l ++ [10%N]) (emitted new replaced ls)),
     replaced || existsb is_rootfs_line ls).
Proof.
  revert replaced; induction ls as [|l ls IH]; intros replaced; simpl.
  - by rewrite orb_false_r.
  - destruct (is_rootfs_line l); simpl.
    + rewrite IH, orb_true_r. destruct replaced; simpl; [done|]. by rewrite <- app_assoc.
    + rewrite IH. by rewrite <- app_assoc.
Qed.

(** Cutting the carriage returns off a line does not make it a root file system
    line. *)
Lemma rootfs_line_app l t : is_rootfs_line l = true → is_rootfs_line (l ++ t) = true.
Proof.
  unfold is_rootfs_line, trim_start, trim_start_by. rewrite !orb_true_iff, !starts_with_spec.
  assert (∀ p, p ≠ [] → (∃ r, drop_while is_whitespace l = p ++ r) →
    ∃ r, drop_while is_whitespace (l ++ t) = p ++ r) as Hp.
  { intros p Hne [r Hr]. exists (r ++ t). rewrite app_assoc, <- Hr.
    apply drop_while_app. rewrite Hr. by destruct p. }
  intros [H|H]; [left|right]; by apply Hp.
Qed.
Lemma rootfs_line_trim l : is_rootfs_line l = false → is_rootfs_line (trim_end_matches 13 l) = false.
Proof.
  destruct (trim_end_by_prefix (N.eqb 13) l) as [u Hu]. unfold trim_end_matches.
  rewrite <- !not_true_iff_false. intros Hl H. apply Hl. rewrite Hu. by apply rootfs_line_app.
Qed.

Lemma emitted_rootfs new replaced ls : is_rootfs_line new = true →
  rootfs_lines (emitted new replaced ls) =
    if replaced || negb (existsb is_rootfs_line ls) then [] else [new].
Proof.
  intros Hn. revert replaced; induction ls as [|l ls IH]; intros replaced; simpl.
  - by rewrite orb_true_r.
  - destruct (is_rootfs_line l) eqn:Hl; simpl.
    + destruct replaced; simpl; [apply IH|]. by rewrite Hn, IH.
    + rewrite (rootfs_line_trim _ Hl). apply IH.
Qed.
Lemma emitted_others new replaced ls : is_rootfs_line new = true →
  other_lines (emitted new replaced ls) = map (trim_end_matches 13) (other_lines ls).
Proof.
  intros Hn. revert replaced; induction ls as [|l ls IH]; intros replaced; simpl; [done|].
  destruct (is_rootfs_line l) eqn:Hl; simpl.
  - destruct replaced; simpl; [apply IH|]. rewrite Hn. apply IH.
  - rewrite (rootfs_line_trim _ Hl). simpl. by rewrite IH.
Qed.
Lemma emitted_no_newline new replaced ls : 10%N ∉ new → Forall (λ l, 10%N ∉ l) ls →
  Forall (λ l, 10%N ∉ l) (emitted new replaced ls).
Proof.
  intros Hn H. revert replaced; induction H as [|l ls Hl _ IH]; intros replaced; simpl; [done|].
  assert (10%N ∉ trim_end_matches 13 l) as Ht.
  { destruct (trim_end_by_prefix (N.eqb 13) l) as [u Hu]. rewrite Hu, not_elem_of_app in Hl. apply Hl. }
  destruct (is_rootfs_line l); [destruct replaced|]; auto using Forall_cons.
Qed.

Lemma new_line_rootfs dataset : is_rootfs_line (new_rootfs_line dataset) = true.
Proof.
  change (starts_with "lxc.rootfs.path" (new_rootfs_line dataset) ||
          starts_with "lxc.rootfs.device" (new_rootfs_line dataset) = true).
  apply orb_true_iff. left. apply starts_with_spec. by exists (" = zfs:" ++ dataset).
Qed.

Lemma dataset_no_newline dataset : validate_zfs_dataset_path dataset = Ok tt → 10%N ∉ new_rootfs_line dataset.
Proof.
  unfold validate_zfs_dataset_path. intros H. inv_ok.
  apply safe_dataset_name in H as (_ & Hc & _). unfold new_rootfs_line.
  rewrite not_elem_of_app. split.
  - rewrite <- contains_char_false. done.
  - intros Hin. apply (proj1 (Forall_forall _ _) Hc) in Hin. revert Hin. by vm_compute.
Qed.

(** The rewritten text: one root file system line, the new one; the other lines
    in their order, without trailing carriage returns; one more empty line. *)
Lemma rewrite_rootfs_lines dataset text out : 10%N ∉ new_rootfs_line dataset →
  rewrite_rootfs dataset text = Some out →
  rootfs_lines (split 10 out) = [new_rootfs_line dataset] ∧
  other_lines (split 10 out) = map (trim_end_matches 13) (other_lines (split 10 text)) ++ [[]] ∧
  rootfs_lines (split 10 text) ≠ [].
Proof.
  intros Hn. unfold rewrite_rootfs. rewrite rewrite_lines_emitted. simpl orb.
  destruct (existsb is_rootfs_line (split 10 text)) eqn:Hex; [|done]. intros [= <-].
  rewrite split_lines by (apply emitted_no_newline; [done|apply split_no_sep]).
  pose proof (new_line_rootfs dataset) as Hr. rewrite !List.filter_app.
  rewrite emitted_rootfs, emitted_others, Hex by done. split_and!; [done|done|].
  apply existsb_Exists in Hex as (l & Hin & Hl). intros Hnil.
  assert (l ∈ rootfs_lines (split 10 text)) as Hl'; [|rewrite Hnil in Hl'; set_solver].
  apply list_elem_of_In, List.filter_In. by rewrite <- list_elem_of_In.
Qed.

Lemma rewrite_rootfs_none dataset text :
  rewrite_rootfs dataset text = None ↔ rootfs_lines (split 10 text) = [].
Proof.
  unfold rewrite_rootfs. rewrite rewrite_lines_emitted. simpl orb.
  destruct (existsb is_rootfs_line (split 10 text)) eqn:Hex; split; try done.
  - intros Hnil. apply existsb_Exists in Hex as (l & Hin & Hl).
    assert (l ∈ rootfs_lines (split 10 text)) as Hl'; [|rewrite Hnil in Hl'; set_solver].
    apply list_elem_of_In, List.filter_In. by rewrite <- list_elem_of_In.
  - intros _. rewrite existsb_false in Hex. induction Hex as [|l ls Hl _ IH]; simpl; [done|].
    by rewrite Hl.
Qed.
End rewrite.

(** ** What each operation may do *)

(** The one effect an operation has, if it has any. *)
Definition permitted_effect (op : Op) (e : effect) : Prop :=
  match op, e with
  | Exec program args _ _ _, Ran c timeout =>
      program_path program = Some (cmd_exe c) ∧ cmd_args c = args ∧ cmd_env c = BROKER_ENV ∧
      (timeout ≤ EXEC_TIMEOUT_CAP)%N
  | PciWrite kind address, Wrote path value => (path, value) = pci_write_target kind address
  | LxcConfigAppend name block, Appended path b => path = lxc_config_file name ∧ b = block
  | LxcRootfsSet name dataset, Rewrote path text =>
      path = lxc_config_file name ∧ ∃ old, rewrite_rootfs dataset old = Some text
  | ConsoleAttach pty _, Bridged p => p = pty
  | LxcConsoleAttach name _, Ran c timeout =>
      c = lxc_console_command "/usr/bin/lxc-console" name ∧ (timeout ≤ EXEC_TIMEOUT_CAP)%N
  | _, _ => False
  end.

Section perform.
Context `{Codec} {X : Type} (strerror : errno → str).
Context (output : command → N → X → X * outcome).
Context (spawn : command → option (list (list N)) → N → X → X * result (bool * str) child).
Context (pty_reads : str → list (list N) → N → X → X * list read_event).
Abbreviation W := (World X).

Lemma cap_timeout_le t : (cap_timeout t ≤ EXEC_TIMEOUT_CAP)%N.
Proof. unfold cap_timeout. lia. Qed.

Lemma quiet_reply response : quiet (reply_response (X:=X) response).
Proof. apply quiet_map_err, quiet_send_frame. Qed.
Lemma quiet_exit code stderr t : quiet (send_exit (X:=X) code stderr t).
Proof. apply quiet_map_err, quiet_send_frame. Qed.
Lemma quiet_frame frame : quiet (write_frame_json (X:=X) frame).
Proof. apply quiet_send_frame. Qed.
#[local] Hint Resolve quiet_reply quiet_exit quiet_frame : quiet.

Lemma quiet_exec_loop c reads : quiet (exec_loop (X:=X) c reads).
Proof.
  induction reads as [|[|e|[|b bs]] reads IH]; simpl; cbv zeta; quiet.
Qed.
Lemma quiet_console_loop what reads : quiet (console_loop (X:=X) what reads).
Proof.
  induction reads as [|[|e|[|b bs]] reads IH]; simpl; quiet.
Qed.
#[local] Hint Resolve quiet_exec_loop quiet_console_loop : quiet.

Lemma acts_pci_write kind address :
  acts (permitted_effect (PciWrite kind address)) (handle_pci_write (X:=X) kind address).
Proof.
  unfold handle_pci_write. destruct (pci_write_target kind address) as [p v] eqn:E1.
  apply acts_bind_l; [quiet|intros ?]. apply acts_bind_r; [|intros ?; quiet].
  apply acts_logged. simpl. by rewrite E1.
Qed.

Lemma acts_config_append name block :
  acts (permitted_effect (LxcConfigAppend name block))
    (handle_lxc_config_append (X:=X) strerror name block).
Proof.
  unfold handle_lxc_config_append.
  apply acts_bind_l; [quiet|intros ?]. apply acts_bind_l; [quiet|intros ?]. cbv zeta.
  apply acts_open; [|intros [] ?; by quiet]. intros c. apply acts_on_fills; [done|done|].
  apply fills_bind; [apply fills_map_err, fills_write|intros ?]. apply fills_quiet. quiet.
Qed.

Lemma acts_rootfs_set name dataset :
  acts (permitted_effect (LxcRootfsSet name dataset))
    (handle_lxc_rootfs_set (X:=X) strerror name dataset).
Proof.
  unfold handle_lxc_rootfs_set.
  apply acts_bind_l; [quiet|intros ?]. apply acts_bind_l; [quiet|intros ?].
  destruct (negb _); [apply acts_quiet; quiet|]. cbv zeta.
  apply acts_open; [|intros [] ?; by quiet]. intros c.
  destruct (_ <? _)%N; [apply acts_on_quiet; quiet|].
  apply acts_on_bind; [quiet|intros text].
  destruct (rewrite_rootfs dataset text) as [out|] eqn:E1; [|apply acts_on_quiet; quiet].
  apply acts_on_bind; [quiet|intros ?]. apply acts_on_bind; [quiet|intros ?].
  apply acts_on_fills; [simpl; eauto|done|].
  apply fills_bind; [apply fills_put|intros ?].
  apply fills_bind; [apply fills_map_err, fills_write|intros ?]. apply fills_quiet. quiet.
Qed.

Lemma permitted_program_ok program exe :
  permitted_program program = Ok exe → program_path program = Some exe.
Proof. unfold permitted_program. by intros ?%ok_or_ok. Qed.

Lemma acts_permitted {A} P program (k : str → Io W ServeError A) :
  (∀ exe, program_path program = Some exe → acts P (k exe)) →
  acts P (exe ← io_lift (permitted_program program); k exe).
Proof.
  intros Hk w w' r. unfold mbind, io_bind, io_lift.
  destruct (permitted_program program) as [exe|e] eqn:E1.
  - intros E2. apply permitted_program_ok in E1. by eapply Hk.
  - intros [= <- _]. by left.
Qed.

Lemma acts_unary program args so t :
  acts (permitted_effect (Exec program args so so t)) (unary_exec output program args t).
Proof.
  apply acts_permitted. intros exe Hexe. cbv zeta. apply acts_bind_r.
  - apply acts_logged. simpl. eauto using cap_timeout_le.
  - intros ?. quiet.
Qed.
Lemma acts_stream program args si t :
  acts (permitted_effect (Exec program args true si t)) (stream_exec spawn program args si t).
Proof.
  apply acts_permitted. intros exe Hexe. cbv zeta. apply acts_bind_l; [quiet|intros ?].
  apply acts_bind_r.
  - apply acts_logged. simpl. eauto using cap_timeout_le.
  - intros ?. quiet.
Qed.
Lemma acts_console pty t :
  acts (permitted_effect (ConsoleAttach pty t)) (stream_console strerror pty_reads pty t).
Proof.
  unfold stream_console. destruct (validate_console_pty pty); [|apply acts_quiet; quiet].
  apply acts_bind_l; [quiet|intros [file|]]; [|apply acts_quiet; quiet].
  apply acts_bind_l; [quiet|intros [u|]]; [|apply acts_quiet; quiet].
  destruct file; try (apply acts_quiet; solve [quiet]).
  apply acts_bind_l; [quiet|intros [?|]]; [|apply acts_quiet; quiet].
  apply acts_bind_l; [quiet|intros ?]. apply acts_bind_r; [by apply acts_logged|intros ?]. quiet.
Qed.
Lemma acts_lxc_console name t :
  acts (permitted_effect (LxcConsoleAttach name t)) (stream_lxc_console spawn name t).
Proof.
  unfold stream_lxc_console. destruct (validate_lxc_name name); [|apply acts_quiet; quiet].
  change (program_path "lxc-console") with (Some (lit "/usr/bin/lxc-console")). cbv iota.
  apply acts_bind_l; [quiet|intros [?|]]; [|apply acts_quiet; quiet].
  apply acts_bind_l; [quiet|intros [?|]]; [|apply acts_quiet; quiet]. cbv zeta.
  apply acts_bind_l; [quiet|intros ?].
  apply acts_bind_r; [apply acts_logged; simpl; eauto using cap_timeout_le|intros ?]. quiet.
Qed.

Lemma acts_reply P (m : Io W str unit) : acts P m → acts P (reply_outcome m).
Proof. intros Hm. apply acts_bind_r; [by apply acts_try|intros ?]. quiet. Qed.

Lemma acts_perform op :
  acts (permitted_effect op) (perform strerror output spawn pty_reads op).
Proof.
  destruct op as [|program args [] si t| | | | |]; simpl.
  - apply acts_quiet. quiet.
  - apply acts_stream.
  - destruct si; [apply acts_quiet; quiet|].
    apply acts_bind_r; [|intros ?; quiet]. by apply acts_try, acts_unary.
  - apply acts_reply, acts_pci_write.
  - apply acts_reply, acts_config_append.
  - apply acts_reply, acts_rootfs_set.
  - apply acts_console.
  - apply acts_lxc_console.
Qed.
Lemma read_request_inv w w' r : read_request (X:=X) w = (w', r) →
  same w w' ∧ ∀ request, r = Ok request →
    ∃ body rest, read_frame eof_text (w_input w) = Ok (body, rest) ∧ request_of_json body = Ok request.
Proof.
  unfold read_request. destruct (read_frame eof_text (w_input w)) as [[body rest]|e];
    intros [= <- <-]; split; try done. intros request ?%map_err_ok. eauto.
Qed.

(** ** The theorems *)

Lemma connection_confined peer allowed_uid w w' r :
  handle_connection strerror output spawn pty_reads peer allowed_uid w = (w', r) →
  same w w' ∨
  ((∃ uid, peer = Ok uid ∧ (uid = allowed_uid ∨ uid = 0%N)) ∧
   ∃ body rest request, read_frame eof_text (w_input w) = Ok (body, rest) ∧
     request_of_json body = Ok request ∧ validate_request request = Ok tt ∧
     acted (permitted_effect (req_op request)) w w').
Proof.
  unfold handle_connection. destruct (check_peer_uid peer allowed_uid) as [u|e] eqn:Hp.
  2: { intros E1. left. revert E1. apply quiet_bind; [quiet|intros ?; quiet]. }
  assert (∃ uid, peer = Ok uid ∧ (uid = allowed_uid ∨ uid = 0%N)) as Hauth.
  { unfold check_peer_uid in Hp. destruct peer as [uid|]; [|done]. inv_ok. bool_prop. eauto. }
  intros [(w1 & rr & E1 & H1)|(e & E1 & ->)]%io_bind_inv; [|done].
  apply io_try_inv in E1 as (r1 & E1 & [= ->]).
  apply read_request_inv in E1 as [Hs Hr]. destruct r1 as [request|e].
  2: { left. eapply same_trans; [exact Hs|]. revert H1. apply quiet_bind; [quiet|intros ?; quiet]. }
  destruct (Hr request eq_refl) as (body & rest & Hf & Hj).
  destruct (validate_request request) as [[]|reason] eqn:Hv.
  2: { left. eapply same_trans; [exact Hs|]. by apply quiet_reply in H1. }
  apply acts_perform in H1 as [?|Ha]; [left; by eapply same_trans|]. right. split; [done|].
  exists body, rest, request. split_and!; [done..|]. by eapply acted_same_l.
Qed.

(** Whatever bytes a peer sends and whatever fails, a connection does nothing
    to the host, or the peer is root or the configured user, its first frame is a
    valid request, and exactly one effect happened, the one that request permits:
    the validated program at its fixed path with the request's arguments, the
    fixed environment and a capped timeout; a PCI attribute of the device; the
    config of the named container; the named console.  A file changes only if the
    effect names it and it is a regular file, not a link. *)
Theorem broker_confined peer allowed_uid w w' r :
  handle_connection strerror output spawn pty_reads peer allowed_uid w = (w', r) →
  same w w' ∨
  ((∃ uid, peer = Ok uid ∧ (uid = allowed_uid ∨ uid = 0%N)) ∧
   ∃ body rest request, read_frame eof_text (w_input w) = Ok (body, rest) ∧
     request_of_json body = Ok request ∧ validate_request request = Ok tt ∧
     acted (permitted_effect (req_op request)) w w').
Proof. apply connection_confined. Qed.
End perform.

Section rootfs.
Context {X : Type} (strerror : errno → str).
Implicit Types (w : World X).

Lemma content_app_nil c : content_app (Text []) c = c.
Proof. by destruct c. Qed.
(** The file after the file at [path] was opened and rewritten to [out]. *)
Lemma rewrite_file_spec path out w w' r :
  (_ ← logged (Rewrote path out);
   _ ← put_file path (Text []);
   _ ← io_map_err (λ e, "write " ++ path ++ ": " ++ e) (write_file_end path (Text []) out);
   io_map_err (λ e, "sync " ++ path ++ ": " ++ e) sys) w = (w', r) →
  (∃ n, w_files w' = <[path := Regular (first_bytes n out)]> (w_files w)) ∧
  (r = Ok tt → w_files w' = <[path := Regular (Text out)]> (w_files w)).
Proof.
  intros [(w1 & [] & [= <-] & H)|(e & [=] & _)]%io_bind_inv.
  apply io_bind_inv in H as [(w1 & [] & [= <-] & H)|(e & [=] & _)].
  apply io_bind_inv in H as [(w1 & [] & E1 & H)|(e & E1 & ->)];
    apply io_map_err_inv in E1 as (r1 & E1 & Hr1);
    apply write_file_end_spec in E1 as (_ & [n Hn] & Hok); rewrite content_app_nil in Hn, Hok; simpl in Hn, Hok;
    rewrite insert_insert_eq in Hn, Hok; [|split; [by exists n|done]].
  apply io_map_err_inv in H as (r2 & H & _). apply quiet_sys in H as [_ ->].
  split; [by exists n|intros _]. apply Hok. by destruct r1 as [[]|].
Qed.

(** Pointing a container at a new root file system rewrites its config so that
    it has exactly one root file system line, the new one, and every other line
    in its order (without trailing carriage returns, with one more empty line at
    the end); when it fails the file is untouched, or it holds the first bytes of the
    new text, when the write after the truncation failed. *)
Theorem rootfs_set_once name dataset w w' r :
  handle_lxc_rootfs_set strerror name dataset w = (w', r) →
  let path := lxc_config_file name in
  let rootfs_lines t := List.filter is_rootfs_line (split 10 t) in
  let other_lines t := List.filter (λ l, negb (is_rootfs_line l)) (split 10 t) in
  (r = Ok tt → ∃ text out,
     w_files w !! path = Some (Regular (Text text)) ∧
     w_files w' = <[path := Regular (Text out)]> (w_files w) ∧
     rootfs_lines text ≠ [] ∧ rootfs_lines out = [new_rootfs_line dataset] ∧
     other_lines out = map (trim_end_matches 13) (other_lines text) ++ [[]]) ∧
  (w_files w' = w_files w ∨ ∃ text out n,
     w_files w !! path = Some (Regular (Text text)) ∧ rewrite_rootfs dataset text = Some out ∧
     w_files w' = <[path := Regular (first_bytes n out)]> (w_files w)).
Proof.
  cbv zeta. unfold handle_lxc_rootfs_set. cbv zeta. set (path := lxc_config_file name).
  intros [(w1 & [] & [= <- _] & H)|(e & [= <- _] & ->)]%io_bind_inv; [|split; [done|by left]].
  apply io_bind_inv in H as [(w1 & [] & [= <- Hds] & H)|(e & [= <- _] & ->)];
    [|split; [done|by left]].
  destruct (negb _); [injection H as <- <-; split; [done|by left]|].
  apply open_then in H as [[[_ Hf] [e ->]]|(n & w1 & [_ Hf] & Hn & H)]; [split; [done|by left]|].
  rewrite <- Hf. destruct n as [c| | | |]; try (injection H as <- <-; split; [done|by left]).
  destruct (_ <? _)%N; [injection H as <- <-; split; [done|by left]|].
  apply io_bind_inv in H as [(w2 & text & E1 & H)|(e & E1 & ->)];
    apply io_map_err_inv in E1 as (r1 & E1 & Hr1).
  2: { split; [done|left]. revert E1. assert (quiet (X:=X) (_ ← sys; match c with
         Text s => mret s | Binary _ => io_err (strerror EUTF8) end)) as Hq by quiet.
       by intros [_ ?]%Hq. }
  assert (c = Text text) as ->.
  { destruct r1 as [t|]; [injection Hr1 as ->|done].
    apply io_bind_ok in E1 as (w3 & [] & _ & E1). by destruct c; [injection E1 as _ ->|]. }
  assert (w_files w2 = w_files w1) as Hf2.
  { revert E1. assert (quiet (X:=X) (_ ← sys; mret (M:=Io _ str) text)) as Hq by quiet. by intros [_ ?]%Hq. }
  rewrite <- Hf2 in Hn |- *. clear Hf2 E1 Hr1.
  destruct (rewrite_rootfs dataset text) as [out|] eqn:Hout;
    [|injection H as <- <-; split; [done|by left]].
  apply io_bind_inv in H as [(w3 & [] & E1 & H)|(e & E1 & ->)];
    apply io_map_err_inv in E1 as (r2 & E1 & _); apply quiet_sys in E1 as [_ Hf3];
    [|split; [done|by left]]. rewrite <- Hf3 in Hn |- *.
  apply io_bind_inv in H as [(w4 & [] & E1 & H)|(e & E1 & ->)];
    apply io_map_err_inv in E1 as (r3 & E1 & _); apply quiet_sys in E1 as [_ Hf4];
    [|split; [done|by left]]. rewrite <- Hf4 in Hn |- *.
  apply rewrite_file_spec in H as [[n Hn'] Hok]. split.
  - intros ->. exists text, out.
    destruct (rewrite_rootfs_lines dataset text out) as (? & ? & ?);
      [by apply dataset_no_newline|done|]. auto.
  - right. by exists text, out, n.
Qed.
End rootfs.

(** ** Witnesses *)

Definition quiet_world (input : list N) (files : gmap str node) : World unit :=
  mkWorld input [] [] files [] tt.
Definition config_files (name text : str) : gmap str node :=
  {[ lxc_config_file name := Regular (Text text) ]}.

Lemma broker_confined_witness :
  let _ := number_codec in
  let req := mkRequest 1 (lit "r1") (PciWrite Unbind "0000:01:00.0") in
  let w := quiet_world ([2; 0; 0; 0]%N ++ request_to_json req) ∅ in
  let w' := (handle_connection (λ _, []) (λ _ _ x, (x, TimedOut)) (λ _ _ _ x, (x, Err (true, [])))
               (λ _ _ _ x, (x, [])) (Ok 1000%N) 1000 w).1 in
  w_log w' = [Wrote "/sys/bus/pci/devices/0000:01:00.0/driver/unbind" "0000:01:00.0"] ∧
  (same w w' ∨
   ((∃ uid, Ok 1000%N = @Ok str N uid ∧ (uid = 1000%N ∨ uid = 0%N)) ∧
    ∃ body rest request, read_frame eof_text (w_input w) = Ok (body, rest) ∧
      request_of_json body = Ok request ∧ validate_request request = Ok tt ∧
      acted (permitted_effect (req_op request)) w w')).
Proof.
  cbv zeta. split; [by vm_compute|].
  eapply (@broker_confined number_codec unit). apply surjective_pairing.
Defined.

Lemma rootfs_set_once_witness :
  let w := quiet_world [] (config_files "web" (lit "lxc.rootfs.path = zfs:tank/a" ++ [10%N] ++ lit "lxc.net.0.type = veth")) in
  let r := handle_lxc_rootfs_set (λ _, []) "web" "tank/b" w in
  r.2 = Ok tt ∧
  ∃ text out,
    w_files w !! lxc_config_file "web" = Some (Regular (Text text)) ∧
    w_files r.1 = <[lxc_config_file "web" := Regular (Text out)]> (w_files w) ∧
    List.filter is_rootfs_line (split 10 text) ≠ [] ∧
    List.filter is_rootfs_line (split 10 out) = [new_rootfs_line "tank/b"] ∧
    List.filter (λ l, negb (is_rootfs_line l)) (split 10 out) =
      map (trim_end_matches 13) (List.filter (λ l, negb (is_rootfs_line l)) (split 10 text)) ++ [[]].
Proof.
  cbv zeta. assert (∀ w, w = quiet_world [] (config_files "web" (lit "lxc.rootfs.path = zfs:tank/a"
    ++ [10%N] ++ lit "lxc.net.0.type = veth")) →
    (handle_lxc_rootfs_set (λ _, []) "web" "tank/b" w).2 = Ok tt) as Hok by (intros w ->; by vm_compute).
  specialize (Hok _ eq_refl). split; [exact Hok|].
  eapply (rootfs_set_once (λ _, []) "web" "tank/b"); [apply surjective_pairing|exact Hok].
Defined.
