(* ===== verification/BrokerServe.v ===== *)
(** * The broker's listener (src/src/broker/server.rs, serve)

    The broker takes over its socket path and then serves one connection after the other.
    The source hands every connection to a task of its own; here the connections are served
    in the order in which they reach the host, each as one step, over the files and the log
    they share. *)

From S2P Require Export BrokerServerProofs.

(** What [accept] hands over: the peer's user id, the bytes that arrive and the outcomes
    of the calls made for the connection. *)
Record connection := mkConnection {
  cn_peer : result str N; cn_input : list N; cn_faults : list (option (str * nat)) }.

#[local] Instance content_eq_dec : EqDecision content.
Proof. solve_decision. Defined.
#[local] Instance node_eq_dec : EqDecision node.
Proof. solve_decision. Defined.

Section serve.
Context `{Codec} {X : Type} (strerror : errno → str) (address_in_use : str).
Context (output : command → N → X → X * outcome).
Context (spawn : command → option (list (list N)) → N → X → X * result (bool * str) child).
Context (pty_reads : str → list (list N) → N → X → X * list read_event).
Abbreviation W := (World X).
Abbreviation handle := (handle_connection strerror output spawn pty_reads).

(** [UnixListener::bind], which creates the socket. *)
Definition bind_socket (path : str) : Io W str unit :=
  _ ← sys;
  files ← io_gets w_files;
  match files !! path with
  | Some _ => io_err address_in_use
  | None => io_modify (λ w, set_files (<[path := Socket]> (w_files w)) w)
  end.

(** The world of a connection: its own bytes and faults, the host's files and log. *)
Definition world_of (c : connection) (w : W) : W :=
  mkWorld (cn_input c) [] (cn_faults c) (w_files w) (w_log w) (w_ext w).
(** The listener's own state after it. *)
Definition world_after (w w' : W) : W :=
  mkWorld (w_input w) (w_sent w) (w_faults w) (w_files w') (w_log w') (w_ext w').
Definition serve_connection (allowed_uid : N) (c : connection) : Io W str unit := λ w,
  (world_after w (handle (cn_peer c) allowed_uid (world_of c w)).1, Ok tt).

(** The loop over the results of [accept]: a connection that fails is logged, a failing
    [accept] ends the broker. *)
Fixpoint accept_loop (allowed_uid : N) (accepted : list (result str connection)) : Io W str unit :=
  match accepted with
  | [] => mret tt
  | Err e :: _ => io_err e
  | Ok c :: accepted => _ ← serve_connection allowed_uid c; accept_loop allowed_uid accepted
  end.

(** Removing what a dead broker left, binding, and the mode 0660. *)
Definition take_over (socket_path : str) : Io W str unit :=
  _ ← remove_stale_socket socket_path;
  _ ← bind_socket socket_path;
  sys.
Definition serve (socket_path : str) (allowed_uid : N) (accepted : list (result str connection)) : Io W str unit :=
  _ ← take_over socket_path;
  accept_loop allowed_uid accepted.

(** ** What a run of the broker does *)

(** The connections up to the first failure to accept one. *)
Fixpoint served (accepted : list (result str connection)) : list connection :=
  match accepted with Ok c :: accepted => c :: served accepted | _ => [] end.

(** What a connection may have done: nothing, or the effect of its valid request, asked
    for by root or the configured user. *)
Definition done_for (allowed_uid : N) (c : connection) (e : option effect) : Prop :=
  match e with
  | None => True
  | Some e =>
      (∃ uid, cn_peer c = Ok uid ∧ (uid = allowed_uid ∨ uid = 0%N)) ∧
      ∃ body rest request, read_frame eof_text (cn_input c) = Ok (body, rest) ∧
        request_of_json body = Ok request ∧ validate_request request = Ok tt ∧
        permitted_effect (req_op request) e
  end.

(** The host changed by these effects and no others: they are the new part of the log,
    and a file that changed is a regular one that one of them names. *)
Definition changed_by (es : list effect) (w w' : W) : Prop :=
  w_log w' = w_log w ++ es ∧
  ∀ p, w_files w' !! p ≠ w_files w !! p →
    (∃ c c', w_files w !! p = Some (Regular c) ∧ w_files w' !! p = Some (Regular c')) ∧
    ∃ e, e ∈ es ∧ effect_path e = Some p.

Lemma changed_by_nil w w' : w_log w' = w_log w → w_files w' = w_files w → changed_by [] w w'.
Proof. intros Hl Hf. split; [by rewrite app_nil_r|]. intros p Hp. by rewrite Hf in Hp. Qed.
Lemma changed_by_app es1 es2 w1 w2 w3 :
  changed_by es1 w1 w2 → changed_by es2 w2 w3 → changed_by (es1 ++ es2) w1 w3.
Proof.
  intros [Hl1 Hf1] [Hl2 Hf2]. split; [by rewrite Hl2, Hl1, app_assoc|]. intros p Hp.
  destruct (decide (w_files w2 !! p = w_files w1 !! p)) as [E|Hne].
  - rewrite <- E in Hp. destruct (Hf2 p Hp) as [(c & c' & H2 & H3) (e & He & Hpath)].
    rewrite E in H2. split; [eauto|]. exists e. set_solver.
  - destruct (Hf1 p Hne) as [(c & c' & H1 & H2) (e & He & Hpath)].
    split; [|exists e; set_solver]. exists c.
    destruct (decide (w_files w3 !! p = w_files w2 !! p)) as [E|Hne2].
    + exists c'. by rewrite E.
    + destruct (Hf2 p Hne2) as [(d & d' & _ & H4) _]. eauto.
Qed.

Lemma serve_connection_does allowed_uid c w w' r : serve_connection allowed_uid c w = (w', r) →
  r = Ok tt ∧ ∃ e, done_for allowed_uid c e ∧ changed_by (option_list e) w w'.
Proof.
  unfold serve_connection. intros [= <- <-]. split; [done|].
  destruct (handle (cn_peer c) allowed_uid (world_of c w)) as [w' r] eqn:E. cbn [fst].
  apply connection_confined in E as [[Hl Hf]|(Hauth & body & rest & request & H1 & H2 & H3 & e & He & Hlog & Hfiles)].
  - exists None. split; [done|]. by apply changed_by_nil.
  - exists (Some e). split; [by split; [|exists body, rest, request]|]. split; [exact Hlog|].
    intros p Hp. destruct (Hfiles p Hp) as [Hpath Hc]. split; [exact Hc|]. exists e. set_solver.
Qed.
Lemma accept_loop_does allowed_uid accepted w w' r : accept_loop allowed_uid accepted w = (w', r) →
  ∃ es, Forall2 (done_for allowed_uid) (served accepted) es ∧ changed_by (es ≫= option_list) w w'.
Proof.
  revert w. induction accepted as [|[c|e] accepted IH]; intros w; cbn [accept_loop served].
  - intros [= <- <-]. exists []. split; [constructor|]. by apply changed_by_nil.
  - intros [(w1 & [] & E1 & E2)|(e & E1 & _)]%io_bind_inv.
    + apply serve_connection_does in E1 as (_ & e & He & Hc1). apply IH in E2 as (es & Hes & Hc2).
      exists (e :: es). split; [by constructor|]. by eapply changed_by_app.
    + by apply serve_connection_does in E1 as [[=] _].
  - intros [= <- <-]. exists []. split; [constructor|]. by apply changed_by_nil.
Qed.

(** Taking over the path touches the path only, and nothing there but a socket or
    nothing at all. *)
Definition takes_over (path : str) (w w' : W) : Prop :=
  (∀ p, p ≠ path → w_files w' !! p = w_files w !! p) ∧
  (w_files w' = w_files w ∨ w_files w !! path = None ∨ w_files w !! path = Some Socket) ∧
  (w_log w' = w_log w ∨ w_log w' = w_log w ++ [Removed path] ∧ w_files w !! path = Some Socket).

Lemma sys_quiet (w w' : W) r : sys w = (w', r) → w_files w' = w_files w ∧ w_log w' = w_log w.
Proof. intros [Hl Hf]%quiet_sys. done. Qed.
Lemma remove_stale_takes path w w' r : remove_stale_socket path w = (w', r) →
  takes_over path w w' ∧
  (r = Ok tt → w_files w' !! path = None ∧ (w_files w !! path = None ∨ w_files w !! path = Some Socket)).
Proof.
  unfold remove_stale_socket. intros [(w1 & [] & E1 & E2)|(e & E1 & ->)]%io_bind_inv;
    apply sys_quiet in E1 as [Hf Hl].
  2: { split; [|done]. split_and!; [by intros; rewrite Hf|by left|by left]. }
  apply io_bind_inv in E2 as [(w2 & files & [= <- <-] & E2)|(e & [=] & _)].
  rewrite Hf in E2. destruct (w_files w !! path) as [[| | | |]|] eqn:Ep.
  4: { apply io_bind_inv in E2 as [(w2 & [] & E2 & E3)|(e & E2 & ->)]; apply sys_quiet in E2 as [Hf2 Hl2].
       - apply io_bind_inv in E3 as [(w3 & [] & [= <-] & E3)|(e & [=] & _)]. injection E3 as <- <-.
         unfold takes_over. cbn. rewrite Hf2, Hf, Hl2, Hl. split; [|intros _; rewrite lookup_delete_eq; auto].
         split_and!; [intros p Hp; by rewrite lookup_delete_ne|auto|auto].
       - split; [|done]. unfold takes_over. rewrite Hf2, Hf, Hl2, Hl. auto. }
  all: injection E2 as <- <-; unfold takes_over; rewrite Hf, Hl; (split; [auto|]); first [done|rewrite Ep; auto].
Qed.
Lemma bind_socket_does path w w' r : bind_socket path w = (w', r) →
  w_log w' = w_log w ∧ ∀ p, p ≠ path → w_files w' !! p = w_files w !! p.
Proof.
  unfold bind_socket. intros [(w1 & [] & E1 & E2)|(e & E1 & ->)]%io_bind_inv; apply sys_quiet in E1 as [Hf Hl].
  2: { split; [done|]. intros p _. by rewrite Hf. }
  apply io_bind_inv in E2 as [(w2 & files & [= <- <-] & E2)|(e & [=] & _)].
  destruct (w_files w1 !! path); injection E2 as <- <-; cbn; rewrite Hl, Hf; (split; [done|]); intros p Hp; [done|].
  by rewrite lookup_insert_ne.
Qed.
Lemma take_over_takes path w w' r : take_over path w = (w', r) → takes_over path w w'.
Proof.
  intros [(w1 & [] & E1 & E2)|(e & E1 & _)]%io_bind_inv; apply remove_stale_takes in E1 as [(Ho & Hp & Hlog) Hn];
    [|done]. destruct (Hn eq_refl) as [_ Hwas].
  assert (w_log w' = w_log w1 ∧ ∀ p, p ≠ path → w_files w' !! p = w_files w1 !! p) as [Hl Hf].
  { apply io_bind_inv in E2 as [(w2 & [] & E2 & E3)|(e & E2 & _)]; apply bind_socket_does in E2; [|done].
    apply sys_quiet in E3 as [Hf3 Hl3]. rewrite Hl3. setoid_rewrite Hf3. done. }
  split_and!; [|tauto|by rewrite Hl]. intros p Hne. rewrite Hf, Ho by done. done.
Qed.

(** C2: A run of the broker, whatever connects and whatever calls fail, does to the host
    what its connections ask for and nothing else: it takes over its own socket path,
    where it removes nothing but a socket; then every connection in turn has no effect or
    the single effect of its valid request, sent by root or the configured user; and the
    files that changed are regular ones those effects name. *)
Theorem serve_confined path allowed_uid accepted w w' r : serve path allowed_uid accepted w = (w', r) →
  ∃ w1 cs es, takes_over path w w1 ∧ (cs = [] ∨ cs = served accepted) ∧
    Forall2 (done_for allowed_uid) cs es ∧ changed_by (es ≫= option_list) w1 w'.
Proof.
  unfold serve. intros [(w1 & [] & E1 & E2)|(e & E1 & _)]%io_bind_inv; apply take_over_takes in E1.
  - apply accept_loop_does in E2 as (es & Hes & Hc). exists w1, (served accepted), es. auto.
  - exists w', [], []. split_and!; [done|by left|constructor|by apply changed_by_nil].
Qed.
End serve.

(** ** A concrete run *)

Definition demo_request : Request := mkRequest 1 (lit "r1") (PciWrite Unbind "0000:01:00.0").
Definition demo_connection (uid : N) : connection :=
  let _ := number_codec in
  mkConnection (Ok uid) ([2; 0; 0; 0]%N ++ request_to_json demo_request) [].
Definition demo_broker : World unit := quiet_world [] {[lit "/run/broker.sock" := Socket]}.

Lemma serve_confined_witness :
  let _ := number_codec in
  let w' := (serve (λ _, []) (lit "in use") (λ _ _ x, (x, TimedOut)) (λ _ _ _ x, (x, Err (true, [])))
               (λ _ _ _ x, (x, [])) "/run/broker.sock" 1000
               [Ok (demo_connection 1001); Ok (demo_connection 1000)] demo_broker).1 in
  w_log w' = [Removed "/run/broker.sock"; Wrote "/sys/bus/pci/devices/0000:01:00.0/driver/unbind" "0000:01:00.0"] ∧
  ∃ w1 cs es, takes_over "/run/broker.sock" demo_broker w1 ∧
    (cs = [] ∨ cs = [demo_connection 1001; demo_connection 1000]) ∧
    Forall2 (done_for 1000) cs es ∧ changed_by (es ≫= option_list) w1 w'.
Proof.
  cbv zeta. split; [by vm_compute|].
  eapply (@serve_confined number_codec unit _ _ _ _ _ "/run/broker.sock" 1000
    [Ok (demo_connection 1001); Ok (demo_connection 1000)] demo_broker). apply surjective_pairing.
Defined.
