(* ===== verification/Errors.v ===== *)
(** * Application errors (src/src/error.rs)

    [AppError] carries the error code of the API schema and a message; the HTTP
    status is derived from the code.  [AppError]'s third field, the list of
    field errors, is empty everywhere: [with_details] has no caller. *)

From S2P Require Export RustStr.

(** [daygleve_schema::common::ErrorCode], the codes [status] matches on. *)
Inductive ErrorCode :=
  | Validation | Unauthorized | Forbidden | NotFound | Conflict
  | HypervisorError | RateLimited | TwoFactorRequired | Internal.

#[export] Instance ErrorCode_eq_dec : EqDecision ErrorCode.
Proof. solve_decision. Defined.

Record AppError := mkAppError { code : ErrorCode; message : str }.

#[export] Instance AppError_eq_dec : EqDecision AppError.
Proof. solve_decision. Defined.

(** [ApiResult<T>]. *)
Abbreviation ApiResult T := (result AppError T).

Definition validation (m : str) : AppError := mkAppError Validation m.
Definition unauthorized (m : str) : AppError := mkAppError Unauthorized m.
Definition forbidden (m : str) : AppError := mkAppError Forbidden m.
Definition not_found (m : str) : AppError := mkAppError NotFound m.
Definition conflict (m : str) : AppError := mkAppError Conflict m.
Definition hypervisor (m : str) : AppError := mkAppError HypervisorError m.
Definition too_many_requests (m : str) : AppError := mkAppError RateLimited m.
Definition internal (m : str) : AppError := mkAppError Internal m.
Definition two_factor_required (m : str) : AppError := mkAppError TwoFactorRequired m.

Definition is_two_factor_required (e : AppError) : bool :=
  match code e with TwoFactorRequired => true | _ => false end.

(** The HTTP status code. *)
Definition status (e : AppError) : N :=
  match code e with
  | Validation => 400
  | Unauthorized => 401
  | Forbidden => 403
  | NotFound => 404
  | Conflict => 409
  | HypervisorError => 502
  | RateLimited => 429
  | TwoFactorRequired => 401
  | Internal => 500
  end.

(** The body of the response ([ApiError]; its [request_id] is [None]). *)
Definition into_response (e : AppError) : N * (ErrorCode * str) :=
  (status e, (code e, message e)).

(** Every error is answered with a 4xx or 5xx status. *)
Lemma status_is_error (e : AppError) : (400 ≤ status e < 600)%N.
Proof. unfold status. destruct (code e); lia. Qed.
