(* ===== verification/HttpBoundary.v ===== *)
(** * The boundary of the HTTP server (src/src/api/mod.rs)

    What every answer passes on its way out: the correlation id, the security headers
    and the id inside the error envelope; and the origins other than the server's own
    that browsers may call from. *)

From S2P Require Export Errors.

(** ** Headers *)

(** [HeaderMap]: names in lower case, with their values in the order of insertion. *)
Definition headers : Type := list (str * str).
Definition header_remove (name : str) (h : headers) : headers := List.filter (λ p, negb (p.1 =s? name)) h.
(** [HeaderMap::insert], which replaces every value of the name. *)
Definition header_insert (name value : str) (h : headers) : headers := header_remove name h ++ [(name, value)].
Definition header_values (name : str) (h : headers) : list str :=
  map snd (List.filter (λ p, p.1 =s? name) h).

(** [http::Response<Body>]; [rs_body] is what collecting the body yields, [None] when
    that fails. *)
Record Response := mkResponse { rs_status : N; rs_headers : headers; rs_body : option (list N) }.
(** [is_client_error() || is_server_error()]. *)
Definition is_failure (status : N) : bool :=
  ((400 <=? status) && (status <? 500))%N || ((500 <=? status) && (status <? 600))%N.

(** [daygleve_schema::common::ApiError], as [into_response] fills it. *)
Record ApiError := mkApiError { ae_code : ErrorCode; ae_message : str; ae_details : list (str * str); ae_request_id : option str }.
Definition set_request_id (id : str) (e : ApiError) : ApiError :=
  mkApiError (ae_code e) (ae_message e) (ae_details e) (Some id).

Section boundary.
(** [serde_json::from_slice] and [to_vec] at [ApiError], and [HeaderValue::from_str]. *)
Context (error_of_json : list N → option ApiError) (error_to_json : ApiError → option (list N))
  (header_value : str → option str).

(** The response of [AppError::into_response]. *)
Definition error_body (e : AppError) : ApiError :=
  let '(_, (code, message)) := into_response e in mkApiError code message [] None.

Definition security_headers (h : headers) : headers :=
  let h := header_insert "x-content-type-options" (lit "nosniff") h in
  let h := header_insert "x-frame-options" (lit "DENY") h in
  header_insert "referrer-policy" (lit "no-referrer") h.

(** The rebuilt answer of a failure. *)
Definition correlate (id : str) (r : Response) : Response :=
  match rs_body r with
  | Some bytes =>
      match error_of_json bytes with
      | Some error =>
          let error := set_request_id id error in
          let body := match error_to_json error with Some body => body | None => bytes end in
          mkResponse (rs_status r) (header_remove "content-length" (rs_headers r)) (Some body)
      | None => mkResponse (rs_status r) (rs_headers r) (Some bytes)
      end
  | None => mkResponse (rs_status r) (rs_headers r) (Some [])
  end.

(** [id] is the fresh UUID, [response] the answer of the rest of the stack. *)
Definition request_id (id : str) (response : Response) : Response :=
  let h := rs_headers response in
  let h := match header_value id with Some value => header_insert "x-request-id" value h | None => h end in
  let response := mkResponse (rs_status response) (security_headers h) (rs_body response) in
  if is_failure (rs_status response) then correlate id response else response.

(** [cors_layer]: the origins the layer lets in with any method and header, and the
    headers it exposes; [None] is the layer that lets nobody in. *)
Definition cors_layer (origins : list str) : option (list str * list str) :=
  if match origins with [] => true | _ => false end then None
  else Some (omap header_value origins, [lit "warning"]).
End boundary.

(** ** What every answer has *)

Lemma header_values_remove name other h :
  header_values name (header_remove other h) = if name =s? other then [] else header_values name h.
Proof.
  unfold header_values, header_remove. induction h as [|[n v] h IH].
  { by destruct (name =s? other). }
  unfold str_eqb in *. cbn. repeat case_bool_decide; simplify_eq/=; rewrite ?bool_decide_true by done;
    rewrite ?bool_decide_false by done; cbn; rewrite ?IH; congruence.
Qed.
Lemma header_values_insert name other v h :
  header_values name (header_insert other v h) = if name =s? other then [v] else header_values name h.
Proof.
  transitivity (header_values name (header_remove other h) ++ header_values name [(other, v)]).
  { unfold header_values, header_insert. by rewrite List.filter_app, map_app. }
  rewrite header_values_remove. unfold header_values, str_eqb. cbn.
  repeat case_bool_decide; simplify_eq/=; by rewrite ?app_nil_r.
Qed.

Section answers.
Context (error_of_json : list N → option ApiError) (error_to_json : ApiError → option (list N))
  (header_value : str → option str).
Local Abbreviation answer := (request_id error_of_json error_to_json header_value).

(** The headers of an answer are those of the rest of the stack, less their
    [content-length] when the envelope is rewritten, with the four of the boundary in
    place of any value they had. *)
Lemma answer_headers id r name : header_value id = Some id → name ≠ lit "content-length" →
  header_values name (rs_headers (answer id r)) =
    if name =s? "x-request-id" then [id]
    else if name =s? "x-content-type-options" then [lit "nosniff"]
    else if name =s? "x-frame-options" then [lit "DENY"]
    else if name =s? "referrer-policy" then [lit "no-referrer"]
    else header_values name (rs_headers r).
Proof.
  intros Hid Hname. apply str_eqb_neq in Hname. unfold request_id, correlate. rewrite Hid.
  assert (∀ h, header_values name (security_headers (header_insert "x-request-id" id h)) =
    if name =s? "x-request-id" then [id]
    else if name =s? "x-content-type-options" then [lit "nosniff"]
    else if name =s? "x-frame-options" then [lit "DENY"]
    else if name =s? "referrer-policy" then [lit "no-referrer"]
    else header_values name h) as Hs.
  { intros h. unfold security_headers. rewrite !header_values_insert. unfold str_eqb.
    repeat case_bool_decide; simplify_eq/=; done. }
  repeat (case_match; cbn [rs_headers rs_status rs_body] in *; simplify_eq);
    rewrite ?header_values_remove, ?Hname, ?Hs; congruence.
Qed.

Lemma answer_status id r : rs_status (answer id r) = rs_status r.
Proof. unfold request_id, correlate. repeat case_match; done. Qed.
Lemma answer_body id r : is_failure (rs_status r) = false → rs_body (answer id r) = rs_body r.
Proof. intros H. unfold request_id. cbn [rs_status]. by rewrite H. Qed.

(** The client of a failed request reads, in the envelope, the code and the message of
    the error and the id that is in the header. *)
Lemma answer_correlated id e h body body' :
  error_of_json body = Some (error_body e) →
  error_to_json (set_request_id id (error_body e)) = Some body' →
  error_of_json body' = Some (set_request_id id (error_body e)) →
  ∃ bytes error, rs_body (answer id (mkResponse (status e) h (Some body))) = Some bytes ∧
    error_of_json bytes = Some error ∧ ae_code error = code e ∧ ae_message error = message e ∧
    ae_request_id error = Some id ∧
    header_values (lit "content-length") (rs_headers (answer id (mkResponse (status e) h (Some body)))) = [].
Proof.
  intros H1 H2 H3. unfold request_id. cbn [rs_status rs_headers rs_body].
  assert (is_failure (status e) = true) as -> by (unfold status; by destruct (code e)).
  unfold correlate. cbn [rs_body rs_status rs_headers]. rewrite H1, H2. eexists _, _.
  split_and!; try done. cbn [rs_headers]. by rewrite header_values_remove.
Qed.

(** Exactly the configured origins that are header values may call. *)
Lemma cors_origins origins : match cors_layer header_value origins with
  | Some (allowed, _) => origins ≠ [] ∧ ∀ o, o ∈ allowed ↔ ∃ o', o' ∈ origins ∧ header_value o' = Some o
  | None => origins = [] end.
Proof. destruct origins; [done|]. split; [done|]. intros o. apply list_elem_of_omap. Qed.
End answers.
