(* ===== verification/NetAddr.v ===== *)
(** * IP addresses: the parser of [std::net]

    [ensure_safe_cidr], the guest firewall and the notification SSRF checks
    parse addresses with [str::parse::<IpAddr>()].  This is the standard
    library's recursive-descent parser: a parser takes the characters that are
    left and returns a value with the characters it leaves, or [None] without
    consuming anything ([read_atomically]). *)

From S2P Require Export RustStr.

Abbreviation parser A := (str → option (A * str)).

Inductive IpAddr :=
  | V4 (octets : list N)
  | V6 (groups : list N).

(** [char::to_digit]. *)
Definition to_digit (radix : N) (c : char) : option N :=
  let d :=
    if is_ascii_digit c then Some (c - 48)%N
    else if in_range 97 122 c then Some (c - 87)%N
    else if in_range 65 90 c then Some (c - 55)%N
    else None in
  match d with Some d => if (d <? radix)%N then Some d else None | None => None end.

(** The longest run of digits: their values and the rest. *)
Fixpoint read_digits (radix : N) (s : str) : list N * str :=
  match s with
  | [] => ([], [])
  | c :: s' =>
      match to_digit radix c with
      | Some d => let '(ds, r) := read_digits radix s' in (d :: ds, r)
      | None => ([], s)
      end
  end.

(** [read_number]: a run of one to [max_digits] digits whose value fits the
    target type; a longer run fails. *)
Definition read_number (radix : N) (max_digits : nat) (allow_zero_prefix : bool)
    (max : N) : parser N := λ s,
  let '(ds, r) := read_digits radix s in
  let value := foldl (λ acc d, acc * radix + d)%N 0%N ds in
  if (max_digits <? length ds)%nat || (length ds =? 0)%nat then None
  else if negb allow_zero_prefix && (1 <? length ds)%nat
          && match ds with 0%N :: _ => true | _ => false end then None
  else if (value <=? max)%N then Some (value, r) else None.

Definition read_given_char (c : char) : parser unit := λ s,
  match s with x :: s => if (x =? c)%N then Some (tt, s) else None | [] => None end.

(** [read_separator]: [sep] before every element but the first. *)
Definition read_separator {A} (sep : char) (index : nat) (inner : parser A) : parser A := λ s,
  if (0 <? index)%nat then '(_, s) ← read_given_char sep s; inner s else inner s.

Definition read_octet (i : nat) : parser N :=
  read_separator (ch ".") i (read_number 10 3 false 255).

Definition read_ipv4_addr : parser (list N) := λ s,
  '(a, s) ← read_octet 0 s;
  '(b, s) ← read_octet 1 s;
  '(c, s) ← read_octet 2 s;
  '(d, s) ← read_octet 3 s;
  Some ([a; b; c; d], s).

(** The group loop of an IPv6 address: [limit] slots, the index of the next one
    and the slots that are left; the groups read, whether an embedded IPv4
    address ended the loop, and the rest. *)
Fixpoint read_groups (limit i todo : nat) (s : str) : list N * bool * str :=
  match todo with
  | O => ([], false, s)
  | S todo =>
      let v4 := if (i <? limit - 1)%nat
                then read_separator (ch ":") i read_ipv4_addr s else None in
      match v4 with
      | Some ([a; b; c; d], s) => ([a * 256 + b; c * 256 + d]%N, true, s)
      | _ =>
          match read_separator (ch ":") i (read_number 16 4 true 65535) s with
          | None => ([], false, s)
          | Some (g, s) =>
              let '(gs, v4, s) := read_groups limit (S i) todo s in (g :: gs, v4, s)
          end
      end
  end.

Definition read_ipv6_addr : parser (list N) := λ s,
  let '(head, head_ipv4, s) := read_groups 8 0 8 s in
  if (length head =? 8)%nat then Some (head, s)
  else if head_ipv4 then None
  else
    '(_, s) ← read_given_char (ch ":") s;
    '(_, s) ← read_given_char (ch ":") s;
    let limit := (8 - (length head + 1))%nat in
    let '(tail, _, s) := read_groups limit 0 limit s in
    Some (head ++ replicate (8 - length head - length tail) 0%N ++ tail, s).

Definition read_ip_addr : parser IpAddr := λ s,
  match read_ipv4_addr s with
  | Some (o, s) => Some (V4 o, s)
  | None => '(g, s) ← read_ipv6_addr s; Some (V6 g, s)
  end.

(** [str::parse::<IpAddr>()]: the whole string must be consumed. *)
Definition parse_ip (s : str) : option IpAddr :=
  match read_ip_addr s with Some (a, []) => Some a | _ => None end.

Definition octets_of (s : str) : option (list N) :=
  match read_ipv4_addr s with Some (o, []) => Some o | _ => None end.

Definition prefix_max (a : IpAddr) : N := match a with V4 _ => 32 | V6 _ => 128 end.

Example parse_v4 : parse_ip "192.168.1.10" = Some (V4 [192; 168; 1; 10]%N).
Proof. reflexivity. Qed.
Example parse_v4_zero : parse_ip "192.168.01.10" = None.
Proof. reflexivity. Qed.
Example parse_v6 : parse_ip "fe80::1" = Some (V6 [65152; 0; 0; 0; 0; 0; 0; 1]%N).
Proof. reflexivity. Qed.
Example parse_v6_full : parse_ip "1:2:3:4:5:6:1.2.3.4"
  = Some (V6 [1; 2; 3; 4; 5; 6; 258; 772]%N).
Proof. reflexivity. Qed.
Example parse_v6_bad : parse_ip "1:2:3:4:5:6:7:8:9" = None.
Proof. reflexivity. Qed.
Example parse_v6_any : parse_ip "::" = Some (V6 (replicate 8 0%N)).
Proof. reflexivity. Qed.

(** ** What the parser consumes

    Every parser leaves a suffix and consumes address characters only, so an
    accepted address is a plain word: hexadecimal digits, dots and colons. *)

Definition addr_char (c : char) : bool :=
  is_ascii_hexdigit c || (c =? ch ".")%N || (c =? ch ":")%N.

Definition consumes {A} (p : parser A) : Prop :=
  ∀ s a r, p s = Some (a, r) → ∃ u, s = u ++ r ∧ Forall (λ c, addr_char c = true) u.

Lemma read_digits_spec (radix : N) (s : str) (ds : list N) (r : str) :
  (radix ≤ 16)%N → read_digits radix s = (ds, r) →
  ∃ u, s = u ++ r ∧ Forall (λ c, addr_char c = true) u ∧ length u = length ds.
Proof.
  intros Hr. revert ds r; induction s as [|c s IH]; intros ds r; simpl.
  - intros [= <- <-]. by exists [].
  - destruct (to_digit radix c) as [d|] eqn:Hd.
    + destruct (read_digits radix s) as [ds' r'] eqn:E. intros [= <- <-].
      destruct (IH ds' r' eq_refl) as (u & -> & Hu & Hl).
      exists (c :: u). split_and!; [done| |simpl; lia]. constructor; [|done].
      unfold to_digit in Hd. unfold addr_char, is_ascii_hexdigit.
      destruct (is_ascii_digit c); [done|].
      destruct (in_range 97 122 c) eqn:E1; [|destruct (in_range 65 90 c) eqn:E2; [|done]];
        apply in_range_spec in E1 || apply in_range_spec in E2.
      * destruct (c - 87 <? radix)%N eqn:Hlt; [|done]. apply N.ltb_lt in Hlt.
        by rewrite (proj2 (in_range_spec 97 102 c)), !orb_true_r by lia.
      * destruct (c - 55 <? radix)%N eqn:Hlt; [|done]. apply N.ltb_lt in Hlt.
        by rewrite (proj2 (in_range_spec 65 70 c)), !orb_true_r by lia.
    + intros [= <- <-]. by exists [].
Qed.

Lemma consumes_number (radix : N) (n : nat) (z : bool) (max : N) :
  (radix ≤ 16)%N → consumes (read_number radix n z max).
Proof.
  intros Hr s a r. unfold read_number.
  destruct (read_digits radix s) as [ds r'] eqn:E.
  destruct (read_digits_spec radix s ds r' Hr E) as (u & ? & ? & _). clear E.
  repeat case_match; intros; simplify_eq; by exists u.
Qed.

Lemma consumes_char (c : char) : addr_char c = true → consumes (read_given_char c).
Proof.
  intros Hc [|x s] a r; simpl; [done|]. destruct (N.eqb_spec x c) as [->|]; [|done].
  intros [= <- <-]. exists [c]. auto.
Qed.

Lemma consumes_separator {A} (sep : char) (i : nat) (p : parser A) :
  addr_char sep = true → consumes p → consumes (read_separator sep i p).
Proof.
  intros Hsep Hp s a r. unfold read_separator.
  destruct (0 <? i)%nat; [|apply Hp].
  destruct (read_given_char sep s) as [[[] s']|] eqn:E; simpl; [|done]. intros H.
  destruct (consumes_char sep Hsep _ _ _ E) as (u1 & -> & ?).
  destruct (Hp _ _ _ H) as (u2 & -> & ?).
  exists (u1 ++ u2). rewrite <- app_assoc. split; [done|]. by apply Forall_app.
Qed.

(** Sequencing of parsers. *)
Lemma consumes_trans (s r r' : str) :
  (∃ u, s = u ++ r ∧ Forall (λ c, addr_char c = true) u) →
  (∃ u, r = u ++ r' ∧ Forall (λ c, addr_char c = true) u) →
  ∃ u, s = u ++ r' ∧ Forall (λ c, addr_char c = true) u.
Proof.
  intros (u & -> & Hu) (v & -> & Hv). exists (u ++ v).
  rewrite <- app_assoc. by rewrite Forall_app.
Qed.

Lemma consumes_octet (i : nat) : consumes (read_octet i).
Proof. by apply consumes_separator, consumes_number. Qed.

Lemma consumes_ipv4 : consumes read_ipv4_addr.
Proof.
  intros s o r. unfold read_ipv4_addr.
  destruct (read_octet 0 s) as [[a s0]|] eqn:E0; simpl; [|done].
  destruct (read_octet 1 s0) as [[b s1]|] eqn:E1; simpl; [|done].
  destruct (read_octet 2 s1) as [[c s2]|] eqn:E2; simpl; [|done].
  destruct (read_octet 3 s2) as [[d s3]|] eqn:E3; simpl; [|done].
  intros [= _ <-]. apply consumes_octet in E0, E1, E2, E3.
  eauto using consumes_trans.
Qed.

Lemma consumes_groups (limit i todo : nat) (s : str) gs v4 r :
  read_groups limit i todo s = (gs, v4, r) →
  ∃ u, s = u ++ r ∧ Forall (λ c, addr_char c = true) u.
Proof.
  revert i s gs v4 r; induction todo as [|todo IH]; intros i s gs v4 r; simpl.
  { intros [= <- <- <-]. by exists []. }
  set (e := if (i <? limit - 1)%nat then read_separator (ch ":") i read_ipv4_addr s else None).
  assert (He : ∀ o r, e = Some (o, r) →
    ∃ u, s = u ++ r ∧ Forall (λ c, addr_char c = true) u).
  { intros o r'. subst e. destruct (i <? limit - 1)%nat; [|done].
    by apply consumes_separator, consumes_ipv4. }
  assert (Hg : ∀ gs v4 r,
    match read_separator (ch ":") i (read_number 16 4 true 65535) s with
    | None => ([], false, s)
    | Some (g, s) => let '(gs, v4, s) := read_groups limit (S i) todo s in (g :: gs, v4, s)
    end = (gs, v4, r) →
    ∃ u, s = u ++ r ∧ Forall (λ c, addr_char c = true) u).
  { clear gs v4 r. intros gs v4 r.
    destruct (read_separator (ch ":") i (read_number 16 4 true 65535) s) as [[g s1]|] eqn:E.
    - destruct (read_groups limit (S i) todo s1) as [[gs1 v41] r1] eqn:E1.
      intros H. simplify_eq. apply IH in E1.
      apply (consumes_separator _ i (read_number 16 4 true 65535)) in E;
        [|done|by apply consumes_number].
      by eapply consumes_trans.
    - intros H. simplify_eq. by exists []. }
  destruct e as [[o s']|]; [|apply Hg].
  destruct o as [|a [|b [|c [|d [|]]]]]; try apply Hg.
  intros H. simplify_eq. by eapply He.
Qed.

Lemma consumes_ipv6 : consumes read_ipv6_addr.
Proof.
  intros s g r. unfold read_ipv6_addr.
  destruct (read_groups 8 0 8 s) as [[h hv4] s1] eqn:E1. apply consumes_groups in E1.
  destruct (length h =? 8)%nat; [by intros [= _ <-]|]. destruct hv4; [done|].
  destruct (read_given_char (ch ":") s1) as [[[] s2]|] eqn:E2; simpl; [|done].
  destruct (read_given_char (ch ":") s2) as [[[] s3]|] eqn:E3; simpl; [|done].
  destruct (read_groups _ 0 _ s3) as [[t tv4] s4] eqn:E4. apply consumes_groups in E4.
  intros [= _ <-].
  apply (consumes_char (ch ":") eq_refl) in E2, E3. eauto using consumes_trans.
Qed.

(** An accepted address is a plain word. *)
Lemma parse_ip_chars (s : str) (a : IpAddr) :
  parse_ip s = Some a → s ≠ [] ∧ Forall (λ c, addr_char c = true) s.
Proof.
  unfold parse_ip. destruct (read_ip_addr s) as [[a' r]|] eqn:E; [|done].
  destruct r; [|done]. intros [= ->]. split; [by intros ->|].
  assert (∃ u, s = u ++ [] ∧ Forall (λ c, addr_char c = true) u) as (u & -> & ?);
    [|by rewrite app_nil_r].
  unfold read_ip_addr in E. destruct (read_ipv4_addr s) as [[o r]|] eqn:E4.
  - injection E as [= _ ->]. by eapply consumes_ipv4.
  - destruct (read_ipv6_addr s) as [[g r]|] eqn:E6; simpl in E; [|done].
    injection E as [= _ ->]. by eapply consumes_ipv6.
Qed.
