(* ===== verification/Validate.v ===== *)
(** * Input validators of the service layer (src/src/services/mod.rs)

    Every identifier, dataset, address and tag that reaches a host command or a
    file name passes one of these checks first.  They return the validated
    input.  The broker repeats the checks ([BrokerArgs], [BrokerProto]); the
    lemmas below relate the two sides. *)

From S2P Require Export Errors NetAddr BrokerSafety.

Definition ensure_safe_id (id : str) : ApiResult str :=
  let safe :=
    negb (is_empty id)
    && negb (id =s? ".")
    && negb (id =s? "..")
    && negb (starts_with "-" id)
    && forallb (alnum_or ".-_") (bytes id) in
  if safe then Ok id else Err (validation ("invalid identifier: " ++ debug_str id)).

Definition ensure_safe_zfs_dataset (name : str) : ApiResult str :=
  let safe :=
    negb (is_empty name)
    && negb (starts_with "-" name)
    && negb (starts_with "/" name)
    && negb (ends_with "/" name)
    && negb (existsb (λ part, is_empty part || (part =s? ".") || (part =s? ".."))
               (split (ch "/") name))
    && forallb (alnum_or ".-_:/") (bytes name) in
  if safe then Ok name
  else Err (validation ("invalid ZFS dataset name: " ++ debug_str name)).

Definition ensure_safe_zfs_snapshot (name : str) : ApiResult str :=
  let safe :=
    negb (is_empty name)
    && negb (starts_with "-" name)
    && forallb (alnum_or ".-_:") (bytes name) in
  if safe then Ok name
  else Err (validation ("invalid ZFS snapshot name: " ++ debug_str name)).

(** [name.matches(c).count()]. *)
Definition count_char (c : char) (s : str) : nat := length (List.filter (N.eqb c) s).

Definition ensure_safe_zfs_snapshot_ref (name : str) : ApiResult str :=
  '(dataset, snapshot) ←
    ok_or (validation "ZFS snapshot reference must be dataset@snapshot")
      (split_once (ch "@") name);
  if negb (count_char (ch "@") name =? 1)%nat then
    Err (validation "ZFS snapshot reference must contain exactly one '@'")
  else
    _ ← ensure_safe_zfs_dataset dataset;
    _ ← ensure_safe_zfs_snapshot snapshot;
    Ok name.

Definition ensure_safe_pci_address (address : str) : ApiResult str :=
  match rsplit_once (ch ".") address with
  | None => Err (validation "invalid PCI address")
  | Some (domain_bus_slot, function) =>
      let parts := split (ch ":") domain_bus_slot in
      let valid :=
        match parts with
        | [p0; p1; p2] =>
            (len p0 =? 4)%N && (len p1 =? 2)%N && (len p2 =? 2)%N
            && (len function =? 1)%N
            && forallb (λ part, forallb is_ascii_hexdigit (bytes part)) parts
            && forallb is_ascii_hexdigit (bytes function)
        | _ => false
        end in
      if valid then Ok address
      else Err (validation ("invalid PCI address: " ++ debug_str address))
  end.

Definition ensure_safe_mac (mac : str) : ApiResult str :=
  let octets := split (ch ":") mac in
  let valid :=
    (length octets =? 6)%nat
    && forallb (λ octet, (len octet =? 2)%N && forallb is_ascii_hexdigit (bytes octet)) octets in
  if valid then Ok mac else Err (validation ("invalid MAC address: " ++ debug_str mac)).

Definition ensure_safe_cidr (cidr field : str) : ApiResult str :=
  match split_once (ch "/") cidr with
  | None => Err (validation (field ++ " must be an address in CIDR notation"))
  | Some (address, prefix) =>
      ip ← ok_or (validation (field ++ " contains an invalid address")) (parse_ip address);
      prefix ← ok_or (validation (field ++ " contains an invalid prefix"))
                 (parse_uint U8_MAX prefix);
      if (prefix_max ip <? prefix)%N then
        Err (validation (field ++ " contains an invalid prefix"))
      else Ok cidr
  end.

(** *** Tags and pool names *)

Definition tag_ok (tag : str) : bool :=
  (len tag <=? 64)%N && forallb (alnum_or "-_.:") (bytes tag).

Fixpoint validate_tags_loop (out tags : list str) : ApiResult (list str) :=
  match tags with
  | [] => Ok out
  | tag :: tags =>
      let tag := trim tag in
      if is_empty tag then validate_tags_loop out tags
      else if negb (tag_ok tag) then
        Err (validation ("invalid tag: " ++ debug_str tag
                         ++ " (use letters, digits, and - _ . :)"))
      else if bool_decide (tag ∈ out) then validate_tags_loop out tags
      else validate_tags_loop (out ++ [tag]) tags
  end.

Definition validate_tags (tags : list str) : ApiResult (list str) :=
  out ← validate_tags_loop [] tags;
  if (64 <? length out)%nat then Err (validation "too many tags (max 64)") else Ok out.

Definition validate_pool_name (name : str) : ApiResult str :=
  let name := trim name in
  if is_empty name then Err (validation "pool name is required")
  else if negb (tag_ok name) then
    Err (validation ("invalid pool name: " ++ debug_str name
                     ++ " (use letters, digits, and - _ . :)"))
  else Ok name.

Definition normalize_pool_ref (pool : option str) : option str :=
  match pool with
  | Some p => if is_empty (trim p) then None else Some (trim p)
  | None => None
  end.

Definition is_hex4 (s : str) : bool :=
  (len s =? 4)%N && forallb is_ascii_hexdigit (bytes s).

#[global] Arguments ensure_safe_id : simpl never.
#[global] Arguments ensure_safe_zfs_dataset : simpl never.
#[global] Arguments ensure_safe_zfs_snapshot : simpl never.

(** ** Lemmas *)

(** Take a validator's success apart. *)
Ltac inv_valid H := unfold ensure_safe_id, ensure_safe_zfs_dataset,
  ensure_safe_zfs_snapshot in H; cbv zeta in H; apply if_ok_err in H; destruct H as [H _].

(** Two spellings of one character set. *)
Lemma alnum_or_ext (a b : string) (l : list N) :
  forallb (λ c, char_in c b) (lit a) = true → forallb (λ c, char_in c a) (lit b) = true →
  forallb (alnum_or a) l = forallb (alnum_or b) l.
Proof.
  intros Hab Hba. apply eq_true_iff_eq. rewrite !forallb_Forall.
  split; intros H.
  - by apply (chars_in_weaken a b).
  - by apply (chars_in_weaken b a).
Qed.

Lemma ensure_safe_zfs_dataset_id (name r : str) :
  ensure_safe_zfs_dataset name = Ok r → r = name.
Proof. unfold ensure_safe_zfs_dataset. cbv zeta. intros H. by inv_ok. Qed.

Lemma dataset_ok_safe (name : str) :
  is_ok (ensure_safe_zfs_dataset name) = safe_dataset name.
Proof.
  unfold ensure_safe_zfs_dataset, safe_dataset.
  rewrite (alnum_or_ext ".-_:/" "._-:/"), forallb_negb_existsb by done.
  transitivity (negb (is_empty name) && negb (starts_with "-" name)
    && negb (starts_with "/" name) && negb (ends_with "/" name)
    && forallb (λ part, negb (is_empty part || (part =s? ".") || (part =s? "..")))
         (split (ch "/") name)
    && forallb (alnum_or "._-:/") (bytes name)).
  { by case_match. }
  rewrite (forallb_ext _
    (λ part, negb (is_empty part) && negb (part =s? ".") && negb (part =s? "..")))
    by (intros part; by rewrite !negb_orb).
  destruct (forallb (alnum_or "._-:/") (bytes name)) eqn:Hc; [|by rewrite !andb_false_r].
  apply chars_in_bytes in Hc; [|done].
  replace (contains_char (ch "@") name) with false
    by (symmetry; apply contains_char_false; by eapply chars_in_not).
  destruct name as [|c name]; [done|]. simpl is_empty. simpl negb.
  destruct (starts_with "-" (c :: name)), (starts_with "/" (c :: name)); done.
Qed.

(** *** Identifiers *)

(** A single path component: no separator, no traversal, not an option. *)
Definition plain_id (id : str) : Prop :=
  id ≠ [] ∧ id ≠ lit "." ∧ id ≠ lit ".." ∧ starts_with "-" id = false ∧ chars_in ".-_" id.

Lemma ensure_safe_id_ok (id r : str) :
  ensure_safe_id id = Ok r ↔ r = id ∧ plain_id id.
Proof.
  unfold ensure_safe_id, plain_id. cbv zeta. rewrite if_ok_err, !andb_true_iff, !negb_true_iff.
  rewrite alnum_bytes by done. unfold chars_in. rewrite <- forallb_Forall.
  rewrite is_empty_false, !str_eqb_neq. naive_solver.
Qed.

Lemma plain_id_no_slash (id : str) : plain_id id → ch "/" ∉ id.
Proof. intros (_ & _ & _ & _ & H). by eapply chars_in_not. Qed.

(** *** Snapshot references *)

Lemma count_char_app (c : char) (a b : str) :
  count_char c (a ++ b) = (count_char c a + count_char c b)%nat.
Proof. unfold count_char. by rewrite List.filter_app, length_app. Qed.

Lemma snapshot_ref_safe (name r : str) :
  ensure_safe_zfs_snapshot_ref name = Ok r → r = name ∧ safe_snapshot_ref name = true.
Proof.
  unfold ensure_safe_zfs_snapshot_ref, safe_snapshot_ref. intros H.
  destruct (split_once (ch "@") name) as [[d s]|]; simpl in H; [|done]. inv_ok.
  split; [done|].
  match goal with H : ensure_safe_zfs_dataset _ = Ok _ |- _ =>
    apply (f_equal is_ok) in H; rewrite dataset_ok_safe in H; rewrite H end.
  match goal with H : ensure_safe_zfs_snapshot _ = Ok _ |- _ => inv_valid H end.
  split_checks. rewrite <- (alnum_or_ext ".-_:" "._-:") by done.
  simpl. by rewrite (proj2 (is_empty_false s)).
Qed.

(** *** PCI addresses *)

Lemma rsplit_once_Some (c : char) (a b : str) :
  c ∉ b → rsplit_once c (a ++ c :: b) = Some (a, b).
Proof.
  intros Hb. unfold rsplit_once.
  assert (split_once c (reverse (a ++ c :: b)) = Some (reverse b, reverse a)) as ->.
  { apply split_once_Some. rewrite reverse_app, reverse_cons, <- app_assoc.
    split; [done|]. by rewrite elem_of_reverse. }
  by rewrite !reverse_involutive.
Qed.

Lemma split_colons (c : char) (a b d : str) :
  c ∉ a → c ∉ b → c ∉ d → split c (a ++ c :: b ++ c :: d) = [a; b; d].
Proof. intros. by rewrite !split_sep, !split_nosep. Qed.

Lemma hex_chars_plain (s : str) :
  Forall (λ c, lower_hex c = true) s →
  (ch ":" ∉ s) ∧ (ch "." ∉ s) ∧ len s = N.of_nat (length s)
  ∧ forallb is_ascii_hexdigit (bytes s) = true.
Proof.
  intros Hs.
  assert (forallb is_ascii s = true) as Ha.
  { apply forallb_Forall. eapply Forall_impl; [exact Hs|]. intros c.
    unfold lower_hex, is_ascii, is_ascii_digit. rewrite orb_true_iff, !in_range_spec, N.ltb_lt. lia. }
  split_and!.
  - intros Hin. by apply (proj1 (Forall_forall _ _) Hs) in Hin.
  - intros Hin. by apply (proj1 (Forall_forall _ _) Hs) in Hin.
  - by apply len_ascii.
  - rewrite bytes_ascii by done. apply forallb_Forall. eapply Forall_impl; [exact Hs|].
    intros c. cbv beta. rewrite <- lower_hex_spec. by intros [? _]%andb_true_iff.
Qed.

Lemma pci_backend_accepts (a : str) : pci_shape a → ensure_safe_pci_address a = Ok a.
Proof.
  intros (d1 & d2 & d3 & d4 & b1 & b2 & s1 & s2 & f & -> & Hh & Hf).
  assert (lower_hex f = true) as Hlf.
  { unfold pci_function, lower_hex, is_ascii_digit in *.
    rewrite orb_true_iff, !in_range_spec in *. lia. }
  simpl in Hh. split_checks.
  destruct (hex_chars_plain [d1; d2; d3; d4]) as (? & ? & Ld & Hd); [by repeat constructor|].
  destruct (hex_chars_plain [b1; b2]) as (? & ? & Lb & Hb); [by repeat constructor|].
  destruct (hex_chars_plain [s1; s2]) as (? & ? & Ls & Hs); [by repeat constructor|].
  destruct (hex_chars_plain [f]) as (? & ? & Lf & Hff); [by repeat constructor|].
  unfold ensure_safe_pci_address.
  change [d1; d2; d3; d4; 58; b1; b2; 58; s1; s2; 46; f]%N
    with (([d1; d2; d3; d4] ++ ch ":" :: [b1; b2] ++ ch ":" :: [s1; s2]) ++ ch "." :: [f]).
  rewrite rsplit_once_Some, split_colons by done. cbv zeta.
  rewrite Ld, Lb, Ls, Lf. cbn [forallb]. by rewrite Hd, Hb, Hs, Hff.
Qed.

(** The backend's and the broker's checks agree where both guard a value:
    they accept the same datasets, every snapshot reference the backend accepts
    the broker accepts, and every PCI address the broker accepts the backend
    accepts (the backend also lets through upper-case digits and functions
    beyond 7, which the broker then refuses). *)
Theorem validators_agree :
  (∀ name, is_ok (ensure_safe_zfs_dataset name) = is_ok (validate_zfs_dataset_path name)) ∧
  (∀ name, is_ok (ensure_safe_zfs_snapshot_ref name) = true → safe_snapshot_ref name = true) ∧
  (∀ a, validate_pci_address a = Ok tt → ensure_safe_pci_address a = Ok a) ∧
  (is_ok (ensure_safe_pci_address "0000:01:00.F") = true ∧
   is_ok (validate_pci_address "0000:01:00.F") = false).
Proof.
  split_and!; [| | |by vm_compute|by vm_compute].
  - intros name. rewrite dataset_ok_safe. unfold validate_zfs_dataset_path. by case_match.
  - intros name [r H]%is_ok_true. by apply snapshot_ref_safe in H as [_ ?].
  - intros a ?%validate_pci_address_shape. by apply pci_backend_accepts.
Qed.

(** *** Tags *)

(** What the tags mean: trimmed, empty ones dropped. *)
Definition cleaned (tags : list str) : list str :=
  List.filter (λ t, negb (is_empty t)) (map trim tags).

Definition good_tag (t : str) : Prop := t ≠ [] ∧ tag_ok t = true.

Lemma not_whitespace_alnum (alts : string) (c : char) :
  forallb (λ c, negb (is_whitespace c)) (lit alts) = true →
  alnum_or alts c = true → is_whitespace c = false.
Proof.
  intros Hl Hc. apply orb_true_iff in Hc as [Hc|Hc].
  - unfold is_ascii_alphanumeric, is_ascii_digit, is_ascii_uppercase, is_ascii_lowercase in Hc.
    apply not_true_iff_false. unfold is_whitespace.
    rewrite !orb_true_iff, !in_range_spec, ?N.eqb_eq in *. lia.
  - apply char_in_spec in Hc. apply forallb_Forall in Hl.
    apply (proj1 (Forall_forall _ _) Hl) in Hc. by apply negb_true_iff.
Qed.

Lemma trim_none (s : str) : Forall (λ c, is_whitespace c = false) s → trim s = s.
Proof.
  intros Hs. unfold trim, trim_end, trim_start, trim_start_by, trim_end_by.
  rewrite (drop_while_none _ s), (drop_while_none _ (reverse s)) by
    (done || by apply Forall_reverse). by rewrite reverse_involutive.
Qed.

Lemma good_tag_trim (t : str) : tag_ok t = true → trim t = t.
Proof.
  intros [_ Ht]%andb_true_iff. apply chars_in_bytes in Ht; [|done]. apply trim_none.
  eapply Forall_impl; [exact Ht|]. intros c. by apply not_whitespace_alnum.
Qed.

Lemma tags_loop_spec (out tags r : list str) :
  validate_tags_loop out tags = Ok r →
  Forall (λ t, tag_ok t = true) (cleaned tags) ∧
  ∃ new, r = out ++ new ∧ sublist new (cleaned tags) ∧
    (NoDup out → NoDup r) ∧ ∀ t, t ∈ cleaned tags → t ∈ r.
Proof.
  revert out; induction tags as [|t tags IH]; intros out; simpl.
  { intros [= <-]. split; [done|]. exists []. rewrite app_nil_r. split_and!; [done..|set_solver]. }
  unfold cleaned. simpl. destruct (is_empty (trim t)) eqn:He; simpl.
  { intros [? (new & ?)]%IH. eauto. }
  destruct (tag_ok (trim t)) eqn:Hok; simpl; [|done].
  case_bool_decide as Hin; intros [Hf (new & -> & Hsub & Hnd & Hall)]%IH;
    (split; [by constructor|]).
  - exists new. split_and!; [done|by apply sublist_cons|done|].
    intros u [->|Hu]%elem_of_cons; [set_solver|by apply Hall].
  - exists (trim t :: new). rewrite <- app_assoc in *. simpl in *.
    split_and!; [done|by apply sublist_skip| |].
    + intros Hnd0. apply Hnd. apply NoDup_app. split_and!; [done|set_solver|apply NoDup_singleton].
    + intros u [->|Hu]%elem_of_cons; [set_solver|by apply Hall].
Qed.

Lemma tags_loop_total (out tags : list str) :
  Forall (λ t, tag_ok t = true) (cleaned tags) → ∃ r, validate_tags_loop out tags = Ok r.
Proof.
  revert out; induction tags as [|t tags IH]; intros out; simpl; [eauto|].
  unfold cleaned. simpl. destruct (is_empty (trim t)); simpl; [apply IH|].
  intros [-> H]%Forall_cons. simpl. case_bool_decide; by apply IH.
Qed.

(** Already normal tags are returned as they are. *)
Lemma tags_loop_normal (out tags : list str) :
  Forall good_tag tags → NoDup (out ++ tags) → validate_tags_loop out tags = Ok (out ++ tags).
Proof.
  revert out; induction tags as [|t tags IH]; intros out; [by rewrite app_nil_r|].
  intros [[Hne Hok] Hf]%Forall_cons Hnd. simpl. rewrite good_tag_trim by done.
  rewrite (proj2 (is_empty_false t)), Hok by done. simpl.
  rewrite bool_decide_eq_false_2.
  - rewrite IH; rewrite <- ?app_assoc; done.
  - intros Hin. apply NoDup_app in Hnd as (_ & Hd & _). by apply (Hd t Hin); left.
Qed.

Lemma validate_tags_ok (tags r : list str) :
  validate_tags tags = Ok r → validate_tags_loop [] tags = Ok r ∧ (length r ≤ 64)%nat.
Proof. unfold validate_tags. intros H. inv_ok. bool_prop. done. Qed.

(** The tags [validate_tags] returns are the given ones, trimmed, without the
    empty ones and without repetitions, in the order they were first seen; at
    most 64, each of 1 to 64 bytes of the allowed characters; normalizing them
    again changes nothing; and a set is refused only for a bad tag or for more
    than 64 distinct tags. *)
Theorem validate_tags_normal (tags : list str) :
  (∀ r, validate_tags tags = Ok r →
    NoDup r ∧ (length r ≤ 64)%nat ∧ Forall good_tag r ∧
    sublist r (cleaned tags) ∧ (∀ t, t ∈ cleaned tags ↔ t ∈ r) ∧
    validate_tags r = Ok r) ∧
  (Forall (λ t, tag_ok t = true) (cleaned tags) → (length (cleaned tags) ≤ 64)%nat →
    is_ok (validate_tags tags) = true).
Proof.
  split.
  - intros r [H Hlen]%validate_tags_ok.
    destruct (tags_loop_spec _ _ _ H) as (Hf & new & -> & Hsub & Hnd & Hall). simpl in *.
    assert (Hgood : Forall good_tag new).
    { apply Forall_forall. intros t Ht. apply (sublist_subseteq _ _ Hsub) in Ht.
      split; [|by eapply (proj1 (Forall_forall _ _) Hf)].
      apply list_elem_of_In, List.filter_In in Ht as [_ Hn].
      by apply negb_true_iff, is_empty_false in Hn. }
    split_and!; [by apply Hnd, NoDup_nil_2|done|done|done| |].
    + split; [apply Hall|]. by apply (sublist_subseteq _ _ Hsub).
    + unfold validate_tags. rewrite tags_loop_normal by (done || by apply Hnd, NoDup_nil_2).
      simpl. by rewrite (proj2 (Nat.ltb_ge _ _)) by done.
  - intros Hf Hl. destruct (tags_loop_total [] tags Hf) as [r Hr].
    unfold validate_tags. rewrite Hr. simpl.
    destruct (tags_loop_spec _ _ _ Hr) as (_ & new & -> & Hsub & _). simpl.
    apply sublist_length in Hsub. by rewrite (proj2 (Nat.ltb_ge _ _)) by lia.
Qed.

Lemma validate_tags_normal_witness :
  validate_tags (lits [" prod "; "web"; "prod"; ""]) = Ok (lits ["prod"; "web"]) ∧
  validate_tags (lits ["prod"; "web"]) = Ok (lits ["prod"; "web"]).
Proof.
  assert (H : validate_tags (lits [" prod "; "web"; "prod"; ""]) = Ok (lits ["prod"; "web"]))
    by (by vm_compute).
  split; [exact H|].
  exact (proj2 (proj2 (proj2 (proj2 (proj2 (proj1 (validate_tags_normal _) _ H)))))).
Defined.

(** *** CIDR blocks *)

Lemma cidr_spec (cidr field r : str) :
  ensure_safe_cidr cidr field = Ok r →
  r = cidr ∧ ∃ address prefix ip p,
    cidr = address ++ ch "/" :: prefix ∧ parse_ip address = Some ip ∧
    parse_uint U8_MAX prefix = Some p ∧ (p ≤ prefix_max ip)%N.
Proof.
  unfold ensure_safe_cidr. destruct (split_once (ch "/") cidr) as [[a p]|] eqn:E; [|done].
  apply split_once_Some in E as [-> _]. intros H. inv_ok. bool_prop.
  split; [done|]. by eexists _, _, _, _.
Qed.

Lemma validators_agree_witness :
  is_ok (ensure_safe_zfs_dataset "tank/vm-01") = true ∧
  safe_snapshot_ref "tank/vm@daily" = true ∧
  ensure_safe_pci_address "0000:01:00.7" = Ok (lit "0000:01:00.7").
Proof.
  destruct validators_agree as (Hd & Hs & Hp & _). split_and!.
  - rewrite Hd. by vm_compute.
  - apply Hs. by vm_compute.
  - apply Hp. by vm_compute.
Defined.
