(* ===== verification/StoreSpec.v ===== *)
(** * What the services rely on: a store of records

    Every service that keeps records ([auth], [acl], [api_token], [operations],
    [pool], ...) fronts a [JsonStore] with an in-memory cache.  [RecordStore] is
    the contract between the two: the services' theorems are proved against this
    class and [Store] proves that the JSON files implement it. *)

From S2P Require Export Errors.

Class RecordStore (V : Type) := {
  rstate : Type;
  (** The record kept under an id. *)
  record : rstate → str → option V;
  (** [JsonStore::put], [JsonStore::delete], [JsonStore::list] and
      [JsonStore::get]. *)
  store_put : str → V → rstate → rstate * ApiResult unit;
  store_delete : str → rstate → rstate * ApiResult bool;
  store_list : rstate → rstate * ApiResult (list V);
  store_get : str → rstate → rstate * ApiResult (option V);

  (** A write that succeeds replaces exactly this record; one that fails
      replaces nothing. *)
  put_ok : ∀ s s' id v, store_put id v s = (s', Ok tt) →
    ∀ k, record s' k = if decide (k = id) then Some v else record s k;
  put_err : ∀ s s' id v e, store_put id v s = (s', Err e) →
    ∀ k, record s' k = record s k;
  delete_ok : ∀ s s' id b, store_delete id s = (s', Ok b) →
    ∀ k, record s' k = if decide (k = id) then None else record s k;
  delete_err : ∀ s s' id e, store_delete id s = (s', Err e) →
    ∀ k, record s' k = record s k;
  (** A listing changes nothing and shows exactly the records. *)
  list_keeps : ∀ s s' r, store_list s = (s', r) → ∀ k, record s' k = record s k;
  list_ok : ∀ s s' vs, store_list s = (s', Ok vs) →
    ∀ v, v ∈ vs ↔ ∃ k, record s k = Some v;
  (** Each record once. *)
  list_once : ∀ s s' vs, store_list s = (s', Ok vs) →
    ∃ ids, NoDup ids ∧ Forall2 (λ id v, record s id = Some v) ids vs;
  get_keeps : ∀ s s' id r, store_get id s = (s', r) → ∀ k, record s' k = record s k;
  get_ok : ∀ s s' id o, store_get id s = (s', Ok o) → o = record s id;
}.

(** The records of a store that succeeds always: a map. *)
#[export] Instance map_store V : RecordStore V.
Proof.
  refine {|
    rstate := gmap str V;
    record s k := s !! k;
    store_put id v s := (<[id := v]> s, Ok tt);
    store_delete id s := (delete id s, Ok (bool_decide (is_Some (s !! id))));
    store_list s := (s, Ok (map_to_list s).*2);
    store_get id s := (s, Ok (s !! id));
  |}.
  - intros s s' id v [= <-] k. case_decide; simplify_map_eq; done.
  - done.
  - intros s s' id b [= <- <-] k. case_decide; simplify_map_eq; done.
  - done.
  - by intros s s' r [= <- <-].
  - intros s s' vs [= <- <-] v. rewrite list_elem_of_fmap. split.
    + intros ([k w] & -> & H). apply elem_of_map_to_list in H. eauto.
    + intros [k H]. exists (k, v). by rewrite elem_of_map_to_list.
  - intros s s' vs [= <- <-]. exists (map_to_list s).*1. split; [apply NoDup_fst_map_to_list|].
    apply Forall2_fmap, Forall_Forall2_diag, Forall_forall.
    intros [k v] H. by apply elem_of_map_to_list in H.
  - by intros s s' id r [= <- <-].
  - by intros s s' id o [= <- <-].
Defined.
