(* ===== verification/Store.v ===== *)
(** * The JSON record store (src/src/services/store.rs)

    One file [<state_dir>/<kind>/<id>.json] per record.  The file system is a
    state: the directories, the files with their bytes and the number of
    operations performed so far; an operation of the standard library may fail,
    as a fault schedule over that number decides, and a failing write may leave
    any bytes behind.  Symbolic links are not modelled, so [canonicalize] is the
    walk that checks that every directory on the way exists. *)

From S2P Require Export StoreSpec Validate.

(** A path below the root: its components. *)
Abbreviation path := (list str).

Definition display (p : path) : str := "/" ++ join "/" p.

(** [Path::new(name).file_name()] of a relative name. *)
Definition file_name (name : str) : option str :=
  match last (List.filter (λ c, negb (is_empty c) && negb (c =s? ".")) (split (ch "/") name)) with
  | Some c => if c =s? ".." then None else Some c
  | None => None
  end.

(** The file system. *)
Record Fs := mkFs { dirs : gset path; files : gmap path (list N); tick : nat }.

(** Computations over the file system that may fail. *)
Definition IO (A : Type) : Type := Fs → Fs * ApiResult A.
#[export] Instance io_ret : MRet IO := λ A a s, (s, Ok a).
#[export] Instance io_bind : MBind IO := λ A B f m s,
  match m s with
  | (s, Ok a) => f a s
  | (s, Err e) => (s, Err e)
  end.
Definition lift {A} (r : ApiResult A) : IO A := λ s, (s, r).

(** [join_component]: one plain name below a directory. *)
Definition join_component (dir : path) (name : str) : ApiResult path :=
  match file_name name with
  | Some c => if c =s? name then Ok (dir ++ [c])
              else Err (validation ("invalid record name: " ++ debug_str name))
  | None => Err (validation ("invalid record name: " ++ debug_str name))
  end.

Module JsonStore.
Section store.
Context {V : Type}.
(** [serde_json::to_vec_pretty] and [from_slice] at the record type. *)
Context (to_json : V → result str (list N)) (from_json : list N → result str V).
(** Which operations fail, what a failing write leaves, and the error's text. *)
Context (fault : nat → bool) (torn : nat → option (list N)) (io_error : str).
(** [JsonStore::dir]. *)
Context (dir : path).

Definition io_err {A} (what : str) (p : path) : ApiResult A :=
  Err (internal (what ++ " " ++ display p ++ ": " ++ io_error)).

(** One operation of [tokio::fs]: the next tick, and [k] unless it fails. *)
Definition io_op {A} (failed : Fs → Fs * ApiResult A) (k : Fs → Fs * ApiResult A) : IO A := λ s,
  let s' := mkFs (dirs s) (files s) (S (tick s)) in
  if fault (tick s) then failed s' else k s'.

Fixpoint canonicalize_from (s : Fs) (cur p : path) : option path :=
  match p with
  | [] => Some cur
  | c :: p =>
      if c =s? ".." then canonicalize_from s (removelast cur) p
      else if bool_decide (cur ++ [c] ∈ dirs s) then canonicalize_from s (cur ++ [c]) p
      else None
  end.
Definition canonicalize (s : Fs) (p : path) : option path := canonicalize_from s [] p.

(** The walk up to the nearest ancestor that exists; [reverse p] is what is left
    of the path, [tail] the components passed over. *)
Fixpoint nearest (s : Fs) (rev_p tail : path) : option (path * path) :=
  match canonicalize s (reverse rev_p) with
  | Some base => Some (base, tail)
  | None =>
      match rev_p with
      | [] => None
      | c :: parent => if c =s? ".." then None else nearest s parent (c :: tail)
      end
  end.

Fixpoint join_all (dir : path) (tail : path) : ApiResult path :=
  match tail with
  | [] => Ok dir
  | c :: tail => dir ← join_component dir c; join_all dir tail
  end.

Definition prefixes (p : path) : gset path :=
  list_to_set (map (λ n, take n p) (seq 0 (S (length p)))).

Definition create_dir_all (p : path) : IO unit :=
  io_op (λ s, (s, io_err "create" p))
    (λ s, (mkFs (dirs s ∪ prefixes p) (files s) (tick s), Ok tt)).

Definition resolve_dir (create : bool) : IO (option path) := λ s,
  match nearest s (reverse dir) [] with
  | None =>
      if negb create then (s, Ok None)
      else (s, Err (internal "store directory root is unavailable"))
  | Some (base, tail) =>
      (d ← lift (join_all base tail);
       if create then (_ ← create_dir_all d; mret (Some d))
       else λ s, if bool_decide (d ∈ dirs s) then (s, Ok (Some d)) else (s, Ok None)) s
  end.

Definition record_path (id : str) (create : bool) : IO (option path) :=
  id ← lift (ensure_safe_id id);
  let file := id ++ ".json" in
  d ← resolve_dir create;
  match d with
  | Some d => p ← lift (join_component d file); mret (Some p)
  | None => mret None
  end.

(** [fs::write] creates or truncates the file; if it fails the file may hold
    anything. *)
Definition fs_write (p : path) (b : list N) : IO unit :=
  io_op (λ s,
      let left := match torn (tick s) with
                  | Some b => <[p := b]> (files s) | None => files s end in
      (mkFs (dirs s) left (tick s), io_err "write" p))
    (λ s, (mkFs (dirs s) (<[p := b]> (files s)) (tick s), Ok tt)).

(** [fs::rename] replaces the target atomically. *)
Definition fs_rename (a b : path) : IO unit :=
  io_op (λ s, (s, io_err "rename into" b)) (λ s,
    match files s !! a with
    | Some bytes =>
        (mkFs (dirs s) (<[b := bytes]> (base.delete a (files s))) (tick s), Ok tt)
    | None => (s, io_err "rename into" b)
    end).

Definition set_last (p : path) (c : str) : path := removelast p ++ [c].

Definition tmp_path (p : path) : path :=
  set_last p (with_extension (List.last p []) "json.tmp").

Definition put (id : str) (value : V) : IO unit :=
  p ← record_path id true;
  p ← lift (ok_or (internal "store directory unavailable") p);
  bytes ← lift (map_err (λ e, internal ("serialize record: " ++ e)) (to_json value));
  let tmp := tmp_path p in
  _ ← fs_write tmp bytes;
  fs_rename tmp p.

Definition get (id : str) : IO (option V) :=
  p ← record_path id false;
  match p with
  | None => mret None
  | Some p =>
      io_op (λ s, (s, io_err "read" p)) (λ s,
        match files s !! p with
        | Some bytes =>
            (s, v ← map_err (λ e, internal ("parse " ++ display p ++ ": " ++ e))
                      (from_json bytes); Ok (Some v))
        | None => (s, Ok None)
        end)
  end.

Definition delete (id : str) : IO bool :=
  p ← record_path id false;
  match p with
  | None => mret false
  | Some p =>
      io_op (λ s, (s, io_err "remove" p)) (λ s,
        match files s !! p with
        | Some _ => (mkFs (dirs s) (base.delete p (files s)) (tick s), Ok true)
        | None => (s, Ok false)
        end)
  end.

(** The names of the files in [d]. *)
Definition entries (s : Fs) (d : path) : list str :=
  omap (λ p : path, match reverse p with
                    | c :: r => if bool_decide (reverse r = d) then Some c else None
                    | [] => None
                    end) (map_to_list (files s)).*1.

Definition is_record (name : str) : bool :=
  match stem_extension name with
  | (stem, Some ext) => (ext =s? "json") && is_ok (ensure_safe_id stem)
  | _ => false
  end.

Fixpoint read_all (d : path) (out : list V) (names : list str) : IO (list V) :=
  match names with
  | [] => mret out
  | name :: names =>
      io_op (λ s, (s, io_err "read_dir entry" d)) (λ s,
        if negb (is_record name) then read_all d out names s
        else
          (bytes ← io_op (λ s, (s, io_err "read" (d ++ [name]))) (λ s,
             match files s !! (d ++ [name]) with
             | Some b => (s, Ok b) | None => (s, io_err "read" (d ++ [name])) end);
           match from_json bytes with
           | Ok value => read_all d (out ++ [value]) names
           | Err _ => read_all d out names
           end) s)
  end.

Definition list : IO (Datatypes.list V) :=
  d ← resolve_dir false;
  match d with
  | None => mret []
  | Some d => io_op (λ s, (s, io_err "read_dir" d)) (λ s, read_all d [] (entries s d) s)
  end.
End store.
End JsonStore.
