(* ===== verification/StoreProofs.v ===== *)
(** * The JSON files implement the record store

    [record] is the abstraction of a file system state: the value under an id is
    the parsed content of its file.  Every operation of [Store] is shown to
    implement the contract of [StoreSpec], under any schedule of I/O failures. *)

From S2P Require Export Store.

(** A component that names one entry of a directory. *)
Definition plain_component (c : str) : Prop :=
  c ≠ [] ∧ c ≠ lit "." ∧ c ≠ lit ".." ∧ (ch "/" ∉ c).

Lemma file_name_plain (c : str) : plain_component c → file_name c = Some c.
Proof.
  intros (H1 & H2 & H3 & H4). unfold file_name. rewrite split_nosep by done. simpl.
  rewrite (proj2 (is_empty_false c)), (proj2 (str_eqb_neq c ".")) by done. simpl.
  by rewrite (proj2 (str_eqb_neq c "..")).
Qed.

Lemma join_component_plain (d : path) (c : str) :
  plain_component c → join_component d c = Ok (d ++ [c]).
Proof. intros H. unfold join_component. by rewrite file_name_plain, str_eqb_refl. Qed.

(** Whatever is joined is one plain component below the directory. *)
Lemma join_component_ok (d p : path) (c : str) :
  join_component d c = Ok p → p = d ++ [c] ∧ plain_component c.
Proof.
  unfold join_component. destruct (file_name c) as [n|] eqn:E; [|done].
  intros H. inv_ok. bool_prop. subst n. split; [done|].
  unfold file_name in E.
  destruct (last _) as [x|] eqn:El; [|done].
  destruct (str_eqb x "..") eqn:Ed; [done|]. injection E as [= ->]. bool_prop.
  apply last_Some in El as [l' El].
  assert (Hc : c ∈ split (ch "/") c ∧ negb (is_empty c) && negb (c =s? ".") = true).
  { assert (c ∈ List.filter (λ c, negb (is_empty c) && negb (c =s? ".")) (split (ch "/") c))
      as Hin by (rewrite El; set_solver).
    apply list_elem_of_In, List.filter_In in Hin as [? ?].
    by rewrite list_elem_of_In. }
  destruct Hc as [Hin Hne]. bool_prop.
  split_and!; try naive_solver.
  pose proof (split_no_sep (ch "/") c) as Hf. by apply (proj1 (Forall_forall _ _) Hf) in Hin.
Qed.

Definition json_name (id : str) : str := id ++ ".json".

Lemma plain_json_name (id : str) : plain_id id → plain_component (json_name id).
Proof.
  intros H. pose proof (plain_id_no_slash id H) as Hs. unfold json_name.
  assert (∀ s : str, (length s < 5)%nat → id ++ lit ".json" ≠ s) as Hlen.
  { intros s Hlt <-. rewrite length_app in Hlt. change (length (lit ".json")) with 5%nat in Hlt. lia. }
  split_and!; try (apply Hlen; simpl; lia).
  intros [?|Hin]%elem_of_app; [done|]. revert Hin. change (lit ".json") with [46; 106; 115; 111; 110]%N.
  change (ch "/") with 47%N. set_solver.
Qed.

Lemma json_stem (id : str) : id ≠ [] → stem_extension (json_name id) = (id, Some (lit "json")).
Proof.
  intros H. unfold stem_extension, json_name.
  change (id ++ lit ".json") with (id ++ ch "." :: lit "json").
  rewrite rsplit_once_Some by (vm_compute; set_solver).
  by rewrite (proj2 (is_empty_false id)).
Qed.

Lemma is_record_spec (name : str) :
  JsonStore.is_record name = true ↔ ∃ id, name = json_name id ∧ plain_id id.
Proof.
  unfold JsonStore.is_record. split.
  - unfold stem_extension. destruct (rsplit_once (ch ".") name) as [[stem ext]|] eqn:E; [|done].
    destruct (is_empty stem); [done|]. intros H. bool_prop.
    destruct H as [-> [r Hr]%is_ok_true]. apply ensure_safe_id_ok in Hr as [-> Hp].
    exists stem. split; [|done]. unfold rsplit_once in E.
    destruct (split_once _ _) as [[a b]|] eqn:Es; [|done]. apply split_once_Some in Es as [Es _].
    injection E as <- Ea. apply (f_equal reverse) in Es.
    rewrite reverse_involutive, reverse_app, reverse_cons, <- app_assoc, Ea in Es. done.
  - intros (id & -> & Hp). rewrite json_stem by apply Hp.
    assert (ensure_safe_id id = Ok id) as -> by (by apply ensure_safe_id_ok).
    by rewrite str_eqb_refl.
Qed.

Section proofs.
Context {V : Type}.
Context (to_json : V → result str (list N)) (from_json : list N → result str V).
Context (fault : nat → bool) (torn : nat → option (list N)) (io_error : str).
Context (dir : path).
(** [serde_json] reads back what it wrote. *)
Hypothesis json_roundtrip : ∀ v b, to_json v = Ok b → from_json b = Ok v.
(** The configured directory is a plain path. *)
Hypothesis dir_plain : Forall plain_component dir.

Local Abbreviation put := (JsonStore.put to_json fault torn io_error dir).
Local Abbreviation get := (JsonStore.get from_json fault io_error dir).
Local Abbreviation delete := (JsonStore.delete fault io_error dir).
Local Abbreviation list_all := (JsonStore.list from_json fault io_error dir).
Local Abbreviation resolve_dir := (JsonStore.resolve_dir fault io_error dir).
Local Abbreviation record_path := (JsonStore.record_path fault io_error dir).

Definition rec_path (id : str) : path := dir ++ [json_name id].
Definition rec_tmp (id : str) : path := dir ++ [json_name id ++ ".tmp"].

Lemma rec_path_inj (a b : str) : rec_path a = rec_path b → a = b.
Proof.
  unfold rec_path, json_name. intros [_ H]%app_inj_2; [|done].
  injection H as H. by apply app_inv_tail in H.
Qed.

Lemma rec_tmp_path (id k : str) : rec_tmp id ≠ rec_path k.
Proof.
  unfold rec_tmp, rec_path, json_name. intros [_ H]%app_inj_2; [|done].
  injection H as H. apply (f_equal last) in H.
  rewrite <- !app_assoc in H.
  change (lit ".json" ++ lit ".tmp") with (lit ".json.tm" ++ [112%N]) in H.
  change (lit ".json") with (lit ".jso" ++ [110%N]) in H.
  rewrite !app_assoc, !last_snoc in H. done.
Qed.

Lemma tmp_path_rec (id : str) : id ≠ [] → JsonStore.tmp_path (rec_path id) = rec_tmp id.
Proof.
  intros H. unfold JsonStore.tmp_path, rec_path, rec_tmp, JsonStore.set_last, with_extension.
  rewrite removelast_last, List.last_last, json_stem by done. simpl.
  unfold json_name. by rewrite <- app_assoc.
Qed.

(** *** Directories *)

Lemma canonicalize_plain (s : Fs) (cur p b : path) :
  Forall plain_component p → JsonStore.canonicalize_from s cur p = Some b → b = cur ++ p.
Proof.
  intros Hp; revert cur; induction Hp as [|c p (_ & _ & Hc & _) _ IH]; intros cur; simpl.
  { intros [= ->]. by rewrite app_nil_r. }
  rewrite (proj2 (str_eqb_neq c "..")) by done. case_bool_decide; [|done].
  intros ->%IH. by rewrite <- app_assoc.
Qed.

Lemma nearest_plain (s : Fs) (rp tail : path) :
  Forall plain_component rp →
  ∃ b t, JsonStore.nearest s rp tail = Some (b, t) ∧ b ++ t = reverse rp ++ tail.
Proof.
  revert tail; induction rp as [|c rp IH]; intros tail Hf.
  { exists [], tail. done. }
  cbn [JsonStore.nearest]. destruct (JsonStore.canonicalize s (reverse (c :: rp))) as [b|] eqn:E.
  - eexists _, _. split; [done|].
    apply (canonicalize_plain _ [] _ b) in E; [by rewrite E|by apply Forall_reverse].
  - apply Forall_cons in Hf as [(_ & _ & Hc & _) Hf].
    rewrite (proj2 (str_eqb_neq c "..")) by done.
    destruct (IH (c :: tail) Hf) as (b & t & -> & H). eexists _, _. split; [done|].
    by rewrite H, reverse_cons, <- app_assoc.
Qed.

Lemma join_all_plain (d tail : path) :
  Forall plain_component tail → JsonStore.join_all d tail = Ok (d ++ tail).
Proof.
  intros H; revert d; induction H as [|c tail Hc _ IH]; intros d; simpl.
  { by rewrite app_nil_r. }
  rewrite join_component_plain by done. simpl. by rewrite IH, <- app_assoc.
Qed.

Lemma prefixes_self (p : path) : p ∈ JsonStore.prefixes p.
Proof.
  unfold JsonStore.prefixes. apply elem_of_list_to_set, list_elem_of_fmap.
  exists (length p). rewrite firstn_all. split; [done|]. apply elem_of_seq. lia.
Qed.

(** [resolve_dir] yields the configured directory, made to exist if [create]. *)
Lemma resolve_dir_spec (create : bool) (s s' : Fs) (r : ApiResult (option path)) :
  resolve_dir create s = (s', r) →
  files s' = files s ∧ dirs s ⊆ dirs s' ∧
  match r with
  | Ok (Some d) => d = dir ∧ dir ∈ dirs s'
  | Ok None => create = false ∧ s' = s ∧ dir ∉ dirs s
  | Err _ => create = true
  end.
Proof.
  unfold JsonStore.resolve_dir.
  destruct (nearest_plain s (reverse dir) []) as (b & t & -> & H);
    [by apply Forall_reverse|]. rewrite reverse_involutive, app_nil_r in H.
  assert (JsonStore.join_all b t = Ok dir) as Hj.
  { assert (Forall plain_component t) as Ht.
    { rewrite <- H in dir_plain. by apply Forall_app in dir_plain as [_ ?]. }
    by rewrite join_all_plain, H. }
  unfold mbind, io_bind, lift. rewrite Hj. destruct create.
  - unfold JsonStore.create_dir_all, JsonStore.io_op. destruct (fault (tick s)); simpl.
    + intros [= <- <-]. simpl. split_and!; set_solver.
    + intros [= <- <-]. simpl. split_and!; try set_solver.
      apply elem_of_union_r, prefixes_self.
  - case_bool_decide; intros [= <- <-]; split_and!; done.
Qed.

Lemma record_path_spec (create : bool) (id : str) (s s' : Fs) r :
  record_path id create s = (s', r) →
  files s' = files s ∧ dirs s ⊆ dirs s' ∧
  match r with
  | Ok (Some p) => p = rec_path id ∧ plain_id id ∧ dir ∈ dirs s'
  | Ok None => create = false ∧ s' = s ∧ (dir ∉ dirs s) ∧ plain_id id
  | Err _ => create = true ∨ (s' = s ∧ ¬ plain_id id)
  end.
Proof.
  unfold JsonStore.record_path, mbind, io_bind, lift.
  destruct (ensure_safe_id id) as [id'|e] eqn:Eid.
  2: { intros [= <- <-]. split_and!; [done..|]. right. split; [done|].
       intros Hp. assert (ensure_safe_id id = Ok id) by (by apply ensure_safe_id_ok). congruence. }
  apply ensure_safe_id_ok in Eid as [-> Hid].
  destruct (resolve_dir create s) as [s1 [[d|]|e]] eqn:E; apply resolve_dir_spec in E.
  - destruct E as (Hf & Hd & -> & Hin).
    change (id ++ lit ".json") with (json_name id).
    rewrite join_component_plain by (by apply plain_json_name).
    intros [= <- <-]. split_and!; done.
  - destruct E as (Hf & Hd & -> & -> & Hin). intros [= <- <-]. split_and!; done.
  - destruct E as (Hf & Hd & ->). intros [= <- <-]. split_and!; [done..|]. by left.
Qed.

(** *** The abstraction *)

(** Files live in directories that exist. *)
Definition wf (s : Fs) : Prop := ∀ p b, files s !! p = Some b → removelast p ∈ dirs s.

(** The value an id stands for: its file's parsed content. *)
Definition view (s : Fs) (id : str) : option V :=
  if is_ok (ensure_safe_id id) then
    b ← files s !! rec_path id;
    match from_json b with Ok v => Some v | Err _ => None end
  else None.

Lemma view_plain (s : Fs) (id : str) :
  plain_id id →
  view s id = (b ← files s !! rec_path id;
               match from_json b with Ok v => Some v | Err _ => None end).
Proof.
  intros H. unfold view. assert (ensure_safe_id id = Ok id) as -> by (by apply ensure_safe_id_ok).
  done.
Qed.

Lemma view_not_plain (s : Fs) (id : str) : ¬ plain_id id → view s id = None.
Proof.
  intros H. unfold view. destruct (ensure_safe_id id) as [r|e] eqn:E; [|done].
  by apply ensure_safe_id_ok in E as [_ ?].
Qed.

(** Files that agree on the record files show the same records. *)
Lemma view_ext (s s' : Fs) (id : str) :
  files s' !! rec_path id = files s !! rec_path id → view s' id = view s id.
Proof. intros H. unfold view. by rewrite H. Qed.

Lemma wf_ext (s s' : Fs) : wf s → files s' = files s → dirs s ⊆ dirs s' → wf s'.
Proof. intros Hwf Hf Hd p b. rewrite Hf. intros ?%Hwf. set_solver. Qed.

Lemma fs_write_spec (p : path) (b : Datatypes.list N) (s s' : Fs) r :
  JsonStore.fs_write fault torn io_error p b s = (s', r) →
  dirs s' = dirs s ∧ (∀ q, q ≠ p → files s' !! q = files s !! q) ∧
  (r = Ok tt → files s' !! p = Some b).
Proof.
  unfold JsonStore.fs_write, JsonStore.io_op. destruct (fault (tick s)).
  - intros [= <- <-]. split_and!; [done| |done]. intros q Hq. simpl.
    by destruct (torn _); simplify_map_eq.
  - intros [= <- <-]. split_and!; [done| |]; intros; simpl; by simplify_map_eq.
Qed.

Lemma fs_rename_spec (a p : path) (s s' : Fs) r :
  JsonStore.fs_rename fault io_error a p s = (s', r) →
  a ≠ p → dirs s' = dirs s ∧ (∀ q, q ≠ p → q ≠ a → files s' !! q = files s !! q) ∧
  match r with
  | Ok _ => files s' !! p = files s !! a ∧ is_Some (files s !! a) ∧ files s' !! a = None
  | Err _ => files s' = files s
  end.
Proof.
  intros H Hne. revert H. unfold JsonStore.fs_rename, JsonStore.io_op.
  destruct (fault (tick s)).
  - intros [= <- <-]. done.
  - simpl. destruct (files s !! a) as [b|] eqn:E; intros [= <- <-]; simpl; [|done].
    split_and!; [done| |by simplify_map_eq|done|].
    + intros q ? ?. by simplify_map_eq.
    + by rewrite lookup_insert_ne, lookup_delete_eq.
Qed.

(** A write under any failures: the record file changes only if the write
    succeeds, and then it holds exactly the serialized value. *)
Lemma put_spec (id : str) (v : V) (s s' : Fs) r :
  put id v s = (s', r) → wf s →
  wf s' ∧
  match r with
  | Ok _ => plain_id id ∧ (∃ b, to_json v = Ok b ∧ files s' !! rec_path id = Some b)
            ∧ ∀ p, p ≠ rec_path id → p ≠ rec_tmp id → files s' !! p = files s !! p
  | Err _ => ∀ p, p ≠ rec_tmp id → files s' !! p = files s !! p
  end.
Proof.
  intros H Hwf. unfold JsonStore.put, mbind at 1, io_bind at 1 in H.
  destruct (record_path id true s) as [s1 r1] eqn:E1. apply record_path_spec in E1 as (Hf1 & Hd1 & E1).
  assert (wf s1) as Hwf1 by (by eapply wf_ext).
  destruct r1 as [[p|]|e]; [|by destruct E1|].
  2: { simplify_eq. split; [done|]. by rewrite Hf1. }
  destruct E1 as (-> & Hid & Hin). unfold mbind, io_bind, lift in H. simpl in H.
  destruct (to_json v) as [b|e] eqn:Ej; simpl in H.
  2: { simplify_eq. split; [done|]. by rewrite Hf1. }
  rewrite tmp_path_rec in H by apply Hid.
  destruct (JsonStore.fs_write _ _ _ _ _ s1) as [s2 r2] eqn:E2.
  apply fs_write_spec in E2 as (Hd2 & Hf2 & Hok2).
  assert (wf s2) as Hwf2.
  { intros q c Hq. rewrite Hd2. destruct (decide (q = rec_tmp id)) as [->|Hne].
    - unfold rec_tmp. by rewrite removelast_last.
    - rewrite Hf2 in Hq by done. by eapply Hwf1. }
  destruct r2 as [[]|e]; simplify_eq.
  2: { split; [done|]. intros p Hp. by rewrite Hf2, Hf1. }
  destruct (JsonStore.fs_rename _ _ _ _ s2) as [s3 r3] eqn:E3. simplify_eq.
  apply fs_rename_spec in E3 as (Hd3 & Hf3 & E3); [|apply rec_tmp_path].
  destruct r as [u|e].
  - destruct E3 as (Hp & Hs & Hno). split_and!.
    + intros q c Hq. rewrite Hd3. destruct (decide (q = rec_path id)) as [->|Hne].
      * unfold rec_path. rewrite removelast_last. by rewrite Hd2.
      * destruct (decide (q = rec_tmp id)) as [->|]; [congruence|].
        rewrite Hf3 in Hq by done. by eapply Hwf2.
    + done.
    + exists b. split; [done|]. by rewrite Hp, Hok2.
    + intros p ? ?. by rewrite Hf3, Hf2, Hf1.
  - split.
    + intros q c. rewrite E3, Hd3. apply Hwf2.
    + intros p Hp. by rewrite E3, Hf2, Hf1.
Qed.

Lemma io_op_keeps {A} (bad k : Fs → Fs * ApiResult A) (s s' : Fs) r :
  (∀ t, files t = files s → dirs t = dirs s →
    files (bad t).1 = files s ∧ dirs (bad t).1 = dirs s) →
  (∀ t, files t = files s → dirs t = dirs s →
    files (k t).1 = files s ∧ dirs (k t).1 = dirs s) →
  JsonStore.io_op fault bad k s = (s', r) → files s' = files s ∧ dirs s' = dirs s.
Proof.
  unfold JsonStore.io_op. intros Hb Hk H.
  destruct (fault (tick s)); apply (f_equal fst) in H; simpl in H; subst s'; auto.
Qed.

Lemma delete_spec (id : str) (s s' : Fs) r :
  delete id s = (s', r) → wf s →
  wf s' ∧
  match r with
  | Ok b => plain_id id ∧ files s' !! rec_path id = None
            ∧ (b = true ↔ is_Some (files s !! rec_path id))
            ∧ ∀ p, p ≠ rec_path id → files s' !! p = files s !! p
  | Err _ => files s' = files s
  end.
Proof.
  intros H Hwf. unfold JsonStore.delete, mbind at 1, io_bind at 1 in H.
  destruct (record_path id false s) as [s1 r1] eqn:E1.
  apply record_path_spec in E1 as (Hf1 & Hd1 & E1).
  assert (wf s1) as Hwf1 by (by eapply wf_ext).
  destruct r1 as [[p|]|e].
  - destruct E1 as (-> & Hid & Hin). unfold JsonStore.io_op in H.
    destruct (fault (tick s1)).
    { simplify_eq. split; [done|]. by rewrite <- Hf1. }
    simpl in H. destruct (files s1 !! rec_path id) as [b|] eqn:Eb; simplify_eq; simpl.
    + rewrite <- Hf1. rewrite Eb. split; [|split_and!; try done; try by simplify_map_eq; try by eexists].
      * intros q c Hq. simpl in Hq. apply lookup_delete_Some in Hq as [_ Hq]. by eapply Hwf1.
      * intros q Hq. by simplify_map_eq.
    + split; [done|]. rewrite <- Hf1, Eb. split_and!; try done; naive_solver.
  - destruct E1 as (_ & -> & Hin & Hid). injection H as <- <-. split; [done|].
    assert (files s !! rec_path id = None) as Hn.
    { destruct (files s !! rec_path id) as [b|] eqn:Eb; [|done]. apply Hwf in Eb.
      unfold rec_path in Eb. by rewrite removelast_last in Eb. }
    rewrite Hn. split_and!; try done; naive_solver.
  - simplify_eq. destruct E1 as [?|[-> _]]; [done|]. done.
Qed.

Lemma elem_of_entries (s : Fs) (d : path) (name : str) :
  name ∈ JsonStore.entries s d ↔ is_Some (files s !! (d ++ [name])).
Proof.
  unfold JsonStore.entries. rewrite list_elem_of_omap. split.
  - intros (p & Hp & E). apply list_elem_of_fmap in Hp as ([q b] & -> & Hq).
    apply elem_of_map_to_list in Hq. simpl in *.
    destruct (reverse q) as [|c r] eqn:Er; [done|]. case_bool_decide as Hd; [|done].
    injection E as ->. apply (f_equal reverse) in Er.
    rewrite reverse_involutive, reverse_cons, Hd in Er. subst q. eauto.
  - intros [b Hb]. exists (d ++ [name]). split.
    + apply list_elem_of_fmap. exists (d ++ [name], b). by rewrite elem_of_map_to_list.
    + rewrite reverse_app, reverse_singleton. simpl. by rewrite reverse_involutive, bool_decide_eq_true_2.
Qed.

Lemma read_all_spec (d : path) (names : Datatypes.list str) (out : Datatypes.list V) (s s' : Fs) r :
  JsonStore.read_all from_json fault io_error d out names s = (s', r) →
  files s' = files s ∧ dirs s' = dirs s ∧
  (∀ vs, r = Ok vs → (∀ n, n ∈ names → is_Some (files s !! (d ++ [n]))) →
    ∀ v, v ∈ vs ↔ v ∈ out ∨ ∃ n b, n ∈ names ∧ JsonStore.is_record n = true ∧
      files s !! (d ++ [n]) = Some b ∧ from_json b = Ok v).
Proof.
  revert out s; induction names as [|n names IH]; intros out s; cbn [JsonStore.read_all].
  { intros [= <- <-]. split_and!; [done..|]. intros vs [= <-] _ v.
    split; [by left|]. intros [?|(? & ? & ?%not_elem_of_nil & _)]; done. }
  unfold JsonStore.io_op at 1. destruct (fault (tick s)); [by intros [= <- <-]|].
  cbv beta zeta. set (s1 := mkFs _ _ _).
  assert (files s1 = files s ∧ dirs s1 = dirs s) as [Hf1 Hd1] by done. clearbody s1.
  destruct (JsonStore.is_record n) eqn:Er; simpl.
  2: { intros (Hf & Hd & Hv)%IH. rewrite <- Hf1, <- Hd1. split_and!; [done..|].
       intros vs Hvs Hex v. rewrite (Hv vs Hvs) by set_solver. split.
       - intros [?|(m & b & ? & ?)]; [by left|]. right. exists m, b. set_solver.
       - intros [?|(m & b & [->|Hm]%elem_of_cons & Hr & ?)]; [by left|congruence|].
         right. by exists m, b. }
  unfold mbind, io_bind, JsonStore.io_op. destruct (fault (tick s1)); [by intros [= <- <-]|].
  simpl. rewrite Hf1. destruct (files s !! (d ++ [n])) as [b|] eqn:Eb; [|by intros [= <- <-]].
  destruct (from_json b) as [w|e] eqn:Ej;
    intros (Hf & Hd & Hv)%IH; simpl in *; (split_and!; [congruence..|]);
    intros vs Hvs Hex v; rewrite (Hv vs Hvs) by (rewrite ?Hf1; set_solver); rewrite ?Hf1; split.
  - rewrite elem_of_app, list_elem_of_singleton.
    intros [[?| ->]|(m & c & ? & ?)]; [by left| |]; right; [exists n, b|exists m, c]; set_solver.
  - rewrite elem_of_app, list_elem_of_singleton.
    intros [?|(m & c & [->|Hm]%elem_of_cons & ? & ? & ?)]; [by do 2 left| |].
    + left. right. congruence.
    + right. by exists m, c.
  - intros [?|(m & c & ? & ?)]; [by left|]. right. exists m, c. set_solver.
  - intros [?|(m & c & [->|Hm]%elem_of_cons & ? & ? & ?)]; [by left|congruence|].
    right. by exists m, c.
Qed.

Lemma NoDup_omap {A B} (f : A → option B) (l : Datatypes.list A) :
  (∀ a b x, f a = Some x → f b = Some x → a = b) → NoDup l → NoDup (omap f l).
Proof.
  intros Hf. induction 1 as [|a l Ha _ IH]; simpl; [constructor|].
  destruct (f a) as [x|] eqn:E; [|done]. constructor; [|done].
  rewrite list_elem_of_omap. intros (b & Hb & Ex). by rewrite (Hf _ _ _ E Ex) in Ha.
Qed.

Lemma NoDup_entries (s : Fs) (d : path) : NoDup (JsonStore.entries s d).
Proof.
  unfold JsonStore.entries. apply NoDup_omap.
  2: { apply NoDup_fst_map_to_list. }
  intros p q x Hp Hq. destruct (reverse p) as [|c r] eqn:Ep; [done|].
  destruct (reverse q) as [|c' r'] eqn:Eq; [done|].
  do 2 (case_bool_decide; [|done]). simplify_eq. apply (inj reverse). congruence.
Qed.

(** A listing reads each record file once. *)
Lemma read_all_once (d : path) (names : Datatypes.list str) (out vs : Datatypes.list V) (s s' : Fs) :
  JsonStore.read_all from_json fault io_error d out names s = (s', Ok vs) →
  ∃ ns vs', vs = out ++ vs' ∧ ns `sublist_of` names ∧
    Forall2 (λ n v, JsonStore.is_record n = true ∧ ∃ b, files s !! (d ++ [n]) = Some b ∧ from_json b = Ok v)
      ns vs'.
Proof.
  revert out s; induction names as [|n names IH]; intros out s; cbn [JsonStore.read_all].
  { intros [= <- <-]. exists [], []. by rewrite app_nil_r. }
  unfold JsonStore.io_op at 1. destruct (fault (tick s)); [done|].
  cbv beta zeta. set (s1 := mkFs _ _ _). assert (files s1 = files s) as Hf1 by done. clearbody s1.
  destruct (JsonStore.is_record n) eqn:Er; simpl.
  2: { intros (ns & ws & -> & Hns & Hf)%IH. rewrite Hf1 in Hf. exists ns, ws.
       split_and!; [done|by constructor|done]. }
  unfold mbind, io_bind, JsonStore.io_op. destruct (fault (tick s1)); [done|].
  simpl. rewrite Hf1. destruct (files s !! (d ++ [n])) as [b|] eqn:Eb; [|done].
  destruct (from_json b) as [w|e] eqn:Ej; intros (ns & ws & -> & Hns & Hf)%IH; simpl in Hf.
  - exists (n :: ns), (w :: ws). rewrite <- app_assoc. split_and!; [done|by constructor|].
    constructor; [by eauto|done].
  - exists ns, ws. split_and!; [done|by constructor|done].
Qed.

Lemma records_ids (s : Fs) (ns : Datatypes.list str) (vs : Datatypes.list V) :
  Forall2 (λ n v, JsonStore.is_record n = true ∧
    ∃ b, files s !! (dir ++ [n]) = Some b ∧ from_json b = Ok v) ns vs →
  ∃ ids, ns = map json_name ids ∧ Forall2 (λ id v, view s id = Some v) ids vs.
Proof.
  induction 1 as [|n v ns vs ((id & -> & Hid)%is_record_spec & b & Hb & Hj) _ (ids & -> & IH)].
  { by exists []. }
  exists (id :: ids). split; [done|]. constructor; [|done].
  rewrite view_plain by done. unfold rec_path. by rewrite Hb; simpl; rewrite Hj.
Qed.

Lemma list_once_spec (s s' : Fs) (vs : Datatypes.list V) :
  list_all s = (s', Ok vs) →
  ∃ ids, NoDup ids ∧ Forall2 (λ id v, view s id = Some v) ids vs.
Proof.
  intros H. unfold JsonStore.list, mbind, io_bind in H.
  destruct (resolve_dir false s) as [s1 r1] eqn:E1. apply resolve_dir_spec in E1 as (Hf1 & Hd1 & E1).
  destruct r1 as [[d|]|e]; [|by injection H as <- <-; exists []; split; constructor|done].
  destruct E1 as [-> Hin]. unfold JsonStore.io_op in H. destruct (fault (tick s1)); [done|].
  apply read_all_once in H as (ns & ws & -> & Hsub & Hf). simpl in *. rewrite Hf1 in Hf.
  apply records_ids in Hf as (ids & -> & Hf). exists ids. split; [|done].
  apply (NoDup_fmap_1 json_name). eapply sublist_NoDup; [|done]. apply NoDup_entries.
Qed.

Lemma list_spec (s s' : Fs) r :
  list_all s = (s', r) → wf s →
  files s' = files s ∧ dirs s ⊆ dirs s' ∧
  ∀ vs, r = Ok vs → ∀ v, v ∈ vs ↔ ∃ id, view s id = Some v.
Proof.
  intros H Hwf. unfold JsonStore.list, mbind, io_bind in H.
  destruct (resolve_dir false s) as [s1 r1] eqn:E1. apply resolve_dir_spec in E1 as (Hf1 & Hd1 & E1).
  destruct r1 as [[d|]|e]; [|destruct E1 as (_ & -> & Hin)|done].
  - destruct E1 as [-> Hin]. unfold JsonStore.io_op in H.
    destruct (fault (tick s1)); [simplify_eq; done|].
    apply read_all_spec in H as (Hf & Hd & Hv). simpl in *. rewrite Hf1 in *.
    split_and!; [done|set_solver|]. intros vs Hvs v. rewrite (Hv vs Hvs).
    2: { intros n. rewrite elem_of_entries. simpl. by rewrite ?Hf1. }
    split.
    + intros [?%not_elem_of_nil|(n & b & _ & (id & -> & Hid)%is_record_spec & Hb & Hj)]; [done|].
      exists id. rewrite view_plain by done. unfold rec_path. by rewrite Hb; simpl; rewrite Hj.
    + intros [id Hid]. right. destruct (decide (is_ok (ensure_safe_id id))) as [Hp|Hp].
      2: { unfold view in Hid. by destruct (is_ok _). }
      apply Is_true_true, is_ok_true in Hp as [x Hp]. apply ensure_safe_id_ok in Hp as [-> Hp].
      rewrite view_plain in Hid by done. apply bind_Some in Hid as (b & Hb & Hj).
      destruct (from_json b) as [w|] eqn:Ew; simplify_eq.
      exists (json_name id), b. split_and!; [|by apply is_record_spec; eauto|done|done].
      rewrite elem_of_entries. simpl. rewrite ?Hf1. by exists b.
  - injection H as <- <-. split_and!; [done..|]. intros vs [= <-] v. split; [by intros ?%not_elem_of_nil|].
    intros [id Hid]. exfalso. apply Hin. unfold view in Hid. destruct (is_ok _); [|done].
    apply bind_Some in Hid as (b & Hb%Hwf & _). unfold rec_path in Hb.
    by rewrite removelast_last in Hb.
Qed.

Lemma get_spec (id : str) (s s' : Fs) r :
  get id s = (s', r) → wf s →
  files s' = files s ∧ dirs s ⊆ dirs s' ∧
  ∀ o, r = Ok o → plain_id id ∧ o = view s id.
Proof.
  intros H Hwf. unfold JsonStore.get, mbind at 1, io_bind at 1 in H.
  destruct (record_path id false s) as [s1 r1] eqn:E1.
  apply record_path_spec in E1 as (Hf1 & Hd1 & E1).
  destruct r1 as [[p|]|e].
  - destruct E1 as (-> & Hid & Hin). unfold JsonStore.io_op in H.
    destruct (fault (tick s1)); [simplify_eq; done|]. simpl in H. rewrite view_plain by done.
    rewrite Hf1 in H. destruct (files s !! rec_path id) as [b|]; simplify_eq; simpl; [|naive_solver].
    split_and!; [done|done|]. intros o. by destruct (from_json b); intros [= <-].
  - destruct E1 as (_ & -> & Hin & Hid). injection H as <- <-. split_and!; [done..|].
    intros o [= <-]. split; [done|]. rewrite view_plain by done.
    destruct (files s !! rec_path id) as [b|] eqn:Eb; [|done]. apply Hwf in Eb.
    unfold rec_path in Eb. by rewrite removelast_last in Eb.
  - simplify_eq. destruct E1 as [?|[-> _]]; [done|]. done.
Qed.

Lemma put_view (id : str) (v : V) (s s' : Fs) r :
  put id v s = (s', r) → wf s →
  (∀ k, k ≠ id → view s' k = view s k) ∧
  match r with
  | Ok _ => view s' id = Some v
  | Err _ => view s' id = view s id
  end.
Proof.
  intros H0 Hwf. apply put_spec in H0 as [Hwf' H]; [|done]. destruct r as [u|e].
  - destruct H as (Hid & (b & Hb & Hl) & Hp). split.
    + intros k Hk. apply view_ext, Hp; [|by apply not_eq_sym, rec_tmp_path].
      intros ?%rec_path_inj. done.
    + rewrite view_plain by done. rewrite Hl. simpl. by erewrite json_roundtrip.
  - split; intros; apply view_ext, H, not_eq_sym, rec_tmp_path.
Qed.

Lemma delete_view (id : str) (s s' : Fs) r :
  delete id s = (s', r) → wf s →
  ∀ k, view s' k = if decide (k = id) then match r with Ok _ => None | Err _ => view s k end
                   else view s k.
Proof.
  intros H0 Hwf k. apply delete_spec in H0 as [_ H]; [|done]. destruct r as [b|e].
  - destruct H as (Hid & Hn & _ & Hp). case_decide as Hk; [subst k|].
    + rewrite view_plain by done. by rewrite Hn.
    + apply view_ext, Hp. intros ?%rec_path_inj. done.
  - case_decide; apply view_ext; by rewrite H.
Qed.

(** The file system without any failure. *)
Lemma put_total (id : str) (v : V) (b : Datatypes.list N) (s : Fs) :
  (∀ n, fault n = false) → plain_id id → to_json v = Ok b →
  ∃ s', put id v s = (s', Ok tt).
Proof.
  intros Hno Hid Hb. unfold JsonStore.put, mbind at 1, io_bind at 1.
  destruct (record_path id true s) as [s1 r1] eqn:E1.
  assert (r1 = Ok (Some (rec_path id))) as ->.
  { unfold JsonStore.record_path, mbind, io_bind, lift in E1.
    assert (ensure_safe_id id = Ok id) as Hs by (by apply ensure_safe_id_ok). rewrite Hs in E1.
    destruct (resolve_dir true s) as [s2 r2] eqn:E2. pose proof E2 as E3.
    apply resolve_dir_spec in E3 as (_ & _ & E3). destruct r2 as [[d|]|e].
    - destruct E3 as [-> _]. change (id ++ lit ".json") with (json_name id) in E1.
      rewrite join_component_plain in E1 by (by apply plain_json_name). by injection E1.
    - by destruct E3.
    - exfalso. unfold JsonStore.resolve_dir in E2.
      destruct (nearest_plain s (reverse dir) []) as (c & t & Hn & Hct); [by apply Forall_reverse|].
      rewrite Hn in E2. rewrite reverse_involutive, app_nil_r in Hct.
      assert (Forall plain_component t) as Ht.
      { rewrite <- Hct in dir_plain. by apply Forall_app in dir_plain as [_ ?]. }
      unfold mbind, io_bind, lift in E2. rewrite join_all_plain in E2 by done.
      unfold JsonStore.create_dir_all, JsonStore.io_op in E2. by rewrite Hno in E2. }
  unfold mbind, io_bind, lift. simpl. rewrite Hb. simpl.
  rewrite tmp_path_rec by apply Hid.
  destruct (JsonStore.fs_write _ _ _ _ _ s1) as [s2 r2] eqn:E2.
  assert (r2 = Ok tt) as ->.
  { unfold JsonStore.fs_write, JsonStore.io_op in E2. rewrite Hno in E2. by injection E2. }
  apply fs_write_spec in E2 as (_ & _ & E2). specialize (E2 eq_refl).
  unfold JsonStore.fs_rename, JsonStore.io_op. rewrite Hno. simpl. rewrite E2. eauto.
Qed.

(** The store of [StoreSpec] that the files are. *)
Definition with_wf {A} (op : Fs → Fs * A) (s : {s | wf s}) (H : wf (op (`s)).1) :
  {s | wf s} * A := (exist _ (op (`s)).1 H, (op (`s)).2).

Lemma with_wf_spec {A} (op : Fs → Fs * A) s H (s' : {s | wf s}) r :
  with_wf op s H = (s', r) → op (`s) = (`s', r).
Proof. unfold with_wf. intros [= <- <-]. simpl. by destruct (op (`s)). Qed.

Lemma put_wf id v (s : {s | wf s}) : wf (put id v (`s)).1.
Proof. destruct s as [s Hs]. simpl. destruct (put id v s) eqn:E. by eapply put_spec in E as [? _]. Qed.
Lemma delete_wf id (s : {s | wf s}) : wf (delete id (`s)).1.
Proof. destruct s as [s Hs]. simpl. destruct (delete id s) eqn:E. by eapply delete_spec in E as [? _]. Qed.
Lemma list_wf (s : {s | wf s}) : wf (list_all (`s)).1.
Proof.
  destruct s as [s Hs]. simpl. destruct (list_all s) eqn:E.
  apply list_spec in E as (Hf & Hd & _); [|done]. by eapply wf_ext.
Qed.

Lemma get_wf id (s : {s | wf s}) : wf (get id (`s)).1.
Proof.
  destruct s as [s Hs]. simpl. destruct (get id s) eqn:E.
  apply get_spec in E as (Hf & Hd & _); [|done]. by eapply wf_ext.
Qed.

Definition json_store : RecordStore V.
Proof.
  refine {|
    rstate := {s : Fs | wf s};
    record s id := view (`s) id;
    store_put id v s := with_wf (put id v) s (put_wf id v s);
    store_delete id s := with_wf (delete id) s (delete_wf id s);
    store_list s := with_wf list_all s (list_wf s);
    store_get id s := with_wf (get id) s (get_wf id s);
  |}.
  - intros s s' id v H%with_wf_spec k. apply put_view in H as [H1 H2]; [|by destruct s].
    case_decide; [subst; done|by apply H1].
  - intros s s' id v e H%with_wf_spec k. apply put_view in H as [H1 H2]; [|by destruct s].
    destruct (decide (k = id)) as [->|]; [done|by apply H1].
  - intros s s' id b H%with_wf_spec k. by rewrite (delete_view _ _ _ _ H) by (by destruct s).
  - intros s s' id e H%with_wf_spec k. rewrite (delete_view _ _ _ _ H) by (by destruct s).
    by case_decide.
  - intros s s' r H%with_wf_spec k. apply list_spec in H as (H & _); [|by destruct s].
    apply view_ext. by rewrite H.
  - intros s s' vs H%with_wf_spec v. apply list_spec in H as (_ & _ & H); [|by destruct s].
    by apply H.
  - intros s s' vs H%with_wf_spec. by eapply list_once_spec.
  - intros s s' id r H%with_wf_spec k. apply get_spec in H as (H & _); [|by destruct s].
    apply view_ext. by rewrite H.
  - intros s s' id o H%with_wf_spec. apply get_spec in H as (_ & _ & H); [|by destruct s].
    by apply H.
Defined.

(** A record path is found without fail when nothing fails. *)
Lemma record_path_total (id : str) (s s' : Fs) r :
  plain_id id → record_path id false s = (s', r) → ∃ o, r = Ok o.
Proof.
  intros Hid E. pose proof (record_path_spec _ _ _ _ _ E) as (_ & _ & H).
  destruct r as [o|e]; [eauto|]. destruct H as [?|[_ ?]]; done.
Qed.

Lemma get_total (id : str) (v : V) (s : Fs) :
  (∀ n, fault n = false) → wf s → view s id = Some v →
  ∃ s', get id s = (s', Ok (Some v)).
Proof.
  intros Hno Hwf Hv.
  assert (plain_id id) as Hid.
  { destruct (ensure_safe_id id) as [x|e] eqn:E; [by apply ensure_safe_id_ok in E as [_ ?]|].
    unfold view in Hv. by rewrite E in Hv. }
  destruct (get id s) as [s' r] eqn:E. pose proof (get_spec _ _ _ _ E Hwf) as (_ & _ & H).
  destruct r as [o|e]; [destruct (H o eq_refl) as [_ ->]; rewrite Hv; eauto|]. exfalso.
  unfold JsonStore.get, mbind at 1, io_bind at 1 in E.
  destruct (record_path id false s) as [s1 r1] eqn:E1.
  destruct (record_path_total _ _ _ _ Hid E1) as [o ->].
  apply record_path_spec in E1 as (Hf & _ & E1). destruct o as [p|]; [|by injection E].
  destruct E1 as (-> & _ & _). unfold JsonStore.io_op in E. rewrite Hno in E. simpl in E.
  rewrite Hf in E. rewrite view_plain in Hv by done.
  destruct (files s !! rec_path id) as [b|]; [|by injection E].
  simpl in Hv. by destruct (from_json b).
Qed.

Lemma delete_total (id : str) (v : V) (s : Fs) :
  (∀ n, fault n = false) → wf s → view s id = Some v →
  ∃ s', delete id s = (s', Ok true).
Proof.
  intros Hno Hwf Hv.
  assert (plain_id id ∧ is_Some (files s !! rec_path id)) as [Hid Hs].
  { destruct (ensure_safe_id id) as [x|e] eqn:E.
    - apply ensure_safe_id_ok in E as [_ ?]. split; [done|].
      rewrite view_plain in Hv by done. apply bind_Some in Hv as (b & ? & _). eauto.
    - unfold view in Hv. by rewrite E in Hv. }
  destruct (delete id s) as [s' r] eqn:E. pose proof (delete_spec _ _ _ _ E Hwf) as (_ & H).
  destruct r as [b|e].
  { destruct H as (_ & _ & Hb & _). apply Hb in Hs as ->. eauto. }
  exfalso. unfold JsonStore.delete, mbind at 1, io_bind at 1 in E.
  destruct (record_path id false s) as [s1 r1] eqn:E1.
  destruct (record_path_total _ _ _ _ Hid E1) as [o ->].
  apply record_path_spec in E1 as (Hf & _ & E1). destruct o as [p|]; [|by injection E].
  destruct E1 as (-> & _ & _). unfold JsonStore.io_op in E. rewrite Hno in E. simpl in E.
  by destruct (files s1 !! rec_path id).
Qed.

(** C15: writing a record is atomic under every schedule of I/O failures and torn
    writes (so also when the process dies between two operations): readers see
    the old value or, exactly when [put] reports success, the new one; every
    other record is untouched; no file but the record and its temporary file
    changes, and the temporary file is never taken for a record. *)
Theorem put_atomic (id : str) (v : V) (s s' : Fs) (r : ApiResult unit) :
  wf s → put id v s = (s', r) →
  wf s' ∧
  (∀ k, k ≠ id → view s' k = view s k) ∧
  match r with
  | Ok _ => view s' id = Some v
  | Err _ => view s' id = view s id
  end ∧
  (∀ p, p ≠ rec_path id → p ≠ rec_tmp id → files s' !! p = files s !! p) ∧
  (∀ k, rec_tmp id ≠ rec_path k).
Proof.
  intros Hwf H. destruct (put_view _ _ _ _ _ H Hwf) as [Ho Hr].
  apply put_spec in H as [Hwf' H]; [|done].
  split_and!; [done|done|done| |intros; apply rec_tmp_path].
  destruct r; [by apply H|]. intros p _. by apply H.
Qed.

(** When no I/O operation fails, a record that serializes is written, read
    back as it was, removed, and then absent. *)
Theorem store_roundtrip (id : str) (v : V) (b : Datatypes.list N) (s : Fs) :
  (∀ n, fault n = false) → wf s → plain_id id → to_json v = Ok b →
  ∃ s1 s2 s3 s4 s5,
    put id v s = (s1, Ok tt) ∧ get id s1 = (s2, Ok (Some v)) ∧
    delete id s1 = (s3, Ok true) ∧ get id s3 = (s4, Ok None) ∧
    delete id s3 = (s5, Ok false).
Proof.
  intros Hno Hwf Hid Hb. destruct (put_total id v b s Hno Hid Hb) as [s1 H1].
  pose proof (put_view _ _ _ _ _ H1 Hwf) as [_ Hv1].
  pose proof (put_spec _ _ _ _ _ H1 Hwf) as [Hwf1 _].
  destruct (get_total id v s1 Hno Hwf1 Hv1) as [s2 H2].
  destruct (delete_total id v s1 Hno Hwf1 Hv1) as [s3 H3].
  pose proof (delete_spec _ _ _ _ H3 Hwf1) as (Hwf3 & _ & Hn3 & _).
  assert (∃ s4 s5, get id s3 = (s4, Ok None) ∧ delete id s3 = (s5, Ok false)) as (s4 & s5 & H4 & H5);
    [|by exists s1, s2, s3, s4, s5].
  destruct (record_path id false s3) as [t r] eqn:E1.
  destruct (record_path_total _ _ _ _ Hid E1) as [o ->].
  pose proof (record_path_spec _ _ _ _ _ E1) as (Hf & _ & Ho).
  unfold JsonStore.get, JsonStore.delete, mbind, io_bind. rewrite E1.
  destruct o as [p|]; [|eexists _, _; split; reflexivity].
  destruct Ho as (-> & _ & _). unfold JsonStore.io_op. rewrite Hno. simpl. rewrite Hf, Hn3.
  eexists _, _; split; reflexivity.
Qed.
End proofs.

(** A store of numbers: one byte each. *)
Definition byte_json (n : N) : result str (list N) := Ok [n].
Definition byte_of_json (b : list N) : result str N :=
  match b with [n] => Ok n | _ => Err (lit "expected a number") end.
Definition users_dir : path := lits ["var"; "lib"; "daygleve"; "users"].
Definition empty_fs : Fs := mkFs {[ [] ]} ∅ 0.

Lemma byte_roundtrip (v : N) (b : list N) : byte_json v = Ok b → byte_of_json b = Ok v.
Proof. by intros [= <-]. Qed.

Lemma users_dir_plain : Forall plain_component users_dir.
Proof. repeat constructor; try done; vm_compute; set_solver. Qed.

Lemma put_atomic_witness :
  let op := JsonStore.put byte_json (λ n, bool_decide (n = 2%nat)) (λ _, Some [1; 2; 3]%N)
              "no space left" users_dir in
  ∃ s' e, op "u1" 7%N empty_fs = (s', Err e) ∧ view byte_of_json users_dir s' "u1" = None.
Proof.
  cbv zeta.
  destruct (JsonStore.put byte_json (λ n, bool_decide (n = 2%nat)) (λ _, Some [1; 2; 3]%N)
              "no space left" users_dir "u1" 7%N empty_fs) as [s' r] eqn:E.
  assert (wf empty_fs) as Hwf by (by intros p b H).
  pose proof (put_atomic byte_json byte_of_json _ _ _ users_dir byte_roundtrip users_dir_plain
    "u1" 7%N empty_fs s' r Hwf E) as (_ & _ & Hr & _).
  destruct r as [u|e].
  - exfalso. apply (f_equal (is_ok ∘ snd)) in E. vm_compute in E. discriminate E.
  - exists s', e. split; [reflexivity|]. rewrite Hr. by vm_compute.
Defined.

Lemma store_roundtrip_witness :
  let put := JsonStore.put byte_json (λ _, false) (λ _, None) "e" users_dir in
  ∃ s1, put "u1" 7%N empty_fs = (s1, Ok tt) ∧
    (JsonStore.get byte_of_json (λ _, false) "e" users_dir "u1" s1).2 = Ok (Some 7%N).
Proof.
  assert (wf empty_fs) as Hwf by (by intros p b H).
  assert (plain_id "u1") as Hid.
  { apply (ensure_safe_id_ok "u1" "u1"). by vm_compute. }
  destruct (store_roundtrip byte_json byte_of_json (λ _, false) (λ _, None) "e" users_dir
    byte_roundtrip users_dir_plain "u1" 7%N [7%N] empty_fs (λ _, eq_refl) Hwf Hid eq_refl)
    as (s1 & s2 & s3 & s4 & s5 & H1 & H2 & _).
  exists s1. split; [exact H1|]. by rewrite H2.
Defined.
