(* ===== verification/StoreRefinement.v ===== *)
(** * The record store refines a map (src/src/services/store.rs)

    The contract of [JsonStore], stated as an abstract machine over the records
    (a function from ids) and its requests: an answer tells what the map did, and
    a failed request did nothing.  Every run over the files, whatever operations
    fail on the way and whatever a failing write leaves, is a run of the machine;
    and when no operation fails the store answers every request on sound ids. *)

From S2P Require Export StoreProofs.

Inductive request (V : Type) :=
  | Put (id : str) (v : V)
  | Delete (id : str)
  | Get (id : str)
  | ListAll.
Arguments Put {V}. Arguments Delete {V}. Arguments Get {V}. Arguments ListAll {V}.

Inductive answer (V : Type) :=
  | Done
  | Deleted (existed : bool)
  | Found (o : option V)
  | Listed (vs : list V)
  | Failed (e : AppError).
Arguments Done {V}. Arguments Deleted {V}. Arguments Found {V}. Arguments Listed {V}. Arguments Failed {V}.

Section machine.
Context {V : Type}.
Implicit Types (m : str → option V).

Definition with_record m (id : str) (o : option V) : str → option V :=
  λ k, if decide (k = id) then o else m k.

(** One request on the abstract records. *)
Inductive spec_step m : request V → answer V → (str → option V) → Prop :=
  | spec_put id v : spec_step m (Put id v) Done (with_record m id (Some v))
  | spec_delete id existed : (is_Some (m id) → existed = true) →
      spec_step m (Delete id) (Deleted existed) (with_record m id None)
  | spec_get id : spec_step m (Get id) (Found (m id)) m
  | spec_list ids vs : NoDup ids → Forall2 (λ id v, m id = Some v) ids vs →
      (∀ v, v ∈ vs ↔ ∃ id, m id = Some v) →
      spec_step m ListAll (Listed vs) m
  | spec_fail r e : spec_step m r (Failed e) m.

Inductive spec_run : (str → option V) → list (request V) → list (answer V) → (str → option V) → Prop :=
  | spec_nil m : spec_run m [] [] m
  | spec_cons m m1 m2 r rs a ans : spec_step m r a m1 → spec_run m1 rs ans m2 →
      spec_run m (r :: rs) (a :: ans) m2.
End machine.

Section refinement.
Context {V : Type}.
Context (to_json : V → result str (list N)) (from_json : list N → result str V).
Context (fault : nat → bool) (torn : nat → option (list N)) (io_error : str).
Context (dir : path).
Hypothesis json_roundtrip : ∀ v b, to_json v = Ok b → from_json b = Ok v.
Hypothesis dir_plain : Forall plain_component dir.

Local Abbreviation view := (view from_json dir).

(** The store answering a request, and a sequence of them. *)
Definition serve (r : request V) (s : Fs) : Fs * answer V :=
  match r with
  | Put id v => let '(s, r) := JsonStore.put to_json fault torn io_error dir id v s in
                (s, match r with Ok _ => Done | Err e => Failed e end)
  | Delete id => let '(s, r) := JsonStore.delete fault io_error dir id s in
                 (s, match r with Ok b => Deleted b | Err e => Failed e end)
  | Get id => let '(s, r) := JsonStore.get from_json fault io_error dir id s in
              (s, match r with Ok o => Found o | Err e => Failed e end)
  | ListAll => let '(s, r) := JsonStore.list from_json fault io_error dir s in
               (s, match r with Ok vs => Listed vs | Err e => Failed e end)
  end.
Fixpoint serve_all (rs : list (request V)) (s : Fs) : Fs * list (answer V) :=
  match rs with
  | [] => (s, [])
  | r :: rs => let '(s, a) := serve r s in let '(s, ans) := serve_all rs s in (s, a :: ans)
  end.

(** The files stand for the records [m]. *)
Definition stands (s : Fs) (m : str → option V) : Prop := wf s ∧ ∀ k, view s k = m k.

(** The answer names the record of an id that has a value. *)
Lemma view_file s id : is_Some (view s id) → is_Some (files s !! rec_path dir id).
Proof.
  unfold StoreProofs.view. destruct (is_ok _); [|by intros []].
  destruct (files s !! _); [by eexists|by intros []].
Qed.

Lemma serve_refines r s m s' a :
  stands s m → serve r s = (s', a) → ∃ m', spec_step m r a m' ∧ stands s' m'.
Proof.
  intros [Hwf Hv]. destruct r as [id v|id|id|]; simpl.
  - destruct (JsonStore.put _ _ _ _ _ _ _ _) as [s1 r] eqn:E. intros [= <- <-].
    pose proof (put_view _ _ _ _ _ _ json_roundtrip dir_plain _ _ _ _ _ E Hwf) as [Ho Hr].
    pose proof (put_spec _ _ _ _ _ _ json_roundtrip dir_plain _ _ _ _ _ E Hwf) as [Hwf1 _].
    destruct r as [[]|e].
    + eexists. split; [constructor|]. split; [done|]. intros k. unfold with_record.
      case_decide; [by subst|]. by rewrite Ho, Hv.
    + exists m. split; [constructor|]. split; [done|]. intros k. rewrite <- Hv.
      destruct (decide (k = id)) as [->|]; [done|by apply Ho].
  - destruct (JsonStore.delete _ _ _ _ _) as [s1 r] eqn:E. intros [= <- <-].
    pose proof (delete_view _ _ _ _ _ json_roundtrip dir_plain _ _ _ _ E Hwf) as Hd.
    pose proof (delete_spec _ _ _ _ _ json_roundtrip dir_plain _ _ _ _ E Hwf) as [Hwf1 Hs].
    destruct r as [b|e].
    + eexists. split; [constructor|split; [done|]].
      * intros Hsome. destruct Hs as (_ & _ & Hb & _). apply Hb, view_file. by rewrite Hv.
      * intros k. unfold with_record. rewrite Hd. by case_decide.
    + exists m. split; [constructor|]. split; [done|]. intros k. rewrite Hd, Hv. by case_decide.
  - destruct (JsonStore.get _ _ _ _ _ _) as [s1 r] eqn:E. intros [= <- <-].
    apply (get_spec _ _ _ _ _ json_roundtrip dir_plain) in E as (Hf & Hd & Hr); [|done]. exists m. split.
    + destruct r as [o|e]; [|constructor]. destruct (Hr o eq_refl) as [_ ->]. rewrite Hv. constructor.
    + split; [by eapply wf_ext|]. intros k. rewrite <- Hv. apply view_ext. by rewrite Hf.
  - destruct (JsonStore.list _ _ _ _ _) as [s1 r] eqn:E. intros [= <- <-].
    pose proof (list_spec _ _ _ _ _ json_roundtrip dir_plain _ _ _ E Hwf) as (Hf & Hd & Hr). exists m. split.
    + destruct r as [vs|e]; [|constructor]. apply (list_once_spec _ _ _ _ _ json_roundtrip dir_plain) in E as (ids & Hn & Hids).
      apply (spec_list m ids); [done| |].
      * eapply Forall2_impl; [exact Hids|]. cbv beta. intros i v. by rewrite Hv.
      * intros v. rewrite (Hr vs eq_refl v). by setoid_rewrite Hv.
    + split; [by eapply wf_ext|]. intros k. rewrite <- Hv. apply view_ext. by rewrite Hf.
Qed.

Lemma serve_all_refines rs s m s' ans :
  stands s m → serve_all rs s = (s', ans) → ∃ m', spec_run m rs ans m' ∧ stands s' m'.
Proof.
  revert s m ans. induction rs as [|r rs IH]; intros s m ans Hs; simpl.
  { intros [= <- <-]. exists m. split; [constructor|done]. }
  destruct (serve r s) as [s1 a] eqn:E1. destruct (serve_all rs s1) as [s2 l] eqn:E2.
  intros [= <- <-]. destruct (serve_refines _ _ _ _ _ Hs E1) as (m1 & H1 & Hs1).
  destruct (IH _ _ _ Hs1 E2) as (m2 & H2 & Hs2). exists m2. split; [by econstructor|done].
Qed.

(** ** Without failures every request is answered *)

Definition sound_request (r : request V) : Prop :=
  match r with
  | Put id v => plain_id id ∧ ∃ b, to_json v = Ok b
  | Delete id => plain_id id
  | Get id => plain_id id
  | ListAll => True
  end.
(** Every record file parses; what [put] writes does. *)
Definition clean (s : Fs) : Prop :=
  ∀ id b, plain_id id → files s !! rec_path dir id = Some b → ∃ v, from_json b = Ok v.

Lemma delete_answers id s : (∀ n, fault n = false) → plain_id id →
  ∃ s' b, JsonStore.delete fault io_error dir id s = (s', Ok b).
Proof.
  intros Hno Hid. unfold JsonStore.delete, mbind, io_bind.
  destruct (JsonStore.record_path fault io_error dir id false s) as [s1 r] eqn:E.
  apply (record_path_total _ _ _ _ _ json_roundtrip dir_plain) in E as [o ->]; [|done]. destruct o as [p|]; [|by eexists _, _].
  unfold JsonStore.io_op. rewrite Hno. simpl. destruct (files s1 !! p); by eexists _, _.
Qed.
Lemma get_answers id s : (∀ n, fault n = false) → plain_id id → clean s →
  ∃ s' o, JsonStore.get from_json fault io_error dir id s = (s', Ok o).
Proof.
  intros Hno Hid Hc. unfold JsonStore.get, mbind at 1, io_bind at 1.
  destruct (JsonStore.record_path fault io_error dir id false s) as [s1 r] eqn:E.
  destruct (record_path_total _ _ _ _ _ json_roundtrip dir_plain _ _ _ _ Hid E) as [o ->].
  apply (record_path_spec _ _ _ _ _ json_roundtrip dir_plain) in E as (Hf & _ & E). destruct o as [p|]; [|by eexists _, _].
  destruct E as (-> & _ & _). unfold JsonStore.io_op. rewrite Hno. simpl. rewrite Hf.
  destruct (files s !! rec_path dir id) as [b|] eqn:Eb; [|by eexists _, _].
  destruct (Hc id b Hid Eb) as [v Hj].  rewrite Hj. by eexists _, _.
Qed.

Lemma read_all_answers d names out s : (∀ n, fault n = false) →
  (∀ n, n ∈ names → is_Some (files s !! (d ++ [n]))) →
  ∃ s' vs, JsonStore.read_all from_json fault io_error d out names s = (s', Ok vs).
Proof.
  intros Hno. revert out s. induction names as [|n names IH]; intros out s Hn; cbn [JsonStore.read_all].
  { by eexists _, _. }
  unfold JsonStore.io_op at 1. rewrite Hno. cbv beta zeta.
  set (s1 := mkFs _ _ _). assert (files s1 = files s) as Hf1 by done. clearbody s1.
  destruct (JsonStore.is_record n); simpl.
  2: { apply IH. intros k Hk. rewrite Hf1. apply Hn. by right. }
  unfold mbind, io_bind, JsonStore.io_op. rewrite Hno. simpl. rewrite Hf1.
  destruct (Hn n ltac:(by left)) as [b ->].
  destruct (from_json b); apply IH; intros k Hk; simpl; rewrite ?Hf1; apply Hn; by right.
Qed.

Lemma list_answers s : (∀ n, fault n = false) →
  ∃ s' vs, JsonStore.list from_json fault io_error dir s = (s', Ok vs).
Proof.
  intros Hno. unfold JsonStore.list, mbind, io_bind.
  destruct (JsonStore.resolve_dir fault io_error dir false s) as [s1 r] eqn:E.
  apply (resolve_dir_spec _ _ _ _ _ json_roundtrip dir_plain) in E as (_ & _ & E). destruct r as [[d|]|e]; [|by eexists _, _|done].
  unfold JsonStore.io_op. rewrite Hno. apply read_all_answers; [done|].
  intros n Hn. by apply elem_of_entries in Hn.
Qed.

Lemma serve_answers r s s' a : (∀ n, fault n = false) → wf s → clean s → sound_request r →
  serve r s = (s', a) → wf s' ∧ clean s' ∧ ∀ e, a ≠ Failed e.
Proof.
  intros Hno Hwf Hc Hr. destruct r as [id v|id|id|]; simpl.
  - destruct Hr as [Hid [b Hb]]. destruct (put_total _ _ _ torn io_error _ json_roundtrip dir_plain id v b s Hno Hid Hb) as [s1 E].
    rewrite E. intros [= <- <-].
    apply (put_spec _ _ _ _ _ _ json_roundtrip dir_plain) in E as (Hwf1 & _ & (b' & Hb' & Hl) & Hp); [|done]. split_and!; [done| |done].
    intros k c Hk. destruct (decide (k = id)) as [->|Hki].
    + rewrite Hl. intros [= <-]. exists v. by apply json_roundtrip.
    + rewrite Hp; [by apply Hc| |by apply not_eq_sym, rec_tmp_path]. by intros ?%rec_path_inj.
  - destruct (delete_answers id s Hno Hr) as (s1 & b & E). rewrite E. intros [= <- <-].
    apply (delete_spec _ _ _ _ _ json_roundtrip dir_plain) in E as (Hwf1 & _ & Hn & _ & Hp); [|done]. split_and!; [done| |done].
    intros k c Hk. destruct (decide (k = id)) as [->|Hki]; [by rewrite Hn|].
    rewrite Hp; [by apply Hc|]. by intros ?%rec_path_inj.
  - destruct (get_answers id s Hno Hr Hc) as (s1 & o & E). rewrite E. intros [= <- <-].
    apply (get_spec _ _ _ _ _ json_roundtrip dir_plain) in E as (Hf & Hd & _); [|done]. split_and!; [by eapply wf_ext| |done].
    intros k c. rewrite Hf. apply Hc.
  - destruct (list_answers s Hno) as (s1 & vs & E). rewrite E. intros [= <- <-].
    apply (list_spec _ _ _ _ _ json_roundtrip dir_plain) in E as (Hf & Hd & _); [|done]. split_and!; [by eapply wf_ext| |done].
    intros k c. rewrite Hf. apply Hc.
Qed.

Lemma serve_all_answers rs s s' ans : (∀ n, fault n = false) → wf s → clean s → Forall sound_request rs →
  serve_all rs s = (s', ans) → Forall (λ a, ∀ e, a ≠ Failed e) ans.
Proof.
  intros Hno. revert s ans. induction rs as [|r rs IH]; intros s ans Hwf Hc Hr; simpl.
  { intros [= <- <-]. constructor. }
  apply Forall_cons in Hr as [Hr Hrs].
  destruct (serve r s) as [s1 a] eqn:E1. destruct (serve_all rs s1) as [s2 l] eqn:E2.
  intros [= <- <-]. destruct (serve_answers _ _ _ _ Hno Hwf Hc Hr E1) as (Hwf1 & Hc1 & Ha).
  constructor; [done|]. by eapply IH.
Qed.

(** C16: the JSON files implement a map of records. From files that stand for the
    records [m], any sequence of puts, deletes, gets and listings, with I/O
    operations failing at any point and torn writes, gives answers that the map
    gives too, each request either done as a whole or failed without effect, and
    leaves files that stand for the map's last state; when no operation fails and
    the ids and values are sound, no request is answered with an error. *)
Theorem store_refines rs s m s' ans :
  stands s m → serve_all rs s = (s', ans) →
  (∃ m', spec_run m rs ans m' ∧ stands s' m') ∧
  ((∀ n, fault n = false) → clean s → Forall sound_request rs → Forall (λ a, ∀ e, a ≠ Failed e) ans).
Proof.
  intros Hs E. split; [by eapply serve_all_refines|]. intros Hno Hc Hr.
  eapply (serve_all_answers rs s); [done|apply Hs|done..].
Qed.
End refinement.

(** Three requests on a disk whose second write fails. *)
Lemma store_refines_witness :
  let serve := serve_all byte_json byte_of_json (λ n, bool_decide (n = 5%nat)) (λ _, None) (lit "no space left") users_dir in
  let calls := [Put (lit "u1") 7%N; Put (lit "u1") 8%N; Get (lit "u1")] in
  ∃ m', (∃ e, (serve calls empty_fs).2 = [Done; Failed e; Found (Some 7%N)]) ∧
    spec_run (λ _, None) calls (serve calls empty_fs).2 m' ∧ stands byte_of_json users_dir (serve calls empty_fs).1 m'.
Proof.
  cbv zeta.
  assert (stands byte_of_json users_dir empty_fs (λ _, None)) as Hs.
  { split; [by intros p b H|]. intros k. unfold view. by destruct (is_ok _). }
  destruct (serve_all byte_json byte_of_json _ _ _ _ _ empty_fs) as [s' ans] eqn:E.
  destruct (store_refines byte_json byte_of_json _ _ _ users_dir byte_roundtrip users_dir_plain _ _ _ _ _ Hs E)
    as [(m' & Hr & Hs') _].
  exists m'. split; [|by split]. apply (f_equal snd) in E. cbn [snd] in *. rewrite <- E. eexists. reflexivity.
Defined.
