(* ===== verification/Cache.v ===== *)
(** * Services: state, errors and the write-through cache

    A service method is a computation over the service's state that may fail;
    [&self] methods that take the mutation lock run one after the other, so each
    is one such computation.  Most services keep a map in memory in front of
    their [JsonStore]: [persist] and [evict] are the two ways they change it
    (store first, then the map), and [load] fills the map at startup. *)

From Stdlib Require Export Sorted.
From S2P Require Export StoreSpec.

(** ** Computations of a service *)

Definition Svc (S A : Type) : Type := S → S * ApiResult A.
#[export] Instance svc_ret S : MRet (Svc S) := λ A a s, (s, Ok a).
#[export] Instance svc_bind S : MBind (Svc S) := λ A B f m s,
  match m s with
  | (s, Ok a) => f a s
  | (s, Err e) => (s, Err e)
  end.
Definition fail {S A} (e : AppError) : Svc S A := λ s, (s, Err e).
Definition lift {S A} (r : ApiResult A) : Svc S A := λ s, (s, r).
Definition gets {S A} (f : S → A) : Svc S A := λ s, (s, Ok (f s)).
Definition modify {S} (f : S → S) : Svc S unit := λ s, (f s, Ok tt).

(** [let _ = m.await;], a call whose outcome is looked at, and a clean-up that
    runs when [m] fails. *)
Definition ignore {S A} (m : Svc S A) : Svc S unit := λ s, ((m s).1, Ok tt).
Definition attempt {S A} (m : Svc S A) : Svc S (ApiResult A) := λ s, ((m s).1, Ok (m s).2).
Definition on_error {S A} (m : Svc S A) (cleanup : Svc S unit) : Svc S A := λ s,
  match m s with
  | (s, Ok a) => (s, Ok a)
  | (s, Err e) => ((cleanup s).1, Err e)
  end.
(** [for x in l { f(x).await?; }] and the same with outcomes ignored. *)
Fixpoint each {S A} (f : A → Svc S unit) (l : list A) : Svc S unit :=
  match l with
  | [] => mret tt
  | x :: l => _ ← f x; each f l
  end.

Lemma svc_bind_ok {S A B} (m : Svc S A) (f : A → Svc S B) (s s' : S) (b : B) :
  mbind f m s = (s', Ok b) ↔ ∃ s1 a, m s = (s1, Ok a) ∧ f a s1 = (s', Ok b).
Proof.
  unfold mbind, svc_bind. destruct (m s) as [s1 [a|e]]; [naive_solver|].
  split; [done|]. naive_solver.
Qed.

Lemma svc_bind_err {S A B} (m : Svc S A) (f : A → Svc S B) (s s' : S) (e : AppError) :
  mbind f m s = (s', Err e) ↔
  m s = (s', Err e) ∨ ∃ s1 a, m s = (s1, Ok a) ∧ f a s1 = (s', Err e).
Proof. unfold mbind, svc_bind. destruct (m s) as [s1 [a|e']]; naive_solver. Qed.

Lemma svc_bind_run {S A B} (m : Svc S A) (f : A → Svc S B) (s s1 : S) (a : A) :
  m s = (s1, Ok a) → mbind f m s = f a s1.
Proof. intros H. unfold mbind, svc_bind. by rewrite H. Qed.

(** A property of the state that every outcome of a computation keeps. *)
Definition keeps {S A} (I : S → Prop) (m : Svc S A) : Prop :=
  ∀ s s' r, m s = (s', r) → I s → I s'.

Lemma keeps_bind {S A B} (I : S → Prop) (m : Svc S A) (f : A → Svc S B) :
  keeps I m → (∀ a, keeps I (f a)) → keeps I (mbind f m).
Proof.
  intros Hm Hf s s' r. unfold mbind, svc_bind.
  destruct (m s) as [s1 [a|e]] eqn:E; intros H Hs.
  - eapply Hf; [done|]. by eapply Hm.
  - simplify_eq. by eapply Hm.
Qed.
Lemma keeps_lift {S A} (I : S → Prop) (r : ApiResult A) : keeps I (lift r).
Proof. by intros s s' r' [= -> _]. Qed.
Lemma keeps_gets {S A} (I : S → Prop) (f : S → A) : keeps I (gets f).
Proof. by intros s s' r' [= -> _]. Qed.
Lemma keeps_fail {S A} (I : S → Prop) (e : AppError) : keeps I (fail (A:=A) e).
Proof. by intros s s' r' [= -> _]. Qed.
Lemma keeps_ret {S A} (I : S → Prop) (a : A) : keeps I (mret a : Svc S A).
Proof. by intros s s' r' [= -> _]. Qed.
Lemma keeps_modify {S} (I : S → Prop) (f : S → S) : (∀ s, I s → I (f s)) → keeps I (modify f).
Proof. intros Hf s s' r [= <- _]. apply Hf. Qed.
Lemma keeps_attempt {S A} (I : S → Prop) (m : Svc S A) : keeps I m → keeps I (attempt m).
Proof. intros Hm s s' r [= <- _]. destruct (m s) as [s1 r1] eqn:E. by eapply Hm. Qed.
Lemma keeps_ignore {S A} (I : S → Prop) (m : Svc S A) : keeps I m → keeps I (ignore m).
Proof. intros Hm s s' r [= <- _]. destruct (m s) as [s1 r1] eqn:E. by eapply Hm. Qed.
Lemma keeps_on_error {S A} (I : S → Prop) (m : Svc S A) (c : Svc S unit) :
  keeps I m → keeps I c → keeps I (on_error m c).
Proof.
  intros Hm Hc s s' r. unfold on_error. destruct (m s) as [s1 [a|e]] eqn:E; intros [= <- <-] Hs.
  - by eapply Hm.
  - destruct (c s1) as [s2 r2] eqn:E2. eapply Hc; [exact E2|]. by eapply Hm.
Qed.
Lemma keeps_each {S A} (I : S → Prop) (f : A → Svc S unit) (l : list A) :
  (∀ a, keeps I (f a)) → keeps I (each f l).
Proof.
  intros Hf. induction l as [|a l IH]; simpl; [apply keeps_ret|]. by apply keeps_bind.
Qed.
#[export] Hint Resolve keeps_bind keeps_lift keeps_gets keeps_fail keeps_ret keeps_modify
  keeps_attempt keeps_ignore keeps_on_error keeps_each : daygle.

(** ** Sorted listings *)

(** [Ord for str]: byte-wise, which on UTF-8 is by code points. *)
Fixpoint str_cmp (a b : str) : comparison :=
  match a, b with
  | [], [] => Eq
  | [], _ :: _ => Lt
  | _ :: _, [] => Gt
  | x :: a, y :: b => match (x ?= y)%N with Eq => str_cmp a b | c => c end
  end.

(** [Ordering::then]. *)
Definition then_ (a b : comparison) : comparison := match a with Eq => b | c => c end.

(** [sort_by], a stable sort. *)
Section sort_by.
Context {A : Type} (cmp : A → A → comparison).

Fixpoint insert_by (x : A) (l : list A) : list A :=
  match l with
  | [] => [x]
  | y :: l' => match cmp x y with Gt => y :: insert_by x l' | _ => x :: l end
  end.
Definition sort_by (l : list A) : list A := foldr insert_by [] l.

Lemma insert_by_perm x l : insert_by x l ≡ₚ x :: l.
Proof.
  induction l as [|y l IH]; simpl; [done|]. destruct (cmp x y); try done.
  rewrite IH. constructor.
Qed.

Lemma sort_by_perm l : sort_by l ≡ₚ l.
Proof. induction l as [|x l IH]; simpl; [done|]. by rewrite insert_by_perm, IH. Qed.

Lemma elem_of_sort_by l x : x ∈ sort_by l ↔ x ∈ l.
Proof. by rewrite sort_by_perm. Qed.

(** Sorted, when the comparison is a total preorder. *)
Lemma sort_by_sorted l :
  (∀ x y, cmp x y = Gt → cmp y x ≠ Gt) →
  (∀ x y z, cmp x y ≠ Gt → cmp y z ≠ Gt → cmp x z ≠ Gt) →
  StronglySorted (λ x y, cmp x y ≠ Gt) (sort_by l).
Proof.
  intros Htot Htrans. induction l as [|x l IH]; simpl; [constructor|].
  induction IH as [|y l' Hs IH' Hy]; simpl; [by repeat constructor|].
  destruct (cmp x y) eqn:E.
  1,2: constructor; [by constructor|]; constructor; [congruence|];
       eapply Forall_impl; [exact Hy|]; intros z Hz; eapply Htrans; [|exact Hz]; congruence.
  constructor; [done|]. apply Forall_forall. intros z Hz. rewrite insert_by_perm in Hz.
  apply elem_of_cons in Hz as [->|Hz]; [by apply Htot|]. by eapply Forall_forall in Hy.
Qed.
End sort_by.

(** The first [n] of a sorted list against the rest. *)
Lemma sorted_take_drop {A} (R : A → A → Prop) (l : list A) (n : nat) :
  StronglySorted R l → ∀ x y, x ∈ take n l → y ∈ drop n l → R x y.
Proof.
  intros H. revert n. induction H as [|a l _ IH Ha]; intros [|n] x y; simpl;
    rewrite ?elem_of_nil; try done.
  intros [->|Hx]%elem_of_cons Hy; [|by eapply IH].
  eapply Forall_forall in Ha; [exact Ha|]. rewrite <- (take_drop n l). set_solver.
Qed.

(** [str_cmp] is a total order. *)
Lemma str_cmp_opp (a b : str) : str_cmp b a = CompOpp (str_cmp a b).
Proof.
  revert b; induction a as [|x a IH]; intros [|y b]; simpl; try done.
  rewrite N.compare_antisym. destruct (x ?= y)%N; simpl; [apply IH|done|done].
Qed.
Lemma str_cmp_trans (a b c : str) : str_cmp a b ≠ Gt → str_cmp b c ≠ Gt → str_cmp a c ≠ Gt.
Proof.
  revert b c; induction a as [|x a IH]; intros [|y b] [|z c]; simpl; try done.
  destruct (x ?= y)%N eqn:E1; [apply N.compare_eq in E1 as <-| |done].
  - destruct (x ?= z)%N; [apply IH|done|done].
  - intros _. destruct (y ?= z)%N eqn:E2;
      [apply N.compare_eq in E2 as <-| |done]; intros _.
    + by rewrite E1.
    + assert ((x ?= z)%N = Lt) as ->; [|done].
      change (x < z)%N. change (x < y)%N in E1. change (y < z)%N in E2. lia.
Qed.
Lemma str_cmp_total (a b : str) : str_cmp a b = Gt → str_cmp b a ≠ Gt.
Proof. rewrite (str_cmp_opp a b). by intros ->. Qed.

(** ** The write-through cache *)
Section cache.
Context {V : Type} `{RS : RecordStore V}.

Record Cached := mkCached { disk : rstate; cache : gmap str V }.

(** [self.store.put(id, &v).await?; cache.insert(id, v);] *)
Definition persist (id : str) (v : V) : Svc Cached unit := λ s,
  match store_put id v (disk s) with
  | (d, Ok _) => (mkCached d (<[id := v]> (cache s)), Ok tt)
  | (d, Err e) => (mkCached d (cache s), Err e)
  end.

(** [self.store.delete(id).await?; cache.remove(id);] *)
Definition evict (id : str) : Svc Cached unit := λ s,
  match store_delete id (disk s) with
  | (d, Ok _) => (mkCached d (delete id (cache s)), Ok tt)
  | (d, Err e) => (mkCached d (cache s), Err e)
  end.

(** The cache shows exactly the records on disk. *)
Definition coherent (s : Cached) : Prop := ∀ id, record (disk s) id = cache s !! id.

(** Every record on disk is in the cache. *)
Definition covered (s : Cached) : Prop :=
  ∀ id v, record (disk s) id = Some v → cache s !! id = Some v.

Lemma coherent_covered s : coherent s → covered s.
Proof. intros H id v. by rewrite H. Qed.

Lemma persist_coherent id v : keeps coherent (persist id v).
Proof.
  intros s s' r. unfold persist. destruct (store_put id v (disk s)) as [d [[]|e]] eqn:E;
    intros [= <- <-] Hs k; simpl.
  - rewrite (put_ok _ _ _ _ E). case_decide; simplify_map_eq; [done|apply Hs].
  - rewrite (put_err _ _ _ _ _ E). apply Hs.
Qed.

Lemma evict_coherent id : keeps coherent (evict id).
Proof.
  intros s s' r. unfold evict. destruct (store_delete id (disk s)) as [d [b|e]] eqn:E;
    intros [= <- <-] Hs k; simpl.
  - rewrite (delete_ok _ _ _ _ E). case_decide; simplify_map_eq; [done|apply Hs].
  - rewrite (delete_err _ _ _ _ E). apply Hs.
Qed.

Lemma persist_covered id v : keeps covered (persist id v).
Proof.
  intros s s' r. unfold persist. destruct (store_put id v (disk s)) as [d [[]|e]] eqn:E;
    intros [= <- <-] Hs k w; simpl.
  - rewrite (put_ok _ _ _ _ E). case_decide; simplify_map_eq; [done|apply Hs].
  - rewrite (put_err _ _ _ _ _ E). apply Hs.
Qed.

Lemma evict_covered id : keeps covered (evict id).
Proof.
  intros s s' r. unfold evict. destruct (store_delete id (disk s)) as [d [b|e]] eqn:E;
    intros [= <- <-] Hs k w; simpl.
  - rewrite (delete_ok _ _ _ _ E). case_decide; simplify_map_eq; [done|]. apply Hs.
  - rewrite (delete_err _ _ _ _ E). apply Hs.
Qed.

Lemma persist_result id v s s' r :
  persist id v s = (s', r) →
  cache s' = match r with Ok _ => <[id := v]> (cache s) | Err _ => cache s end.
Proof. unfold persist. by destruct (store_put id v (disk s)) as [d [[]|e]]; intros [= <- <-]. Qed.

Lemma evict_result id s s' r :
  evict id s = (s', r) →
  cache s' = match r with Ok _ => delete id (cache s) | Err _ => cache s end.
Proof. unfold evict. by destruct (store_delete id (disk s)) as [d [[]|e]]; intros [= <- <-]. Qed.

(** Startup: every stored record into the map, under its own id. *)
Context (id_of : V → str).

Definition insert_all (vs : list V) (m : gmap str V) : gmap str V :=
  foldl (λ m v, <[id_of v := v]> m) m vs.

Definition load : Svc Cached unit := λ s,
  match store_list (disk s) with
  | (d, Ok vs) => (mkCached d (insert_all vs (cache s)), Ok tt)
  | (d, Err e) => (mkCached d (cache s), Err e)
  end.

(** Records are filed under their own id. *)
Definition keyed (s : Cached) : Prop :=
  (∀ id v, record (disk s) id = Some v → id_of v = id) ∧
  (∀ id v, cache s !! id = Some v → id_of v = id).

Lemma insert_all_lookup (vs : list V) (m : gmap str V) (id : str) :
  (∀ v w, v ∈ vs → w ∈ vs → id_of v = id_of w → v = w) →
  insert_all vs m !! id =
    match list_find (λ v, id_of v = id) vs with
    | Some (_, v) => Some v
    | None => m !! id
    end.
Proof.
  revert m; induction vs as [|v vs IH]; intros m Hu; [done|]. simpl.
  rewrite IH by (intros; apply Hu; set_solver).
  destruct (list_find (λ v, id_of v = id) vs) as [[i w]|] eqn:E.
  - apply list_find_Some in E as (Hw & Hid & _). apply list_elem_of_lookup_2 in Hw.
    destruct (decide (id_of v = id)) as [Hv|Hv]; simpl; [|done].
    f_equal. apply Hu; [set_solver|set_solver|congruence].
  - simpl. destruct (decide (id_of v = id)) as [Hv|Hv]; simpl; by simplify_map_eq.
Qed.

Lemma persist_keyed id v : id_of v = id → keeps keyed (persist id v).
Proof.
  intros Hv s s' r. unfold persist. destruct (store_put id v (disk s)) as [d [[]|e]] eqn:E;
    intros [= <- <-] [Hd Hc]; split; intros k w; simpl.
  - rewrite (put_ok _ _ _ _ E). case_decide; [naive_solver|apply Hd].
  - rewrite lookup_insert_Some. naive_solver.
  - rewrite (put_err _ _ _ _ _ E). apply Hd.
  - apply Hc.
Qed.

Lemma evict_keyed id : keeps keyed (evict id).
Proof.
  intros s s' r. unfold evict. destruct (store_delete id (disk s)) as [d [b|e]] eqn:E;
    intros [= <- <-] [Hd Hc]; split; intros k w; simpl.
  - rewrite (delete_ok _ _ _ _ E). case_decide; [done|apply Hd].
  - rewrite lookup_delete_Some. intros [_ ?]. by apply Hc.
  - rewrite (delete_err _ _ _ _ E). apply Hd.
  - apply Hc.
Qed.

(** After a load into an empty map the cache is what is on disk. *)
Lemma load_coherent s s' :
  cache s = ∅ → (∀ id v, record (disk s) id = Some v → id_of v = id) →
  load s = (s', Ok tt) → coherent s' ∧ keyed s'.
Proof.
  intros Hc Hk. unfold load. destruct (store_list (disk s)) as [d [vs|e]] eqn:E; [|done].
  intros [= <-]. pose proof (list_keeps _ _ _ E) as Hkeep. pose proof (list_ok _ _ _ E) as Hvs.
  assert (∀ id, record d id = insert_all vs (cache s) !! id) as Hcoh.
  { intros id. rewrite Hkeep, insert_all_lookup, Hc.
    - rewrite lookup_empty.
      destruct (list_find (λ v, id_of v = id) vs) as [[i v]|] eqn:Ef.
      + apply list_find_Some in Ef as (Hv & <- & _). apply list_elem_of_lookup_2, Hvs in Hv as [k Hv].
        by rewrite (Hk _ _ Hv).
      + apply list_find_None in Ef. destruct (record (disk s) id) as [v|] eqn:Er; [|done].
        exfalso. assert (v ∈ vs) as Hin by (apply Hvs; eauto).
        apply (proj1 (Forall_forall _ _) Ef _ Hin). eauto.
    - intros v w [i Hi]%Hvs [j Hj]%Hvs Heq.
      rewrite <- (Hk _ _ Hi), Heq, (Hk _ _ Hj) in Hi. congruence. }
  split; [exact Hcoh|]. split; simpl.
  - intros id v. rewrite Hkeep. apply Hk.
  - intros id v. rewrite <- Hcoh, Hkeep. apply Hk.
Qed.
End cache.

(** [map.values()]. *)
Definition values {V} (m : gmap str V) : list V := (map_to_list m).*2.

Lemma elem_of_values {V} (m : gmap str V) (v : V) : v ∈ values m ↔ ∃ id, m !! id = Some v.
Proof.
  unfold values. rewrite list_elem_of_fmap. split.
  - intros ([k w] & -> & H). apply elem_of_map_to_list in H. eauto.
  - intros [id H]. exists (id, v). by rewrite elem_of_map_to_list.
Qed.

#[export] Instance list_filter_perm {A} (p : A → bool) :
  Proper (Permutation ==> Permutation) (List.filter p).
Proof.
  intros l l' H. induction H as [|x l l' _ IH|x y l|l1 l2 l3 _ IH1 _ IH2]; simpl.
  - done.
  - destruct (p x); [by constructor|done].
  - destruct (p x), (p y); try done. constructor.
  - by transitivity (List.filter p l2).
Qed.

Lemma values_lookup {V} (m : gmap str V) (id : str) (v : V) :
  m !! id = Some v → values m ≡ₚ v :: values (delete id m).
Proof.
  intros H. unfold values. rewrite <- (insert_delete_id _ _ _ H) at 1.
  by rewrite map_to_list_insert by apply lookup_delete_eq.
Qed.

#[global] Arguments Cached V {RS}.
#[global] Arguments mkCached {V RS} disk cache.
#[export] Hint Resolve persist_keyed evict_keyed persist_coherent evict_coherent persist_covered evict_covered : daygle.

(** Times printed as a sign and a number, for concrete inputs. *)
Definition sample_print (t : Z) : str :=
  if (t <? 0)%Z then [1%N; Z.to_N (- t)] else [0%N; Z.to_N t].
Definition sample_parse (s : str) : option Z :=
  match s with
  | [sign; n] => Some (if (sign =? 1)%N then - Z.of_N n else Z.of_N n)%Z
  | _ => None
  end.
Lemma sample_parse_print (t : Z) : sample_parse (sample_print t) = Some t.
Proof.
  unfold sample_print, sample_parse. destruct (t <? 0)%Z eqn:E; bool_prop; simpl; f_equal; lia.
Qed.
