(* ===== verification/Rbac.v ===== *)
(** * Roles, permissions and path-scoped grants

    The role table of [services/auth.rs], the grants of [services/acl.rs] and the
    check of [auth/mod.rs]: a request is authorized when some grant that covers
    the path of the resource carries a role with the permission. *)

From S2P Require Export Validate.

(** [daygleve_schema::auth::Permission]. *)
Inductive Permission :=
  | VmRead | VmWrite | VmPower | LxcRead | LxcWrite | LxcPower
  | StorageRead | StorageWrite | NetworkRead | NetworkWrite | GpuRead | GpuWrite
  | MetricsRead | OperationsRead | OperationsWrite | BackupRead | BackupWrite
  | PoolRead | PoolWrite | NotificationRead | NotificationWrite
  | TlsRead | TlsWrite | AuditRead | UserAdmin.
Inductive Role := Admin | Operator | Viewer.

#[export] Instance Permission_eq_dec : EqDecision Permission.
Proof. solve_decision. Defined.
#[export] Instance Role_eq_dec : EqDecision Role.
Proof. solve_decision. Defined.

(** The table inside [effective_permissions]. *)
Definition role_permissions (role : Role) : list Permission :=
  match role with
  | Admin =>
      [VmRead; VmWrite; VmPower; LxcRead; LxcWrite; LxcPower; StorageRead; StorageWrite;
       NetworkRead; NetworkWrite; GpuRead; GpuWrite; MetricsRead; OperationsRead;
       OperationsWrite; BackupRead; BackupWrite; PoolRead; PoolWrite; NotificationRead;
       NotificationWrite; TlsRead; TlsWrite; AuditRead; UserAdmin]
  | Operator =>
      [VmRead; VmWrite; VmPower; LxcRead; LxcWrite; LxcPower; StorageRead; StorageWrite;
       NetworkRead; NetworkWrite; GpuRead; GpuWrite; MetricsRead; OperationsRead;
       OperationsWrite; BackupRead; BackupWrite; PoolRead; PoolWrite; NotificationRead;
       NotificationWrite; TlsRead]
  | Viewer =>
      [VmRead; LxcRead; StorageRead; NetworkRead; GpuRead; MetricsRead; OperationsRead;
       BackupRead; PoolRead; NotificationRead; TlsRead]
  end.

(** [if !xs.contains(x) { xs.push(x) }]. *)
Definition push_new {A} `{EqDecision A} (xs : list A) (x : A) : list A :=
  if bool_decide (x ∈ xs) then xs else xs ++ [x].

Definition effective_permissions (roles : list Role) : list Permission :=
  foldl (λ perms role, foldl push_new perms (role_permissions role)) [] roles.

(** ** Grants *)

(** [daygleve_schema::rbac::PathGrant] and [AclEntry]. *)
Record PathGrant := mkGrant { g_path : str; g_role : Role; g_propagate : bool }.
Record AclEntry := mkEntry {
  e_id : str; e_path : str; e_subject : str; e_role : Role; e_propagate : bool;
  e_subject_username : option str; e_created_at : str }.

Definition grants_for (user_roles : list Role) (entries : list AclEntry) : list PathGrant :=
  map (λ role, mkGrant "/" role true) user_roles
  ++ map (λ e, mkGrant (e_path e) (e_role e) (e_propagate e)) entries.

Definition path_covers (grant_path target : str) (propagate : bool) : bool :=
  if grant_path =s? target then true
  else if negb propagate then false
  else if grant_path =s? "/" then true
  else starts_with (grant_path ++ "/") target.

Definition effective_permissions_at (grants : list PathGrant) (path : str) : list Permission :=
  effective_permissions
    (foldl (λ roles g,
       if path_covers (g_path g) path (g_propagate g) && negb (bool_decide (g_role g ∈ roles))
       then roles ++ [g_role g] else roles) [] grants).

Definition bad_segment (segment : str) : ApiResult unit :=
  if is_empty segment then Err (validation "path must not contain empty segments")
  else if (segment =s? ".") || (segment =s? "..") then
    Err (validation "path must not contain . or .. segments")
  else if existsb (λ c, is_control c || is_whitespace c) segment then
    Err (validation "path must not contain control characters or whitespace")
  else Ok tt.

Definition normalize_path (path : str) : ApiResult str :=
  let trimmed := trim path in
  if is_empty trimmed then Err (validation "path must not be empty")
  else
    let with_root := if starts_with "/" trimmed then trimmed else "/" ++ trimmed in
    let normalized :=
      if (1 <? len with_root)%N then trim_end_matches (ch "/") with_root else with_root in
    if is_empty normalized then Err (validation "path must not be empty")
    else if normalized =s? "/" then Ok normalized
    else for_each bad_segment (drop 1 (split (ch "/") normalized)) ;? Ok normalized.

(** ** The request check (auth/mod.rs) *)

(** [daygleve_schema::auth::User] and [CurrentUser]. *)
Record User := mkUser {
  u_id : str; u_username : str; u_roles : list Role;
  u_created_at : str; u_last_login_at : option str }.
Record CurrentUser := mkCurrent {
  c_user : User; c_permissions : list Permission; c_must_change_password : bool;
  c_two_factor_enabled : bool; c_grants : list PathGrant }.

(** [AuthUser(current, token, resource_path)]. *)
Record AuthUser := mkAuth { a_current : CurrentUser; a_token : str; a_path : str }.

(** [format!("{permission:?}")]. *)
Definition permission_name (p : Permission) : str :=
  match p with
  | VmRead => "VmRead" | VmWrite => "VmWrite" | VmPower => "VmPower"
  | LxcRead => "LxcRead" | LxcWrite => "LxcWrite" | LxcPower => "LxcPower"
  | StorageRead => "StorageRead" | StorageWrite => "StorageWrite"
  | NetworkRead => "NetworkRead" | NetworkWrite => "NetworkWrite"
  | GpuRead => "GpuRead" | GpuWrite => "GpuWrite" | MetricsRead => "MetricsRead"
  | OperationsRead => "OperationsRead" | OperationsWrite => "OperationsWrite"
  | BackupRead => "BackupRead" | BackupWrite => "BackupWrite"
  | PoolRead => "PoolRead" | PoolWrite => "PoolWrite"
  | NotificationRead => "NotificationRead" | NotificationWrite => "NotificationWrite"
  | TlsRead => "TlsRead" | TlsWrite => "TlsWrite" | AuditRead => "AuditRead"
  | UserAdmin => "UserAdmin"
  end.

Definition require_at (a : AuthUser) (permission : Permission) (path : str) : ApiResult unit :=
  let c := a_current a in
  let held :=
    match c_grants c with
    | [] => bool_decide (permission ∈ c_permissions c)
    | grants => bool_decide (permission ∈ effective_permissions_at grants path)
    end in
  if held then Ok tt
  else Err (forbidden ("missing permission " ++ permission_name permission ++ " at " ++ path)).

Definition require (a : AuthUser) (permission : Permission) : ApiResult unit :=
  require_at a permission (a_path a).

Definition resource_path_for (uri_path : str) : str :=
  let p :=
    match strip_prefix "/api/" uri_path with
    | Some rest => match split_once (ch "/") rest with Some (_, after) => after | None => [] end
    | None => uri_path
    end in
  match List.filter (λ s, negb (is_empty s)) (split (ch "/") p) with
  | [] => "/"
  | s :: ids =>
      if str_in s ["vms"; "containers"; "pools"] then
        match ids with id :: _ => "/" ++ s ++ "/" ++ id | [] => "/" ++ s end
      else "/"
  end.

(** The enrichment of a session caller in [from_request_parts]: its grants, and
    the permissions they give at the root. *)
Definition session_caller (current : CurrentUser) (entries : list AclEntry) : CurrentUser :=
  let grants := grants_for (u_roles (c_user current)) entries in
  mkCurrent (c_user current) (effective_permissions_at grants "/")
    (c_must_change_password current) (c_two_factor_enabled current) grants.

(** ** Lemmas *)

Lemma elem_of_push {A} `{EqDecision A} (xs ys : list A) (x : A) :
  x ∈ foldl push_new xs ys ↔ x ∈ xs ∨ x ∈ ys.
Proof.
  revert xs; induction ys as [|y ys IH]; intros xs; simpl; [set_solver|].
  rewrite IH. unfold push_new. case_bool_decide; set_solver.
Qed.

Lemma NoDup_push {A} `{EqDecision A} (xs ys : list A) :
  NoDup xs → NoDup (foldl push_new xs ys).
Proof.
  revert xs; induction ys as [|y ys IH]; intros xs Hxs; simpl; [done|].
  apply IH. unfold push_new. case_bool_decide; [done|].
  apply NoDup_app. split_and!; [done|set_solver|apply NoDup_singleton].
Qed.

Lemma effective_from (roles : list Role) (perms : list Permission) (p : Permission) :
  p ∈ foldl (λ perms role, foldl push_new perms (role_permissions role)) perms roles ↔
  p ∈ perms ∨ ∃ r, r ∈ roles ∧ p ∈ role_permissions r.
Proof.
  revert perms; induction roles as [|r roles IH]; intros perms; simpl; [set_solver|].
  rewrite IH, elem_of_push. set_solver.
Qed.

Lemma elem_of_effective (roles : list Role) (p : Permission) :
  p ∈ effective_permissions roles ↔ ∃ r, r ∈ roles ∧ p ∈ role_permissions r.
Proof. unfold effective_permissions. rewrite effective_from. set_solver. Qed.

Lemma NoDup_effective (roles : list Role) : NoDup (effective_permissions roles).
Proof.
  unfold effective_permissions. generalize (NoDup_nil_2 (A:=Permission)).
  generalize (@nil Permission). induction roles as [|r roles IH]; intros l Hl; simpl; [done|].
  by apply IH, NoDup_push.
Qed.

Lemma elem_of_roles_at (grants : list PathGrant) (path : str) (roles : list Role) (r : Role) :
  r ∈ foldl (λ roles g,
       if path_covers (g_path g) path (g_propagate g) && negb (bool_decide (g_role g ∈ roles))
       then roles ++ [g_role g] else roles) roles grants ↔
  r ∈ roles ∨ ∃ g, g ∈ grants ∧ path_covers (g_path g) path (g_propagate g) = true ∧ g_role g = r.
Proof.
  revert roles; induction grants as [|g grants IH]; intros roles; cbn [foldl]; [set_solver|].
  rewrite IH. clear IH. destruct (path_covers (g_path g) path (g_propagate g)) eqn:E; cbn [andb].
  - destruct (bool_decide_reflect (g_role g ∈ roles)); cbn [negb]; set_solver.
  - setoid_rewrite elem_of_cons.
    split; (intros [?|(g0 & Hg & Hc & Hr)]; [by left|right; exists g0]); [by auto|].
    destruct Hg as [->|Hg]; [congruence|done].
Qed.

Lemma elem_of_effective_at (grants : list PathGrant) (path : str) (p : Permission) :
  p ∈ effective_permissions_at grants path ↔
  ∃ g, g ∈ grants ∧ path_covers (g_path g) path (g_propagate g) = true
       ∧ p ∈ role_permissions (g_role g).
Proof.
  unfold effective_permissions_at. rewrite elem_of_effective. setoid_rewrite elem_of_roles_at.
  set_solver.
Qed.

Lemma path_covers_root (target : str) : path_covers "/" target true = true.
Proof. unfold path_covers. by destruct (_ =s? target). Qed.

Lemma require_at_ok (a : AuthUser) (p : Permission) (path : str) :
  require_at a p path = Ok tt ↔
  match c_grants (a_current a) with
  | [] => p ∈ c_permissions (a_current a)
  | grants => p ∈ effective_permissions_at grants path
  end.
Proof.
  unfold require_at. destruct (c_grants (a_current a)); rewrite if_ok_err, bool_decide_eq_true;
    naive_solver.
Qed.

Lemma elem_of_grants (roles : list Role) (entries : list AclEntry) (path : str) (p : Permission) :
  p ∈ effective_permissions_at (grants_for roles entries) path ↔
  (∃ r, r ∈ roles ∧ p ∈ role_permissions r) ∨
  (∃ e, e ∈ entries ∧ path_covers (e_path e) path (e_propagate e) = true
        ∧ p ∈ role_permissions (e_role e)).
Proof.
  rewrite elem_of_effective_at. unfold grants_for.
  setoid_rewrite elem_of_app. setoid_rewrite list_elem_of_fmap. split.
  - intros (g & [(r & -> & Hr)|(e & -> & He)] & Hc & Hp); [left|right]; eauto.
  - intros [(r & Hr & Hp)|(e & He & Hc & Hp)].
    + exists (mkGrant "/" r true). split_and!; [left; by exists r|apply path_covers_root|done].
    + exists (mkGrant (e_path e) (e_role e) (e_propagate e)).
      split_and!; [right; by exists e|done|done].
Qed.

Lemma session_require_ok (current : CurrentUser) (entries : list AclEntry)
    (token rp path : str) (p : Permission) :
  require_at (mkAuth (session_caller current entries) token rp) p path = Ok tt ↔
    (∃ r, r ∈ u_roles (c_user current) ∧ p ∈ role_permissions r) ∨
    (∃ e, e ∈ entries ∧ path_covers (e_path e) path (e_propagate e) = true
          ∧ p ∈ role_permissions (e_role e)).
Proof.
  rewrite require_at_ok. simpl.
  destruct (grants_for (u_roles (c_user current)) entries) as [|g gs] eqn:E;
    rewrite <- E, elem_of_grants; [|done].
  apply app_eq_nil in E as [Hr%map_eq_nil He%map_eq_nil]. rewrite Hr, He. set_solver.
Qed.

(** *** What a role may do and what a grant covers, stated on their own *)

Definition reading (p : Permission) : Prop :=
  p = VmRead ∨ p = LxcRead ∨ p = StorageRead ∨ p = NetworkRead ∨ p = GpuRead ∨ p = MetricsRead
  ∨ p = OperationsRead ∨ p = BackupRead ∨ p = PoolRead ∨ p = NotificationRead ∨ p = TlsRead.

(** An administrator may do everything; an operator everything but change the
    certificate, read the audit log and administer users; a viewer reads. *)
Definition role_may (role : Role) (p : Permission) : Prop :=
  match role with
  | Admin => True
  | Operator => p ≠ TlsWrite ∧ p ≠ AuditRead ∧ p ≠ UserAdmin
  | Viewer => reading p
  end.

(** A grant covers its own path and, when it propagates, everything below it. *)
Inductive covers (grant_path : str) (propagate : bool) : str → Prop :=
  | cv_same : covers grant_path propagate grant_path
  | cv_root target : propagate = true → grant_path = lit "/" → covers grant_path propagate target
  | cv_below rest : propagate = true → covers grant_path propagate (grant_path ++ ch "/" :: rest).

Lemma role_may_spec (role : Role) (p : Permission) : p ∈ role_permissions role ↔ role_may role p.
Proof.
  rewrite list_elem_of_In. unfold role_may, reading.
  destruct role, p; simpl; (split; [intros H|intros H]); try tauto; try naive_solver;
    repeat destruct H as [H|H]; try discriminate H; try done.
Qed.

Lemma covers_spec (g t : str) (propagate : bool) :
  path_covers g t propagate = true ↔ covers g propagate t.
Proof.
  unfold path_covers. destruct (str_eqb g t) eqn:E; bool_prop.
  { subst. split; [by constructor|done]. }
  destruct propagate; simpl; [|split; [done|by inversion 1]].
  destruct (str_eqb g "/") eqn:Er; bool_prop.
  { split; [intros _; by apply cv_root|done]. }
  rewrite starts_with_spec. split.
  - intros [r ->]. rewrite <- app_assoc. by apply cv_below.
  - inversion 1; subst; try done. eexists. by rewrite <- app_assoc.
Qed.

(** C9: a session caller passes the permission check at a path exactly when one
    of its own roles has the permission or an ACL entry that covers the path
    carries a role that has it: the entry's own path, or, for an entry that
    propagates, a path below it at a component boundary.  Who may do what is
    [role_may].  An account with neither is always refused (the fallback to a
    flat permission set widens nothing), and a refusal is a 403. *)
Theorem authorization_correct (current : CurrentUser) (entries : list AclEntry)
    (token rp path : str) (p : Permission) :
  let a := mkAuth (session_caller current entries) token rp in
  (require_at a p path = Ok tt ↔
    (∃ r, r ∈ u_roles (c_user current) ∧ role_may r p) ∨
    (∃ e, e ∈ entries ∧ covers (e_path e) (e_propagate e) path ∧ role_may (e_role e) p)) ∧
  (∀ e, require_at a p path = Err e → status e = 403%N).
Proof.
  split.
  - rewrite session_require_ok. setoid_rewrite role_may_spec. setoid_rewrite covers_spec. done.
  - unfold require_at. intros e. by case_match; intros [= <-].
Qed.

Lemma role_order (p : Permission) :
  (p ∈ role_permissions Viewer → p ∈ role_permissions Operator) ∧
  (p ∈ role_permissions Operator → p ∈ role_permissions Admin) ∧ p ∈ role_permissions Admin.
Proof.
  assert (∀ l l' : list Permission, forallb (λ p, bool_decide (p ∈ l')) l = true →
    p ∈ l → p ∈ l') as H.
  { intros l l' Hf Hp. apply forallb_Forall in Hf.
    apply (proj1 (Forall_forall _ _) Hf) in Hp. by apply bool_decide_eq_true in Hp. }
  split_and!; [by apply H|by apply H|].
  apply list_elem_of_In. destruct p; simpl; tauto.
Qed.

(** *** Normal paths *)

Definition good_segment (s : str) : Prop :=
  s ≠ [] ∧ s ≠ lit "." ∧ s ≠ lit ".." ∧ (ch "/" ∉ s)
  ∧ Forall (λ c, is_control c || is_whitespace c = false) s.

Definition render (segs : list str) : str :=
  match segs with [] => lit "/" | _ => flat_map (λ s, ch "/" :: s) segs end.

Lemma split_rendered (segs : list str) :
  Forall (λ s, ch "/" ∉ s) segs →
  split (ch "/") (flat_map (λ s, ch "/" :: s) segs) = [] :: segs.
Proof.
  induction 1 as [|s segs Hs _ IH]; [done|].
  cbn [flat_map app]. cbn [split]. rewrite N.eqb_refl. f_equal.
  destruct segs as [|s' segs]; [by rewrite app_nil_r, split_nosep|].
  cbn [flat_map app] in IH |- *. rewrite split_sep, split_nosep by done.
  cbn [split] in IH. rewrite N.eqb_refl in IH. by injection IH as ->.
Qed.

Lemma good_segments_plain (segs : list str) :
  Forall good_segment segs → Forall (λ s, ch "/" ∉ s) segs.
Proof. intros H. eapply Forall_impl; [exact H|]. by intros s (_ & _ & _ & ? & _). Qed.

Lemma bad_segment_ok (s : str) (x : unit) :
  ch "/" ∉ s → bad_segment s = Ok x ↔ good_segment s.
Proof.
  intros Hs. destruct x. unfold bad_segment, good_segment.
  rewrite !if_err_ok, existsb_false, orb_false_iff, !str_eqb_neq, is_empty_false.
  naive_solver.
Qed.

Lemma render_join (segs : list str) :
  segs ≠ [] → join "/" ([] :: segs) = flat_map (λ s, ch "/" :: s) segs.
Proof.
  intros _. destruct segs as [|s segs]; [done|]. revert s.
  induction segs as [|t segs IH]; intros s; [by simpl; rewrite app_nil_r|].
  specialize (IH t). cbn [join flat_map app] in IH |- *. simpl in IH |- *.
  change (lit "/") with [ch "/"] in *. simpl in IH |- *. by injection IH as ->.
Qed.

Lemma render_inj (a b : list str) :
  Forall good_segment a → Forall good_segment b → render a = render b → a = b.
Proof.
  intros Ha Hb H. apply (f_equal (split (ch "/"))) in H.
  assert (∀ l, Forall good_segment l →
    split (ch "/") (render l) = [] :: match l with [] => [[]] | _ => l end) as Hs.
  { intros [|s l] Hl; [done|]. by apply split_rendered, good_segments_plain. }
  rewrite !Hs in H by done. injection H as H.
  destruct a as [|x a], b as [|y b]; try done.
  - injection H as Hx Hb'. subst. apply Forall_cons in Hb as [[? _] _]. done.
  - injection H as Hx Ha'. subst. apply Forall_cons in Ha as [[? _] _]. done.
Qed.

Lemma starts_with_app (p r : str) : starts_with p (p ++ r) = true.
Proof. apply starts_with_spec. by eexists. Qed.

(** On normal paths a propagating grant covers exactly the subtree below it. *)
Lemma path_covers_segments (a b : list str) :
  Forall good_segment a → Forall good_segment b →
  path_covers (render a) (render b) true = true ↔ a `prefix_of` b.
Proof.
  intros Ha Hb. unfold path_covers. destruct (str_eqb (render a) (render b)) eqn:E.
  { bool_prop. apply render_inj in E as ->; done. }
  simpl. destruct a as [|x a].
  { split; [intros _; apply prefix_nil|done]. }
  assert (str_eqb (render (x :: a)) "/" = false) as ->.
  { apply str_eqb_neq. change (lit "/") with (render []). intros ?%render_inj; done. }
  bool_prop. split.
  - intros [r Hr]%starts_with_spec. apply (f_equal (split (ch "/"))) in Hr.
    change (lit "/") with [ch "/"] in Hr. rewrite <- app_assoc in Hr. cbn [app] in Hr.
    rewrite split_sep in Hr. change (render (x :: a)) with (flat_map (λ s, ch "/" :: s) (x :: a)) in Hr.
    rewrite (split_rendered (x :: a)) in Hr by (by apply good_segments_plain).
    destruct (split_cons (ch "/") r) as (p & ps & Hp). rewrite Hp in Hr.
    destruct b as [|y b].
    + injection Hr as _ Hr. by destruct a.
    + change (render (y :: b)) with (flat_map (λ s, ch "/" :: s) (y :: b)) in Hr.
      rewrite (split_rendered (y :: b)) in Hr by (by apply good_segments_plain).
      injection Hr as -> ->. by exists (p :: ps).
  - intros [[|c cs] ->].
    { by rewrite app_nil_r in E. }
    set (f := λ s : str, ch "/" :: s).
    change (render (x :: a)) with (flat_map f (x :: a)).
    change (render ((x :: a) ++ c :: cs)) with (flat_map f ((x :: a) ++ c :: cs)).
    rewrite flat_map_app.
    change (flat_map f (c :: cs)) with ([ch "/"] ++ c ++ flat_map f cs).
    change (lit "/") with [ch "/"]. rewrite app_assoc. apply starts_with_app.
Qed.

Lemma normalize_path_render (path r : str) :
  normalize_path path = Ok r → ∃ segs, Forall good_segment segs ∧ r = render segs.
Proof.
  unfold normalize_path. cbv zeta. destruct (is_empty (trim path)) eqn:He; [done|].
  set (w := if starts_with "/" (trim path) then trim path else "/" ++ trim path).
  assert (∃ w', w = ch "/" :: w') as [w' Hw].
  { unfold w. destruct (starts_with "/" (trim path)) eqn:E; [|by eexists].
    apply starts_with_spec in E as [q ->]. by exists q. }
  clearbody w. subst w.
  set (n := if (1 <? len (ch "/" :: w'))%N then _ else _).
  assert (n = [] ∨ ∃ n', n = ch "/" :: n') as Hn.
  { unfold n. case_match; [|by right; eexists]. unfold trim_end_matches.
    destruct (trim_end_by_prefix (N.eqb (ch "/")) (ch "/" :: w')) as [u Hu].
    destruct (trim_end_by _ _) as [|c t]; [by left|]. right. injection Hu as <- _. by eexists. }
  clearbody n. destruct Hn as [->|[n' ->]]; [done|]. cbn [is_empty].
  destruct (str_eqb (ch "/" :: n') "/") eqn:Es.
  { intros [= <-]. exists []. split; [done|]. by bool_prop. }
  cbn [split]. rewrite N.eqb_refl. cbn [drop]. intros H. inv_ok.
  exists (split (ch "/") n'). split.
  - apply Forall_forall. intros s Hs.
    match goal with H : Forall _ _ |- _ => apply (proj1 (Forall_forall _ _) H) in Hs as Hb end.
    eapply bad_segment_ok; [|done].
    by apply (proj1 (Forall_forall _ _) (split_no_sep (ch "/") n')).
  - destruct (split_cons (ch "/") n') as (p & ps & Hp). unfold render. rewrite Hp.
    rewrite <- render_join, <- Hp by done. change (lit "/") with [ch "/"].
    cbn [join]. rewrite Hp. rewrite <- Hp at 1. by rewrite join_split.
Qed.

Lemma render_snoc (segs : list str) :
  segs ≠ [] → Forall good_segment segs →
  ∃ s c, render segs = s ++ [c] ∧ c ≠ ch "/".
Proof.
  intros Hne Hf. destruct segs as [|x segs _] using rev_ind; [done|].
  apply Forall_app in Hf as [_ [(Hx & _ & _ & Hs & _) _]%Forall_cons].
  destruct x as [|c x _] using rev_ind; [done|].
  assert (render (segs ++ [x ++ [c]]) = flat_map (λ s, ch "/" :: s) (segs ++ [x ++ [c]])) as ->.
  { by destruct segs. }
  rewrite flat_map_app. cbn [flat_map]. rewrite app_nil_r.
  exists (flat_map (λ s, ch "/" :: s) segs ++ ch "/" :: x), c. split.
  - by rewrite <- app_assoc.
  - intros ->. apply Hs. set_solver.
Qed.

Lemma render_plain (segs : list str) :
  Forall good_segment segs → Forall (λ c, is_control c || is_whitespace c = false) (render segs).
Proof.
  intros H. destruct segs as [|s segs]; [by repeat constructor|]. unfold render.
  revert H. generalize (s :: segs). clear s segs. intros segs.
  induction 1 as [|s segs (_ & _ & _ & _ & Hs) _ IH]; [constructor|].
  cbn [flat_map]. constructor; [done|]. by apply Forall_app.
Qed.

Lemma normalize_render (segs : list str) :
  Forall good_segment segs → normalize_path (render segs) = Ok (render segs).
Proof.
  intros Hf. destruct segs as [|x segs]; [done|].
  pose proof (render_plain _ Hf) as Hp.
  destruct (render_snoc (x :: segs)) as (s & c & Hs & Hc); [done|done|].
  unfold normalize_path. cbv zeta.
  rewrite trim_none by (eapply Forall_impl; [exact Hp|]; by intros ? [_ ?]%orb_false_iff).
  assert (∃ w, render (x :: segs) = ch "/" :: w) as [w Hw] by (by eexists).
  assert (starts_with "/" (render (x :: segs)) = true) as -> by (rewrite Hw; by apply starts_with_char).
  assert (is_empty (render (x :: segs)) = false) as He by (by rewrite Hw). rewrite He.
  assert (trim_end_matches (ch "/") (render (x :: segs)) = render (x :: segs)) as ->.
  { rewrite Hs. apply trim_end_by_last. by apply N.eqb_neq. }
  assert ((if (1 <? len (render (x :: segs)))%N then render (x :: segs) else render (x :: segs))
    = render (x :: segs)) as -> by (by case_match).
  rewrite He. assert (str_eqb (render (x :: segs)) "/" = false) as ->.
  { apply str_eqb_neq. change (lit "/") with (render []). intros ?%render_inj; done. }
  change (render (x :: segs)) with (flat_map (λ s, ch "/" :: s) (x :: segs)).
  rewrite split_rendered by (by apply good_segments_plain). cbn [drop].
  assert (for_each bad_segment (x :: segs) = Ok tt) as ->; [|done].
  apply for_each_ok. eapply Forall_impl; [exact Hf|]. intros y Hy.
  apply bad_segment_ok; [apply Hy|done].
Qed.

(** [normalize_path] yields canonical paths - the root, or plain segments
    each after one slash - and leaves canonical paths alone; on them a
    propagating grant covers exactly the subtree below its path, a
    non-propagating one exactly its path. *)
Theorem grant_paths (p r : str) :
  (normalize_path p = Ok r → normalize_path r = Ok r ∧
    ∃ segs, Forall good_segment segs ∧ r = render segs) ∧
  (∀ a b, Forall good_segment a → Forall good_segment b →
    (path_covers (render a) (render b) true = true ↔ a `prefix_of` b) ∧
    (path_covers (render a) (render b) false = true ↔ a = b)).
Proof.
  split.
  - intros (segs & Hf & ->)%normalize_path_render. split; [by apply normalize_render|eauto].
  - intros a b Ha Hb. split; [by apply path_covers_segments|].
    unfold path_covers. destruct (str_eqb (render a) (render b)) eqn:E; bool_prop.
    + apply render_inj in E; done.
    + split; [done|]. by intros ->.
Qed.

(** *** From request to resource *)

Definition collections : list string := ["vms"; "containers"; "pools"].

(** Whatever follows an item in a URI path: nothing, or more segments. *)
Definition item_suffix (rest : str) : Prop := rest = [] ∨ ∃ r, rest = ch "/" :: r.

Lemma split_item (s id rest : str) :
  ch "/" ∉ s → ch "/" ∉ id → item_suffix rest →
  ∃ more, split (ch "/") (s ++ ch "/" :: id ++ rest) = s :: id :: more.
Proof.
  intros Hs Hid [->|[r ->]].
  - rewrite app_nil_r, split_sep, !split_nosep by done. by exists [].
  - rewrite !split_sep, !split_nosep by done. by eexists.
Qed.

Lemma collection_plain (s : str) :
  str_in s collections = true → good_segment s ∧ ∀ t, strip_prefix "/api/" (ch "/" :: s ++ t) = None.
Proof.
  intros (a & Ha & ->)%str_in_spec. unfold collections in Ha. split.
  - assert (good_segment (lit a)) as H; [|exact H].
    repeat (apply elem_of_cons in Ha as [->|Ha]); try (by apply not_elem_of_nil in Ha);
      (split_and!; [done|done|done| |]; [apply contains_char_false; by vm_compute|repeat constructor]).
  - intros t. repeat (apply elem_of_cons in Ha as [->|Ha]); try (by apply not_elem_of_nil in Ha);
      reflexivity.
Qed.

Lemma resource_item (s id rest : str) :
  str_in s collections = true → good_segment id → item_suffix rest →
  resource_path_for (ch "/" :: s ++ ch "/" :: id ++ rest) = render [s; id] ∧
  ∀ v, ch "/" ∉ v →
    resource_path_for ("/api/" ++ v ++ ch "/" :: s ++ ch "/" :: id ++ rest) = render [s; id].
Proof.
  intros Hs (Hid & _ & _ & Hids & _) Hr.
  destruct (collection_plain s Hs) as [(Hne & _ & _ & Hsl & _) Hstrip].
  destruct (split_item s id rest Hsl Hids Hr) as [more Hm].
  assert (∀ more, match List.filter (λ s, negb (is_empty s)) (s :: id :: more) with
    | [] => lit "/"
    | s :: ids => if str_in s ["vms"; "containers"; "pools"] then
        match ids with id :: _ => "/" ++ s ++ "/" ++ id | [] => "/" ++ s end else lit "/"
    end = render [s; id]) as Hgo.
  { intros m. cbn [List.filter].
    rewrite (proj2 (is_empty_false s)), (proj2 (is_empty_false id)) by done. cbn [negb].
    unfold collections in Hs. rewrite Hs. unfold render. cbn [flat_map]. by rewrite app_nil_r. }
  split.
  - unfold resource_path_for. rewrite Hstrip. cbn [split]. rewrite N.eqb_refl, Hm.
    cbn [List.filter is_empty negb]. apply Hgo.
  - intros v Hv. unfold resource_path_for. rewrite strip_prefix_app.
    assert (split_once (ch "/") (v ++ ch "/" :: s ++ ch "/" :: id ++ rest)
      = Some (v, s ++ ch "/" :: id ++ rest)) as -> by (by apply split_once_Some).
    rewrite Hm. apply Hgo.
Qed.

Lemma path_covers_refl (a : str) (propagate : bool) : path_covers a a propagate = true.
Proof. unfold path_covers. by rewrite str_eqb_refl. Qed.

Lemma covers_prefix (a b : list str) (propagate : bool) :
  Forall good_segment a → Forall good_segment b →
  path_covers (render a) (render b) propagate = true → a `prefix_of` b.
Proof.
  intros Ha Hb. destruct propagate; [by apply path_covers_segments|].
  unfold path_covers. destruct (str_eqb (render a) (render b)) eqn:E; [|done].
  bool_prop. intros _. by apply render_inj in E as ->.
Qed.

Lemma covers_same_length (a b : list str) (propagate : bool) :
  path_covers (render a) (render b) propagate = true →
  Forall good_segment a → Forall good_segment b → length a = length b → a = b.
Proof.
  intros H Ha Hb Hl. destruct (covers_prefix a b propagate Ha Hb H) as [k ->].
  rewrite length_app in Hl. destruct k; [by rewrite app_nil_r|simpl in Hl; lia].
Qed.

Lemma covers_shorter (a b : list str) (propagate : bool) :
  path_covers (render a) (render b) propagate = true →
  Forall good_segment a → Forall good_segment b → (length a ≤ length b)%nat.
Proof. intros H Ha Hb. by apply prefix_length, (covers_prefix a b propagate). Qed.

Lemma good_pair (s id : str) :
  good_segment s → good_segment id → Forall good_segment [s; id].
Proof. intros Hs Hid. constructor; [exact Hs|]. constructor; [exact Hid|constructor]. Qed.

(** A user whose only right is one ACL entry. *)
Definition scoped_user (u : User) (e : AclEntry) (token uri : str) : AuthUser :=
  mkAuth (session_caller (mkCurrent u [] false false []) [e]) token (resource_path_for uri).

(** The part of a request path that names the resource: what follows
    [/api/<version>/], or all of a path that is not under [/api/]. *)
Inductive api_path : str → str → Prop :=
  | ap_versioned v p : ch "/" ∉ v → api_path ("/api/" ++ v ++ ch "/" :: p) p
  | ap_bare v : ch "/" ∉ v → api_path ("/api/" ++ v) []
  | ap_plain p : starts_with "/api/" p = false → api_path p p.

Definition segments (p : str) : list str :=
  List.filter (λ s, negb (is_empty s)) (split (ch "/") p).

Lemma resource_path_segments (uri p : str) :
  api_path uri p → resource_path_for uri =
    match segments p with
    | s :: id :: _ => if str_in s collections then "/" ++ s ++ "/" ++ id else lit "/"
    | [s] => if str_in s collections then "/" ++ s else lit "/"
    | [] => lit "/"
    end.
Proof.
  intros H. unfold resource_path_for. fold (segments p).
  assert (match strip_prefix "/api/" uri with
          | Some rest => match split_once (ch "/") rest with Some (_, after) => after | None => [] end
          | None => uri end = p) as ->.
  { destruct H as [v p Hv|v Hv|p Hp].
    - rewrite strip_prefix_app. by rewrite (proj2 (split_once_Some _ _ v p)).
    - rewrite strip_prefix_app. by rewrite (proj2 (split_once_None _ _)).
    - unfold starts_with in Hp. by destruct (strip_prefix "/api/" p). }
  fold (segments p). destruct (segments p) as [|s [|id more]]; done.
Qed.

Lemma segments_plain (p s : str) : s ∈ segments p → s ≠ [] ∧ ch "/" ∉ s.
Proof.
  intros [Hs%list_elem_of_In He]%list_elem_of_In%List.filter_In. split.
  - by apply negb_true_iff, is_empty_false in He.
  - by apply (proj1 (Forall_forall _ _) (split_no_sep (ch "/") p)).
Qed.

(** An item's path covers no other path of one or two components. *)
Lemma item_covers (s id t : str) (propagate : bool) (parts : list str) :
  Forall (λ s, ch "/" ∉ s) [s; id] → Forall (λ s, ch "/" ∉ s) parts →
  (length parts ≤ 2)%nat → t = flat_map (λ s, ch "/" :: s) parts →
  covers (render [s; id]) propagate t → parts = [s; id].
Proof.
  intros Hi Hp Hl Ht Hc. assert (split (ch "/") t = [] :: parts) as Hsplit by (subst; by apply split_rendered).
  assert (∀ rest, split (ch "/") (render [s; id] ++ ch "/" :: rest) = [] :: s :: id :: split (ch "/") rest) as Hbelow.
  { intros rest. change (render [s; id]) with (flat_map (λ s, ch "/" :: s) [s; id]).
    by rewrite split_sep, (split_rendered [s; id]). }
  inversion Hc as [Heq|? _ Heq|rest _ Heq]; subst t.
  - rewrite <- Heq in Hsplit. change (render [s; id]) with (flat_map (λ s, ch "/" :: s) [s; id]) in Hsplit.
    rewrite split_rendered in Hsplit by done. by injection Hsplit.
  - exfalso. apply (f_equal (split (ch "/"))) in Heq.
    change (render [s; id]) with (flat_map (λ s, ch "/" :: s) [s; id]) in Heq.
    by rewrite split_rendered in Heq by done.
  - exfalso. rewrite <- Heq, Hbelow in Hsplit. injection Hsplit as <-. simpl in Hl.
    destruct (split_cons (ch "/") rest) as (x & xs & Hx). rewrite Hx in Hl. simpl in Hl. lia.
Qed.

Lemma item_not_root (s id : str) (propagate : bool) :
  Forall (λ s, ch "/" ∉ s) [s; id] → ¬ covers (render [s; id]) propagate "/".
Proof.
  intros Hi Hc. apply (item_covers s id (lit "/") _ [[]]) in Hc; [done|done| |simpl; lia|done].
  constructor; [set_solver|constructor].
Qed.

(** C21: a user whose only right is an entry on one item.  On a request below an
    item of a collection (with or without the API prefix) [require] passes
    exactly when it is that item and the entry's role has the permission; on
    every other request - a collection itself, and every path outside the three
    collections - it is refused, whatever the permission. *)
Theorem item_isolation (u : User) (e : AclEntry) (s id token : str) (p : Permission) :
  u_roles u = [] → s ∈ lits ["vms"; "containers"; "pools"] → good_segment id → e_path e = render [s; id] →
  ∀ uri path, api_path uri path →
  match segments path with
  | s' :: id' :: _ =>
      require (scoped_user u e token uri) p = Ok tt ↔
        s' ∈ lits ["vms"; "containers"; "pools"] ∧ s = s' ∧ id = id' ∧ role_may (e_role e) p
  | _ => require (scoped_user u e token uri) p ≠ Ok tt
  end.
Proof.
  intros Hu Hs Hid He uri path Hpath.
  assert (Hcol : ∀ t, str_in t collections = true ↔ t ∈ lits ["vms"; "containers"; "pools"]).
  { intros t. rewrite str_in_spec. unfold lits. rewrite list_elem_of_fmap. naive_solver. }
  pose proof (proj1 (collection_plain s (proj2 (Hcol s) Hs))) as (_ & _ & _ & Hsl & _).
  assert (Forall (λ s, ch "/" ∉ s) [s; id]) as Hi by (repeat constructor; [done|apply Hid]).
  assert (require (scoped_user u e token uri) p = Ok tt ↔
    covers (render [s; id]) (e_propagate e) (resource_path_for uri) ∧ role_may (e_role e) p) as Hreq.
  { rewrite <- He. unfold require. rewrite require_at_ok. simpl. rewrite Hu. simpl.
    rewrite elem_of_effective_at. setoid_rewrite list_elem_of_singleton.
    rewrite <- role_may_spec, <- covers_spec. naive_solver. }
  rewrite (resource_path_segments _ _ Hpath) in Hreq.
  assert (∀ t, t ∈ segments path → ch "/" ∉ t) as Hplain by (by intros t [_ ?]%segments_plain).
  destruct (segments path) as [|s' [|id' more]] eqn:E; rewrite Hreq.
  - intros [Hc _]. by apply item_not_root in Hc.
  - intros [Hc _]. destruct (str_in s' collections).
    + apply (item_covers s id _ _ [s']) in Hc; try done; [repeat constructor; set_solver|simpl; lia|].
      simpl. by rewrite app_nil_r.
    + by apply item_not_root in Hc.
  - destruct (str_in s' collections) eqn:Es.
    + apply Hcol in Es. split.
      * intros [Hc Hp]. apply (item_covers s id _ _ [s'; id']) in Hc; try done;
          [|repeat constructor; set_solver|simpl; by rewrite app_nil_r]. by injection Hc as -> ->.
      * intros (_ & <- & <- & Hp). split; [|done].
        assert ("/" ++ s ++ "/" ++ id = render [s; id]) as -> by (simpl; by rewrite app_nil_r).
        constructor.
    + split.
      * intros [Hc _]. by apply item_not_root in Hc.
      * intros (Hin & _). apply Hcol in Hin. congruence.
Qed.

Lemma item_isolation_witness :
  let u := mkUser "u1" "bob" [] "t0" None in
  let e := mkEntry "e1" "/vms/abc" "u1" Operator true None "t0" in
  require (scoped_user u e "tok" "/api/v1/vms/abc/power") VmPower = Ok tt ∧
  require (scoped_user u e "tok" "/api/v1/vms/abcd") VmPower ≠ Ok tt ∧
  require (scoped_user u e "tok" "/api/v1/storage/pools/abc") StorageRead ≠ Ok tt.
Proof.
  cbv zeta.
  assert (good_segment "abc") as Hg.
  { split_and!; [done..| |repeat constructor]. apply contains_char_false. by vm_compute. }
  pose proof (λ p, item_isolation (mkUser "u1" "bob" [] "t0" None)
    (mkEntry "e1" "/vms/abc" "u1" Operator true None "t0") "vms" "abc" "tok" p eq_refl
    ltac:(left) Hg eq_refl) as H.
  split_and!.
  - apply (H VmPower "/api/v1/vms/abc/power" "vms/abc/power" (ap_versioned "v1" "vms/abc/power" ltac:(set_solver))).
    split_and!; [left|done|done|by split_and!].
  - intros E. apply (H VmPower "/api/v1/vms/abcd" "vms/abcd" (ap_versioned "v1" "vms/abcd" ltac:(set_solver))) in E.
    destruct E as (_ & _ & E & _). discriminate E.
  - intros E. apply (H StorageRead "/api/v1/storage/pools/abc" "storage/pools/abc"
      (ap_versioned "v1" "storage/pools/abc" ltac:(set_solver))) in E.
    destruct E as (_ & E & _). discriminate E.
Defined.

(** Bob's own role lets him read; the entry lets him act on one VM and below. *)
Lemma authorization_correct_witness :
  let current := mkCurrent (mkUser "u1" "bob" [Viewer] "t0" None) [] false false [] in
  let entries := [mkEntry "e1" "/vms/abc" "u1" Operator true None "t0"] in
  let a := mkAuth (session_caller current entries) "tok" "/" in
  require_at a LxcRead "/containers/c1" = Ok tt ∧
  require_at a VmPower "/vms/abc/power" = Ok tt ∧
  require_at a VmPower "/vms/abcd" ≠ Ok tt.
Proof.
  cbv zeta.
  pose proof (λ p path, proj1 (authorization_correct
    (mkCurrent (mkUser "u1" "bob" [Viewer] "t0" None) [] false false [])
    [mkEntry "e1" "/vms/abc" "u1" Operator true None "t0"] "tok" "/" path p)) as H.
  split_and!.
  - apply H. left. exists Viewer. split; [by left|]. right. by left.
  - apply H. right. eexists. split; [by left|]. split; [by apply (cv_below "/vms/abc" true "power")|by split_and!].
  - intros E. apply H in E as [(r & Hr & Hm)|(e & He & Hc & _)].
    + apply list_elem_of_singleton in Hr as ->. unfold role_may, reading in Hm. naive_solver.
    + apply list_elem_of_singleton in He as ->. by inversion Hc.
Defined.

Lemma grant_paths_witness :
  normalize_path "/vms" = Ok (lit "/vms") ∧ path_covers "/vms" "/vms/abc" true = true.
Proof.
  split.
  - apply (grant_paths " vms/ " "/vms"). by vm_compute.
  - assert (good_segment "vms" ∧ good_segment "abc") as [Hv Ha].
    { split; (split_and!; [done..| |repeat constructor]); apply contains_char_false; by vm_compute. }
    apply (proj2 (grant_paths "" "") [lit "vms"] [lit "vms"; lit "abc"]).
    + constructor; [exact Hv|constructor].
    + by apply good_pair.
    + by exists [lit "abc"].
Defined.
