(* ===== verification/Acl.v ===== *)
(** * The ACL service (src/src/services/acl.rs)

    Explicit grants, cached in memory.  The fresh id and the time that [create]
    reads from its environment are arguments. *)

From S2P Require Export Cache Rbac.

Module AclService.
Section service.
Context `{RS : RecordStore AclEntry}.

Abbreviation state := (Cached AclEntry).

Definition load : Svc state unit := Cache.load e_id.

Definition list : Svc state (list AclEntry) := gets (λ s,
  sort_by (λ a b, then_ (str_cmp (e_path a) (e_path b)) (str_cmp (e_id a) (e_id b)))
    (values (cache s))).

Definition entries_for_subject (user_id : str) (s : state) : Datatypes.list AclEntry :=
  List.filter (λ e, e_subject e =s? user_id) (values (cache s)).

Definition create (path subject subject_username : str) (role : Role) (propagate : bool)
    (new_id now_ts : str) : Svc state AclEntry :=
  path ← lift (normalize_path path);
  existing ← gets (λ s : state, List.find (λ e,
    (e_subject e =s? subject) && (e_path e =s? path) && bool_decide (e_role e = role)
    && Bool.eqb (e_propagate e) propagate) (values (cache s)));
  match existing with
  | Some e => mret e
  | None =>
      let entry := mkEntry new_id path subject role propagate (Some subject_username) now_ts in
      _ ← persist (e_id entry) entry;
      mret entry
  end.

Definition delete (id : str) : Svc state unit :=
  found ← gets (λ s : state, bool_decide (is_Some (cache s !! id)));
  if negb found then fail (not_found "acl entry not found") else evict id.

(** The loop of [remove_subject] over the store. *)
Fixpoint store_delete_all (ids : Datatypes.list str) : Svc state unit :=
  match ids with
  | [] => mret tt
  | id :: ids => λ s,
      match store_delete id (disk s) with
      | (d, Ok _) => store_delete_all ids (mkCached d (cache s))
      | (d, Err e) => (mkCached d (cache s), Err e)
      end
  end.

Definition remove_subject (user_id : str) : Svc state unit :=
  ids ← gets (λ s : state, map e_id (entries_for_subject user_id s));
  _ ← store_delete_all ids;
  modify (λ s, mkCached (disk s) (foldr (λ id m, base.delete id m) (cache s) ids)).
End service.
End AclService.

(** ** Correctness *)
Section acl_proofs.
Context `{RS : RecordStore AclEntry}.
Implicit Types s : Cached AclEntry.

Definition acl_ok s : Prop := coherent s ∧ keyed e_id s.

Lemma elem_of_entries_for u e s :
  e ∈ AclService.entries_for_subject u s ↔ e_subject e = u ∧ ∃ id, cache s !! id = Some e.
Proof.
  unfold AclService.entries_for_subject. rewrite list_elem_of_In, List.filter_In, <- list_elem_of_In.
  rewrite elem_of_values, str_eqb_eq. naive_solver.
Qed.

Lemma persist_acl_ok id e : e_id e = id → keeps acl_ok (persist id e).
Proof.
  intros H s s' r E [Hc Hk]. split.
  - by eapply persist_coherent.
  - by eapply persist_keyed.
Qed.
Lemma evict_acl_ok id : keeps acl_ok (evict id).
Proof.
  intros s s' r E [Hc Hk]. split.
  - by eapply evict_coherent.
  - by eapply evict_keyed.
Qed.

(** The grant an entry gives. *)
Definition grants (e : AclEntry) (path subject : str) (role : Role) (propagate : bool) : Prop :=
  e_subject e = subject ∧ e_path e = path ∧ e_role e = role ∧ e_propagate e = propagate.

Lemma create_spec path subject username role propagate new_id now s s' r :
  AclService.create path subject username role propagate new_id now s = (s', r) →
  acl_ok s →
  acl_ok s' ∧
  match r with
  | Ok e => (∃ p, normalize_path path = Ok p ∧ grants e p subject role propagate)
            ∧ e ∈ AclService.entries_for_subject subject s'
            ∧ ∀ id f, cache s' !! id = Some f → cache s !! id = Some f ∨ f = e
  | Err _ => cache s' = cache s
  end.
Proof.
  unfold AclService.create. intros H Hok. destruct (normalize_path path) as [p|e] eqn:Ep.
  2: { injection H as <- <-. done. }
  unfold lift, gets, mbind, svc_bind in H.
  destruct (List.find _ (values (cache s))) as [e|] eqn:Ef.
  - injection H as <- <-. split; [done|].
    apply List.find_some in Ef as [Hin Hb]. rewrite <- list_elem_of_In, elem_of_values in Hin.
    rewrite !andb_true_iff, !str_eqb_eq, bool_decide_eq_true, eqb_true_iff in Hb.
    split_and!; [exists p; unfold grants; naive_solver| |by left].
    apply elem_of_entries_for. naive_solver.
  - set (e := mkEntry _ _ _ _ _ _ _) in H.
    destruct (persist (e_id e) e s) as [s1 r1] eqn:E1.
    pose proof (persist_acl_ok _ _ eq_refl _ _ _ E1 Hok) as Hok1.
    apply persist_result in E1. destruct r1 as [u|err]; injection H as <- <-; (split; [done|]).
    + split_and!; [by exists p| |].
      * apply elem_of_entries_for. split; [done|]. exists (e_id e). rewrite E1. by simplify_map_eq.
      * intros id f. rewrite E1, lookup_insert_Some. naive_solver.
    + done.
Qed.

Lemma store_delete_all_spec ids s s' r :
  AclService.store_delete_all ids s = (s', r) →
  cache s' = cache s ∧
  (∀ id e, record (disk s') id = Some e → record (disk s) id = Some e) ∧
  (r = Ok tt → ∀ id, record (disk s') id = if decide (id ∈ ids) then None else record (disk s) id).
Proof.
  revert s; induction ids as [|i ids IH]; intros s; cbn [AclService.store_delete_all].
  { intros [= <- <-]. split_and!; [done..|]. intros _ id.
    by destruct (decide (id ∈ [])) as [?%not_elem_of_nil|]. }
  destruct (store_delete i (disk s)) as [d [b|e]] eqn:E.
  - intros (Hc & Hd & Hr)%IH. simpl in *. split_and!; [done| |].
    + intros id e ?%Hd. rewrite (delete_ok _ _ _ _ E) in *. by case_decide.
    + intros Hrr id. rewrite (Hr Hrr), (delete_ok _ _ _ _ E).
      repeat case_decide; set_solver.
  - intros [= <- <-]. simpl. split_and!; [done| |done].
    intros id v. by rewrite (delete_err _ _ _ _ E).
Qed.

Lemma foldr_delete_lookup (ids : list str) (m : gmap str AclEntry) (id : str) :
  foldr (λ id m, delete id m) m ids !! id = if decide (id ∈ ids) then None else m !! id.
Proof.
  induction ids as [|i ids IH]; simpl.
  { by destruct (decide (id ∈ [])) as [?%not_elem_of_nil|]. }
  destruct (decide (id = i)) as [->|Hne].
  - by rewrite lookup_delete_eq, decide_True by set_solver.
  - rewrite lookup_delete_ne, IH by done. repeat case_decide; set_solver.
Qed.

Lemma remove_subject_spec u s s' r :
  AclService.remove_subject u s = (s', r) → acl_ok s →
  covered s' ∧ keyed e_id s' ∧
  match r with
  | Ok _ => acl_ok s' ∧ (∀ id e, record (disk s') id = Some e ↔
                            record (disk s) id = Some e ∧ e_subject e ≠ u)
  | Err _ => cache s' = cache s
  end.
Proof.
  unfold AclService.remove_subject, gets, mbind, svc_bind, modify. intros H [Hc [Hkd Hkc]].
  set (ids := map e_id (AclService.entries_for_subject u s)) in H.
  destruct (AclService.store_delete_all ids s) as [s1 r1] eqn:E.
  apply store_delete_all_spec in E as (Hc1 & Hd1 & Hr1).
  destruct r1 as [[]|e]; injection H as <- <-.
  - specialize (Hr1 eq_refl). simpl.
    assert (Hids : ∀ id, id ∈ ids ↔ ∃ e, record (disk s) id = Some e ∧ e_subject e = u).
    { intros id. unfold ids. rewrite list_elem_of_fmap. setoid_rewrite elem_of_entries_for.
      setoid_rewrite Hc. split.
      - intros (e & -> & Hu & k & Hk). rewrite (Hkc _ _ Hk). eauto.
      - intros (e & He & Hu). exists e. rewrite (Hkc _ _ He). eauto. }
    assert (Hcoh : coherent (mkCached (disk s1)
      (foldr (λ id m, delete id m) (cache s1) ids))).
    { intros id. simpl. rewrite Hr1, foldr_delete_lookup, Hc1. case_decide; [done|apply Hc]. }
    assert (Hk : keyed e_id (mkCached (disk s1) (foldr (λ id m, delete id m) (cache s1) ids))).
    { split; simpl; intros id v; [intros ?%Hd1; by apply Hkd|].
      rewrite foldr_delete_lookup, Hc1. case_decide; [done|apply Hkc]. }
    split_and!; [by apply coherent_covered|done|by split|].
    intros id e. rewrite Hr1. case_decide as Hin; rewrite Hids in Hin; naive_solver.
  - split_and!; [|split|done].
    + intros id v Hv%Hd1. rewrite Hc1, <- Hc. done.
    + intros id v Hv%Hd1. by apply Hkd.
    + intros id v. rewrite Hc1. apply Hkc.
Qed.

(** The ACL operations keep the cache and the disk in step and do what they
    say: a created (or already existing) entry has the normalized path and is
    among its subject's grants, and nothing else is added; a deleted entry is
    gone from both; after [remove_subject] no entry of the user is left and
    every other entry is; and an operation that fails never loses a grant from
    the cache that is still on disk, so a restart resurrects nothing. *)
Theorem acl_operations s s' :
  acl_ok s →
  (∀ path subject username role propagate new_id now r,
    AclService.create path subject username role propagate new_id now s = (s', r) →
    acl_ok s' ∧
    match r with
    | Ok e => (∃ p, normalize_path path = Ok p ∧ grants e p subject role propagate)
              ∧ e ∈ AclService.entries_for_subject subject s'
              ∧ ∀ id f, cache s' !! id = Some f → cache s !! id = Some f ∨ f = e
    | Err _ => cache s' = cache s
    end) ∧
  (∀ id r, AclService.delete id s = (s', r) →
    acl_ok s' ∧ (r = Ok tt → cache s' = delete id (cache s) ∧ record (disk s') id = None)
    ∧ (cache s !! id = None → r = Err (not_found "acl entry not found"))) ∧
  (∀ u r, AclService.remove_subject u s = (s', r) →
    covered s' ∧
    (r = Ok tt → acl_ok s' ∧ AclService.entries_for_subject u s' = [] ∧
      ∀ id e, record (disk s') id = Some e ↔ record (disk s) id = Some e ∧ e_subject e ≠ u)).
Proof.
  intros Hok. split_and!.
  - intros. by eapply create_spec.
  - intros id r. unfold AclService.delete, gets, mbind, svc_bind.
    case_bool_decide as Hs; cbn [negb].
    + intros E. pose proof (evict_acl_ok id _ _ _ E Hok) as Hok'. split_and!; [done| |].
      * intros ->. apply evict_result in E. split; [done|].
        rewrite (proj1 Hok'), E. by simplify_map_eq.
      * intros Hn. by rewrite Hn in Hs; destruct Hs.
    + intros [= <- <-]. done.
  - intros u r E. destruct (remove_subject_spec _ _ _ _ E Hok) as (Hcov & _ & Hr).
    split; [done|]. intros ->. destruct Hr as [Hok' Hrec]. split_and!; [done| |done].
    destruct (AclService.entries_for_subject u s') as [|e l] eqn:El; [done|].
    assert (e ∈ AclService.entries_for_subject u s') as Hin by (rewrite El; by left).
    apply elem_of_entries_for in Hin as [Hu [id Hid]].
    rewrite <- (proj1 Hok') in Hid. by apply Hrec in Hid as [_ ?].
Qed.
End acl_proofs.

Lemma acl_operations_witness :
  let s0 : Cached AclEntry (RS:=map_store AclEntry) := mkCached (RS:=map_store AclEntry) ∅ ∅ in
  ∃ s1 e, AclService.create "vms/" "u1" "bob" Viewer true "e1" "t0" s0 = (s1, Ok e) ∧
    e_path e = lit "/vms" ∧ e ∈ AclService.entries_for_subject "u1" s1.
Proof.
  set (s0 := mkCached (RS:=map_store AclEntry) ∅ ∅). cbv zeta.
  assert (acl_ok s0) as Hok.
  { split; [by intros id|]. by split; intros id v. }
  destruct (AclService.create "vms/" "u1" "bob" Viewer true "e1" "t0" s0) as [s1 r] eqn:E.
  destruct (proj1 (acl_operations s0 s1 Hok) _ _ _ _ _ _ _ _ E) as [_ H].
  destruct r as [e|err].
  - destruct H as ((p & Hp & _ & He & _) & Hin & _). exists s1, e. split_and!; [done| |done].
    rewrite He. vm_compute in Hp. by injection Hp as <-.
  - exfalso. apply (f_equal (is_ok ∘ snd)) in E. vm_compute in E. discriminate E.
Defined.
