(* ===== verification/Totp.v ===== *)
(** * Time-based one-time passwords (src/src/services/totp.rs)

    Base32 and HMAC-SHA1 come from other crates and are parameters.  The HOTP
    truncation, the time window and the constant-time comparison are the source's
    own and are modelled bit for bit. *)

From S2P Require Export Errors.

Definition PERIOD_SECS : N := 30.
Definition DIGITS : nat := 6.

Definition u64_wrap (n : Z) : N := Z.to_N (n mod 2 ^ 64).

Fixpoint be_bytes (n : nat) (v : N) : list N :=
  match n with O => [] | S n => be_bytes n (v / 256) ++ [(v mod 256)%N] end.

(** [format!("{:0width$}", n)]. *)
Definition zero_pad (width : nat) (n : N) : str :=
  let d := dec n in replicate (width - length d) (ch "0") ++ d.

(** Byte-slice equality without early exit. *)
Definition ct_eq (a b : list N) : bool :=
  if negb (length a =? length b)%nat then false
  else (foldl (λ diff xy, N.lor diff (N.lxor xy.1 xy.2)) 0 (zip a b) =? 0)%N.

Definition unreserved (b : N) : bool :=
  is_ascii_uppercase b || is_ascii_lowercase b || is_ascii_digit b || char_in b "-._~".
Definition upper_hex (d : N) : char := if (d <? 10)%N then (48 + d)%N else (55 + d)%N.
Definition percent_encode (s : str) : str :=
  flat_map (λ b, if unreserved b then [b]
                 else [ch "%"; upper_hex (b / 16); upper_hex (b mod 16)]) (bytes s).

Definition provisioning_uri (secret_b32 issuer account : str) : str :=
  let label := percent_encode issuer ++ ":" ++ percent_encode account in
  "otpauth://totp/" ++ label ++ "?secret=" ++ secret_b32 ++ "&issuer=" ++ percent_encode issuer
  ++ "&algorithm=SHA1&digits=" ++ dec (N.of_nat DIGITS) ++ "&period=" ++ dec PERIOD_SECS.

Section totp.
(** [base32::decode] on RFC 4648 without padding, and HMAC-SHA1 of a message
    under a key ([None] if the key length is rejected). *)
Context (b32_decode : str → option (list N)).
Context (hmac_sha1 : list N → list N → option (list N)).

Definition digest_byte (digest : list N) (i : nat) : N := digest !!! i.

(** The 31-bit value selected by dynamic truncation. *)
Definition truncated (digest : list N) : N :=
  let offset := N.to_nat (N.land (digest_byte digest (length digest - 1)) 15) in
  N.lor (N.lor (N.lor (N.shiftl (N.land (digest_byte digest offset) 127) 24)
                      (N.shiftl (digest_byte digest (offset + 1)) 16))
               (N.shiftl (digest_byte digest (offset + 2)) 8))
        (digest_byte digest (offset + 3)).

Definition hotp (key : list N) (counter : N) : option str :=
  digest ← hmac_sha1 key (be_bytes 8 counter);
  Some (zero_pad DIGITS (truncated digest mod 1000000)).

Definition verify (secret_b32 code : str) (unix_time : N) : bool :=
  let code := trim code in
  if negb (len code =? N.of_nat DIGITS)%N || negb (forallb is_ascii_digit (bytes code)) then false
  else
    match b32_decode (to_ascii_uppercase secret_b32) with
    | None => false
    | Some key =>
        if is_empty key then false
        else
          let step := (unix_time / PERIOD_SECS)%N in
          existsb (λ counter,
            if (step + 1 <? counter)%N then false
            else match hotp key counter with
                 | Some expected => ct_eq (bytes expected) (bytes code)
                 | None => false
                 end)
            [u64_wrap (Z.of_N step - 1); step; (step + 1)%N]
    end.
End totp.

(** ** Lemmas *)

Lemma ct_eq_fold (l : list (N * N)) (acc : N) :
  foldl (λ diff xy, N.lor diff (N.lxor xy.1 xy.2)) acc l = 0%N ↔
  acc = 0%N ∧ Forall (λ xy, xy.1 = xy.2) l.
Proof.
  revert acc; induction l as [|[x y] l IH]; intros acc; simpl; [naive_solver|].
  rewrite IH, N.lor_eq_0_iff, N.lxor_eq_0_iff. split.
  - intros [[? ?] ?]. split; [done|by constructor].
  - by intros [? [? ?]%Forall_cons].
Qed.

(** The comparison decides equality. *)
Lemma ct_eq_spec (a b : list N) : ct_eq a b = true ↔ a = b.
Proof.
  unfold ct_eq. destruct (length a =? length b)%nat eqn:El; simpl; bool_prop.
  2: { split; [done|]. by intros ->. }
  rewrite ct_eq_fold. split.
  - intros [_ H]. revert b El H; induction a as [|x a IH]; intros [|y b]; try done.
    simpl. intros [= El] [Hxy H]%Forall_cons. simpl in Hxy. subst y. f_equal. by apply IH.
  - intros <-. split; [done|]. clear El. induction a as [|x a IH]; simpl; [constructor|].
    by constructor.
Qed.

(** A HOTP value is six ASCII digits. *)
Lemma hotp_six_digits hmac key counter otp :
  hotp hmac key counter = Some otp →
  length otp = DIGITS ∧ Forall (λ c, is_ascii_digit c = true) otp.
Proof.
  unfold hotp. intros (digest & _ & [= <-])%bind_Some. unfold zero_pad.
  set (n := (truncated digest mod 1000000)%N).
  assert (n < 10 ^ N.of_nat 6)%N as Hn by (apply N.mod_lt; lia).
  pose proof (dec_length 5 n Hn) as Hl. split.
  - rewrite length_app, length_replicate. unfold DIGITS. lia.
  - apply Forall_app. split; [|apply dec_digits]. apply Forall_replicate. done.
Qed.

Definition u8 (b : N) : Prop := (b < 256)%N.

(** The indices of the truncation stay inside a 20-byte digest, and its value
    inside 31 bits. *)
Lemma truncation_in_bounds (digest : list N) :
  length digest = 20%nat → Forall u8 digest →
  (N.to_nat (N.land (digest_byte digest (length digest - 1)) 15) + 3 < length digest)%nat.
Proof.
  intros Hl _. rewrite Hl.
  assert (N.land (digest_byte digest (20 - 1)) 15 < 16)%N; [|lia].
  change 15%N with (N.ones 4). rewrite N.land_ones. apply N.mod_lt. done.
Qed.

(** The counters a code is compared with at a time. *)
Definition window (unix_time counter : N) : Prop :=
  let step := (unix_time / PERIOD_SECS)%N in
  counter = step ∨ counter = (step + 1)%N ∨ (counter + 1)%N = step.

Lemma wrapping_window (step : N) (p : N → bool) :
  (step < 2 ^ 64)%N →
  existsb (λ c, if (step + 1 <? c)%N then false else p c)
    [u64_wrap (Z.of_N step - 1); step; (step + 1)%N] = true ↔
  ∃ c, (c = step ∨ c = (step + 1)%N ∨ (c + 1)%N = step) ∧ p c = true.
Proof.
  intros Hs. cbn [existsb]. rewrite orb_false_r.
  rewrite (proj2 (N.ltb_ge (step + 1) step)), (proj2 (N.ltb_ge (step + 1) (step + 1))) by lia.
  assert ((if (step + 1 <? u64_wrap (Z.of_N step - 1))%N then false
           else p (u64_wrap (Z.of_N step - 1))) = true ↔ ∃ c, (c + 1)%N = step ∧ p c = true) as Hw.
  { unfold u64_wrap. destruct (N.eq_dec step 0%N) as [->|Hne].
    - change (Z.to_N ((Z.of_N 0 - 1) mod 2 ^ 64)) with 18446744073709551615%N.
      cbn. split; [done|]. intros (c & Hc & _). lia.
    - rewrite Z.mod_small by lia. rewrite (proj2 (N.ltb_ge _ _)) by lia. split.
      + intros H. exists (Z.to_N (Z.of_N step - 1)). split; [lia|done].
      + intros (c & <- & Hc). replace (Z.to_N (Z.of_N (c + 1) - 1)) with c by lia. done. }
  rewrite !orb_true_iff, Hw. naive_solver.
Qed.

(** A code is accepted exactly when, trimmed, it is the HOTP value of the
    decoded, non-empty secret at one of at most three counters - the current
    30-second step and its neighbours - so it is good for at most 90 seconds;
    the wrap-around of the counter at time zero is skipped, and a malformed
    secret or code is never accepted. *)
Theorem totp_window b32 hmac (secret code : str) (unix_time : N) :
  (unix_time ≤ U64_MAX)%N →
  verify b32 hmac secret code unix_time = true ↔
  ∃ key counter, b32 (to_ascii_uppercase secret) = Some key ∧ key ≠ [] ∧
    window unix_time counter ∧ hotp hmac key counter = Some (trim code) ∧
    (counter * 30 ≤ unix_time + 30 < counter * 30 + 90)%N.
Proof.
  intros Ht. unfold verify. cbv zeta. set (step := (unix_time / PERIOD_SECS)%N).
  assert (step * 30 ≤ unix_time < step * 30 + 30)%N as Hstep.
  { subst step. unfold PERIOD_SECS. pose proof (N.mod_lt unix_time 30 ltac:(done)).
    pose proof (N.div_mod unix_time 30 ltac:(done)).
    revert H H0. generalize (unix_time mod 30)%N (unix_time / 30)%N. lia. }
  assert (step < 2 ^ 64)%N as Hs64 by (unfold U64_MAX in *; lia).
  split.
  - destruct (_ || _) eqn:Ed; [done|]. apply orb_false_iff in Ed as [Hl Hd].
    destruct (b32 _) as [key|]; [|done]. destruct (is_empty key) eqn:Ek; [done|]. bool_prop.
    rewrite wrapping_window by done. intros (c & Hc & Hp).
    destruct (hotp hmac key c) as [otp|] eqn:Eo; [|done]. apply ct_eq_spec in Hp.
    destruct (hotp_six_digits _ _ _ _ Eo) as [_ Hdig].
    assert (otp = trim code) as ->.
    { rewrite !bytes_ascii in Hp; [done| |by apply digits_ascii].
      rewrite forallb_bytes in Hd; [by apply digits_ascii, forallb_Forall|].
      intros b. unfold is_ascii_digit. rewrite in_range_spec. lia. }
    exists key, c. split_and!; [done..| |lia|lia]. unfold window. fold step. naive_solver.
  - intros (key & c & -> & Hk & Hw & Ho & _).
    destruct (hotp_six_digits _ _ _ _ Ho) as [Hl Hdig].
    pose proof (digits_ascii _ Hdig) as Ha.
    rewrite len_ascii, Hl, bytes_ascii by done.
    rewrite (proj2 (forallb_Forall _ _)) by done. cbn [N.eqb negb orb].
    rewrite (proj2 (is_empty_false key)) by done. change (N.of_nat DIGITS =? N.of_nat DIGITS)%N with true.
    cbn [negb orb]. apply wrapping_window; [done|]. exists c.
    split; [unfold window in Hw; fold step in Hw; naive_solver|].
    rewrite Ho. by apply ct_eq_spec, bytes_ascii.
Qed.

(** A concrete authenticator: any decoder and a fixed 20-byte digest. *)
Definition sample_b32 (s : str) : option (list N) := Some (bytes s).
Definition sample_hmac (key msg : list N) : option (list N) :=
  Some (replicate 19 (N.of_nat (length key)) ++ [foldl N.add 0%N msg]).

Lemma totp_window_witness : verify sample_b32 sample_hmac "abc" " 529027 " 59 = true.
Proof.
  apply (totp_window sample_b32 sample_hmac "abc" " 529027 " 59); [by vm_compute|].
  exists (lit "ABC"), 1%N. split_and!; [by vm_compute|done|by left|by vm_compute|done|done].
Defined.
