(* ===== verification/Throttle.v ===== *)
(** * Login throttling (src/src/services/login_throttle.rs)

    Two maps of failure buckets, per source address and per attempted account.
    Instants and durations are nanoseconds; the monotonic clock is read by the
    source and passed in here as [now]. *)

From S2P Require Export Errors NetAddr.

#[export] Instance IpAddr_eq_dec : EqDecision IpAddr.
Proof. solve_decision. Defined.
#[export] Instance IpAddr_countable : Countable IpAddr.
Proof.
  refine (inj_countable' (λ a, match a with V4 o => (true, o) | V6 g => (false, g) end)
            (λ p : bool * list N, if p.1 then V4 p.2 else V6 p.2) _).
  by intros [].
Defined.

Abbreviation Duration := N (only parsing).
Abbreviation Instant := N (only parsing).
Definition from_secs (n : N) : Duration := (n * 1000000000)%N.
Definition as_secs (d : Duration) : N := (d / 1000000000)%N.

Definition MAX_DELAY : Duration := from_secs 60.
Definition QUIET_WINDOW : Duration := from_secs (15 * 60).
Definition MAX_ENTRIES : nat := N.to_nat 10000.

Record Bucket := mkBucket { failures : N; last_failure : Instant }.

Definition new_bucket (now : Instant) : Bucket := mkBucket 1 now.

(** [1u64 << shift] with [shift <= 6]. *)
Definition required_delay (failures : N) : Duration :=
  let shift := N.min (failures - 1) 6 in
  let secs := N.min (N.shiftl 1 shift) (as_secs MAX_DELAY) in
  from_secs secs.

(** [now.duration_since(t)] saturates at zero. *)
Definition duration_since (now t : Instant) : Duration := (now - t)%N.

Definition bucket_record_failure (b : Bucket) (now : Instant) : Bucket * Duration :=
  let failures := if (QUIET_WINDOW <? duration_since now (last_failure b))%N
                  then 0%N else failures b in
  let failures := N.min (failures + 1) U32_MAX in
  (mkBucket failures now, required_delay failures).

Definition current_delay (b : Bucket) (now : Instant) : Duration :=
  if (QUIET_WINDOW <? duration_since now (last_failure b))%N then 0%N
  else required_delay (failures b).

Record LoginThrottle := mkThrottle { per_ip : gmap IpAddr Bucket; per_account : gmap str Bucket }.

Definition new_throttle : LoginThrottle := mkThrottle ∅ ∅.

Definition normalize_username (username : str) : str := to_ascii_lowercase (trim username).

(** The delay of one map's bucket. *)
Definition delay_of {K} `{Countable K} (m : gmap K Bucket) (k : K) (now : Instant) : Duration :=
  match m !! k with Some b => current_delay b now | None => 0%N end.

Definition penalty_for (t : LoginThrottle) (ip : IpAddr) (username : str) (now : Instant) :
    Duration :=
  let account := normalize_username username in
  N.max (delay_of (per_ip t) ip now) (delay_of (per_account t) account now).

(** The flood valve of one map: at the cap, and for a new key, expired buckets
    are dropped. *)
Definition shed {K} `{Countable K} (m : gmap K Bucket) (k : K) (now : Instant) : gmap K Bucket :=
  if (MAX_ENTRIES <=? size m)%nat && bool_decide (m !! k = None)
  then filter (λ kb : K * Bucket, (duration_since now (last_failure kb.2) <= QUIET_WINDOW)%N) m
  else m.

(** [get_mut(k)] or [insert] of one map. *)
Definition bump {K} `{Countable K} (m : gmap K Bucket) (k : K) (now : Instant) :
    gmap K Bucket * Duration :=
  match m !! k with
  | Some b => let '(b, d) := bucket_record_failure b now in (<[k := b]> m, d)
  | None => (<[k := new_bucket now]> m, required_delay 1)
  end.

Definition record_failure (t : LoginThrottle) (ip : IpAddr) (username : str) (now : Instant) :
    LoginThrottle * Duration :=
  let account := normalize_username username in
  let per_ip := shed (per_ip t) ip now in
  let per_account := shed (per_account t) account now in
  let '(per_ip, ip_delay) := bump per_ip ip now in
  let '(per_account, account_delay) := bump per_account account now in
  (mkThrottle per_ip per_account, N.max ip_delay account_delay).

Definition record_success (t : LoginThrottle) (ip : IpAddr) (username : str) : LoginThrottle :=
  mkThrottle (delete ip (per_ip t)) (delete (normalize_username username) (per_account t)).

(** ** Lemmas *)

Lemma required_delay_secs (f : N) :
  required_delay f = from_secs (N.min (2 ^ N.min (f - 1) 6) 60).
Proof. unfold required_delay. by rewrite N.shiftl_1_l. Qed.

Lemma required_delay_bounds (f : N) :
  (from_secs 1 ≤ required_delay f ≤ MAX_DELAY)%N.
Proof.
  rewrite required_delay_secs. unfold MAX_DELAY, from_secs.
  assert (1 ≤ 2 ^ N.min (f - 1) 6)%N by (pose proof (N.pow_nonzero 2 (N.min (f - 1) 6)); lia). lia.
Qed.

Lemma required_delay_mono (f g : N) : (f ≤ g)%N → (required_delay f ≤ required_delay g)%N.
Proof.
  intros H. rewrite !required_delay_secs. unfold from_secs.
  assert (2 ^ N.min (f - 1) 6 ≤ 2 ^ N.min (g - 1) 6)%N by (apply N.pow_le_mono_r; lia). lia.
Qed.

Section buckets.
Context {K : Type} `{Countable K}.
Implicit Types m : gmap K Bucket.

(** Dropping expired buckets changes no delay, now or later. *)
Lemma shed_delay m k i now now' :
  (now ≤ now')%N → delay_of (shed m k now) i now' = delay_of m i now'.
Proof.
  intros Hn. unfold shed, delay_of. destruct (_ && _); [|done].
  destruct (m !! i) as [b|] eqn:E.
  - destruct (decide (duration_since now (last_failure b) <= QUIET_WINDOW)%N) as [Hd|Hd].
    + by rewrite (map_lookup_filter_Some_2 _ m i b).
    + rewrite map_lookup_filter_None_2 by naive_solver. unfold current_delay.
      rewrite (proj2 (N.ltb_lt _ _)); [done|]. unfold duration_since in *. lia.
  - by rewrite map_lookup_filter_None_2 by naive_solver.
Qed.

Lemma bump_other m k i now now' : i ≠ k → delay_of (bump m k now).1 i now' = delay_of m i now'.
Proof.
  intros Hi. unfold bump, delay_of. destruct (m !! k); simpl; by rewrite lookup_insert_ne.
Qed.

(** The failures a bucket counts at a time. *)
Definition counted m (k : K) (now : Instant) : N :=
  match m !! k with
  | Some b => if (QUIET_WINDOW <? duration_since now (last_failure b))%N then 0%N else failures b
  | None => 0%N
  end.

Lemma shed_counted m k i now : counted (shed m k now) i now = counted m i now.
Proof.
  unfold shed, counted. destruct (_ && _); [|done].
  destruct (m !! i) as [b|] eqn:E.
  - destruct (decide (duration_since now (last_failure b) <= QUIET_WINDOW)%N) as [Hd|Hd].
    + by rewrite (map_lookup_filter_Some_2 _ m i b).
    + rewrite map_lookup_filter_None_2 by naive_solver.
      rewrite (proj2 (N.ltb_lt _ _)); [done|]. lia.
  - by rewrite map_lookup_filter_None_2 by naive_solver.
Qed.

Lemma bump_self m k now :
  ∃ b, (bump m k now).1 !! k = Some b ∧ last_failure b = now
       ∧ failures b = N.min (counted m k now + 1) U32_MAX
       ∧ (bump m k now).2 = required_delay (failures b).
Proof.
  unfold bump, counted. destruct (m !! k) as [b|] eqn:E; simpl.
  - eexists. rewrite lookup_insert_eq. done.
  - eexists. rewrite lookup_insert_eq. done.
Qed.

Lemma counted_bump m k now now' :
  (now ≤ now' ≤ now + QUIET_WINDOW)%N →
  counted (bump m k now).1 k now' = N.min (counted m k now + 1) U32_MAX.
Proof.
  intros Hn. destruct (bump_self m k now) as (b & Hb & Hl & Hf & _).
  unfold counted at 1. rewrite Hb, Hl, Hf. unfold duration_since.
  rewrite (proj2 (N.ltb_ge _ _)); [done|lia].
Qed.

Lemma counted_bump_other m k i now now' :
  i ≠ k → counted (bump m k now).1 i now' = counted m i now'.
Proof.
  intros Hi. unfold bump, counted. destruct (m !! k); simpl; by rewrite lookup_insert_ne.
Qed.

Lemma delay_counted m k now :
  (0 < counted m k now)%N → delay_of m k now = required_delay (counted m k now).
Proof. unfold delay_of, counted, current_delay. destruct (m !! k); [|done]. by case_match. Qed.
End buckets.

Lemma delay_le_max {K} `{Countable K} (m : gmap K Bucket) k now : (delay_of m k now ≤ MAX_DELAY)%N.
Proof.
  unfold delay_of, current_delay. destruct (m !! k) as [b|]; [|unfold MAX_DELAY, from_secs; lia].
  case_match; [unfold MAX_DELAY, from_secs; lia|apply required_delay_bounds].
Qed.

Lemma record_failure_maps t ip u now :
  (record_failure t ip u now).1 =
  mkThrottle (bump (shed (per_ip t) ip now) ip now).1
    (bump (shed (per_account t) (normalize_username u) now) (normalize_username u) now).1.
Proof.
  unfold record_failure. cbv zeta.
  destruct (bump (shed (per_ip t) ip now) ip now) as [pi di].
  by destruct (bump (shed (per_account t) _ now) _ now) as [pa da].
Qed.

Lemma record_failure_penalty t ip u now :
  (record_failure t ip u now).2 = penalty_for (record_failure t ip u now).1 ip u now.
Proof.
  assert (∀ K `{Countable K} (m : gmap K Bucket) k,
    (bump m k now).2 = delay_of (bump m k now).1 k now) as Hb.
  { intros K ?? m k. destruct (bump_self m k now) as (b & Hb & Hl & Hf & ->).
    unfold delay_of. rewrite Hb. unfold current_delay. rewrite Hl. unfold duration_since.
    by rewrite (proj2 (N.ltb_ge _ _)) by lia. }
  unfold penalty_for. cbv zeta. rewrite record_failure_maps. simpl. rewrite <- !Hb.
  unfold record_failure. cbv zeta.
  destruct (bump (shed (per_ip t) ip now) ip now) as [pi di].
  by destruct (bump (shed (per_account t) _ now) _ now) as [pa da].
Qed.

(** A run of failed attempts on one account, each at a time from an address. *)
Definition fail_run (u : str) (t : LoginThrottle) (attempts : list (Instant * IpAddr)) :
    LoginThrottle :=
  foldl (λ t a, (record_failure t a.2 u a.1).1) t attempts.

(** No quiet window passes between [now], the attempts and [until]. *)
Fixpoint steady (now : Instant) (attempts : list (Instant * IpAddr)) (until : Instant) : Prop :=
  match attempts with
  | [] => (now ≤ until ≤ now + QUIET_WINDOW)%N
  | a :: rest => (now ≤ a.1 ≤ now + QUIET_WINDOW)%N ∧ steady a.1 rest until
  end.

Lemma counted_run u t attempts now until :
  steady now attempts until → attempts ≠ [] →
  (N.min (N.of_nat (length attempts)) U32_MAX ≤
     counted (per_account (fail_run u t attempts)) (normalize_username u) until)%N.
Proof.
  set (k := normalize_username u).
  assert (∀ attempts t now, steady now attempts until →
    ∀ c, (c ≤ U32_MAX)%N → (∀ n', (now ≤ n' ≤ now + QUIET_WINDOW)%N →
            (c ≤ counted (per_account t) k n')%N) →
    (N.min (c + N.of_nat (length attempts)) U32_MAX
       ≤ counted (per_account (fail_run u t attempts)) k until)%N) as Hgo.
  { clear t now attempts. induction attempts as [|[a ip] attempts IH]; intros t now Hs c Hc Hct; simpl.
    - etransitivity; [|apply Hct, Hs]. lia.
    - destruct Hs as [Ha Hs].
      etransitivity; [|apply (IH _ a Hs (N.min (c + 1) U32_MAX))]; [lia|lia|].
      intros n' Hn'. rewrite record_failure_maps. cbn [per_account]. fold k.
      rewrite counted_bump, shed_counted by done. specialize (Hct a Ha). simpl in Hct. lia. }
  intros Hs Hne. destruct attempts as [|[a ip] attempts]; [done|]. destruct Hs as [Ha Hs].
  etransitivity; [|apply (Hgo attempts _ a Hs 1%N); [by vm_compute|]].
  - cbn [length]. lia.
  - intros n' Hn'. rewrite record_failure_maps. cbn [per_account]. fold k.
    rewrite counted_bump by done. unfold U32_MAX. lia.
Qed.

Lemma required_delay_saturates (f : N) :
  required_delay (N.min f U32_MAX) = required_delay f.
Proof.
  rewrite !required_delay_secs. do 3 f_equal. unfold U32_MAX. lia.
Qed.

(** The backoff of an account doubles with every failed attempt, whatever
    addresses the attempts come from: after [k] failures without a quiet window
    in between, an attempt from anywhere waits at least [min 60 (2^(k-1))]
    seconds, and never more than 60; the shift cannot overflow. *)
Theorem account_backoff u t attempts now until ip :
  steady now attempts until → attempts ≠ [] →
  let k := N.of_nat (length attempts) in
  (from_secs (N.min 60 (2 ^ (N.min (k - 1) 6))) ≤ penalty_for (fail_run u t attempts) ip u until
     ≤ from_secs 60)%N ∧
  (∀ f, (as_secs (required_delay f) = N.min 60 (2 ^ N.min (f - 1) 6))%N).
Proof.
  cbv zeta. intros Hs Hne. pose proof (counted_run u t attempts now until Hs Hne) as Hc.
  split; [split|].
  - unfold penalty_for. cbv zeta. etransitivity; [|apply N.le_max_r].
    assert (1 ≤ length attempts)%nat by (destruct attempts; [done|simpl; lia]).
    rewrite delay_counted by (unfold U32_MAX in Hc; lia).
    etransitivity; [|apply required_delay_mono, Hc]. rewrite required_delay_saturates.
    rewrite required_delay_secs. by rewrite N.min_comm.
  - unfold penalty_for. cbv zeta. apply N.max_lub; apply delay_le_max.
  - intros f. rewrite required_delay_secs. unfold as_secs, from_secs.
    rewrite N.div_mul by done. apply N.min_comm.
Qed.

Lemma account_backoff_witness :
  (from_secs 8 ≤ penalty_for (fail_run " admin " new_throttle
     [(1, V4 [1]); (2, V4 [2]); (3, V4 [3]); (4, V4 [4])]%N) (V4 [9]%N) " admin " 5)%N.
Proof.
  refine (proj1 (proj1 (account_backoff " admin " new_throttle
    [(1, V4 [1]); (2, V4 [2]); (3, V4 [3]); (4, V4 [4])]%N 0 5 (V4 [9]%N) _ _))); [|done].
  repeat split; by vm_compute.
Defined.

(** The throttle touches only whom it should: a failure changes no later
    penalty of another address on another account (shedding expired buckets at
    the cap included); a success clears the caller's two buckets and nobody
    else's; and a bucket that was quiet for a full window costs nothing. *)
Theorem throttle_isolation t ip u ip' u' now now' :
  ip' ≠ ip → normalize_username u' ≠ normalize_username u → (now ≤ now')%N →
  penalty_for (record_failure t ip u now).1 ip' u' now' = penalty_for t ip' u' now' ∧
  penalty_for (record_success t ip u) ip' u' now' = penalty_for t ip' u' now' ∧
  penalty_for (record_success t ip u) ip u now' = 0%N ∧
  ((∀ b, per_ip t !! ip = Some b → (last_failure b + QUIET_WINDOW < now')%N) →
   (∀ b, per_account t !! normalize_username u = Some b →
      (last_failure b + QUIET_WINDOW < now')%N) →
   penalty_for t ip u now' = 0%N).
Proof.
  intros Hip Hu Hn. unfold penalty_for. cbv zeta. split_and!.
  - rewrite record_failure_maps. cbn [per_ip per_account].
    by rewrite !bump_other, !shed_delay.
  - unfold record_success, delay_of. simpl. by rewrite !lookup_delete_ne by done.
  - unfold record_success, delay_of. simpl. by rewrite !lookup_delete_eq.
  - intros Hi Ha. unfold delay_of.
    assert (∀ o, (∀ b, o = Some b → (last_failure b + QUIET_WINDOW < now')%N) →
      match o with Some b => current_delay b now' | None => 0%N end = 0%N) as Hz.
    { intros [b|] Ho; [|done]. specialize (Ho b eq_refl). unfold current_delay, duration_since.
      by rewrite (proj2 (N.ltb_lt _ _)) by lia. }
    by rewrite (Hz _ Hi), (Hz _ Ha).
Qed.

Lemma throttle_isolation_witness :
  penalty_for (record_failure new_throttle (V4 [1]%N) "a" 1).1 (V4 [2]%N) "b" 2 = 0%N.
Proof.
  rewrite (proj1 (throttle_isolation new_throttle (V4 [1]%N) "a" (V4 [2]%N) "b" 1 2
    ltac:(done) ltac:(by vm_compute) ltac:(done))).
  by vm_compute.
Defined.
