(* ===== verification/Users.v ===== *)
(** * Accounts, sessions and the second factor (src/src/services/auth.rs)

    [AuthService] as a state - the accounts (disk and cache) and the live
    sessions - and one computation per method.  Randomness, the clock and the
    other crates' cryptography are inputs: fresh ids, tokens, salts and codes are
    arguments of the method that draws them, argon2, SHA-256, HMAC and base32 are
    parameters of the section. *)

From S2P Require Export Cache Rbac Totp.

Definition TOTP_ISSUER : str := "DaygleVE".
Definition RECOVERY_CODE_COUNT : nat := 10.
Definition MIN_PASSWORD_LEN : N := 8.

Record TwoFactor := mkTwoFactor {
  tf_secret : option str; tf_enabled : bool; tf_recovery_hashes : list str }.
Definition no_two_factor : TwoFactor := mkTwoFactor None false [].

Record StoredUser := mkStored {
  user : User; password_hash : str; must_change_password : bool; two_factor : TwoFactor }.
Definition stored_id (s : StoredUser) : str := u_id (user s).

Record Session := mkSession { s_user_id : str; s_expires_at : Z }.

(** The requests of [daygleve_schema::auth]. *)
Record LoginRequest := mkLogin {
  l_username : str; l_password : str; l_totp_code : option str }.
Record CreateUserRequest := mkCreateUser {
  cu_username : str; cu_password : str; cu_roles : list Role }.
Record UpdateUserRequest := mkUpdateUser {
  uu_roles : option (list Role); uu_password : option str }.
Record LoginResponse := mkLoginResponse { lr_token : str; lr_expires_at : str; lr_user : User }.

Module AuthService.
Section service.
Context `{RS : RecordStore StoredUser}.
(** argon2: whether a PHC string is malformed (with the error's text), whether a
    password matches one, and hashing with a salt. *)
Context (phc_error : str → option str) (phc_matches : str → str → bool).
Context (argon2_hash : str → str → result str str).
(** SHA-256, base32 and HMAC-SHA1. *)
Context (sha256 : list N → list N).
Context (b32_decode : str → option (list N)) (hmac_sha1 : list N → list N → option (list N)).
(** [DateTime::to_rfc3339]. *)
Context (to_rfc3339 : Z → str).

Record state := mkState { users : Cached StoredUser; tokens : gmap str Session }.

Definition on_users {A} (m : Svc (Cached StoredUser) A) : Svc state A := λ s,
  let '(u, r) := m (users s) in (mkState u (tokens s), r).
Definition the_user (id : str) (s : state) : option StoredUser := cache (users s) !! id.

(** [.retain] on the sessions. *)
Definition retain_tokens (keep : str → Session → bool) : Svc state unit :=
  modify (λ s, mkState (users s) (filter (λ ts : str * Session, keep ts.1 ts.2 = true) (tokens s))).

Definition verify_password (password hash : str) : ApiResult unit :=
  match phc_error hash with
  | Some e => Err (internal ("bad password hash: " ++ e))
  | None => if phc_matches password hash then Ok tt
            else Err (unauthorized "invalid credentials")
  end.

Definition hash_password (what password salt : str) : ApiResult str :=
  map_err (λ e, internal (what ++ e)) (argon2_hash password salt).

Definition short_password (password : str) : bool := (len password <? MIN_PASSWORD_LEN)%N.
Definition password_too_short : AppError :=
  validation ("password must be at least " ++ dec MIN_PASSWORD_LEN ++ " characters").

Definition is_admin (s : StoredUser) : bool := bool_decide (Admin ∈ u_roles (user s)).
Definition admin_count (s : state) : nat :=
  length (List.filter is_admin (values (cache (users s)))).

(** [now_unix]: seconds since the epoch, clamped at 0. *)
Definition now_unix (now : Z) : N := Z.to_N (Z.max now 0).

(** *** Recovery codes *)

Definition lower_hex_digit (d : N) : char := if (d <? 10)%N then (48 + d)%N else (87 + d)%N.
(** [format!("{b:02x}")]. *)
Definition hex2 (b : N) : str := [lower_hex_digit (b / 16); lower_hex_digit (b mod 16)].
Definition hex_of (bs : list N) : str := flat_map hex2 bs.

(** One code from five random bytes. *)
Definition recovery_code (bytes : list N) : str :=
  let hex := hex_of bytes in take 5 hex ++ "-" ++ drop 5 hex.

Definition hash_recovery_code (code : str) : str :=
  let normalized := map to_ascii_lower (List.filter is_ascii_alphanumeric code) in
  hex_of (sha256 (bytes normalized)).

(** *** Startup *)

(** [load_or_seed]; [written] is the outcome of writing the generated password's
    file. *)
Definition load_or_seed (admin_password : option str) (generated salt new_id now_ts : str)
    (written : ApiResult unit) : Svc state unit :=
  existing ← on_users (λ u,
    match store_list (disk u) with (d, r) => (mkCached d (cache u), r) end);
  match existing with
  | _ :: _ => on_users (modify (λ u, mkCached (disk u) (insert_all stored_id existing (cache u))))
  | [] =>
      pw ← lift
        match admin_password with
        | Some password =>
            if short_password password then
              Err (validation ("DAYGLEVE_ADMIN_PASSWORD must be at least "
                               ++ dec MIN_PASSWORD_LEN ++ " characters"))
            else Ok (password, false)
        | None => _ ← written; Ok (generated, true)
        end;
      password_hash ← lift (hash_password "failed to hash admin password: " pw.1 salt);
      let admin := mkStored (mkUser new_id "admin" [Admin] now_ts None) password_hash pw.2
                     no_two_factor in
      on_users (persist (stored_id admin) admin)
  end.

(** *** Second factor *)

Definition verify_second_factor (user_id : str) (secret : option str) (code : str) (now : Z) :
    Svc state unit :=
  let totp_ok := match secret with
                 | Some secret => verify b32_decode hmac_sha1 secret code (now_unix now)
                 | None => false
                 end in
  if totp_ok then mret tt
  else
    let target := hash_recovery_code code in
    found ← gets (the_user user_id);
    stored ← lift (ok_or (unauthorized "invalid credentials") found);
    match list_find (λ h, h = target) (tf_recovery_hashes (two_factor stored)) with
    | Some (pos, _) =>
        let tf := two_factor stored in
        let stored := mkStored (user stored) (password_hash stored) (must_change_password stored)
          (mkTwoFactor (tf_secret tf) (tf_enabled tf) (delete pos (tf_recovery_hashes tf))) in
        on_users (persist user_id stored)
    | None => fail (unauthorized "invalid credentials")
    end.

(** *** Login and sessions *)

(** The account of a username, as [login] and [create_user] match it. *)
Definition named (username : str) (s : StoredUser) : bool :=
  eq_ignore_ascii_case (u_username (user s)) username.

(** The second-factor gate of [login]. *)
Definition login_second_factor (user_id : str) (req : LoginRequest) (now : Z) : Svc state unit :=
  second_factor ← gets (λ s, (λ u, (tf_enabled (two_factor u), tf_secret (two_factor u)))
                             <$> the_user user_id s);
  match second_factor with
  | Some (true, secret) =>
      let code := match l_totp_code req with
                  | Some c => if is_empty (trim c) then None else Some (trim c)
                  | None => None end in
      match code with
      | None => fail (two_factor_required "a two-factor authentication code is required")
      | Some code => verify_second_factor user_id secret code now
      end
  | _ => mret tt
  end.

(** The last part of [login]: stamp the account and open the session. It is what the code
    does for a lifetime that chrono can represent and add to the time (some 262,000
    years); a longer one, which only DAYGLEVE_TOKEN_TTL_SECS can ask for, makes
    [Duration::seconds] or the addition panic, after the account is stamped and before a
    session is opened, and no login succeeds. *)
Definition login_finish (user_id : str) (ttl_secs : N) (token : str) (now : Z) :
    Svc state LoginResponse :=
  found ← gets (the_user user_id);
  stored ← lift (ok_or (unauthorized "invalid credentials") found);
  let u := user stored in
  let u := mkUser (u_id u) (u_username u) (u_roles u) (u_created_at u) (Some (to_rfc3339 now)) in
  let stored := mkStored u (password_hash stored) (must_change_password stored)
                  (two_factor stored) in
  let ttl := Z.of_N (N.min ttl_secs I64_MAX) in
  let expires_at := (now + ttl)%Z in
  _ ← modify (λ s, mkState (mkCached (disk (users s)) (<[user_id := stored]> (cache (users s))))
                     (<[token := mkSession (u_id u) expires_at]> (tokens s)));
  mret (mkLoginResponse token (to_rfc3339 expires_at) u).

Definition login (req : LoginRequest) (ttl_secs : N) (token : str) (now : Z) :
    Svc state LoginResponse :=
  found ← gets (λ s, List.find (named (trim (l_username req))) (values (cache (users s))));
  match found with
  | None => fail (unauthorized "invalid credentials")
  | Some stored =>
      let user_id := stored_id stored in
      _ ← lift (verify_password (l_password req) (password_hash stored));
      _ ← login_second_factor user_id req now;
      login_finish user_id ttl_secs token now
  end.

Definition logout (token : str) : Svc state unit :=
  modify (λ s, mkState (users s) (delete token (tokens s))).

Definition authenticate (token : str) (now : Z) : Svc state CurrentUser := λ s,
  match tokens s !! token with
  | None => (s, Err (unauthorized "invalid or expired token"))
  | Some session =>
      if (s_expires_at session <=? now)%Z then
        (mkState (users s) (delete token (tokens s)),
         Err (unauthorized "invalid or expired token"))
      else
        match the_user (s_user_id session) s with
        | None => (s, Err (unauthorized "unknown user"))
        | Some u =>
            (s, Ok (mkCurrent (user u) (effective_permissions (u_roles (user u)))
                      (must_change_password u) (tf_enabled (two_factor u)) []))
        end
  end.

Definition user_by_id (id : str) (s : state) : option User := user <$> the_user id s.

Definition list_users (s : state) : list User :=
  sort_by (λ a b, str_cmp (u_username a) (u_username b)) (map user (values (cache (users s)))).

(** *** Accounts *)

Definition create_user (req : CreateUserRequest) (salt new_id now_ts : str) : Svc state User :=
  let username := trim (cu_username req) in
  if is_empty username || (64 <? len username)%N
     || existsb (λ c, is_control c || is_whitespace c) username then
    fail (validation
      "username must be 1..=64 characters with no whitespace or control characters")
  else if short_password (cu_password req) then fail password_too_short
  else
    taken ← gets (λ s, existsb (named username) (values (cache (users s))));
    if taken : bool then fail (conflict "a user with that name already exists")
    else
      password_hash ← lift (hash_password "failed to hash password: " (cu_password req) salt);
      let stored := mkStored (mkUser new_id username (cu_roles req) now_ts None) password_hash
                      false no_two_factor in
      _ ← on_users (persist (stored_id stored) stored);
      mret (user stored).

Definition set_roles (u : User) (roles : list Role) : User :=
  mkUser (u_id u) (u_username u) roles (u_created_at u) (u_last_login_at u).

(** The role part of [update_user]. *)
Definition updated_roles (s : state) (stored : StoredUser) (roles : option (list Role)) :
    ApiResult StoredUser :=
  match roles with
  | None => Ok stored
  | Some roles =>
      let removes_admin := is_admin stored && negb (bool_decide (Admin ∈ roles)) in
      if removes_admin && (admin_count s <=? 1)%nat then
        Err (conflict "cannot remove the admin role from the last administrator")
      else Ok (mkStored (set_roles (user stored) roles) (password_hash stored)
                 (must_change_password stored) (two_factor stored))
  end.

(** The password part of [update_user]. *)
Definition updated_password (stored : StoredUser) (password : option str) (salt : str) :
    ApiResult StoredUser :=
  match password with
  | None => Ok stored
  | Some password =>
      if short_password password then Err password_too_short
      else
        hash ← hash_password "failed to hash password: " password salt;
        Ok (mkStored (user stored) hash false (two_factor stored))
  end.

Definition update_user (id : str) (req : UpdateUserRequest) (salt : str) : Svc state User :=
  found ← gets (the_user id);
  stored ← lift (ok_or (not_found "user not found") found);
  s ← gets (λ s, s);
  stored ← lift (updated_roles s stored (uu_roles req));
  stored ← lift (updated_password stored (uu_password req) salt);
  _ ← on_users (persist id stored);
  _ ← match uu_password req with
      | Some _ => retain_tokens (λ _ session, negb (s_user_id session =s? id))
      | None => mret tt
      end;
  mret (user stored).

Definition delete_user (id : str) : Svc state unit :=
  found ← gets (the_user id);
  target ← lift (ok_or (not_found "user not found") found);
  admins ← gets admin_count;
  if is_admin target && (admins <=? 1)%nat then
    fail (conflict "cannot delete the last administrator")
  else
    _ ← on_users (evict id);
    retain_tokens (λ _ session, negb (s_user_id session =s? id)).

Definition change_password (user_id current_token current_password new_password salt : str) :
    Svc state unit :=
  if short_password new_password then fail password_too_short
  else
    found ← gets (the_user user_id);
    stored ← lift (ok_or (unauthorized "unknown user") found);
    _ ← lift (verify_password current_password (password_hash stored));
    hash ← lift (hash_password "failed to hash password: " new_password salt);
    _ ← on_users (persist user_id (mkStored (user stored) hash false (two_factor stored)));
    retain_tokens (λ token session,
      negb (s_user_id session =s? user_id) || (token =s? current_token)).

(** *** Second-factor enrollment *)

Definition two_factor_enabled (user_id : str) (s : state) : bool :=
  match the_user user_id s with Some u => tf_enabled (two_factor u) | None => false end.

Definition set_two_factor (s : StoredUser) (tf : TwoFactor) : StoredUser :=
  mkStored (user s) (password_hash s) (must_change_password s) tf.

(** [secret] is the fresh secret of [totp::generate_secret]. *)
Definition two_factor_setup (user_id secret : str) : Svc state (str * str) :=
  found ← gets (the_user user_id);
  stored ← lift (ok_or (unauthorized "unknown user") found);
  if tf_enabled (two_factor stored) then
    fail (conflict
      "two-factor authentication is already enabled; disable it before re-enrolling")
  else
    let uri := provisioning_uri secret TOTP_ISSUER (u_username (user stored)) in
    _ ← on_users (persist user_id (set_two_factor stored (mkTwoFactor (Some secret) false [])));
    mret (secret, uri).

(** [random] are the random bytes of [generate_recovery_codes]. *)
Definition two_factor_confirm (user_id code : str) (random : list (list N)) (now : Z) :
    Svc state (list str) :=
  found ← gets (the_user user_id);
  stored ← lift (ok_or (unauthorized "unknown user") found);
  if tf_enabled (two_factor stored) then
    fail (conflict "two-factor authentication is already enabled")
  else
    secret ← lift (ok_or (conflict "start two-factor setup before confirming a code")
                     (tf_secret (two_factor stored)));
    if negb (verify b32_decode hmac_sha1 secret code (now_unix now)) then
      fail (validation "the code is incorrect or has expired; try again")
    else
      let recovery_codes := map recovery_code (take RECOVERY_CODE_COUNT random) in
      _ ← on_users (persist user_id (set_two_factor stored
            (mkTwoFactor (tf_secret (two_factor stored)) true
               (map hash_recovery_code recovery_codes))));
      mret recovery_codes.

Definition two_factor_disable (user_id code : str) (now : Z) : Svc state unit :=
  found ← gets (the_user user_id);
  stored ← lift (ok_or (unauthorized "unknown user") found);
  if negb (tf_enabled (two_factor stored)) then
    fail (conflict "two-factor authentication is not enabled")
  else
    _ ← verify_second_factor user_id (tf_secret (two_factor stored)) code now;
    found ← gets (the_user user_id);
    stored ← lift (ok_or (unauthorized "unknown user") found);
    on_users (persist user_id (set_two_factor stored no_two_factor)).
End service.
End AuthService.
