(* ===== verification/UsersProofs.v ===== *)
(** * Accounts: invariants

    Every method changes the accounts by a few elementary effects.  The
    invariants - the cache agrees with the disk, usernames are unique, an
    administrator remains - are proved once per effect and hold for every run of
    the service by induction. *)

From S2P Require Export Users.
From stdpp Require Import relations.

Import AuthService.

Section proofs.
Context `{RS : RecordStore StoredUser}.
Implicit Types s : state.

(** Records that differ at most in the time of the last login, which [login]
    keeps in memory only. *)
Definition same_account (a b : StoredUser) : Prop :=
  u_id (user a) = u_id (user b) ∧ u_username (user a) = u_username (user b)
  ∧ u_roles (user a) = u_roles (user b) ∧ password_hash a = password_hash b
  ∧ must_change_password a = must_change_password b ∧ two_factor a = two_factor b.

(** The elementary effects on the accounts; [disable] tells whether turning a
    second factor off is among them, [new] which account may be created. *)
Inductive effect (disable : bool) (new : option str) s s' : Prop :=
  | eff_same :
      cache (users s') = cache (users s) →
      (∀ k, record (disk (users s')) k = record (disk (users s)) k) → effect disable new s s'
  | eff_touch id u v :
      the_user id s = Some u → same_account u v →
      cache (users s') = <[id := v]> (cache (users s)) →
      disk (users s') = disk (users s) → effect disable new s s'
  | eff_update id u v :
      the_user id s = Some u → u_id (user v) = u_id (user u) →
      u_username (user v) = u_username (user u) →
      (is_admin u = true → is_admin v = true ∨ (1 < admin_count s)%nat) →
      (tf_enabled (two_factor u) = true → tf_enabled (two_factor v) = true ∨ disable = true) →
      cache (users s') = <[id := v]> (cache (users s)) →
      (∀ k, record (disk (users s')) k = if decide (k = id) then Some v
                                         else record (disk (users s)) k) →
      effect disable new s s'
  | eff_create id v :
      new = Some id → the_user id s = None → u_id (user v) = id →
      Forall (λ w, named (u_username (user v)) w = false) (values (cache (users s))) →
      cache (users s') = <[id := v]> (cache (users s)) →
      (∀ k, record (disk (users s')) k = if decide (k = id) then Some v
                                         else record (disk (users s)) k) →
      effect disable new s s'
  | eff_delete id u :
      the_user id s = Some u → (is_admin u = true → (1 < admin_count s)%nat) →
      cache (users s') = delete id (cache (users s)) →
      (∀ k, record (disk (users s')) k = if decide (k = id) then None
                                         else record (disk (users s)) k) →
      effect disable new s s'.

(** *** The invariant *)

Record auth_inv s : Prop := {
  inv_agree : ∀ id, option_Forall2 same_account (record (disk (users s)) id) (the_user id s);
  inv_keyed : ∀ id u, the_user id s = Some u → stored_id u = id;
  inv_names : ∀ i j u v, the_user i s = Some u → the_user j s = Some v →
    named (u_username (user v)) u = true → i = j;
  inv_admin : ∃ id u, the_user id s = Some u ∧ is_admin u = true }.

Lemma same_account_refl u : same_account u u.
Proof. done. Qed.

Lemma same_account_trans a b c : same_account a b → same_account b c → same_account a c.
Proof. unfold same_account. naive_solver congruence. Qed.

Lemma same_account_admin a b : same_account a b → is_admin b = is_admin a.
Proof. intros (_ & _ & H & _). unfold is_admin. by rewrite H. Qed.

Lemma named_sym u v :
  named (u_username (user v)) u = true → named (u_username (user u)) v = true.
Proof. unfold named, eq_ignore_ascii_case. rewrite !str_eqb_eq. congruence. Qed.

(** Two administrators can be told apart. *)
Lemma other_admin s id u :
  the_user id s = Some u → (1 < admin_count s)%nat →
  ∃ k v, k ≠ id ∧ the_user k s = Some v ∧ is_admin v = true.
Proof.
  unfold admin_count, the_user. intros Hu Hc.
  rewrite (values_lookup _ _ _ Hu) in Hc. simpl in Hc.
  destruct (List.filter is_admin (values (delete id (cache (users s))))) as [|v l] eqn:E.
  { destruct (is_admin u); simpl in Hc; lia. }
  assert (v ∈ values (delete id (cache (users s))) ∧ is_admin v = true) as [Hv Ha].
  { rewrite list_elem_of_In, <- List.filter_In, E. by left. }
  apply elem_of_values in Hv as [k Hk]. apply lookup_delete_Some in Hk as [? ?].
  by exists k, v.
Qed.

Ltac lookup_cases H := unfold the_user in H; rewrite ?lookup_insert_Some, ?lookup_delete_Some in H.

Lemma effect_inv disable new s s' : effect disable new s s' → auth_inv s → auth_inv s'.
Proof.
  intros Heff [Hag Hk Hn (ia & a & Ha & Had)]. destruct Heff as
    [Hc Hd|id u v Hu Hs Hc Hd|id u v Hu Hid Hname Hadm _ Hc Hd|id v _ Hu Hid Hf Hc Hd|id u Hu Hadm Hc Hd];
    unfold the_user in *.
  - split; unfold the_user; rewrite ?Hc; [intros k; rewrite Hd; apply Hag|done|done|eauto].
  - assert (Hlook : ∀ k w, cache (users s') !! k = Some w →
      ∃ w0, cache (users s) !! k = Some w0 ∧ same_account w0 w).
    { intros k w. rewrite Hc, lookup_insert_Some. intros [[<- <-]|[_ ?]]; eauto using same_account_refl. }
    split; unfold the_user.
    + intros k. rewrite Hd, Hc. specialize (Hag k). destruct (decide (k = id)) as [->|Hne].
      * rewrite lookup_insert_eq. rewrite Hu in Hag. inversion Hag; simplify_eq. constructor.
        by eapply same_account_trans.
      * by rewrite lookup_insert_ne.
    + intros k w (w0 & Hw & E)%Hlook. unfold stored_id. rewrite <- (proj1 E). by eapply Hk.
    + intros i j x y (x0 & Hx & Ex)%Hlook (y0 & Hy & Ey)%Hlook. intros Hnm. eapply Hn; [done..|].
      unfold named in *. destruct Ex as (_ & -> & _), Ey as (_ & -> & _). done.
    + destruct (decide (ia = id)) as [->|Hne].
      * exists id, v. rewrite Hc, lookup_insert_eq. split; [done|].
        rewrite (same_account_admin _ _ Hs). congruence.
      * exists ia, a. by rewrite Hc, lookup_insert_ne.
  - assert (Hlook : ∀ k w, cache (users s') !! k = Some w →
      ∃ w0, cache (users s) !! k = Some w0 ∧ u_id (user w) = u_id (user w0)
            ∧ u_username (user w) = u_username (user w0)).
    { intros k w. rewrite Hc, lookup_insert_Some. intros [[<- <-]|[_ ?]]; eauto. }
    split; unfold the_user.
    + intros k. rewrite Hd, Hc. case_decide as Hki; [subst k; rewrite lookup_insert_eq|].
      * by constructor.
      * rewrite lookup_insert_ne by done. apply Hag.
    + intros k w (w0 & Hw & E & _)%Hlook. unfold stored_id. rewrite E. by eapply Hk.
    + intros i j x y (x0 & Hx & _ & Ex)%Hlook (y0 & Hy & _ & Ey)%Hlook. intros Hnm.
      eapply Hn; [done..|]. unfold named in *. by rewrite <- Ex, <- Ey.
    + destruct (decide (ia = id)) as [->|Hne]; [|exists ia, a; by rewrite Hc, lookup_insert_ne].
      assert (a = u) as -> by congruence. destruct (Hadm Had) as [?|Hcount].
      * exists id, v. by rewrite Hc, lookup_insert_eq.
      * destruct (other_admin s id u Hu Hcount) as (k & w & Hkid & Hw & ?).
        exists k, w. by rewrite Hc, lookup_insert_ne.
  - split; unfold the_user.
    + intros k. rewrite Hd, Hc. case_decide as Hki; [subst k; rewrite lookup_insert_eq|].
      * by constructor.
      * rewrite lookup_insert_ne by done. apply Hag.
    + intros k w. rewrite Hc, lookup_insert_Some. intros [[<- <-]|[_ ?]]; [done|by eapply Hk].
    + assert (Hfresh : ∀ i x, cache (users s) !! i = Some x →
        named (u_username (user v)) x = false).
      { intros i x Hx. apply (proj1 (Forall_forall _ _) Hf), elem_of_values. eauto. }
      intros i j x y. rewrite Hc, !lookup_insert_Some.
      intros [[<- <-]|[Hi Hx]] [[<- <-]|[Hj Hy]] Hnm; [done| | |by eapply Hn].
      * apply named_sym in Hnm. by rewrite (Hfresh _ _ Hy) in Hnm.
      * by rewrite (Hfresh _ _ Hx) in Hnm.
    + exists ia, a. rewrite Hc, lookup_insert_ne; [done|]. intros ->. congruence.
  - split; unfold the_user.
    + intros k. rewrite Hd, Hc. case_decide as Hki; [subst k; rewrite lookup_delete_eq|].
      * by constructor.
      * rewrite lookup_delete_ne by done. apply Hag.
    + intros k w. rewrite Hc, lookup_delete_Some. intros [_ ?]. by eapply Hk.
    + intros i j x y. rewrite Hc, !lookup_delete_Some. intros [_ ?] [_ ?]. by eapply Hn.
    + destruct (decide (ia = id)) as [->|Hne]; [|exists ia, a; by rewrite Hc, lookup_delete_ne].
      assert (a = u) as -> by congruence. destruct (other_admin s id u Hu (Hadm Had)) as (k & w & Hkid & Hw & ?).
      exists k, w. by rewrite Hc, lookup_delete_ne.
Qed.

(** *** What each method does to the accounts *)

Lemma persist_users id v s s' r :
  on_users (persist id v) s = (s', r) →
  tokens s' = tokens s ∧
  match r with
  | Ok _ => cache (users s') = <[id := v]> (cache (users s)) ∧
            (∀ k, record (disk (users s')) k = if decide (k = id) then Some v
                                               else record (disk (users s)) k)
  | Err _ => cache (users s') = cache (users s) ∧
             (∀ k, record (disk (users s')) k = record (disk (users s)) k)
  end.
Proof.
  unfold on_users, persist.
  destruct (store_put id v (disk (users s))) as [d [[]|e]] eqn:E; intros [= <- <-]; simpl.
  - split_and!; [done|done|]. intros k. apply (put_ok _ _ _ _ E).
  - split_and!; [done|done|]. intros k. apply (put_err _ _ _ _ _ E).
Qed.

Lemma evict_users id s s' r :
  on_users (evict id) s = (s', r) →
  tokens s' = tokens s ∧
  match r with
  | Ok _ => cache (users s') = delete id (cache (users s)) ∧
            (∀ k, record (disk (users s')) k = if decide (k = id) then None
                                               else record (disk (users s)) k)
  | Err _ => cache (users s') = cache (users s) ∧
             (∀ k, record (disk (users s')) k = record (disk (users s)) k)
  end.
Proof.
  unfold on_users, evict.
  destruct (store_delete id (disk (users s))) as [d [b|e]] eqn:E; intros [= <- <-]; simpl.
  - split_and!; [done|done|]. intros k. apply (delete_ok _ _ _ _ E).
  - split_and!; [done|done|]. intros k. apply (delete_err _ _ _ _ E).
Qed.

(** Rewriting an account in place. *)
Lemma persist_effect disable new id u v s s' r :
  on_users (persist id v) s = (s', r) →
  the_user id s = Some u → u_id (user v) = u_id (user u) →
  u_username (user v) = u_username (user u) →
  (is_admin u = true → is_admin v = true ∨ (1 < admin_count s)%nat) →
  (tf_enabled (two_factor u) = true → tf_enabled (two_factor v) = true ∨ disable = true) →
  effect disable new s s'.
Proof.
  intros [_ E]%persist_users **.
  destruct r; destruct E as [Hc Hd]; [by eapply eff_update|by apply eff_same].
Qed.

Lemma effect_refl disable new s : effect disable new s s.
Proof. by apply eff_same. Qed.

Lemma effect_tokens disable new s s1 t :
  effect disable new s s1 → effect disable new s (mkState (users s1) t).
Proof.
  destruct 1; [by apply eff_same|by eapply eff_touch|by eapply eff_update|by eapply eff_create
              |by eapply eff_delete].
Qed.

(** Steps that only read. *)
Ltac svc := unfold mbind, svc_bind, gets, lift, fail, mret, svc_ret, modify, retain_tokens in *.

Section methods.
Context (phc_error : str → option str) (phc_matches : str → str → bool).
Context (argon2_hash : str → str → result str str) (sha256 : list N → list N).
Context (b32_decode : str → option (list N)) (hmac_sha1 : list N → list N → option (list N)).
Context (to_rfc3339 : Z → str).

Local Abbreviation vsf := (verify_second_factor sha256 b32_decode hmac_sha1).

(** A second factor that passes: a code of the current window, or one unspent
    recovery code, which it spends. *)
Lemma second_factor_spec uid secret code now s s' r :
  vsf uid secret code now s = (s', r) →
  tokens s' = tokens s ∧ effect false None s s' ∧
  (∀ k, k ≠ uid → the_user k s' = the_user k s) ∧
  (r = Ok tt →
    (s' = s ∧ ∃ sec, secret = Some sec ∧ verify b32_decode hmac_sha1 sec code (now_unix now) = true) ∨
    ∃ u pos, the_user uid s = Some u ∧
      tf_recovery_hashes (two_factor u) !! pos = Some (hash_recovery_code sha256 code) ∧
      the_user uid s' = Some (set_two_factor u (mkTwoFactor (tf_secret (two_factor u))
        (tf_enabled (two_factor u)) (delete pos (tf_recovery_hashes (two_factor u)))))).
Proof.
  unfold verify_second_factor.
  destruct (match secret with Some _ => _ | None => false end) eqn:Et.
  { intros [= <- <-]. split_and!; [done|apply effect_refl|done|]. intros _. left.
    destruct secret as [sec|]; [by eauto|done]. }
  svc. destruct (the_user uid s) as [u|] eqn:Eu; simpl;
    [|intros [= <- <-]; split_and!; [done|apply effect_refl|done|done]].
  destruct (list_find _ _) as [[pos h]|] eqn:Ef.
  2: { intros [= <- <-]. split_and!; [done|apply effect_refl|done|done]. }
  apply list_find_Some in Ef as (Hh & -> & _). intros E.
  pose proof (persist_users _ _ _ _ _ E) as [Ht Hr]. split_and!; [done| | |].
  - eapply persist_effect; [exact E|exact Eu|done|done|by left|by left].
  - intros k Hk. unfold the_user. destruct r; destruct Hr as [-> _]; [by rewrite lookup_insert_ne|done].
  - intros ->. right. exists u, pos. split_and!; [done|done|]. unfold the_user.
    destruct Hr as [-> _]. by rewrite lookup_insert_eq.
Qed.

Lemma login_gate_spec uid req now s s' r :
  login_second_factor sha256 b32_decode hmac_sha1 uid req now s = (s', r) →
  tokens s' = tokens s ∧ effect false None s s' ∧ (∀ k, k ≠ uid → the_user k s' = the_user k s).
Proof.
  unfold login_second_factor. svc.
  destruct (the_user uid s) as [u|]; simpl; [|by intros [= <- <-]; split_and!; [done|apply effect_refl|]].
  destruct (tf_enabled (two_factor u)); [|by intros [= <- <-]; split_and!; [done|apply effect_refl|]].
  destruct (l_totp_code req) as [c|]; [destruct (is_empty (trim c))|];
    try (by intros [= <- <-]; split_and!; [done|apply effect_refl|]).
  by intros (? & ? & ? & _)%second_factor_spec.
Qed.

Lemma login_finish_spec uid ttl token now s s' r :
  login_finish to_rfc3339 uid ttl token now s = (s', r) →
  effect false None s s' ∧
  match r with
  | Ok resp => ∃ u v, the_user uid s = Some u ∧ same_account u v ∧ the_user uid s' = Some v ∧
      (∀ k, k ≠ uid → the_user k s' = the_user k s) ∧
      tokens s' = <[token := mkSession (u_id (user u)) (now + Z.of_N (N.min ttl I64_MAX))]> (tokens s) ∧
      lr_token resp = token ∧ lr_user resp = user v
  | Err e => s' = s ∧ the_user uid s = None ∧ e = unauthorized "invalid credentials"
  end.
Proof.
  unfold login_finish. svc. destruct (the_user uid s) as [u|] eqn:Eu; simpl.
  2: { intros [= <- <-]. split; [apply effect_refl|done]. }
  intros [= <- <-]. set (v := mkStored _ _ _ _). split; [by eapply (eff_touch _ _ _ _ uid u v)|].
  exists u, v. unfold the_user. simpl. split_and!; try done; [by rewrite lookup_insert_eq|].
  intros k Hk. by rewrite lookup_insert_ne.
Qed.

Local Abbreviation login := (login phc_error phc_matches sha256 b32_decode hmac_sha1 to_rfc3339).

Lemma rtc_one disable new s s' : effect disable new s s' → rtc (effect disable new) s s'.
Proof. apply rtc_once. Qed.

Lemma rtc_tokens disable new s s1 t :
  rtc (effect disable new) s s1 → rtc (effect disable new) s (mkState (users s1) t).
Proof.
  intros H. eapply rtc_r; [exact H|]. by apply eff_same.
Qed.

Lemma login_effects req ttl token now s s' r :
  login req ttl token now s = (s', r) → rtc (effect false None) s s'.
Proof.
  unfold AuthService.login. svc.
  destruct (List.find _ _) as [u|]; [|by intros [= <- <-]].
  destruct (verify_password _ _ _ _) as [[]|e]; [|by intros [= <- <-]].
  destruct (login_second_factor _ _ _ _ _ _ s) as [s1 [[]|e]] eqn:E1;
    apply login_gate_spec in E1 as (_ & E1 & _).
  - intros [E2 _]%login_finish_spec. eapply rtc_l; [exact E1|]. by apply rtc_one.
  - intros [= <- <-]. by apply rtc_one.
Qed.

Lemma create_effects req salt id ts s s' r :
  the_user id s = None →
  create_user argon2_hash req salt id ts s = (s', r) → rtc (effect false (Some id)) s s'.
Proof.
  intros Hid. unfold create_user. cbv zeta. svc.
  destruct (_ || _); [by intros [= <- <-]|]. destruct (short_password _); [by intros [= <- <-]|].
  destruct (existsb _ _) eqn:Ex; [by intros [= <- <-]|]. apply existsb_false in Ex.
  destruct (hash_password _ _ _ _) as [h|e]; [|by intros [= <- <-]].
  set (v := mkStored _ _ _ _). destruct (on_users _ s) as [s1 [[]|e]] eqn:E;
    intros [= <- <-]; apply rtc_one; pose proof (persist_users _ _ _ _ _ E) as [_ [Hc Hd]].
  - by eapply (eff_create _ _ _ _ id v).
  - by apply eff_same.
Qed.

Lemma updated_roles_spec s u v roles :
  updated_roles s u roles = Ok v →
  u_id (user v) = u_id (user u) ∧ u_username (user v) = u_username (user u)
  ∧ two_factor v = two_factor u ∧
  (is_admin u = true → is_admin v = true ∨ (1 < admin_count s)%nat).
Proof.
  unfold updated_roles. destruct roles as [roles|]; [|intros [= <-]; by auto].
  cbv zeta. destruct (is_admin u && negb (bool_decide (Admin ∈ roles))) eqn:E; simpl.
  - destruct (admin_count s <=? 1)%nat eqn:Ec; [done|]. intros [= <-]. apply Nat.leb_gt in Ec. by auto.
  - intros [= <-]. split_and!; [done..|]. intros Ha. left. rewrite Ha in E. simpl in E.
    apply negb_false_iff in E. exact E.
Qed.

Lemma updated_password_spec u v pw salt :
  updated_password argon2_hash u pw salt = Ok v → user v = user u ∧ two_factor v = two_factor u.
Proof.
  unfold updated_password. destruct pw as [pw|]; [|by intros [= <-]].
  destruct (short_password pw); [done|]. intros H. inv_ok. done.
Qed.

Lemma update_effects id req salt s s' r :
  update_user argon2_hash id req salt s = (s', r) → rtc (effect false None) s s'.
Proof.
  unfold update_user. svc. destruct (the_user id s) as [u|] eqn:Eu; simpl; [|by intros [= <- <-]].
  destruct (updated_roles s u _) as [v|e] eqn:Er; [|by intros [= <- <-]].
  destruct (updated_password _ v _ _) as [w|e] eqn:Ep; [|by intros [= <- <-]].
  apply updated_roles_spec in Er as (Hi & Hn & Ht & Ha). apply updated_password_spec in Ep as [Hu Ht'].
  destruct (on_users _ s) as [s1 r1] eqn:E.
  assert (effect false None s s1) as Heff.
  { eapply (persist_effect _ _ id u w); [exact E|exact Eu|by rewrite Hu|by rewrite Hu| |].
    - unfold is_admin in *. by rewrite Hu.
    - rewrite Ht', Ht. by left. }
  destruct r1 as [[]|e]; [|intros [= <- <-]; by apply rtc_one].
  destruct (uu_password req); intros [= <- <-]; [|by apply rtc_one].
  by apply rtc_tokens, rtc_one.
Qed.

Lemma delete_effects id s s' r :
  delete_user id s = (s', r) → rtc (effect false None) s s'.
Proof.
  unfold delete_user. svc. destruct (the_user id s) as [u|] eqn:Eu; simpl; [|by intros [= <- <-]].
  destruct (_ && _) eqn:Ea; [by intros [= <- <-]|].
  destruct (on_users _ s) as [s1 r1] eqn:E.
  pose proof (evict_users _ _ _ _ E) as [_ Hr].
  assert (effect false None s s1) as Heff.
  { destruct r1 as [[]|e]; destruct Hr as [Hc Hd]; [|by apply eff_same].
    eapply (eff_delete _ _ _ _ id u); [done| |done|done]. intros Had. rewrite Had in Ea.
    by apply Nat.leb_gt in Ea. }
  destruct r1 as [[]|e]; intros [= <- <-]; [by apply rtc_tokens, rtc_one|by apply rtc_one].
Qed.

Lemma change_password_effects uid tok cur new salt s s' r :
  change_password phc_error phc_matches argon2_hash uid tok cur new salt s = (s', r) →
  rtc (effect false None) s s'.
Proof.
  unfold change_password. svc. destruct (short_password new); [by intros [= <- <-]|].
  destruct (the_user uid s) as [u|] eqn:Eu; simpl; [|by intros [= <- <-]].
  destruct (verify_password _ _ _ _) as [[]|e]; [|by intros [= <- <-]].
  destruct (hash_password _ _ _ _) as [h|e]; [|by intros [= <- <-]].
  destruct (on_users _ s) as [s1 r1] eqn:E.
  assert (effect false None s s1) as Heff.
  { eapply (persist_effect _ _ uid u); [exact E|exact Eu|done|done|by left|by left]. }
  destruct r1 as [[]|e]; intros [= <- <-]; [by apply rtc_tokens, rtc_one|by apply rtc_one].
Qed.

Lemma setup_effects uid secret s s' r :
  two_factor_setup uid secret s = (s', r) → rtc (effect false None) s s'.
Proof.
  unfold two_factor_setup. svc. destruct (the_user uid s) as [u|] eqn:Eu; simpl; [|by intros [= <- <-]].
  destruct (tf_enabled (two_factor u)) eqn:Et; [by intros [= <- <-]|].
  destruct (on_users _ s) as [s1 r1] eqn:E.
  assert (effect false None s s1) as Heff.
  { eapply (persist_effect _ _ uid u); [exact E|exact Eu|done|done|by left|by rewrite Et]. }
  destruct r1; intros [= <- <-]; by apply rtc_one.
Qed.

Lemma confirm_effects uid code random now s s' r :
  two_factor_confirm sha256 b32_decode hmac_sha1 uid code random now s = (s', r) →
  rtc (effect false None) s s'.
Proof.
  unfold two_factor_confirm. svc.
  destruct (the_user uid s) as [u|] eqn:Eu; simpl; [|by intros [= <- <-]].
  destruct (tf_enabled (two_factor u)) eqn:Et; [by intros [= <- <-]|].
  destruct (tf_secret (two_factor u)) as [sec|]; simpl; [|by intros [= <- <-]].
  destruct (negb _); [by intros [= <- <-]|].
  destruct (on_users _ s) as [s1 r1] eqn:E.
  assert (effect false None s s1) as Heff.
  { eapply (persist_effect _ _ uid u); [exact E|exact Eu|done|done|by left|by left]. }
  destruct r1; intros [= <- <-]; by apply rtc_one.
Qed.

Lemma effect_weaken s s' : effect false None s s' → effect true None s s'.
Proof.
  destruct 1; [by apply eff_same|by eapply eff_touch| |by eapply eff_create|by eapply eff_delete].
  eapply eff_update; eauto.
Qed.

Lemma disable_effects uid code now s s' r :
  two_factor_disable sha256 b32_decode hmac_sha1 uid code now s = (s', r) →
  rtc (effect true None) s s'.
Proof.
  unfold two_factor_disable. svc.
  destruct (the_user uid s) as [u|] eqn:Eu; simpl; [|by intros [= <- <-]].
  destruct (negb _); [by intros [= <- <-]|].
  destruct (vsf _ _ _ _ s) as [s1 r1] eqn:E1. apply second_factor_spec in E1 as (_ & E1 & _).
  apply effect_weaken in E1. destruct r1 as [[]|e]; [|intros [= <- <-]; by apply rtc_one].
  destruct (the_user uid s1) as [w|] eqn:Ew; simpl; [|intros [= <- <-]; by apply rtc_one].
  intros E. eapply rtc_l; [exact E1|]. apply rtc_one.
  eapply (persist_effect _ _ uid w); [exact E|exact Ew|done|done|by left|by right].
Qed.

(** *** Runs *)

(** A call of the service, with the randomness and the clock it reads. *)
Inductive call :=
  | CLogin (req : LoginRequest) (ttl : N) (token : str) (now : Z)
  | CLogout (token : str)
  | CAuthenticate (token : str) (now : Z)
  | CCreate (req : CreateUserRequest) (salt id ts : str)
  | CUpdate (id : str) (req : UpdateUserRequest) (salt : str)
  | CDelete (id : str)
  | CChangePassword (uid token cur new salt : str)
  | CSetup (uid secret : str)
  | CConfirm (uid code : str) (random : list (list N)) (now : Z)
  | CDisable (uid code : str) (now : Z).

Definition exec (c : call) (s : state) : state :=
  match c with
  | CLogin req ttl token now => (login req ttl token now s).1
  | CLogout token => (logout token s).1
  | CAuthenticate token now => (authenticate token now s).1
  | CCreate req salt id ts => (create_user argon2_hash req salt id ts s).1
  | CUpdate id req salt => (update_user argon2_hash id req salt s).1
  | CDelete id => (delete_user id s).1
  | CChangePassword uid token cur new salt =>
      (change_password phc_error phc_matches argon2_hash uid token cur new salt s).1
  | CSetup uid secret => (two_factor_setup uid secret s).1
  | CConfirm uid code random now =>
      (two_factor_confirm sha256 b32_decode hmac_sha1 uid code random now s).1
  | CDisable uid code now => (two_factor_disable sha256 b32_decode hmac_sha1 uid code now s).1
  end.

(** Ids of new accounts are fresh (random UUIDs). *)
Definition fresh_call (c : call) (s : state) : Prop :=
  match c with CCreate _ _ id _ => the_user id s = None | _ => True end.

Definition is_disable (c : call) : bool := match c with CDisable _ _ _ => true | _ => false end.

Fixpoint run (calls : list call) (s : state) : state :=
  match calls with [] => s | c :: calls => run calls (exec c s) end.
Fixpoint fresh_run (calls : list call) (s : state) : Prop :=
  match calls with [] => True | c :: calls => fresh_call c s ∧ fresh_run calls (exec c s) end.

Lemma authenticate_users token now s :
  users (authenticate token now s).1 = users s.
Proof. unfold authenticate. by repeat case_match. Qed.

Definition created (c : call) : option str :=
  match c with CCreate _ _ id _ => Some id | _ => None end.

Lemma exec_effects c s :
  fresh_call c s → rtc (effect (is_disable c) (created c)) s (exec c s).
Proof.
  intros Hf. destruct c; simpl in *.
  - destruct (login _ _ _ _ s) eqn:E. by eapply login_effects.
  - apply rtc_one. by apply eff_same.
  - apply rtc_one. apply eff_same; by rewrite authenticate_users.
  - destruct (create_user _ _ _ _ _ s) eqn:E. by eapply create_effects.
  - destruct (update_user _ _ _ _ s) eqn:E. by eapply update_effects.
  - destruct (delete_user _ s) eqn:E. by eapply delete_effects.
  - destruct (change_password _ _ _ _ _ _ _ _ s) eqn:E. by eapply change_password_effects.
  - destruct (two_factor_setup _ _ s) eqn:E. by eapply setup_effects.
  - destruct (two_factor_confirm _ _ _ _ _ _ _ s) eqn:E. by eapply confirm_effects.
  - destruct (two_factor_disable _ _ _ _ _ _ s) eqn:E. by eapply disable_effects.
Qed.

Lemma effects_inv disable new s s' : rtc (effect disable new) s s' → auth_inv s → auth_inv s'.
Proof. induction 1; eauto using effect_inv. Qed.

Lemma run_inv calls s : fresh_run calls s → auth_inv s → auth_inv (run calls s).
Proof.
  revert s; induction calls as [|c calls IH]; intros s; [done|]. intros [Hf Hr] Hi.
  apply IH; [done|]. eapply effects_inv; [by apply exec_effects|done].
Qed.

(** C19: no sequence of calls - logins, account changes, enrollments, each
    succeeding or failing anywhere, the disk included - removes the last
    administrator, makes two accounts share a username (case-insensitively), or
    lets the in-memory accounts drift from the ones on disk (the time of the
    last login apart); in particular an administrator survives a restart. *)
Theorem accounts_invariant calls s :
  auth_inv s → fresh_run calls s →
  let s' := run calls s in
  (∃ id u, the_user id s' = Some u ∧ is_admin u = true) ∧
  (∃ id u, record (disk (users s')) id = Some u ∧ is_admin u = true) ∧
  (∀ i j u v, the_user i s' = Some u → the_user j s' = Some v →
     named (u_username (user v)) u = true → i = j) ∧
  (∀ id, option_Forall2 same_account (record (disk (users s')) id) (the_user id s')).
Proof.
  intros Hi Hf. cbv zeta. destruct (run_inv calls s Hf Hi) as [Hag Hk Hn (id & u & Hu & Ha)].
  split_and!; [by exists id, u| |done|done].
  specialize (Hag id). rewrite Hu in Hag. inversion Hag as [w u' Hs Hw|]; subst.
  exists id, w. split; [done|]. by rewrite <- (same_account_admin _ _ Hs).
Qed.

(** The second factor of an account, if it has one that is on, stays on. *)
Definition guarded (id : str) s : Prop :=
  ∀ u, the_user id s = Some u → tf_enabled (two_factor u) = true.

Lemma effect_guarded new s s' id :
  new ≠ Some id → effect false new s s' → guarded id s → guarded id s'.
Proof.
  unfold guarded, the_user. intros Hnew Heff Hg w Hw.
  destruct Heff as [Hc _|i u v Hu (_ & _ & _ & _ & _ & Htf) Hc _|i u v Hu _ _ _ Htf Hc _
                    |i v Hi Hu _ _ Hc _|i u Hu _ Hc _]; rewrite Hc in Hw; unfold the_user in *.
  - by apply Hg.
  - rewrite lookup_insert_Some in Hw. destruct Hw as [[<- <-]|[_ ?]]; [|by apply Hg].
    rewrite <- Htf. by apply Hg.
  - rewrite lookup_insert_Some in Hw. destruct Hw as [[<- <-]|[_ ?]]; [|by apply Hg].
    destruct (Htf (Hg _ Hu)); done.
  - rewrite lookup_insert_Some in Hw. destruct Hw as [[<- <-]|[_ ?]]; [done|by apply Hg].
  - rewrite lookup_delete_Some in Hw. destruct Hw as [_ ?]. by apply Hg.
Qed.

Lemma effects_guarded new s s' id :
  new ≠ Some id → rtc (effect false new) s s' → guarded id s → guarded id s'.
Proof. intros Hnew. induction 1; eauto using effect_guarded. Qed.

(** A confirmed second factor is never lost on the side: no sequence of
    calls without [two_factor_disable] - role and password changes, a repeated
    setup, logins that spend recovery codes - leaves the account with its second
    factor off; and [two_factor_disable] itself succeeds only with a valid code
    or an unspent recovery code of the account. *)
Theorem second_factor_kept calls s id :
  guarded id s → fresh_run calls s →
  Forall (λ c, is_disable c = false ∧ created c ≠ Some id) calls →
  guarded id (run calls s) ∧
  (∀ code now s2, two_factor_disable sha256 b32_decode hmac_sha1 id code now s = (s2, Ok tt) →
    ∃ u, the_user id s = Some u ∧
      ((∃ sec, tf_secret (two_factor u) = Some sec ∧
          verify b32_decode hmac_sha1 sec code (now_unix now) = true) ∨
       hash_recovery_code sha256 code ∈ tf_recovery_hashes (two_factor u))).
Proof.
  intros Hg Hf Hc. split.
  - revert s Hg Hf. induction Hc as [|c calls [Hd Hn] Hc IH]; intros s Hg Hf; [done|].
    destruct Hf as [Hfc Hfr]. apply IH; [|done].
    pose proof (exec_effects c s Hfc) as E. rewrite Hd in E. by eapply effects_guarded.
  - intros code now s2. unfold two_factor_disable. svc.
    destruct (the_user id s) as [u|] eqn:Eu; simpl; [|done].
    destruct (negb _); [done|]. destruct (vsf _ _ _ _ s) as [s1 r1] eqn:E1.
    apply second_factor_spec in E1 as (_ & _ & _ & E1). destruct r1 as [[]|e]; [|done].
    intros _. exists u. split; [done|].
    destruct (E1 eq_refl) as [[_ ?]|(w & pos & Hw & Hpos & _)]; [by left|right].
    rewrite Eu in Hw. injection Hw as <-. by eapply list_elem_of_lookup_2.
Qed.
End methods.
End proofs.
