(* ===== verification/Sessions.v ===== *)
(** * Sessions: what a login proves and what revokes it

    Properties of single methods of [AuthService]: what a successful login has
    checked, which calls end a session, that a recovery code works once, and the
    one window in which a reset password still opens a session. *)

From S2P Require Export UsersProofs.

Import AuthService.

Section sessions.
Context `{RS : RecordStore StoredUser}.
Context (phc_error : str → option str) (phc_matches : str → str → bool).
Context (argon2_hash : str → str → result str str) (sha256 : list N → list N).
Context (b32_decode : str → option (list N)) (hmac_sha1 : list N → list N → option (list N)).
Context (to_rfc3339 : Z → str).
Implicit Types s : state.

Local Abbreviation login := (login phc_error phc_matches sha256 b32_decode hmac_sha1 to_rfc3339).
Local Abbreviation vsf := (verify_second_factor sha256 b32_decode hmac_sha1).
Local Abbreviation update_user := (update_user argon2_hash).
Local Abbreviation change_password := (change_password phc_error phc_matches argon2_hash).

Ltac svc := unfold mbind, svc_bind, gets, lift, fail, mret, svc_ret, modify, retain_tokens in *.

(** Who a token stands for at a time. *)
Definition caller (s : state) (token : str) (now : Z) : option str :=
  match (authenticate token now s).2 with Ok c => Some (u_id (c_user c)) | Err _ => None end.

Lemma caller_session s token now id :
  auth_inv s → caller s token now = Some id →
  ∃ session, tokens s !! token = Some session ∧ s_user_id session = id ∧ (now < s_expires_at session)%Z.
Proof.
  intros Hi. unfold caller, authenticate. destruct (tokens s !! token) as [se|]; [|done].
  destruct (s_expires_at se <=? now)%Z eqn:Ee; [done|]. apply Z.leb_gt in Ee.
  destruct (the_user (s_user_id se) s) as [u|] eqn:Eu; [|done]. simpl. intros [= <-].
  exists se. split_and!; [done| |done]. symmetry. by apply (inv_keyed _ Hi).
Qed.

Lemma retained (s : state) (keep : str → Session → bool) token se :
  tokens (retain_tokens keep s).1 !! token = Some se →
  tokens s !! token = Some se ∧ keep token se = true.
Proof. simpl. intros H. by apply map_lookup_filter_Some in H. Qed.

(** The invariant does not depend on the sessions. *)
Lemma auth_inv_tokens s t : auth_inv s → auth_inv (mkState (users s) t).
Proof. intros H. eapply (effect_inv false None); [|done]. by apply eff_same. Qed.

(** C20: revocation is complete. After an account is deleted, or its password is
    reset by an administrator, no existing token authenticates as it any more;
    after its owner changes the password only the token of that request does;
    and a token that logged out authenticates as nobody. *)
Theorem revocation s s' id :
  auth_inv s →
  (delete_user id s = (s', Ok tt) → ∀ token now, caller s' token now ≠ Some id) ∧
  (∀ req salt u, uu_password req ≠ None → update_user id req salt s = (s', Ok u) →
     ∀ token now, caller s' token now ≠ Some id) ∧
  (∀ current cur new salt, change_password id current cur new salt s = (s', Ok tt) →
     ∀ token now, caller s' token now = Some id → token = current) ∧
  (∀ token now, caller (logout token s).1 token now = None).
Proof.
  intros Hi. split_and!.
  - intros E token now Hc.
    assert (auth_inv s') as Hi' by (eapply effects_inv, Hi; by eapply delete_effects).
    apply caller_session in Hc as (se & Hse & Hid & _); [|done].
    unfold delete_user in E. svc. destruct (the_user id s); simpl in E; [|done].
    destruct (_ && _); [done|]. destruct (on_users _ s) as [s1 [[]|e]]; [|done]. injection E as <-.
    apply map_lookup_filter_Some in Hse as [_ Hk]. simpl in Hk. subst id.
    by rewrite str_eqb_refl in Hk.
  - intros req salt u Hpw E token now Hc.
    assert (auth_inv s') as Hi' by (eapply effects_inv, Hi; by eapply update_effects).
    apply caller_session in Hc as (se & Hse & Hid & _); [|done].
    unfold AuthService.update_user in E. svc. destruct (the_user id s); simpl in E; [|done].
    destruct (updated_roles _ _ _) as [v|e]; [|done].
    destruct (updated_password _ _ _ _) as [w|e]; [|done].
    destruct (on_users _ s) as [s1 [[]|e]]; [|done].
    destruct (uu_password req); [|done]. injection E as <- <-.
    apply map_lookup_filter_Some in Hse as [_ Hk]. simpl in Hk. subst id.
    by rewrite str_eqb_refl in Hk.
  - intros current cur new salt E token now Hc.
    assert (auth_inv s') as Hi' by (eapply effects_inv, Hi; by eapply change_password_effects).
    apply caller_session in Hc as (se & Hse & Hid & _); [|done].
    unfold AuthService.change_password in E. svc. destruct (short_password new); [done|].
    destruct (the_user id s); simpl in E; [|done].
    destruct (verify_password _ _ _ _) as [[]|e]; [|done].
    destruct (hash_password _ _ _ _) as [h|e]; [|done].
    destruct (on_users _ s) as [s1 [[]|e]]; [|done]. injection E as <-.
    apply map_lookup_filter_Some in Hse as [_ Hk]. simpl in Hk. subst id.
    rewrite str_eqb_refl in Hk. simpl in Hk. by apply str_eqb_eq in Hk.
  - intros token now. unfold caller, logout, authenticate, modify. simpl.
    by rewrite lookup_delete_eq.
Qed.

Lemma verify_password_ok pw hash x :
  verify_password phc_error phc_matches pw hash = Ok x ↔
  phc_error hash = None ∧ phc_matches pw hash = true.
Proof.
  unfold verify_password. destruct (phc_error hash); [naive_solver|].
  destruct (phc_matches pw hash), x; naive_solver.
Qed.

(** C23: a login that succeeds has found an account of that name, checked its
    password and - if a second factor is on - a valid code or one unspent
    recovery code; it opens exactly one session, the returned token, which
    authenticates as that account with its roles' permissions until it expires,
    and leaves every other session alone. *)
Theorem login_sound s s' req ttl token now resp :
  auth_inv s → login req ttl token now s = (s', Ok resp) →
  ∃ id u,
    the_user id s = Some u ∧ named (trim (l_username req)) u = true ∧
    phc_matches (l_password req) (password_hash u) = true ∧
    (tf_enabled (two_factor u) = true → ∃ code, l_totp_code req = Some code ∧
       ((∃ sec, tf_secret (two_factor u) = Some sec ∧
           verify b32_decode hmac_sha1 sec (trim code) (now_unix now) = true) ∨
        hash_recovery_code sha256 (trim code) ∈ tf_recovery_hashes (two_factor u))) ∧
    lr_token resp = token ∧
    tokens s' = <[token := mkSession id (now + Z.of_N (N.min ttl I64_MAX))]> (tokens s) ∧
    (∀ now', (now' < now + Z.of_N (N.min ttl I64_MAX))%Z → caller s' token now' = Some id).
Proof.
  intros Hi. unfold AuthService.login. svc.
  destruct (List.find _ _) as [u|] eqn:Ef; [|done].
  apply List.find_some in Ef as [Hin Hnm]. rewrite <- list_elem_of_In, elem_of_values in Hin.
  destruct Hin as [id Hu]. change (the_user id s = Some u) in Hu. pose proof (inv_keyed _ Hi _ _ Hu) as Hid. rewrite Hid.
  destruct (verify_password _ _ _ _) as [[]|e] eqn:Ev; [|done].
  apply verify_password_ok in Ev as [_ Hpw].
  destruct (login_second_factor _ _ _ id req now s) as [s1 [[]|e]] eqn:E1; [|done].
  intros E2. exists id, u. split_and!; try done.
  - intros Ht. unfold login_second_factor in E1. svc. rewrite Hu in E1. simpl in E1.
    rewrite Ht in E1. destruct (l_totp_code req) as [c|]; [|done].
    destruct (is_empty (trim c)); [done|]. exists c. split; [done|].
    apply second_factor_spec in E1 as (_ & _ & _ & E1).
    destruct (E1 eq_refl) as [[_ ?]|(w & pos & Hw & Hpos & _)]; [by left|right].
    rewrite Hu in Hw. injection Hw as <-. by eapply list_elem_of_lookup_2.
  - apply login_finish_spec in E2 as (_ & w & v & _ & _ & _ & _ & _ & ? & _). done.
  - apply login_gate_spec in E1 as (Ht & Heff & _).
    apply login_finish_spec in E2 as (_ & w & v & Hw & _ & _ & _ & -> & _).
    rewrite Ht. do 2 f_equal. by apply (inv_keyed _ (effect_inv _ _ _ _ Heff Hi)) in Hw.
  - intros now' Hnow. apply login_gate_spec in E1 as (Ht & Heff & _).
    pose proof (effect_inv _ _ _ _ Heff Hi) as Hi1.
    apply login_finish_spec in E2 as (_ & w & v & Hw & Hs & Hv & _ & Hto & _).
    apply (inv_keyed _ Hi1) in Hw. unfold stored_id in Hw.
    unfold caller, authenticate. rewrite Hto, lookup_insert_eq. simpl.
    rewrite (proj2 (Z.leb_gt _ _)) by done. rewrite Hw, Hv. simpl.
    f_equal. destruct Hs as [<- _]. done.
Qed.

(** A refused login does not tell whether the account exists: an unknown
    username and a wrong password for a well-formed hash give the same error and
    change nothing; the missing second factor is a distinct error that only a
    correct password reaches. *)
Theorem login_no_enumeration s req ttl token now :
  (∀ u, u ∈ values (cache (users s)) → phc_error (password_hash u) = None) →
  (∀ u, u ∈ values (cache (users s)) → named (trim (l_username req)) u = true →
     phc_matches (l_password req) (password_hash u) = false) →
  login req ttl token now s = (s, Err (unauthorized "invalid credentials")) ∧
  status (unauthorized "invalid credentials") = 401%N ∧
  is_two_factor_required (unauthorized "invalid credentials") = false.
Proof.
  intros Hphc Hbad. split; [|done]. unfold AuthService.login. svc.
  destruct (List.find _ _) as [u|] eqn:Ef; [|done].
  apply List.find_some in Ef as [Hin Hnm]. rewrite <- list_elem_of_In in Hin.
  unfold verify_password. by rewrite Hphc, Hbad.
Qed.

(** A recovery code works once: when it has passed as a second factor (no
    TOTP code matching), the very same code fails from then on, and no other
    account and no other code of this account is affected. *)
Theorem recovery_code_single_use s s' id u secret code now now' :
  the_user id s = Some u → NoDup (tf_recovery_hashes (two_factor u)) →
  (∀ sec, secret = Some sec → verify b32_decode hmac_sha1 sec code (now_unix now) = false) →
  (∀ sec, secret = Some sec → verify b32_decode hmac_sha1 sec code (now_unix now') = false) →
  vsf id secret code now s = (s', Ok tt) →
  vsf id secret code now' s' = (s', Err (unauthorized "invalid credentials")) ∧
  (∃ v, the_user id s' = Some v ∧
     ∀ h, h ∈ tf_recovery_hashes (two_factor u) →
       h = hash_recovery_code sha256 code ∨ h ∈ tf_recovery_hashes (two_factor v)) ∧
  (∀ k, k ≠ id → the_user k s' = the_user k s).
Proof.
  intros Hu Hnd Hno Hno' E. apply second_factor_spec in E as (_ & _ & Hk & E).
  destruct (E eq_refl) as [[_ (sec & Hsec & Hv)]|(w & pos & Hw & Hpos & Hs')];
    [by rewrite (Hno _ Hsec) in Hv|].
  rewrite Hu in Hw. injection Hw as <-. split_and!; [|eexists; split; [done|]|done].
  - unfold verify_second_factor.
    assert (match secret with
      | Some secret => verify b32_decode hmac_sha1 secret code (now_unix now') | None => false end
      = false) as -> by (destruct secret; [by apply Hno'|done]).
    svc. rewrite Hs'. simpl.
    destruct (list_find _ _) as [[p h]|] eqn:Ef; [|done].
    exfalso. apply list_find_Some in Ef as (Hp & -> & _).
    rewrite delete_take_drop in Hp. rewrite <- (take_drop_middle _ _ _ Hpos) in Hnd.
    apply NoDup_app in Hnd as (_ & Hd & Hnd). apply NoDup_cons in Hnd as [Hn _].
    apply list_elem_of_lookup_2, elem_of_app in Hp as [Hp|Hp]; [|done].
    apply (Hd _ Hp). by left.
  - simpl. intros h Hh. rewrite <- (take_drop_middle _ _ _ Hpos) in Hh.
    rewrite delete_take_drop. apply elem_of_app in Hh as [?|[->|?]%elem_of_cons].
    + right. apply elem_of_app. by left.
    + by left.
    + right. apply elem_of_app. by right.
Qed.

(** The window of a password reset: a login whose password was checked just
    before an administrator's reset still opens a session afterwards, because
    the last step of [login] does not look at the password again; the session
    survives the reset. *)
Theorem reset_race s s1 id u req salt ttl token now v :
  auth_inv s → the_user id s = Some u →
  update_user id req salt s = (s1, Ok v) → uu_password req ≠ None →
  ∃ s2 resp, login_finish to_rfc3339 id ttl token now s1 = (s2, Ok resp) ∧
    (∀ now', (now' < now + Z.of_N (N.min ttl I64_MAX))%Z → caller s2 token now' = Some id).
Proof.
  intros Hi Hu E Hpw.
  assert (auth_inv s1) as Hi1 by (eapply effects_inv, Hi; by eapply update_effects).
  assert (is_Some (the_user id s1)) as [w Hw].
  { unfold AuthService.update_user in E. svc. rewrite Hu in E. simpl in E.
    destruct (updated_roles _ _ _) as [x|e]; [|done].
    destruct (updated_password _ _ _ _) as [y|e]; [|done].
    destruct (on_users _ s) as [s2 [[]|e]] eqn:Ep; [|done].
    apply persist_users in Ep as [_ [Hc _]]. unfold the_user.
    destruct (uu_password req); [|done]. injection E as <- _. simpl. rewrite Hc.
    rewrite lookup_insert_eq. by eexists. }
  destruct (login_finish to_rfc3339 id ttl token now s1) as [s2 r] eqn:E2.
  pose proof E2 as E3. apply login_finish_spec in E3 as [_ E3]. destruct r as [resp|e].
  - destruct E3 as (a & b & Ha & Hs & Hb & _ & Ht & _). exists s2, resp. split; [done|].
    intros now' Hlt. unfold caller, authenticate. rewrite Ht, lookup_insert_eq. simpl.
    rewrite (proj2 (Z.leb_gt _ _)) by done.
    pose proof (inv_keyed _ Hi1 _ _ Ha) as Hk. unfold stored_id in Hk. rewrite Hk, Hb. simpl.
    destruct Hs as [<- _]. by rewrite Hk.
  - destruct E3 as (_ & Hn & _). congruence.
Qed.
End sessions.

(** ** A concrete service

    One administrator with a second factor that is on and two recovery codes;
    toy cryptography and a store that is a map. *)

Definition toy_error (hash : str) : option str := None.
Definition toy_matches (pw hash : str) : bool := hash =s? "h:" ++ pw.
Definition toy_hash (pw salt : str) : result str str := Ok ("h:" ++ pw).
Definition toy_sha (l : list N) : list N := l.
Definition toy_rfc3339 (t : Z) : str := lit "t".

Definition toy_admin : StoredUser :=
  mkStored (mkUser "u1" "admin" [Admin] "t0" None) "h:password" false
    (mkTwoFactor (Some (lit "abc")) true
       [hash_recovery_code toy_sha "aaaaa-bbbbb"; hash_recovery_code toy_sha "ccccc-ddddd"]).
Definition toy_users : gmap str StoredUser := {[ lit "u1" := toy_admin ]}.
Definition toy_state : state (RS:=map_store StoredUser) :=
  mkState (RS:=map_store StoredUser) (mkCached (RS:=map_store StoredUser) toy_users toy_users)
    {[ lit "old" := mkSession "u1" 100 ]}.

Lemma toy_user (id : str) (u : StoredUser) :
  the_user id toy_state = Some u → id = lit "u1" ∧ u = toy_admin.
Proof. unfold the_user. simpl. unfold toy_users. intros [<- <-]%lookup_singleton_Some. done. Qed.

Lemma toy_the_user : the_user "u1" toy_state = Some toy_admin.
Proof. by vm_compute. Qed.

Lemma toy_inv : auth_inv toy_state.
Proof.
  split.
  - intros id. change (option_Forall2 same_account (toy_users !! id) (toy_users !! id)).
    destruct (toy_users !! id); by constructor.
  - intros id u [-> ->]%toy_user. done.
  - intros i j u v [-> ->]%toy_user [-> ->]%toy_user. done.
  - exists (lit "u1"), toy_admin. split; [apply toy_the_user|by vm_compute].
Qed.

Local Abbreviation toy_run :=
  (run toy_error toy_matches toy_hash toy_sha sample_b32 sample_hmac toy_rfc3339).

Definition toy_calls : list call :=
  [CDelete "u1"; CUpdate "u1" (mkUpdateUser (Some [Viewer]) None) "salt"; CLogout "old"].

Lemma accounts_invariant_witness :
  ∃ id u, the_user id (toy_run toy_calls toy_state) = Some u ∧ is_admin u = true.
Proof.
  refine (proj1 (accounts_invariant toy_error toy_matches toy_hash toy_sha sample_b32
    sample_hmac toy_rfc3339 toy_calls toy_state toy_inv _)).
  repeat split.
Defined.

Lemma second_factor_kept_witness :
  guarded (lit "u1") (toy_run toy_calls toy_state).
Proof.
  refine (proj1 (second_factor_kept toy_error toy_matches toy_hash toy_sha sample_b32
    sample_hmac toy_rfc3339 toy_calls toy_state (lit "u1") _ _ _)).
  - intros u [_ ->]%toy_user. done.
  - repeat split.
  - repeat constructor; done.
Defined.

Lemma revocation_witness :
  ∃ s' u, update_user toy_hash "u1" (mkUpdateUser None (Some (lit "new-password"))) "salt" toy_state
            = (s', Ok u) ∧ ∀ token now, caller s' token now ≠ Some (lit "u1").
Proof.
  destruct (update_user toy_hash "u1" (mkUpdateUser None (Some (lit "new-password"))) "salt" toy_state)
    as [s' r] eqn:E.
  destruct r as [u|e]; [|exfalso; apply (f_equal (is_ok ∘ snd)) in E; vm_compute in E; discriminate E].
  exists s', u. split; [reflexivity|].
  exact (proj1 (proj2 (revocation toy_error toy_matches toy_hash toy_state s' "u1" toy_inv))
    (mkUpdateUser None (Some (lit "new-password"))) _ _ ltac:(done) E).
Defined.

Definition toy_request : LoginRequest :=
  mkLogin " Admin " "password" (Some (lit "AAAAA-bbbbb")).

Lemma login_sound_witness :
  ∃ s' resp, login toy_error toy_matches toy_sha sample_b32 sample_hmac toy_rfc3339
      toy_request 60 "tok" 0 toy_state = (s', Ok resp) ∧ caller s' "tok" 59 = Some (lit "u1").
Proof.
  destruct (login toy_error toy_matches toy_sha sample_b32 sample_hmac toy_rfc3339
      toy_request 60 "tok" 0 toy_state) as [s' r] eqn:E.
  destruct r as [resp|e]; [|exfalso; apply (f_equal (is_ok ∘ snd)) in E; vm_compute in E; discriminate E].
  exists s', resp. split; [reflexivity|].
  destruct (login_sound toy_error toy_matches toy_hash toy_sha sample_b32 sample_hmac toy_rfc3339
    toy_state s' toy_request 60 "tok" 0 resp toy_inv E) as (id & u & Hu & _ & _ & _ & _ & _ & Hc).
  apply toy_user in Hu as [-> _]. apply Hc. by vm_compute.
Defined.

Lemma login_no_enumeration_witness :
  login toy_error toy_matches toy_sha sample_b32 sample_hmac toy_rfc3339
    (mkLogin "ghost" "password" None) 60 "tok" 0 toy_state
  = (toy_state, Err (unauthorized "invalid credentials")).
Proof.
  refine (proj1 (login_no_enumeration toy_error toy_matches toy_sha sample_b32 sample_hmac
    toy_rfc3339 toy_state _ _ _ _ _ _)).
  - done.
  - intros u [id [_ ->]%toy_user]%elem_of_values Hn. vm_compute in Hn. discriminate Hn.
Defined.

Lemma recovery_code_single_use_witness :
  ∃ s', verify_second_factor toy_sha sample_b32 sample_hmac "u1" (Some (lit "abc"))
          "AAAAA-bbbbb" 0 toy_state = (s', Ok tt) ∧
        verify_second_factor toy_sha sample_b32 sample_hmac "u1" (Some (lit "abc"))
          "AAAAA-bbbbb" 90 s' = (s', Err (unauthorized "invalid credentials")).
Proof.
  destruct (verify_second_factor toy_sha sample_b32 sample_hmac "u1" (Some (lit "abc"))
    "AAAAA-bbbbb" 0 toy_state) as [s' r] eqn:E.
  destruct r as [[]|e]; [|exfalso; apply (f_equal (is_ok ∘ snd)) in E; vm_compute in E; discriminate E].
  exists s'. split; [reflexivity|].
  refine (proj1 (recovery_code_single_use toy_sha sample_b32 sample_hmac toy_state s' "u1"
    toy_admin (Some (lit "abc")) "AAAAA-bbbbb" 0 90 toy_the_user _ _ _ E)).
  - apply NoDup_cons; split; [vm_compute; set_solver|apply NoDup_singleton].
  - intros sec [= <-]. by vm_compute.
  - intros sec [= <-]. by vm_compute.
Defined.

Lemma reset_race_witness :
  ∃ s1 s2 resp v,
    update_user toy_hash "u1" (mkUpdateUser None (Some (lit "new-password"))) "salt" toy_state
      = (s1, Ok v) ∧
    login_finish toy_rfc3339 "u1" 60 "tok" 0 s1 = (s2, Ok resp) ∧
    caller s2 "tok" 59 = Some (lit "u1").
Proof.
  destruct (update_user toy_hash "u1" (mkUpdateUser None (Some (lit "new-password"))) "salt" toy_state)
    as [s1 r] eqn:E.
  destruct r as [v|e]; [|exfalso; apply (f_equal (is_ok ∘ snd)) in E; vm_compute in E; discriminate E].
  destruct (reset_race toy_hash toy_rfc3339 toy_state s1 "u1" toy_admin
    (mkUpdateUser None (Some (lit "new-password"))) _ 60 "tok" 0 v toy_inv toy_the_user E ltac:(done)) as (s2 & resp & H1 & H2).
  exists s1, s2, resp, v. split_and!; [reflexivity|exact H1|]. apply H2. by vm_compute.
Defined.
