(* ===== verification/Operations.v ===== *)
(** * Durable operations and reconciliation (src/src/services/operations.rs)

    The journal of operations, the quarantine of unmanaged resources and the
    spent dry-run approvals are three record stores; the host (libvirt, LXC, the
    network, ...) is a state of its own that only the given host actions change.
    A background worker is a computation that runs after its [enqueue]. *)

From S2P Require Export Cache.

Inductive OperationStatus :=
  Queued | Running | Succeeded | Failed | Cancelled | NeedsReview.
Inductive ReconciliationMode := DryRun | Repair.
Inductive FindingKind := MissingFromHost | UnmanagedHost.
Inductive QuarantineStatus := Pending | Adopted | Released.
Inductive QuarantineDecision := Adopt | Release.

#[export] Instance OperationStatus_eq_dec : EqDecision OperationStatus.
Proof. solve_decision. Defined.
#[export] Instance ReconciliationMode_eq_dec : EqDecision ReconciliationMode.
Proof. solve_decision. Defined.
#[export] Instance FindingKind_eq_dec : EqDecision FindingKind.
Proof. solve_decision. Defined.
#[export] Instance QuarantineStatus_eq_dec : EqDecision QuarantineStatus.
Proof. solve_decision. Defined.

Record ReconciliationFinding := mkFinding {
  f_resource_type : str; f_resource_id : str; f_host_id : option str;
  f_kind : FindingKind; f_message : str; f_repairable : bool; f_destructive : bool }.

Record OperationRecord := mkOp {
  o_id : str; o_kind : str; o_status : OperationStatus; o_actor : option str;
  o_reconciliation_mode : option ReconciliationMode; o_progress_pct : option N;
  o_resource_type : option str; o_resource_id : option str; o_result_id : option str;
  o_drift : option str; o_findings : option (list ReconciliationFinding);
  o_created_at : str; o_started_at : option str; o_finished_at : option str;
  o_message : option str; o_error : option str }.

Record QuarantineRecord := mkQuarantine {
  q_id : str; q_resource_type : str; q_host_id : str; q_message : str;
  q_status : QuarantineStatus; q_created_at : str; q_decided_at : option str;
  q_decided_by : option str; q_decision_message : option str }.

Record ConsumedApproval := mkConsumed { ca_id : str; ca_consumed_at : str }.

Record ReconcileRequest := mkReconcile {
  r_mode : ReconciliationMode; r_approval_id : option str; r_quarantine_unmanaged : bool }.

(** Updates of single fields. *)
Definition with_status (r : OperationRecord) (s : OperationStatus) : OperationRecord :=
  mkOp (o_id r) (o_kind r) s (o_actor r) (o_reconciliation_mode r) (o_progress_pct r)
    (o_resource_type r) (o_resource_id r) (o_result_id r) (o_drift r) (o_findings r)
    (o_created_at r) (o_started_at r) (o_finished_at r) (o_message r) (o_error r).
Definition with_progress (r : OperationRecord) (p : option N) (m : option str) : OperationRecord :=
  mkOp (o_id r) (o_kind r) (o_status r) (o_actor r) (o_reconciliation_mode r) p
    (o_resource_type r) (o_resource_id r) (o_result_id r) (o_drift r) (o_findings r)
    (o_created_at r) (o_started_at r) (o_finished_at r) m (o_error r).
Definition with_times (r : OperationRecord) (started finished : option str) : OperationRecord :=
  mkOp (o_id r) (o_kind r) (o_status r) (o_actor r) (o_reconciliation_mode r)
    (o_progress_pct r) (o_resource_type r) (o_resource_id r) (o_result_id r) (o_drift r)
    (o_findings r) (o_created_at r) started finished (o_message r) (o_error r).
Definition with_error (r : OperationRecord) (e : option str) : OperationRecord :=
  mkOp (o_id r) (o_kind r) (o_status r) (o_actor r) (o_reconciliation_mode r)
    (o_progress_pct r) (o_resource_type r) (o_resource_id r) (o_result_id r) (o_drift r)
    (o_findings r) (o_created_at r) (o_started_at r) (o_finished_at r) (o_message r) e.
Definition with_resource (r : OperationRecord) (t i : option str) : OperationRecord :=
  mkOp (o_id r) (o_kind r) (o_status r) (o_actor r) (o_reconciliation_mode r)
    (o_progress_pct r) t i (o_result_id r) (o_drift r) (o_findings r) (o_created_at r)
    (o_started_at r) (o_finished_at r) (o_message r) (o_error r).
Definition with_mode (r : OperationRecord) (m : ReconciliationMode) : OperationRecord :=
  mkOp (o_id r) (o_kind r) (o_status r) (o_actor r) (Some m) (o_progress_pct r)
    (o_resource_type r) (o_resource_id r) (o_result_id r) (o_drift r) (o_findings r)
    (o_created_at r) (o_started_at r) (o_finished_at r) (o_message r) (o_error r).
Definition with_findings (r : OperationRecord) (fs : list ReconciliationFinding) : OperationRecord :=
  let drift := match fs with [] => None | _ => Some (join "; " (map f_message fs)) end in
  mkOp (o_id r) (o_kind r) (o_status r) (o_actor r) (o_reconciliation_mode r)
    (o_progress_pct r) (o_resource_type r) (o_resource_id r) (o_result_id r) drift (Some fs)
    (o_created_at r) (o_started_at r) (o_finished_at r) (o_message r) (o_error r).
Definition with_result_id (r : OperationRecord) (i : str) : OperationRecord :=
  mkOp (o_id r) (o_kind r) (o_status r) (o_actor r) (o_reconciliation_mode r)
    (o_progress_pct r) (o_resource_type r) (o_resource_id r) (Some i) (o_drift r)
    (o_findings r) (o_created_at r) (o_started_at r) (o_finished_at r) (o_message r) (o_error r).

Definition active (s : OperationStatus) : bool :=
  match s with Queued | Running => true | _ => false end.
Definition terminal (s : OperationStatus) : bool :=
  match s with Succeeded | Failed | Cancelled | NeedsReview => true | _ => false end.

(** [a.or(b)]. *)
Definition or_ {A} (a b : option A) : option A := match a with Some _ => a | None => b end.

(** What the reconciliation uses of the other services (the [services] it is given):
    how many resources of a kind there are, the differences between the records and
    the host, and the repairs of a resource the host lost. *)
Record Services (H : Type) := mkServices {
  count_vms : Svc H N; count_containers : Svc H N; count_datasets : Svc H N;
  count_bridges : Svc H N; count_shares : Svc H N; count_gpus : Svc H N;
  vms_diff : Svc H (list str * list str); cts_diff : Svc H (list str * list str);
  net_diff : Svc H (list str * list str);
  repair_vm : str → Svc H unit; repair_container : str → Svc H unit;
  repair_bridge : str → Svc H unit; repair_vlan : str → Svc H unit }.
#[global] Arguments mkServices {H}.
#[global] Arguments count_vms {H}.
#[global] Arguments count_containers {H}.
#[global] Arguments count_datasets {H}.
#[global] Arguments count_bridges {H}.
#[global] Arguments count_shares {H}.
#[global] Arguments count_gpus {H}.
#[global] Arguments vms_diff {H}.
#[global] Arguments cts_diff {H}.
#[global] Arguments net_diff {H}.
#[global] Arguments repair_vm {H}.
#[global] Arguments repair_container {H}.
#[global] Arguments repair_bridge {H}.
#[global] Arguments repair_vlan {H}.

Module OperationService.
Section service.
Context `{RO : RecordStore OperationRecord} `{RQ : RecordStore QuarantineRecord}
        `{RC : RecordStore ConsumedApproval}.
(** The host, and the time of every step ([now_ts]). *)
Context {H : Type} (now_ts : str).

Record state := mkState {
  store : rstate (RecordStore:=RO); quarantined : rstate (RecordStore:=RQ);
  consumed_approvals : rstate (RecordStore:=RC); host : H }.

(** Calls of the three stores and of the host. *)
Definition on_store {A} (m : Svc _ A) : Svc state A := λ s,
  let '(x, r) := m (store s) in
  (mkState x (quarantined s) (consumed_approvals s) (host s), r).
Definition on_quarantine {A} (m : Svc _ A) : Svc state A := λ s,
  let '(x, r) := m (quarantined s) in
  (mkState (store s) x (consumed_approvals s) (host s), r).
Definition on_consumed {A} (m : Svc _ A) : Svc state A := λ s,
  let '(x, r) := m (consumed_approvals s) in
  (mkState (store s) (quarantined s) x (host s), r).
Definition on_host {A} (m : Svc H A) : Svc state A := λ s,
  let '(x, r) := m (host s) in
  (mkState (store s) (quarantined s) (consumed_approvals s) x, r).

(** *** Records *)

Definition get (id : str) : Svc state OperationRecord :=
  found ← on_store (store_get id);
  lift (ok_or (not_found "operation not found") found).

Definition put_record (r : OperationRecord) : Svc state unit := on_store (store_put (o_id r) r).

(** The loop of [recover_interrupted]; the result counts the records marked. *)
Fixpoint recover_loop (interrupted : nat) (records : list OperationRecord) : Svc state nat :=
  match records with
  | [] => mret interrupted
  | record :: records =>
      if negb (active (o_status record)) then recover_loop interrupted records
      else
        let record := with_status record NeedsReview in
        let record := with_times record (o_started_at record) (Some now_ts) in
        let record := with_progress record (o_progress_pct record)
          (Some (lit "backend stopped before the operation outcome was recorded; inspect host state")) in
        _ ← put_record record;
        recover_loop (S interrupted) records
  end.

Definition recover_interrupted : Svc state nat :=
  records ← on_store store_list;
  recover_loop 0 records.

Definition create_record (kind : str) (status : OperationStatus)
    (resource_type resource_id actor : option str) (new_id : str) :
    Svc state (str * OperationRecord) :=
  if is_empty (trim kind) then fail (validation "operation kind must not be empty")
  else
    let started_at := if bool_decide (status = Running) then Some now_ts else None in
    let record := mkOp new_id kind status actor None None resource_type resource_id None None
                    None now_ts started_at None None None in
    _ ← put_record record;
    mret (o_id record, record).

Definition begin (kind : str) (resource_type resource_id actor : option str) (new_id : str) :
    Svc state str :=
  hr ← create_record kind Running resource_type resource_id actor new_id; mret hr.1.

Definition queue (kind : str) (resource_type resource_id actor : option str) (new_id : str) :
    Svc state (str * OperationRecord) :=
  create_record kind Queued resource_type resource_id actor new_id.

Definition finish (handle : str) (status : OperationStatus)
    (resource_type resource_id message error : option str) : Svc state unit :=
  found ← on_store (store_get handle);
  record ← lift (ok_or (not_found "operation record not found") found);
  let record := with_status record status in
  let record := with_resource record (or_ resource_type (o_resource_type record))
                  (or_ resource_id (o_resource_id record)) in
  let record := with_times record (o_started_at record) (Some now_ts) in
  let record := with_progress record
    (match status with Succeeded => Some 100%N | _ => o_progress_pct record end)
    (or_ message (o_message record)) in
  put_record (with_error record error).

Definition succeed (handle : str) (resource_type resource_id message : option str) :
    Svc state unit :=
  finish handle Succeeded resource_type resource_id message None.

Definition fail_operation (handle error : str) : Svc state unit :=
  finish handle Failed None None None (Some error).

Definition mark_running (handle : str) : Svc state unit :=
  record ← get handle;
  if negb (bool_decide (o_status record = Queued)) then mret tt
  else
    let record := with_status record Running in
    let record := with_times record (Some now_ts) (o_finished_at record) in
    put_record (with_progress record (Some 0%N) (o_message record)).

Definition set_result_id (id result_id : str) : Svc state unit :=
  record ← get id; put_record (with_result_id record result_id).

Definition update_progress (id : str) (progress_pct : N) (message : option str) :
    Svc state unit :=
  record ← get id;
  if terminal (o_status record) then mret tt
  else put_record (with_progress record (Some (N.min progress_pct 100))
                     (or_ message (o_message record))).

(** A call whose error is only logged. *)
Definition best_effort (m : Svc state unit) : Svc state unit := λ s, ((m s).1, Ok tt).

(** A call whose outcome is looked at. *)
Definition try {A} (m : Svc state A) : Svc state (ApiResult A) := λ s,
  let '(s, r) := m s in (s, Ok r).

(** [run]: the journal record around a synchronous operation. *)
Definition run {T} (kind : str) (resource_type resource_id actor : option str) (new_id : str)
    (operation : Svc H T) : Svc state T :=
  handle ← begin kind resource_type resource_id actor new_id;
  outcome ← try (on_host operation);
  match outcome with
  | Ok value =>
      _ ← best_effort (succeed handle resource_type resource_id None);
      mret value
  | Err error =>
      _ ← best_effort (fail_operation handle (message error));
      fail error
  end.

(** The task that [enqueue] spawns. *)
Definition worker (handle : str) (resource_type resource_id : option str)
    (operation : str → Svc state (option str)) : Svc state unit :=
  started ← try (mark_running handle);
  match started with
  | Err _ => mret tt
  | Ok _ =>
      outcome ← try (operation handle);
      match outcome with
      | Ok message => best_effort (succeed handle resource_type resource_id message)
      | Err error => best_effort (fail_operation handle (message error))
      end
  end.

(** [enqueue]: the queued record, and the task that it spawns. The task runs at some
    later time, whatever becomes of the request. *)
Definition enqueue (kind : str) (resource_type resource_id actor : option str) (new_id : str)
    (operation : str → Svc state (option str)) : Svc state (OperationRecord * Svc state unit) :=
  hr ← queue kind resource_type resource_id actor new_id;
  mret (hr.2, worker hr.1 resource_type resource_id operation).

(** *** Reconciliation *)

(** The two store accesses of [consume_approval], between which other requests
    may run. *)
Definition consume_check (approval_id : str) : Svc state unit :=
  spent ← on_consumed (store_get approval_id);
  match spent with
  | Some _ => fail (conflict "this dry-run approval has already been used for a repair")
  | None => mret tt
  end.
Definition consume_commit (approval_id : str) : Svc state unit :=
  on_consumed (store_put approval_id (mkConsumed approval_id now_ts)).
Definition consume_approval (approval_id : str) : Svc state unit :=
  _ ← consume_check approval_id; consume_commit approval_id.

Definition set_reconciliation_mode (id : str) (mode : ReconciliationMode) : Svc state unit :=
  record ← get id; put_record (with_mode record mode).

Definition set_findings (id : str) (findings : list ReconciliationFinding) : Svc state unit :=
  record ← get id; put_record (with_findings record findings).

Definition quarantine (resource_type host_id message new_id : str) : Svc state QuarantineRecord :=
  items ← on_quarantine store_list;
  match List.find (λ item, bool_decide (q_status item = Pending)
                           && (q_resource_type item =s? resource_type)
                           && (q_host_id item =s? host_id)) items with
  | Some existing => mret existing
  | None =>
      let record := mkQuarantine new_id resource_type host_id message Pending now_ts None None None in
      _ ← on_quarantine (store_put (q_id record) record);
      mret record
  end.

(** The quarantine ids of a scan, one per finding that needs one. *)
Fixpoint persist_unmanaged_findings (findings : list (ReconciliationFinding * str)) :
    Svc state unit :=
  match findings with
  | [] => mret tt
  | (finding, new_id) :: findings =>
      _ ← match f_kind finding, f_host_id finding with
          | UnmanagedHost, Some host_id =>
              _ ← quarantine (f_resource_type finding) host_id (f_message finding) new_id; mret tt
          | _, _ => mret tt
          end;
      persist_unmanaged_findings findings
  end.

Definition list_quarantine : Svc state (list QuarantineRecord) :=
  records ← on_quarantine store_list;
  mret (sort_by (λ a b, str_cmp (q_created_at b) (q_created_at a)) records).

Definition list : Svc state (list OperationRecord) :=
  records ← on_store store_list;
  mret (sort_by (λ a b, str_cmp (o_created_at b) (o_created_at a)) records).

Section repairs.
(** The host actions of the other services. *)
Context (services : Services H) (adopt_bridge : str → Svc H unit).

Fixpoint repair_findings (findings : Datatypes.list (ReconciliationFinding * str)) : Svc state unit :=
  match findings with
  | [] => mret tt
  | (finding, new_id) :: findings =>
      _ ← (if bool_decide (f_kind finding = UnmanagedHost) then
             match f_host_id finding with
             | Some host_id =>
                 _ ← quarantine (f_resource_type finding) host_id (f_message finding) new_id;
                 mret tt
             | None => mret tt
             end
           else if negb (f_repairable finding) || f_destructive finding then mret tt
           else
             let t := f_resource_type finding in
             if t =s? "vm" then on_host (repair_vm services (f_resource_id finding))
             else if t =s? "container" then on_host (repair_container services (f_resource_id finding))
             else if t =s? "bridge" then on_host (repair_bridge services (f_resource_id finding))
             else if t =s? "vlan" then on_host (repair_vlan services (f_resource_id finding))
             else mret tt);
      repair_findings findings
  end.

Definition decide_quarantine (id : str) (decision : QuarantineDecision) (actor : str)
    (message : option str) : Svc state QuarantineRecord :=
  found ← on_quarantine (store_get id);
  record ← lift (ok_or (not_found "quarantine record not found") found);
  if negb (bool_decide (q_status record = Pending)) then
    fail (conflict "quarantine record already has a decision")
  else
    status ← match decision with
             | Adopt =>
                 if q_resource_type record =s? "bridge" then
                   _ ← on_host (adopt_bridge (q_host_id record)); mret Adopted
                 else fail (validation
                   "this resource type requires an explicit import workflow before adoption")
             | Release => mret Released
             end;
    let record := mkQuarantine (q_id record) (q_resource_type record) (q_host_id record)
                    (q_message record) status (q_created_at record) (Some now_ts) (Some actor)
                    message in
    _ ← on_quarantine (store_put (q_id record) record);
    mret record.
End repairs.

(** Drift, from what the services report: records missing from the host, and
    host resources that are not tracked. *)
Definition vm_drift (missing_host missing_store : Datatypes.list str) :
    Datatypes.list ReconciliationFinding :=
  map (λ item, mkFinding "vm" item None MissingFromHost
         ("VM record is missing from libvirt: " ++ item) true false) missing_host
  ++ map (λ host_id, mkFinding "vm" host_id (Some host_id) UnmanagedHost
         ("VM " ++ host_id ++ " exists in libvirt but is not tracked") false false) missing_store.
Definition ct_drift (missing_host missing_store : Datatypes.list str) :
    Datatypes.list ReconciliationFinding :=
  map (λ name, mkFinding "container" name None MissingFromHost
         ("container " ++ name ++ " is missing from LXC; restore or import is required")
         false true) missing_host
  ++ map (λ host_id, mkFinding "container" host_id (Some host_id) UnmanagedHost
         ("container " ++ host_id ++ " exists in LXC but is not tracked") false false) missing_store.
Definition net_drift (missing_host missing_store : Datatypes.list str) :
    Datatypes.list ReconciliationFinding :=
  map (λ resource_id,
         mkFinding (if starts_with "vlan:" resource_id then "vlan" else "bridge")
           (match strip_prefix "vlan:" resource_id with Some r => r | None => resource_id end)
           None MissingFromHost
           ("network resource " ++ resource_id ++ " is missing from host") true false) missing_host
  ++ map (λ host_id, mkFinding "bridge" host_id (Some host_id) UnmanagedHost
         ("network resource " ++ host_id ++ " exists on host but is not tracked") false false)
       missing_store.

Section scan.
Context (services : Services H).

Definition detect_drift : Svc state (Datatypes.list ReconciliationFinding) :=
  vm ← on_host (vms_diff services);
  ct ← on_host (cts_diff services);
  net ← on_host (net_diff services);
  mret (vm_drift vm.1 vm.2 ++ ct_drift ct.1 ct.2 ++ net_drift net.1 net.2).

(** The job that [enqueue_reconciliation] hands to the worker; [ids] are the
    fresh ids of its quarantine records. *)
Definition reconcile_job (mode : ReconciliationMode)
    (approved : Datatypes.list ReconciliationFinding) (ids ids' : nat → str) (handle : str) :
    Svc state (option str) :=
  let progress pct m := update_progress handle pct (Some (lit m)) in
  _ ← set_reconciliation_mode handle mode;
  _ ← progress 5%N "scanning virtual machines";
  vms ← on_host (count_vms services);
  _ ← progress 25%N "scanning containers";
  containers ← on_host (count_containers services);
  _ ← progress 45%N "scanning storage";
  datasets ← on_host (count_datasets services);
  _ ← progress 65%N "scanning network";
  bridges ← on_host (count_bridges services);
  shares ← on_host (count_shares services);
  _ ← progress 85%N "scanning passthrough devices";
  gpus ← on_host (count_gpus services);
  _ ← progress 90%N "checking for drift";
  findings ← match mode with DryRun => detect_drift | Repair => mret approved end;
  _ ← set_findings handle findings;
  _ ← persist_unmanaged_findings (zip findings (map ids (seq 0 (length findings))));
  _ ← match mode with
      | Repair =>
          _ ← progress 94%N "applying approved repairs";
          repair_findings services
            (zip findings (map ids' (seq 0 (length findings))))
      | DryRun => mret tt
      end;
  let msg := "reconciled " ++ dec vms ++ " VMs, " ++ dec containers ++ " containers, "
    ++ dec datasets ++ " datasets, " ++ dec bridges ++ " bridges, " ++ dec shares
    ++ " shares, and " ++ dec gpus ++ " GPUs" in
  let msg := match findings with
             | [] => msg
             | _ => msg ++ "; " ++ dec (N.of_nat (length findings)) ++ " drift findings" end in
  let msg := match mode with
             | Repair => msg ++ "; approved non-destructive repairs applied and unmanaged resources quarantined"
             | DryRun => msg end in
  mret (Some msg).

(** The approval part of [enqueue_reconciliation]: the findings a repair may
    act on. *)
Definition approved_findings (request : ReconcileRequest) :
    Svc state (Datatypes.list ReconciliationFinding) :=
  match r_mode request with
  | DryRun => mret []
  | Repair =>
      approval_id ← lift (ok_or (validation "repair requires approval_id from a dry run")
                            (r_approval_id request));
      approval ← get approval_id;
      if negb (o_kind approval =s? "host.reconcile")
         || negb (bool_decide (o_status approval = Succeeded))
         || negb (bool_decide (o_reconciliation_mode approval = Some DryRun))
         || match o_findings approval with Some _ => false | None => true end then
        fail (conflict "approval_id must reference a completed reconciliation dry run")
      else
        _ ← consume_approval approval_id;
        mret (match o_findings approval with Some fs => fs | None => [] end)
  end.

(** [enqueue_reconciliation]: an error starts nothing; otherwise the job is spawned
    with the findings that were approved, and the first component is what the caller
    gets, the queued record read back. *)
Definition enqueue_reconciliation (request : ReconcileRequest) (actor : option str) (new_id : str)
    (ids ids' : nat → str) : Svc state (ApiResult OperationRecord * Svc state unit) :=
  findings ← approved_findings request;
  if bool_decide (r_mode request = Repair) && negb (r_quarantine_unmanaged request) then
    fail (validation
      "repair requires quarantine_unmanaged=true; unmanaged resources are never auto-adopted")
  else
    let mode := r_mode request in
    spawned ← enqueue "host.reconcile" (Some (lit "node")) None actor new_id
                (reconcile_job mode findings ids ids');
    record ← try (get (o_id spawned.1));
    mret (record, spawned.2).
End scan.
End service.
End OperationService.
