(* ===== verification/OperationsProofs.v ===== *)
(** * The journal and the reconciliation gate

    The journal record of an operation is durable before the host is touched and
    says "succeeded" only of an operation that did; interrupted operations come
    back as needing review; a dry-run approval drives one repair; and a repair
    touches the host only through eligible findings. *)

From S2P Require Export Operations.

Import OperationService.

(** What keeps an approval spent. *)
Create HintDb spent.

Section proofs.
Context `{RO : RecordStore OperationRecord} `{RQ : RecordStore QuarantineRecord}
        `{RC : RecordStore ConsumedApproval}.
Context {H : Type} (now_ts : str).
Implicit Types s : state (H:=H).

(** The record of an operation. *)
Definition op_record s (id : str) : option OperationRecord := record (store s) id.

(** Everything but the journal is as before. *)
Definition same_rest s s' : Prop :=
  quarantined s' = quarantined s ∧ consumed_approvals s' = consumed_approvals s ∧ host s' = host s.

Lemma same_rest_refl s : same_rest s s.
Proof. done. Qed.
Lemma same_rest_trans s1 s2 s3 : same_rest s1 s2 → same_rest s2 s3 → same_rest s1 s3.
Proof. intros (? & ? & ?) (? & ? & ?). split_and!; congruence. Qed.

Lemma put_record_spec r s s' x :
  put_record r s = (s', x) →
  same_rest s s' ∧
  ∀ k, op_record s' k = match x with
                        | Ok _ => if decide (k = o_id r) then Some r else op_record s k
                        | Err _ => op_record s k
                        end.
Proof.
  unfold put_record, on_store, op_record.
  destruct (store_put (o_id r) r (store s)) as [d [[]|e]] eqn:E; intros [= <- <-]; (split; [done|]);
    intros k; simpl; [apply (put_ok _ _ _ _ E)|apply (put_err _ _ _ _ _ E)].
Qed.

Lemma store_get_spec id s s' x :
  on_store (store_get id) s = (s', x) →
  same_rest s s' ∧ (∀ k, op_record s' k = op_record s k) ∧ ∀ o, x = Ok o → o = op_record s id.
Proof.
  unfold on_store, op_record. destruct (store_get id (store s)) as [d o] eqn:E.
  intros [= <- <-]. simpl. split_and!; [done| |].
  - intros k. apply (get_keeps _ _ _ _ E).
  - intros o' ->. apply (get_ok _ _ _ _ E).
Qed.

Lemma journal_get_spec id s s' x :
  OperationService.get id s = (s', x) →
  same_rest s s' ∧ (∀ k, op_record s' k = op_record s k) ∧
  ∀ r, x = Ok r → op_record s id = Some r.
Proof.
  unfold OperationService.get, mbind, svc_bind, lift.
  destruct (on_store (store_get id) s) as [s1 [o|e]] eqn:E;
    apply store_get_spec in E as (Hr & Hk & Ho); intros [= <- <-]; (split_and!; [done|done|]).
  - intros r Hx. rewrite (Ho o eq_refl) in Hx. by destruct (op_record s id); simplify_eq/=.
  - done.
Qed.

(** A call that only writes the record [id] of the journal. *)
Definition writes_only {A} (id : str) (m : Svc (state (H:=H)) A) : Prop :=
  ∀ s s' x, m s = (s', x) → same_rest s s' ∧ ∀ k, k ≠ id → op_record s' k = op_record s k.

Lemma finish_spec handle status rt ri msg err s s' x :
  finish now_ts handle status rt ri msg err s = (s', x) →
  same_rest s s' ∧ (∀ k, k ≠ handle → (∀ r, op_record s handle = Some r → o_id r = handle) →
                      op_record s' k = op_record s k) ∧
  match x with
  | Ok _ => ∃ r r', op_record s handle = Some r ∧ op_record s' (o_id r) = Some r' ∧
              o_id r' = o_id r ∧ o_status r' = status ∧ o_error r' = err ∧
              o_findings r' = o_findings r
  | Err _ => ∀ k, op_record s' k = op_record s k
  end.
Proof.
  unfold finish, mbind, svc_bind, lift.
  destruct (on_store (store_get handle) s) as [s1 [o|e]] eqn:E;
    apply store_get_spec in E as (Hr & Hk & Ho).
  2: { intros [= <- <-]. split_and!; [done|by intros|done]. }
  specialize (Ho o eq_refl). destruct o as [r|]; simpl.
  2: { intros [= <- <-]. split_and!; [done|by intros|done]. }
  intros E. apply put_record_spec in E as [Hr' Hk']. cbn [o_id with_error] in Hk'.
  split_and!; [by eapply same_rest_trans| |].
  - intros k Hne Hid. specialize (Hid r (eq_sym Ho)). rewrite Hk'. destruct x; [|done].
    simpl. case_decide; [congruence|done].
  - destruct x as [u|e]; [|intros k; by rewrite Hk'].
    exists r. eexists. split_and!; [done|rewrite Hk'; simpl; by rewrite decide_True|done..].
Qed.

(** *** The journal around host work *)

Lemma begin_spec kind rt ri actor new_id s s' x :
  begin now_ts kind rt ri actor new_id s = (s', x) →
  same_rest s s' ∧
  match x with
  | Ok h => h = new_id ∧ ∃ r, o_id r = new_id ∧ o_kind r = kind ∧ o_status r = Running ∧
              o_actor r = actor ∧
              ∀ k, op_record s' k = if decide (k = new_id) then Some r else op_record s k
  | Err _ => ∀ k, op_record s' k = op_record s k
  end.
Proof.
  unfold begin, create_record, mbind, svc_bind, fail.
  destruct (is_empty (trim kind)); [by intros [= <- <-]|].
  destruct (put_record _ s) as [s1 [u|e]] eqn:E; apply put_record_spec in E as [Hr Hk];
    intros [= <- <-]; (split; [done|]); [|done].
  split; [done|]. eexists. split_and!; [..|exact Hk]; done.
Qed.

Lemma on_host_spec {A} (m : Svc H A) s :
  on_host m s = (mkState (store s) (quarantined s) (consumed_approvals s) (m (host s)).1, (m (host s)).2).
Proof. unfold on_host. by destruct (m (host s)). Qed.

(** How the record of a finished operation reads: [finish] did not get to write
    it, or it tells the outcome. *)
Definition tells {A} (x : ApiResult A) (r : OperationRecord) : Prop :=
  match x with
  | Ok _ => o_status r = Running ∨ (o_status r = Succeeded ∧ o_error r = None)
  | Err e => o_status r = Running ∨ (o_status r = Failed ∧ o_error r = Some (message e))
  end.

Lemma finish_tells {A} (y : ApiResult A) (id : str) s r rt ri msg st err s' x :
  op_record s id = Some r → o_id r = id → o_status r = Running →
  finish now_ts id st rt ri msg err s = (s', x) →
  match y with
  | Ok _ => st = Succeeded ∧ err = None
  | Err e => st = Failed ∧ err = Some (message e)
  end →
  same_rest s s' ∧ (∀ k, k ≠ id → op_record s' k = op_record s k) ∧
  ∃ r', op_record s' id = Some r' ∧ o_id r' = id ∧ tells y r'.
Proof.
  intros Hr Hid Hst E Hy. apply finish_spec in E as (Hsame & Hk & Hx). split_and!; [done| |].
  - intros k Hne. apply Hk; [done|]. intros r0. rewrite Hr. by intros [= <-].
  - destruct x as [u|e].
    + destruct Hx as (r0 & r' & Hr0 & Hr' & Hid' & Hs & He & _). rewrite Hr in Hr0.
      injection Hr0 as <-. rewrite Hid in Hr', Hid'. exists r'. split_and!; [done|done|].
      destruct y; destruct Hy as [-> ->]; simpl; auto.
    + exists r. split_and!; [by rewrite Hx|done|]. destruct y; simpl; auto.
Qed.

(** C22: an operation that [run] journals is durable before the host is touched:
    if its record cannot be written the host is as it was and the call fails;
    otherwise the host work starts from a state that already holds a Running
    record of this operation and actor, the host ends as that work leaves it,
    the caller gets that work's outcome, every other record is unchanged, and
    the record ends Succeeded only of work that succeeded and Failed, with its
    message, only of work that failed (it stays Running, for the recovery at
    startup, when the final write fails). *)
Theorem run_journal {T} kind rt ri actor new_id (operation : Svc H T) s s' (x : ApiResult T) :
  run now_ts kind rt ri actor new_id operation s = (s', x) →
  ((∃ e, x = Err e) ∧ host s' = host s ∧ ∀ k, op_record s' k = op_record s k) ∨
  ∃ s1 r r', begin now_ts kind rt ri actor new_id s = (s1, Ok new_id) ∧
    op_record s1 new_id = Some r ∧ o_status r = Running ∧ o_kind r = kind ∧ o_actor r = actor ∧
    host s1 = host s ∧ (host s', x) = operation (host s1) ∧
    (∀ k, k ≠ new_id → op_record s' k = op_record s k) ∧
    op_record s' new_id = Some r' ∧ tells x r'.
Proof.
  unfold run, mbind, svc_bind at 1.
  destruct (begin _ _ _ _ _ _ s) as [s1 [h|e]] eqn:Eb; pose proof Eb as Eb';
    apply begin_spec in Eb as [(_ & _ & Hh) Hb].
  2: { intros [= <- <-]. left. eauto. }
  destruct Hb as [-> (r & Hid & Hkd & Hst & Hac & Hk)].
  unfold try, svc_bind at 1. rewrite on_host_spec.
  destruct (operation (host s1)) as [h' y] eqn:Eo. cbn [fst snd].
  set (s2 := mkState (store s1) (quarantined s1) (consumed_approvals s1) h').
  assert (∀ k, op_record s2 k = op_record s1 k) as Hs2 by done.
  assert (op_record s2 new_id = Some r) as Hr2 by (rewrite Hs2, Hk; by rewrite decide_True).
  intros E. right.
  assert (∃ s3, same_rest s2 s3 ∧ (∀ k, k ≠ new_id → op_record s3 k = op_record s2 k) ∧
    (∃ r', op_record s3 new_id = Some r' ∧ o_id r' = new_id ∧ tells y r') ∧ s' = s3 ∧ x = y) as
    (s3 & (_ & _ & Hh3) & Hk3 & (r' & Hr' & _ & Ht) & -> & ->).
  { destruct y as [v|e]; unfold svc_bind, best_effort in E; injection E as <- <-; simpl.
    - unfold succeed. destruct (finish _ _ _ _ _ _ _ s2) as [s3 z] eqn:Ef.
      eapply (finish_tells (Ok v)) in Ef as (? & ? & ?); [|done..]. eexists. by split_and!.
    - unfold fail_operation. destruct (finish _ _ _ _ _ _ _ s2) as [s3 z] eqn:Ef.
      eapply (finish_tells (A:=T) (Err e)) in Ef as (? & ? & ?); [|done..]. eexists. by split_and!. }
  exists s1, r, r'. split_and!; try done.
  - by rewrite Hh3.
  - intros k Hne. rewrite Hk3, Hs2, Hk by done. by rewrite decide_False.
Qed.

(** *** Recovery at startup *)

Definition keyed s : Prop := ∀ k r, op_record s k = Some r → o_id r = k.

(** What recovery makes of a record. *)
Definition recovered (r : OperationRecord) : OperationRecord :=
  if active (o_status r) then
    with_progress (with_times (with_status r NeedsReview) (o_started_at r) (Some now_ts))
      (o_progress_pct r)
      (Some (lit "backend stopped before the operation outcome was recorded; inspect host state"))
  else r.

Definition half_recovered s t : Prop :=
  ∀ k, op_record t k = op_record s k ∨ op_record t k = recovered <$> op_record s k.

Lemma recover_loop_spec s l n t t' x :
  keyed s → (∀ r, r ∈ l → op_record s (o_id r) = Some r) → half_recovered s t →
  recover_loop now_ts n l t = (t', x) →
  same_rest t t' ∧ half_recovered s t' ∧
  (∀ k, op_record t k = recovered <$> op_record s k → op_record t' k = recovered <$> op_record s k) ∧
  ((∃ m, x = Ok m) → ∀ r, r ∈ l → op_record t' (o_id r) = Some (recovered r)).
Proof.
  intros Hkeyed. revert n t. induction l as [|r l IH]; intros n t Hl Ht E; simpl in E.
  { injection E as <- <-. split_and!; [done..|]. intros _ r H0. by apply not_elem_of_nil in H0. }
  assert (op_record s (o_id r) = Some r) as Hr by (apply Hl; by left).
  assert (∀ r', r' ∈ l → op_record s (o_id r') = Some r') as Hl' by (intros; apply Hl; by right).
  destruct (active (o_status r)) eqn:Ea; simpl in E.
  - unfold mbind, svc_bind in E.
    destruct (put_record _ t) as [t1 [u|e]] eqn:Ep; apply put_record_spec in Ep as [Hs Hk];
      cbn [o_id with_progress with_times with_status] in Hk.
    + assert (∀ k, op_record t1 k = if decide (k = o_id r) then recovered <$> op_record s k
                                    else op_record t k) as Hk1.
      { intros k. rewrite Hk. case_decide; [|done]. subst k. rewrite Hr. simpl. unfold recovered.
        by rewrite Ea. }
      destruct (IH (S n) t1) as (H1 & H2 & H3 & H4); [done| |done|].
      { intros k. rewrite Hk1. case_decide; [by right|apply Ht]. }
      split_and!; [by eapply same_rest_trans|done| |].
      * intros k H0. apply H3. rewrite Hk1. case_decide; [done|]. apply H0.
      * intros Hx r' [->|Hin]%elem_of_cons; [|by apply H4].
        specialize (H3 (o_id r)). rewrite Hk1, decide_True, Hr in H3 by done. by apply H3.
    + injection E as <- <-. split_and!; [done| | |by intros [? ?]].
      * intros k. rewrite Hk. apply Ht.
      * intros k. by rewrite Hk.
  - destruct (IH n t) as (H1 & H2 & H3 & H4); [done..|]. split_and!; [done..|].
    intros Hx r' [->|Hin]%elem_of_cons; [|by apply H4].
    specialize (H2 (o_id r)). rewrite Hr in H2. simpl in H2. unfold recovered in *.
    rewrite Ea in *. by destruct H2.
Qed.

(** Recovery at startup: every queued or running record is marked as
    needing review, every settled one is as it was, and nothing else changes;
    cut short by a failing write it has marked some of them and changed nothing
    else. No record is queued or running afterwards. *)
Theorem recovery s s' x :
  keyed s → recover_interrupted now_ts s = (s', x) →
  same_rest s s' ∧ half_recovered s s' ∧
  ((∃ n, x = Ok n) →
     (∀ k, op_record s' k = recovered <$> op_record s k) ∧
     (∀ k r, op_record s' k = Some r → active (o_status r) = false)).
Proof.
  intros Hkeyed. unfold recover_interrupted, mbind, svc_bind, on_store.
  destruct (store_list (store s)) as [d [l|e]] eqn:El.
  - intros E. pose proof (list_keeps _ _ _ El) as Hkeep.
    set (t := mkState d (quarantined s) (consumed_approvals s) (host s)) in E.
    assert (∀ k, op_record t k = op_record s k) as Ht by apply Hkeep.
    apply (recover_loop_spec s) in E as (H1 & H2 & _ & H4);
      [|done| |intros k; left; apply Ht].
    2: { intros r Hin. apply (list_ok _ _ _ El) in Hin as [k Hk].
         assert (op_record s k = Some r) as Hk' by done. by rewrite (Hkeyed _ _ Hk'). }
    split_and!; [done..|]. intros Hx.
    assert (∀ k, op_record s' k = recovered <$> op_record s k) as Hall.
    { intros k. destruct (op_record s k) as [r|] eqn:Hr.
      - rewrite <- (Hkeyed _ _ Hr). simpl. apply H4; [done|].
        apply (list_ok _ _ _ El). by exists k.
      - destruct (H2 k) as [Hk|Hk]; by rewrite Hk, ?Hr. }
    split; [done|]. intros k r. rewrite Hall. intros (r0 & _ & ->)%fmap_Some.
    unfold recovered. destruct (active (o_status r0)) eqn:Ea; done.
  - intros [= <- <-]. split_and!; [done| |by intros [? ?]].
    intros k. left. apply (list_keeps _ _ _ El).
Qed.

(** *** Approvals *)

Definition spent s (a : str) : Prop := is_Some (record (consumed_approvals s) a).

(** No call takes a spent approval back. *)
Lemma spent_on_store {A} (m : Svc _ A) a : keeps (λ s, spent s a) (on_store (H:=H) m).
Proof. intros s s' r. unfold on_store. destruct (m (store s)). by intros [= <- _]. Qed.
Lemma spent_on_quarantine {A} (m : Svc _ A) a : keeps (λ s, spent s a) (on_quarantine (H:=H) m).
Proof. intros s s' r. unfold on_quarantine. destruct (m (quarantined s)). by intros [= <- _]. Qed.
Lemma spent_on_host {A} (m : Svc H A) a : keeps (λ s, spent s a) (on_host m).
Proof. intros s s' r. unfold on_host. destruct (m (host s)). by intros [= <- _]. Qed.
Lemma spent_try {A} (m : Svc (state (H:=H)) A) a :
  keeps (λ s, spent s a) m → keeps (λ s, spent s a) (try m).
Proof.
  intros Hm s s' r. unfold try. destruct (m s) as [s1 x] eqn:E. intros [= <- _]. by eapply Hm.
Qed.
Lemma spent_best_effort (m : Svc (state (H:=H)) unit) a :
  keeps (λ s, spent s a) m → keeps (λ s, spent s a) (best_effort m).
Proof.
  intros Hm s s' r. unfold best_effort. intros [= <- _]. eapply Hm. apply surjective_pairing.
Qed.
Lemma spent_consumed_get b a : keeps (λ s, spent s a) (on_consumed (H:=H) (store_get b)).
Proof.
  intros s s' r. unfold on_consumed, spent. destruct (store_get _ _) as [d o] eqn:E.
  intros [= <- _]. simpl. by rewrite (get_keeps _ _ _ _ E).
Qed.
Lemma spent_consumed_put b v a : keeps (λ s, spent s a) (on_consumed (H:=H) (store_put b v)).
Proof.
  intros s s' r. unfold on_consumed, spent. destruct (store_put _ _ _) as [d [[]|e]] eqn:E;
    intros [= <- _]; simpl.
  - rewrite (put_ok _ _ _ _ E). by case_decide.
  - by rewrite (put_err _ _ _ _ _ E).
Qed.
Lemma spent_match {A B} (o : option A) (f : A → Svc (state (H:=H)) B) (g : Svc (state (H:=H)) B) a :
  (∀ x, keeps (λ s, spent s a) (f x)) → keeps (λ s, spent s a) g →
  keeps (λ s, spent s a) (match o with Some x => f x | None => g end).
Proof. by destruct o. Qed.
#[local] Hint Resolve spent_on_store spent_on_quarantine spent_on_host spent_try
  spent_best_effort spent_consumed_get spent_consumed_put spent_match : spent.

(** Walk through a service method, one bind or branch at a time. *)
Ltac keeps_walk :=
  repeat first
    [ progress intros
    | solve [auto with spent]
    | apply keeps_bind | apply keeps_lift | apply keeps_fail | apply keeps_ret
    | match goal with
      | |- keeps _ (match ?x with _ => _ end) => destruct x
      | |- keeps _ (let '(_, _) := ?x in _) => destruct x
      end
    | apply spent_try | apply spent_best_effort ].

Lemma spent_get id a : keeps (λ s, spent s a) (OperationService.get (H:=H) id).
Proof. unfold OperationService.get. keeps_walk. Qed.
Lemma spent_put_record r a : keeps (λ s, spent s a) (put_record (H:=H) r).
Proof. unfold put_record. keeps_walk. Qed.
Lemma spent_finish h st rt ri m e a : keeps (λ s, spent s a) (finish (H:=H) now_ts h st rt ri m e).
Proof. unfold finish, put_record. keeps_walk. Qed.
Lemma spent_mark_running h a : keeps (λ s, spent s a) (mark_running (H:=H) now_ts h).
Proof. unfold mark_running. keeps_walk; auto using spent_get, spent_put_record. Qed.
Lemma spent_progress h p m a : keeps (λ s, spent s a) (update_progress (H:=H) h p m).
Proof. unfold update_progress. keeps_walk; auto using spent_get, spent_put_record. Qed.
Lemma spent_queue k rt ri ac id a : keeps (λ s, spent s a) (queue (H:=H) now_ts k rt ri ac id).
Proof. unfold queue, create_record. keeps_walk; auto using spent_put_record. Qed.
Lemma spent_quarantine t h m id a : keeps (λ s, spent s a) (quarantine (H:=H) now_ts t h m id).
Proof. unfold quarantine. keeps_walk. Qed.
Lemma spent_consume b a : keeps (λ s, spent s a) (consume_approval (H:=H) now_ts b).
Proof. unfold consume_approval, consume_check, consume_commit. keeps_walk. Qed.
#[local] Hint Resolve spent_get spent_put_record spent_finish spent_mark_running spent_progress
  spent_queue spent_quarantine spent_consume : spent.

Lemma spent_approved r a : keeps (λ s, spent s a) (approved_findings (H:=H) now_ts r).
Proof. unfold approved_findings. keeps_walk. Qed.
#[local] Hint Resolve spent_approved : spent.
Lemma spent_enqueue sv r ac id i i' a :
  keeps (λ s, spent s a) (enqueue_reconciliation (H:=H) now_ts sv r ac id i i').
Proof. unfold enqueue_reconciliation, enqueue. keeps_walk. Qed.
Lemma spent_recover a : keeps (λ s, spent s a) (recover_interrupted (H:=H) now_ts).
Proof.
  unfold recover_interrupted. keeps_walk. generalize 0. induction a0 as [|r l IH]; intros n; simpl;
    keeps_walk.
Qed.
Lemma spent_persist l a : keeps (λ s, spent s a) (persist_unmanaged_findings (H:=H) now_ts l).
Proof. induction l as [|[f i] l IH]; simpl; keeps_walk. Qed.
Lemma spent_repair sv l a : keeps (λ s, spent s a) (repair_findings (H:=H) now_ts sv l).
Proof. induction l as [|[f i] l IH]; simpl; keeps_walk. Qed.
Lemma spent_decide ab id d ac m a : keeps (λ s, spent s a) (decide_quarantine (H:=H) now_ts ab id d ac m).
Proof. unfold decide_quarantine. keeps_walk. Qed.
#[local] Hint Resolve spent_enqueue spent_recover spent_persist spent_repair spent_decide : spent.

(** The calls that the rest of the program makes: [CWorker] is the worker of a
    queued reconciliation, whose host work is arbitrary, and [CRun] a
    synchronous operation. *)
Inductive call :=
  | CEnqueue (services : Services H) (request : ReconcileRequest) (actor : option str) (new_id : str)
      (ids ids' : nat → str)
  | CWorker (services : Services H) (handle : str) (mode : ReconciliationMode)
      (approved : Datatypes.list ReconciliationFinding) (ids ids' : nat → str)
  | CRun (kind : str) (rt ri actor : option str) (new_id : str) (operation : Svc H unit)
  | CDecide (id : str) (d : QuarantineDecision) (actor : str) (message : option str)
      (adopt_bridge : str → Svc H unit)
  | CRecover.

Definition perform (c : call) s : state (H:=H) :=
  match c with
  | CEnqueue sv r ac id ids ids' => (enqueue_reconciliation now_ts sv r ac id ids ids' s).1
  | CWorker sv h mode approved ids ids' =>
      (worker now_ts h (Some (lit "node")) None (reconcile_job now_ts sv mode approved ids ids') s).1
  | CRun k rt ri ac id op => (run now_ts k rt ri ac id op s).1
  | CDecide id d ac m ab => (decide_quarantine now_ts ab id d ac m s).1
  | CRecover => (recover_interrupted now_ts s).1
  end.

Lemma spent_job sv h mode approved ids ids' a :
  keeps (λ s, spent s a) (reconcile_job (H:=H) now_ts sv mode approved ids ids' h).
Proof.
  unfold reconcile_job, detect_drift, set_reconciliation_mode, set_findings. keeps_walk.
Qed.
#[local] Hint Resolve spent_job : spent.

Lemma spent_perform c s a : spent s a → spent (perform c s) a.
Proof.
  assert (∀ A (m : Svc (state (H:=H)) A), keeps (λ s, spent s a) m → spent s a → spent (m s).1 a) as Hk.
  { intros A m Hm. eapply (Hm s (m s).1 (m s).2). apply surjective_pairing. }
  destruct c; simpl; apply Hk; auto with spent.
  - unfold worker. keeps_walk.
  - unfold run, begin, create_record, succeed, fail_operation. keeps_walk.
Qed.

Lemma consume_spec a s s' x :
  consume_approval now_ts a s = (s', x) →
  (spent s a → ∃ e, x = Err e) ∧ (x = Ok tt → spent s' a) ∧ store s' = store s ∧ host s' = host s.
Proof.
  unfold consume_approval, consume_check, consume_commit, mbind, svc_bind, on_consumed, spent.
  destruct (store_get a _) as [d [o|e]] eqn:E.
  2: { intros [= <- <-]. split_and!; try done. by eauto. }
  apply get_ok in E as Ho. destruct o as [v|]; unfold fail, mret, svc_ret; simpl.
  { intros [= <- <-]. split_and!; try done. by eauto. }
  destruct (store_put a _ d) as [d' [[]|e]] eqn:E'; intros [= <- <-]; simpl.
  - split_and!; try done.
    + intros [v Hv]. rewrite <- Ho in Hv. done.
    + intros _. rewrite (put_ok _ _ _ _ E'), decide_True by done. by eexists.
  - split_and!; try done. by eauto.
Qed.

Lemma approved_spec r s s' fs :
  r_mode r = Repair → approved_findings now_ts r s = (s', Ok fs) →
  host s' = host s ∧
  ∃ a ap, r_approval_id r = Some a ∧ op_record s a = Some ap ∧ o_kind ap = lit "host.reconcile" ∧
    o_status ap = Succeeded ∧ o_reconciliation_mode ap = Some DryRun ∧ o_findings ap = Some fs ∧
    spent s' a.
Proof.
  intros Hm. unfold approved_findings. rewrite Hm. unfold mbind, svc_bind, lift, fail, mret, svc_ret.
  destruct (r_approval_id r) as [a|]; simpl; [|done].
  destruct (OperationService.get a s) as [s1 [ap|e]] eqn:Eg; [|done].
  apply journal_get_spec in Eg as [(_ & _ & Hh) [_ Hg]]. specialize (Hg ap eq_refl).
  destruct (o_kind ap =s? _) eqn:Ek; simpl; [|done].
  destruct (bool_decide_reflect (o_status ap = Succeeded)) as [Hst|Hst]; simpl; [|done].
  destruct (bool_decide_reflect (o_reconciliation_mode ap = Some DryRun)) as [Hmd|Hmd]; simpl; [|done].
  destruct (o_findings ap) as [fs'|] eqn:Ef; simpl; [|done].
  destruct (consume_approval now_ts a s1) as [s2 [[]|e]] eqn:Ec; [|done].
  apply consume_spec in Ec as (_ & Hsp & _ & Hh2). intros [= <- <-].
  split; [congruence|]. exists a, ap. split_and!; try done; [|by apply Hsp].
  by apply str_eqb_eq in Ek.
Qed.

Lemma approved_spent r s a :
  r_mode r = Repair → r_approval_id r = Some a → spent s a →
  ∃ s' e, approved_findings now_ts r s = (s', Err e).
Proof.
  intros Hm Ha Hs. unfold approved_findings. rewrite Hm, Ha.
  unfold mbind, svc_bind, lift, fail. simpl.
  destruct (OperationService.get a s) as [s1 [ap|e]] eqn:Eg; [|by eauto].
  pose proof (spent_get _ a _ _ _ Eg Hs) as Hs1.
  destruct (_ || _); [by eauto|].
  destruct (consume_approval now_ts a s1) as [s2 x] eqn:Ec.
  apply consume_spec in Ec as (Hsp & _). destruct (Hsp Hs1) as [e ->]. by eauto.
Qed.

(** *** Repairs *)

(** The findings a repair may act on. *)
Definition eligible (f : ReconciliationFinding) : bool :=
  negb (bool_decide (f_kind f = UnmanagedHost)) && f_repairable f && negb (f_destructive f)
  && ((f_resource_type f =s? "vm") || (f_resource_type f =s? "container")
      || (f_resource_type f =s? "bridge") || (f_resource_type f =s? "vlan")).

Section repairs.
Context (services : Services H).

(** What a repair does to the host for one finding. *)
Definition repair_of (f : ReconciliationFinding) : Svc H unit :=
  let t := f_resource_type f in
  if t =s? "vm" then repair_vm services (f_resource_id f)
  else if t =s? "container" then repair_container services (f_resource_id f)
  else if t =s? "bridge" then repair_bridge services (f_resource_id f)
  else repair_vlan services (f_resource_id f).

Lemma quarantine_spec t h m id s s' x :
  quarantine now_ts t h m id s = (s', x) → host s' = host s ∧ store s' = store s.
Proof.
  unfold quarantine, mbind, svc_bind, on_quarantine, mret, svc_ret.
  destruct (store_list (quarantined s)) as [d [l|e]]; [|by intros [= <- <-]].
  destruct (List.find _ l); [by intros [= <- <-]|].
  destruct (store_put _ _ _) as [d' [u|e]]; by intros [= <- <-].
Qed.

(** A repair touches the host only through eligible findings (repairable,
    not destructive, not an unmanaged host resource, of a kind it knows), in
    their order and each once: the host it leaves is the one their host actions
    make of it, all of them when it succeeds and those before the failing step
    when not. Unmanaged resources are quarantined, never changed or adopted. *)
Theorem repairs_eligible_only l s s' x :
  repair_findings now_ts services l s = (s', x) →
  store s' = store s ∧
  ∃ acted, acted `prefix_of` List.filter eligible l.*1 ∧
    host s' = foldl (λ h f, (repair_of f h).1) (host s) acted ∧
    (x = Ok tt → acted = List.filter eligible l.*1).
Proof.
  revert s. induction l as [|[f i] l IH]; intros s; simpl.
  { intros [= <- <-]. split; [done|]. by exists []. }
  unfold mbind at 1, svc_bind at 1.
  destruct (bool_decide_reflect (f_kind f = UnmanagedHost)) as [Hu|Hu].
  { assert (eligible f = false) as Hel.
    { unfold eligible. by rewrite bool_decide_true. }
    rewrite Hel. destruct (f_host_id f) as [h|].
    - unfold mbind, svc_bind. destruct (quarantine _ _ _ _ _ s) as [s1 [u|e]] eqn:Eq;
        apply quarantine_spec in Eq as [<- <-].
      + apply IH.
      + intros [= <- <-]. split; [done|]. exists []. split_and!; [apply prefix_nil|done|done].
    - apply IH. }
  destruct (negb (f_repairable f) || f_destructive f) eqn:Hr.
  { assert (eligible f = false) as ->.
    { unfold eligible. rewrite bool_decide_false by done.
      by destruct (f_repairable f), (f_destructive f). }
    apply IH. }
  assert (∀ (m : Svc H unit), m = repair_of f →
    (match on_host m s with
     | (s, Ok _) => repair_findings now_ts services l s
     | (s, Err e) => (s, Err e) end) = (s', x) →
    store s' = store s ∧ ∃ acted, acted `prefix_of` f :: List.filter eligible l.*1 ∧
      host s' = foldl (λ h f, (repair_of f h).1) (host s) acted ∧
      (x = Ok tt → acted = f :: List.filter eligible l.*1)) as Hact.
  { intros m ->. rewrite on_host_spec.
    destruct ((repair_of f (host s)).2) as [[]|e].
    - intros (Hst & acted & Hp & Hh & Hx)%IH. split; [done|]. exists (f :: acted).
      split_and!; [by apply prefix_cons|done|]. intros ?. by rewrite Hx.
    - intros [= <- <-]. split; [done|]. exists [f]. split_and!; [|done|done].
      apply prefix_cons, prefix_nil. }
  assert (bool_decide (f_kind f = UnmanagedHost) = false) as Hu' by by apply bool_decide_false.
  apply orb_false_iff in Hr as [Hr1%negb_false_iff Hr2].
  unfold eligible, repair_of in *. rewrite Hu', Hr1, Hr2 in *. simpl in *.
  repeat match goal with
  | |- context [f_resource_type f =s? ?t] => destruct (f_resource_type f =s? t); simpl in *
  end; try (by apply Hact); apply IH.
Qed.

(** *** The job of a repair *)

Definition q_record s (id : str) : option QuarantineRecord := record (quarantined s) id.

(** The record of a running job, its findings as [F] says. *)
Definition running (F : option (Datatypes.list ReconciliationFinding) → Prop) (id : str) s : Prop :=
  ∃ r, op_record s id = Some r ∧ o_id r = id ∧ o_status r = Running ∧ F (o_findings r).
(** A quarantine record beyond those of [base] stands for an unmanaged host
    resource among [fs]. *)
Definition quarantine_from (base : str → option QuarantineRecord)
    (fs : Datatypes.list ReconciliationFinding) s : Prop :=
  ∀ k q, q_record s k = Some q → base k = Some q ∨
    ∃ f, f ∈ fs ∧ f_kind f = UnmanagedHost ∧ f_host_id f = Some (q_host_id q) ∧
      f_resource_type f = q_resource_type q ∧ q_status q = Pending.

Section job.
Context (id : str) (base : str → option QuarantineRecord) (fs : Datatypes.list ReconciliationFinding).
Context (h : H).
(** Before the repairs begin: the job is running and has touched nothing but the
    journal and the quarantine. *)
Definition scanning F s : Prop := running F id s ∧ host s = h ∧ quarantine_from base fs s.

Lemma scanning_put F F' r s s' x : o_id r = id → o_status r = Running → F' (o_findings r) →
  put_record r s = (s', x) → scanning F s →
  match x with Ok _ => scanning F' s' | Err _ => scanning F s' end.
Proof.
  intros Hi Hr HF E (Hrun & Hh & Hq). apply put_record_spec in E as [(Hq' & _ & Hh') Hk].
  assert (host s' = h ∧ quarantine_from base fs s') as [? ?].
  { split; [congruence|]. unfold quarantine_from, q_record. by rewrite Hq'. }
  destruct x; split_and!; try done.
  - exists r. split_and!; try done. by rewrite Hk, decide_True.
  - destruct Hrun as (r0 & ? & ?). exists r0. by rewrite Hk.
Qed.
(** A change of the job's own record. *)
Lemma scanning_update F F' (m : OperationRecord → OperationRecord) (g : OperationRecord → bool) s s' x :
  (∀ r, o_id (m r) = o_id r ∧ o_status (m r) = o_status r) →
  (∀ r, F (o_findings r) → F' (o_findings (m r))) → (∀ r, g r = true → o_status r ≠ Running) →
  (r ← OperationService.get id; if g r then mret tt else put_record (m r)) s = (s', x) → scanning F s →
  match x with Ok _ => scanning F' s' | Err _ => scanning F s' end.
Proof.
  intros Hm HF Hg E (Hrun & Hh & Hq). unfold mbind, svc_bind in E.
  destruct (OperationService.get id s) as [s1 [r|e]] eqn:Eg;
    apply journal_get_spec in Eg as ((Hq1 & _ & Hh1) & Hk & Hr).
  2: { injection E as <- <-. split_and!; [|congruence|unfold quarantine_from, q_record; by rewrite Hq1].
       destruct Hrun as (r0 & ? & ?). exists r0. by rewrite Hk. }
  specialize (Hr r eq_refl). destruct Hrun as (r0 & Hr0 & Hi & Hst & Hf). rewrite Hr in Hr0.
  injection Hr0 as <-. destruct (Hm r) as [Hmi Hms].
  destruct (g r) eqn:Egr; [by destruct (Hg r Egr)|].
  apply (scanning_put F F') in E; [done|congruence|congruence|by apply HF|].
  split_and!; [|congruence|unfold quarantine_from, q_record; by rewrite Hq1].
  exists r. by rewrite Hk.
Qed.
Lemma scanning_mode F mode : keeps (scanning F) (set_reconciliation_mode id mode).
Proof.
  intros s s' x E Hs. apply (scanning_update F F (λ r, with_mode r mode) (λ _, false)) in E; by destruct x.
Qed.
Lemma scanning_progress F p m : keeps (scanning F) (update_progress id p m).
Proof.
  intros s s' x E Hs. apply (scanning_update F F (λ r, with_progress r (Some (N.min p 100))
    (or_ m (o_message r))) (λ r, terminal (o_status r))) in E; try done; [by destruct x|].
  intros r. by destruct (o_status r).
Qed.
Lemma scanning_findings F l s s' x : set_findings id l s = (s', x) → scanning F s →
  match x with Ok _ => scanning (λ o, o = Some l) s' | Err _ => scanning F s' end.
Proof.
  intros E Hs. by apply (scanning_update F (λ o, o = Some l) (λ r, with_findings r l) (λ _, false)) in E.
Qed.
Lemma scanning_read F {A} (m : Svc H A) : (∀ h, (m h).1 = h) → keeps (scanning F) (on_host m).
Proof.
  intros Hm s s' x. rewrite on_host_spec, Hm. intros [= <- _] (Hr & Hh & Hq). by split_and!.
Qed.

(** What the quarantine holds after one resource is put there. *)
Lemma quarantine_kept f host_id new_id s s' x :
  f ∈ fs → f_kind f = UnmanagedHost → f_host_id f = Some host_id →
  quarantine now_ts (f_resource_type f) host_id (f_message f) new_id s = (s', x) →
  quarantine_from base fs s → quarantine_from base fs s' ∧ store s' = store s ∧ host s' = host s.
Proof.
  intros Hf Hu Hi E Hs. pose proof (quarantine_spec _ _ _ _ _ _ _ E) as [? ?]. split; [|done].
  unfold quarantine, mbind, svc_bind, on_quarantine, mret, svc_ret in E.
  destruct (store_list (quarantined s)) as [d l] eqn:El.
  assert (∀ k, record d k = record (quarantined s) k) as Hd by apply (list_keeps _ _ _ El).
  assert (quarantine_from base fs (mkState (store s) d (consumed_approvals s) (host s))) as Hfrom.
  { unfold quarantine_from, q_record. simpl. setoid_rewrite Hd. apply Hs. }
  destruct l as [l|e]; [|by injection E as <- <-]. destruct (List.find _ l); [by injection E as <- <-|].
  destruct (store_put _ _ _) as [d' [[]|e]] eqn:Ep; injection E as <- <-; intros k q;
    unfold q_record; simpl.
  - rewrite (put_ok _ _ _ _ Ep). case_decide; [|apply Hfrom]. intros Heq. injection Heq as <-. right. by exists f.
  - rewrite (put_err _ _ _ _ _ Ep). apply Hfrom.
Qed.
Lemma scanning_persist F l : l.*1 ⊆ fs → keeps (scanning F) (persist_unmanaged_findings now_ts l).
Proof.
  induction l as [|[f i] l IH]; intros Hl; simpl; [apply keeps_ret|].
  apply keeps_bind; [|intros _; apply IH; set_solver].
  destruct (f_kind f) eqn:Hk; try apply keeps_ret. destruct (f_host_id f) as [host_id|] eqn:Hi; [|apply keeps_ret].
  apply keeps_bind; [|intros; apply keeps_ret]. intros s s' x E (Hr & Hh & Hq).
  apply (quarantine_kept f) in E as (? & Hst & Hh'); [|set_solver|done..].
  split_and!; [|congruence|done]. unfold running, op_record in *. by rewrite Hst.
Qed.
Lemma repair_quarantine l : l.*1 ⊆ fs → keeps (quarantine_from base fs) (repair_findings now_ts services l).
Proof.
  induction l as [|[f i] l IH]; intros Hl; simpl; [apply keeps_ret|].
  apply keeps_bind; [|intros _; apply IH; set_solver].
  assert (∀ A (m : Svc H A), keeps (quarantine_from base fs) (on_host m)) as Hon.
  { intros A m s s' x. rewrite on_host_spec. by intros [= <- _]. }
  destruct (bool_decide_reflect (f_kind f = UnmanagedHost)) as [Hk|Hk].
  - destruct (f_host_id f) as [host_id|] eqn:Hi; [|apply keeps_ret].
    apply keeps_bind; [|intros; apply keeps_ret]. intros s s' x E Hq.
    by apply (quarantine_kept f) in E as (? & _); [|set_solver|..].
  - repeat case_match; auto using keeps_ret.
Qed.

(** One step of a method that keeps an invariant. *)
Lemma keeps_step {A B} (P : state (H:=H) → Prop) (m : Svc state A) (f : A → Svc state B) s s' x :
  keeps P m → P s → mbind f m s = (s', x) →
  (∃ e, x = Err e ∧ P s') ∨ ∃ a s1, P s1 ∧ f a s1 = (s', x).
Proof.
  intros Hm Hs. unfold mbind, svc_bind. destruct (m s) as [s1 [a|e]] eqn:E.
  - intros E'. right. exists a, s1. split; [by eapply Hm|done].
  - intros [= <- <-]. left. exists e. split; [done|]. by eapply Hm.
Qed.

(** What the job of a repair comes to, however far it gets. *)
Definition repaired (x : ApiResult (option str)) s : Prop :=
  quarantine_from base fs s ∧
  ∃ acted, acted `prefix_of` List.filter eligible fs ∧ host s = foldl (λ h f, (repair_of f h).1) h acted ∧
    running (λ o, acted ≠ [] ∨ is_ok x = true → o = Some fs) id s ∧
    (is_ok x = true → acted = List.filter eligible fs).
Lemma scanning_repaired F e s : scanning F s → repaired (Err e) s.
Proof.
  intros ((r & ? & ? & ? & ?) & Hh & Hq). split; [done|]. exists [].
  split_and!; [apply prefix_nil|done| |done]. exists r. split_and!; try done. by intros [?|?].
Qed.

Context (scan_reads : ∀ h', (count_vms services h').1 = h' ∧ (count_containers services h').1 = h' ∧
  (count_datasets services h').1 = h' ∧ (count_bridges services h').1 = h' ∧
  (count_shares services h').1 = h' ∧ (count_gpus services h').1 = h').

Lemma zip_fst_map {A B} (l : Datatypes.list A) (g : nat → B) : (zip l (map g (seq 0 (length l)))).*1 = l.
Proof. apply fst_zip. by rewrite length_fmap, length_seq. Qed.

(** One step of the scan, which may end the job. *)
Ltac scan_step :=
  match goal with Hs : scanning ?F ?s |- mbind _ _ ?s = _ → _ =>
      let E := fresh "E" in let N := fresh "N" in intros E; eapply (keeps_step (scanning F)) in E;
      [|first [apply scanning_mode|apply scanning_progress|apply scanning_read; intros ?; by apply scan_reads
              |apply scanning_persist; by rewrite zip_fst_map]|exact Hs];
      destruct E as [(? & -> & ?)|(? & ? & N & E)]; [by eapply scanning_repaired|clear Hs; rename N into Hs; revert E] end.

Lemma repair_job_spec ids ids' s s' x : scanning (λ _, True) s →
  reconcile_job now_ts services Repair fs ids ids' id s = (s', x) → repaired x s'.
Proof.
  intros Hs. unfold reconcile_job. cbv zeta.
  do 13 scan_step. unfold mbind at 1, svc_bind at 1, mret at 1, svc_ret.
  unfold mbind at 1, svc_bind at 1. destruct (set_findings id fs _) as [s1 [[]|e]] eqn:Ef;
    pose proof (scanning_findings (λ _, True) _ _ _ _ Ef Hs) as Hs1.
  2: { intros [= <- <-]. exact (scanning_repaired _ _ _ Hs1). }
  cbv beta iota in Hs1. clear Hs Ef. rename Hs1 into Hs. scan_step.
  unfold mbind at 1, svc_bind at 1. intros E.
  match type of E with (let '(_, _) := ?t in _) = _ => destruct t as [s2 y] eqn:Em end.
  assert (s' = s2 ∧ is_ok x = is_ok y) as [-> Hx] by (destruct y; by injection E as <- <-). clear E.
  revert Em. intros E. eapply (keeps_step _ _ _ _ _ _ (scanning_progress _ _ _) Hs) in E.
  destruct E as [(e & -> & Hs')|(u & s3 & ((r & Hr & Hi & Hst & Hf) & Hh & Hq) & E)].
  { destruct x; [done|]. by eapply scanning_repaired. }
  split; [eapply (repair_quarantine _ _ _ _ _ E Hq)|].
  apply repairs_eligible_only in E as (Hstore & acted & Hp & Hh' & Hall).
  rewrite zip_fst_map in Hp, Hall. exists acted. split_and!; [done|by rewrite Hh', Hh| |].
  - exists r. unfold op_record in *. by rewrite Hstore.
  - rewrite Hx. intros Hy. apply Hall. by destruct y as [[]|].
  Unshelve. by rewrite zip_fst_map.
Qed.

(** The last write of the journal, whether or not it is made. *)
Lemma running_finish F st rt ri msg err s :
  running F id s → st ≠ Running →
  let s' := (finish now_ts id st rt ri msg err s).1 in
  same_rest s s' ∧ ∃ r, op_record s' id = Some r ∧ F (o_findings r) ∧ (o_status r = Running ∨ o_status r = st).
Proof.
  intros (r & Hr & Hi & Hst & Hf) Hne. simpl.
  destruct (finish _ _ _ _ _ _ _ s) as [s' x] eqn:E. apply finish_spec in E as (Hs & _ & Hx).
  split; [done|]. simpl. destruct x as [u|e].
  - destruct Hx as (r0 & r' & Hr0 & Hr' & _ & Hs' & _ & Hf'). rewrite Hr in Hr0. injection Hr0 as <-.
    rewrite Hi in Hr'. exists r'. rewrite Hf'. auto.
  - exists r. rewrite Hx. auto.
Qed.

(** The task that is spawned for it, run from a state in which its record is still as
    it was queued. *)
Lemma repair_worker_spec ids ids' s r : op_record s id = Some r → o_id r = id → o_status r = Queued →
  host s = h → quarantine_from base fs s →
  let s' := (worker now_ts id (Some (lit "node")) None
               (reconcile_job now_ts services Repair fs ids ids') s).1 in
  quarantine_from base fs s' ∧
  ∃ acted r', acted `prefix_of` List.filter eligible fs ∧
    host s' = foldl (λ h f, (repair_of f h).1) h acted ∧ op_record s' id = Some r' ∧
    (acted ≠ [] → o_findings r' = Some fs) ∧
    (o_status r' = Succeeded → o_findings r' = Some fs ∧ acted = List.filter eligible fs).
Proof.
  intros Hr Hi Hst Hh Hq. unfold worker, mbind, svc_bind, try. cbv zeta.
  destruct (mark_running now_ts id s) as [s1 m] eqn:Em.
  assert (match m with
          | Ok _ => scanning (λ _, True) s1
          | Err _ => op_record s1 id = Some r ∧ host s1 = h ∧ quarantine_from base fs s1
          end) as Hm.
  { unfold mark_running, mbind, svc_bind in Em.
    destruct (OperationService.get id s) as [s0 [r0|e]] eqn:Eg;
      apply journal_get_spec in Eg as ((Hq0 & _ & Hh0) & Hk & H0).
    2: { injection Em as <- <-. rewrite Hk. split_and!; [done|congruence|].
         unfold quarantine_from, q_record. by rewrite Hq0. }
    specialize (H0 r0 eq_refl). rewrite Hr in H0. injection H0 as <-.
    rewrite bool_decide_true in Em by done. simpl in Em.
    apply put_record_spec in Em as [(Hq1 & _ & Hh1) Hk1]. cbn [o_id with_progress with_times with_status] in Hk1.
    assert (host s1 = h ∧ quarantine_from base fs s1) as [? ?].
    { split; [congruence|]. unfold quarantine_from, q_record. by rewrite Hq1, Hq0. }
    destruct m; [|by rewrite Hk1, Hk]. split; [|done]. eexists. rewrite Hk1, decide_True by done. by split_and!. }
  destruct m as [u|e]; simpl.
  2: { destruct Hm as (Hr1 & Hh1 & Hq1). split; [done|]. exists [], r.
       split_and!; [apply prefix_nil|done|done|done|by rewrite Hst]. }
  destruct (reconcile_job _ _ _ _ _ _ _ s1) as [s2 y] eqn:Ej.
  apply (repair_job_spec _ _ _ _ _ Hm) in Ej as (Hq2 & acted & Hp & Hh2 & Hrun & Hall).
  match goal with |- quarantine_from _ _ ?s' ∧ _ => set (s3 := s') end.
  assert (∃ st rt msg err, st ≠ Running ∧ (st = Succeeded → is_ok y = true) ∧
    s3 = (finish now_ts id st rt None msg err s2).1) as (st & rt & msg & err & Hne & Hy & E3).
  { destruct y as [msg|e]; [exists Succeeded, (Some (lit "node")), msg, None
                           |exists Failed, None, None, (Some (message e))]; by split_and!. }
  destruct (running_finish _ st rt None msg err s2 Hrun Hne) as [(Hq3 & _ & Hh3) (r3 & Hr3 & Hf3 & Hs3)].
  rewrite <- E3 in *. clearbody s3. split; [unfold quarantine_from, q_record; by rewrite Hq3|].
  exists acted, r3. split_and!; [done|by rewrite Hh3|done|auto|].
  intros Hsucc. destruct Hs3 as [Hs3|Hs3]; rewrite Hsucc in Hs3; [done|]. auto.
Qed.
End job.
End repairs.

(** C27: a repair is queued only with an approval that names a succeeded dry run of
    the reconciliation. The job that is spawned for it, whenever it runs, acts on
    exactly the findings [fs] which that dry run recorded and never looks for drift
    again: it changes the host by the repairs of the eligible ones among them, in their
    order and each once, up to the step that fails; it puts into quarantine only
    unmanaged resources among them; and once it repairs anything its own record names
    them, as it does, with all of the repairs made, when it says [Succeeded]. Queueing
    itself leaves the host alone, and the approval is good for this one repair: after
    any number of further calls (requests, workers, other operations, decisions and
    restarts with their recovery) every repair that names it again is refused. *)
Theorem approval_single_use sv r actor new_id ids ids' s s1 result job :
  (∀ h, (count_vms sv h).1 = h ∧ (count_containers sv h).1 = h ∧ (count_datasets sv h).1 = h ∧
     (count_bridges sv h).1 = h ∧ (count_shares sv h).1 = h ∧ (count_gpus sv h).1 = h) →
  r_mode r = Repair →
  enqueue_reconciliation now_ts sv r actor new_id ids ids' s = (s1, Ok (result, job)) →
  r_quarantine_unmanaged r = true ∧ host s1 = host s ∧
  ∃ a ap fs, r_approval_id r = Some a ∧ op_record s a = Some ap ∧ o_kind ap = lit "host.reconcile" ∧
    o_status ap = Succeeded ∧ o_reconciliation_mode ap = Some DryRun ∧ o_findings ap = Some fs ∧
    (∃ queued, op_record s1 new_id = Some queued ∧ o_status queued = Queued) ∧
    (∀ t, op_record t new_id = op_record s1 new_id →
      let t' := (job t).1 in
      quarantine_from (q_record t) fs t' ∧
      ∃ acted own, acted `prefix_of` List.filter eligible fs ∧
        host t' = foldl (λ h f, (repair_of sv f h).1) (host t) acted ∧ op_record t' new_id = Some own ∧
        (acted ≠ [] → o_findings own = Some fs) ∧
        (o_status own = Succeeded → o_findings own = Some fs ∧ acted = List.filter eligible fs)) ∧
    ∀ (calls : Datatypes.list call) sv' r' actor' id' ids1 ids2,
      r_mode r' = Repair → r_approval_id r' = Some a →
      ∃ s2 e, enqueue_reconciliation now_ts sv' r' actor' id' ids1 ids2
                (foldl (λ s c, perform c s) s1 calls) = (s2, Err e).
Proof.
  intros Hreads Hm. unfold enqueue_reconciliation at 1, mbind, svc_bind.
  destruct (approved_findings now_ts r s) as [s0 [fs|e]] eqn:Ea; [|done].
  apply approved_spec in Ea as (Hh & a & ap & Ha & Hap & H1 & H2 & H3 & H4 & Hsp); [|done].
  rewrite Hm, bool_decide_true by done. simpl.
  destruct (r_quarantine_unmanaged r); simpl; [|done].
  unfold enqueue, queue, create_record, mbind, svc_bind. simpl.
  destruct (put_record _ s0) as [s3 [u|e]] eqn:Ep; [|done]. simpl.
  pose proof (spent_put_record _ a _ _ _ Ep Hsp) as Hsp3.
  apply put_record_spec in Ep as [(_ & _ & Hh3) Hk3]. cbn [o_id] in Hk3.
  unfold try. destruct (OperationService.get new_id s3) as [s4 x] eqn:Eg.
  pose proof (spent_get _ a _ _ _ Eg Hsp3) as Hsp4.
  apply journal_get_spec in Eg as ((_ & _ & Hh4) & Hk4 & _).
  unfold mret, svc_ret. simpl. intros [= <- _ <-].
  specialize (Hk3 new_id). rewrite decide_True, <- Hk4 in Hk3 by done.
  split; [done|]. split; [congruence|]. exists a, ap, fs. split_and!; try done.
  - by eexists.
  - intros t Ht. rewrite Hk3 in Ht.
    eapply (repair_worker_spec sv new_id (q_record t) fs (host t) Hreads ids ids' t); [exact Ht|done..|].
    intros k q. by left.
  - intros calls sv' r' actor' id' i1 i2 Hm' Ha'.
    assert (∀ t, spent t a → spent (foldl (λ s c, perform c s) t calls) a) as Hall.
    { induction calls as [|c calls IH]; intros t Ht; simpl; [done|]. by apply IH, spent_perform. }
    destruct (approved_spent r' _ a Hm' Ha' (Hall _ Hsp4)) as (s5 & e & E).
    exists s5, e. unfold enqueue_reconciliation, mbind, svc_bind. by rewrite E.
Qed.

(** What drift detection reports is a repair for the virtual machines, bridges
    and VLANs that the host lost, and for nothing else. *)
Lemma drift_eligible f vm_h vm_s ct_h ct_s net_h net_s :
  f ∈ vm_drift vm_h vm_s ++ ct_drift ct_h ct_s ++ net_drift net_h net_s →
  eligible f = true ↔ f_kind f = MissingFromHost ∧ f_resource_type f ≠ lit "container".
Proof.
  unfold vm_drift, ct_drift, net_drift.
  rewrite !elem_of_app, !list_elem_of_fmap.
  intros [[(i & -> & _)|(i & -> & _)]|[[(i & -> & _)|(i & -> & _)]|[(i & -> & _)|(i & -> & _)]]];
    unfold eligible; simpl; try (destruct (starts_with _ _)); simpl;
    (split; [intros H1|intros [H1 H2]]); try discriminate H1; try discriminate H2; try done.
Qed.

(** *** Decisions on quarantined resources *)

Lemma q_put_spec r s s' x :
  on_quarantine (H:=H) (store_put (q_id r) r) s = (s', x) →
  store s' = store s ∧ host s' = host s ∧
  ∀ k, q_record s' k = match x with
                       | Ok _ => if decide (k = q_id r) then Some r else q_record s k
                       | Err _ => q_record s k
                       end.
Proof.
  unfold on_quarantine, q_record.
  destruct (store_put _ _ _) as [d [[]|e]] eqn:E; intros [= <- <-]; simpl;
    (split_and!; [done..|]); [apply (put_ok _ _ _ _ E)|apply (put_err _ _ _ _ _ E)].
Qed.

Lemma q_get_spec id s s' x :
  on_quarantine (H:=H) (store_get id) s = (s', x) →
  store s' = store s ∧ host s' = host s ∧ (∀ k, q_record s' k = q_record s k) ∧
  ∀ o, x = Ok o → o = q_record s id.
Proof.
  unfold on_quarantine, q_record. destruct (store_get id (quarantined s)) as [d o] eqn:E.
  intros [= <- <-]. simpl. split_and!; try done; [apply (get_keeps _ _ _ _ E)|].
  intros o' ->. apply (get_ok _ _ _ _ E).
Qed.

Lemma decided_again ab id d actor m r s s' x :
  q_record s id = Some r → q_status r ≠ Pending →
  decide_quarantine now_ts ab id d actor m s = (s', x) → ∃ e, x = Err e.
Proof.
  intros Hr Hst. unfold decide_quarantine, mbind, svc_bind, lift.
  destruct (on_quarantine _ s) as [s1 [o|e]] eqn:E; apply q_get_spec in E as (_ & _ & _ & Ho).
  2: { intros [= _ <-]. eauto. }
  rewrite (Ho o eq_refl), Hr. simpl. rewrite bool_decide_false by done. simpl.
  intros [= _ <-]. eauto.
Qed.

(** The record that [decide_quarantine] stores. *)
Definition decided (q : QuarantineRecord) st (actor : str) (message : option str) : QuarantineRecord :=
  mkQuarantine (q_id q) (q_resource_type q) (q_host_id q) (q_message q) st (q_created_at q)
    (Some now_ts) (Some actor) message.

Lemma decide_spec ab id d actor message s s' x :
  decide_quarantine now_ts ab id d actor message s = (s', x) →
  store s' = store s ∧
  match x with
  | Ok r => ∃ q st, q_record s id = Some q ∧ q_status q = Pending ∧ r = decided q st actor message ∧
      (∀ k, q_record s' k = if decide (k = q_id q) then Some r else q_record s k) ∧
      match d with
      | Release => st = Released ∧ host s' = host s
      | Adopt => st = Adopted ∧ q_resource_type q = lit "bridge" ∧
                 ab (q_host_id q) (host s) = (host s', Ok tt)
      end
  | Err _ => ∀ k, q_record s' k = q_record s k
  end.
Proof.
  unfold decide_quarantine. unfold mbind at 1, svc_bind at 1.
  destruct (on_quarantine _ s) as [s1 [o|e]] eqn:Eg;
    apply q_get_spec in Eg as (Hst & Hh & Hk & Ho); [|by intros [= <- <-]].
  rewrite (Ho o eq_refl). unfold mbind at 1, svc_bind at 1, lift.
  destruct (q_record s id) as [q|] eqn:Hq; simpl; [|by intros [= <- <-]].
  destruct (bool_decide_reflect (q_status q = Pending)) as [Hp|Hp]; simpl; [|by intros [= <- <-]].
  destruct d.
  - destruct (q_resource_type q =s? "bridge") eqn:Eb; [|by intros [= <- <-]].
    unfold mbind, svc_bind. rewrite on_host_spec.
    destruct (ab (q_host_id q) (host s1)) as [h [[]|e]] eqn:Ea; cbn [fst snd];
      [|by intros [= <- <-]].
    unfold mret, svc_ret. destruct (on_quarantine _ _) as [s2 [u|e]] eqn:Ep;
      apply (q_put_spec (decided q Adopted actor message)) in Ep as (Hst2 & Hh2 & Hk2); intros [= <- <-];
      (split; [by rewrite Hst2|]).
    + exists q, Adopted. split_and!; try done.
      * intros k. rewrite Hk2. simpl. case_decide; [done|apply Hk].
      * by apply str_eqb_eq.
      * rewrite Hh2. simpl. by rewrite <- Hh.
    + intros k. rewrite Hk2. apply Hk.
  - unfold mbind, svc_bind, mret, svc_ret. destruct (on_quarantine _ s1) as [s2 [u|e]] eqn:Ep;
      apply (q_put_spec (decided q Released actor message)) in Ep as (Hst2 & Hh2 & Hk2); intros [= <- <-];
      (split; [by rewrite Hst2|]).
    + exists q, Released. split_and!; try done; [|congruence].
      intros k. rewrite Hk2. simpl. case_decide; [done|apply Hk].
    + intros k. rewrite Hk2. apply Hk.
Qed.

(** A decision on a quarantined resource is taken once: it succeeds only on
    a pending record, which it stores as decided by this actor, and the next
    decision on that record is refused; only the adoption of a bridge touches
    the host, every other kind of resource refuses adoption, and a refused
    decision leaves all quarantine records as they were. *)
Theorem decision_final ab id d actor message s s' x :
  (∀ k q, q_record s k = Some q → q_id q = k) →
  decide_quarantine now_ts ab id d actor message s = (s', x) →
  store s' = store s ∧
  match x with
  | Ok r => ∃ q st, q_record s id = Some q ∧ q_status q = Pending ∧ r = decided q st actor message ∧
      (∀ k, q_record s' k = if decide (k = id) then Some r else q_record s k) ∧
      match d with
      | Release => st = Released ∧ host s' = host s
      | Adopt => st = Adopted ∧ q_resource_type q = lit "bridge" ∧
                 ab (q_host_id q) (host s) = (host s', Ok tt)
      end ∧
      ∀ ab' d' actor' message' s1 y,
        decide_quarantine now_ts ab' id d' actor' message' s' = (s1, y) → ∃ e, y = Err e
  | Err _ => ∀ k, q_record s' k = q_record s k
  end.
Proof.
  intros Hkeyed E. apply decide_spec in E as [Hst Hx]. split; [done|].
  destruct x as [r|e]; [|done]. destruct Hx as (q & st & Hq & Hp & Hr & Hk & Hd).
  rewrite (Hkeyed _ _ Hq) in Hk. exists q, st. split_and!; try done.
  intros ab' d' actor' m' s1 y. apply (decided_again _ _ _ _ _ r).
  - rewrite Hk. by rewrite decide_True.
  - subst r. simpl. destruct d, Hd as [-> _]; done.
Qed.
End proofs.

(** ** Two gaps in the approvals *)

Local Abbreviation mem H := (state (RO:=map_store OperationRecord)
  (RQ:=map_store QuarantineRecord) (RC:=map_store ConsumedApproval) (H:=H)).

Section gaps.
Context {H : Type} (now_ts : str).
Implicit Types s : mem H.

(** Where the single use of an approval stops. A repair request that is then
    refused because it does not ask for quarantine has already spent its
    approval; and since the check and the write of an approval are separate
    store accesses, two requests that both pass the check before either writes
    are both let through. *)
Theorem approval_gaps sv r a ap fs actor new_id ids ids' s :
  r_mode r = Repair → r_approval_id r = Some a → r_quarantine_unmanaged r = false →
  op_record s a = Some ap → o_kind ap = lit "host.reconcile" → o_status ap = Succeeded →
  o_reconciliation_mode ap = Some DryRun → o_findings ap = Some fs → ¬ spent s a →
  (∃ s' e, enqueue_reconciliation now_ts sv r actor new_id ids ids' s = (s', Err e) ∧
     store s' = store s ∧ spent s' a) ∧
  (∃ s1 s2 s3 s4, consume_check a s = (s1, Ok tt) ∧ consume_check a s1 = (s2, Ok tt) ∧
     consume_commit now_ts a s2 = (s3, Ok tt) ∧ consume_commit now_ts a s3 = (s4, Ok tt)).
Proof.
  intros Hm Ha Hq Hap H1 H2 H3 H4 Hsp. destruct s as [ops qs ca h].
  change (gmap str OperationRecord) in ops. change (gmap str ConsumedApproval) in ca.
  unfold op_record, spent in Hap, Hsp. simpl in Hap, Hsp.
  assert (ca !! a = None) as Hn by by apply eq_None_not_Some.
  assert (∀ x y z, consume_check (H:=H) a (mkState (RO:=map_store _) (RQ:=map_store _)
            (RC:=map_store _) x y ca z) = (mkState x y ca z, Ok tt)) as Hc.
  { intros. unfold consume_check, mbind, svc_bind, on_consumed. simpl. by rewrite Hn. }
  split.
  - unfold enqueue_reconciliation, approved_findings. rewrite Hm, Ha, Hq.
    unfold mbind, svc_bind, lift. simpl.
    unfold OperationService.get, mbind, svc_bind, lift, on_store. simpl. rewrite Hap. simpl.
    rewrite H1, H2, H3, H4, (bool_decide_true (Succeeded = Succeeded)),
      (bool_decide_true (Some DryRun = Some DryRun)) by done.
    rewrite (proj2 (str_eqb_eq _ _)) by done. simpl.
    unfold consume_approval, mbind, svc_bind. rewrite Hc.
    do 2 eexists. split_and!; [reflexivity|done|]. unfold spent. simpl.
    rewrite lookup_insert_eq. by eexists.
  - do 4 eexists. split_and!; [apply Hc|apply Hc|reflexivity|reflexivity].
Qed.
End gaps.

(** ** A concrete journal

    Stores that are maps; the host is the list of repaired resources. *)

Definition toy_finding : ReconciliationFinding :=
  mkFinding "vm" "vm1" None MissingFromHost "VM record is missing from libvirt: vm1" true false.
Definition toy_dry_run : OperationRecord :=
  mkOp "dry" "host.reconcile" Succeeded None (Some DryRun) (Some 100%N) None None None None
    (Some [toy_finding]) "t0" None (Some (lit "t1")) None None.
Definition toy_busy : OperationRecord :=
  mkOp "busy" "vm.start" Running None None None None None None None None "t0" (Some (lit "t0"))
    None None None.
Definition toy_quarantined : QuarantineRecord :=
  mkQuarantine "q1" "bridge" "br9" "untracked" Pending "t0" None None None.
Definition toy_journal : mem (Datatypes.list str) :=
  mkState (RO:=map_store _) (RQ:=map_store _) (RC:=map_store _)
    (list_to_map [(lit "dry", toy_dry_run); (lit "busy", toy_busy)])
    {[ lit "q1" := toy_quarantined ]} ∅ [].
Definition toy_repair (id : str) : Svc (Datatypes.list str) unit := λ h, (id :: h, Ok tt).
Definition toy_services : Services (Datatypes.list str) :=
  let none : Svc _ N := mret 0%N in let same : Svc _ (Datatypes.list str * Datatypes.list str) := mret ([], []) in
  mkServices none none none none none none same same same toy_repair toy_repair toy_repair toy_repair.
Definition toy_repair_request (q : bool) : ReconcileRequest :=
  mkReconcile Repair (Some (lit "dry")) q.

Lemma run_journal_witness :
  ∃ s' r', run "t" "vm.start" None None None "op" (toy_repair "vm7") toy_journal = (s', Ok tt) ∧
    op_record s' "op" = Some r' ∧ tells (Ok tt) r' ∧ host s' = [lit "vm7"].
Proof.
  destruct (run "t" "vm.start" None None None "op" (toy_repair "vm7") toy_journal) as [s' x] eqn:E.
  assert (x = Ok tt) as -> by (apply (f_equal snd) in E; vm_compute in E; by rewrite <- E).
  destruct (run_journal "t" "vm.start" None None None "op" (toy_repair "vm7") toy_journal s' _ E)
    as [[[? ?] _]|(s1 & r & r' & _ & _ & _ & _ & _ & Hh & Hop & _ & Hr' & Ht)]; [done|].
  exists s', r'. split_and!; [done|done|done|].
  rewrite Hh in Hop. by injection Hop as ->.
Defined.

Lemma recovery_witness :
  ∃ s', recover_interrupted "t" toy_journal = (s', Ok 1) ∧
    ∀ k r, op_record s' k = Some r → active (o_status r) = false.
Proof.
  destruct (recover_interrupted "t" toy_journal) as [s' x] eqn:E.
  assert (x = Ok 1) as -> by (apply (f_equal snd) in E; vm_compute in E; by rewrite <- E).
  exists s'. split; [done|].
  refine (proj2 (proj2 (proj2 (recovery "t" toy_journal s' _ _ E)) (ex_intro _ 1 eq_refl))).
  intros k r. unfold op_record. cbn -[lookup insert].
  intros [[<- <-]|[_ [[<- <-]|[_ H]]%lookup_insert_Some]]%lookup_insert_Some; try done.
Defined.

(** The repair of a virtual machine the host lost, run, and its approval used again. *)
Definition toy_repaired :=
  match enqueue_reconciliation "t" toy_services (toy_repair_request true) None "op" (λ _, lit "i")
    (λ _, lit "i") toy_journal with
  | (s1, Ok (_, job)) => (host (job s1).1, option_map o_status (op_record (job s1).1 "op"))
  | _ => ([], None)
  end.
Lemma approval_single_use_witness :
  let ids := λ _ : nat, lit "i" in
  ∃ s1 rec job, enqueue_reconciliation "t" toy_services (toy_repair_request true) None "op" ids ids toy_journal
      = (s1, Ok (rec, job)) ∧
    host (job s1).1 = [lit "vm1"] ∧ option_map o_status (op_record (job s1).1 "op") = Some Succeeded ∧
    (∃ acted, acted `prefix_of` [toy_finding] ∧
      host (job s1).1 = foldl (λ h f, (repair_of toy_services f h).1) [] acted) ∧
    ∃ s2 e, enqueue_reconciliation "t" toy_services (toy_repair_request true) None "op2" ids ids
      (perform "t" CRecover s1) = (s2, Err e).
Proof.
  intros ids. assert (toy_repaired = ([lit "vm1"], Some Succeeded)) as Hran by by vm_compute.
  unfold toy_repaired in Hran.
  destruct (enqueue_reconciliation "t" toy_services (toy_repair_request true) None "op" ids ids toy_journal)
    as [s1 x] eqn:E.
  fold ids in Hran. rewrite E in Hran. destruct x as [[rec job]|e]; [|discriminate Hran].
  destruct (approval_single_use "t" toy_services (toy_repair_request true) None "op" ids ids toy_journal
    s1 rec job (λ h, ltac:(by split_and!)) eq_refl E)
    as (_ & Hh & a & ap & fs & [= <-] & Hap & _ & _ & _ & Hf & _ & Hjob & Hall).
  assert (ap = toy_dry_run) as -> by (vm_compute in Hap; by injection Hap as <-).
  injection Hf as <-. destruct (Hjob s1 eq_refl) as (_ & acted & own & Hp & Ha & _).
  exists s1, rec, job. split_and!; [done| | | |].
  - apply (f_equal fst Hran).
  - apply (f_equal snd Hran).
  - exists acted. split; [exact Hp|]. rewrite Ha, Hh. done.
  - exact (Hall [CRecover] _ (toy_repair_request true) None (lit "op2") ids ids eq_refl eq_refl).
Defined.

Lemma repairs_eligible_only_witness :
  ∃ s', repair_findings "t" toy_services
      [(toy_finding, lit "i"); (mkFinding "vm" "vm2" (Some (lit "vm2")) UnmanagedHost "m" false false, lit "j")]
      toy_journal = (s', Ok tt) ∧ host s' = [lit "vm1"].
Proof.
  destruct (repair_findings _ _ _ _) as [s' x] eqn:E.
  assert (x = Ok tt) as -> by (apply (f_equal snd) in E; vm_compute in E; by rewrite <- E).
  destruct (repairs_eligible_only "t" toy_services _ _ _ _ E)
    as (_ & acted & _ & Hh & Hall).
  exists s'. split; [done|]. rewrite Hh, (Hall eq_refl). by vm_compute.
Defined.

Lemma decision_final_witness :
  ∃ s' r, decide_quarantine "t" toy_repair "q1" Adopt "admin" None toy_journal = (s', Ok r) ∧
    q_record s' "q1" = Some r ∧ host s' = [lit "br9"].
Proof.
  destruct (decide_quarantine "t" toy_repair "q1" Adopt "admin" None toy_journal) as [s' x] eqn:E.
  destruct x as [r|e];
    [|exfalso; apply (f_equal (is_ok ∘ snd)) in E; vm_compute in E; discriminate E].
  destruct (decision_final "t" toy_repair "q1" Adopt "admin" None toy_journal s' (Ok r)) as [_ Hx];
    [|exact E|].
  { intros k q. unfold q_record. simpl. intros [<- <-]%lookup_singleton_Some. done. }
  destruct Hx as (q & st & Hq & _ & _ & Hk & (_ & _ & Hab) & _).
  exists s', r. split_and!; [done|by rewrite Hk, decide_True|].
  assert (q = toy_quarantined) as -> by (vm_compute in Hq; by injection Hq as <-).
  by injection Hab as <-.
Defined.

Lemma approval_gaps_witness :
  ∃ s' e, enqueue_reconciliation "t" toy_services (toy_repair_request false) None "op" (λ _, lit "i")
    (λ _, lit "i") toy_journal = (s', Err e) ∧
    spent s' "dry".
Proof.
  destruct (proj1 (approval_gaps "t" toy_services (toy_repair_request false) "dry" toy_dry_run [toy_finding] None
    "op" (λ _, lit "i") (λ _, lit "i") toy_journal eq_refl eq_refl eq_refl ltac:(by vm_compute) eq_refl eq_refl eq_refl eq_refl
    ltac:(by intros [v Hv])))
    as (s' & e & E & _ & Hs).
  by exists s', e.
Defined.
