(* ===== verification/Tokens.v ===== *)
(** * API tokens and the resolution of a caller (src/src/services/api_token.rs,
      src/src/auth/mod.rs)

    [ApiTokenService] over its record store, and [from_request_parts], which
    turns a request into an authenticated caller: by API token, or by session
    and ACL. *)

From S2P Require Export Sessions Acl.

Definition TOKEN_PREFIX : str := "dgv_".

Record StoredApiToken := mkToken {
  t_id : str; t_name : str; t_prefix : str; t_token_sha256 : str; t_user_id : str;
  t_owner : str; t_permissions : list Permission; t_created_at : str;
  t_expires_at : option str; t_last_used_at : option str }.

(** [daygleve_schema::api_token]. *)
Record ApiToken := mkApiToken {
  at_id : str; at_name : str; at_prefix : str; at_permissions : list Permission;
  at_owner : str; at_created_at : str; at_expires_at : option str; at_last_used_at : option str }.
Record CreateApiTokenRequest := mkCreateToken {
  ct_name : str; ct_permissions : list Permission; ct_expires_in_days : option N }.

Record TokenAuth := mkTokenAuth { ta_user_id : str; ta_permissions : list Permission }.

Definition token_view (t : StoredApiToken) : ApiToken :=
  mkApiToken (t_id t) (t_name t) (t_prefix t) (t_permissions t) (t_owner t) (t_created_at t)
    (t_expires_at t) (t_last_used_at t).

Module ApiTokenService.
Section service.
Context `{RT : RecordStore StoredApiToken}.
(** SHA-256 and chrono's RFC 3339, in seconds since the epoch. *)
Context (sha256 : list N → list N) (to_rfc3339 : Z → str) (parse_rfc3339 : str → option Z).

Abbreviation state := (rstate (RecordStore:=RT)).

Definition sha256_hex (value : str) : str := AuthService.hex_of (sha256 (bytes value)).
(** [mint_secret], from the 32 random bytes. *)
Definition mint_secret (random : list N) : str := AuthService.hex_of random.

(** An expiry that does not parse counts as expired. *)
Definition is_expired (expires_at : option str) (now : Z) : bool :=
  match expires_at with
  | None => false
  | Some ts => match parse_rfc3339 ts with
               | Some exp => (exp <=? now)%Z
               | None => true
               end
  end.

Definition token_name_ok (name : str) : bool :=
  negb (is_empty name || (64 <? len name)%N || existsb is_control name).

(** The permissions of a new token. *)
Definition scoped_permissions (owner_permissions requested : list Permission) :
    ApiResult (list Permission) :=
  match requested with
  | [] => Ok owner_permissions
  | _ =>
      for_each (λ p, if negb (bool_decide (p ∈ owner_permissions)) then
                       Err (forbidden ("cannot grant a permission you do not hold: "
                                       ++ permission_name p))
                     else Ok tt) requested ;?
      Ok requested
  end.

Definition expiry (days : option N) (now : Z) : ApiResult (option str) :=
  match days with
  | None => Ok None
  | Some days =>
      if (days =? 0)%N then Err (validation "expires_in_days must be >= 1")
      else Ok (Some (to_rfc3339 (now + Z.of_N days * 86400)%Z))
  end.

Definition create (user_id owner : str) (owner_permissions : list Permission)
    (req : CreateApiTokenRequest) (random : list N) (new_id : str) (now : Z) :
    Svc state (str * ApiToken) :=
  let name := trim (ct_name req) in
  if negb (token_name_ok name) then
    fail (validation "token name must be 1..=64 characters with no control characters")
  else
    permissions ← lift (scoped_permissions owner_permissions (ct_permissions req));
    expires_at ← lift (expiry (ct_expires_in_days req) now);
    let secret := mint_secret random in
    let token := TOKEN_PREFIX ++ secret in
    let record := mkToken new_id name (TOKEN_PREFIX ++ take 8 secret) (sha256_hex token)
                    user_id owner permissions (to_rfc3339 now) expires_at None in
    _ ← store_put (t_id record) record;
    mret (token, token_view record).

Definition list_for (user_id : str) : Svc state (list ApiToken) :=
  tokens ← store_list;
  mret (map token_view
          (sort_by (λ a b, str_cmp (t_created_at b) (t_created_at a))
             (List.filter (λ t, t_user_id t =s? user_id) tokens))).

Definition delete (user_id id : str) : Svc state unit :=
  found ← store_get id;
  match found with
  | Some token =>
      if t_user_id token =s? user_id then _ ← store_delete id; mret tt
      else fail (not_found "no such API token")
  | None => fail (not_found "no such API token")
  end.

(** At most one refresh per hour; a failed write is ignored. *)
Definition touch_last_used (record : StoredApiToken) (now : Z) (s : state) : state :=
  let fresh := match t_last_used_at record with
               | None => false
               | Some ts => match parse_rfc3339 ts with
                            | Some prev => (now - prev <? 3600)%Z
                            | None => false
                            end
               end in
  if fresh then s
  else
    let updated := mkToken (t_id record) (t_name record) (t_prefix record) (t_token_sha256 record)
                     (t_user_id record) (t_owner record) (t_permissions record)
                     (t_created_at record) (t_expires_at record) (Some (to_rfc3339 now)) in
    (store_put (t_id updated) updated s).1.

Definition authenticate (token : str) (now : Z) (s : state) : state * option TokenAuth :=
  if negb (starts_with TOKEN_PREFIX token) then (s, None)
  else
    let hash := sha256_hex token in
    match store_list s with
    | (s, Err _) => (s, None)
    | (s, Ok tokens) =>
        match List.find (λ t, t_token_sha256 t =s? hash) tokens with
        | None => (s, None)
        | Some record =>
            if is_expired (t_expires_at record) now then (s, None)
            else (touch_last_used record now s,
                  Some (mkTokenAuth (t_user_id record) (t_permissions record)))
        end
    end.
End service.
End ApiTokenService.

(** ** The caller of a request *)
Section caller.
Context `{RU : RecordStore StoredUser} `{RA : RecordStore AclEntry} `{RT : RecordStore StoredApiToken}.
Context (sha256 : list N → list N) (to_rfc3339 : Z → str) (parse_rfc3339 : str → option Z).

(** The services that the extractor reads. *)
Record AppState := mkApp {
  auth : AuthService.state (RS:=RU); acl : Cached AclEntry; api_tokens : rstate (RecordStore:=RT) }.

(** The prefix branch: an API token with its owner. *)
Definition token_caller (token : str) (now : Z) : Svc AppState CurrentUser := λ s,
  let '(tk, found) :=
    ApiTokenService.authenticate sha256 to_rfc3339 parse_rfc3339 token now (api_tokens s) in
  let s := mkApp (auth s) (acl s) tk in
  match found with
  | None => (s, Err (unauthorized "invalid or expired token"))
  | Some ta =>
      match AuthService.user_by_id (ta_user_id ta) (auth s) with
      | None => (s, Err (unauthorized "token owner no longer exists"))
      | Some user =>
          (s, Ok (mkCurrent user (ta_permissions ta) false
                    (AuthService.two_factor_enabled (ta_user_id ta) (auth s)) []))
      end
  end.

(** The other branch: a session, enriched with the ACL. *)
Definition session_of (token : str) (now : Z) : Svc AppState CurrentUser := λ s,
  match AuthService.authenticate token now (auth s) with
  | (a, Err e) => (mkApp a (acl s) (api_tokens s), Err e)
  | (a, Ok current) =>
      (mkApp a (acl s) (api_tokens s),
       Ok (session_caller current
             (AclService.entries_for_subject (u_id (c_user current)) (acl s))))
  end.

(** Paths open to a caller who has to change the password first. *)
Definition password_gate_open (path : str) : bool :=
  ends_with "/auth/me" path || ends_with "/auth/change-password" path
  || ends_with "/auth/logout" path.

Definition from_request_parts (authorization : option str) (path : str) (now : Z) :
    Svc AppState AuthUser :=
  token ← lift (ok_or (unauthorized "missing bearer token")
                  (v ← authorization; strip_prefix "Bearer " v));
  current ← (if starts_with TOKEN_PREFIX token then token_caller token now
             else session_of token now);
  if c_must_change_password current && negb (password_gate_open path) then
    fail (forbidden "change the initial password before using the control plane")
  else mret (mkAuth current token (resource_path_for path)).
End caller.
