(* ===== verification/TokensProofs.v ===== *)
(** * API tokens: scope, lifetime, revocation, and who a request acts as *)

From S2P Require Export Tokens.

Section tokens.
Context `{RT : RecordStore StoredApiToken}.
Context (sha256 : list N → list N) (to_rfc3339 : Z → str) (parse_rfc3339 : str → option Z).
Implicit Types s : rstate (RecordStore:=RT).

Local Abbreviation hash := (ApiTokenService.sha256_hex sha256).
Local Abbreviation expired := (ApiTokenService.is_expired parse_rfc3339).
Local Abbreviation create := (ApiTokenService.create sha256 to_rfc3339).
Local Abbreviation authenticate := (ApiTokenService.authenticate sha256 to_rfc3339 parse_rfc3339).

Ltac svc := unfold mbind, svc_bind, gets, lift, fail, mret, svc_ret in *.

(** The same token but for when it was last used. *)
Definition same_token (a b : StoredApiToken) : Prop :=
  t_id a = t_id b ∧ t_token_sha256 a = t_token_sha256 b ∧ t_user_id a = t_user_id b ∧
  t_permissions a = t_permissions b ∧ t_expires_at a = t_expires_at b ∧ t_name a = t_name b ∧
  t_owner a = t_owner b ∧ t_prefix a = t_prefix b ∧ t_created_at a = t_created_at b.

#[global] Instance same_token_refl : Reflexive same_token.
Proof. by intros a. Qed.

Definition tokens_keyed s : Prop := ∀ k t, record s k = Some t → t_id t = k.

Lemma touch_spec t now s k :
  record s (t_id t) = Some t →
  option_Forall2 same_token (record s k)
    (record (ApiTokenService.touch_last_used to_rfc3339 parse_rfc3339 t now s) k).
Proof.
  intros Ht. unfold ApiTokenService.touch_last_used.
  cbv zeta. match goal with |- context [if ?b then s else _] => destruct b end; [reflexivity|].
  destruct (store_put _ _ s) as [s' [[]|e]] eqn:E; simpl.
  - rewrite (put_ok _ _ _ _ E). case_decide as Hk; [|reflexivity]. simpl in Hk. subst k.
    rewrite Ht. by constructor.
  - rewrite (put_err _ _ _ _ _ E). reflexivity.
Qed.

Lemma authenticate_spec token now s s' r :
  tokens_keyed s → authenticate token now s = (s', r) →
  (∀ k, option_Forall2 same_token (record s k) (record s' k)) ∧
  ∀ a, r = Some a → starts_with TOKEN_PREFIX token = true ∧
    ∃ k t, record s k = Some t ∧ t_token_sha256 t = hash token ∧
      expired (t_expires_at t) now = false ∧ a = mkTokenAuth (t_user_id t) (t_permissions t).
Proof.
  intros Hkeyed. unfold ApiTokenService.authenticate.
  destruct (starts_with TOKEN_PREFIX token); simpl;
    [|intros [= <- <-]; split; [reflexivity|done]].
  destruct (store_list s) as [s1 [l|e]] eqn:El; pose proof (list_keeps _ _ _ El) as Hk.
  2: { intros [= <- <-]. split; [|done]. intros k. rewrite Hk. reflexivity. }
  destruct (List.find _ l) as [t|] eqn:Ef.
  2: { intros [= <- <-]. split; [|done]. intros k. rewrite Hk. reflexivity. }
  apply List.find_some in Ef as [Hin%list_elem_of_In Hh%str_eqb_eq].
  apply (list_ok _ _ _ El) in Hin as [k Ht].
  destruct (expired (t_expires_at t) now) eqn:Ee; intros [= <- <-].
  - split; [|done]. intros k'. rewrite Hk. reflexivity.
  - split.
    + intros k'. rewrite <- Hk. apply touch_spec. by rewrite Hk, (Hkeyed _ _ Ht).
    + intros a [= <-]. split; [done|]. by exists k, t.
Qed.

Lemma scoped_spec owner req perms :
  ApiTokenService.scoped_permissions owner req = Ok perms →
  (∀ p, p ∈ perms → p ∈ owner) ∧ (perms = req ∨ (req = [] ∧ perms = owner)).
Proof.
  unfold ApiTokenService.scoped_permissions. destruct req as [|p0 req]; [intros [= <-]; naive_solver|].
  intros H. inv_ok. split; [|by left]. intros p Hp.
  rewrite Forall_forall in H. specialize (H _ Hp). simpl in H.
  destruct (bool_decide_reflect (p ∈ owner)); [done|]. discriminate H.
Qed.

Lemma create_token_spec user owner perms req random new_id now s s' r :
  create user owner perms req random new_id now s = (s', r) →
  match r with
  | Ok (token, view) => ∃ t, (∀ k, record s' k = if decide (k = new_id) then Some t else record s k) ∧
      token = TOKEN_PREFIX ++ ApiTokenService.mint_secret random ∧
      t_id t = new_id ∧ t_user_id t = user ∧ t_token_sha256 t = hash token ∧ view = token_view t ∧
      ApiTokenService.scoped_permissions perms (ct_permissions req) = Ok (t_permissions t) ∧
      ApiTokenService.expiry to_rfc3339 (ct_expires_in_days req) now = Ok (t_expires_at t)
  | Err _ => ∀ k, record s' k = record s k
  end.
Proof.
  unfold ApiTokenService.create. svc.
  destruct (ApiTokenService.token_name_ok _); simpl; [|by intros [= <- <-]].
  destruct (ApiTokenService.scoped_permissions _ _) as [ps|e] eqn:Es; [|by intros [= <- <-]].
  destruct (ApiTokenService.expiry _ _ _) as [ex|e] eqn:Ex; [|by intros [= <- <-]].
  destruct (store_put _ _ s) as [s1 [[]|e]] eqn:E; intros [= <- <-].
  - eexists. split_and!; [apply (put_ok _ _ _ _ E)|done..].
  - apply (put_err _ _ _ _ _ E).
Qed.

(** The life of an API token. A token that [create] hands out grants only
    permissions its creator holds (all of them when none are named), only its
    hash is stored, and the creation of one changes no other token. It
    authenticates as its creator with exactly those permissions while it is
    stored and has not expired, and as nobody from its expiry on, whatever else
    the store holds. *)
Theorem token_lifecycle user owner perms req random new_id now s s' token view :
  (∀ t, parse_rfc3339 (to_rfc3339 t) = Some t) → tokens_keyed s →
  (∀ k t, record s k = Some t → t_token_sha256 t ≠ hash (TOKEN_PREFIX ++ ApiTokenService.mint_secret random)) →
  create user owner perms req random new_id now s = (s', Ok (token, view)) →
  (∀ p, p ∈ at_permissions view → p ∈ perms) ∧
  (ct_permissions req = [] → at_permissions view = perms) ∧
  (∃ t, token_view t = view ∧ t_token_sha256 t = hash token ∧
     ∀ k, record s' k = if decide (k = new_id) then Some t else record s k) ∧
  ∀ now' s'' r l, store_list s' = (s', Ok l) → authenticate token now' s' = (s'', r) →
    r = match ct_expires_in_days req with
        | Some days => if (now + Z.of_N days * 86400 <=? now')%Z then None
                       else Some (mkTokenAuth user (at_permissions view))
        | None => Some (mkTokenAuth user (at_permissions view))
        end.
Proof.
  intros Hparse Hkeyed Hfresh E.
  apply create_token_spec in E as (t & Hk & Htok & Hid & Hu & Hh & -> & Hsc & Hex).
  pose proof (scoped_spec _ _ _ Hsc) as [Hsub Hor]. split_and!.
  - done.
  - intros Hr. rewrite Hr in Hsc. by injection Hsc.
  - by exists t.
  - intros now' s'' r l El. unfold ApiTokenService.authenticate. rewrite El.
    assert (starts_with TOKEN_PREFIX token = true) as -> by (apply starts_with_spec; by eexists).
    cbn [negb].
    assert (List.find (λ t, t_token_sha256 t =s? hash token) l = Some t) as ->.
    { destruct (List.find _ l) as [w|] eqn:Ef.
      - apply List.find_some in Ef as [Hin%list_elem_of_In Hw%str_eqb_eq].
        apply (list_ok _ _ _ El) in Hin as [k Hw']. rewrite Hk in Hw'.
        case_decide; [by simplify_eq|]. destruct (Hfresh _ _ Hw'). by rewrite <- Htok.
      - exfalso. assert (t ∈ l) as Hin.
        { apply (list_ok _ _ _ El). exists new_id. rewrite Hk. by rewrite decide_True. }
        apply list_elem_of_In, (List.find_none _ _ Ef) in Hin. rewrite Hh in Hin.
        by rewrite str_eqb_refl in Hin. }
    unfold ApiTokenService.expiry in Hex. destruct (ct_expires_in_days req) as [days|].
    + destruct (days =? 0)%N; [done|]. injection Hex as Hex. rewrite <- Hex. simpl.
      rewrite Hparse. rewrite <- Hu. destruct (_ <=? now')%Z; by intros [= _ <-].
    + injection Hex as Hex. rewrite <- Hex, <- Hu. simpl. by intros [= _ <-].
Qed.

(** Revocation of an API token. Only its owner can delete it; to everyone
    else a token of another owner looks like one that does not exist, and
    nothing changes. Once deleted it never authenticates again, however the
    remaining tokens are used, while the others keep working as before. *)
Theorem token_revocation user id s s' r :
  tokens_keyed s →
  (∀ k k' t t', record s k = Some t → record s k' = Some t' →
     t_token_sha256 t = t_token_sha256 t' → k = k') →
  ApiTokenService.delete user id s = (s', r) →
  match r with
  | Ok _ => ∃ t, record s id = Some t ∧ t_user_id t = user ∧
      (∀ k, record s' k = if decide (k = id) then None else record s k) ∧
      ∀ token now, hash token = t_token_sha256 t → (authenticate token now s').2 = None
  | Err e => (∀ k, record s' k = record s k) ∧
      ((∃ d o, store_get id s = (d, Ok o) ∧ ∀ t, record s id = Some t → t_user_id t ≠ user) →
       e = not_found "no such API token")
  end.
Proof.
  intros Hkeyed Huniq. unfold ApiTokenService.delete. svc.
  destruct (store_get id s) as [s1 [o|e]] eqn:Eg; pose proof (get_keeps _ _ _ _ Eg) as Hk.
  2: { intros [= <- <-]. split; [done|]. intros (d & o & Ho & _). done. }
  pose proof (get_ok _ _ _ _ Eg) as Ho. destruct o as [t|].
  2: { by intros [= <- <-]. }
  destruct (t_user_id t =s? user) eqn:Eu; [|by intros [= <- <-]]. apply str_eqb_eq in Eu.
  destruct (store_delete id s1) as [s2 [b|e]] eqn:Ed; intros [= <- <-].
  - assert (∀ k, record s2 k = if decide (k = id) then None else record s k) as Hk2.
    { intros k. rewrite (delete_ok _ _ _ _ Ed). case_decide; [done|apply Hk]. }
    exists t. split_and!; [done|done|done|]. intros token now Hh.
    destruct (authenticate token now s2) as [s3 x] eqn:Ea.
    apply authenticate_spec in Ea as [_ Ha].
    2: { intros k w. rewrite Hk2. case_decide; [done|]. apply Hkeyed. }
    destruct x as [a|]; [|done]. destruct (Ha a eq_refl) as (_ & k & w & Hw & Hhw & _).
    rewrite Hk2 in Hw. case_decide as Hne; [done|]. destruct Hne.
    eapply (Huniq k id w t); [done|done|congruence].
  - split; [intros k; by rewrite (delete_err _ _ _ _ Ed)|].
    intros (_ & _ & _ & Ht). by destruct (Ht t (eq_sym Ho)).
Qed.
End tokens.

(** ** The caller of a request *)
Section callers.
Context `{RU : RecordStore StoredUser} `{RA : RecordStore AclEntry} `{RT : RecordStore StoredApiToken}.
Context (sha256 : list N → list N) (to_rfc3339 : Z → str) (parse_rfc3339 : str → option Z).
Implicit Types s : AppState (RU:=RU) (RA:=RA) (RT:=RT).

Local Abbreviation extract := (from_request_parts sha256 to_rfc3339 parse_rfc3339).
Local Abbreviation hash := (ApiTokenService.sha256_hex sha256).

(** A stored token that stands for a bearer value at a time. *)
Definition token_valid s (token : str) (now : Z) (t : StoredApiToken) : Prop :=
  (∃ k, record (api_tokens s) k = Some t) ∧ t_token_sha256 t = hash token ∧
  ApiTokenService.is_expired parse_rfc3339 (t_expires_at t) now = false.

Lemma extract_ok header path now s s' a :
  extract header path now s = (s', Ok a) →
  ∃ token current, header = Some ("Bearer " ++ token) ∧
    a = mkAuth current token (resource_path_for path) ∧
    (c_must_change_password current = true → password_gate_open path = true) ∧
    (if starts_with TOKEN_PREFIX token
     then token_caller sha256 to_rfc3339 parse_rfc3339 token now s
     else session_of token now s) = (s', Ok current).
Proof.
  unfold from_request_parts, mbind, svc_bind, lift, fail, mret, svc_ret, option_bind.
  destruct header as [h|]; [|done]. destruct (strip_prefix "Bearer " h) as [token|] eqn:Es; [|done].
  apply strip_prefix_Some in Es as ->. cbn [ok_or].
  destruct ((if starts_with TOKEN_PREFIX token
             then token_caller sha256 to_rfc3339 parse_rfc3339 token now
             else session_of token now) s) as [s1 [current|e]] eqn:Ec; [|done].
  destruct (c_must_change_password current && negb (password_gate_open path)) eqn:Eg; [done|].
  intros [= <- <-]. exists token, current. split_and!; [done|done| |].
  - intros Hm. rewrite Hm in Eg. by destruct (password_gate_open path).
  - by destruct (starts_with TOKEN_PREFIX token).
Qed.

Lemma token_caller_ok token now s s' current :
  tokens_keyed (api_tokens s) →
  token_caller sha256 to_rfc3339 parse_rfc3339 token now s = (s', Ok current) →
  auth s' = auth s ∧ acl s' = acl s ∧
  ∃ t u, token_valid s token now t ∧ AuthService.the_user (t_user_id t) (auth s) = Some u ∧
    c_user current = user u ∧ c_permissions current = t_permissions t ∧ c_grants current = [] ∧
    c_must_change_password current = false.
Proof.
  intros Hk. unfold token_caller.
  destruct (ApiTokenService.authenticate _ _ _ token now (api_tokens s)) as [tk [ta|]] eqn:E; [|done].
  apply authenticate_spec in E as [_ E]; [|done].
  destruct (E ta eq_refl) as (_ & k & t & Ht & Hh & He & ->). simpl.
  unfold AuthService.user_by_id.
  destruct (AuthService.the_user (t_user_id t) (auth s)) as [u|] eqn:Eu; [|done].
  intros [= <- <-]. split_and!; [done..|]. exists t, u. split_and!; try done.
  split_and!; [by exists k|done|done].
Qed.

Lemma session_of_ok token now s s' current :
  session_of token now s = (s', Ok current) →
  auth s' = auth s ∧ acl s' = acl s ∧
  ∃ u se cur, AuthService.tokens (auth s) !! token = Some se ∧ (now < s_expires_at se)%Z ∧
    AuthService.the_user (s_user_id se) (auth s) = Some u ∧ c_user cur = user u ∧
    c_must_change_password cur = must_change_password u ∧
    current = session_caller cur (AclService.entries_for_subject (u_id (user u)) (acl s)).
Proof.
  unfold session_of, AuthService.authenticate.
  destruct (AuthService.tokens (auth s) !! token) as [se|] eqn:Et; [|done].
  destruct (s_expires_at se <=? now)%Z eqn:Ee; [done|]. apply Z.leb_gt in Ee.
  destruct (AuthService.the_user (s_user_id se) (auth s)) as [u|] eqn:Eu; [|done].
  intros [= <- <-]. split_and!; [done..|]. exists u, se.
  exists (mkCurrent (user u) (effective_permissions (u_roles (user u)))
            (must_change_password u) (tf_enabled (two_factor u)) []).
  by split_and!.
Qed.

(** C11: who a request acts as. A request that is let in carries a bearer value
    that is either a stored, unexpired API token of an account that still
    exists - it then passes exactly the checks for the permissions stored with
    the token, at every path - or an unexpired session of an account, which
    passes exactly the checks that the account's roles or a covering ACL entry
    of that account allow; a session of an account that must change its password
    gets through only on the three paths that are open to it. The accounts and
    the ACL are as before. *)
Theorem caller_resolution header path now s s' a :
  tokens_keyed (api_tokens s) → extract header path now s = (s', Ok a) →
  auth s' = auth s ∧ acl s' = acl s ∧
  ∃ token, header = Some ("Bearer " ++ token) ∧ a_token a = token ∧ a_path a = resource_path_for path ∧
  if starts_with TOKEN_PREFIX token then
    ∃ t u, token_valid s token now t ∧ AuthService.the_user (t_user_id t) (auth s) = Some u ∧
      c_user (a_current a) = user u ∧
      ∀ p q, require_at a p q = Ok tt ↔ p ∈ t_permissions t
  else
    ∃ se u, AuthService.tokens (auth s) !! token = Some se ∧ (now < s_expires_at se)%Z ∧
      AuthService.the_user (s_user_id se) (auth s) = Some u ∧ c_user (a_current a) = user u ∧
      (must_change_password u = true → password_gate_open path = true) ∧
      ∀ p q, require_at a p q = Ok tt ↔
        (∃ r, r ∈ u_roles (user u) ∧ p ∈ role_permissions r) ∨
        (∃ e, e ∈ AclService.entries_for_subject (u_id (user u)) (acl s) ∧
           path_covers (e_path e) q (e_propagate e) = true ∧ p ∈ role_permissions (e_role e)).
Proof.
  intros Hk (token & current & -> & -> & Hgate & E)%extract_ok.
  destruct (starts_with TOKEN_PREFIX token) eqn:Ep.
  - apply token_caller_ok in E as (H1 & H2 & t & u & Hv & Hu & Hc & Hp & Hg & _); [|done].
    split_and!; [done..|]. exists token. rewrite Ep. split_and!; [done..|].
    exists t, u. split_and!; try done. intros p q. rewrite require_at_ok. simpl. by rewrite Hg, Hp.
  - apply session_of_ok in E as (H1 & H2 & u & se & cur & Ht & Hx & Hu & Hc & Hm & ->).
    split_and!; [done..|]. exists token. rewrite Ep. split_and!; [done..|].
    exists se, u. split_and!; try done.
    + intros Hmu. apply Hgate. simpl. by rewrite Hm.
    + intros p q. by rewrite session_require_ok, Hc.
Qed.

(** An API token keeps its permissions when its owner loses them: whatever
    becomes of the accounts, short of deleting the owner, a request with the
    token is let in as before and passes exactly the same permission checks. *)
Theorem token_outlives_demotion token path now s s' a auth' :
  starts_with TOKEN_PREFIX token = true →
  (∀ id, is_Some (AuthService.the_user id (auth s)) → is_Some (AuthService.the_user id auth')) →
  extract (Some ("Bearer " ++ token)) path now s = (s', Ok a) →
  ∃ s2 b, extract (Some ("Bearer " ++ token)) path now (mkApp auth' (acl s) (api_tokens s)) = (s2, Ok b) ∧
    ∀ p q, require_at b p q = require_at a p q.
Proof.
  intros Hp Hex. unfold from_request_parts, mbind, svc_bind, lift, fail, mret, svc_ret, option_bind.
  rewrite strip_prefix_app. cbn [ok_or]. rewrite Hp. unfold token_caller. simpl.
  destruct (ApiTokenService.authenticate _ _ _ token now (api_tokens s)) as [tk [ta|]]; [|done].
  unfold AuthService.user_by_id.
  destruct (AuthService.the_user (ta_user_id ta) (auth s)) as [u|] eqn:Eu; [|done].
  destruct (Hex (ta_user_id ta)) as [v Hv]; [by eexists|]. rewrite Hv. simpl.
  intros [= <- <-]. do 2 eexists. split; [done|]. done.
Qed.
End callers.

(** ** A concrete caller

    The service of [Sessions] with one ACL entry and one API token; times are
    printed as [sample_print] does. *)

Definition sample_random : list N := [17; 34; 51; 68; 85]%N.
Definition sample_create := mkCreateToken " ci " [VmRead] (Some 1%N).
Definition sample_map : gmap str StoredApiToken :=
  {[ lit "t1" := mkToken "t1" "old" "dgv_00" (ApiTokenService.sha256_hex toy_sha "dgv_00") "u1"
                   "admin" [VmRead; UserAdmin] (sample_print 0) None None ]}.
Definition sample_tokens : rstate (RecordStore:=map_store StoredApiToken) := sample_map.

Lemma sample_tokens_inv (k : str) (t : StoredApiToken) :
  record sample_tokens k = Some t → k = lit "t1" ∧ t_id t = lit "t1" ∧
  t_token_sha256 t = ApiTokenService.sha256_hex toy_sha "dgv_00" ∧ t_user_id t = lit "u1".
Proof.
  change (sample_map !! k = Some t → k = lit "t1" ∧ t_id t = lit "t1" ∧
    t_token_sha256 t = ApiTokenService.sha256_hex toy_sha "dgv_00" ∧ t_user_id t = lit "u1").
  unfold sample_map. intros [<- <-]%lookup_singleton_Some. done.
Qed.

Lemma sample_keyed : tokens_keyed sample_tokens.
Proof. intros k t (-> & -> & _)%sample_tokens_inv. done. Qed.

Lemma token_lifecycle_witness :
  ∃ s' token view, ApiTokenService.create toy_sha sample_print "u1" "admin" [VmRead; VmWrite]
      sample_create sample_random "t2" 0 sample_tokens = (s', Ok (token, view)) ∧
    (ApiTokenService.authenticate toy_sha sample_print sample_parse token 86400 s').2 = None.
Proof.
  destruct (ApiTokenService.create toy_sha sample_print "u1" "admin" [VmRead; VmWrite]
      sample_create sample_random "t2" 0 sample_tokens) as [s' x] eqn:E.
  destruct x as [[token view]|e];
    [|exfalso; apply (f_equal (is_ok ∘ snd)) in E; vm_compute in E; discriminate E].
  exists s', token, view. split; [done|].
  destruct (ApiTokenService.authenticate toy_sha sample_print sample_parse token 86400 s')
    as [s'' r] eqn:Ea. simpl.
  destruct (token_lifecycle toy_sha sample_print sample_parse "u1" "admin" [VmRead; VmWrite]
    sample_create sample_random "t2" 0 sample_tokens s' token view sample_parse_print sample_keyed
    ltac:(intros k t (_ & _ & -> & _)%sample_tokens_inv; by vm_compute) E) as (_ & _ & _ & H).
  by rewrite (H 86400%Z s'' r _ eq_refl Ea).
Defined.

Lemma token_revocation_witness :
  ∃ s', ApiTokenService.delete "u1" "t1" sample_tokens = (s', Ok tt) ∧
    (ApiTokenService.authenticate toy_sha sample_print sample_parse "dgv_00" 0 s').2 = None.
Proof.
  destruct (ApiTokenService.delete "u1" "t1" sample_tokens) as [s' x] eqn:E.
  destruct x as [[]|e];
    [|exfalso; apply (f_equal (is_ok ∘ snd)) in E; vm_compute in E; discriminate E].
  exists s'. split; [done|].
  destruct (token_revocation toy_sha sample_print sample_parse "u1" "t1" sample_tokens s' _
    sample_keyed ltac:(intros k k' t t' [-> _]%sample_tokens_inv [-> _]%sample_tokens_inv; done) E)
    as (t & Ht & _ & _ & Ha).
  apply Ha. by apply sample_tokens_inv in Ht as (_ & _ & -> & _).
Defined.

Definition sample_app : AppState (RU:=map_store _) (RA:=map_store _) (RT:=map_store _) :=
  mkApp (RU:=map_store _) (RA:=map_store _) (RT:=map_store _) toy_state
    (mkCached (RS:=map_store AclEntry) ∅ ∅) sample_tokens.

Lemma caller_resolution_witness :
  ∃ s' a, from_request_parts toy_sha sample_print sample_parse (Some (lit "Bearer old"))
      "/api/v1/vms/v1/power" 0 sample_app = (s', Ok a) ∧ c_user (a_current a) = user toy_admin.
Proof.
  destruct (from_request_parts toy_sha sample_print sample_parse (Some (lit "Bearer old"))
      "/api/v1/vms/v1/power" 0 sample_app) as [s' x] eqn:E.
  destruct x as [a|e];
    [|exfalso; apply (f_equal (is_ok ∘ snd)) in E; vm_compute in E; discriminate E].
  exists s', a. split; [done|].
  destruct (caller_resolution toy_sha sample_print sample_parse _ _ _ sample_app s' a sample_keyed E)
    as (_ & _ & token & [= <-] & _ & _ & H).
  destruct H as (se & u & _ & _ & Hu & -> & _). by apply toy_user in Hu as [_ ->].
Defined.

Definition sample_demoted : AuthService.state (RS:=map_store StoredUser) :=
  let viewer := mkStored (mkUser "u1" "admin" [Viewer] "t0" None) "h:password" false no_two_factor in
  AuthService.mkState (RS:=map_store StoredUser)
    (mkCached (RS:=map_store StoredUser) {[ lit "u1" := viewer ]} {[ lit "u1" := viewer ]}) ∅.

Lemma token_outlives_demotion_witness :
  ∃ s2 b, from_request_parts toy_sha sample_print sample_parse (Some (lit "Bearer dgv_00"))
      "/api/v1/users" 0 (mkApp (RU:=map_store _) (RA:=map_store _) (RT:=map_store _) sample_demoted
                           (acl sample_app) sample_tokens) = (s2, Ok b) ∧
    require b UserAdmin = Ok tt.
Proof.
  destruct (from_request_parts toy_sha sample_print sample_parse (Some (lit "Bearer dgv_00"))
      "/api/v1/users" 0 sample_app) as [s' x] eqn:E.
  destruct x as [a|e];
    [|exfalso; apply (f_equal (is_ok ∘ snd)) in E; vm_compute in E; discriminate E].
  destruct (token_outlives_demotion toy_sha sample_print sample_parse "dgv_00" "/api/v1/users" 0
    sample_app s' a sample_demoted ltac:(by vm_compute)
    ltac:(intros id [u [-> _]%toy_user]; vm_compute; by eexists) E) as (s2 & b & E2 & Hb).
  exists s2, b. split; [exact E2|].
  apply (f_equal snd) in E2. vm_compute in E2. injection E2 as <-. by vm_compute.
Defined.
