(* ===== verification/AuditLog.v ===== *)
(** * The audit log (src/src/services/audit.rs)

    An append-only log of events over a record store, capped at [MAX_EVENTS].
    Recording is best effort: it has no error outcome. *)

From S2P Require Export Cache.

Definition MAX_EVENTS : nat := N.to_nat 5000.

(** [daygleve_schema::audit::AuditOutcome]. *)
Inductive AuditOutcome := AuditSuccess | AuditFailure.

Record NewAuditEvent := mkNewEvent {
  n_actor_id : option str; n_actor : str; n_action : str; n_resource_type : option str;
  n_resource_id : option str; n_outcome : AuditOutcome; n_message : option str;
  n_source_ip : option str }.
Definition default_event : NewAuditEvent :=
  mkNewEvent None "system" [] None None AuditSuccess None None.

Record AuditEvent := mkEvent {
  ev_id : str; ev_at : str; ev_actor_id : option str; ev_actor : str; ev_action : str;
  ev_resource_type : option str; ev_resource_id : option str; ev_outcome : AuditOutcome;
  ev_message : option str; ev_source_ip : option str }.

(** The stored form of an event, with the id and the time that [record] draws. *)
Definition audit_event (e : NewAuditEvent) (new_id now_ts : str) : AuditEvent :=
  mkEvent new_id now_ts (n_actor_id e) (n_actor e) (n_action e) (n_resource_type e)
    (n_resource_id e) (n_outcome e) (n_message e) (n_source_ip e).

Module AuditService.
Section service.
Context `{RS : RecordStore AuditEvent}.

(** The deletions of [prune], each one best effort. *)
Definition drop_stale (stale : Datatypes.list AuditEvent) (s : rstate) : rstate :=
  foldl (λ s e, (store_delete (ev_id e) s).1) s stale.

Definition prune (s : rstate) : rstate :=
  match store_list s with
  | (s, Err _) => s
  | (s, Ok events) =>
      if (length events <=? MAX_EVENTS)%nat then s
      else
        let events := sort_by (λ a b, str_cmp (ev_at a) (ev_at b)) events in
        drop_stale (take (length events - MAX_EVENTS) events) s
  end.

Definition record (event : NewAuditEvent) (new_id now_ts : str) (s : rstate) : rstate :=
  let record := audit_event event new_id now_ts in
  match store_put (ev_id record) record s with
  | (s, Err _) => s
  | (s, Ok _) => prune s
  end.

Definition list (limit : nat) : Svc rstate (Datatypes.list AuditEvent) :=
  events ← store_list;
  mret (take limit (sort_by (λ a b, str_cmp (ev_at b) (ev_at a)) events)).
End service.
End AuditService.

(** ** Correctness *)
Section audit_proofs.
Context `{RS : RecordStore AuditEvent}.
Implicit Types s : rstate (RecordStore:=RS).

Definition audit_keyed s : Prop := ∀ k e, record s k = Some e → ev_id e = k.

(** [at] is no later. *)
Definition no_later (a b : AuditEvent) : Prop := str_cmp (ev_at a) (ev_at b) ≠ Gt.

Lemma by_time_sorted l :
  StronglySorted no_later (sort_by (λ a b, str_cmp (ev_at a) (ev_at b)) l).
Proof.
  apply (sort_by_sorted (λ a b, str_cmp (ev_at a) (ev_at b)));
    [intros x y; apply str_cmp_total|intros x y z; apply str_cmp_trans].
Qed.

(** Deletions keep or remove records and do nothing else. *)
Lemma drop_stale_some l s k e :
  record (AuditService.drop_stale l s) k = Some e → record s k = Some e.
Proof.
  revert s. induction l as [|x l IH]; intros s; simpl; [done|]. intros H%IH. revert H.
  destruct (store_delete (ev_id x) s) as [s1 [b|err]] eqn:E; simpl.
  - rewrite (delete_ok _ _ _ _ E). by case_decide.
  - by rewrite (delete_err _ _ _ _ E).
Qed.

Lemma drop_stale_keeps l s k :
  k ∉ map ev_id l → record (AuditService.drop_stale l s) k = record s k.
Proof.
  revert s. induction l as [|x l IH]; intros s; simpl; [done|].
  intros [Hk Hl]%not_elem_of_cons. rewrite IH by done.
  destruct (store_delete (ev_id x) s) as [s1 [b|err]] eqn:E; simpl.
  - rewrite (delete_ok _ _ _ _ E). by rewrite decide_False.
  - by rewrite (delete_err _ _ _ _ E).
Qed.

Lemma drop_stale_drops l s k :
  (∀ id s, ∃ s' b, store_delete id s = (s', Ok b)) →
  k ∈ map ev_id l → record (AuditService.drop_stale l s) k = None.
Proof.
  intros Hdel Hk. revert s. induction l as [|x l IH]; intros s; simpl; [by apply not_elem_of_nil in Hk|].
  destruct (decide (k ∈ map ev_id l)) as [Hin|Hnot]; [by apply IH|].
  rewrite drop_stale_keeps by done. apply elem_of_cons in Hk as [->|]; [|done].
  destruct (Hdel (ev_id x) s) as (s' & b & E). rewrite E. simpl.
  rewrite (delete_ok _ _ _ _ E). by rewrite decide_True.
Qed.

(** The ids of a listing. *)
Lemma listed_ids s s' l :
  audit_keyed s → store_list s = (s', Ok l) →
  NoDup (map ev_id l) ∧ ∀ k e, record s k = Some e ↔ e ∈ l ∧ ev_id e = k.
Proof.
  intros Hkeyed E. destruct (list_once _ _ _ E) as (ids & Hnd & Hf). split.
  - assert (map ev_id l = ids) as ->; [|done].
    clear E Hnd. induction Hf as [|id e ids l He _ IH]; simpl; [done|]. by rewrite IH, (Hkeyed _ _ He).
  - intros k e. rewrite (list_ok _ _ _ E). split.
    + intros He. split; [by exists k|by apply Hkeyed].
    + intros [[k' He] <-]. by rewrite (Hkeyed _ _ He).
Qed.

(** The survivors of a pruning whose deletions succeed. *)
Lemma prune_spec s l s1 :
  audit_keyed s → store_list s = (s1, Ok l) →
  (∀ id s, ∃ s' b, store_delete id s = (s', Ok b)) →
  ∃ dropped kept, sort_by (λ a b, str_cmp (ev_at a) (ev_at b)) l = dropped ++ kept ∧
    length kept = Nat.min (length l) MAX_EVENTS ∧
    (∀ d k, d ∈ dropped → k ∈ kept → no_later d k) ∧
    ∀ id e, record (AuditService.prune s) id = Some e ↔ e ∈ kept ∧ ev_id e = id.
Proof.
  intros Hkeyed El Hdel. pose proof (listed_ids _ _ _ Hkeyed El) as [Hnd Hrec].
  pose proof (list_keeps _ _ _ El) as Hk. unfold AuditService.prune. rewrite El.
  set (srt := sort_by _ l). assert (srt ≡ₚ l) as Hp by apply sort_by_perm.
  destruct (length l <=? MAX_EVENTS)%nat eqn:Em; bool_prop.
  { exists [], srt. split_and!; [done|rewrite Hp; lia|by intros ? ? ?%not_elem_of_nil|].
    intros id e. by rewrite Hk, Hrec, Hp. }
  set (n := length srt - MAX_EVENTS). exists (take n srt), (drop n srt).
  assert (length srt = length l) as Hlen by by rewrite Hp.
  split_and!; [by rewrite take_drop|rewrite length_drop; lia| |].
  - intros d k. apply sorted_take_drop, by_time_sorted.
  - assert (NoDup (map ev_id (take n srt ++ drop n srt))) as Hnd'.
    { rewrite take_drop. by rewrite (Permutation_map ev_id Hp). }
    rewrite map_app in Hnd'. apply NoDup_app in Hnd' as (_ & Hd & _).
    intros id e. split.
    + intros He. assert (id ∉ map ev_id (take n srt)) as Hnot.
      { intros Hin. by rewrite drop_stale_drops in He. }
      rewrite drop_stale_keeps, Hk, Hrec in He by done. destruct He as [He <-]. split; [|done].
      rewrite <- Hp, <- (take_drop n srt) in He. apply elem_of_app in He as [He|He]; [|done].
      destruct Hnot. apply list_elem_of_fmap. eauto.
    + intros [He <-]. rewrite drop_stale_keeps, Hk, Hrec.
      * split; [|done]. rewrite <- Hp, <- (take_drop n srt). apply elem_of_app. by right.
      * intros Hin. eapply Hd; [exact Hin|]. apply list_elem_of_fmap. eauto.
Qed.

(** The audit log is append-only and bounded. Recording an event changes or
    invents no entry, whatever fails; when the store answers, the log then holds
    the newest of the old events and the new one, as many as the cap allows, and
    every dropped event is no newer than every kept one. *)
Theorem audit_log event new_id now s :
  audit_keyed s → record s new_id = None →
  (∀ k e, record (AuditService.record event new_id now s) k = Some e →
     e = audit_event event new_id now ∧ k = new_id ∨ record s k = Some e) ∧
  ∀ s1 s2 l, store_put new_id (audit_event event new_id now) s = (s1, Ok tt) →
    store_list s1 = (s2, Ok l) → (∀ id s, ∃ s' b, store_delete id s = (s', Ok b)) →
    ∃ dropped kept, audit_event event new_id now ∈ l ∧ l ≡ₚ dropped ++ kept ∧
      length kept = Nat.min (length l) MAX_EVENTS ∧
      (∀ d k, d ∈ dropped → k ∈ kept → no_later d k) ∧
      ∀ id e, record (AuditService.record event new_id now s) id = Some e ↔ e ∈ kept ∧ ev_id e = id.
Proof.
  intros Hkeyed Hnew. unfold AuditService.record. simpl.
  destruct (store_put new_id _ s) as [s1 [[]|e]] eqn:E; (split; [intros k e0|]).
  - intros H. assert (record s1 k = Some e0) as H1.
    { revert H. unfold AuditService.prune. destruct (store_list s1) as [s2 [l|err]] eqn:El;
        pose proof (list_keeps _ _ _ El) as Hk; rewrite <- Hk; [|done].
      destruct (_ <=? _)%nat; [done|]. apply drop_stale_some. }
    rewrite (put_ok _ _ _ _ E) in H1. case_decide; [left|by right]. by injection H1 as <-.
  - intros s1' s2 l [= <-] El Hdel.
    assert (audit_keyed s1) as Hkeyed1.
    { intros k e. rewrite (put_ok _ _ _ _ E). case_decide; [intros [= <-]; done|apply Hkeyed]. }
    destruct (prune_spec s1 l s2 Hkeyed1 El Hdel) as (dropped & kept & Hs & Hlen & Hno & Hrec).
    exists dropped, kept. split_and!; try done; [|by rewrite <- Hs, sort_by_perm].
    apply (list_ok _ _ _ El). exists new_id. rewrite (put_ok _ _ _ _ E). by rewrite decide_True.
  - rewrite (put_err _ _ _ _ _ E). by right.
  - done.
Qed.
End audit_proofs.

(** A log of one old event. *)
Definition old_event : AuditEvent := audit_event default_event "e0" "2024".
Definition sample_log : rstate (RecordStore:=map_store AuditEvent) :=
  ({[ lit "e0" := old_event ]} : gmap str AuditEvent).

Lemma audit_log_witness :
  record (AuditService.record default_event "e1" "2025" sample_log) "e0" = Some old_event.
Proof.
  destruct (audit_log default_event "e1" "2025" sample_log) as [_ H].
  - intros k e. change (({[ lit "e0" := old_event ]} : gmap str AuditEvent) !! k = Some e → ev_id e = k).
    by intros [<- <-]%lookup_singleton_Some.
  - by vm_compute.
  - destruct (H (<[lit "e1" := audit_event default_event "e1" "2025"]> ({[ lit "e0" := old_event ]} : gmap str AuditEvent))
        (<[lit "e1" := audit_event default_event "e1" "2025"]> ({[ lit "e0" := old_event ]} : gmap str AuditEvent))
        [audit_event default_event "e1" "2025"; old_event] eq_refl)
      as (dropped & kept & _ & Hl & Hlen & _ & Hrec).
    + by vm_compute.
    + intros id s. do 2 eexists. reflexivity.
    + apply Hrec. split; [|done]. assert (dropped = []) as ->.
      { apply Permutation_length in Hl. rewrite length_app, Hlen in Hl. simpl in Hl.
        apply length_zero_iff_nil. revert Hl. unfold MAX_EVENTS. lia. }
      simpl in Hl. rewrite <- Hl. right. left.
Defined.
