(* ===== verification/LoginApi.v ===== *)
(** * The login endpoint (src/src/api/auth.rs)

    [login] in its three critical sections - the throttle gate, the password
    check, the settlement - between which other requests run, and their
    sequential composition.  The monotonic clock of the throttle and the wall
    clock of the sessions are read at the gate and at the settlement. *)

From S2P Require Export Sessions Throttle AuditLog.

Definition MAX_ENFORCED_SLEEP : Duration := from_secs 10.

(** ** Printing an address ([IpAddr]'s [Display]) *)

Fixpoint dec_join (sep : str) (l : list N) : str :=
  match l with
  | [] => []
  | [x] => dec x
  | x :: l => dec x ++ sep ++ dec_join sep l
  end.

(** Lower-case hexadecimal without leading zeros, of a 16-bit group. *)
Definition hex16 (g : N) : str :=
  let ds := [g / 4096; (g / 256) mod 16; (g / 16) mod 16; g mod 16]%N in
  let fix trim_zeros (l : list N) : list N :=
    match l with
    | [] => []
    | [d] => [d]
    | d :: l' => if (d =? 0)%N then trim_zeros l' else l
    end in
  map hex_digit (trim_zeros ds).

(** The first longest run of zero groups: its start and length. *)
Fixpoint zero_run (groups : list N) : nat :=
  match groups with
  | g :: groups => if (g =? 0)%N then S (zero_run groups) else 0
  | [] => 0
  end.
Fixpoint longest_run (i : nat) (groups : list N) : nat * nat :=
  match groups with
  | [] => (i, 0)
  | g :: rest => let '(j, n) := longest_run (S i) rest in
                 if (n <=? zero_run groups)%nat then (i, zero_run groups) else (j, n)
  end.

Definition to_ipv4_mapped (groups : list N) : option (list N) :=
  match groups with
  | [a; b; c; d; e; f; g; h] =>
      if (a =? 0)%N && (b =? 0)%N && (c =? 0)%N && (d =? 0)%N && (e =? 0)%N && (f =? 65535)%N
      then Some [g / 256; g mod 256; h / 256; h mod 256]%N else None
  | _ => None
  end.

Definition ip_to_string (ip : IpAddr) : str :=
  match ip with
  | V4 octets => dec_join "." octets
  | V6 groups =>
      match to_ipv4_mapped groups with
      | Some octets => "::ffff:" ++ dec_join "." octets
      | None =>
          let '(i, n) := longest_run 0 groups in
          if (1 <? n)%nat
          then join ":" (map hex16 (take i groups)) ++ "::" ++ join ":" (map hex16 (drop (i + n) groups))
          else join ":" (map hex16 groups)
      end
  end.

Example print_loopback : ip_to_string (V6 [0; 0; 0; 0; 0; 0; 0; 1]%N) = lit "::1".
Proof. by vm_compute. Qed.
Example print_first_run : ip_to_string (V6 [8193; 0; 0; 1; 0; 0; 0; 255]%N) = lit "2001:0:0:1::ff".
Proof. by vm_compute. Qed.
Example print_v4 : ip_to_string (V4 [192; 168; 1; 10]%N) = lit "192.168.1.10".
Proof. by vm_compute. Qed.

Definition normalize_ip (ip : IpAddr) : IpAddr :=
  match ip with
  | V6 v6 => match to_ipv4_mapped v6 with Some v4 => V4 v4 | None => ip end
  | other => other
  end.

Definition too_many_attempts (retry_after : Duration) : AppError :=
  too_many_requests ("too many failed login attempts; try again in "
                     ++ dec (N.max (as_secs retry_after) 1) ++ " seconds").

Section login.
Context `{RU : RecordStore StoredUser} `{RE : RecordStore AuditEvent}.
Context (phc_error : str → option str) (phc_matches : str → str → bool).
Context (sha256 : list N → list N).
Context (b32_decode : str → option (list N)) (hmac_sha1 : list N → list N → option (list N)).
Context (to_rfc3339 : Z → str) (ttl_secs : N).

Record LoginState := mkLoginState {
  throttle : LoginThrottle; accounts : AuthService.state (RS:=RU);
  log : rstate (RecordStore:=RE) }.

(** What one attempt reads from its surroundings: the peer, the clocks at the
    gate and at the settlement, the fresh token and the fresh event id. *)
Record Attempt := mkAttempt {
  peer : IpAddr; request : LoginRequest; gate_at : Instant; settle_at : Instant;
  wall_clock : Z; new_token : str; event_id : str; event_ts : str }.

Definition set_throttle (t : LoginThrottle) (s : LoginState) : LoginState :=
  mkLoginState t (accounts s) (log s).

(** The gate: the delay to sleep, or the refusal. *)
Definition login_gate (a : Attempt) : Svc LoginState Duration := λ s,
  let ip := normalize_ip (peer a) in
  let username := l_username (request a) in
  let penalty := penalty_for (throttle s) ip username (gate_at a) in
  if (MAX_ENFORCED_SLEEP <? penalty)%N then
    let '(t, retry_after) := record_failure (throttle s) ip username (gate_at a) in
    (set_throttle t s, Err (too_many_attempts (N.max retry_after penalty)))
  else (s, Ok penalty).

(** The password check, its outcome looked at by the settlement. *)
Definition login_verify (a : Attempt) : Svc LoginState (ApiResult LoginResponse) := λ s,
  let '(u, r) := AuthService.login phc_error phc_matches sha256 b32_decode hmac_sha1 to_rfc3339
                   (request a) ttl_secs (new_token a) (wall_clock a) (accounts s) in
  (mkLoginState (throttle s) u (log s), Ok r).

Definition login_settle (a : Attempt) (outcome : ApiResult LoginResponse) :
    Svc LoginState LoginResponse := λ s,
  let ip := normalize_ip (peer a) in
  let username := l_username (request a) in
  match outcome with
  | Err error =>
      if is_two_factor_required error then (s, Err error)
      else
        let '(t, retry_after) := record_failure (throttle s) ip username (settle_at a) in
        let event := mkNewEvent None username "auth.login" None None AuditFailure
                       (Some (lit "invalid credentials")) (Some (ip_to_string ip)) in
        (mkLoginState t (accounts s) (AuditService.record event (event_id a) (event_ts a) (log s)),
         if (MAX_ENFORCED_SLEEP <? retry_after)%N then Err (too_many_attempts retry_after)
         else Err error)
  | Ok response =>
      let event := mkNewEvent (Some (u_id (lr_user response))) (u_username (lr_user response))
                     "auth.login" None None AuditSuccess None (Some (ip_to_string ip)) in
      (mkLoginState (record_success (throttle s) ip username) (accounts s)
         (AuditService.record event (event_id a) (event_ts a) (log s)), Ok response)
  end.

Definition login (a : Attempt) : Svc LoginState LoginResponse :=
  _ ← login_gate a;
  outcome ← login_verify a;
  login_settle a outcome.

(** ** Correctness *)

Implicit Types s : LoginState.

(** The failures an account's bucket counts. *)
Definition account_failures s (k : str) (now : Instant) : N := counted (per_account (throttle s)) k now.

Definition account_of (a : Attempt) : str := normalize_username (l_username (request a)).

(** An attempt that did not count as a failure. *)
Definition forgiven (r : ApiResult LoginResponse) : bool :=
  match r with Ok _ => true | Err e => is_two_factor_required e end.

Lemma counted_record_failure t ip u now now' :
  (now ≤ now' ≤ now + QUIET_WINDOW)%N →
  counted (per_account (record_failure t ip u now).1) (normalize_username u) now' =
  N.min (counted (per_account t) (normalize_username u) now + 1) U32_MAX.
Proof.
  intros Hn. rewrite record_failure_maps. cbn [per_account].
  by rewrite counted_bump, shed_counted.
Qed.

(** A failed attempt is counted for the rest of the window. *)
Lemma login_counts a s s' r now :
  login a s = (s', r) → forgiven r = false →
  (gate_at a ≤ settle_at a ≤ now ∧ now ≤ gate_at a + QUIET_WINDOW)%N →
  (N.min (N.min (account_failures s (account_of a) (gate_at a))
                (account_failures s (account_of a) (settle_at a)) + 1) U32_MAX
     ≤ account_failures s' (account_of a) now)%N.
Proof.
  unfold login, account_failures, account_of, mbind, svc_bind, login_gate. intros E Hf Hn.
  destruct (MAX_ENFORCED_SLEEP <? penalty_for _ _ _ _)%N.
  { pose proof (counted_record_failure (throttle s) (normalize_ip (peer a)) (l_username (request a))
      (gate_at a) now ltac:(lia)) as Hc.
    destruct (record_failure (throttle s) _ _ _) as [t d]. injection E as <- <-. simpl in *.
    rewrite Hc. lia. }
  unfold login_verify in E.
  destruct (AuthService.login _ _ _ _ _ _ _ _ _ _ _) as [u out]. unfold login_settle in E.
  destruct out as [resp|e]; [by injection E as <- <-|].
  destruct (is_two_factor_required e) eqn:E2; [injection E as <- <-; simpl in Hf; congruence|].
  simpl in E.
  pose proof (counted_record_failure (throttle s) (normalize_ip (peer a)) (l_username (request a))
    (settle_at a) now ltac:(lia)) as Hc.
  destruct (record_failure (throttle s) _ _ _) as [t d]. injection E as <- <-. simpl in *.
  rewrite Hc. lia.
Qed.

(** Attempts one after the other; the times never go back and no quiet window
    passes from the gate of one attempt to the settlement of the next. *)
Fixpoint paced (gate settled : Instant) (attempts : list Attempt) (until : Instant) : Prop :=
  match attempts with
  | [] => (settled ≤ until ∧ until ≤ gate + QUIET_WINDOW)%N
  | a :: rest => (settled ≤ gate_at a ≤ settle_at a ∧ settle_at a ≤ gate + QUIET_WINDOW)%N ∧
                 paced (gate_at a) (settle_at a) rest until
  end.

(** Run the attempts; [None] when one of them was forgiven. *)
Fixpoint failed_run (attempts : list Attempt) s : option LoginState :=
  match attempts with
  | [] => Some s
  | a :: attempts =>
      let '(s, r) := login a s in
      if forgiven r then None else failed_run attempts s
  end.

Lemma failed_run_counts k attempts gate settled until s s' (c : N) :
  Forall (λ a, account_of a = k) attempts → paced gate settled attempts until →
  failed_run attempts s = Some s' → (c ≤ U32_MAX)%N →
  (∀ n, (settled ≤ n ∧ n ≤ gate + QUIET_WINDOW)%N → (c ≤ account_failures s k n)%N) →
  (N.min (c + N.of_nat (length attempts)) U32_MAX ≤ account_failures s' k until)%N.
Proof.
  intros Hk. revert gate settled s c. induction Hk as [|a attempts Ha _ IH];
    intros gate settled s c Hp Hr Hc Hcount; simpl in *.
  { injection Hr as <-. etransitivity; [|apply Hcount; lia]. lia. }
  destruct Hp as [Ht Hp]. destruct (login a s) as [s1 r] eqn:E.
  destruct (forgiven r) eqn:Ef; [done|].
  etransitivity; [|apply (IH _ _ s1 (N.min (c + 1) U32_MAX) Hp Hr)]; [lia|lia|].
  intros n Hn. pose proof (login_counts a s s1 r n E Ef ltac:(lia)) as H1.
  rewrite Ha in H1. pose proof (Hcount (gate_at a) ltac:(lia)).
  pose proof (Hcount (settle_at a) ltac:(lia)). lia.
Qed.

Lemma gate_closed s a (n : N) :
  (5 ≤ n)%N → (N.min n U32_MAX ≤ account_failures s (account_of a) (gate_at a))%N →
  ∃ t e, login a s = (set_throttle t s, Err e) ∧ status e = 429%N.
Proof.
  intros Hn Hc. unfold login, mbind, svc_bind, login_gate.
  assert (MAX_ENFORCED_SLEEP < penalty_for (throttle s) (normalize_ip (peer a))
            (l_username (request a)) (gate_at a))%N as Hp.
  { unfold penalty_for. cbv zeta. eapply N.lt_le_trans; [|apply N.le_max_r].
    unfold account_failures, account_of in Hc.
    rewrite delay_counted by (unfold U32_MAX in Hc; lia).
    eapply N.lt_le_trans; [|apply required_delay_mono, Hc]. rewrite required_delay_saturates.
    eapply N.lt_le_trans; [|apply (required_delay_mono 5 n Hn)]. by vm_compute. }
  rewrite (proj2 (N.ltb_lt _ _) Hp).
  destruct (record_failure _ _ _ _) as [t d]. by eexists t, _.
Qed.

(** C25: password guessing against one account is cut off: after five attempts on
    it (under any spelling of its name and from any addresses) that failed
    without a quiet window between them, every further attempt is refused with a
    429 before its password is looked at - even with the right password - and
    leaves accounts, sessions and audit log untouched; spellings that log in to
    the same account share their bucket. The module comment of
    login_throttle.rs promises more to the account's owner ("waits at most a few
    seconds") than this gate keeps: the refusals hold for every caller until the
    account has had no failure for the quiet window. *)
Theorem login_lockout s s' attempts gate settled a u :
  AuthService.named (trim (l_username (request a))) u = true →
  Forall (λ b, AuthService.named (trim (l_username (request b))) u = true) attempts →
  paced gate settled attempts (gate_at a) → (5 ≤ length attempts)%nat →
  failed_run attempts s = Some s' →
  (∃ t e, login a s' = (set_throttle t s', Err e) ∧ status e = 429%N) ∧
  Forall (λ b, account_of b = account_of a) attempts.
Proof.
  assert (∀ b, AuthService.named (trim (l_username (request b))) u = true →
    account_of b = to_ascii_lowercase (u_username (user u))) as Hname.
  { intros b Hb. unfold AuthService.named in Hb. unfold account_of, normalize_username.
    unfold eq_ignore_ascii_case in Hb. symmetry. by apply str_eqb_eq in Hb. }
  intros Ha Hb Hp Hlen Hr. split.
  - apply (gate_closed s' a (N.of_nat (length attempts))); [lia|]. rewrite (Hname _ Ha).
    apply (failed_run_counts _ attempts gate settled _ s s' 0); [|done|done|lia|intros; lia].
    eapply Forall_impl; [exact Hb|]. exact Hname.
  - eapply Forall_impl; [exact Hb|]. intros b Hb'. simpl. by rewrite (Hname _ Ha), (Hname _ Hb').
Qed.

(** The gates of a burst of attempts that arrive before the first settles. *)
Fixpoint gates (attempts : list Attempt) : Svc LoginState (list Duration) :=
  match attempts with
  | [] => mret []
  | a :: attempts => d ← login_gate a; ds ← gates attempts; mret (d :: ds)
  end.

(** The gate does not slow down a burst: a gate that lets an attempt through
    leaves the throttle as it was, so any number of attempts on an unpenalized
    account and address that arrive before the first one settles all pass with
    no delay at all. *)
Theorem login_burst s attempts :
  Forall (λ a, penalty_for (throttle s) (normalize_ip (peer a)) (l_username (request a)) (gate_at a)
               = 0%N) attempts →
  gates attempts s = (s, Ok (replicate (length attempts) 0%N)).
Proof.
  induction 1 as [|a attempts Ha _ IH]; [done|]. simpl.
  unfold mbind, svc_bind, login_gate. rewrite Ha. simpl. rewrite IH. done.
Qed.
End login.

(** ** A concrete attack *)

Definition toy_attempt (n : N) (password : str) : Attempt :=
  mkAttempt (V4 [10; 0; 0; n]%N) (mkLogin " ADMIN" password None) (from_secs (60 * n))
    (from_secs (60 * n + 20)) 0 "tok" "e" "t".
Definition toy_login_state : LoginState (RU:=map_store _) (RE:=map_store _) :=
  mkLoginState (RU:=map_store _) (RE:=map_store _) new_throttle toy_state (∅ : gmap str AuditEvent).
Local Abbreviation toy_failed_run := (failed_run toy_error toy_matches toy_sha sample_b32 sample_hmac
  toy_rfc3339 60).

Lemma login_lockout_witness :
  ∃ s' t e, toy_failed_run [toy_attempt 1 "a"; toy_attempt 2 "b"; toy_attempt 3 "c";
      toy_attempt 4 "d"; toy_attempt 5 "e"] toy_login_state = Some s' ∧
    login toy_error toy_matches toy_sha sample_b32 sample_hmac toy_rfc3339 60
      (toy_attempt 6 "password") s' = (set_throttle t s', Err e) ∧ status e = 429%N.
Proof.
  destruct (toy_failed_run [toy_attempt 1 "a"; toy_attempt 2 "b"; toy_attempt 3 "c";
      toy_attempt 4 "d"; toy_attempt 5 "e"] toy_login_state) as [s'|] eqn:E;
    [|exfalso; apply (f_equal (λ o, bool_decide (is_Some o))) in E; vm_compute in E; discriminate E].
  assert (Forall (λ b, AuthService.named (trim (l_username (request b))) toy_admin = true)
    [toy_attempt 1 "a"; toy_attempt 2 "b"; toy_attempt 3 "c"; toy_attempt 4 "d"; toy_attempt 5 "e"])
    as Hb by (repeat (constructor; [by vm_compute|]); constructor).
  assert (paced 0 0 [toy_attempt 1 "a"; toy_attempt 2 "b"; toy_attempt 3 "c"; toy_attempt 4 "d";
    toy_attempt 5 "e"] (gate_at (toy_attempt 6 "password"))) as Hp.
  { cbn -[N.le]. split_and!; by vm_compute. }
  destruct (proj1 (login_lockout toy_error toy_matches toy_sha sample_b32 sample_hmac toy_rfc3339 60
    toy_login_state s' _ 0 0 (toy_attempt 6 "password") toy_admin ltac:(by vm_compute)
    Hb Hp (Nat.le_refl 5) E)) as (t & e & El & He).
  exists s', t, e. split; [reflexivity|exact (conj El He)].
Defined.

Lemma login_burst_witness :
  gates (RU:=map_store _) (RE:=map_store _) [toy_attempt 1 "a"; toy_attempt 1 "b"] toy_login_state
  = (toy_login_state, Ok [0%N; 0%N]).
Proof.
  apply (login_burst toy_login_state [toy_attempt 1 "a"; toy_attempt 1 "b"]). by repeat constructor.
Defined.
