(* ===== verification/Command.v ===== *)
(** * Host commands (src/src/services/command.rs)

    Every privileged command goes through [run]: with the broker configured it
    is executed only if [validate_exec] accepts it, without it directly. *)

From S2P Require Export Validate Cache.

Module Command.
Definition program_path (program : str) : option str := BrokerArgs.assoc program
  [("bridge", "/usr/sbin/bridge"); ("ip", "/usr/sbin/ip");
   ("lxc-cgroup", "/usr/bin/lxc-cgroup"); ("lxc-console", "/usr/bin/lxc-console");
   ("lxc-create", "/usr/bin/lxc-create"); ("lxc-destroy", "/usr/bin/lxc-destroy");
   ("lxc-freeze", "/usr/bin/lxc-freeze"); ("lxc-info", "/usr/bin/lxc-info");
   ("lxc-ls", "/usr/bin/lxc-ls"); ("lxc-start", "/usr/bin/lxc-start");
   ("lxc-stop", "/usr/bin/lxc-stop"); ("lxc-unfreeze", "/usr/bin/lxc-unfreeze");
   ("mount", "/usr/bin/mount"); ("nft", "/usr/sbin/nft");
   ("genisoimage", "/usr/bin/genisoimage"); ("xorriso", "/usr/bin/xorriso");
   ("qemu-img", "/usr/bin/qemu-img"); ("smartctl", "/usr/sbin/smartctl");
   ("wipefs", "/usr/sbin/wipefs"); ("umount", "/usr/bin/umount");
   ("virsh", "/usr/bin/virsh"); ("zfs", "/usr/sbin/zfs");
   ("zpool", "/usr/sbin/zpool")].

Definition validate_program (program : str) : ApiResult str :=
  ok_or (internal ("host program `" ++ program ++ "` is not permitted")) (program_path program).

(** [broker_error] of the client's error for a request the broker rejects. *)
Definition broker_refusal (reason : str) : AppError :=
  hypervisor ("root-owned broker request failed: " ++ "broker protocol error: "
              ++ "request rejected: " ++ reason).

Section command.
(** The host: a program with its arguments gives its output, or [None] when it
    is not installed; [broker] tells whether the broker is configured. *)
Context {H : Type} (broker : bool) (exec : str → list str → Svc H (option str)).

(** The execution behind [run] and [run_optional]: by the broker, which refuses
    what it does not validate, or directly. *)
Definition dispatch (program : str) (args : list str) : Svc H (option str) :=
  _ ← lift (validate_program program);
  if broker then
    _ ← lift (map_err broker_refusal (validate_exec program args));
    exec program args
  else exec program args.

Definition run (program : str) (args : list str) : Svc H str :=
  out ← dispatch program args;
  match out with
  | Some out => mret out
  | None => fail (hypervisor ("failed to run `" ++ program ++ "`"))
  end.

Definition run_ok (program : str) (args : list str) : Svc H unit :=
  _ ← run program args; mret tt.

Definition run_optional (program : str) (args : list str) : Svc H (option str) :=
  dispatch program args.
End command.
End Command.
