(* ===== verification/BrokerClient.v ===== *)
(** * The broker's client and the routing of host commands
    (src/src/broker/client.rs, src/src/services/command.rs)

    One request per connection.  The other end is a function from the bytes the
    client sends to the bytes it gets back: the write half and the read half of
    the socket are used by different tasks, so the bytes sent do not depend on the
    ones received.  [command.rs] decides between the broker and direct execution. *)

From S2P Require Export BrokerServer Command.

Module BrokerClient.
Inductive BrokerError :=
  | Unavailable (m : str) | SpawnNotFound (m : str) | Exec (m : str) | Protocol (m : str).

Definition broker_error_text (e : BrokerError) : str :=
  match e with
  | Unavailable m => "broker unavailable: " ++ m
  | SpawnNotFound m => "broker: " ++ m
  | Exec m => "broker: " ++ m
  | Protocol m => "broker protocol error: " ++ m
  end.

Definition STREAM_TIMEOUT_SECS : N := EXEC_TIMEOUT_CAP.

Inductive UnaryOutcome := UResponse (r : Response) | UStream (f : StreamFrame).

Definition response_to_output (resp : Response) : result BrokerError str :=
  if resp_ok resp then Ok (resp_stdout resp)
  else Err (
    let error := resp_error resp in
    match resp_error_kind resp with
    | Some kind =>
        if kind =s? "spawn_not_found" then SpawnNotFound (default (lit "not found") error)
        else if kind =s? "exec" then Exec (default (lit "exec failed") error)
        else Protocol (default (lit "unknown failure") error)
    | None => Protocol (default (lit "unknown failure") error)
    end).
Definition response_to_unit (resp : Response) : result BrokerError unit :=
  (λ _, tt) <$> response_to_output resp.

(** What came of the bytes that were sent: connecting or writing failed, no reply
    in time, or the bytes of the reply. *)
Inductive reply :=
  | NotConnected (e : str) | NotWritten (e : str) | NoReply | Replied (bs : list N).

(** The sink of a stream: what it holds and the outcomes of the next calls on it. *)
Record sink := mkSink { sk_data : list N; sk_faults : list (option str) }.
Definition sink_write (bs : list N) (s : sink) : sink * result str unit :=
  match sk_faults s with
  | Some e :: fs => (mkSink (sk_data s) fs, Err e)
  | None :: fs => (mkSink (sk_data s ++ bs) fs, Ok tt)
  | [] => (mkSink (sk_data s ++ bs) [], Ok tt)
  end.
Definition sink_flush (s : sink) : sink * result str unit := sink_write [] s.

Section client.
Context `{Codec} {X : Type}.
(** The broker at the other end, and a fresh request id. *)
Context (connect : list N → X → X * reply) (new_request_id : X → str).
Abbreviation Cl A := (Io X BrokerError A).

Definition request (op : Op) : Io X BrokerError Request :=
  io_gets (λ x, mkRequest PROTOCOL_VERSION (new_request_id x) op).

Definition encode_frame (body : list N) : result BrokerError (list N) :=
  map_err Protocol (write_frame body).

(** Connect, send, and wait for the bytes of the reply. *)
Definition exchange (sent : list N) : Cl (list N) := λ x,
  let '(x, r) := connect sent x in
  (x, match r with
      | NotConnected e => Err (Unavailable e)
      | NotWritten e => Err (Protocol e)
      | NoReply => Err (Exec "broker reply timed out")
      | Replied bs => Ok bs
      end).

(** A unary operation is answered by a response; an [Exit] frame is told apart. *)
Definition parse_outcome (body : list N) : result BrokerError UnaryOutcome :=
  match frame_of_json body with
  | Ok (Exit code stderr timed_out) => Ok (UStream (Exit code stderr timed_out))
  | _ =>
      resp ← map_err (λ e, Protocol ("parse response: " ++ e)) (response_of_json body);
      Ok (UResponse resp)
  end.

Definition unary (req : Request) : Cl UnaryOutcome :=
  sent ← io_lift (encode_frame (request_to_json req));
  received ← exchange sent;
  '(body, _) ← io_lift (map_err Protocol (read_frame eof_text received));
  io_lift (parse_outcome body).

(** The four operations answered with nothing but success or an error. *)
Definition unary_unit (what : str) (op : Op) : Cl unit :=
  req ← request op;
  out ← unary req;
  match out with
  | UResponse resp => io_lift (response_to_unit resp)
  | UStream _ => io_err (Protocol ("unexpected streaming frame on " ++ what))
  end.
Definition ping_inner : Cl unit := unary_unit "broker ping" Ping.
Definition pci_write (kind : PciWriteKind) (address : str) : Cl unit :=
  unary_unit "a PCI write" (PciWrite kind address).
Definition lxc_config_append (name block : str) : Cl unit :=
  unary_unit "an LXC config append" (LxcConfigAppend name block).
Definition lxc_rootfs_set (name dataset : str) : Cl unit :=
  unary_unit "an LXC rootfs set" (LxcRootfsSet name dataset).

Definition exec (program : str) (args : list str) : Cl str :=
  req ← request (BrokerProto.Exec program args false false DEFAULT_TIMEOUT_SECS);
  out ← unary req;
  match out with
  | UResponse resp => io_lift (response_to_output resp)
  | UStream _ => io_err (Protocol "unexpected streaming frame on a unary exec")
  end.

(** *** Streams *)

(** The frames the pump sends for the chunks it reads from the source. *)
Fixpoint pump (chunks : list (list N)) : list StreamFrame :=
  match chunks with
  | [] | [] :: _ => [StdinEof]
  | bs :: chunks => Stdin (b64_encode bs) :: pump chunks
  end.

(** The bytes of the frames, up to the first that is too large to send. *)
Fixpoint frames_bytes (frames : list StreamFrame) : list N :=
  match frames with
  | [] => []
  | f :: frames =>
      match write_frame (frame_to_json f) with
      | Ok bs => bs ++ frames_bytes frames
      | Err _ => match write_frame (frame_to_json StdinEof) with Ok bs => bs | Err _ => [] end
      end
  end.

Definition exit_result (program : str) (args : list str) (code : Z) (stderr : str)
    (timed_out : bool) : result BrokerError unit :=
  if (code =? 0)%Z then Ok tt
  else if timed_out then
    Err (Exec ("`" ++ program ++ "` timed out in the broker after " ++ dec STREAM_TIMEOUT_SECS
               ++ "s"))
  else Err (Exec ("`" ++ program ++ " " ++ join " " args ++ "` failed: " ++ trim stderr)).

(** The loop over the broker's frames.  A frame takes more than four bytes, so the
    number of bytes received is fuel enough. *)
Fixpoint receive (program : str) (args : list str) (fuel : nat) (received : list N) (s : sink) :
    sink * result BrokerError unit :=
  match fuel with
  | O => (s, Err (Protocol []))
  | S fuel =>
      match read_frame eof_text received with
      | Err e => (s, Err (Protocol e))
      | Ok (body, received) =>
          match frame_of_json body with
          | Err e => (s, Err (Protocol ("parse frame: " ++ e)))
          | Ok (Stdout d) =>
              match b64_decode d with
              | Err e => (s, Err (Protocol ("bad stdout chunk: " ++ e)))
              | Ok bs =>
                  match sink_write bs s with
                  | (s, Err e) => (s, Err (Exec ("write stream: " ++ e)))
                  | (s, Ok _) => receive program args fuel received s
                  end
              end
          | Ok (Exit code stderr timed_out) =>
              match sink_flush s with
              | (s, Err e) => (s, Err (Exec ("flush stream: " ++ e)))
              | (s, Ok _) => (s, exit_result program args code stderr timed_out)
              end
          | Ok (Stdin _) | Ok StdinEof =>
              (s, Err (Protocol "broker sent an stdin frame to the client"))
          end
      end
  end.

Definition exec_streamed (program : str) (args : list str) (source : option (list (list N)))
    (s : sink) : Io X BrokerError (sink * result BrokerError unit) :=
  req ← request (BrokerProto.Exec program args true (bool_decide (is_Some source))
                   STREAM_TIMEOUT_SECS);
  sent ← io_lift (encode_frame (request_to_json req));
  received ← exchange (sent ++ match source with
                               | Some chunks => frames_bytes (pump chunks)
                               | None => []
                               end);
  mret (receive program args (S (length received)) received s).

(** *** Consoles *)

(** [ConsoleReader::recv]: the next chunk, and the bytes after it. *)
Definition recv (received : list N) : option (list N * list N) :=
  match read_frame eof_text received with
  | Ok (body, received) =>
      match frame_of_json body with
      | Ok (Stdout d) => match b64_decode d with Ok bs => Some (bs, received) | Err _ => None end
      | _ => None
      end
  | Err _ => None
  end.

(** [bytes.chunks(CHUNK_PAYLOAD_MAX)]. *)
Fixpoint chunks (fuel : nat) (n : N) (bs : list N) : list (list N) :=
  match fuel, bs with
  | O, _ | _, [] => []
  | S fuel, _ => take (N.to_nat n) bs :: chunks fuel n (drop (N.to_nat n) bs)
  end.

(** [ConsoleWriter::send]: the bytes put on the wire before the first failure. *)
Fixpoint send_parts (parts : list (list N)) : list N * result BrokerError unit :=
  match parts with
  | [] => ([], Ok tt)
  | part :: parts =>
      match encode_frame (frame_to_json (Stdin (b64_encode part))) with
      | Ok bs => let '(out, r) := send_parts parts in (bs ++ out, r)
      | Err e => ([], Err e)
      end
  end.
Definition send (bs : list N) : list N * result BrokerError unit :=
  send_parts (chunks (length bs) CHUNK_PAYLOAD_MAX bs).
End client.
End BrokerClient.
