(* ===== verification/CommandRouting.v ===== *)
(** * Routing of host commands (src/src/services/command.rs)

    Every function of [command.rs] as it is: through the broker's client when
    [DAYGLEVE_BROKER_SOCKET] names a socket, directly otherwise.  [Command] is
    what the services rely on of it; [BrokerLink] proves that they may. *)

From S2P Require Export BrokerClient.

Module CommandRouting.
Definition COMMAND_TIMEOUT : N := 300.
Definition STREAM_COPY_TIMEOUT : N := 24 * 60 * 60.
Definition CONSOLE_IDLE_TIMEOUT_SECS : N := 900.

Definition broker_error (text : str) : AppError :=
  hypervisor ("root-owned broker request failed: " ++ text).

Section routing.
Context `{Codec} {X : Type} (strerror : errno → str).
Abbreviation W := (World X).
(** The socket of the environment, the broker behind it, and the processes and
    devices of a host without broker. *)
Context (DAYGLEVE_BROKER_SOCKET : option str).
Context (connect : list N → W → W * BrokerClient.reply) (new_request_id : W → str).
Context (output : command → N → X → X * outcome).
Context (spawn : command → option (list (list N)) → N → X → X * result (bool * str) child).

Definition broker_configured : bool :=
  match DAYGLEVE_BROKER_SOCKET with Some path => negb (is_empty path) | None => false end.

Definition via_broker {A} (m : Io W BrokerClient.BrokerError A) : Svc W A :=
  io_map_err (λ e, broker_error (BrokerClient.broker_error_text e)) m.

Definition exited_ok (status : option Z) : bool := bool_decide (status = Some 0%Z).
Definition command_failed (program : str) (args : list str) (stderr : str) : AppError :=
  hypervisor ("`" ++ program ++ " " ++ join " " args ++ "` failed: " ++ trim stderr).

Definition run_with_timeout (program : str) (args : list str) (timeout : N) :
    Svc W (option Z * str * str) := λ w,
  let '(x, o) := output (command_for program args) timeout (w_ext w) in
  (set_ext x w,
   match o with
   | TimedOut => Err (hypervisor ("`" ++ program ++ "` timed out after " ++ dec timeout ++ " seconds"))
   | NotSpawned _ e | WaitFailed e => Err (hypervisor ("failed to run `" ++ program ++ "`: " ++ e))
   | Exited status stdout stderr => Ok (status, stdout, stderr)
   end).

Definition run (program : str) (args : list str) : Svc W str :=
  executable ← lift (Command.validate_program program);
  if broker_configured then via_broker (BrokerClient.exec connect new_request_id program args)
  else
    '(status, stdout, stderr) ← run_with_timeout executable args COMMAND_TIMEOUT;
    if exited_ok status then mret stdout else fail (command_failed program args stderr).

Definition run_ok (program : str) (args : list str) : Svc W unit :=
  _ ← run program args; mret tt.

(** The broker's answer, with a missing executable told apart. *)
Definition optional_outcome (r : result BrokerClient.BrokerError str) : ApiResult (option str) :=
  match r with
  | Ok stdout => Ok (Some stdout)
  | Err (BrokerClient.SpawnNotFound _) => Ok None
  | Err error => Err (broker_error (BrokerClient.broker_error_text error))
  end.
Definition output_optional (program executable : str) (args : list str) : Svc W (option str) := λ w,
    let '(x, o) := output (command_for executable args) COMMAND_TIMEOUT (w_ext w) in
    (set_ext x w,
     match o with
     | Exited status stdout stderr =>
         if exited_ok status then Ok (Some stdout) else Err (command_failed program args stderr)
     | NotSpawned true _ => Ok None
     | NotSpawned false e | WaitFailed e => Err (hypervisor ("failed to run `" ++ program ++ "`: " ++ e))
     | TimedOut =>
         Err (hypervisor ("`" ++ program ++ "` timed out after " ++ dec COMMAND_TIMEOUT ++ " seconds"))
     end).
Definition run_optional (program : str) (args : list str) : Svc W (option str) :=
  executable ← lift (Command.validate_program program);
  if broker_configured then
    r ← io_try (BrokerClient.exec connect new_request_id program args);
    lift (optional_outcome r)
  else output_optional program executable args.

(** [new]: the executable of a direct command. *)
Definition new (program : str) : ApiResult str :=
  if broker_configured then
    Err (internal "direct host command construction is disabled while the broker is configured")
  else Command.validate_program program.

(** ** Files *)

Definition at_sys {A} (f : str → AppError) (m : Io W str A) : Svc W A := io_map_err f m.

(** The file a path names once links are followed, which need not exist. *)
Fixpoint target (links : nat) (files : gmap str node) (path : str) : result str str :=
  match files !! path with
  | Some (Symlink t) => match links with O => Err (strerror ELOOP) | S n => target n files t end
  | Some Directory => Err (strerror EISDIR)
  | _ => Ok path
  end.
(** [File::create]: an empty regular file (a device keeps what it is). *)
Definition create (path : str) : Io W str str :=
  _ ← sys;
  files ← io_gets w_files;
  path ← io_lift (target 40 files path);
  _ ← match files !! path with
      | Some (Regular _) | None => put_file path (Text [])
      | _ => mret tt
      end;
  mret path.
Definition fs_write (path text : str) : Io W str unit :=
  file ← create path;
  write_file_end file (Text []) text.
Definition read_to_string (path : str) : Io W str str :=
  file ← open_follow strerror path;
  _ ← sys;
  match file with
  | Regular (Text s) => mret s
  | Regular (Binary _) => io_err (strerror EUTF8)
  | _ => mret []
  end.

(** ** Streams *)

Definition sink_of (w : W) : BrokerClient.sink :=
  BrokerClient.mkSink [] (map (option_map fst) (w_faults w)).
(** The file gets what the sink holds; the calls made on it are used up. *)
Definition close_sink (file : str) (s : BrokerClient.sink) {E} : Io W E unit := io_modify (λ w,
  set_faults (drop (length (w_faults w) - length (BrokerClient.sk_faults s)) (w_faults w))
    (set_files (<[file := Regular (Binary (BrokerClient.sk_data s))]> (w_files w)) w)).

(** [tokio::io::copy] from the child's stdout. *)
Fixpoint copy (program : str) (reads : list read_event) (s : BrokerClient.sink) :
    BrokerClient.sink * ApiResult unit :=
  match reads with
  | Deadline :: _ => (s, Err (hypervisor (program ++ " stream timed out")))
  | ReadError e :: _ => (s, Err (internal ("write stream: " ++ e)))
  | [] | Chunk [] :: _ => (s, Ok tt)
  | Chunk bs :: reads =>
      match BrokerClient.sink_write bs s with
      | (s, Err e) => (s, Err (internal ("write stream: " ++ e)))
      | (s, Ok _) => copy program reads s
      end
  end.
Definition flushed (r : BrokerClient.sink * ApiResult unit) : BrokerClient.sink * ApiResult unit :=
  match r with
  | (s, Ok _) =>
      match BrokerClient.sink_flush s with
      | (s, Err e) => (s, Err (internal ("flush stream: " ++ e)))
      | (s, Ok _) => (s, Ok tt)
      end
  | (s, Err e) => (s, Err e)
  end.

Definition start (program : str) (args : list str) (stdin : option (list (list N))) : Svc W child :=
  executable ← lift (new program);
  r ← ext (spawn (command_for executable args) stdin STREAM_COPY_TIMEOUT);
  lift (map_err (λ e, hypervisor ("failed to start " ++ program ++ ": " ++ e.2)) r).

Definition wait_child (program : str) (c : child) : ApiResult (option Z) :=
  map_err (λ e, hypervisor ("wait for " ++ program ++ ": " ++ e)) (ch_wait c).

Definition stream_to_file (program : str) (args : list str) (path : str) : Svc W N :=
  if broker_configured then
    file ← at_sys (λ e, internal ("create " ++ path ++ ": " ++ e)) (create path);
    s ← gets sink_of;
    '(s, r) ← via_broker (BrokerClient.exec_streamed connect new_request_id program args None s);
    _ ← close_sink file s;
    _ ← lift (map_err (λ e, broker_error (BrokerClient.broker_error_text e)) r);
    _ ← at_sys (λ e, internal ("stat " ++ path ++ ": " ++ e)) sys;
    mret (N.of_nat (length (BrokerClient.sk_data s)))
  else
    c ← start program args None;
    file ← at_sys (λ e, internal ("create " ++ path ++ ": " ++ e)) (create path);
    s ← gets sink_of;
    let '(s, r) := flushed (copy program (ch_reads c) s) in
    _ ← close_sink file s;
    _ ← lift r;
    status ← lift (wait_child program c);
    if exited_ok status then mret (N.of_nat (length (BrokerClient.sk_data s)))
    else
      _ ← ignore (_ ← at_sys internal sys; modify (λ w, set_files (delete path (w_files w)) w));
      fail (hypervisor (program ++ " stream failed: " ++ trim (ch_stderr c))).

(** Copying into the child's stdin ends when the source does, unless it fails. *)
Definition copy_in (program : str) (c : child) : ApiResult unit :=
  match ch_reads c with
  | Deadline :: _ => Err (hypervisor (program ++ " stream timed out"))
  | ReadError e :: _ => Err (internal ("read stream: " ++ e))
  | _ => Ok tt
  end.

(** The reads of a file, at most [CHUNK_PAYLOAD_MAX] bytes each; the text of a
    file is read as its bytes. *)
Definition file_bytes (n : node) : list N :=
  match n with Regular (Text s) => bytes s | Regular (Binary b) => b | _ => [] end.
Definition file_chunks (n : node) : list (list N) :=
  BrokerClient.chunks (length (file_bytes n)) CHUNK_PAYLOAD_MAX (file_bytes n).

Definition stream_from_file (program : str) (args : list str) (path : str) : Svc W unit :=
  if broker_configured then
    file ← at_sys (λ e, internal ("open " ++ path ++ ": " ++ e)) (open_follow strerror path);
    '(_, r) ← via_broker (BrokerClient.exec_streamed connect new_request_id program args
                            (Some (file_chunks file)) (BrokerClient.mkSink [] []));
    lift (map_err (λ e, broker_error (BrokerClient.broker_error_text e)) r)
  else
    file ← gets (λ w, follow strerror 40 (w_files w) path);
    c ← start program args (Some (match file with Ok n => file_chunks n | Err _ => [] end));
    _ ← at_sys (λ e, internal ("open " ++ path ++ ": " ++ e)) (open_follow strerror path);
    _ ← lift (copy_in program c);
    status ← lift (wait_child program c);
    if exited_ok status then mret tt
    else fail (hypervisor (program ++ " stream failed: " ++ trim (ch_stderr c))).

(** ** Constrained file operations *)

Definition pci_write (kind : PciWriteKind) (address : str) : Svc W unit :=
  _ ← lift (map_err validation (validate_pci_address address));
  if broker_configured then via_broker (BrokerClient.pci_write connect new_request_id kind address)
  else
    let '(path, value) := pci_write_target kind address in
    at_sys (λ e, hypervisor ("write " ++ path ++ ": " ++ e)) (_ ← sys; _ ← logged (Wrote path value); sys).

Definition set_lxc_rootfs (name dataset : str) : Svc W unit :=
  _ ← lift (map_err validation (validate_lxc_name name));
  _ ← lift (map_err validation (validate_zfs_dataset_path dataset));
  if broker_configured then
    via_broker (BrokerClient.lxc_rootfs_set connect new_request_id name dataset)
  else
    let path := lxc_config_file name in
    text ← at_sys (λ e, hypervisor ("read " ++ path ++ ": " ++ e)) (read_to_string path);
    match rewrite_rootfs dataset text with
    | None => fail (hypervisor "container config has no lxc.rootfs.path line to replace")
    | Some out =>
        _ ← logged (Rewrote path out);
        at_sys (λ e, hypervisor ("write " ++ path ++ ": " ++ e)) (fs_write path out)
    end.

Definition append_lxc_config (name block : str) : Svc W unit :=
  _ ← lift (map_err validation (validate_lxc_name name));
  _ ← lift (map_err validation (validate_lxc_config_block block));
  if broker_configured then
    via_broker (BrokerClient.lxc_config_append connect new_request_id name block)
  else
    let path := lxc_config_file name in
    existing ← attempt (at_sys internal (read_to_string path));
    _ ← logged (Appended path block);
    at_sys (λ e, hypervisor ("write " ++ path ++ ": " ++ e))
      (fs_write path (match existing with Ok text => text | Err _ => [] end ++ block)).
End routing.
End CommandRouting.
