(* ===== verification/BrokerLink.v ===== *)
(** * The broker's client and server put together

    What the services rely on when they run a host command ([Command]) against
    what happens: the client's frames, the server's handler on the other side of
    the socket, and the reply.  [serve] is the link: one connection of the server
    on the bytes the client sends. *)

From S2P Require Export BrokerCodec BrokerServerProofs CommandRouting.

Definition fits (body : list N) : Prop := (N.of_nat (length body) ≤ CONTROL_FRAME_MAX)%N.
(** The bytes of a frame. *)
Definition framed (body : list N) : list N := to_le_bytes 4 (N.of_nat (length body)) ++ body.

#[global] Arguments framed : simpl never.

Lemma framed_read eof body rest : fits body → body ≠ [] →
  read_frame eof (framed body ++ rest) = Ok (body, rest).
Proof. intros Hf Hne. apply read_frame_write; [|done]. by apply write_frame_ok. Qed.
Lemma framed_write body : fits body → write_frame body = Ok (framed body).
Proof. intros Hf. by apply write_frame_ok. Qed.

(** ** Sending over a socket without faults *)

Section emit.
Context {X : Type}.
Implicit Types (w : World X).

Definition emit (body : list N) w : World X :=
  add_sent body (add_sent (to_le_bytes 4 (N.of_nat (length body))) w).

Lemma sys_ok w : w_faults w = [] → sys w = (w, Ok tt).
Proof. intros Hf. unfold sys, io_map_err, syscall. by rewrite Hf. Qed.
Lemma write_all_ok what bs w : w_faults w = [] → write_all what bs w = (add_sent bs w, Ok tt).
Proof.
  intros Hf. unfold write_all, mbind, io_bind, io_map_err at 1. by rewrite sys_ok.
Qed.
Lemma send_frame_ok body w : w_faults w = [] → fits body → send_frame body w = (emit body w, Ok tt).
Proof.
  intros Hf Hb. unfold send_frame. cbv zeta.
  rewrite (proj2 (N.ltb_ge _ _)) by (unfold fits, CONTROL_FRAME_MAX, U32_MAX in *; lia).
  rewrite (proj2 (N.ltb_ge _ _)) by done.
  unfold mbind, io_bind, io_map_err. rewrite write_all_ok by done. rewrite write_all_ok by done.
  by rewrite sys_ok.
Qed.
Lemma send_frame_big body w : ¬ fits body → send_frame body w = (w, Err (lit "frame body too large")).
Proof.
  intros Hb. unfold send_frame. cbv zeta. destruct (_ <? _)%N; [done|].
  by rewrite (proj2 (N.ltb_lt _ _)) by (unfold fits in Hb; lia).
Qed.
Lemma sent_emit body w : concat (w_sent (emit body w)) = concat (w_sent w) ++ framed body.
Proof. simpl. rewrite !concat_app. simpl. by rewrite !app_nil_r, <- app_assoc. Qed.
End emit.

(** ** One connection *)

Section link.
Context `{Codec} {X : Type} (strerror : errno → str).
Context (output : command → N → X → X * outcome).
Context (spawn : command → option (list (list N)) → N → X → X * result (bool * str) child).
Context (pty_reads : str → list (list N) → N → X → X * list read_event).
Context (uid allowed_uid : N).
Abbreviation W := (World X).
Implicit Types (w : W).

(** The world of a connection that gets [sent], and the client's world after it. *)
Definition inside (sent : list N) w : W :=
  mkWorld sent [] (w_faults w) (w_files w) (w_log w) (w_ext w).
Definition outside w w' : W :=
  mkWorld (w_input w) (w_sent w) (w_faults w') (w_files w') (w_log w') (w_ext w').

Definition serve (sent : list N) w : W * BrokerClient.reply :=
  let w' := (handle_connection strerror output spawn pty_reads (Ok uid) allowed_uid
               (inside sent w)).1 in
  (outside w w', BrokerClient.Replied (concat (w_sent w'))).

Definition answer (req : Request) : Io W ServeError unit :=
  match validate_request req with
  | Err reason => reply_response (failure ("request rejected: " ++ reason))
  | Ok _ => perform strerror output spawn pty_reads (req_op req)
  end.

Context (laws : CodecLaws).
Context (Huid : uid = allowed_uid ∨ uid = 0%N).

Lemma connection_answer req rest w : fits (request_to_json req) →
  handle_connection strerror output spawn pty_reads (Ok uid) allowed_uid
    (inside (framed (request_to_json req) ++ rest) w) = answer req (inside rest w).
Proof using laws Huid.
  intros Hf. unfold handle_connection, check_peer_uid.
  assert ((uid =? allowed_uid)%N || (uid =? 0)%N = true) as -> by (bool_prop; tauto).
  unfold mbind, io_bind, io_try, read_request.
  change (w_input (inside ?s w)) with s.
  rewrite framed_read by eauto using json_request_nonempty. cbv iota beta.
  rewrite request_json. cbn [fst snd map_err]. cbv iota beta. unfold answer.
  by destruct (validate_request req).
Qed.

(** A unary operation the server answers with [resp]. *)
Lemma unary_served req resp w w1 : fits (request_to_json req) → fits (response_to_json resp) →
  w_sent w1 = [] → (answer req (inside [] w)).1 = emit (response_to_json resp) w1 →
  BrokerClient.unary serve req w = (outside w w1, Ok (BrokerClient.UResponse resp)).
Proof using laws Huid.
  intros Hreq Hresp Hs Ha. unfold BrokerClient.unary, BrokerClient.exchange, mbind, io_bind, io_lift.
  unfold BrokerClient.encode_frame. rewrite framed_write by done. simpl map_err. cbv iota beta.
  unfold serve. rewrite <- (app_nil_r (framed _)), connection_answer by done.
  rewrite Ha, sent_emit, Hs. cbv zeta iota beta. rewrite app_nil_l, <- (app_nil_r (framed _)).
  rewrite framed_read by eauto using json_response_nonempty. simpl map_err. cbv iota beta.
  unfold BrokerClient.parse_outcome. rewrite response_json.
  destruct (frame_of_json (response_to_json resp)) eqn:E1; [by apply response_no_frame in E1|].
  done.
Qed.

(** ** Host commands *)

(** The server's answer to a unary [Exec], without the socket. *)
Definition exec_answer (program : str) (args : list str) w : W * Response :=
  match validate_exec program args with
  | Err reason => (w, failure ("request rejected: " ++ reason))
  | Ok _ =>
      let '(w', r) := unary_exec output program args DEFAULT_TIMEOUT_SECS w in
      (w', match r with Ok response => response | Err error => to_response error end)
  end.

Definition valid_id (id : str) : Prop :=
  id ≠ [] ∧ (len id ≤ 128)%N ∧ 0%N ∉ id.
Definition exec_request (id program : str) (args : list str) : Request :=
  mkRequest PROTOCOL_VERSION id (Exec program args false false DEFAULT_TIMEOUT_SECS).

Lemma validate_exec_request id program args : valid_id id →
  validate_request (exec_request id program args) = validate_exec program args.
Proof.
  intros (Hne & Hlen & H0). unfold validate_request, exec_request. cbn [req_v req_id req_op].
  change (negb (PROTOCOL_VERSION =? PROTOCOL_VERSION)%N) with false. cbv iota.
  rewrite (proj2 (is_empty_false _)), (proj2 (N.ltb_ge _ _)), (proj2 (contains_char_false _ _)) by done.
  simpl. by destruct (validate_exec program args) as [[]|].
Qed.

(** [unary_exec] does not look at the socket. *)
Lemma unary_exec_inside program args t w :
  unary_exec output program args t (inside [] w) =
    let '(w', r) := unary_exec output program args t w in (inside [] w', r).
Proof.
  unfold unary_exec, mbind, io_bind, io_lift, logged, io_modify, ext.
  destruct (permitted_program program) as [exe|]; [|done]. cbv zeta.
  change (w_ext (add_log ?e (inside [] w))) with (w_ext w).
  change (w_ext (add_log ?e w)) with (w_ext w). destruct (output _ _ _) as [x o].
  by destruct o.
Qed.

Lemma unary_exec_quiet program args t w w' r : unary_exec output program args t w = (w', r) →
  w_input w' = w_input w ∧ w_sent w' = w_sent w ∧ w_faults w' = w_faults w.
Proof.
  unfold unary_exec, mbind, io_bind, io_lift, logged, io_modify, ext.
  destruct (permitted_program program) as [exe|]; [|by intros [= <- _]]. cbv zeta.
  destruct (output _ _ _) as [x []]; by intros [= <- _].
Qed.

Context (new_request_id : World X → str).

Lemma exec_served program args w : w_faults w = [] → valid_id (new_request_id w) →
  fits (request_to_json (exec_request (new_request_id w) program args)) →
  fits (response_to_json (exec_answer program args w).2) →
  BrokerClient.exec serve new_request_id program args w =
    let '(w', resp) := exec_answer program args w in
    (w', BrokerClient.response_to_output resp).
Proof using laws Huid.
  intros Hnf Hid Hreq Hresp. unfold BrokerClient.exec, BrokerClient.request, mbind, io_bind, io_gets.
  fold (exec_request (new_request_id w) program args).
  unfold exec_answer in *. pose proof (validate_exec_request _ program args Hid) as Hv.
  destruct (validate_exec program args) as [[]|reason] eqn:He.
  - destruct (unary_exec output program args DEFAULT_TIMEOUT_SECS w) as [w1 r] eqn:E1.
    pose proof (unary_exec_quiet _ _ _ _ _ _ E1) as (Hi & Hs & Hf). simpl in Hresp.
    rewrite (unary_served _ _ w (inside [] w1)) by
      (done || (unfold answer; rewrite Hv; simpl; unfold mbind, io_bind, io_try;
                rewrite unary_exec_inside, E1; cbn [fst snd]; unfold reply_response, io_map_err;
                rewrite send_frame_ok by (simpl; congruence || done); done)).
    destruct w, w1; simpl in *; subst. done.
  - simpl in Hresp. rewrite (unary_served _ (failure ("request rejected: " ++ reason)) w (inside [] w)) by
      (done || (unfold answer; rewrite Hv; unfold reply_response, io_map_err;
                rewrite send_frame_ok by done; done)).
    by destruct w.
Qed.

(** A command whose reply does not fit a frame is performed, and reported as a
    broken connection. *)
Lemma oversized_reply_lost program args w : w_faults w = [] → valid_id (new_request_id w) →
  fits (request_to_json (exec_request (new_request_id w) program args)) →
  validate_exec program args = Ok tt →
  ¬ fits (response_to_json (exec_answer program args w).2) →
  BrokerClient.exec serve new_request_id program args w =
    ((exec_answer program args w).1,
     Err (BrokerClient.Protocol ("read length prefix: " ++ eof_text))).
Proof using laws Huid.
  intros Hnf Hid Hreq He Hresp. unfold BrokerClient.exec, BrokerClient.request, mbind, io_bind, io_gets.
  fold (exec_request (new_request_id w) program args).
  unfold exec_answer in *. pose proof (validate_exec_request _ program args Hid) as Hv. rewrite He in Hv, Hresp |- *.
  destruct (unary_exec output program args DEFAULT_TIMEOUT_SECS w) as [w1 r] eqn:E1.
  pose proof (unary_exec_quiet _ _ _ _ _ _ E1) as (Hi & Hs & Hf). simpl in Hresp.
  unfold BrokerClient.unary, BrokerClient.exchange, mbind, io_bind, io_lift, BrokerClient.encode_frame.
  rewrite framed_write by done. simpl map_err. cbv iota beta.
  unfold serve. rewrite <- (app_nil_r (framed _)), connection_answer by done.
  unfold answer. rewrite Hv. simpl perform. unfold mbind, io_bind, io_try.
  rewrite unary_exec_inside, E1. cbn [fst snd]. unfold reply_response, io_map_err.
  rewrite send_frame_big by done. destruct w, w1; simpl in *; subst. done.
Qed.

(** What the services are told of a host command: the [exec] of the model
    [Command], on a host whose commands the broker runs. *)
Definition host_outcome (program : str) (args : list str) (o : outcome) : ApiResult (option str) :=
  let failed (m : str) := Err (CommandRouting.broker_error ("broker: " ++ m)) in
  match o with
  | NotSpawned true _ => Ok None
  | NotSpawned false e => failed ("spawn failed: " ++ e)
  | TimedOut => failed ("`" ++ program ++ "` timed out after " ++ dec DEFAULT_TIMEOUT_SECS ++ "s")
  | WaitFailed e => failed ("wait for child: " ++ e)
  | Exited status stdout stderr =>
      if bool_decide (status = Some 0%Z) then Ok (Some stdout)
      else failed ("`" ++ program ++ " " ++ join " " args ++ "` failed: " ++ trim stderr)
  end.
Definition host_exec (program : str) (args : list str) : Svc W (option str) := λ w,
  let c := command_for (default [] (program_path program)) args in
  let '(x, o) := output c DEFAULT_TIMEOUT_SECS (w_ext w) in
  (set_ext x (add_log (Ran c DEFAULT_TIMEOUT_SECS) w), host_outcome program args o).

Lemma exec_answer_host program args exe w : program_path program = Some exe →
  validate_exec program args = Ok tt →
  ∃ w' resp, exec_answer program args w = (w', resp) ∧ (host_exec program args w).1 = w' ∧
    CommandRouting.optional_outcome (BrokerClient.response_to_output resp) =
      (host_exec program args w).2 ∧
    (∀ s, BrokerClient.response_to_output resp = Ok s ↔ (host_exec program args w).2 = Ok (Some s)) ∧
    (∀ m, BrokerClient.response_to_output resp = Err (BrokerClient.SpawnNotFound m) →
       (host_exec program args w).2 = Ok None).
Proof using.
  intros Hp Hv. unfold exec_answer, host_exec, unary_exec. rewrite Hv, Hp.
  unfold permitted_program. rewrite Hp. unfold mbind, io_bind, io_lift, logged, io_modify, ext. simpl ok_or.
  cbv zeta iota beta. change (cap_timeout DEFAULT_TIMEOUT_SECS) with DEFAULT_TIMEOUT_SECS.
  change (w_ext (add_log ?e w)) with (w_ext w).
  destruct (output (command_for (default [] (Some exe)) args) DEFAULT_TIMEOUT_SECS (w_ext w))
    as [x o] eqn:Eo. simpl in Eo. rewrite Eo.
  assert ((∃ out err, o = Exited (Some 0%Z) out err) ∨
          ∀ s, host_outcome program args o ≠ Ok (Some s)) as [(out & err & ->)|Ho].
  { destruct o as [[]| | |status stdout stderr]; try (by right). unfold host_outcome.
    destruct (bool_decide_reflect (status = Some 0%Z)) as [->|]; [left; eauto|by right]. }
  { eexists _, _. split; [reflexivity|].
    split_and!; [done|done| |done]. intros s. split; intros [= ->]; done. }
  destruct o as [[]| | |[z|] stdout stderr]; simpl default.
  5: destruct (Z.eqb_spec z 0) as [->|Hz]; [by destruct (Ho stdout)|].
  5: assert (bool_decide (Some z = Some 0%Z) = false) as Hb by (apply bool_decide_eq_false; congruence).
  all: eexists _, _; (split; [reflexivity|]).
  all: split_and!; [done|simpl; rewrite ?Hb; done| |simpl; rewrite ?Hb; done].
  all: intros s; split; intros Hx; [discriminate Hx|by destruct (Ho s)].
Qed.

Context (socket : str) (Hsocket : socket ≠ []).
Abbreviation routed_run := (CommandRouting.run (Some socket) serve new_request_id output).
Abbreviation routed_run_optional :=
  (CommandRouting.run_optional (Some socket) serve new_request_id output).

Lemma socket_configured : CommandRouting.broker_configured (Some socket) = true.
Proof using Hsocket. simpl. by rewrite (proj2 (is_empty_false _)). Qed.

Lemma program_tables program : Command.program_path program = program_path program.
Proof. done. Qed.

(** C10: The model of host commands that every service is verified against is what
    the routing, the client, the socket and the server do: when both ends of the
    socket work, the peer is authorised and the frames fit, [run_optional] gives
    exactly the result and the effects of the model on a host whose programs are
    the ones the broker starts, and so does [run], except that the text of the
    error for a missing executable is the broker's. *)
Theorem broker_refines_command program args w :
  w_faults w = [] → valid_id (new_request_id w) →
  fits (request_to_json (exec_request (new_request_id w) program args)) →
  fits (response_to_json (exec_answer program args w).2) →
  routed_run_optional program args w = Command.run_optional true host_exec program args w ∧
  (routed_run program args w = Command.run true host_exec program args w ∨
   (host_exec program args w).2 = Ok None ∧
   ∃ m m', routed_run program args w =
             ((Command.run true host_exec program args w).1, Err (hypervisor m)) ∧
           (Command.run true host_exec program args w).2 = Err (hypervisor m')).
Proof using laws Huid Hsocket.
  intros Hnf Hid Hreq Hresp. pose proof (exec_served program args w Hnf Hid Hreq Hresp) as Hex.
  unfold CommandRouting.run_optional, CommandRouting.run, Command.run_optional, Command.run,
    Command.dispatch, CommandRouting.via_broker. rewrite socket_configured.
  unfold mbind, svc_bind, io_bind, io_try, io_map_err, lift, io_lift. cbv beta.
  destruct (Command.validate_program program) as [exe|e] eqn:Hp; [|split; [done|by left]].
  unfold Command.validate_program in Hp. apply ok_or_ok in Hp. rewrite program_tables in Hp.
  rewrite Hex. destruct (validate_exec program args) as [[]|reason] eqn:Hv.
  2: { unfold exec_answer. rewrite Hv. split; [done|by left]. }
  destruct (exec_answer_host program args exe w Hp Hv) as (w' & resp & -> & Hw & Ho & Hok & Hnone).
  destruct (host_exec program args w) as [w1 r] eqn:Eh. simpl in Hw, Ho, Hok, Hnone |- *. subst w1.
  rewrite Ho. split; [done|].
  destruct (BrokerClient.response_to_output resp) as [s|e] eqn:Er; simpl in Ho |- *.
  - left. rewrite (proj1 (Hok s) eq_refl). done.
  - destruct r as [[s|]|e']; [by specialize (proj2 (Hok s) eq_refl)| |].
    + right. split; [done|]. eexists _, _. done.
    + left. f_equal. destruct e; simpl in Ho; [|discriminate Ho| |]; injection Ho as <-; [done..].
Qed.
End link.

(** ** Witness *)

Lemma broker_refines_command_witness :
  let _ := number_codec in
  let output : command → N → unit → unit * outcome := λ _ _ x, (x, Exited (Some 0%Z) "tank" []) in
  let spawn : command → option (list (list N)) → N → unit → unit * result (bool * str) child :=
    λ _ _ _ x, (x, Err (true, [])) in
  let reads : str → list (list N) → N → unit → unit * list read_event := λ _ _ _ x, (x, []) in
  let args := lits ["list"; "-H"] in
  let srv := serve (λ _, []) output spawn reads 1000 1000 in
  CommandRouting.run_optional (Some (lit "/run/b")) srv (λ _, lit "r1") output "zpool" args
      (quiet_world [] ∅) =
    Command.run_optional true (host_exec output) "zpool" args (quiet_world [] ∅) ∧
  (host_exec output "zpool" args (quiet_world [] ∅)).2 = Ok (Some (lit "tank")).
Proof.
  cbv zeta. split; [|by vm_compute].
  refine (proj1 (@broker_refines_command number_codec unit (λ _, []) _ _ _ 1000 1000 number_codec_laws
    (or_introl eq_refl) (λ _, lit "r1") (lit "/run/b") _ "zpool" (lits ["list"; "-H"])
    (quiet_world [] ∅) eq_refl _ _ _)); [done| |by vm_compute|].
  - split_and!; [done|by vm_compute|]. by rewrite <- contains_char_false.
  - by vm_compute.
Defined.
