(* ===== verification/BrokerStreams.v ===== *)
(** * Streams through the broker

    A streamed command end to end: the client's pump, the server that feeds the
    child and reads its output, and the client's loop that fills the sink. *)

From S2P Require Export BrokerLink.

(** ** What a child gives *)

Inductive stream_end := EndDeadline | EndError (e : str) | EndEof.

(** The chunks read before the stream ends, and how it ends. *)
Fixpoint read_out (reads : list read_event) : list (list N) * stream_end :=
  match reads with
  | Deadline :: _ => ([], EndDeadline)
  | ReadError e :: _ => ([], EndError e)
  | [] | Chunk [] :: _ => ([], EndEof)
  | Chunk bs :: reads => let '(cs, e) := read_out reads in (bs :: cs, e)
  end.

(** The last frame of the stream. *)
Definition exit_frame (c : child) (e : stream_end) : result ServeError StreamFrame :=
  match e with
  | EndDeadline => Ok (Exit (-1) (ch_stderr c) true)
  | EndError e => Ok (Exit (-1) ("read child stdout: " ++ e ++ "; " ++ ch_stderr c) false)
  | EndEof =>
      status ← map_err (λ e, ExecError ("wait for child: " ++ e)) (ch_wait c);
      Ok (Exit (default (-1)%Z status) (ch_stderr c) false)
  end.
Definition last_frames (r : result ServeError StreamFrame) : list StreamFrame :=
  match r with Ok f => [f] | Err _ => [] end.

Definition small (bs : list N) : Prop := (N.of_nat (length bs) ≤ CHUNK_PAYLOAD_MAX)%N.

Section frames.
Context `{Codec} (laws : CodecLaws).

Definition wire (fs : list StreamFrame) : list N := flat_map (λ f, framed (frame_to_json f)) fs.
Definition frame_fits (f : StreamFrame) : Prop := fits (frame_to_json f).

Lemma wire_app fs gs : wire (fs ++ gs) = wire fs ++ wire gs.
Proof. apply flat_map_app. Qed.

Lemma wire_length fs : (length fs ≤ length (wire fs))%nat.
Proof.
  unfold wire. induction fs as [|f fs IH]; cbn [flat_map length]; [lia|].
  rewrite length_app. unfold framed at 1. rewrite length_app, length_to_le_bytes. lia.
Qed.

Lemma read_wire f rest : frame_fits f →
  read_frame eof_text (framed (frame_to_json f) ++ rest) = Ok (frame_to_json f, rest).
Proof using laws. intros Hf. apply framed_read; [done|apply json_frame_nonempty]. Qed.

Lemma small_stdout bs : small bs → frame_fits (Stdout (b64_encode bs)).
Proof using laws. apply chunk_fits. Qed.
Lemma small_stdin bs : small bs → frame_fits (Stdin (b64_encode bs)).
Proof using laws. apply chunk_fits. Qed.

(** *** The client's pump and the server's feed *)

Definition good_source (chunks : list (list N)) : Prop := Forall (λ bs, bs ≠ [] ∧ small bs) chunks.
Definition stdin_frames (chunks : list (list N)) : list StreamFrame :=
  map (λ bs, Stdin (b64_encode bs)) chunks ++ [StdinEof].

Lemma pump_frames chunks : good_source chunks → BrokerClient.pump chunks = stdin_frames chunks.
Proof.
  induction 1 as [|bs chunks [Hne _] _ IH]; simpl; [done|]. rewrite IH. by destruct bs.
Qed.
Lemma frames_bytes_wire fs : Forall frame_fits fs → BrokerClient.frames_bytes fs = wire fs.
Proof. induction 1 as [|f fs Hf _ IH]; simpl; [done|]. by rewrite framed_write, IH. Qed.
Lemma stdin_frames_fit chunks : good_source chunks → Forall frame_fits (stdin_frames chunks).
Proof using laws.
  intros Hc. apply Forall_app. split.
  - apply Forall_map. eapply Forall_impl; [exact Hc|]. intros bs [_ Hs]. by apply small_stdin.
  - repeat constructor. apply stdin_eof_fits.
Qed.

Lemma feed_wire chunks fuel rest : good_source chunks → (length chunks < fuel)%nat →
  feed fuel (wire (stdin_frames chunks) ++ rest) = chunks.
Proof using laws.
  intros Hc. revert fuel. induction Hc as [|bs chunks [_ Hs] _ IH]; intros [|fuel] Hlen; simpl in Hlen;
    try lia; cbn [feed].
  - unfold stdin_frames, wire. cbn [map app flat_map]. rewrite <- app_assoc.
    rewrite read_wire by apply stdin_eof_fits. by rewrite frame_json.
  - unfold stdin_frames. cbn [map app]. unfold wire. cbn [flat_map]. rewrite <- app_assoc.
    rewrite read_wire by (by apply small_stdin). rewrite frame_json, b64_roundtrip.
    rewrite (proj2 (N.leb_le _ _)) by done. f_equal. apply IH. lia.
Qed.

(** *** The server's loop *)

Context {X : Type}.
Implicit Types (w : World X).

Definition emits_frames (fs : list StreamFrame) w : World X :=
  fold_left (λ w f, emit (frame_to_json f) w) fs w.

Lemma emits_sent fs w : concat (w_sent (emits_frames fs w)) = concat (w_sent w) ++ wire fs.
Proof.
  revert w; induction fs as [|f fs IH]; intros w; simpl; [by rewrite app_nil_r|].
  unfold emits_frames in IH. by rewrite IH, sent_emit, <- app_assoc.
Qed.
Lemma emits_outside fs w0 w : outside w0 (emits_frames fs w) = outside w0 w.
Proof. revert w; induction fs as [|f fs IH]; intros w; simpl; [done|]. by rewrite IH. Qed.

Lemma send_exit_ok code stderr t w : w_faults w = [] → frame_fits (Exit code stderr t) →
  send_exit code stderr t w = (emits_frames [Exit code stderr t] w, Ok tt).
Proof.
  intros Hf Hfit. unfold send_exit, io_map_err, write_frame_json. by rewrite send_frame_ok.
Qed.

Lemma eof_frames c w : w_faults w = [] → Forall frame_fits (last_frames (exit_frame c EndEof)) →
  (exec_loop c [] w).1 = emits_frames (last_frames (exit_frame c EndEof)) w.
Proof.
  intros Hf. cbn [exec_loop exit_frame]. unfold mbind, io_bind, io_lift, result_bind.
  destruct (ch_wait c) as [st|e]; cbn [map_err last_frames]; [|done].
  intros [Hfit _]%Forall_cons. by rewrite send_exit_ok.
Qed.

Lemma exec_loop_frames c reads w : w_faults w = [] →
  let '(cs, e) := read_out reads in
  Forall small cs → Forall frame_fits (last_frames (exit_frame c e)) →
  (exec_loop c reads w).1 =
    emits_frames (map (λ bs, Stdout (b64_encode bs)) cs ++ last_frames (exit_frame c e)) w.
Proof using laws.
  revert w. induction reads as [|[|e|[|b bs]] reads IH]; intros w Hf; cbn [read_out].
  - intros _. by apply eof_frames.
  - intros _ [Hfit _]%Forall_cons. cbn [exec_loop]. by rewrite send_exit_ok.
  - intros _ [Hfit _]%Forall_cons. cbn [exec_loop]. by rewrite send_exit_ok.
  - intros _. by apply eof_frames.
  - destruct (read_out reads) as [cs e] eqn:Er. intros [Hs Hcs]%Forall_cons Hexit.
    cbn [exec_loop]. unfold mbind, io_bind, io_map_err, write_frame_json.
    rewrite send_frame_ok by (done || by apply small_stdout). cbn [fst snd map_err].
    by rewrite IH.
Qed.

(** *** The client's loop *)

Lemma receive_stdout program args cs fuel rest data : Forall small cs →
  BrokerClient.receive program args (length cs + fuel)
      (wire (map (λ bs, Stdout (b64_encode bs)) cs) ++ rest) (BrokerClient.mkSink data []) =
    BrokerClient.receive program args fuel rest (BrokerClient.mkSink (data ++ concat cs) []).
Proof using laws.
  intros Hcs. revert data. induction Hcs as [|bs cs Hs _ IH]; intros data; [by rewrite app_nil_r|].
  unfold wire. cbn [map flat_map length Nat.add BrokerClient.receive]. rewrite <- app_assoc.
  rewrite read_wire by (by apply small_stdout). rewrite frame_json, b64_roundtrip.
  cbn [BrokerClient.sink_write BrokerClient.sk_faults BrokerClient.sk_data].
  unfold wire in IH. rewrite IH. cbn [concat]. by rewrite app_assoc.
Qed.

(** What the client makes of the last frame, or of the connection that ends
    without one. *)
Definition stream_result (program : str) (args : list str) (r : result ServeError StreamFrame) :
    result BrokerClient.BrokerError unit :=
  match r with
  | Ok (Exit code stderr timed_out) => BrokerClient.exit_result program args code stderr timed_out
  | _ => Err (BrokerClient.Protocol ("read length prefix: " ++ eof_text))
  end.

Lemma receive_last program args fuel c e data : Forall frame_fits (last_frames (exit_frame c e)) →
  BrokerClient.receive program args (S fuel) (wire (last_frames (exit_frame c e)))
      (BrokerClient.mkSink data []) =
    (BrokerClient.mkSink data [], stream_result program args (exit_frame c e)).
Proof using laws.
  assert ((∃ err, exit_frame c e = Err err) ∨ ∃ code stderr t, exit_frame c e = Ok (Exit code stderr t))
    as [[err ->]|(code & stderr & t & ->)].
  { destruct e; cbn [exit_frame]; [eauto..|].
    destruct (ch_wait c); [right|left]; cbn [map_err mbind result_bind]; eauto. }
  - done.
  - intros [Hf _]%Forall_cons. unfold wire. cbn [last_frames flat_map BrokerClient.receive].
    rewrite read_wire by done. rewrite frame_json. unfold BrokerClient.sink_flush, BrokerClient.sink_write.
    cbn [BrokerClient.sk_faults BrokerClient.sk_data]. by rewrite app_nil_r.
Qed.
End frames.

(** ** A streamed command end to end *)

Section streams.
Context `{Codec} {X : Type} (strerror : errno → str).
Context (output : command → N → X → X * outcome).
Context (spawn : command → option (list (list N)) → N → X → X * result (bool * str) child).
Context (pty_reads : str → list (list N) → N → X → X * list read_event).
Context (laws : CodecLaws).
Implicit Types (w : World X).

Definition stream_request (id program : str) (args : list str) (source : option (list (list N))) :
    Request :=
  mkRequest PROTOCOL_VERSION id
    (Exec program args true (bool_decide (is_Some source)) BrokerClient.STREAM_TIMEOUT_SECS).

Lemma validate_stream_request id program args source : valid_id id →
  validate_request (stream_request id program args source) = validate_exec program args.
Proof.
  intros (Hne & Hlen & H0). unfold validate_request, stream_request. cbn [req_v req_id req_op].
  change (negb (PROTOCOL_VERSION =? PROTOCOL_VERSION)%N) with false. cbv iota.
  rewrite (proj2 (is_empty_false _)), (proj2 (N.ltb_ge _ _)), (proj2 (contains_char_false _ _)) by done.
  simpl. by destruct (validate_exec program args) as [[]|].
Qed.

(** The bytes of the source on the wire. *)
Definition source_bytes (source : option (list (list N))) : list N :=
  match source with Some chunks => wire (stdin_frames chunks) | None => [] end.

Lemma fed_source source input : good_source (default [] source) → input = source_bytes source →
  (if bool_decide (is_Some source) then Some (feed_stdin input) else None) = source.
Proof using laws.
  intros Hsrc ->. destruct source as [chunks|]; [|done]. rewrite bool_decide_eq_true_2 by done.
  f_equal. unfold feed_stdin, source_bytes. rewrite <- (app_nil_r (wire _)) at 2.
  apply feed_wire; [done|done|]. pose proof (wire_length (stdin_frames chunks)) as Hl.
  unfold stdin_frames in Hl |- *. rewrite length_app, length_map in Hl. simpl in Hl. lia.
Qed.

Lemma stream_exec_frames program args exe source w x ch :
  let c := command_for exe args in
  let '(cs, e) := read_out (ch_reads ch) in
  w_faults w = [] → w_input w = source_bytes source → program_path program = Some exe →
  good_source (default [] source) →
  spawn c source EXEC_TIMEOUT_CAP (w_ext w) = (x, Ok ch) →
  Forall small cs → Forall frame_fits (last_frames (exit_frame ch e)) →
  (stream_exec spawn program args (bool_decide (is_Some source)) EXEC_TIMEOUT_CAP w).1 =
    emits_frames (map (λ bs, Stdout (b64_encode bs)) cs ++ last_frames (exit_frame ch e))
      (set_ext x (add_log (Ran c EXEC_TIMEOUT_CAP) w)).
Proof using laws.
  cbv zeta. destruct (read_out (ch_reads ch)) as [cs e] eqn:Er.
  intros Hnf Hin Hp Hsrc Hspawn Hcs Hlast. unfold stream_exec, permitted_program. rewrite Hp.
  unfold mbind, io_bind, io_lift, io_gets, logged, io_modify, ext. cbn [ok_or]. cbv zeta.
  change (cap_timeout EXEC_TIMEOUT_CAP) with EXEC_TIMEOUT_CAP.
  rewrite fed_source by done. change (w_ext (add_log ?ev w)) with (w_ext w). rewrite Hspawn.
  pose proof (exec_loop_frames laws ch (ch_reads ch)
    (set_ext x (add_log (Ran (command_for exe args) EXEC_TIMEOUT_CAP) w)) Hnf) as Hl.
  rewrite Er in Hl. by apply Hl.
Qed.

Lemma exit_result_ok program args code stderr t :
  BrokerClient.exit_result program args code stderr t = Ok tt ↔ code = 0%Z.
Proof.
  unfold BrokerClient.exit_result. destruct (Z.eqb_spec code 0); [done|]. by destruct t.
Qed.
Lemma stream_result_ok program args ch e :
  stream_result program args (exit_frame ch e) = Ok tt ↔ e = EndEof ∧ ch_wait ch = Ok (Some 0%Z).
Proof.
  destruct e; cbn [exit_frame stream_result]; rewrite ?exit_result_ok; [naive_solver..|].
  destruct (ch_wait ch) as [[z|]|e]; cbn [map_err mbind result_bind stream_result default];
    rewrite ?exit_result_ok; naive_solver.
Qed.

Context (uid allowed_uid : N) (Huid : uid = allowed_uid ∨ uid = 0%N).
Context (new_request_id : World X → str).
Abbreviation server := (serve strerror output spawn pty_reads uid allowed_uid).

(** C13: A streamed command is what the child makes of it: with both ends of the
    socket working, the child the broker starts is the validated program with
    exactly the chunks of the source as its input, the sink gets exactly the
    bytes the child wrote before its stream ended, in order, and the client
    reports success exactly when the stream ended and the child exited with
    status 0. *)
Theorem stream_relay program args exe source data w x ch :
  let c := command_for exe args in
  let '(cs, e) := read_out (ch_reads ch) in
  w_faults w = [] → valid_id (new_request_id w) →
  fits (request_to_json (stream_request (new_request_id w) program args source)) →
  validate_exec program args = Ok tt → program_path program = Some exe →
  good_source (default [] source) →
  spawn c source EXEC_TIMEOUT_CAP (w_ext w) = (x, Ok ch) →
  Forall small cs → Forall frame_fits (last_frames (exit_frame ch e)) →
  ∃ r, BrokerClient.exec_streamed server new_request_id program args source
         (BrokerClient.mkSink data []) w =
       (set_ext x (add_log (Ran c EXEC_TIMEOUT_CAP) w),
        Ok (BrokerClient.mkSink (data ++ concat cs) [], r)) ∧
    (r = Ok tt ↔ e = EndEof ∧ ch_wait ch = Ok (Some 0%Z)).
Proof using laws Huid.
  cbv zeta. destruct (read_out (ch_reads ch)) as [cs e] eqn:Er.
  intros Hnf Hid Hreq Hv Hp Hsrc Hspawn Hcs Hlast.
  exists (stream_result program args (exit_frame ch e)). split.
  - unfold BrokerClient.exec_streamed, BrokerClient.request, BrokerClient.exchange, mbind, io_bind,
      io_gets, io_lift.
    fold (stream_request (new_request_id w) program args source).
    unfold BrokerClient.encode_frame. rewrite framed_write by done. cbn [map_err].
    assert (match source with Some chunks => BrokerClient.frames_bytes (BrokerClient.pump chunks)
            | None => [] end = source_bytes source) as ->.
    { destruct source as [chunks|]; [|done]. simpl in Hsrc |- *. rewrite pump_frames by done.
      apply frames_bytes_wire. by apply stdin_frames_fit. }
    unfold serve. rewrite connection_answer by done. unfold answer.
    rewrite validate_stream_request, Hv by done. cbn [req_op stream_request perform].
    pose proof (stream_exec_frames program args exe source (inside (source_bytes source) w) x ch) as Hf.
    cbv zeta in Hf. rewrite Er in Hf. change BrokerClient.STREAM_TIMEOUT_SECS with EXEC_TIMEOUT_CAP.
    rewrite Hf by done. rewrite emits_outside, emits_sent.
    change (concat (w_sent _)) with (@nil N). rewrite app_nil_l, wire_app.
    set (last := wire (last_frames (exit_frame ch e))).
    assert (∃ n, S (length (wire (map (λ bs, Stdout (b64_encode bs)) cs) ++ last)) =
                 (length cs + S n)%nat) as [n ->].
    { pose proof (wire_length (map (λ bs, Stdout (b64_encode bs)) cs)) as Hl.
      rewrite length_map in Hl. rewrite length_app.
      exists (length (wire (map (λ bs, Stdout (b64_encode bs)) cs)) - length cs + length last)%nat. lia. }
    rewrite receive_stdout by done. unfold last. rewrite receive_last by done. by destruct w.
  - apply stream_result_ok.
Qed.
End streams.

(** ** Witness *)

Lemma stream_relay_witness :
  let _ := number_codec in
  let ch := mkChild [Chunk [1; 2]%N; Chunk [3]%N] [] (Ok (Some 0%Z)) in
  let spawn : command → option (list (list N)) → N → unit → unit * result (bool * str) child :=
    λ _ source _ x, (x, if bool_decide (source = Some [[7]%N]) then Ok ch else Err (false, [])) in
  let srv := serve (λ _, []) (λ _ _ x, (x, TimedOut)) spawn (λ _ _ _ x, (x, [])) 0 1000 in
  let args := lits ["receive"; "-F"; "tank/a"] in
  ∃ r, BrokerClient.exec_streamed srv (λ _, lit "r1") "zfs" args (Some [[7]%N])
         (BrokerClient.mkSink [] []) (quiet_world [] ∅) =
       (set_ext tt (add_log (Ran (command_for "/usr/sbin/zfs" args) 900) (quiet_world [] ∅)),
        Ok (BrokerClient.mkSink [1; 2; 3]%N [], r)) ∧
    (r = Ok tt ↔ EndEof = EndEof ∧ ch_wait ch = Ok (Some 0%Z)).
Proof.
  cbv zeta.
  refine (@stream_relay number_codec unit (λ _, []) _ _ _ number_codec_laws 0 1000
    (or_intror eq_refl) (λ _, lit "r1") "zfs" (lits ["receive"; "-F"; "tank/a"]) "/usr/sbin/zfs"
    (Some [[7]%N]) [] (quiet_world [] ∅) tt
    (mkChild [Chunk [1; 2]%N; Chunk [3]%N] [] (Ok (Some 0%Z))) eq_refl _ _ _ _ _ eq_refl _ _).
  - split_and!; [done|by vm_compute|]. by rewrite <- contains_char_false.
  - by vm_compute.
  - by vm_compute.
  - done.
  - repeat constructor; done.
  - repeat constructor; done.
  - repeat constructor. by vm_compute.
Defined.
