(* ===== verification/Host.v ===== *)
(** * Services on a host

    A service whose state has a host runs commands through [Command]; [emits P m]
    says that every command [m] has executed on a host that logs them, whatever
    the outcomes, satisfies [P]. *)

From S2P Require Export Command.

(** The host inside a service's state. *)
Class HasHost (S H : Type) := {
  host_of : S → H;
  set_host : H → S → S;
  host_set : ∀ h s, host_of (set_host h s) = h;
}.

Section host.
Context {S H : Type} `{HH : HasHost S H}.
Context (broker : bool) (exec : str → list str → Svc H (option str)).

Definition at_host {A} (m : Svc H A) : Svc S A := λ s,
  let '(h, r) := m (host_of s) in (set_host h s, r).
Definition host_run (program : str) (args : list str) : Svc S str :=
  at_host (Command.run broker exec program args).
Definition host_run_ok (program : str) (args : list str) : Svc S unit :=
  at_host (Command.run_ok broker exec program args).
Definition host_run_optional (program : str) (args : list str) : Svc S (option str) :=
  at_host (Command.run_optional broker exec program args).
End host.

(** ** The commands a computation executes *)

Definition command_line : Type := str * list str.

Section log.
Context {S H : Type} `{HH : HasHost S H} (log : H → list command_line).
Implicit Types (P : command_line → Prop).

Definition trace (s : S) : list command_line := log (host_of s).
Definition emits {A} P (m : Svc S A) : Prop :=
  ∀ s s' r, m s = (s', r) → ∃ tr, trace s' = trace s ++ tr ∧ Forall P tr.

Lemma emits_quiet {A} P (m : Svc S A) : (∀ s, trace (m s).1 = trace s) → emits P m.
Proof. intros Hm s s' r E. exists []. specialize (Hm s). rewrite E in Hm. by rewrite app_nil_r. Qed.
Lemma emits_ret {A} P (a : A) : emits P (mret a).
Proof. by apply emits_quiet. Qed.
Lemma emits_fail {A} P e : emits P (fail (A:=A) e).
Proof. by apply emits_quiet. Qed.
Lemma emits_lift {A} P (r : ApiResult A) : emits P (lift r).
Proof. by apply emits_quiet. Qed.
Lemma emits_gets {A} P (f : S → A) : emits P (gets f).
Proof. by apply emits_quiet. Qed.
Lemma emits_bind {A B} P (m : Svc S A) (f : A → Svc S B) :
  emits P m → (∀ a, emits P (f a)) → emits P (mbind f m).
Proof.
  intros Hm Hf s s' r. unfold mbind, svc_bind. destruct (m s) as [s1 [a|e]] eqn:E.
  - intros E'. destruct (Hm _ _ _ E) as (t1 & H1 & F1). destruct (Hf _ _ _ _ E') as (t2 & H2 & F2).
    exists (t1 ++ t2). rewrite H2, H1, app_assoc. split; [done|by apply Forall_app].
  - intros [= <- <-]. by eapply Hm.
Qed.
(** A step that never succeeds: what follows it does not matter. *)
Lemma emits_bind_fails {A B} P (m : Svc S A) (f : A → Svc S B) :
  emits P m → (∀ s s' a, m s ≠ (s', Ok a)) → emits P (mbind f m).
Proof.
  intros Hm Hf s s' r. unfold mbind, svc_bind. destruct (m s) as [s1 [a|e]] eqn:E.
  - by destruct (Hf _ _ _ E).
  - intros [= <- _]. by eapply Hm.
Qed.
Lemma emits_attempt {A} P (m : Svc S A) : emits P m → emits P (attempt m).
Proof. intros Hm s s' r [= <- _]. destruct (m s) as [s1 r1] eqn:E. by eapply Hm. Qed.
Lemma emits_ignore {A} P (m : Svc S A) : emits P m → emits P (ignore m).
Proof. intros Hm s s' r [= <- _]. destruct (m s) as [s1 r1] eqn:E. by eapply Hm. Qed.
Lemma emits_on_error {A} P (m : Svc S A) (c : Svc S unit) :
  emits P m → emits P c → emits P (on_error m c).
Proof.
  intros Hm Hc s s' r. unfold on_error. destruct (m s) as [s1 [a|e]] eqn:E; intros [= <- <-].
  - by eapply Hm.
  - destruct (Hm _ _ _ E) as (t1 & H1 & F1). destruct (c s1) as [s2 r2] eqn:E2.
    destruct (Hc _ _ _ E2) as (t2 & H2 & F2). exists (t1 ++ t2). simpl. rewrite H2, H1, app_assoc.
    split; [done|by apply Forall_app].
Qed.
Lemma emits_each {A} P (f : A → Svc S unit) (l : list A) : (∀ a, emits P (f a)) → emits P (each f l).
Proof. intros Hf. induction l as [|a l IH]; simpl; [apply emits_ret|]. by apply emits_bind. Qed.
Lemma emits_impl {A} P Q (m : Svc S A) : (∀ c, P c → Q c) → emits P m → emits Q m.
Proof. intros HPQ Hm s s' r E. destruct (Hm _ _ _ E) as (t & Ht & F). exists t. eauto using Forall_impl. Qed.

Context (broker : bool) (exec : str → list str → Svc H (option str)).
Context (exec_log : ∀ p a h, log (exec p a h).1 = log h ++ [(p, a)]).

Lemma dispatch_log p a h h' r : Command.dispatch broker exec p a h = (h', r) →
  log h' = log h ∨ log h' = log h ++ [(p, a)].
Proof.
  unfold Command.dispatch, mbind, svc_bind, lift. pose proof (exec_log p a h) as He.
  destruct (Command.validate_program p); [|intros [= <- _]; by left].
  destruct broker; [destruct (map_err _ _); [|intros [= <- _]; by left]|]; intros E; rewrite E in He; by right.
Qed.

Lemma at_host_one {A} P (m : Svc H A) c : P c →
  (∀ h h' r, m h = (h', r) → log h' = log h ∨ log h' = log h ++ [c]) → emits P (at_host m).
Proof.
  intros HP Hm s s' r. unfold at_host. destruct (m (host_of s)) as [h x] eqn:E. intros [= <- _].
  unfold trace. rewrite host_set. destruct (Hm _ _ _ E) as [->| ->];
    [exists []; by rewrite app_nil_r|exists [c]; split; [done|by constructor]].
Qed.
Lemma run_log p a h h' r : Command.run broker exec p a h = (h', r) → log h' = log h ∨ log h' = log h ++ [(p, a)].
Proof.
  unfold Command.run, mbind, svc_bind. destruct (Command.dispatch broker exec p a h) as [h1 [[o|]|e]] eqn:E;
    intros [= <- _]; by eapply dispatch_log.
Qed.
Lemma run_ok_log p a h h' r : Command.run_ok broker exec p a h = (h', r) → log h' = log h ∨ log h' = log h ++ [(p, a)].
Proof.
  unfold Command.run_ok, mbind, svc_bind. destruct (Command.run broker exec p a h) as [h1 [o|e]] eqn:E;
    intros [= <- _]; by eapply run_log.
Qed.
Lemma emits_run P p a : P (p, a) → emits P (host_run broker exec p a).
Proof. intros HP. by eapply at_host_one; [|apply run_log]. Qed.
Lemma emits_run_ok P p a : P (p, a) → emits P (host_run_ok broker exec p a).
Proof. intros HP. by eapply at_host_one; [|apply run_ok_log]. Qed.
Lemma emits_run_optional P p a : P (p, a) → emits P (host_run_optional broker exec p a).
Proof. intros HP. by eapply at_host_one; [|apply dispatch_log]. Qed.
Lemma emits_at_host {A} P (m : Svc H A) : (∀ h, log (m h).1 = log h) → emits P (at_host m).
Proof.
  intros Hm. apply emits_quiet. intros s. unfold at_host, trace. specialize (Hm (host_of s)).
  destruct (m _). simpl. by rewrite host_set.
Qed.
End log.

Create HintDb emits discriminated.
#[export] Hint Resolve emits_ret emits_fail emits_lift emits_gets : emits.

Ltac emits_step :=
  lazymatch goal with
  | |- emits _ _ (mbind _ _) => apply emits_bind; [|intros ?]
  | |- emits _ _ (attempt _) => apply emits_attempt
  | |- emits _ _ (ignore _) => apply emits_ignore
  | |- emits _ _ (on_error _ _) => apply emits_on_error
  | |- emits _ _ (each _ _) => apply emits_each; intros ?
  | |- emits _ _ (match ?x with _ => _ end) => destruct x
  | |- emits _ _ (let _ := _ in _) => cbv zeta
  | |- emits _ _ (host_run _ _ _ _) => apply emits_run; [assumption|]
  | |- emits _ _ (host_run_ok _ _ _ _) => apply emits_run_ok; [assumption|]
  | |- emits _ _ (host_run_optional _ _ _ _) => apply emits_run_optional; [assumption|]
  | |- emits _ _ (at_host _) => apply emits_at_host; solve [auto]
  | |- emits _ _ _ => solve [auto 2 with emits nocore]
  end.
Ltac emits := repeat emits_step; try done; try reflexivity.
