(* ===== verification/Zfs.v ===== *)
(** * The ZFS service (src/src/services/zfs.rs)

    Pools, raw disks, datasets and snapshots: commands built from validated
    requests, and the parsing of the tools' tabular output. *)

From S2P Require Export Validate Cache Command.

(** ** Data of [daygleve_schema::storage] *)

Inductive PoolLayout := Stripe | Mirror | Raidz1 | Raidz2 | Raidz3.
Inductive PoolHealth := Online | Degraded | Faulted | Offline | Unavail.
Inductive DatasetKind := Filesystem | Volume.
#[export] Instance DatasetKind_eq_dec : EqDecision DatasetKind.
Proof. solve_decision. Defined.

Record Pool := mkPool {
  pl_name : str; pl_size_bytes : N; pl_allocated_bytes : N; pl_free_bytes : N;
  pl_fragmentation_pct : N; pl_health : PoolHealth }.
Record RawDisk := mkDisk {
  d_path : str; d_model : str; d_serial : option str; d_size_bytes : N; d_rotational : bool;
  d_in_use : bool }.
Record SmartReport := mkSmart {
  sr_path : str; sr_supported : bool; sr_passed : option bool; sr_health : option str;
  sr_temperature_c : option Z; sr_power_on_hours : option N; sr_checked_at : str }.
(** [v as i32]. *)
Definition wrap_i32 (v : Z) : Z :=
  let m := (v mod 2 ^ 32)%Z in if (m <? 2 ^ 31)%Z then m else (m - 2 ^ 32)%Z.
Record Dataset := mkDataset {
  ds_id : str; ds_name : str; ds_kind : DatasetKind; ds_used_bytes : N; ds_available_bytes : N;
  ds_mountpoint : option str; ds_compression : str; ds_created_at : str }.
Record Snapshot := mkSnapshot {
  sn_id : str; sn_name : str; sn_dataset : str; sn_used_bytes : N; sn_created_at : str }.
Record CreatePoolRequest := mkCreatePool {
  cp_name : str; cp_layout : PoolLayout; cp_devices : list str; cp_force : bool }.
Record CreateDatasetRequest := mkCreateDataset {
  cd_name : str; cd_kind : DatasetKind; cd_size_gib : option N; cd_compression : option str }.
Record CreateSnapshotRequest := mkCreateSnapshot { cs_name : str; cs_recursive : bool }.
Record WipeDiskRequest := mkWipe { w_path : str; w_confirm : str }.

(** What sysfs says of a block device: its name, whether it is a partition,
    [size], [device/model], [device/serial], [queue/rotational], and whether
    [holders] has an entry. *)
Record SysDisk := mkSys {
  b_name : str; b_partition : bool; b_size : option str; b_model : option str;
  b_serial : option str; b_rotational : option str; b_holder : bool }.

Definition DATASET_COLS : str := "name,used,avail,mountpoint,compression,type,creation".

(** ** Parsing *)

Definition unwrap_or {A} (d : A) (o : option A) : A := match o with Some a => a | None => d end.

Definition parse_u64 (s : str) : N := unwrap_or 0%N (parse_uint U64_MAX (trim s)).
Definition parse_pct (s : str) : N :=
  unwrap_or 0%N (parse_uint U8_MAX (trim_end_matches (ch "%") (trim s))).

Definition parse_health (s : str) : PoolHealth :=
  let s := to_ascii_uppercase (trim s) in
  if s =s? "ONLINE" then Online
  else if s =s? "DEGRADED" then Degraded
  else if s =s? "FAULTED" then Faulted
  else if s =s? "OFFLINE" then Offline
  else Unavail.

(** The lines with something on them. *)
Definition rows (out : str) : list str := List.filter (λ l, negb (is_empty (trim l))) (lines out).

Definition parse_pool_line (line : str) : option Pool :=
  match split 9 line with
  | a :: b :: c :: d :: e :: f :: _ =>
      Some (mkPool a (parse_u64 b) (parse_u64 c) (parse_u64 d) (parse_pct e) (parse_health f))
  | _ => None
  end.

Definition is_physical_disk_name (name : str) : bool :=
  negb (starts_with "loop" name || starts_with "ram" name || starts_with "zram" name
        || starts_with "dm-" name || starts_with "md" name || starts_with "sr" name).

Definition read_trimmed (text : option str) : option str :=
  match text with
  | Some t => if is_empty (trim t) then None else Some (trim t)
  | None => None
  end.

(** The device names in [/proc/mounts]. *)
Definition mounted_device_names (mounts : option str) : list str :=
  match mounts with
  | None => []
  | Some text =>
      omap (λ line, device ← head (split_whitespace line);
                    name ← strip_prefix "/dev/" device;
                    head (split (ch "/") name)) (lines text)
  end.

(** Whether one of the mounted names is this disk or a partition of it. *)
Definition disk_mounted (name : str) (mounted : list str) : bool :=
  existsb (λ m, (m =s? name)
                || match strip_prefix name m with
                   | Some suffix => forallb is_ascii_digit suffix
                   | None => false
                   end) mounted.

(** The tokens of [zpool status -P -L] that are devices. *)
Definition zpool_devices (status : option str) : list str :=
  match status with
  | None => []
  | Some out => List.filter (starts_with "/dev/") (split_whitespace out)
  end.

Definition raw_disk_of (mounted zpool : list str) (d : SysDisk) : option RawDisk :=
  if negb (is_physical_disk_name (b_name d)) || b_partition d then None
  else
    let size := unwrap_or 0%N (t ← b_size d; parse_uint U64_MAX (trim t)) in
    let path := "/dev/" ++ b_name d in
    Some (mkDisk path (unwrap_or [] (read_trimmed (b_model d))) (read_trimmed (b_serial d))
            (N.min (size * 512) U64_MAX)
            (match read_trimmed (b_rotational d) with Some v => v =s? "1" | None => false end)
            (b_holder d || disk_mounted (b_name d) mounted || bool_decide (path ∈ zpool))).

Definition is_safe_compression (value : str) : bool :=
  let value := to_ascii_lowercase value in
  let numbered prefix (max : N) :=
    match level ← strip_prefix prefix value; parse_uint U8_MAX level with
    | Some level => (1 <=? level)%N && (level <=? max)%N
    | None => false
    end in
  str_in value ["on"; "off"; "lz4"; "gzip"; "zle"; "zstd"; "zstd-fast"]
  || numbered (lit "gzip-") 9%N || numbered (lit "zstd-") 16%N.

Definition ensure_pool_name (name : str) : ApiResult unit :=
  if is_empty name || (64 <? len name)%N || starts_with "-" name
     || negb (forallb (alnum_or "._-") (bytes name))
  then Err (validation "pool name must be a safe single component")
  else Ok tt.

Definition min_devices (layout : PoolLayout) : nat :=
  match layout with Stripe => 1 | Mirror => 2 | Raidz1 => 3 | Raidz2 => 4 | Raidz3 => 5 end.

Definition layout_name (layout : PoolLayout) : option str :=
  match layout with
  | Stripe => None
  | Mirror => Some (lit "mirror")
  | Raidz1 => Some (lit "raidz1")
  | Raidz2 => Some (lit "raidz2")
  | Raidz3 => Some (lit "raidz3")
  end.
Definition layout_debug (layout : PoolLayout) : str :=
  match layout with
  | Stripe => "Stripe" | Mirror => "Mirror" | Raidz1 => "Raidz1" | Raidz2 => "Raidz2"
  | Raidz3 => "Raidz3"
  end.

(** ** The service *)
Module ZfsService.
Section service.
(** The host: commands; the walk of [/sys/block] ([None] when it cannot be
    opened; the entries it yields and the error that ends it, if one does); what
    [/proc/mounts] holds when the walk is at the disk of that name; [rfc3339]
    prints a Unix time that chrono can represent. *)
Context {H : Type} (broker : bool) (exec : str → list str → Svc H (option str)).
Context (sys_block : H → option (list SysDisk * option str)) (proc_mounts : H → str → option str).
Context (rfc3339 : Z → option str) (default_pool : str).

Local Abbreviation run := (Command.run broker exec).
Local Abbreviation run_ok := (Command.run_ok broker exec).
Local Abbreviation run_optional := (Command.run_optional broker exec).

(** [i64]'s [parse], then [DateTime::from_timestamp]. *)
Definition unix_to_rfc3339 (secs : str) : str :=
  let secs := trim secs in
  let z := match strip_prefix "-" secs with
           | Some r => if starts_with "+" r then None
                       else n ← parse_uint (I64_MAX + 1) r; Some (- Z.of_N n)%Z
           | None => n ← parse_uint I64_MAX secs; Some (Z.of_N n)
           end in
  unwrap_or [] (t ← z; rfc3339 t).

Definition parse_dataset_line (line : str) : option Dataset :=
  match split 9 line with
  | name :: used :: avail :: mount :: compression :: kind :: creation :: _ =>
      let kind := if trim kind =s? "volume" then Volume else Filesystem in
      let mountpoint := if str_in (trim mount) [""; "-"; "none"; "legacy"] then None
                        else Some (trim mount) in
      Some (mkDataset name name kind (parse_u64 used) (parse_u64 avail) mountpoint
              (trim compression) (unix_to_rfc3339 creation))
  | _ => None
  end.

Definition parse_snapshot_line (line : str) : option Snapshot :=
  match split 9 line with
  | name :: used :: creation :: _ =>
      Some (mkSnapshot name name (unwrap_or name (head (split (ch "@") name))) (parse_u64 used)
              (unix_to_rfc3339 creation))
  | _ => None
  end.

Definition list_pools : Svc H (list Pool) :=
  out ← run_optional "zpool" (lits ["list"; "-Hp"; "-o"; "name,size,alloc,free,frag,health"]);
  match out with
  | None => mret []
  | Some out => mret (omap parse_pool_line (rows out))
  end.

Definition list_raw_disks : Svc H (list RawDisk) :=
  walk ← gets sys_block;
  match walk with
  | None => mret []
  | Some (disks, broken) =>
      status ← run_optional "zpool" (lits ["status"; "-P"; "-L"]);
      mounts ← gets proc_mounts;
      match broken with
      | Some e => fail (internal ("read /sys/block: " ++ e))
      | None =>
          mret (sort_by (λ a b, str_cmp (d_path a) (d_path b))
                  (omap (λ d, raw_disk_of (mounted_device_names (mounts (b_name d)))
                                (zpool_devices status) d) disks))
      end
  end.

Definition raw_disk (path : str) : Svc H RawDisk :=
  disks ← list_raw_disks;
  lift (ok_or (not_found ("raw disk " ++ path ++ " not found"))
          (List.find (λ d, d_path d =s? path) disks)).

Definition wipe_disk (req : WipeDiskRequest) : Svc H unit :=
  disk ← raw_disk (w_path req);
  if negb (w_confirm req =s? d_path disk) then
    fail (validation "confirm must exactly match the disk path")
  else if d_in_use disk then fail (conflict "refusing to wipe a disk that is in use")
  else run_ok "wipefs" [lit "-a"; d_path disk].

(** [Value] of [serde_json], its text and [Value::pointer]. *)
Section smart.
Context {Json : Type} (from_str : str → result str Json) (pointer : str → Json → option Json)
  (as_bool : Json → option bool) (as_i64 : Json → option Z) (as_u64 : Json → option N).

(** What the report says of the JSON that [smartctl] prints. *)
Definition smart_fields (path checked_at : str) (value : Json) : SmartReport :=
  let passed := v ← pointer "smart_status.passed" value; as_bool v in
  mkSmart path (default true (v ← pointer "smart_support.available" value; as_bool v)) passed
    (ok ← passed; Some (if ok : bool then lit "PASSED" else lit "FAILED"))
    (v ← pointer "temperature.current" value; z ← as_i64 v; Some (wrap_i32 z))
    (v ← pointer "power_on_time.hours" value; as_u64 v) checked_at.
Definition smart_report (path : str) (now_ts : str) : Svc H SmartReport :=
  disk ← raw_disk path;
  output ← Command.run_optional broker exec "smartctl" [lit "-j"; lit "-a"; d_path disk];
  match output with
  | None => mret (mkSmart (d_path disk) false None None None None now_ts)
  | Some output =>
      value ← lift (map_err (λ e, hypervisor ("parse smartctl JSON: " ++ e)) (from_str output));
      mret (smart_fields (d_path disk) now_ts value)
  end.
End smart.

(** The device loop of [create_pool]; [seen] are the requested paths so far. *)
Fixpoint pool_paths (disks : list RawDisk) (seen devices : list str) : ApiResult (list str) :=
  match devices with
  | [] => Ok []
  | path :: devices =>
      disk ← ok_or (not_found ("raw disk " ++ path ++ " not found"))
               (List.find (λ d, d_path d =s? path) disks);
      if bool_decide (path ∈ seen) then Err (validation "pool devices must be unique")
      else if d_in_use disk then Err (conflict ("disk " ++ path ++ " is in use"))
      else
        paths ← pool_paths disks (path :: seen) devices;
        Ok (d_path disk :: paths)
  end.

Definition create_pool_args (req : CreatePoolRequest) (paths : list str) : list str :=
  [lit "create"] ++ (if cp_force req then [lit "-f"] else []) ++ [cp_name req]
  ++ (match layout_name (cp_layout req) with Some l => [l] | None => [] end) ++ paths.

Definition create_pool (req : CreatePoolRequest) : Svc H Pool :=
  _ ← lift (ensure_pool_name (cp_name req));
  let required := min_devices (cp_layout req) in
  if (length (cp_devices req) <? required)%nat then
    fail (validation (layout_debug (cp_layout req) ++ " requires at least "
                      ++ dec (N.of_nat required) ++ " devices"))
  else
    disks ← list_raw_disks;
    paths ← lift (pool_paths disks [] (cp_devices req));
    _ ← run_ok "zpool" (create_pool_args req paths);
    pools ← list_pools;
    lift (ok_or (hypervisor "pool was created but could not be read back")
            (List.find (λ p, pl_name p =s? cp_name req) pools)).

Definition list_datasets : Svc H (list Dataset) :=
  out ← run_optional "zfs" [lit "list"; lit "-Hp"; lit "-o"; DATASET_COLS];
  match out with
  | None => mret []
  | Some out => mret (omap parse_dataset_line (rows out))
  end.

Definition get_dataset (name : str) : Svc H Dataset :=
  out ← run "zfs" [lit "list"; lit "-Hp"; lit "-o"; DATASET_COLS; name];
  lift (ok_or (hypervisor ("dataset " ++ name ++ " not found after create"))
          (line ← head (lines out); parse_dataset_line line)).

(** The checks of [create_dataset]; the result is the volume size. *)
Definition check_dataset (req : CreateDatasetRequest) : ApiResult unit :=
  ensure_safe_zfs_dataset (cd_name req) ;?
  ensure_safe_zfs_dataset default_pool ;?
  if bool_decide (cd_kind req = Volume)
     && match cd_size_gib req with None => true | Some size => (size =? 0)%N end
  then Err (validation "size_gib must be >= 1 for volumes")
  else if match cd_compression req with Some c => negb (is_safe_compression c) | None => false end
  then Err (validation "invalid compression property")
  else if bool_decide (cd_kind req = Filesystem)
          && match cd_size_gib req with Some _ => true | None => false end
  then Err (validation "size_gib is only valid for volume datasets")
  else Ok tt.

Definition create_dataset_args (req : CreateDatasetRequest) : list str :=
  [lit "create"]
  ++ (match cd_compression req with Some c => [lit "-o"; "compression=" ++ c] | None => [] end)
  ++ (if bool_decide (cd_kind req = Volume)
      then [lit "-V"; dec (unwrap_or 0%N (cd_size_gib req)) ++ "G"] else [])
  ++ [cd_name req].

Definition create_dataset (req : CreateDatasetRequest) : Svc H Dataset :=
  _ ← lift (check_dataset req);
  _ ← run_ok "zfs" (create_dataset_args req);
  get_dataset (cd_name req).

Definition snapshot_list_args (name : str) : list str :=
  lits ["list"; "-t"; "snapshot"; "-Hp"; "-o"; "name,used,creation"] ++ [name].

Definition list_snapshots (dataset_id : str) : Svc H (list Snapshot) :=
  _ ← lift (ensure_safe_zfs_dataset dataset_id);
  out ← run_optional "zfs" (snapshot_list_args dataset_id);
  match out with
  | None => mret []
  | Some out =>
      mret (omap parse_snapshot_line
              (List.filter (starts_with (dataset_id ++ "@")) (rows out)))
  end.

Definition create_snapshot (dataset_id : str) (req : CreateSnapshotRequest) : Svc H Snapshot :=
  _ ← lift (ensure_safe_zfs_dataset dataset_id);
  snapshot ← lift (ensure_safe_zfs_snapshot (trim (cs_name req)));
  let full := dataset_id ++ "@" ++ snapshot in
  _ ← run_ok "zfs" ([lit "snapshot"] ++ (if cs_recursive req then [lit "-r"] else []) ++ [full]);
  out ← run "zfs" (snapshot_list_args full);
  lift (ok_or (hypervisor ("snapshot " ++ full ++ " not found after create"))
          (line ← head (lines out); parse_snapshot_line line)).

Definition clone_snapshot (snapshot_id target : str) : Svc H Dataset :=
  _ ← lift (ensure_safe_zfs_snapshot_ref snapshot_id);
  _ ← lift (ensure_safe_zfs_dataset target);
  _ ← run_ok "zfs" [lit "clone"; snapshot_id; target];
  get_dataset target.
End service.
End ZfsService.
