(* ===== verification/ZfsProofs.v ===== *)
(** * The ZFS service: what reaches the broker, and which disks it may destroy *)

From S2P Require Export Zfs.

(** ** Arguments the broker accepts *)

Definition WORD : string := "._-:/@=,%".

(** A short argument of safe characters. *)
Definition word (a : str) : Prop := chars_in WORD a ∧ (length a ≤ 4096)%nat.

Lemma alnum_not_control (alts : string) (c : char) :
  forallb (λ c, negb (is_control c)) (lit alts) = true → alnum_or alts c = true →
  is_control c = false.
Proof.
  rewrite forallb_Forall, Forall_forall. intros Ha. unfold alnum_or.
  rewrite orb_true_iff, char_in_spec. intros [H|H%Ha%negb_true_iff]; [|done].
  unfold is_ascii_alphanumeric, is_ascii_digit, is_ascii_uppercase, is_ascii_lowercase in H.
  rewrite !orb_true_iff, !in_range_spec in H. unfold is_control. rewrite orb_false_iff.
  unfold in_range. rewrite !andb_false_iff, !N.leb_gt. lia.
Qed.

Lemma word_arg (a : str) : word a → validate_exec_arg a = Ok tt.
Proof.
  intros [Hc Hl].
  assert (forallb is_ascii a = true) as Ha.
  { apply forallb_Forall. eapply Forall_impl; [exact Hc|]. intros c H. unfold is_ascii.
    apply N.ltb_lt. by apply (alnum_or_ascii WORD). }
  assert (existsb is_control a = false) as Hno.
  { apply existsb_false. eapply Forall_impl; [exact Hc|]. intros c.
    by apply alnum_not_control. }
  unfold validate_exec_arg, validate_arg.
  replace (contains_char 0 a) with false
    by (symmetry; apply contains_char_false; by eapply chars_in_not).
  rewrite len_ascii by done. rewrite (proj2 (N.ltb_ge _ _)) by lia. simpl. by rewrite Hno.
Qed.

Lemma word_app (a b : str) : chars_in WORD a → chars_in WORD b → (length a + length b ≤ 4096)%nat → word (a ++ b).
Proof. intros Ha Hb Hl. split; [by apply Forall_app|]. rewrite length_app. lia. Qed.

Lemma word_lit (s : string) :
  forallb (alnum_or WORD) (lit s) = true → (length (lit s) <=? 4096)%nat = true → word (lit s).
Proof. intros H Hl. split; [by apply forallb_Forall|by apply Nat.leb_le]. Qed.

Lemma no_slash_contains (p v : str) : ch "/" ∈ p → ch "/" ∉ v → contains p v = false ∧ ends_with p v = false.
Proof.
  intros Hp Hv. split; apply not_true_iff_false.
  - rewrite contains_spec. intros (a & b & ->). set_solver.
  - rewrite ends_with_spec. intros (r & ->). set_solver.
Qed.

Lemma value_safe (v : str) :
  chars_in "._-:@=,%" v → starts_with "-" v = false → safe_zfs_value v = true.
Proof.
  intros Hc Hs. unfold safe_zfs_value.
  assert (ch "/" ∉ v) as Hv by by eapply chars_in_not.
  destruct (no_slash_contains "/../" v) as [-> _]; [by vm_compute; left|done|].
  destruct (no_slash_contains "/.." v) as [_ ->]; [by vm_compute; left|done|].
  rewrite Hs. simpl. rewrite alnum_bytes by done.
  assert (existsb (λ c, is_control c || is_whitespace c) v = false) as ->.
  { apply existsb_false. eapply Forall_impl; [exact Hc|]. intros c H.
    rewrite (alnum_not_control "._-:@=,%" c), (not_whitespace_alnum "._-:@=,%" c) by done. done. }
  simpl. apply forallb_Forall. by apply (chars_in_weaken "._-:@=,%" WORD).
Qed.

(** *** The zfs argument loop, argument by argument *)

Definition FLAGS : list string := ["-H"; "-h"; "-p"; "-Hp"; "-r"; "-F"].
Definition VALUED : list string := ["-o"; "-t"; "-d"; "-V"].

Lemma not_option (a : str) (opts : list string) :
  forallb (λ o : string, starts_with "-" (lit o)) opts = true → starts_with "-" a = false → str_in a opts = false.
Proof.
  rewrite forallb_Forall, Forall_forall. intros Ho Ha. apply not_true_iff_false.
  rewrite str_in_spec. intros (o & Hin & ->). apply Ho in Hin. congruence.
Qed.

Lemma loop_flag c i a rest :
  str_in a FLAGS = true → zfs_args_loop c i (a :: rest) = zfs_args_loop c (i + 1) rest.
Proof. intros H. simpl. fold FLAGS. by rewrite H. Qed.

Lemma loop_value c i a v rest :
  str_in a FLAGS = false → str_in a VALUED = true → safe_zfs_value v = true →
  zfs_args_loop c i (a :: v :: rest) = zfs_args_loop c (i + 2) rest.
Proof. intros H1 H2 H3. simpl. fold FLAGS VALUED. by rewrite H1, H2, H3. Qed.

Lemma loop_name c i a rest :
  c ≠ lit "set" → starts_with "-" a = false →
  (if contains_char (ch "@") a then safe_snapshot_ref a else safe_dataset a) = true →
  zfs_args_loop c i (a :: rest) = zfs_args_loop c (i + 1) rest.
Proof.
  intros Hc Ha Hs. simpl. fold FLAGS VALUED.
  rewrite (not_option a FLAGS), (not_option a VALUED) by done.
  assert ((a =s? "-i") = false) as -> by (apply str_eqb_neq; by intros ->).
  rewrite andb_false_r, Ha. rewrite (proj2 (str_eqb_neq c "set")) by done. simpl.
  destruct (contains_char (ch "@") a); by rewrite Hs.
Qed.

Lemma dataset_word_args c i a rest :
  c ≠ lit "set" → safe_dataset a = true →
  zfs_args_loop c i (a :: rest) = zfs_args_loop c (i + 1) rest.
Proof.
  intros Hc Hs. pose proof (safe_dataset_name _ Hs) as (_ & _ & Ha).
  apply loop_name; [done|done|]. unfold safe_dataset in Hs. split_checks.
  replace (contains_char (ch "@") a) with false by (symmetry; by apply contains_char_false).
  unfold safe_dataset. by rewrite (proj2 (contains_char_false _ _)), H4, Ha, H2, H1, H0.
Qed.

Lemma zfs_accepts cmd rest :
  str_in cmd ZFS_SUBCOMMANDS = true → (length rest < 256)%nat → Forall word (cmd :: rest) →
  zfs_args_loop cmd 1 rest = Ok tt → validate_exec "zfs" (cmd :: rest) = Ok tt.
Proof.
  intros Hc Hl Hw Hloop. unfold validate_exec.
  change (program_path "zfs") with (Some (lit "/usr/sbin/zfs")). cbv iota beta.
  assert ((256 <? length (cmd :: rest))%nat = false) as -> by (apply Nat.ltb_ge; simpl; lia).
  assert (for_each validate_exec_arg (cmd :: rest) = Ok tt) as ->.
  { apply for_each_ok. eapply Forall_impl; [exact Hw|]. apply word_arg. }
  change (validate_exec_shape "zfs" (cmd :: rest) = Ok tt). unfold validate_exec_shape.
  assert (shape_allowed "zfs" (cmd :: rest) = str_in cmd ZFS_SUBCOMMANDS) as -> by done.
  rewrite Hc. exact Hloop.
Qed.

(** *** The words of the builders *)

Lemma dataset_chars (a : str) : safe_dataset a = true → chars_in WORD a.
Proof. intros (_ & Hc & _)%safe_dataset_name. by apply (chars_in_weaken "._-:/"). Qed.

Lemma snapshot_chars (a : str) : safe_snapshot_ref a = true → chars_in WORD a ∧ starts_with "-" a = false.
Proof.
  unfold safe_snapshot_ref. destruct (split_once (ch "@") a) as [[d n]|] eqn:E; [|done].
  apply split_once_Some in E as [-> _]. intros H. split_checks.
  pose proof (safe_dataset_name _ H) as (Hp & Hc & Hs). split.
  - apply Forall_app. split; [by apply dataset_chars|]. constructor; [done|].
    apply (chars_in_weaken "._-:"); [done|]. by apply chars_in_bytes.
  - destruct d as [|x d]; [by apply Forall_cons in Hp as [[? _] _]|].
    change (lit "-") with [45%N] in *. change ((x :: d) ++ ch "@" :: n) with (x :: (d ++ ch "@" :: n)).
    by rewrite starts_with_char in *.
Qed.

Lemma dec_word (n : N) (alts : string) :
  (n ≤ U64_MAX)%N → chars_in alts (dec n) ∧ (length (dec n) ≤ 20)%nat.
Proof.
  intros Hn. split.
  - eapply Forall_impl; [apply dec_digits|]. intros c Hc. unfold alnum_or, is_ascii_alphanumeric.
    by rewrite Hc.
  - apply (dec_length 19). eapply N.le_lt_trans; [exact Hn|]. reflexivity.
Qed.

(** Characters are judged by their lower-case form. *)
Lemma lower_alnum (x : char) : alnum_or "-" (to_ascii_lower x) = true → alnum_or "-" x = true.
Proof.
  unfold alnum_or, is_ascii_alphanumeric, is_ascii_digit, is_ascii_uppercase,
    is_ascii_lowercase, to_ascii_lower. unfold is_ascii_uppercase.
  destruct (in_range 65 90 x) eqn:E; [|by rewrite E]. intros _. by rewrite orb_true_r.
Qed.

Lemma lower_plus (c : str) : ch "+" ∉ c → ch "+" ∉ to_ascii_lowercase c.
Proof.
  intros Hp. unfold to_ascii_lowercase. intros (x & Hx & Hin)%list_elem_of_fmap.
  assert (x = ch "+"); [|congruence]. revert Hx. unfold to_ascii_lower.
  destruct (is_ascii_uppercase x) eqn:E; [|congruence].
  unfold is_ascii_uppercase in E. apply in_range_spec in E. vm_compute (ch "+"). lia.
Qed.

Lemma digits_chars (l : str) (a v : N) (alts : string) :
  digits_value a l = Some v → chars_in alts l.
Proof.
  revert a. induction l as [|d l IH]; intros a; [constructor|].
  simpl. destruct (is_ascii_digit d) eqn:Ed; [|done]. intros Hv. constructor; [|by eapply IH].
  unfold alnum_or, is_ascii_alphanumeric. by rewrite Ed.
Qed.

Lemma starts_with_app_head (x : char) (p l : str) :
  starts_with "-" (x :: p) = false → starts_with "-" ((x :: p) ++ l) = false.
Proof.
  change (lit "-") with [45%N]. change ((x :: p) ++ l) with (x :: (p ++ l)).
  by rewrite !starts_with_char.
Qed.

(** A prefix with a level. *)
Lemma numbered_chars (p : string) (max : N) (c : str) :
  forallb (alnum_or "-") (lit p) = true → starts_with "-" (lit p) = false → lit p ≠ [] →
  ch "+" ∉ c →
  match level ← strip_prefix (lit p) c; parse_uint U8_MAX level with
  | Some level => (1 <=? level)%N && (level <=? max)%N
  | None => false
  end = true →
  chars_in "-" c ∧ starts_with "-" c = false.
Proof.
  intros Hp1 Hp2 Hp3 Hc. destruct (strip_prefix (lit p) c) as [l|] eqn:E; [|done].
  apply strip_prefix_Some in E as ->. simpl. unfold parse_uint.
  destruct (strip_prefix "+" l) as [r|] eqn:El.
  { apply strip_prefix_Some in El as ->. destruct Hc. apply elem_of_app. right. by left. }
  destruct (is_empty l); [done|]. destruct (digits_value 0 l) as [v|] eqn:Ev; [|done]. intros _.
  split.
  - apply Forall_app. split; [by apply forallb_Forall|]. by eapply digits_chars.
  - destruct (lit p) as [|x q]; [done|]. by apply starts_with_app_head.
Qed.

Lemma compression_chars (c : str) :
  is_safe_compression c = true → ch "+" ∉ c → chars_in "-" c ∧ starts_with "-" c = false.
Proof.
  unfold is_safe_compression. intros H Hp%lower_plus.
  assert (chars_in "-" (to_ascii_lowercase c) ∧ starts_with "-" (to_ascii_lowercase c) = false)
    as [Hc Hs].
  { apply orb_true_iff in H as [H|H]; [apply orb_true_iff in H as [H|H]|].
    - apply str_in_spec in H as (a & Ha & ->).
      repeat (apply elem_of_cons in Ha as [->|Ha]; [split; [by apply forallb_Forall|done]|]).
      by apply not_elem_of_nil in Ha.
    - by apply (numbered_chars "gzip-" 9%N).
    - by apply (numbered_chars "zstd-" 16%N). }
  split.
  - unfold to_ascii_lowercase in Hc. apply Forall_fmap in Hc. eapply Forall_impl; [exact Hc|].
    intros x. apply lower_alnum.
  - destruct c as [|x c]; [done|]. change (lit "-") with [45%N] in *. simpl in Hs.
    rewrite starts_with_char in *. apply N.eqb_neq in Hs. apply N.eqb_neq. intros <-. by apply Hs.
Qed.

(** *** The commands *)

(** An option with a value, when there is one. *)
Definition valued (flag : string) (v : option str) : list str :=
  match v with Some w => [lit flag; w] | None => [] end.

Lemma valued_accepted (flag : string) (v : option str) :
  str_in flag FLAGS = false → str_in flag VALUED = true → word flag →
  (∀ w, v = Some w → word w ∧ safe_zfs_value w = true) →
  Forall word (valued flag v) ∧ (length (valued flag v) ≤ 2)%nat ∧
  ∃ k, ∀ c i rest, zfs_args_loop c i (valued flag v ++ rest) = zfs_args_loop c (i + k) rest.
Proof.
  intros H1 H2 H3 Hv. destruct v as [w|]; simpl.
  - destruct (Hv w eq_refl) as [Hw Hs]. split_and!; [by do 2 (constructor; [done|])|lia|].
    exists 2%nat. intros c i rest. by apply loop_value.
  - split_and!; [constructor|lia|]. exists 0%nat. intros c i rest. by rewrite Nat.add_0_r.
Qed.

Lemma compression_value (c : str) :
  is_safe_compression c = true → ch "+" ∉ c → (length c ≤ 1000)%nat →
  word ("compression=" ++ c) ∧ safe_zfs_value ("compression=" ++ c) = true.
Proof.
  intros Hc Hp Hl. destruct (compression_chars c Hc Hp) as [Hcc _].
  assert (chars_in "._-:@=,%" ("compression=" ++ c)) as Hv.
  { apply Forall_app. split; [by apply forallb_Forall|]. by apply (chars_in_weaken "-"). }
  split; [|by apply value_safe]. split; [by apply (chars_in_weaken "._-:@=,%")|].
  rewrite length_app. change (length (lit "compression=")) with 12%nat. lia.
Qed.

Lemma size_value (n : N) :
  (n ≤ U64_MAX)%N → word (dec n ++ "G") ∧ safe_zfs_value (dec n ++ "G") = true.
Proof.
  intros Hle. destruct (dec_word n "._-:@=,%" Hle) as [Hd Hdl].
  assert (chars_in "._-:@=,%" (dec n ++ "G")) as Hv
    by (apply Forall_app; split; [done|by apply forallb_Forall]).
  split; [split; [by apply (chars_in_weaken "._-:@=,%")|rewrite length_app; simpl; lia]|].
  apply value_safe; [done|]. destruct (dec_word n "" Hle) as [Hd' _].
  destruct (dec n) as [|x d]; [done|]. change (lit "-") with [45%N].
  change ((x :: d) ++ lit "G") with (x :: (d ++ lit "G")). rewrite starts_with_char.
  apply N.eqb_neq. intros <-. by apply Forall_cons in Hd' as [? _].
Qed.

Lemma create_dataset_args_valued (req : CreateDatasetRequest) :
  ZfsService.create_dataset_args req =
  lit "create" :: valued "-o" ((λ c, "compression=" ++ c) <$> cd_compression req)
  ++ valued "-V" (if bool_decide (cd_kind req = Volume)
                  then Some (dec (unwrap_or 0%N (cd_size_gib req)) ++ "G") else None)
  ++ [cd_name req].
Proof.
  unfold ZfsService.create_dataset_args, valued.
  by destruct (cd_compression req), (bool_decide (cd_kind req = Volume)).
Qed.

Lemma check_dataset_ok (req : CreateDatasetRequest) (pool : str) :
  ZfsService.check_dataset pool req = Ok tt →
  safe_dataset (cd_name req) = true ∧ ∀ c, cd_compression req = Some c → is_safe_compression c = true.
Proof.
  unfold ZfsService.check_dataset. intros H. apply bind_ok in H as (x & Hx & H).
  apply (f_equal is_ok) in Hx. rewrite dataset_ok_safe in Hx. split; [done|].
  intros c Hc. apply bind_ok in H as (y & _ & H). rewrite Hc in H.
  destruct (bool_decide (cd_kind req = Volume) && _); [done|].
  by destruct (is_safe_compression c).
Qed.

Lemma create_dataset_accepted (req : CreateDatasetRequest) (pool : str) :
  ZfsService.check_dataset pool req = Ok tt →
  (length (cd_name req) ≤ 4000)%nat →
  (∀ n, cd_size_gib req = Some n → (n ≤ U64_MAX)%N) →
  (∀ c, cd_compression req = Some c → (ch "+" ∉ c) ∧ (length c ≤ 1000)%nat) →
  validate_exec "zfs" (ZfsService.create_dataset_args req) = Ok tt.
Proof.
  intros [Hds Hsc]%check_dataset_ok Hn Hs Hcomp. rewrite create_dataset_args_valued.
  destruct (valued_accepted "-o" ((λ c, "compression=" ++ c) <$> cd_compression req))
    as (Hw1 & Hk1 & k1 & Hl1); [done|done|by apply word_lit| |].
  { intros w (c & Hc & ->)%fmap_Some. destruct (Hcomp c Hc). apply compression_value; auto. }
  destruct (valued_accepted "-V" (if bool_decide (cd_kind req = Volume)
      then Some (dec (unwrap_or 0%N (cd_size_gib req)) ++ "G") else None))
    as (Hw2 & Hk2 & k2 & Hl2); [done|done|by apply word_lit| |].
  { intros w Hw. destruct (bool_decide _); [|done]. injection Hw as <-. apply size_value.
    destruct (cd_size_gib req) as [n|]; simpl; [by apply Hs|done]. }
  apply zfs_accepts; [done| | |].
  - rewrite !length_app. cbn [length]. lia.
  - constructor; [by apply word_lit|]. apply Forall_app. split; [done|].
    apply Forall_app. split; [done|]. constructor; [|constructor].
    split; [by apply dataset_chars|lia].
  - rewrite Hl1, Hl2. by rewrite dataset_word_args.
Qed.

Lemma snapshot_of (dataset_id snapshot r : str) :
  safe_dataset dataset_id = true → ensure_safe_zfs_snapshot snapshot = Ok r →
  r = snapshot ∧ safe_snapshot_ref (dataset_id ++ "@" ++ snapshot) = true.
Proof.
  intros Hd Hs. unfold ensure_safe_zfs_snapshot in Hs. cbv zeta in Hs. apply if_ok_err in Hs as [Hs [= <-]].
  split; [done|].
  split_checks. unfold safe_snapshot_ref.
  assert (ch "@" ∉ dataset_id) as Hn.
  { unfold safe_dataset in Hd. split_checks. done. }
  rewrite (proj2 (split_once_Some (ch "@") (dataset_id ++ "@" ++ snapshot) dataset_id snapshot)) by done.
  rewrite Hd. rewrite <- (alnum_or_ext ".-_:" "._-:") by done.
  rewrite (proj2 (is_empty_false _)) by done. done.
Qed.

Lemma snapshot_arg c i a rest :
  c ≠ lit "set" → safe_snapshot_ref a = true →
  zfs_args_loop c i (a :: rest) = zfs_args_loop c (i + 1) rest.
Proof.
  intros Hc Hs. pose proof (snapshot_chars _ Hs) as [_ Ha]. apply loop_name; [done|done|].
  destruct (contains_char (ch "@") a) eqn:E; [done|]. apply contains_char_false in E.
  unfold safe_snapshot_ref in Hs. by rewrite (proj2 (split_once_None _ _)) in Hs.
Qed.

(** A dataset or a snapshot, not longer than a command line allows. *)
Definition zfs_name (a : str) : Prop :=
  (safe_dataset a = true ∨ safe_snapshot_ref a = true) ∧ (length a ≤ 4096)%nat.

Lemma zfs_name_word a : zfs_name a → word a.
Proof. intros [[H|H] Hl]; (split; [|done]); [by apply dataset_chars|by apply snapshot_chars]. Qed.

Lemma names_loop c i names :
  c ≠ lit "set" → Forall zfs_name names → zfs_args_loop c i names = Ok tt.
Proof.
  intros Hc Hn. revert i. induction Hn as [|a names [[H|H] _] _ IH]; intros i; [done| |].
  - by rewrite dataset_word_args.
  - by rewrite snapshot_arg.
Qed.

(** A subcommand, literal flags and valued options, then names. *)
Lemma zfs_names_accepted (cmd : string) (flags : list string) (names : list str) :
  str_in cmd ZFS_SUBCOMMANDS = true → lit cmd ≠ lit "set" →
  Forall (λ f : string, word f) (cmd :: flags) → (length flags + length names < 256)%nat →
  (∃ k, ∀ rest, zfs_args_loop cmd 1 (lits flags ++ rest) = zfs_args_loop cmd (1 + k) rest) →
  Forall zfs_name names →
  validate_exec "zfs" (lits (cmd :: flags) ++ names) = Ok tt.
Proof.
  intros Hc Hset Hf Hl [k Hk] Hn. change (lits (cmd :: flags) ++ names) with (lit cmd :: (lits flags ++ names)).
  apply Forall_cons in Hf as [Hcw Hf]. apply zfs_accepts; [done| | |].
  - rewrite length_app. unfold lits. by rewrite length_map.
  - constructor; [done|]. apply Forall_app. split.
    + unfold lits. by apply Forall_map.
    + eapply Forall_impl; [exact Hn|]. apply zfs_name_word.
  - rewrite Hk. by apply names_loop.
Qed.

Ltac words := repeat (constructor; [by apply word_lit|]); constructor.

Lemma list_accepted (names : list str) :
  Forall zfs_name names → (length names < 200)%nat →
  validate_exec "zfs" (lits ["list"; "-Hp"; "-o"; "name,used,avail,mountpoint,compression,type,creation"] ++ names)
    = Ok tt ∧
  validate_exec "zfs" (lits ["list"; "-t"; "snapshot"; "-Hp"; "-o"; "name,used,creation"] ++ names) = Ok tt.
Proof.
  intros Hn Hl. split; apply zfs_names_accepted; try done; try words; try (simpl; lia).
  - exists 3%nat. intros rest. done.
  - exists 5%nat. intros rest. done.
Qed.

Lemma snapshot_accepted (full : str) (r : bool) :
  zfs_name full →
  validate_exec "zfs" ([lit "snapshot"] ++ (if r then [lit "-r"] else []) ++ [full]) = Ok tt.
Proof.
  intros Hn.
  replace ([lit "snapshot"] ++ (if r then [lit "-r"] else []) ++ [full])
    with (lits ("snapshot" :: if r then ["-r"] else []) ++ [full]) by by destruct r.
  assert (Forall zfs_name [full]) as Hf by (by constructor).
  destruct r; apply zfs_names_accepted; try done; try (simpl; lia); try words;
    [exists 1%nat|exists 0%nat]; done.
Qed.

Lemma clone_accepted (a b : str) :
  zfs_name a → zfs_name b → validate_exec "zfs" [lit "clone"; a; b] = Ok tt.
Proof.
  intros Ha Hb. apply (zfs_names_accepted "clone" [] [a; b]); try done; [words|simpl; lia|by exists 0%nat|].
  by do 2 (constructor; [done|]).
Qed.

(** A disk as the kernel names it. *)
Definition kernel_name (n : str) : Prop :=
  n ≠ [] ∧ chars_in "._-" n ∧ starts_with "-" n = false ∧ (length n ≤ 255)%nat.

Lemma kernel_disk (n : str) :
  kernel_name n → safe_block_device ("/dev/" ++ n) = true ∧ word ("/dev/" ++ n).
Proof.
  intros (Hne & Hc & Hs & Hl). split.
  - unfold safe_block_device. rewrite strip_prefix_app, Hs, alnum_bytes by done.
    rewrite (proj2 (is_empty_false _)) by done.
    replace (contains_char (ch "/") n) with false
      by (symmetry; apply contains_char_false; by eapply chars_in_not).
    simpl. by apply forallb_Forall.
  - apply word_app; [by apply forallb_Forall|by apply (chars_in_weaken "._-")|].
    change (length (lit "/dev/")) with 5%nat. lia.
Qed.

Definition disk_path (p : str) : Prop := ∃ n, kernel_name n ∧ p = "/dev/" ++ n.

Lemma disk_path_not_layout p : disk_path p → str_in p ["mirror"; "raidz1"; "raidz2"; "raidz3"] = false.
Proof.
  intros (n & _ & ->). apply not_true_iff_false. rewrite str_in_spec. intros (a & Ha & E).
  repeat (apply elem_of_cons in Ha as [->|Ha]; [discriminate E|]). by apply not_elem_of_nil in Ha.
Qed.

Lemma pool_name_cli name :
  ensure_pool_name name = Ok tt → safe_cli_name name = true ∧ word name ∧ starts_with "-" name = false.
Proof.
  unfold ensure_pool_name. intros H. apply if_err_ok in H as [H _]. split_checks.
  rewrite alnum_bytes in H0 by done.
  assert (chars_in "._-" name) as Hc by (by apply forallb_Forall).
  assert (forallb is_ascii name = true) as Ha.
  { apply forallb_Forall. eapply Forall_impl; [exact Hc|]. intros c Hx. unfold is_ascii.
    apply N.ltb_lt. by apply (alnum_or_ascii "._-"). }
  match goal with H : (64 <? len name)%N = false |- _ => apply N.ltb_ge in H; rename H into Hlen end.
  split_and!; [|split; [by apply (chars_in_weaken "._-")|]|done].
  - unfold safe_cli_name. rewrite (proj2 (is_empty_false _)) by done.
    rewrite (proj2 (N.leb_le _ _)) by lia. rewrite alnum_bytes by done.
    match goal with H : starts_with _ name = false |- _ => rewrite H end. simpl.
    apply forallb_Forall. by apply (chars_in_weaken "._-").
  - rewrite len_ascii in Hlen by done. lia.
Qed.

Lemma zpool_create_args (f : bool) (name : str) (layout : option str) (paths : list str) :
  safe_cli_name name = true → starts_with "-" name = false →
  (∀ l, layout = Some l → str_in l ["mirror"; "raidz1"; "raidz2"; "raidz3"] = true) →
  paths ≠ [] → Forall disk_path paths →
  validate_zpool_args ([lit "create"] ++ (if f then [lit "-f"] else []) ++ [name]
    ++ (match layout with Some l => [l] | None => [] end) ++ paths) = Ok tt.
Proof.
  intros Hn Hs Hl Hne Hp.
  assert (for_each (λ device, if negb (safe_block_device device)
    then Err (lit "zpool device must be a /dev/<disk> path") else Ok tt) paths = Ok tt) as Hd.
  { apply for_each_ok. eapply Forall_impl; [exact Hp|]. intros p (n & Hk & ->).
    by rewrite (proj1 (kernel_disk n Hk)). }
  assert ((name =s? "-f") = false) as Hf by (apply str_eqb_neq; by intros ->).
  unfold validate_zpool_args. destruct f, layout as [l|]; simpl; rewrite ?Hf, Hn; cbn [negb];
    rewrite ?(Hl _ eq_refl); (destruct paths as [|p paths]; [done|]); try exact Hd;
    apply Forall_cons in Hp as [Hp1 _]; rewrite (disk_path_not_layout _ Hp1); exact Hd.
Qed.

Lemma create_pool_accepted (req : CreatePoolRequest) (paths : list str) :
  ensure_pool_name (cp_name req) = Ok tt → paths ≠ [] → (length paths ≤ 200)%nat →
  Forall disk_path paths → validate_exec "zpool" (ZfsService.create_pool_args req paths) = Ok tt.
Proof.
  intros (Hn & Hw & Hs)%pool_name_cli Hne Hl Hp. unfold validate_exec.
  change (program_path "zpool") with (Some (lit "/usr/sbin/zpool")). cbv iota beta.
  assert (Forall word (ZfsService.create_pool_args req paths)) as Hws.
  { unfold ZfsService.create_pool_args. repeat apply Forall_app_2.
    - constructor; [by apply word_lit|constructor].
    - destruct (cp_force req); [constructor; [by apply word_lit|]|]; constructor.
    - by constructor.
    - destruct (cp_layout req); simpl; try (constructor; [by apply word_lit|]); constructor.
    - eapply Forall_impl; [exact Hp|]. intros p (n & Hk & ->). by apply kernel_disk. }
  assert ((256 <? length (ZfsService.create_pool_args req paths))%nat = false) as ->.
  { apply Nat.ltb_ge. unfold ZfsService.create_pool_args. rewrite !length_app.
    destruct (cp_force req), (cp_layout req); simpl; lia. }
  assert (for_each validate_exec_arg (ZfsService.create_pool_args req paths) = Ok tt) as ->.
  { apply for_each_ok. eapply Forall_impl; [exact Hws|]. apply word_arg. }
  change (validate_exec_shape "zpool" (ZfsService.create_pool_args req paths) = Ok tt).
  unfold validate_exec_shape.
  assert (shape_allowed "zpool" (ZfsService.create_pool_args req paths) = true) as -> by done.
  apply zpool_create_args; try done. intros l. by destruct (cp_layout req); intros [= <-].
Qed.

(** The devices that [create_pool] passes on. *)
Lemma pool_paths_ok ds seen devices paths :
  ZfsService.pool_paths ds seen devices = Ok paths →
  paths = devices ∧ NoDup devices ∧ Forall (λ p, p ∉ seen) devices ∧
  Forall (λ p, ∃ d, d ∈ ds ∧ d_path d = p ∧ d_in_use d = false) devices.
Proof.
  revert seen paths. induction devices as [|p devices IH]; intros seen paths; simpl.
  { intros [= <-]. split_and!; constructor. }
  intros E. apply bind_ok in E as (d & Hd & E). apply ok_or_ok in Hd.
  apply List.find_some in Hd as [Hin%list_elem_of_In Hp%str_eqb_eq].
  destruct (bool_decide_reflect (p ∈ seen)) as [|Hseen]; [done|].
  destruct (d_in_use d) eqn:Eu; [done|]. apply bind_ok in E as (ps & E & [= <-]).
  apply IH in E as (-> & Hnd & Hns & Hf). split_and!.
  - by rewrite Hp.
  - constructor; [|done]. intros Hin'. eapply Forall_forall in Hns; [|exact Hin']. set_solver.
  - constructor; [done|]. eapply Forall_impl; [exact Hns|]. set_solver.
  - constructor; [|done]. by exists d.
Qed.

(** ** The broker in between changes nothing *)
Section transparent.
Context {H : Type} (exec : str → list str → Svc H (option str)).
Context (sys_block : H → option (list SysDisk * option str)) (proc_mounts : H → str → option str).
Context (rfc3339 : Z → option str) (default_pool : str).
Implicit Types h : H.

Definition same {A} (m m' : Svc H A) : Prop := ∀ h, m h = m' h.

Lemma same_refl {A} (m : Svc H A) : same m m.
Proof. done. Qed.
Lemma bind_same {A B} (m m' : Svc H A) (f f' : A → Svc H B) :
  same m m' → (∀ h h1 a, m' h = (h1, Ok a) → f a h1 = f' a h1) → same (mbind f m) (mbind f' m').
Proof.
  intros Hm Hf h. unfold mbind, svc_bind. rewrite Hm. destruct (m' h) as [h1 [a|e]] eqn:E; [|done].
  by apply (Hf h).
Qed.
Lemma dispatch_same (program : str) (args : list str) :
  validate_exec program args = Ok tt →
  same (Command.dispatch true exec program args) (Command.dispatch false exec program args).
Proof.
  intros Hv h. unfold Command.dispatch, mbind, svc_bind, lift. by rewrite Hv.
Qed.
Lemma run_same (program : str) (args : list str) :
  validate_exec program args = Ok tt →
  same (Command.run true exec program args) (Command.run false exec program args).
Proof. intros Hv. apply bind_same; [by apply dispatch_same|done]. Qed.
Lemma run_ok_same (program : str) (args : list str) :
  validate_exec program args = Ok tt →
  same (Command.run_ok true exec program args) (Command.run_ok false exec program args).
Proof. intros Hv. apply bind_same; [by apply run_same|done]. Qed.

Local Abbreviation disks b := (ZfsService.list_raw_disks b exec sys_block proc_mounts).

Lemma list_raw_disks_same : same (disks true) (disks false).
Proof.
  apply bind_same; [done|]. intros h h1 [[l broken]|] _; [|done].
  apply bind_same; [apply dispatch_same; by vm_compute|done].
Qed.

Lemma list_raw_disks_spec b h h' ds d :
  disks b h = (h', Ok ds) → d ∈ ds →
  ∃ l k, sys_block h = Some (l, None) ∧ k ∈ l ∧ d_path d = "/dev/" ++ b_name k.
Proof.
  unfold ZfsService.list_raw_disks, mbind, svc_bind, gets, mret, svc_ret.
  destruct (sys_block h) as [[l broken]|]; [|intros [= <- <-] Hd; by apply not_elem_of_nil in Hd].
  destruct (Command.run_optional _ _ _ _ h) as [h1 [st|e]]; [|done].
  destruct broken as [e|]; [done|].
  intros [= <- <-] Hd. rewrite elem_of_sort_by, list_elem_of_omap in Hd.
  destruct Hd as (k & Hk & E). exists l, k. split_and!; [done|done|].
  unfold raw_disk_of in E. destruct (_ || _); [done|]. by injection E as <-.
Qed.

Lemma raw_disk_same path :
  same (ZfsService.raw_disk true exec sys_block proc_mounts path)
       (ZfsService.raw_disk false exec sys_block proc_mounts path).
Proof. apply bind_same; [apply list_raw_disks_same|done]. Qed.

(** Every disk in sysfs has a name the kernel gives. *)
Definition kernel_disks : Prop := ∀ h l e k, sys_block h = Some (l, e) → k ∈ l → kernel_name (b_name k).

Lemma wipe_accepted p : disk_path p → validate_exec "wipefs" [lit "-a"; p] = Ok tt.
Proof.
  intros (n & Hk & ->). destruct (kernel_disk n Hk) as [Hd Hw]. unfold validate_exec.
  change (program_path "wipefs") with (Some (lit "/usr/sbin/wipefs")). cbv iota beta.
  cbn [length]. change (256 <? 2)%nat with false. cbv iota.
  assert (for_each validate_exec_arg [lit "-a"; "/dev/" ++ n] = Ok tt) as ->.
  { apply for_each_ok. constructor; [done|]. constructor; [by apply word_arg|constructor]. }
  change (validate_exec_args "wipefs" [lit "-a"; "/dev/" ++ n] = Ok tt).
  change (validate_wipefs_args [lit "-a"; "/dev/" ++ n] = Ok tt).
  unfold validate_wipefs_args. by rewrite Hd.
Qed.

Lemma raw_disk_kernel b path h h' d :
  kernel_disks → ZfsService.raw_disk b exec sys_block proc_mounts path h = (h', Ok d) → disk_path (d_path d).
Proof.
  intros Hk. unfold ZfsService.raw_disk, mbind, svc_bind, lift.
  destruct (disks b h) as [h1 [ds|e]] eqn:E; [|done]. intros [= <- Hd].
  apply ok_or_ok, List.find_some in Hd as [Hin%list_elem_of_In _].
  destruct (list_raw_disks_spec _ _ _ _ _ E Hin) as (l & k & Hl & Hkin & Hp).
  exists (b_name k). split; [by eapply Hk|done].
Qed.

Lemma wipe_same req :
  kernel_disks →
  same (ZfsService.wipe_disk true exec sys_block proc_mounts req)
       (ZfsService.wipe_disk false exec sys_block proc_mounts req).
Proof.
  intros Hk. apply bind_same; [apply raw_disk_same|]. intros h h1 d Hd.
  destruct (negb _); [done|]. destruct (d_in_use d); [done|].
  apply run_ok_same, wipe_accepted. by eapply raw_disk_kernel.
Qed.

Lemma bind_at {A B} (m m' : Svc H A) (f f' : A → Svc H B) h :
  m h = m' h → (∀ h1 a, m' h = (h1, Ok a) → f a h1 = f' a h1) →
  mbind f m h = mbind f' m' h.
Proof.
  intros Hm Hf. unfold mbind, svc_bind. rewrite Hm. destruct (m' h) as [h1 [a|e]] eqn:E; [|done].
  by apply Hf.
Qed.

Lemma list_pools_same : same (ZfsService.list_pools true exec) (ZfsService.list_pools false exec).
Proof. apply bind_same; [apply dispatch_same; by vm_compute|done]. Qed.

Lemma smart_accepted p : disk_path p → validate_exec "smartctl" [lit "-j"; lit "-a"; p] = Ok tt.
Proof.
  intros (n & Hk & ->). destruct (kernel_disk n Hk) as [Hd Hw]. unfold validate_exec.
  change (program_path "smartctl") with (Some (lit "/usr/sbin/smartctl")). cbv iota beta.
  cbn [length]. change (256 <? 3)%nat with false. cbv iota.
  assert (for_each validate_exec_arg [lit "-j"; lit "-a"; "/dev/" ++ n] = Ok tt) as ->.
  { apply for_each_ok. do 2 (constructor; [done|]). constructor; [by apply word_arg|constructor]. }
  change (validate_smartctl_args [lit "-j"; lit "-a"; "/dev/" ++ n] = Ok tt).
  unfold validate_smartctl_args. by rewrite Hd.
Qed.

Lemma smart_same {Json : Type} (from_str : str → result str Json) pointer as_bool as_i64 as_u64
    path now_ts :
  kernel_disks →
  same (ZfsService.smart_report true exec sys_block proc_mounts from_str pointer as_bool as_i64 as_u64
          path now_ts)
       (ZfsService.smart_report false exec sys_block proc_mounts from_str pointer as_bool as_i64 as_u64
          path now_ts).
Proof.
  intros Hk. apply bind_same; [apply raw_disk_same|]. intros h h1 d Hd.
  apply bind_same; [|done]. apply dispatch_same, smart_accepted. by eapply raw_disk_kernel.
Qed.

Lemma create_pool_same req :
  kernel_disks → (length (cp_devices req) ≤ 200)%nat →
  same (ZfsService.create_pool true exec sys_block proc_mounts req)
       (ZfsService.create_pool false exec sys_block proc_mounts req).
Proof.
  intros Hk Hlen h. apply bind_at; [done|]. intros h1 u [= _ Hn]. destruct u.
  cbv beta zeta. destruct (length (cp_devices req) <? min_devices (cp_layout req))%nat eqn:Emin; [done|].
  apply Nat.ltb_ge in Emin. apply bind_at; [apply list_raw_disks_same|].
  intros h2 ds Hds. apply bind_at; [done|]. intros h3 paths [= _ Hp].
  apply pool_paths_ok in Hp as (-> & _ & _ & Hf).
  apply bind_at; [|intros h4 u _; apply bind_at; [apply list_pools_same|done]].
  apply run_ok_same, create_pool_accepted; [done| |done|].
  - intros E. rewrite E in Emin. destruct (cp_layout req); simpl in Emin; lia.
  - eapply Forall_impl; [exact Hf|]. intros p (d & Hin & Hd & _).
    destruct (list_raw_disks_spec _ _ _ _ _ Hds Hin) as (l & k & Hl & Hkin & Hpk).
    exists (b_name k). split; [by eapply Hk|congruence].
Qed.

Lemma get_dataset_same name :
  safe_dataset name = true → (length name ≤ 4096)%nat →
  same (ZfsService.get_dataset true exec rfc3339 name) (ZfsService.get_dataset false exec rfc3339 name).
Proof.
  intros Hn Hl. apply bind_same; [|done]. apply run_same.
  apply (list_accepted [name]); [|simpl; lia]. constructor; [by split; [left|]|constructor].
Qed.

Lemma safe_dataset_of name r : ensure_safe_zfs_dataset name = Ok r → safe_dataset name = true.
Proof. intros Hr. rewrite <- dataset_ok_safe. by rewrite Hr. Qed.

(** A snapshot of a request, as its commands name it. *)
Lemma snapshot_name dataset_id raw r s :
  ensure_safe_zfs_dataset dataset_id = Ok r → ensure_safe_zfs_snapshot (trim raw) = Ok s →
  (length dataset_id + length (trim raw) ≤ 4000)%nat → zfs_name (dataset_id ++ "@" ++ s).
Proof.
  intros Hd%safe_dataset_of Hs Hl. destruct (snapshot_of _ _ _ Hd Hs) as [-> Hsafe].
  split; [by right|]. rewrite !length_app. change (length (lit "@")) with 1%nat. lia.
Qed.

Lemma create_snapshot_same dataset_id req :
  (length dataset_id + length (trim (cs_name req)) ≤ 4000)%nat →
  same (ZfsService.create_snapshot true exec rfc3339 dataset_id req)
       (ZfsService.create_snapshot false exec rfc3339 dataset_id req).
Proof.
  intros Hl h. apply bind_at; [done|]. intros h1 d [= _ Hd]. apply bind_at; [done|].
  intros h2 s [= _ Hs]. pose proof (snapshot_name _ _ _ _ Hd Hs Hl) as Hn.
  apply bind_at; [apply run_ok_same, snapshot_accepted, Hn|].
  intros h3 u _. apply bind_at; [|done]. apply run_same.
  apply (list_accepted [dataset_id ++ "@" ++ s]); [by constructor|simpl; lia].
Qed.

Lemma clone_same snapshot_id target :
  (length snapshot_id ≤ 4096)%nat → (length target ≤ 4096)%nat →
  same (ZfsService.clone_snapshot true exec rfc3339 snapshot_id target)
       (ZfsService.clone_snapshot false exec rfc3339 snapshot_id target).
Proof.
  intros H1 H2 h. apply bind_at; [done|]. intros h1 r [= _ Hr]. apply bind_at; [done|].
  intros h2 r' [= _ Hr']. apply snapshot_ref_safe in Hr as [_ Hr]. apply safe_dataset_of in Hr'.
  apply bind_at; [apply run_ok_same, clone_accepted; (split; [|done]); auto|].
  intros h3 u _. by apply get_dataset_same.
Qed.

(** A dataset request that fits a command line. *)
Definition modest (req : CreateDatasetRequest) : Prop :=
  (length (cd_name req) ≤ 4000)%nat ∧ (∀ n, cd_size_gib req = Some n → (n ≤ U64_MAX)%N) ∧
  (∀ c, cd_compression req = Some c → (ch "+" ∉ c) ∧ (length c ≤ 1000)%nat).

(** C4: the broker in between changes nothing for the ZFS service: on a host
    whose kernel gives its disks plain names of at most 255 characters, the
    listings, the SMART report, a wipe, a pool over at most 200 devices, a
    dataset, snapshot or clone with names of up to 4000 characters and, for a
    dataset, a compression level written without a plus sign (the service
    accepts [gzip-+5], the broker does not) behave the same with the broker
    configured as without it, whatever the host answers: every command they
    build from a request they accept passes the broker's validation. *)
Theorem broker_transparent :
  kernel_disks →
  same (ZfsService.list_pools true exec) (ZfsService.list_pools false exec) ∧
  same (disks true) (disks false) ∧
  same (ZfsService.list_datasets true exec rfc3339) (ZfsService.list_datasets false exec rfc3339) ∧
  (∀ req, same (ZfsService.wipe_disk true exec sys_block proc_mounts req)
               (ZfsService.wipe_disk false exec sys_block proc_mounts req)) ∧
  (∀ req, (length (cp_devices req) ≤ 200)%nat →
     same (ZfsService.create_pool true exec sys_block proc_mounts req)
          (ZfsService.create_pool false exec sys_block proc_mounts req)) ∧
  (∀ req, modest req →
     same (ZfsService.create_dataset true exec rfc3339 default_pool req)
          (ZfsService.create_dataset false exec rfc3339 default_pool req)) ∧
  (∀ id, (length id ≤ 4000)%nat → same (ZfsService.list_snapshots true exec rfc3339 id)
                                       (ZfsService.list_snapshots false exec rfc3339 id)) ∧
  (∀ id req, (length id + length (trim (cs_name req)) ≤ 4000)%nat →
     same (ZfsService.create_snapshot true exec rfc3339 id req)
          (ZfsService.create_snapshot false exec rfc3339 id req)) ∧
  (∀ id target, (length id ≤ 4000)%nat → (length target ≤ 4000)%nat →
     same (ZfsService.clone_snapshot true exec rfc3339 id target)
          (ZfsService.clone_snapshot false exec rfc3339 id target)) ∧
  (∀ Json (from_str : str → result str Json) pointer as_bool as_i64 as_u64 path now_ts,
     same (ZfsService.smart_report true exec sys_block proc_mounts from_str pointer as_bool as_i64
             as_u64 path now_ts)
          (ZfsService.smart_report false exec sys_block proc_mounts from_str pointer as_bool as_i64
             as_u64 path now_ts)).
Proof.
  intros Hk. split_and!.
  - apply list_pools_same.
  - apply list_raw_disks_same.
  - apply bind_same; [apply dispatch_same; by vm_compute|done].
  - intros req. by apply wipe_same.
  - intros req Hl. by apply create_pool_same.
  - intros req (H1 & H2 & H3) h. apply bind_at; [done|]. intros h1 u [= _ Hc]. destruct u.
    apply bind_at; [by eapply run_ok_same, create_dataset_accepted|].
    intros h2 u _. apply check_dataset_ok in Hc as [Hd _]. apply get_dataset_same; [done|lia].
  - intros id Hl h. apply bind_at; [done|]. intros h1 r [= _ Hr%safe_dataset_of].
    apply bind_at; [|done]. apply dispatch_same, (list_accepted [id]); [|simpl; lia].
    constructor; [|constructor]. split; [by left|lia].
  - intros id req Hl. by apply create_snapshot_same.
  - intros id target H1 H2. apply clone_same; lia.
  - intros. by apply smart_same.
Qed.

(** *** Which disks may be destroyed *)


(** The scan misses mounted partitions of disks whose name ends in a digit:
    a partition of such a disk is named with a [p] before its number, which the
    test for digits after the disk's name rejects, so with [nvme0n1p1] mounted
    and no holder [nvme0n1] is listed as not in use, and wiping it goes ahead. *)
Theorem nvme_partition_missed b h size model serial rot text :
  sys_block h = Some ([mkSys "nvme0n1" false size model serial rot false], None) →
  mounted_device_names (Some text) = [lit "nvme0n1p1"] →
  (∀ h, proc_mounts h (lit "nvme0n1") = Some text) →
  (∀ h, exec "zpool" (lits ["status"; "-P"; "-L"]) h = (h, Ok None)) →
  ZfsService.wipe_disk b exec sys_block proc_mounts (mkWipe "/dev/nvme0n1" "/dev/nvme0n1") h =
  Command.run_ok b exec "wipefs" (lits ["-a"; "/dev/nvme0n1"]) h.
Proof.
  intros Hs Hm Hp Hz. unfold ZfsService.wipe_disk, ZfsService.raw_disk, ZfsService.list_raw_disks.
  unfold mbind at 1 2 3, svc_bind at 1 2 3, gets at 1. rewrite Hs.
  unfold Command.run_optional, Command.dispatch.
  assert (validate_exec "zpool" (lits ["status"; "-P"; "-L"]) = Ok tt) as Hv by (by vm_compute).
  unfold mbind at 1 2 3, svc_bind at 1 2 3, lift at 1.
  change (Command.validate_program "zpool") with (Ok (E:=AppError) (lit "/usr/sbin/zpool")). cbv iota beta.
  assert ((if b then
      mbind (λ _ : unit, exec "zpool" (lits ["status"; "-P"; "-L"]))
        (lift (map_err Command.broker_refusal
                (validate_exec "zpool" (lits ["status"; "-P"; "-L"]))))
    else exec "zpool" (lits ["status"; "-P"; "-L"])) h = (h, Ok None)) as ->.
  { destruct b; [|apply Hz]. unfold mbind, svc_bind, lift. rewrite Hv. apply Hz. }
  unfold gets, mret, svc_ret. cbn [omap list_omap b_name]. rewrite Hp, Hm. cbv beta iota zeta.
  reflexivity.
Qed.
End transparent.

(** ** A concrete host

    Commands are logged and print nothing, [zpool] is not installed; one NVMe
    disk with a mounted partition and one unused disk. *)

Definition toy_exec (program : str) (args : list str) : Svc (list (list str)) (option str) :=
  λ log, if program =s? "zpool" then (log, Ok None) else ((program :: args) :: log, Ok (Some [])).
Definition toy_sys (log : list (list str)) : option (list SysDisk * option str) :=
  Some ([mkSys "nvme0n1" false (Some (lit "1000")) None None None false], None).
Definition toy_mounts : str := "/dev/nvme0n1p1 / ext4 rw 0 0".

Lemma toy_kernel : kernel_disks toy_sys.
Proof.
  intros h l e k [= <- _] [->|[]%not_elem_of_nil]%elem_of_cons.
  split_and!; [done|by apply forallb_Forall|done|]. simpl. vm_compute. lia.
Qed.

Lemma broker_transparent_witness :
  ZfsService.create_dataset true toy_exec (λ _, None) "tank"
    (mkCreateDataset "tank/vm" Volume (Some 8%N) (Some (lit "zstd-3"))) [] =
  ZfsService.create_dataset false toy_exec (λ _, None) "tank"
    (mkCreateDataset "tank/vm" Volume (Some 8%N) (Some (lit "zstd-3"))) [].
Proof.
  destruct (broker_transparent toy_exec toy_sys (λ _ _, Some toy_mounts) (λ _, None) "tank" toy_kernel)
    as (_ & _ & _ & _ & _ & H & _).
  apply H. split_and!.
  - apply Nat.leb_le. by vm_compute.
  - intros n [= <-]. unfold U64_MAX. lia.
  - intros c [= <-]. split; [by apply contains_char_false; vm_compute|].
    apply Nat.leb_le. by vm_compute.
Defined.


Lemma nvme_partition_missed_witness :
  (ZfsService.wipe_disk true toy_exec toy_sys (λ _ _, Some toy_mounts)
     (mkWipe "/dev/nvme0n1" "/dev/nvme0n1") []).1 = [lits ["wipefs"; "-a"; "/dev/nvme0n1"]].
Proof.
  rewrite (nvme_partition_missed toy_exec toy_sys (λ _ _, Some toy_mounts) true []
    (Some (lit "1000")) None None None toy_mounts eq_refl ltac:(by vm_compute)
    ltac:(done) ltac:(done)).
  by vm_compute.
Defined.

(** ** SMART *)

(** A pointer of [serde_json] is empty or starts with a slash (RFC 6901); any other
    resolves to nothing.  The report names its values with dots, so whatever [smartctl]
    prints, it says that the disk is supported and knows nothing of its health. *)
Lemma smart_report_blind {Json : Type} (pointer : str → Json → option Json)
    (as_bool : Json → option bool) (as_i64 : Json → option Z) (as_u64 : Json → option N) path now value :
  (∀ p v, p ≠ [] → starts_with "/" p = false → pointer p v = None) →
  ZfsService.smart_fields pointer as_bool as_i64 as_u64 path now value =
    mkSmart path true None None None None now.
Proof. intros Hp. unfold ZfsService.smart_fields. by rewrite !Hp. Qed.
