(* ===== verification/Notification.v ===== *)
(** * Notification channels (src/src/services/notification.rs)

    Channels are records; [notify] starts one detached delivery for each channel
    subscribed to the event, and a delivery sends an e-mail or posts a webhook.
    The state keeps the deliveries that were started; [deliver] is what one does.
    The mail and HTTP libraries, JSON and HMAC-SHA256 are parameters. *)

From S2P Require Export Cache.

Inductive NotificationEvent :=
  | BackupSucceeded | BackupFailed | PowerActionFailed | SnapshotFailed | ThresholdBreached | Test.
#[export] Instance NotificationEvent_eq_dec : EqDecision NotificationEvent.
Proof. solve_decision. Defined.
Inductive NotificationChannelKind := Email | Webhook.
Record EmailSettings := mkEmail {
  em_smtp_host : str; em_smtp_port : N; em_starttls : bool; em_smtp_username : option str;
  em_from_address : str; em_to_addresses : list str }.
Record WebhookSettings := mkWebhook { wh_url : str }.

Record StoredChannel := mkChannel {
  nc_id : str; nc_name : str; nc_kind : NotificationChannelKind; nc_enabled : bool;
  nc_events : list NotificationEvent; nc_email : option EmailSettings; nc_webhook : option WebhookSettings;
  nc_secret : option str; nc_created_at : str; nc_updated_at : option str }.
Record NotificationChannel := mkChannelView {
  nv_id : str; nv_name : str; nv_kind : NotificationChannelKind; nv_enabled : bool;
  nv_events : list NotificationEvent; nv_email : option EmailSettings; nv_webhook : option WebhookSettings;
  nv_has_secret : bool; nv_created_at : str; nv_updated_at : option str }.
Record CreateNotificationChannelRequest := mkCreateChannel {
  nr_name : str; nr_kind : NotificationChannelKind; nr_enabled : bool; nr_events : list NotificationEvent;
  nr_email : option EmailSettings; nr_webhook : option WebhookSettings; nr_secret : option str }.
Record UpdateNotificationChannelRequest := mkUpdateChannel {
  nu_name : option str; nu_enabled : option bool; nu_events : option (list NotificationEvent);
  nu_email : option EmailSettings; nu_webhook : option WebhookSettings; nu_secret : option str }.

(** [StoredChannel::view]. *)
Definition view (c : StoredChannel) : NotificationChannel :=
  mkChannelView (nc_id c) (nc_name c) (nc_kind c) (nc_enabled c) (nc_events c) (nc_email c) (nc_webhook c)
    (bool_decide (is_Some (nc_secret c))) (nc_created_at c) (nc_updated_at c).

Definition validate_transport (kind : NotificationChannelKind) (email : option EmailSettings)
    (webhook : option WebhookSettings) : ApiResult unit :=
  match kind with
  | Email =>
      email ← ok_or (validation "email channel requires email settings") email;
      if is_empty (trim (em_smtp_host email)) then Err (validation "smtp_host is required")
      else if is_empty (trim (em_from_address email)) then Err (validation "from_address is required")
      else if forallb (λ a, is_empty (trim a)) (em_to_addresses email) then
        Err (validation "at least one recipient is required")
      else Ok tt
  | Webhook =>
      webhook ← ok_or (validation "webhook channel requires webhook settings") webhook;
      let url := trim (wh_url webhook) in
      if negb (starts_with "http://" url || starts_with "https://" url) then
        Err (validation "webhook url must be http(s)")
      else Ok tt
  end.

Definition dedup_step (out : list NotificationEvent) (e : NotificationEvent) : list NotificationEvent :=
  if bool_decide (e ∈ out) then out else out ++ [e].
Definition dedup_events (events : list NotificationEvent) : list NotificationEvent :=
  foldl dedup_step [] events.

Definition normalize_secret (secret : option str) : option str :=
  s ← secret; if is_empty s then None else Some s.

Definition hex_byte (b : N) : str := [hex_digit (b / 16); hex_digit (b mod 16)].
Definition hex_encode (bytes : list N) : str := flat_map hex_byte bytes.

(** A delivery: what the task of [notify] runs. *)
Record Delivery := mkDelivery {
  dl_channel : StoredChannel; dl_event : NotificationEvent; dl_subject : str; dl_body : str }.

Module NotificationService.
Section service.
Context `{RS : RecordStore StoredChannel} {H Mailbox : Type}.
(** A mailbox of an address, sending an e-mail (host, port, STARTTLS, credentials,
    sender, recipients, subject, body), posting a body with headers (the answer is
    the HTTP status), how a status prints, the JSON document of an event, the signature, [now_ts]. *)
Context (parse_mailbox : str → result str Mailbox)
  (send_email : EmailSettings → option (str * str) → Mailbox → list Mailbox → str → str → H → H * result str unit)
  (http_post : str → list (str * str) → list N → H → H * result str N)
  (status_text : N → str) (json_payload : NotificationEvent → str → str → str → list N)
  (hmac_sha256 : list N → list N → list N) (now : str).

Record state := mkState { store : rstate (RecordStore:=RS); spawned : Datatypes.list Delivery; host : H }.
Definition on_store {A} (m : Svc _ A) : Svc state A := λ s,
  let '(x, r) := m (store s) in (mkState x (spawned s) (host s), r).
Definition spawn (d : Delivery) : Svc state unit :=
  modify (λ s, mkState (store s) (spawned s ++ [d]) (host s)).

Definition stored : Svc state (Datatypes.list StoredChannel) :=
  channels ← on_store store_list;
  mret (sort_by (λ a b, str_cmp (nc_name a) (nc_name b)) channels).
Definition list : Svc state (Datatypes.list NotificationChannel) :=
  channels ← stored; mret (map view channels).
Definition get_stored (id : str) : Svc state StoredChannel :=
  found ← on_store (store_get id);
  lift (ok_or (not_found ("notification channel " ++ id)) found).
Definition get (id : str) : Svc state NotificationChannel :=
  c ← get_stored id; mret (view c).

Definition create (req : CreateNotificationChannelRequest) (new_id : str) : Svc state NotificationChannel :=
  let name := trim (nr_name req) in
  if is_empty name then fail (validation "channel name is required")
  else
    _ ← lift (validate_transport (nr_kind req) (nr_email req) (nr_webhook req));
    let channel := mkChannel new_id name (nr_kind req) (nr_enabled req) (dedup_events (nr_events req))
      (nr_email req) (nr_webhook req) (normalize_secret (nr_secret req)) now None in
    _ ← on_store (store_put (nc_id channel) channel);
    mret (view channel).

Definition updated (req : UpdateNotificationChannelRequest) (c : StoredChannel) : ApiResult StoredChannel :=
  name ← (match nu_name req with
          | Some name => if is_empty (trim name) then Err (validation "channel name is required")
                         else Ok (trim name)
          | None => Ok (nc_name c) end);
  let c := mkChannel (nc_id c) name (nc_kind c) (default (nc_enabled c) (nu_enabled req))
    (match nu_events req with Some events => dedup_events events | None => nc_events c end)
    (match nu_email req with Some e => Some e | None => nc_email c end)
    (match nu_webhook req with Some w => Some w | None => nc_webhook c end)
    (match nu_secret req with Some s => normalize_secret (Some s) | None => nc_secret c end)
    (nc_created_at c) (nc_updated_at c) in
  _ ← validate_transport (nc_kind c) (nc_email c) (nc_webhook c);
  Ok (mkChannel (nc_id c) (nc_name c) (nc_kind c) (nc_enabled c) (nc_events c) (nc_email c) (nc_webhook c)
        (nc_secret c) (nc_created_at c) (Some now)).
Definition update (id : str) (req : UpdateNotificationChannelRequest) : Svc state NotificationChannel :=
  c ← get_stored id;
  c ← lift (updated req c);
  _ ← on_store (store_put (nc_id c) c);
  mret (view c).

Definition delete (id : str) : Svc state bool := on_store (store_delete id).

(** ** Delivery *)

Fixpoint parse_recipients (addresses : Datatypes.list str) : ApiResult (Datatypes.list Mailbox) :=
  match addresses with
  | [] => Ok []
  | to :: addresses =>
      m ← map_err (λ e, validation ("invalid recipient " ++ debug_str to ++ ": " ++ e)) (parse_mailbox to);
      ms ← parse_recipients addresses;
      Ok (m :: ms)
  end.

Definition transport {A} (m : H → H * result str A) (context : str) : Svc H A := λ h,
  let '(h, r) := m h in (h, map_err (λ e, internal (context ++ ": " ++ e)) r).
Definition deliver_email (settings : EmailSettings) (password : option str) (subject body : str) :
    Svc H unit :=
  from ← lift (map_err (λ e, validation ("invalid from_address: " ++ e)) (parse_mailbox (em_from_address settings)));
  to ← lift (parse_recipients (List.filter (λ a, negb (is_empty (trim a))) (em_to_addresses settings)));
  let credentials := match em_smtp_username settings, password with
                     | Some username, Some password => Some (username, password)
                     | _, _ => None end in
  transport (send_email settings credentials from to subject body) "send email".

Definition signature_header (secret : option str) (payload : Datatypes.list N) : Datatypes.list (str * str) :=
  match secret with
  | Some secret => [(lit "x-daygleve-signature", "sha256=" ++ hex_encode (hmac_sha256 (bytes secret) payload))]
  | None => []
  end.
Definition deliver_webhook (settings : WebhookSettings) (secret : option str) (event : NotificationEvent)
    (subject body : str) : Svc H unit :=
  let payload := json_payload event subject body now in
  let headers := (lit "content-type", lit "application/json") :: signature_header secret payload in
  status ← transport (http_post (trim (wh_url settings)) headers payload) "webhook request failed";
  if negb ((200 <=? status)%N && (status <? 300)%N) then
    fail (internal ("webhook returned status " ++ status_text status))
  else mret tt.

Definition deliver (d : Delivery) : Svc H unit :=
  let channel := dl_channel d in
  match nc_kind channel with
  | Email =>
      settings ← lift (ok_or (validation "email channel missing settings") (nc_email channel));
      deliver_email settings (nc_secret channel) (dl_subject d) (dl_body d)
  | Webhook =>
      settings ← lift (ok_or (validation "webhook channel missing settings") (nc_webhook channel));
      deliver_webhook settings (nc_secret channel) (dl_event d) (dl_subject d) (dl_body d)
  end.

Definition on_host {A} (m : Svc H A) : Svc state A := λ s,
  let '(h, r) := m (host s) in (mkState (store s) (spawned s) h, r).
Definition send_test (id : str) : Svc state unit :=
  channel ← get_stored id;
  on_host (deliver (mkDelivery channel Test "DaygleVE test notification"
    "This is a test notification from DaygleVE. If you received it, the channel works.")).

(** The loop of [notify]. *)
Fixpoint notify_loop (event : NotificationEvent) (subject body : str) (channels : Datatypes.list StoredChannel) :
    Svc state unit :=
  match channels with
  | [] => mret tt
  | channel :: channels =>
      _ ← (if negb (nc_enabled channel) || negb (bool_decide (event ∈ nc_events channel)) then mret tt
           else spawn (mkDelivery channel event subject body));
      notify_loop event subject body channels
  end.
Definition notify (event : NotificationEvent) (subject body : str) : Svc state unit :=
  channels ← attempt stored;
  match channels with
  | Ok channels => notify_loop event subject body channels
  | Err _ => mret tt
  end.
End service.
End NotificationService.

(** * Channels: what is kept about them and who gets an event *)

Lemma elem_of_dedup_loop out events e : e ∈ foldl dedup_step out events ↔ e ∈ out ∨ e ∈ events.
Proof.
  revert out. induction events as [|x events IH]; intros out; simpl; [set_solver|].
  rewrite IH. unfold dedup_step. case_bool_decide; set_solver.
Qed.
Lemma dedup_loop_nodup out events : NoDup out → NoDup (foldl dedup_step out events).
Proof.
  revert out. induction events as [|x events IH]; intros out Ho; simpl; [done|]. apply IH.
  unfold dedup_step. case_bool_decide; [done|]. apply NoDup_app. split; [done|]. split; [|apply NoDup_singleton].
  set_solver.
Qed.
Lemma elem_of_dedup events e : e ∈ dedup_events events ↔ e ∈ events.
Proof. unfold dedup_events. rewrite elem_of_dedup_loop. set_solver. Qed.
Lemma dedup_nodup events : NoDup (dedup_events events).
Proof. apply dedup_loop_nodup, NoDup_nil_2. Qed.

(** A channel as the service keeps it. *)
Definition channel_ok (c : StoredChannel) : Prop :=
  nc_name c ≠ [] ∧ NoDup (nc_events c) ∧ validate_transport (nc_kind c) (nc_email c) (nc_webhook c) = Ok tt.

(** The requests of the API. *)
Inductive channel_request :=
  | CreateChannel (req : CreateNotificationChannelRequest) (new_id : str)
  | UpdateChannel (id : str) (req : UpdateNotificationChannelRequest)
  | DeleteChannel (id : str)
  | ReadChannels
  | ReadChannel (id : str).

Section service.
Context `{RS : RecordStore StoredChannel} {H Mailbox : Type}.
Context (parse_mailbox : str → result str Mailbox)
  (send_email : EmailSettings → option (str * str) → Mailbox → list Mailbox → str → str → H → H * result str unit)
  (http_post : str → list (str * str) → list N → H → H * result str N) (status_text : N → str)
  (json_payload : NotificationEvent → str → str → str → list N)
  (hmac_sha256 : list N → list N → list N) (now : str).
Local Abbreviation state := (NotificationService.state (RS:=RS) (H:=H)).
Local Abbreviation deliver := (NotificationService.deliver (H:=H) parse_mailbox send_email http_post status_text
  json_payload hmac_sha256 now).

Definition channels_ok (s : state) : Prop :=
  ∀ id c, record (NotificationService.store s) id = Some c → channel_ok c.

Definition answer_channel (r : channel_request) : Svc state unit :=
  match r with
  | CreateChannel req new_id => _ ← NotificationService.create now req new_id; mret tt
  | UpdateChannel id req => _ ← NotificationService.update now id req; mret tt
  | DeleteChannel id => _ ← NotificationService.delete id; mret tt
  | ReadChannels => _ ← NotificationService.list; mret tt
  | ReadChannel id => _ ← NotificationService.get id; mret tt
  end.

Lemma put_channel_ok id c (s s' : state) r : channel_ok c →
  NotificationService.on_store (store_put id c) s = (s', r) → channels_ok s → channels_ok s'.
Proof.
  intros Hc. unfold NotificationService.on_store. destruct (store_put id c _) as [d x] eqn:E.
  intros [= <- _] Hs k c' Hk. simpl in Hk. destruct x as [[]|e].
  - rewrite (put_ok _ _ _ _ E) in Hk. case_decide; [by injection Hk as <-|by eapply Hs].
  - rewrite (put_err _ _ _ _ _ E) in Hk. by eapply Hs.
Qed.
Lemma get_stored_keeps id (s s' : state) r : NotificationService.get_stored id s = (s', r) → channels_ok s →
  channels_ok s' ∧ ∀ c, r = Ok c → channel_ok c.
Proof.
  unfold NotificationService.get_stored, mbind, svc_bind, NotificationService.on_store.
  destruct (store_get id _) as [d [o|e]] eqn:E; intros [= <- <-] Hs.
  - split; [intros k c Hk; simpl in Hk; rewrite (get_keeps _ _ _ _ E) in Hk; by eapply Hs|].
    intros c ->%ok_or_ok. eapply Hs. symmetry. by eapply get_ok.
  - split; [|done]. intros k c Hk. simpl in Hk. rewrite (get_keeps _ _ _ _ E) in Hk. by eapply Hs.
Qed.
Lemma stored_keeps (s s' : state) r : NotificationService.stored s = (s', r) →
  (∀ k, record (NotificationService.store s') k = record (NotificationService.store s) k) ∧
  NotificationService.spawned s' = NotificationService.spawned s.
Proof.
  unfold NotificationService.stored, mbind, svc_bind, NotificationService.on_store.
  destruct (store_list _) as [d [o|e]] eqn:E; intros [= <- <-]; simpl; split; try done;
    intros k; by rewrite (list_keeps _ _ _ E).
Qed.

Lemma updated_ok req c c' : channel_ok c → NotificationService.updated now req c = Ok c' → channel_ok c'.
Proof.
  intros (Hn & He & _). unfold NotificationService.updated. intros E.
  apply bind_ok in E as (name & Hname & E). cbv zeta in E. apply bind_ok in E as ([] & Hv & [= <-]).
  assert (name ≠ []) as Hne.
  { destruct (nu_name req) as [n|]; [|by injection Hname as <-].
    destruct (trim n) as [|x l] eqn:En; [done|]. by injection Hname as <-. }
  split; [done|]. split; [|done]. simpl. destruct (nu_events req); [apply dedup_nodup|done].
Qed.

Lemma keeps_put id c : channel_ok c → keeps channels_ok (NotificationService.on_store (H:=H) (store_put id c)).
Proof. intros Hc s s' r. by apply put_channel_ok. Qed.
Lemma keeps_lift_bind {A B} (r : ApiResult A) (f : A → Svc state B) :
  (∀ a, r = Ok a → keeps channels_ok (f a)) → keeps channels_ok (mbind f (lift r)).
Proof.
  intros Hf s s' x. unfold mbind, svc_bind, lift. destruct r as [a|e]; [by apply Hf|by intros [= <- _]].
Qed.
Lemma keeps_get_bind {B} id (f : StoredChannel → Svc state B) :
  (∀ c, channel_ok c → keeps channels_ok (f c)) → keeps channels_ok (mbind f (NotificationService.get_stored id)).
Proof.
  intros Hf s s' x. unfold mbind, svc_bind. destruct (NotificationService.get_stored id s) as [s1 [c|e]] eqn:E.
  - intros E' Hs. destruct (get_stored_keeps _ _ _ _ E Hs) as [H1 Hc]. by eapply Hf; [apply Hc| |].
  - intros [= <- _] Hs. by eapply get_stored_keeps.
Qed.

Lemma answer_keeps r : keeps channels_ok (answer_channel r).
Proof.
  destruct r as [req new_id|id req|id| |id]; simpl; (apply keeps_bind; [|intros; apply keeps_ret]).
  - unfold NotificationService.create. cbv zeta. destruct (trim (nr_name req)) as [|c0 nm] eqn:En; [apply keeps_fail|].
    simpl is_empty. cbv match. apply keeps_lift_bind. intros [] Hv.
    apply keeps_bind; [|intros; apply keeps_ret]. apply keeps_put. split; [done|]. split; [apply dedup_nodup|done].
  - apply keeps_get_bind. intros c Hc. apply keeps_lift_bind. intros c' Hc'.
    apply keeps_bind; [|intros; apply keeps_ret]. apply keeps_put. by eapply updated_ok.
  - intros s s' x. unfold NotificationService.delete, NotificationService.on_store.
    destruct (store_delete id _) as [d y] eqn:Ed. intros [= <- _] Hs k c Hk. simpl in Hk. destruct y as [b|e].
    + rewrite (delete_ok _ _ _ _ Ed) in Hk. case_decide; [done|by eapply Hs].
    + rewrite (delete_err _ _ _ _ Ed) in Hk. by eapply Hs.
  - apply keeps_bind; [|intros; apply keeps_ret]. intros s s' x E Hs k c Hk.
    destruct (stored_keeps _ _ _ E) as [H1 _]. rewrite H1 in Hk. by eapply Hs.
  - apply keeps_get_bind. intros; apply keeps_ret.
Qed.

Lemma notify_loop_ok event subject body channels (s : state) :
  NotificationService.notify_loop event subject body channels s
  = (NotificationService.mkState (NotificationService.store s)
       (NotificationService.spawned s ++
        map (λ c, mkDelivery c event subject body)
          (List.filter (λ c, nc_enabled c && bool_decide (event ∈ nc_events c)) channels))
       (NotificationService.host s), Ok tt).
Proof.
  revert s. induction channels as [|c cs IH]; intros s.
  - simpl. rewrite app_nil_r. by destruct s.
  - cbn [NotificationService.notify_loop List.filter]. rewrite <- negb_andb.
    destruct (nc_enabled c && _); cbn [negb]; unfold mbind, svc_bind at 1; simpl.
    + rewrite IH. simpl. by rewrite <- app_assoc.
    + apply IH.
Qed.

(** A delivery of a sound channel gets to its transport. *)
Definition missing_settings (e : AppError) : Prop :=
  e = validation "email channel missing settings" ∨ e = validation "webhook channel missing settings".
Lemma deliver_has_settings c event subject body h :
  channel_ok c → (nc_kind c = Email → ∃ e, nc_email c = Some e ∧ em_to_addresses e ≠ []) ∧
    (nc_kind c = Webhook → ∃ w, nc_webhook c = Some w ∧
       deliver (mkDelivery c event subject body) h
       = NotificationService.deliver_webhook http_post status_text json_payload hmac_sha256 now w (nc_secret c)
           event subject body h).
Proof.
  intros (_ & _ & Hv). unfold NotificationService.deliver. simpl.
  split; intros Hk; rewrite Hk in *; simpl in Hv; apply bind_ok in Hv as (x & Hx%ok_or_ok & Hv); exists x.
  - split; [done|]. intros He. rewrite He in Hv. simpl in Hv.
    repeat (destruct (is_empty (trim _)); [done|]). done.
  - rewrite Hx. done.
Qed.

(** Who gets an event. Every request keeps the channels sound: named, no event
    twice, and with the settings of their kind. On such channels [notify] starts one
    delivery for each enabled channel that has the event, in the order of the names
    and for no other; it never fails, not even when the channels cannot be read; and
    a delivery finds the settings of its channel: a webhook is posted to, an e-mail
    has a recipient. *)
Theorem notify_reaches_subscribers : 
  (∀ r s s' x, answer_channel r s = (s', x) → channels_ok s → channels_ok s') ∧
  ∀ event subject body s s' x, NotificationService.notify event subject body s = (s', x) → channels_ok s →
    x = Ok tt ∧ ∃ cs, NotificationService.spawned s'
      = NotificationService.spawned s ++ map (λ c, mkDelivery c event subject body) cs ∧
    (∀ s1 all, NotificationService.stored s = (s1, Ok all) → 
      cs = List.filter (λ c, nc_enabled c && bool_decide (event ∈ nc_events c)) all) ∧
    ∀ c, c ∈ cs → (∃ id, record (NotificationService.store s) id = Some c) ∧
      nc_enabled c = true ∧ event ∈ nc_events c ∧
      (nc_kind c = Email → ∃ e, nc_email c = Some e ∧ em_to_addresses e ≠ []) ∧
      (nc_kind c = Webhook → ∃ w, nc_webhook c = Some w ∧ ∀ h,
         deliver (mkDelivery c event subject body) h
         = NotificationService.deliver_webhook http_post status_text json_payload hmac_sha256 now w
             (nc_secret c) event subject body h).
Proof.
  split; [intros r s s' x; apply answer_keeps|]. intros event subject body s s' x.
  unfold NotificationService.notify, mbind, svc_bind, attempt.
  destruct (NotificationService.stored s) as [s1 [cs|e]] eqn:E1; simpl; destruct (stored_keeps _ _ _ E1) as [H1 H1s].
  - rewrite notify_loop_ok. intros [= <- <-] Hs. split; [done|]. eexists. simpl. rewrite H1s. split; [done|].
    split; [by intros ? ? [= _ <-]|]. intros c Hc.
    apply list_elem_of_In, filter_In in Hc as [Hc [He Hev]%andb_true_iff]. apply bool_decide_eq_true in Hev.
    assert (∃ id, record (NotificationService.store s) id = Some c) as [id Hid].
    { unfold NotificationService.stored, mbind, svc_bind, NotificationService.on_store in E1.
      destruct (store_list _) as [d [vs|e]] eqn:El; [|done]. injection E1 as _ <-.
      apply (list_ok _ _ _ El). apply list_elem_of_In in Hc. by rewrite sort_by_perm in Hc. }
    split; [by exists id|]. split; [done|]. split; [done|]. pose proof (Hs _ _ Hid) as Hok.
    split; [by apply (deliver_has_settings c event subject body (NotificationService.host s) Hok)|].
    intros Hk. destruct (proj2 (deliver_has_settings c event subject body (NotificationService.host s) Hok) Hk) as (w & Hw & _).
    exists w. split; [done|]. intros h.
    destruct (proj2 (deliver_has_settings c event subject body h Hok) Hk) as (w' & Hw' & ->). by rewrite Hw in Hw'; injection Hw' as <-.
  - intros [= <- <-] Hs. split; [done|]. exists []. rewrite app_nil_r, H1s. split; [done|]. split; [done|].
    intros c Hc. by apply not_elem_of_nil in Hc.
Qed.
End service.

(** A backup failure goes to the webhook that asked for it and to nobody else. *)
Definition demo_channel (name : str) (events : list NotificationEvent) : StoredChannel :=
  mkChannel name name Webhook true events None (Some (mkWebhook "https://ops.example/hook")) None "" None.
Definition demo_channels : NotificationService.state (RS:=map_store StoredChannel) (H:=unit) :=
  NotificationService.mkState (RS:=map_store StoredChannel)
    (<[lit "a" := demo_channel "a" [BackupFailed]]> {[ lit "b" := demo_channel "b" [SnapshotFailed] ]}) [] tt.
Definition demo_notified := NotificationService.notify (RS:=map_store StoredChannel)
  BackupFailed "Backup failed" "nightly" demo_channels.
Lemma notify_reaches_subscribers_witness :
  map (λ d, nc_id (dl_channel d)) (NotificationService.spawned demo_notified.1) = [lit "a"] ∧
  demo_notified.2 = Ok tt.
Proof.
  split; [reflexivity|].
  refine (proj1 (proj2 (notify_reaches_subscribers (RS:=map_store StoredChannel) (H:=unit) (Mailbox:=unit)
    (λ _, Ok tt) (λ _ _ _ _ _ _ h, (h, Ok tt)) (λ _ _ _ h, (h, Ok 200%N)) (λ _, []) (λ _ _ _ _, []) (λ _ _, []) [])
    BackupFailed "Backup failed" "nightly" demo_channels demo_notified.1 demo_notified.2
    (surjective_pairing demo_notified) _)).
  intros id c Hc. change ((<[lit "a" := demo_channel "a" [BackupFailed]]> {[ lit "b" := demo_channel "b" [SnapshotFailed] ]}
    : gmap str StoredChannel) !! id = Some c) in Hc.
  apply lookup_insert_Some in Hc as [[_ <-]|[_ [_ <-]%lookup_singleton_Some]];
    (split; [done|split; [by apply (bool_decide_unpack _)|reflexivity]]).
Defined.
