(* ===== verification/Schedules.v ===== *)
(** * Power and snapshot schedules (src/src/services/schedule.rs,
      src/src/services/snapshot_schedule.rs)

    Both services keep records with a cron timetable in a [JsonStore] and run the
    due ones on every tick of a background task.  What they share is written once
    over the class [Scheduled]; the two modules add their record, their requests
    and the action a firing performs.  The cron library and the RFC 3339
    formatting are parameters, and so are the guest and notification services,
    whose calls act on the state [H] of the host. *)

From S2P Require Export Notification.

(** ** Data of [daygleve_schema] *)

Inductive ScheduleTarget := Vm | Lxc.
#[export] Instance ScheduleTarget_eq_dec : EqDecision ScheduleTarget.
Proof. solve_decision. Defined.
Inductive PowerScheduleAction := Start | Shutdown | Reboot.
Inductive VmPowerAction := VmStart | VmShutdown | VmReboot.
Inductive LxcPowerAction := LxcStart | LxcStop | LxcRestart.

(** ** The timetable *)

Record Timing := mkTiming {
  s_cron : str; s_enabled : bool; s_last_run_at : option str; s_last_result : option str;
  s_next_run_at : option str }.

Class Scheduled (R : Type) := {
  s_id : R → str; s_target_kind : R → ScheduleTarget; s_target_id : R → str;
  s_created_at : R → str; timing : R → Timing; with_timing : Timing → R → R;
  timing_with : ∀ t r, timing (with_timing t r) = t;
  id_with : ∀ t r, s_id (with_timing t r) = s_id r }.

(** Trim a description, dropping it when empty and capping its length. *)
Definition normalize_description (description : option str) : option str :=
  d ← description;
  if is_empty (trim d) then None else Some (take 256 (trim d)).

Section cron.
Context {Cron : Type} (cron_parse : str → result str Cron)
  (find_next_occurrence : Cron → Z → option Z)
  (to_rfc3339 : Z → str) (parse_from_rfc3339 : str → option Z).

(** Parse and validate a 5-field cron expression. *)
Definition parse_cron (expr : str) : ApiResult Cron :=
  map_err (λ e, validation ("invalid cron expression " ++ debug_str expr ++ ": " ++ e))
    (cron_parse expr).

(** Next firing strictly after [after]. *)
Definition next_after (cron : Cron) (after : Z) : option str :=
  to_rfc3339 <$> find_next_occurrence cron after.

(** The test of [run_due]. *)
Definition is_due (next_run_at : option str) (now : Z) : bool :=
  match next_run_at ≫= parse_from_rfc3339 with
  | Some t => (t <=? now)%Z
  | None => false
  end.

Definition first_run (cron : Cron) (enabled : bool) (now : Z) : option str :=
  if enabled then next_after cron now else None.

(** The timetable part of [update]. *)
Definition set_cron (cron : option str) (t : Timing) : ApiResult (Timing * bool) :=
  match cron with
  | Some c =>
      _ ← parse_cron c;
      Ok (mkTiming (trim c) (s_enabled t) (s_last_run_at t) (s_last_result t) (s_next_run_at t), true)
  | None => Ok (t, false)
  end.
Definition set_enabled (enabled : option bool) (t : Timing) : Timing :=
  match enabled with
  | Some e => mkTiming (s_cron t) e (s_last_run_at t) (s_last_result t) (s_next_run_at t)
  | None => t
  end.
Definition set_next (n : option str) (t : Timing) : Timing :=
  mkTiming (s_cron t) (s_enabled t) (s_last_run_at t) (s_last_result t) n.
Definition recompute_next (cron_changed : bool) (now : Z) (t : Timing) : ApiResult Timing :=
  if s_enabled t then
    if cron_changed || negb (bool_decide (is_Some (s_next_run_at t))) then
      cron ← parse_cron (s_cron t);
      Ok (set_next (next_after cron now) t)
    else Ok t
  else Ok (set_next None t).

(** The record after a firing. *)
Definition fired (result : str) (stamp : str) (now : Z) (t : Timing) : Timing :=
  mkTiming (s_cron t) (s_enabled t) (Some stamp) (Some result)
    (match parse_cron (s_cron t) with
     | Ok cron => next_after cron now
     | Err _ => None
     end).

(** ** A service of scheduled records *)
Section service.
Context {R : Type} `{SR : Scheduled R} `{RS : RecordStore R} {H : Type}.
(** What the records are called in errors. *)
Context (noun : str).

Record state := mkState { store : rstate (RecordStore:=RS); host : H }.

Definition on_store {A} (m : Svc _ A) : Svc state A := λ s,
  let '(x, r) := m (store s) in (mkState x (host s), r).
Definition on_host {A} (m : H → H * A) : Svc state A := λ s,
  let '(x, a) := m (host s) in (mkState (store s) x, Ok a).

(** All schedules, newest first. *)
Definition list : Svc state (Datatypes.list R) :=
  schedules ← on_store store_list;
  mret (sort_by (λ a b, str_cmp (s_created_at b) (s_created_at a)) schedules).

(** Schedules targeting a specific guest. *)
Definition list_for (kind : ScheduleTarget) (target_id : str) : Svc state (Datatypes.list R) :=
  all ← list;
  mret (List.filter (λ s, bool_decide (s_target_kind s = kind) && (s_target_id s =s? target_id)) all).

Definition get (id : str) : Svc state R :=
  found ← on_store (store_get id);
  lift (ok_or (not_found (noun ++ " " ++ id)) found).

Definition delete (id : str) : Svc state bool := on_store (store_delete id).

(** What a firing does on the host, the notification of a failure, and the time
    stamp of each record's firing. *)
Context (execute : R → H → H * str) (failed : R → str → H → H) (stamp : str → str).

(** One turn of the loop of [run_due]. *)
Definition run_one (now : Z) (schedule : R) : Svc state unit :=
  if negb (s_enabled (timing schedule)) then mret tt
  else if negb (is_due (s_next_run_at (timing schedule)) now) then mret tt
  else
    result ← on_host (execute schedule);
    _ ← on_host (λ h, (if starts_with "error" result then failed schedule result h else h, tt));
    let schedule := with_timing (fired result (stamp (s_id schedule)) now (timing schedule)) schedule in
    on_store (store_put (s_id schedule) schedule).

Fixpoint run_loop (now : Z) (schedules : Datatypes.list R) : Svc state unit :=
  match schedules with
  | [] => mret tt
  | schedule :: schedules => _ ← run_one now schedule; run_loop now schedules
  end.

(** Fire every enabled schedule whose next run is at or before now, then advance
    it to its next occurrence. *)
Definition run_due (now : Z) : Svc state unit :=
  schedules ← list;
  run_loop now schedules.
End service.
End cron.
#[global] Arguments state R {RS} H.
#[global] Arguments mkState {R RS H} store host.

(** ** Power schedules *)

Record PowerSchedule := mkPower {
  pw_id : str; pw_target_kind : ScheduleTarget; pw_target_id : str; pw_action : PowerScheduleAction;
  pw_timing : Timing; pw_description : option str; pw_created_at : str; pw_updated_at : option str }.

#[export] Instance power_scheduled : Scheduled PowerSchedule := {|
  s_id := pw_id; s_target_kind := pw_target_kind; s_target_id := pw_target_id;
  s_created_at := pw_created_at; timing := pw_timing;
  with_timing t r := mkPower (pw_id r) (pw_target_kind r) (pw_target_id r) (pw_action r) t
                       (pw_description r) (pw_created_at r) (pw_updated_at r);
  timing_with t r := eq_refl; id_with t r := eq_refl |}.

Record CreatePowerScheduleRequest := mkCreatePower {
  cp_target_kind : ScheduleTarget; cp_target_id : str; cp_action : PowerScheduleAction;
  cp_cron : str; cp_enabled : bool; cp_description : option str }.
Record UpdatePowerScheduleRequest := mkUpdatePower {
  up_action : option PowerScheduleAction; up_cron : option str; up_enabled : option bool;
  up_description : option str }.

Module ScheduleService.
Section service.
Context {Cron : Type} (cron_parse : str → result str Cron)
  (find_next_occurrence : Cron → Z → option Z)
  (to_rfc3339 : Z → str) (parse_from_rfc3339 : str → option Z).
Context `{RS : RecordStore PowerSchedule} {H : Type}.
(** [services.kvm.power], [services.lxc.power] and [services.notifications.notify]. *)
Context (kvm_power : str → VmPowerAction → Svc H unit)
  (lxc_power : str → LxcPowerAction → Svc H unit)
  (notify : NotificationEvent → str → str → H → H).

Definition create (req : CreatePowerScheduleRequest) (new_id created_at : str) (now : Z) :
    Svc (state PowerSchedule H) PowerSchedule :=
  cron ← lift (parse_cron cron_parse (cp_cron req));
  let schedule := mkPower new_id (cp_target_kind req) (cp_target_id req) (cp_action req)
    (mkTiming (trim (cp_cron req)) (cp_enabled req) None None
       (first_run find_next_occurrence to_rfc3339 cron (cp_enabled req) now))
    (normalize_description (cp_description req)) created_at None in
  _ ← on_store (store_put (pw_id schedule) schedule);
  mret schedule.

Definition update (id : str) (req : UpdatePowerScheduleRequest) (updated_at : str) (now : Z) :
    Svc (state PowerSchedule H) PowerSchedule :=
  schedule ← get "schedule" id;
  let action := match up_action req with Some a => a | None => pw_action schedule end in
  tc ← lift (set_cron cron_parse (up_cron req) (pw_timing schedule));
  let t := set_enabled (up_enabled req) tc.1 in
  let description := match up_description req with
                     | Some d => normalize_description (Some d)
                     | None => pw_description schedule end in
  t ← lift (recompute_next cron_parse find_next_occurrence to_rfc3339 tc.2 now t);
  let schedule := mkPower (pw_id schedule) (pw_target_kind schedule) (pw_target_id schedule) action
                    t description (pw_created_at schedule) (Some updated_at) in
  _ ← on_store (store_put (pw_id schedule) schedule);
  mret schedule.

Definition vm_action (action : PowerScheduleAction) : VmPowerAction :=
  match action with Start => VmStart | Shutdown => VmShutdown | Reboot => VmReboot end.
Definition lxc_action (action : PowerScheduleAction) : LxcPowerAction :=
  match action with Start => LxcStart | Shutdown => LxcStop | Reboot => LxcRestart end.

(** Run one schedule's power action against its guest. *)
Definition execute (schedule : PowerSchedule) : H → H * str := λ h,
  let '(h, outcome) :=
    match pw_target_kind schedule with
    | Vm => kvm_power (pw_target_id schedule) (vm_action (pw_action schedule)) h
    | Lxc => lxc_power (pw_target_id schedule) (lxc_action (pw_action schedule)) h
    end in
  (h, match outcome with Ok _ => lit "ok" | Err e => "error: " ++ message e end).

(** [{:?}] of the action. *)
Definition debug_action (action : PowerScheduleAction) : str :=
  match action with Start => lit "Start" | Shutdown => lit "Shutdown" | Reboot => lit "Reboot" end.

Definition failed (schedule : PowerSchedule) (result : str) : H → H :=
  notify PowerActionFailed "Scheduled power action failed"
    ("Scheduled " ++ debug_action (pw_action schedule) ++ " of " ++ pw_target_id schedule
     ++ " failed: " ++ result).

Definition run_due (stamp : str → str) (now : Z) : Svc (state PowerSchedule H) unit :=
  Schedules.run_due cron_parse find_next_occurrence to_rfc3339 parse_from_rfc3339
    execute failed stamp now.
End service.
End ScheduleService.

(** ** Snapshot schedules *)

Record SnapshotSchedule := mkSnap {
  sn_id : str; sn_target_kind : ScheduleTarget; sn_target_id : str; sn_keep : N;
  sn_timing : Timing; sn_description : option str; sn_created_at : str; sn_updated_at : option str }.

#[export] Instance snapshot_scheduled : Scheduled SnapshotSchedule := {|
  s_id := sn_id; s_target_kind := sn_target_kind; s_target_id := sn_target_id;
  s_created_at := sn_created_at; timing := sn_timing;
  with_timing t r := mkSnap (sn_id r) (sn_target_kind r) (sn_target_id r) (sn_keep r) t
                       (sn_description r) (sn_created_at r) (sn_updated_at r);
  timing_with t r := eq_refl; id_with t r := eq_refl |}.

Record CreateSnapshotScheduleRequest := mkCreateSnap {
  cs_target_kind : ScheduleTarget; cs_target_id : str; cs_cron : str; cs_keep : N;
  cs_enabled : bool; cs_description : option str }.
Record UpdateSnapshotScheduleRequest := mkUpdateSnap {
  us_cron : option str; us_keep : option N; us_enabled : option bool; us_description : option str }.

(** Prefix marking a snapshot as created by a schedule. *)
Definition AUTO_PREFIX : str := "auto-".

(** What retention needs of a guest service, of VMs or of containers: take a
    snapshot with a description, the names of a guest's snapshots, drop one. *)
Record SnapshotOps (H : Type) := mkSnapshotOps {
  create_snapshot : str → str → str → Svc H unit;
  list_snapshots : str → Svc H (Datatypes.list str);
  delete_snapshot : str → str → Svc H unit }.
Arguments mkSnapshotOps {H}. Arguments create_snapshot {H}.
Arguments list_snapshots {H}. Arguments delete_snapshot {H}.

Module SnapshotScheduleService.
Section service.
Context {Cron : Type} (cron_parse : str → result str Cron)
  (find_next_occurrence : Cron → Z → option Z)
  (to_rfc3339 : Z → str) (parse_from_rfc3339 : str → option Z) (format_stamp : Z → str).
Context `{RS : RecordStore SnapshotSchedule} {H : Type}.
Context (kvm lxc : SnapshotOps H) (notify : NotificationEvent → str → str → H → H).

Definition create (req : CreateSnapshotScheduleRequest) (new_id created_at : str) (now : Z) :
    Svc (state SnapshotSchedule H) SnapshotSchedule :=
  cron ← lift (parse_cron cron_parse (cs_cron req));
  let schedule := mkSnap new_id (cs_target_kind req) (cs_target_id req) (cs_keep req)
    (mkTiming (trim (cs_cron req)) (cs_enabled req) None None
       (first_run find_next_occurrence to_rfc3339 cron (cs_enabled req) now))
    (normalize_description (cs_description req)) created_at None in
  _ ← on_store (store_put (sn_id schedule) schedule);
  mret schedule.

Definition update (id : str) (req : UpdateSnapshotScheduleRequest) (updated_at : str) (now : Z) :
    Svc (state SnapshotSchedule H) SnapshotSchedule :=
  schedule ← get "snapshot schedule" id;
  tc ← lift (set_cron cron_parse (us_cron req) (sn_timing schedule));
  let keep := match us_keep req with Some k => k | None => sn_keep schedule end in
  let t := set_enabled (us_enabled req) tc.1 in
  let description := match us_description req with
                     | Some d => normalize_description (Some d)
                     | None => sn_description schedule end in
  t ← lift (recompute_next cron_parse find_next_occurrence to_rfc3339 tc.2 now t);
  let schedule := mkSnap (sn_id schedule) (sn_target_kind schedule) (sn_target_id schedule) keep
                    t description (sn_created_at schedule) (Some updated_at) in
  _ ← on_store (store_put (sn_id schedule) schedule);
  mret schedule.

(** The automatic snapshots, newest first. *)
Definition autos (names : Datatypes.list str) : Datatypes.list str :=
  reverse (sort_by str_cmp (List.filter (starts_with AUTO_PREFIX) names)).

(** The loop that deletes; it counts the snapshots dropped. *)
Fixpoint prune (ops : SnapshotOps H) (id : str) (pruned : N) (olds : Datatypes.list str) (h : H) : H * N :=
  match olds with
  | [] => (h, pruned)
  | old :: olds =>
      match delete_snapshot ops id old h with
      | (h, Ok _) => prune ops id (pruned + 1) olds h
      | (h, Err _) => prune ops id pruned olds h
      end
  end.

(** [capture_and_prune_vm] and [capture_and_prune_lxc], which differ in the
    service they call. *)
Definition capture_and_prune_on (ops : SnapshotOps H) (id name : str) (keep : N) (h : H) : H * str :=
  match create_snapshot ops id name "scheduled snapshot" h with
  | (h, Err e) => (h, "error: " ++ message e)
  | (h, Ok _) =>
      if (keep =? 0)%N then (h, lit "ok")
      else match list_snapshots ops id h with
      | (h, Err e) => (h, "ok (prune failed: " ++ message e ++ ")")
      | (h, Ok names) =>
          let '(h, pruned) := prune ops id 0 (drop (N.to_nat keep) (autos names)) h in
          (h, if (0 <? pruned)%N then "ok (pruned " ++ dec pruned ++ ")" else lit "ok")
      end
  end.
Definition capture_and_prune_vm := capture_and_prune_on kvm.
Definition capture_and_prune_lxc := capture_and_prune_on lxc.

Definition capture_and_prune (schedule : SnapshotSchedule) (now : Z) : H → H * str :=
  let name := AUTO_PREFIX ++ format_stamp now in
  match sn_target_kind schedule with
  | Vm => capture_and_prune_vm (sn_target_id schedule) name (sn_keep schedule)
  | Lxc => capture_and_prune_lxc (sn_target_id schedule) name (sn_keep schedule)
  end.

Definition failed (schedule : SnapshotSchedule) (result : str) : H → H :=
  notify SnapshotFailed "Scheduled snapshot failed"
    ("Scheduled snapshot of " ++ sn_target_id schedule ++ " failed: " ++ result).

Definition run_due (stamp : str → str) (now : Z) : Svc (state SnapshotSchedule H) unit :=
  Schedules.run_due cron_parse find_next_occurrence to_rfc3339 parse_from_rfc3339
    (λ schedule, capture_and_prune schedule now) failed stamp now.
End service.
End SnapshotScheduleService.
