(* ===== verification/SchedulesProofs.v ===== *)
(** * Schedules: due ones fire, retention drops only old automatic snapshots *)

From S2P Require Export Schedules.

Section tick.
Context {Cron : Type} (cron_parse : str → result str Cron)
  (find_next : Cron → Z → option Z) (to_rfc3339 : Z → str) (parse_from_rfc3339 : str → option Z).
Context {R : Type} `{SR : Scheduled R} `{RS : RecordStore R} {H : Type}.
Context (execute : R → H → H * str) (failed : R → str → H → H) (stamp : str → str).
Implicit Types (r : R) (l : Datatypes.list R) (s : state R H) (now : Z).

Local Abbreviation run_one := (run_one cron_parse find_next to_rfc3339 parse_from_rfc3339
  execute failed stamp).
Local Abbreviation run_loop := (run_loop cron_parse find_next to_rfc3339 parse_from_rfc3339
  execute failed stamp).
Local Abbreviation run_due := (run_due cron_parse find_next to_rfc3339 parse_from_rfc3339
  execute failed stamp).
Local Abbreviation is_due := (is_due parse_from_rfc3339).

(** A record that the tick at [now] fires. *)
Definition due now r : bool := s_enabled (timing r) && is_due (s_next_run_at (timing r)) now.

(** What one firing does to the host, and the record it leaves. *)
Definition fire r (h : H) : H :=
  let '(h, result) := execute r h in if starts_with "error" result then failed r result h else h.
Definition after now r (h : H) : R :=
  with_timing (fired cron_parse find_next to_rfc3339 (execute r h).2 (stamp (s_id r)) now (timing r)) r.

Lemma run_one_due now r s :
  due now r = true →
  run_one now r s =
    (mkState (store_put (s_id r) (after now r (host s)) (store s)).1 (fire r (host s)),
     (store_put (s_id r) (after now r (host s)) (store s)).2).
Proof.
  unfold due, Schedules.run_one. intros [-> ->]%andb_true_iff. simpl.
  unfold mbind, svc_bind, on_host, on_store, fire, after.
  destruct (execute r (host s)) as [h res]; simpl. rewrite id_with.
  by destruct (starts_with "error" res); simpl; destruct (store_put _ _ _).
Qed.

Lemma run_one_idle now r s : due now r = false → run_one now r s = (s, Ok tt).
Proof.
  unfold due, Schedules.run_one. destruct (s_enabled (timing r)); [|done]. simpl. by intros ->.
Qed.

(** The loop: the host sees the due schedules in order, their records are
    rewritten whatever the store holds under them, the others stay. *)
Lemma run_loop_spec now l s s' :
  NoDup (map s_id l) → run_loop now l s = (s', Ok tt) →
  host s' = foldl (λ h r, fire r h) (host s) (List.filter (due now) l) ∧
  (∀ k, (∀ r, r ∈ l → due now r = true → s_id r ≠ k) → record (store s') k = record (store s) k) ∧
  (∀ r, r ∈ l → due now r = true → ∃ h, record (store s') (s_id r) = Some (after now r h)).
Proof.
  revert s; induction l as [|r l IH]; intros s Hnd; simpl.
  { intros [= <-]. split_and!; [done..|]. by intros r Hr%elem_of_nil. }
  rewrite svc_bind_ok. intros (s1 & [] & E & Hl).
  apply NoDup_cons in Hnd as [Hr Hnd]. destruct (IH s1 Hnd Hl) as (Hh & Hk & Hf).
  destruct (due now r) eqn:Ed.
  - rewrite (run_one_due _ _ _ Ed) in E.
    destruct (store_put (s_id r) _ (store s)) as [d res] eqn:Ep. simpl in E. simplify_eq.
    pose proof (put_ok _ _ _ _ Ep) as Hput. simpl in *. split_and!.
    + done.
    + intros k Hk'. rewrite (Hk k), Hput by set_solver.
      rewrite decide_False; [done|]. intros ->. by apply (Hk' r); [left|..].
    + intros r' [->|Hr']%elem_of_cons Hd; [|by apply Hf].
      exists (host s). rewrite Hk, Hput, decide_True; [done..|].
      intros r' Hr' _ Heq. apply Hr. rewrite <- Heq. by apply list_elem_of_fmap_2.
  - rewrite (run_one_idle _ _ _ Ed) in E. injection E as <-. split_and!; [done|..].
    + intros k Hk'. apply Hk. set_solver.
    + intros r' [->|Hr']%elem_of_cons Hd; [congruence|by apply Hf].
Qed.

Lemma run_loop_total now l s :
  (∀ d id v, ∃ d', store_put id v d = (d', Ok tt)) → ∃ s', run_loop now l s = (s', Ok tt).
Proof.
  intros Hput. revert s; induction l as [|r l IH]; intros s; simpl; [by eexists|].
  destruct (due now r) eqn:Ed.
  - destruct (Hput (store s) (s_id r) (after now r (host s))) as [d Hd].
    rewrite (svc_bind_run _ _ _ _ tt (eq_trans (run_one_due _ _ _ Ed) (f_equal2 (λ p q, (mkState p _, q)) (f_equal fst Hd) (f_equal snd Hd)))).
    apply IH.
  - rewrite (svc_bind_run _ _ _ _ _ (run_one_idle _ _ s Ed)). apply IH.
Qed.

(** After a firing the record waits for an occurrence past [now]. *)
Lemma after_not_due now r h :
  (∀ c t t', find_next c t = Some t' → (t < t')%Z) →
  (∀ t, parse_from_rfc3339 (to_rfc3339 t) = Some t) →
  due now (after now r h) = false.
Proof.
  intros Hnext Hparse. unfold due, after. rewrite timing_with. simpl.
  apply andb_false_iff. right. unfold Schedules.is_due.
  destruct (parse_cron _ _) as [c|e]; [|done]. unfold next_after.
  destruct (find_next c now) as [t|] eqn:E; [|done]. simpl. rewrite Hparse.
  apply Z.leb_gt. by eapply Hnext.
Qed.

(** The records of a listing are filed under distinct ids. *)
Lemma schedule_ids (d d' : rstate (RecordStore:=RS)) l :
  (∀ k r, record d k = Some r → s_id r = k) → store_list d = (d', Ok l) → NoDup (map s_id l).
Proof.
  intros Hk E. apply list_once in E as (ids & Hnd & Hf).
  replace (map s_id l) with ids; [done|].
  induction Hf as [|id r ids l Hr _ IH]; [done|]. apply NoDup_cons in Hnd as [_ Hnd].
  simpl. by rewrite (Hk _ _ Hr), IH.
Qed.

(** C36: every tick of a schedule service (power actions and snapshots alike)
    fires the due schedules and makes progress. When the store works, [run_due]
    completes whatever the guests answer: the host sees exactly the enabled
    schedules whose next run has come, each once, an action's failure stopping no
    other; each of them has its last run, its result and an occurrence strictly
    later on record, the other records are as they were, and no schedule is due
    at this instant any more. *)
Theorem due_schedules_fire now s :
  (∀ c t t', find_next c t = Some t' → (t < t')%Z) →
  (∀ t, parse_from_rfc3339 (to_rfc3339 t) = Some t) →
  (∀ k r, record (store s) k = Some r → s_id r = k) →
  (∀ d id v, ∃ d', store_put id v d = (d', Ok tt)) →
  (∃ d' l, store_list (store s) = (d', Ok l)) →
  ∃ s' fired_now, run_due now s = (s', Ok tt) ∧
    NoDup fired_now ∧
    (∀ r, r ∈ fired_now ↔ record (store s) (s_id r) = Some r ∧ due now r = true) ∧
    host s' = foldl (λ h r, fire r h) (host s) fired_now ∧
    (∀ k r, record (store s) k = Some r →
       if due now r then ∃ h, record (store s') k = Some (after now r h)
       else record (store s') k = Some r) ∧
    (∀ k r, record (store s') k = Some r → due now r = false).
Proof.
  intros Hnext Hparse Hkey Hput (d' & l & El).
  set (sorted := sort_by (λ a b : R, str_cmp (s_created_at b) (s_created_at a)) l).
  assert (sorted ≡ₚ l) as Hperm by apply sort_by_perm.
  pose proof (schedule_ids _ _ _ Hkey El) as Hnd.
  assert (NoDup (map s_id sorted)) as Hnd' by (by rewrite Hperm).
  assert (∀ r, r ∈ sorted ↔ record (store s) (s_id r) = Some r) as Hin.
  { intros r. rewrite Hperm, (list_ok _ _ _ El r). split; [|eauto].
    intros [k Hk]. by rewrite (Hkey _ _ Hk). }
  set (s1 := mkState d' (host s)).
  assert (∀ k, record (store s1) k = record (store s) k) as Hkeep by apply (list_keeps _ _ _ El).
  destruct (run_loop_total now sorted s1 Hput) as [s' Hs'].
  exists s', (List.filter (due now) sorted).
  destruct (run_loop_spec now sorted s1 s' Hnd' Hs') as (Hh & Hk & Hf). split_and!.
  - unfold Schedules.run_due, Schedules.list.
    rewrite (svc_bind_run _ _ s s1 sorted); [done|].
    rewrite (svc_bind_run _ _ s s1 l); [done|]. unfold on_store. by rewrite El.
  - apply NoDup_ListNoDup, List.NoDup_filter, NoDup_ListNoDup. by eapply NoDup_fmap_1.
  - intros r. rewrite list_elem_of_In, List.filter_In, <- list_elem_of_In, Hin. done.
  - done.
  - intros k r Hr. pose proof (Hkey _ _ Hr) as <-.
    destruct (due now r) eqn:Ed; [apply Hf; [by apply Hin|done]|].
    rewrite Hk, Hkeep; [done|]. intros r' Hr'%Hin Hd Heq. rewrite Heq in Hr'. congruence.
  - intros k r Hr. destruct (due now r) eqn:Ed; [|done]. exfalso.
    destruct (existsb (λ r', due now r' && (s_id r' =s? k)) sorted) eqn:Ex.
    + apply existsb_Exists in Ex as (r' & Hr' & [Hd <-%str_eqb_eq]%andb_true_iff).
      destruct (Hf _ Hr' Hd) as [h Hrec]. rewrite Hrec in Hr. injection Hr as <-.
      by rewrite after_not_due in Ed.
    + apply existsb_false in Ex. rewrite Forall_forall in Ex.
      rewrite Hk, Hkeep in Hr.
      2: { intros r' Hr' Hd <-. specialize (Ex _ Hr'). by rewrite Hd, str_eqb_refl in Ex. }
      pose proof (Hkey _ _ Hr) as <-. specialize (Ex r (proj2 (Hin r) Hr)).
      by rewrite Ed, str_eqb_refl in Ex.
Qed.
End tick.

(** ** A schedule deleted while a tick runs *)

Section stale.
Context {Cron : Type} (cron_parse : str → result str Cron)
  (find_next : Cron → Z → option Z) (to_rfc3339 : Z → str) (parse_from_rfc3339 : str → option Z).
Context {R : Type} `{SR : Scheduled R} `{RS : RecordStore R} {H : Type}.
Context (execute : R → H → H * str) (failed : R → str → H → H) (stamp : str → str).

(** The loop of [run_due] works on the listing it started from and writes
    whole records back. A schedule that another request deletes (or edits) after
    the listing and before its turn comes back: it still fires, and when the loop
    is done it is in the store again, enabled. *)
Theorem deleted_schedule_returns now (l : Datatypes.list R) (r : R) (s s1 s2 s3 : state R H) :
  list s = (s1, Ok l) → (∀ k r, record (store s) k = Some r → s_id r = k) →
  r ∈ l → due parse_from_rfc3339 now r = true →
  delete (s_id r) s1 = (s2, Ok true) →
  run_loop cron_parse find_next to_rfc3339 parse_from_rfc3339 execute failed stamp now l s2
    = (s3, Ok tt) →
  record (store s2) (s_id r) = None ∧
  ∃ r', record (store s3) (s_id r) = Some r' ∧ s_enabled (timing r') = true.
Proof.
  intros El Hkey Hr Hd Edel Hloop. unfold list in El. apply svc_bind_ok in El as (d & l' & El & [= <- <-]).
  unfold on_store in El. destruct (store_list (store s)) as [d' res] eqn:E. simplify_eq.
  assert (NoDup (map s_id (sort_by (λ a b : R, str_cmp (s_created_at b) (s_created_at a)) l'))) as Hnd
    by (rewrite sort_by_perm; by eapply schedule_ids).
  unfold delete, on_store in Edel. destruct (store_delete _ _) as [d2 res] eqn:Ed. simplify_eq.
  split; [simpl; rewrite (delete_ok _ _ _ _ Ed); by rewrite decide_True|].
  destruct (run_loop_spec _ _ _ _ _ _ _ _ _ _ _ Hnd Hloop) as (_ & _ & Hf).
  destruct (Hf r Hr Hd) as [h Hrec]. eexists. split; [exact Hrec|].
  unfold after. rewrite timing_with. simpl. by apply andb_true_iff in Hd as [? _].
Qed.
End stale.

(** ** Retention *)

(** What retention relies on: a guest's snapshots are a set of names, a snapshot
    taken joins it, one deleted leaves it, a failed call changes nothing but for a
    snapshot that may have been left behind, and other guests are not touched. *)
Record SnapshotLaws {H : Type} (ops : SnapshotOps H) (snaps : H → str → gset str) : Prop := {
  law_create : ∀ id name desc h h' r, create_snapshot ops id name desc h = (h', r) →
    (∀ id', id' ≠ id → snaps h' id' = snaps h id') ∧
    snaps h id ⊆ snaps h' id ∧ snaps h' id ⊆ {[name]} ∪ snaps h id;
  law_list : ∀ id h h' r, list_snapshots ops id h = (h', r) →
    (∀ id', snaps h' id' = snaps h id') ∧
    ∀ l, r = Ok l → NoDup l ∧ ∀ n, n ∈ l ↔ n ∈ snaps h id;
  law_delete : ∀ id name h h' r, delete_snapshot ops id name h = (h', r) →
    (∀ id', id' ≠ id → snaps h' id' = snaps h id') ∧
    snaps h' id = match r with Ok _ => snaps h id ∖ {[name]} | Err _ => snaps h id end }.

Section retention.
Context {H : Type} (ops : SnapshotOps H) (snaps : H → str → gset str).
Context (laws : SnapshotLaws ops snaps).
Local Abbreviation autos := SnapshotScheduleService.autos.

Lemma retention_prune_spec id n olds h h' n' :
  SnapshotScheduleService.prune ops id n olds h = (h', n') →
  (∀ id', id' ≠ id → snaps h' id' = snaps h id') ∧
  snaps h id ∖ list_to_set olds ⊆ snaps h' id ∧ snaps h' id ⊆ snaps h id ∧
  ((∀ old h, is_ok (delete_snapshot ops id old h).2 = true) →
     snaps h' id = snaps h id ∖ list_to_set olds).
Proof.
  revert h n; induction olds as [|old olds IH]; intros h n; simpl.
  { intros [= <- <-]. split_and!; set_solver. }
  destruct (delete_snapshot ops id old h) as [h1 r] eqn:E.
  destruct (law_delete _ _ laws _ _ _ _ _ E) as [Ho Hs].
  intros Hp. assert (∃ m, SnapshotScheduleService.prune ops id m olds h1 = (h', n')) as [m Hm]
    by (destruct r; eauto).
  destruct (IH _ _ Hm) as (Ho' & Hlo & Hhi & Hall). split_and!.
  - intros id' Hid. by rewrite Ho', Ho.
  - rewrite difference_union_distr_r. destruct r; rewrite Hs in Hlo; clear -Hlo; set_solver.
  - destruct r; rewrite Hs in Hhi; clear -Hhi; set_solver.
  - intros Hok. rewrite (Hall Hok). specialize (Hok old h). rewrite E in Hok. destruct r; [|done].
    rewrite Hs. clear. apply leibniz_equiv. set_solver.
Qed.

Lemma elem_of_autos names n : n ∈ autos names ↔ n ∈ names ∧ starts_with AUTO_PREFIX n = true.
Proof.
  unfold autos. rewrite elem_of_reverse, elem_of_sort_by, list_elem_of_In, List.filter_In.
  by rewrite list_elem_of_In.
Qed.

Lemma autos_sorted names k old kept :
  kept ∈ take k (autos names) → old ∈ drop k (autos names) → str_cmp old kept ≠ Gt.
Proof.
  unfold autos. rewrite take_reverse, drop_reverse, !elem_of_reverse. intros Hk Ho.
  eapply (sorted_take_drop (λ x y, str_cmp x y ≠ Gt)); [|exact Ho|exact Hk].
  apply sort_by_sorted; [apply str_cmp_total|apply str_cmp_trans].
Qed.

Lemma autos_NoDup names : NoDup names → NoDup (autos names).
Proof.
  intros Hn. unfold autos. rewrite reverse_Permutation, sort_by_perm.
  by apply NoDup_ListNoDup, List.NoDup_filter, NoDup_ListNoDup.
Qed.

(** Retention drops only what it may. Taking a scheduled snapshot of a guest
    with [keep] leaves the other guests' snapshots alone and every snapshot of
    this guest that no schedule made; one that it drops is automatic and gives
    way to [keep] automatic ones that remain and are newer by name, so with
    [keep = 0] nothing is dropped; and when listing and deleting work, at most
    [keep] automatic snapshots remain afterwards. *)
Theorem retention_sound id name keep h h' out :
  SnapshotScheduleService.capture_and_prune_on ops id name keep h = (h', out) →
  (∀ id', id' ≠ id → snaps h' id' = snaps h id') ∧
  (∀ n, n ∈ snaps h id → starts_with AUTO_PREFIX n = false → n ∈ snaps h' id) ∧
  (∀ n, n ∈ snaps h id → n ∉ snaps h' id →
     (0 < keep)%N ∧ ∃ newer, NoDup newer ∧ length newer = N.to_nat keep ∧
     ∀ m, m ∈ newer → m ∈ snaps h' id ∧ starts_with AUTO_PREFIX m = true ∧
       m ≠ n ∧ str_cmp n m ≠ Gt) ∧
  ((0 < keep)%N → starts_with "error" out = false →
   (∀ h, is_ok (list_snapshots ops id h).2 = true) →
   (∀ old h, is_ok (delete_snapshot ops id old h).2 = true) →
   (size (filter (λ n, starts_with AUTO_PREFIX n = true) (snaps h' id)) ≤ N.to_nat keep)%nat).
Proof.
  unfold SnapshotScheduleService.capture_and_prune_on.
  destruct (create_snapshot ops id name _ h) as [h1 r1] eqn:Ec.
  destruct (law_create _ _ laws _ _ _ _ _ _ Ec) as (Ho1 & Hlo1 & Hhi1).
  destruct r1 as [[]|e].
  2: { intros [= <- <-]. split_and!; [done|set_solver|set_solver|].
       intros _ Hout. vm_compute in Hout. done. }
  destruct (N.eqb_spec keep 0) as [->|Hkeep].
  { intros [= <- <-]. split_and!; [done|set_solver|set_solver|lia]. }
  destruct (list_snapshots ops id h1) as [h2 r2] eqn:El.
  destruct (law_list _ _ laws _ _ _ _ El) as (Hs2 & Hl).
  destruct r2 as [names|e].
  2: { intros [= <- <-]. rewrite !Hs2. setoid_rewrite Hs2. split_and!; [done|set_solver|set_solver|].
       intros _ _ Hok. specialize (Hok h1). by rewrite El in Hok. }
  destruct (Hl names eq_refl) as (Hnd & Hnames).
  destruct (SnapshotScheduleService.prune _ _ _ _ _) as [h3 n3] eqn:Ep. intros [= <- _].
  destruct (retention_prune_spec _ _ _ _ _ _ Ep) as (Ho3 & Hlo3 & Hhi3 & Hall). rewrite Hs2 in Hlo3, Hhi3, Hall.
  set (k := N.to_nat keep) in *. set (A := autos names) in *.
  pose proof (autos_NoDup _ Hnd) as HA. fold A in HA.
  rewrite <- (take_drop k A) in HA. apply NoDup_app in HA as (Hndk & Hdis & _).
  assert (∀ m, m ∈ A ↔ m ∈ snaps h1 id ∧ starts_with AUTO_PREFIX m = true) as HAm
    by (intros m; unfold A; by rewrite elem_of_autos, Hnames).
  assert (∀ m, m ∈ take k A → m ∈ A) as Htake by (intros m; rewrite <- (take_drop k A) at 2; set_solver).
  assert (∀ m, m ∈ drop k A → m ∈ A) as Hdrop by (intros m; rewrite <- (take_drop k A) at 2; set_solver).
  split_and!.
  - intros id' Hid. by rewrite Ho3, Hs2, Ho1.
  - intros n Hn Hauto. apply Hlo3. rewrite elem_of_difference, elem_of_list_to_set. split; [set_solver|].
    intros Hd%Hdrop%HAm. destruct Hd. congruence.
  - intros n Hn Hgone. assert (n ∈ drop k A) as Hd.
    { destruct (decide (n ∈ drop k A)) as [?|Hno]; [done|]. exfalso. apply Hgone, Hlo3.
      rewrite elem_of_difference, elem_of_list_to_set. set_solver. }
    split; [lia|]. exists (take k A). split_and!; [done|..].
    + rewrite length_take. assert (length (drop k A) ≠ 0) by (destruct (drop k A); [set_solver|done]).
      rewrite length_drop in *. lia.
    + intros m Hm. pose proof (proj1 (HAm m) (Htake m Hm)) as [Hm1 Hm2]. split_and!; [|done|..].
      * apply Hlo3. rewrite elem_of_difference, elem_of_list_to_set. split; [done|by apply Hdis].
      * intros ->. by apply (Hdis n).
      * by eapply autos_sorted.
  - intros _ _ _ Hok. rewrite (Hall Hok).
    transitivity (size (list_to_set (take k A) : gset str)).
    + apply subseteq_size. intros n. rewrite elem_of_filter, elem_of_difference, !elem_of_list_to_set.
      intros (Ha & Hn & Hno). assert (n ∈ A) as Hin by (by apply HAm).
      rewrite <- (take_drop k A) in Hin. set_solver.
    + rewrite size_list_to_set by done. rewrite length_take. lia.
Qed.
End retention.

(** ** Concrete inputs

    A cron library whose every timetable is "a minute later", guests that answer
    nothing, and a host that is one guest's set of snapshots. *)

Definition minutely (c : nat) (t : Z) : option Z := Some (t + 60)%Z.
Definition any_cron (expr : str) : result str nat := Ok 0%nat.
Definition sample_timing (enabled : bool) : Timing :=
  mkTiming "* * * * *" enabled None None (Some (sample_print 100)).
Definition sample_power (id : str) (enabled : bool) : PowerSchedule :=
  mkPower id Vm "vm-1" Shutdown (sample_timing enabled) None "c" None.
Definition sample_schedules : state (RS:=map_store PowerSchedule) PowerSchedule nat :=
  mkState (RS:=map_store PowerSchedule)
    ({[ lit "a" := sample_power "a" true; lit "b" := sample_power "b" false ]} : gmap str PowerSchedule) 0.
(** The host counts the calls, and each of them fails. *)
Definition counting (r : PowerSchedule) (h : nat) : nat * str := (S h, lit "error: no such guest").
Definition no_notice (r : PowerSchedule) (result : str) (h : nat) : nat := h.

Lemma due_schedules_fire_witness :
  ∃ s', run_due (RS:=map_store PowerSchedule) any_cron minutely sample_print sample_parse
      counting no_notice (λ _, lit "now") 120 sample_schedules = (s', Ok tt) ∧
    record (RecordStore:=map_store PowerSchedule) (store s') "b" = Some (sample_power "b" false).
Proof.
  destruct (due_schedules_fire (RS:=map_store PowerSchedule) any_cron minutely sample_print sample_parse
    counting no_notice (λ _, lit "now") 120 sample_schedules) as (s' & l & E & _ & _ & _ & Hr & _).
  - intros c t t' [= <-]. lia.
  - apply sample_parse_print.
  - intros k r. change (record (store sample_schedules) k) with
      (({[ lit "a" := sample_power "a" true; lit "b" := sample_power "b" false ]}
         : gmap str PowerSchedule) !! k).
    intros [[<- <-]|(_ & [<- <-]%lookup_singleton_Some)]%lookup_insert_Some; reflexivity.
  - intros d id v. by eexists.
  - by eexists _, _.
  - exists s'. split; [exact E|]. exact (Hr (lit "b") (sample_power "b" false) eq_refl).
Defined.

Lemma deleted_schedule_returns_witness :
  ∃ s3 : state (RS:=map_store PowerSchedule) PowerSchedule nat,
    ∃ r', record (RecordStore:=map_store PowerSchedule) (store s3) "a" = Some r'.
Proof.
  pose (s := mkState (RS:=map_store PowerSchedule)
    ({[ lit "a" := sample_power "a" true ]} : gmap str PowerSchedule) 0).
  pose (s2 := mkState (RS:=map_store PowerSchedule) (∅ : gmap str PowerSchedule) 0).
  destruct (run_loop_total (RS:=map_store PowerSchedule) any_cron minutely sample_print sample_parse
    counting no_notice (λ _, lit "now") 120 [sample_power "a" true] s2) as [s3 E];
    [intros d id v; by eexists|].
  destruct (deleted_schedule_returns (RS:=map_store PowerSchedule) any_cron minutely sample_print
    sample_parse counting no_notice (λ _, lit "now") 120 [sample_power "a" true]
    (sample_power "a" true) s s s2 s3) as [_ (r' & Hr & _)].
  - reflexivity.
  - intros k r. change (record (store s) k) with
      (({[ lit "a" := sample_power "a" true ]} : gmap str PowerSchedule) !! k).
    intros [<- <-]%lookup_singleton_Some. reflexivity.
  - by left.
  - reflexivity.
  - reflexivity.
  - exact E.
  - by exists s3, r'.
Defined.

(** Only the guest [g] has snapshots, and the host is the set of them. *)
Definition guest_ops : SnapshotOps (gset str) := mkSnapshotOps
  (λ id name desc h, if id =s? "g" then ({[name]} ∪ h, Ok tt) else (h, Err (not_found id)))
  (λ id h, if id =s? "g" then (h, Ok (elements h)) else (h, Ok []))
  (λ id name h, if id =s? "g" then (h ∖ {[name]}, Ok tt) else (h, Err (not_found id))).
Definition guest_snaps (h : gset str) (id : str) : gset str := if id =s? "g" then h else ∅.

Lemma guest_snaps_other id id' h h' :
  (id =s? "g") = true → id' ≠ id → guest_snaps h' id' = guest_snaps h id'.
Proof.
  unfold guest_snaps. intros ->%str_eqb_eq Hid. destruct (id' =s? "g") eqn:E; [|done].
  by apply str_eqb_eq in E.
Qed.

Lemma guest_laws : SnapshotLaws guest_ops guest_snaps.
Proof.
  split; unfold guest_ops; cbn [create_snapshot list_snapshots delete_snapshot].
  - intros id name desc h h' r. destruct (id =s? "g") eqn:Eg; intros [= <- _]; [|split_and!; clear; set_solver].
    split; [intros; by eapply guest_snaps_other|]. unfold guest_snaps. rewrite Eg. clear. set_solver.
  - intros id h h' r. destruct (id =s? "g") eqn:Eg; intros [= <- <-]; (split; [done|]; intros l [= <-]);
      unfold guest_snaps; rewrite Eg; split.
    + apply NoDup_elements.
    + intros n. apply elem_of_elements.
    + constructor.
    + clear. set_solver.
  - intros id name h h' r. destruct (id =s? "g") eqn:Eg; intros [= <- <-]; [|done].
    split; [intros; by eapply guest_snaps_other|]. unfold guest_snaps. rewrite Eg. reflexivity.
Qed.

Lemma retention_sound_witness :
  ∃ h out, SnapshotScheduleService.capture_and_prune_on guest_ops "g" "auto-2" 1
      {[ lit "auto-1"; lit "mine" ]} = (h, out) ∧ lit "mine" ∈ h.
Proof.
  destruct (SnapshotScheduleService.capture_and_prune_on guest_ops "g" "auto-2" 1
      {[ lit "auto-1"; lit "mine" ]}) as [h out] eqn:E.
  exists h, out. split; [reflexivity|].
  destruct (retention_sound guest_ops guest_snaps guest_laws _ _ _ _ _ _ E) as (_ & Hkept & _).
  exact (Hkept (lit "mine") ltac:(clear; unfold guest_snaps; simpl; set_solver) eq_refl).
Defined.
