(* ===== verification/VmData.v ===== *)
(** * Virtual machines: records and validators (src/src/services/kvm.rs)

    The records of [daygleve_schema::vm] with the fields the service uses, and
    the checks a request passes before it reaches the host. *)

From S2P Require Export Validate Cache.

Inductive VmState := Running | Paused | Transitioning | Stopped | ErrorState.
Inductive Firmware := Uefi | Bios.
Inductive DisplayProtocol := Vnc | Spice.
Inductive DiskBus := Virtio | Scsi | Sata.
Inductive NicModel := NicVirtio | E1000 | Rtl8139.
Inductive VmFirewallAction := Accept | Drop | AcceptAll | DropAll.
Inductive VmFirewallDirection := Inbound | Outbound.
#[export] Instance VmState_eq_dec : EqDecision VmState.
Proof. solve_decision. Defined.
#[export] Instance DisplayProtocol_eq_dec : EqDecision DisplayProtocol.
Proof. solve_decision. Defined.

Record VmDisk := mkVmDisk { dk_dataset : str; dk_size_gib : N; dk_bus : DiskBus }.
Record VmNic := mkNic {
  n_bridge : str; n_vlan : option N; n_mac : option str; n_model : NicModel }.
Record VmFirewallRule := mkRule {
  f_direction : VmFirewallDirection; f_action : VmFirewallAction; f_cidr : option str;
  f_description : option str }.
Record VmFirewall := mkFirewall { fw_enabled : bool; fw_rules : list VmFirewallRule }.
(** [VmFirewall::default()]. *)
Definition no_firewall : VmFirewall := mkFirewall false [].
(** [GpuAssignment] and [PciAssignment]. *)
Record PciAssignment := mkPci { pa_address : str }.
Record UsbAssignment := mkUsb { ua_vendor_id : str; ua_product_id : str }.

Record Vm := mkVm {
  v_id : str;
  v_name : str;
  v_state : VmState;
  v_vcpus : N;
  v_memory_mib : N;
  v_firmware : Firmware;
  v_display : DisplayProtocol;
  v_disks : list VmDisk;
  v_nics : list VmNic;
  v_gpus : list PciAssignment;
  v_usb_devices : list UsbAssignment;
  v_pci_devices : list PciAssignment;
  v_cdrom : option str;
  v_cloud_init_iso : option str;
  v_description : option str;
  v_guest_agent : bool;
  v_firewall : VmFirewall;
  v_template : bool;
  v_autostart : bool;
  v_startup_order : option N;
  v_tags : list str;
  v_pool : option str;
  v_created_at : str;
  v_updated_at : option str }.

(** [vm.field = x]. *)
Definition set_name (x : str) (v : Vm) : Vm :=
  mkVm (v_id v) x (v_state v) (v_vcpus v) (v_memory_mib v) (v_firmware v) (v_display v) (v_disks
    v) (v_nics v) (v_gpus v) (v_usb_devices v) (v_pci_devices v) (v_cdrom v) (v_cloud_init_iso
    v) (v_description v) (v_guest_agent v) (v_firewall v) (v_template v) (v_autostart v)
    (v_startup_order v) (v_tags v) (v_pool v) (v_created_at v) (v_updated_at v).
Definition set_state (x : VmState) (v : Vm) : Vm :=
  mkVm (v_id v) (v_name v) x (v_vcpus v) (v_memory_mib v) (v_firmware v) (v_display v) (v_disks
    v) (v_nics v) (v_gpus v) (v_usb_devices v) (v_pci_devices v) (v_cdrom v) (v_cloud_init_iso
    v) (v_description v) (v_guest_agent v) (v_firewall v) (v_template v) (v_autostart v)
    (v_startup_order v) (v_tags v) (v_pool v) (v_created_at v) (v_updated_at v).
Definition set_vcpus (x : N) (v : Vm) : Vm :=
  mkVm (v_id v) (v_name v) (v_state v) x (v_memory_mib v) (v_firmware v) (v_display v) (v_disks
    v) (v_nics v) (v_gpus v) (v_usb_devices v) (v_pci_devices v) (v_cdrom v) (v_cloud_init_iso
    v) (v_description v) (v_guest_agent v) (v_firewall v) (v_template v) (v_autostart v)
    (v_startup_order v) (v_tags v) (v_pool v) (v_created_at v) (v_updated_at v).
Definition set_memory_mib (x : N) (v : Vm) : Vm :=
  mkVm (v_id v) (v_name v) (v_state v) (v_vcpus v) x (v_firmware v) (v_display v) (v_disks v)
    (v_nics v) (v_gpus v) (v_usb_devices v) (v_pci_devices v) (v_cdrom v) (v_cloud_init_iso v)
    (v_description v) (v_guest_agent v) (v_firewall v) (v_template v) (v_autostart v)
    (v_startup_order v) (v_tags v) (v_pool v) (v_created_at v) (v_updated_at v).
Definition set_firmware (x : Firmware) (v : Vm) : Vm :=
  mkVm (v_id v) (v_name v) (v_state v) (v_vcpus v) (v_memory_mib v) x (v_display v) (v_disks v)
    (v_nics v) (v_gpus v) (v_usb_devices v) (v_pci_devices v) (v_cdrom v) (v_cloud_init_iso v)
    (v_description v) (v_guest_agent v) (v_firewall v) (v_template v) (v_autostart v)
    (v_startup_order v) (v_tags v) (v_pool v) (v_created_at v) (v_updated_at v).
Definition set_display (x : DisplayProtocol) (v : Vm) : Vm :=
  mkVm (v_id v) (v_name v) (v_state v) (v_vcpus v) (v_memory_mib v) (v_firmware v) x (v_disks v)
    (v_nics v) (v_gpus v) (v_usb_devices v) (v_pci_devices v) (v_cdrom v) (v_cloud_init_iso v)
    (v_description v) (v_guest_agent v) (v_firewall v) (v_template v) (v_autostart v)
    (v_startup_order v) (v_tags v) (v_pool v) (v_created_at v) (v_updated_at v).
Definition set_disks (x : list VmDisk) (v : Vm) : Vm :=
  mkVm (v_id v) (v_name v) (v_state v) (v_vcpus v) (v_memory_mib v) (v_firmware v) (v_display v)
    x (v_nics v) (v_gpus v) (v_usb_devices v) (v_pci_devices v) (v_cdrom v) (v_cloud_init_iso v)
    (v_description v) (v_guest_agent v) (v_firewall v) (v_template v) (v_autostart v)
    (v_startup_order v) (v_tags v) (v_pool v) (v_created_at v) (v_updated_at v).
Definition set_nics (x : list VmNic) (v : Vm) : Vm :=
  mkVm (v_id v) (v_name v) (v_state v) (v_vcpus v) (v_memory_mib v) (v_firmware v) (v_display v)
    (v_disks v) x (v_gpus v) (v_usb_devices v) (v_pci_devices v) (v_cdrom v) (v_cloud_init_iso
    v) (v_description v) (v_guest_agent v) (v_firewall v) (v_template v) (v_autostart v)
    (v_startup_order v) (v_tags v) (v_pool v) (v_created_at v) (v_updated_at v).
Definition set_usb_devices (x : list UsbAssignment) (v : Vm) : Vm :=
  mkVm (v_id v) (v_name v) (v_state v) (v_vcpus v) (v_memory_mib v) (v_firmware v) (v_display v)
    (v_disks v) (v_nics v) (v_gpus v) x (v_pci_devices v) (v_cdrom v) (v_cloud_init_iso v)
    (v_description v) (v_guest_agent v) (v_firewall v) (v_template v) (v_autostart v)
    (v_startup_order v) (v_tags v) (v_pool v) (v_created_at v) (v_updated_at v).
Definition set_pci_devices (x : list PciAssignment) (v : Vm) : Vm :=
  mkVm (v_id v) (v_name v) (v_state v) (v_vcpus v) (v_memory_mib v) (v_firmware v) (v_display v)
    (v_disks v) (v_nics v) (v_gpus v) (v_usb_devices v) x (v_cdrom v) (v_cloud_init_iso v)
    (v_description v) (v_guest_agent v) (v_firewall v) (v_template v) (v_autostart v)
    (v_startup_order v) (v_tags v) (v_pool v) (v_created_at v) (v_updated_at v).
Definition set_cdrom (x : option str) (v : Vm) : Vm :=
  mkVm (v_id v) (v_name v) (v_state v) (v_vcpus v) (v_memory_mib v) (v_firmware v) (v_display v)
    (v_disks v) (v_nics v) (v_gpus v) (v_usb_devices v) (v_pci_devices v) x (v_cloud_init_iso v)
    (v_description v) (v_guest_agent v) (v_firewall v) (v_template v) (v_autostart v)
    (v_startup_order v) (v_tags v) (v_pool v) (v_created_at v) (v_updated_at v).
Definition set_cloud_init_iso (x : option str) (v : Vm) : Vm :=
  mkVm (v_id v) (v_name v) (v_state v) (v_vcpus v) (v_memory_mib v) (v_firmware v) (v_display v)
    (v_disks v) (v_nics v) (v_gpus v) (v_usb_devices v) (v_pci_devices v) (v_cdrom v) x
    (v_description v) (v_guest_agent v) (v_firewall v) (v_template v) (v_autostart v)
    (v_startup_order v) (v_tags v) (v_pool v) (v_created_at v) (v_updated_at v).
Definition set_description (x : option str) (v : Vm) : Vm :=
  mkVm (v_id v) (v_name v) (v_state v) (v_vcpus v) (v_memory_mib v) (v_firmware v) (v_display v)
    (v_disks v) (v_nics v) (v_gpus v) (v_usb_devices v) (v_pci_devices v) (v_cdrom v)
    (v_cloud_init_iso v) x (v_guest_agent v) (v_firewall v) (v_template v) (v_autostart v)
    (v_startup_order v) (v_tags v) (v_pool v) (v_created_at v) (v_updated_at v).
Definition set_guest_agent (x : bool) (v : Vm) : Vm :=
  mkVm (v_id v) (v_name v) (v_state v) (v_vcpus v) (v_memory_mib v) (v_firmware v) (v_display v)
    (v_disks v) (v_nics v) (v_gpus v) (v_usb_devices v) (v_pci_devices v) (v_cdrom v)
    (v_cloud_init_iso v) (v_description v) x (v_firewall v) (v_template v) (v_autostart v)
    (v_startup_order v) (v_tags v) (v_pool v) (v_created_at v) (v_updated_at v).
Definition set_firewall (x : VmFirewall) (v : Vm) : Vm :=
  mkVm (v_id v) (v_name v) (v_state v) (v_vcpus v) (v_memory_mib v) (v_firmware v) (v_display v)
    (v_disks v) (v_nics v) (v_gpus v) (v_usb_devices v) (v_pci_devices v) (v_cdrom v)
    (v_cloud_init_iso v) (v_description v) (v_guest_agent v) x (v_template v) (v_autostart v)
    (v_startup_order v) (v_tags v) (v_pool v) (v_created_at v) (v_updated_at v).
Definition set_template (x : bool) (v : Vm) : Vm :=
  mkVm (v_id v) (v_name v) (v_state v) (v_vcpus v) (v_memory_mib v) (v_firmware v) (v_display v)
    (v_disks v) (v_nics v) (v_gpus v) (v_usb_devices v) (v_pci_devices v) (v_cdrom v)
    (v_cloud_init_iso v) (v_description v) (v_guest_agent v) (v_firewall v) x (v_autostart v)
    (v_startup_order v) (v_tags v) (v_pool v) (v_created_at v) (v_updated_at v).
Definition set_autostart (x : bool) (v : Vm) : Vm :=
  mkVm (v_id v) (v_name v) (v_state v) (v_vcpus v) (v_memory_mib v) (v_firmware v) (v_display v)
    (v_disks v) (v_nics v) (v_gpus v) (v_usb_devices v) (v_pci_devices v) (v_cdrom v)
    (v_cloud_init_iso v) (v_description v) (v_guest_agent v) (v_firewall v) (v_template v) x
    (v_startup_order v) (v_tags v) (v_pool v) (v_created_at v) (v_updated_at v).
Definition set_startup_order (x : option N) (v : Vm) : Vm :=
  mkVm (v_id v) (v_name v) (v_state v) (v_vcpus v) (v_memory_mib v) (v_firmware v) (v_display v)
    (v_disks v) (v_nics v) (v_gpus v) (v_usb_devices v) (v_pci_devices v) (v_cdrom v)
    (v_cloud_init_iso v) (v_description v) (v_guest_agent v) (v_firewall v) (v_template v)
    (v_autostart v) x (v_tags v) (v_pool v) (v_created_at v) (v_updated_at v).
Definition set_tags (x : list str) (v : Vm) : Vm :=
  mkVm (v_id v) (v_name v) (v_state v) (v_vcpus v) (v_memory_mib v) (v_firmware v) (v_display v)
    (v_disks v) (v_nics v) (v_gpus v) (v_usb_devices v) (v_pci_devices v) (v_cdrom v)
    (v_cloud_init_iso v) (v_description v) (v_guest_agent v) (v_firewall v) (v_template v)
    (v_autostart v) (v_startup_order v) x (v_pool v) (v_created_at v) (v_updated_at v).
Definition set_pool (x : option str) (v : Vm) : Vm :=
  mkVm (v_id v) (v_name v) (v_state v) (v_vcpus v) (v_memory_mib v) (v_firmware v) (v_display v)
    (v_disks v) (v_nics v) (v_gpus v) (v_usb_devices v) (v_pci_devices v) (v_cdrom v)
    (v_cloud_init_iso v) (v_description v) (v_guest_agent v) (v_firewall v) (v_template v)
    (v_autostart v) (v_startup_order v) (v_tags v) x (v_created_at v) (v_updated_at v).
Definition set_updated_at (x : option str) (v : Vm) : Vm :=
  mkVm (v_id v) (v_name v) (v_state v) (v_vcpus v) (v_memory_mib v) (v_firmware v) (v_display v)
    (v_disks v) (v_nics v) (v_gpus v) (v_usb_devices v) (v_pci_devices v) (v_cdrom v)
    (v_cloud_init_iso v) (v_description v) (v_guest_agent v) (v_firewall v) (v_template v)
    (v_autostart v) (v_startup_order v) (v_tags v) (v_pool v) (v_created_at v) x.

Record CloudInitNetwork := mkCiNet {
  cn_address : str; cn_gateway : option str; cn_interface : str; cn_dns : list str }.
Record CloudInitRequest := mkCloudInit {
  ci_hostname : option str; ci_default_user : option str; ci_ssh_keys : list str;
  ci_network : option CloudInitNetwork; ci_root_password : option str }.

Record CreateVmRequest := mkCreateVm {
  c_name : str; c_vcpus : N; c_memory_mib : N; c_firmware : Firmware; c_display : DisplayProtocol;
  c_disks : list VmDisk; c_nics : list VmNic; c_gpus : list PciAssignment;
  c_usb_devices : list UsbAssignment; c_pci_devices : list PciAssignment; c_cdrom : option str;
  c_cloud_init : option CloudInitRequest; c_description : option str; c_guest_agent : bool;
  c_firewall : VmFirewall; c_template : bool; c_autostart : bool; c_startup_order : option N;
  c_tags : list str; c_pool : option str; c_start : bool }.

Record UpdateVmRequest := mkUpdateVm {
  u_name : option str; u_vcpus : option N; u_memory_mib : option N; u_firmware : option Firmware;
  u_display : option DisplayProtocol; u_disks : option (list VmDisk); u_nics : option (list VmNic);
  u_firewall : option VmFirewall; u_guest_agent : option bool; u_cloud_init : option CloudInitRequest;
  u_description : option str; u_eject_cdrom : option bool; u_cdrom : option str;
  u_startup_order : option N; u_tags : option (list str); u_pool : option str;
  u_autostart : option bool; u_template : option bool }.

(** [if let Some(x) = o { vm.field = x; }]. *)
Definition when_some {A S} (o : option A) (f : A → S → S) (s : S) : S :=
  match o with Some a => f a s | None => s end.

(** ** Validators *)

Definition validate_disk (disk : VmDisk) : ApiResult unit :=
  ensure_safe_zfs_dataset (trim (dk_dataset disk)) ;?
  if (dk_size_gib disk =? 0)%N then Err (validation "disk size_gib must be >= 1") else Ok tt.
Definition validate_disks (disks : list VmDisk) : ApiResult unit := for_each validate_disk disks.

Definition validate_nic (nic : VmNic) : ApiResult unit :=
  ensure_safe_id (n_bridge nic) ;?
  (match n_vlan nic with
   | Some vlan => if negb ((1 <=? vlan)%N && (vlan <=? 4094)%N)
                  then Err (validation "NIC VLAN must be in 1..=4094") else Ok tt
   | None => Ok tt
   end) ;?
  match n_mac nic with Some mac => ensure_safe_mac mac ;? Ok tt | None => Ok tt end.
Definition validate_nics (nics : list VmNic) : ApiResult unit := for_each validate_nic nics.

Definition validate_vm_request (req : CreateVmRequest) : ApiResult unit :=
  if is_empty (trim (c_name req)) then Err (validation "name must not be empty")
  else
    ensure_safe_id (c_name req) ;?
    if (c_vcpus req =? 0)%N then Err (validation "vcpus must be >= 1")
    else if (c_memory_mib req =? 0)%N then Err (validation "memory_mib must be >= 1")
    else validate_disks (c_disks req) ;? validate_nics (c_nics req).

(** The collecting loop of [normalize_nics]; [macs] are the addresses that
    [generate_mac] gives to the NICs in turn. *)
Fixpoint normalize_loop (seen : list str) (nics : list VmNic) (macs : list str) :
    ApiResult (list VmNic) :=
  match nics with
  | [] => Ok []
  | nic :: nics =>
      let mac := match n_mac nic with Some m => m | None => default [] (head macs) end in
      let key := to_ascii_lowercase mac in
      if bool_decide (key ∈ seen) then Err (conflict "duplicate VM NIC MAC address")
      else
        rest ← normalize_loop (key :: seen) nics (tail macs);
        Ok (mkNic (n_bridge nic) (n_vlan nic) (Some mac) (n_model nic) :: rest)
  end.
Definition normalize_nics (nics : list VmNic) (macs : list str) : ApiResult (list VmNic) :=
  validate_nics nics ;? normalize_loop [] nics macs.

Fixpoint validate_gpu_loop (seen : list str) (gpus : list PciAssignment) : ApiResult unit :=
  match gpus with
  | [] => Ok tt
  | gpu :: gpus =>
      ensure_safe_pci_address (pa_address gpu) ;?
      let key := to_ascii_lowercase (pa_address gpu) in
      if bool_decide (key ∈ seen) then Err (conflict "duplicate GPU assignment")
      else validate_gpu_loop (key :: seen) gpus
  end.
Definition validate_gpu_assignments (gpus : list PciAssignment) : ApiResult unit :=
  validate_gpu_loop [] gpus.

Definition validate_pci_assignments (devices : list PciAssignment) : ApiResult unit :=
  for_each (λ dev, ensure_safe_pci_address (pa_address dev) ;? Ok tt) devices.

Definition validate_usb_assignments (devices : list UsbAssignment) : ApiResult unit :=
  for_each (λ dev, if negb (is_hex4 (ua_vendor_id dev)) || negb (is_hex4 (ua_product_id dev))
                   then Err (validation ("USB id must be four hex digits: " ++ ua_vendor_id dev
                                         ++ ":" ++ ua_product_id dev))
                   else Ok tt) devices.

(** [generate_mac] from the bytes of a fresh UUID. *)
Definition hex2 (b : N) : str := [hex_digit (b / 16); hex_digit (b mod 16)].
Definition generate_mac (b0 b1 b2 : N) : str :=
  "52:54:00:" ++ hex2 b0 ++ ":" ++ hex2 b1 ++ ":" ++ hex2 b2.

Definition autostart_cmp (a b : Vm) : comparison :=
  then_ (N.compare (default U32_MAX (v_startup_order a)) (default U32_MAX (v_startup_order b)))
        (str_cmp (v_created_at a) (v_created_at b)).
Definition autostart_queue (vms : list Vm) : list Vm :=
  sort_by autostart_cmp (List.filter (λ vm, v_autostart vm && negb (v_template vm)) vms).

Definition map_vm_state (s : str) : VmState :=
  let s := trim s in
  if str_in s ["running"; "idle"] then Running
  else if str_in s ["paused"; "pmsuspended"] then Paused
  else if s =s? "in shutdown" then Transitioning
  else if s =s? "shut off" then Stopped
  else if s =s? "crashed" then ErrorState
  else Stopped.

Record VmSummary := mkSummary {
  sm_id : str; sm_name : str; sm_state : VmState; sm_vcpus : N; sm_memory_mib : N;
  sm_template : bool; sm_autostart : bool; sm_tags : list str; sm_pool : option str;
  sm_created_at : str }.
Definition summary_of (vm : Vm) : VmSummary :=
  mkSummary (v_id vm) (v_name vm) (v_state vm) (v_vcpus vm) (v_memory_mib vm) (v_template vm)
    (v_autostart vm) (v_tags vm) (v_pool vm) (v_created_at vm).

(** ** Snapshot names and datasets *)

Definition CLONE_SNAPSHOT_PREFIX : str := "daygleve-clone-".

Definition ensure_safe_dataset (dataset : str) : ApiResult str := ensure_safe_zfs_dataset dataset.

Definition ensure_safe_snapshot (name : str) : ApiResult str :=
  if starts_with CLONE_SNAPSHOT_PREFIX name then
    Err (validation ("snapshot name must not start with the reserved prefix "
                     ++ debug_str CLONE_SNAPSHOT_PREFIX))
  else if negb (is_empty name) && negb (starts_with "-" name)
          && forallb (alnum_or ".-_:") (bytes name)
  then Ok name
  else Err (validation ("invalid snapshot name: " ++ debug_str name)).

Fixpoint map_ok {E A B} (f : A → result E B) (l : list A) : result E (list B) :=
  match l with
  | [] => Ok []
  | a :: l => b ← f a; bs ← map_ok f l; Ok (b :: bs)
  end.

Definition snapshot_datasets (vm : Vm) : ApiResult (list str) :=
  map_ok ensure_safe_dataset
    (List.filter (λ d, negb (is_empty d)) (map (λ d, trim (dk_dataset d)) (v_disks vm))).

Definition is_missing_dataset (e : AppError) : bool :=
  let m := to_ascii_lowercase (message e) in
  contains "does not exist" m || contains "dataset does not exist" m.
Definition is_already_exists (e : AppError) : bool :=
  contains "already exists" (to_ascii_lowercase (message e)).

(** ** Reading tool output *)

(** [u16] arithmetic: [5900 + n] overflows past [U16_MAX], which panics in a
    debug build and wraps in a release one; the model wraps. *)
Definition parse_vnc_display (display : str) : option str :=
  '(host, disp) ← rsplit_once (ch ":") display;
  n ← parse_uint U16_MAX (trim disp);
  let host := if is_empty host then lit "127.0.0.1" else host in
  Some (host ++ ":" ++ dec ((5900 + n) mod 65536)).

Definition split_on (p : char → bool) (s : str) : str :=
  (fix go (s : str) := match s with [] => [] | c :: s => if p c then [] else c :: go s end) s.

Fixpoint first_port (pairs : list str) : option N :=
  match pairs with
  | [] => None
  | p :: pairs =>
      match value ← strip_prefix "port=" p; parse_uint U16_MAX value with
      | Some port => Some port
      | None => first_port pairs
      end
  end.

Definition parse_spice_port (uri : str) : option N :=
  match query ← nth_error (split (ch "?") uri) 1; first_port (split (ch "&") query) with
  | Some port => Some port
  | None =>
      let after_scheme := default uri (strip_prefix "spice://" uri) in
      let host_port := split_on (λ c, char_in c "/?") after_scheme in
      '(_, port) ← rsplit_once (ch ":") host_port;
      parse_uint U16_MAX port
  end.

Fixpoint parse_guest_info_loop (key : str) (ls : list str) : option str :=
  match ls with
  | [] => None
  | line :: ls =>
      match split_once (ch ":") (trim line) with
      | Some (k, v) =>
          let value := trim (trim_end_matches (ch ",") (trim v)) in
          if (trim k =s? key) && negb (is_empty value) then Some value
          else parse_guest_info_loop key ls
      | None => parse_guest_info_loop key ls
      end
  end.
Definition parse_guest_info_field (output key : str) : option str :=
  parse_guest_info_loop key (lines output).

Fixpoint domifaddr_loop (ips : list str) (ls : list str) : list str :=
  match ls with
  | [] => ips
  | line :: ls =>
      match split_whitespace line with
      | _ :: _ :: kind :: address :: _ =>
          if negb (kind =s? "ipv4") && negb (kind =s? "ipv6") then domifaddr_loop ips ls
          else
            let addr := default [] (head (split (ch "/") address)) in
            if negb (is_empty addr) && negb (bool_decide (addr ∈ ips))
            then domifaddr_loop (ips ++ [addr]) ls else domifaddr_loop ips ls
      | _ => domifaddr_loop ips ls
      end
  end.
Definition parse_domifaddr_ips (output : str) : list str := domifaddr_loop [] (drop 2 (lines output)).
