(* ===== verification/DomainXml.v ===== *)
(** * The libvirt domain document (src/src/services/kvm.rs)

    [domain_xml] and its parts, as the source formats them: the records' strings
    go through [xml_escape], the rest is fixed text. *)

From S2P Require Export VmData.

(** [s.replace(c, by)] for a character [c]. *)
Definition replace_char (c : char) (by_ : str) (s : str) : str :=
  flat_map (λ x, if (x =? c)%N then by_ else [x]) s.

(** The quotation mark, which a string literal of Rocq cannot hold. *)
Definition DQUOTE : char := 34%N.

Definition xml_escape (s : str) : str :=
  replace_char (ch "'") "&apos;" (replace_char DQUOTE "&quot;" (replace_char (ch ">") "&gt;"
    (replace_char (ch "<") "&lt;" (replace_char (ch "&") "&amp;" s)))).

Definition nl : str := [10%N].

Definition disk_letter (index : nat) : char := (97 + (N.of_nat index mod 256) mod 26)%N.
Definition disk_target (bus : DiskBus) (index : nat) : str * str :=
  let letter := disk_letter index in
  match bus with
  | Virtio => (lit "vd" ++ [letter], lit "virtio")
  | Scsi => (lit "sd" ++ [letter], lit "scsi")
  | Sata => (lit "sd" ++ [letter], lit "sata")
  end.
Definition disk_target_name (index : nat) (bus : DiskBus) : str := (disk_target bus index).1.

(** [o.map(f).unwrap_or_default()]. *)
Definition opt_str {A} (o : option A) (f : A → str) : str := match o with Some a => f a | None => [] end.

Definition disk_xml (index : nat) (disk : VmDisk) (boot_order : option N) : str :=
  let '(target, bus) := disk_target (dk_bus disk) index in
  let boot := opt_str boot_order (λ o, "      <boot order='" ++ dec o ++ "'/>" ++ nl) in
  "    <disk type='block' device='disk'>" ++ nl ++
  "      <driver name='qemu' type='raw' cache='none' io='native'/>" ++ nl ++
  "      <source dev='/dev/zvol/" ++ xml_escape (dk_dataset disk) ++ "'/>" ++ nl ++
  "      <target dev='" ++ target ++ "' bus='" ++ bus ++ "'/>" ++ nl ++
  boot ++ "    </disk>" ++ nl.

Definition cdrom_xml (iso_path : str) : str :=
  "    <disk type='file' device='cdrom'>" ++ nl ++
  "      <driver name='qemu' type='raw'/>" ++ nl ++
  "      <source file='" ++ xml_escape iso_path ++ "'/>" ++ nl ++
  "      <target dev='sdaa' bus='sata'/>" ++ nl ++
  "      <readonly/>" ++ nl ++
  "      <boot order='1'/>" ++ nl ++
  "    </disk>" ++ nl.

Definition cloud_init_cdrom_xml (iso_path : str) : str :=
  "    <disk type='file' device='cdrom'>" ++ nl ++
  "      <driver name='qemu' type='raw'/>" ++ nl ++
  "      <source file='" ++ xml_escape iso_path ++ "'/>" ++ nl ++
  "        <target dev='sdab' bus='sata'/>" ++ nl ++
  "      <readonly/>" ++ nl ++
  "    </disk>" ++ nl.

Definition guest_agent_channel_xml : str :=
  "    <channel type='unix'>" ++ nl ++
  "      <target type='virtio' name='org.qemu.guest_agent.0'/>" ++ nl ++
  "    </channel>" ++ nl.

Definition nic_model_name (m : NicModel) : str :=
  match m with NicVirtio => lit "virtio" | E1000 => lit "e1000" | Rtl8139 => lit "rtl8139" end.

Definition nic_xml (nic : VmNic) : str :=
  let mac := opt_str (n_mac nic) (λ m, "      <mac address='" ++ xml_escape m ++ "'/>" ++ nl) in
  let vlan := opt_str (n_vlan nic) (λ tag, "      <vlan><tag id='" ++ dec tag ++ "'/></vlan>" ++ nl) in
  "    <interface type='bridge'>" ++ nl ++
  "      <source bridge='" ++ xml_escape (n_bridge nic) ++ "'/>" ++ nl ++
  mac ++ "      <model type='" ++ nic_model_name (n_model nic) ++ "'/>" ++ nl ++
  vlan ++ "    </interface>" ++ nl.

Definition pci_hostdev_xml (pci_address : str) : option str :=
  match ensure_safe_pci_address pci_address with
  | Err _ => None
  | Ok _ =>
      '(dbs, func) ← rsplit_once (ch ".") pci_address;
      match split (ch ":") dbs with
      | domain :: bus :: slot :: _ =>
          Some ("    <hostdev mode='subsystem' type='pci' managed='yes'>" ++ nl ++
                "      <source><address domain='0x" ++ domain ++ "' bus='0x" ++ bus ++
                "' slot='0x" ++ slot ++ "' function='0x" ++ func ++ "'/></source>" ++ nl ++
                "    </hostdev>" ++ nl)
      | _ => None
      end
  end.

Definition usb_hostdev_xml (vendor_id product_id : str) : option str :=
  if negb (is_hex4 vendor_id) || negb (is_hex4 product_id) then None
  else Some ("    <hostdev mode='subsystem' type='usb'>" ++ nl ++
             "      <source><vendor id='0x" ++ vendor_id ++ "'/><product id='0x" ++ product_id ++
             "'/></source>" ++ nl ++
             "    </hostdev>" ++ nl).

Definition os_xml (firmware : Firmware) (has_cdrom : bool) : str :=
  let os_boot := if has_cdrom then lit "<bootmenu enable='yes'/>" else lit "<boot dev='hd'/>" in
  match firmware with
  | Uefi => "<os firmware='efi'>" ++ nl ++ "    <type arch='x86_64' machine='q35'>hvm</type>" ++ nl
            ++ "    " ++ os_boot ++ nl ++ "  </os>"
  | Bios => "<os>" ++ nl ++ "    <type arch='x86_64' machine='q35'>hvm</type>" ++ nl
            ++ "    " ++ os_boot ++ nl ++ "  </os>"
  end.

Definition graphics_xml (display : DisplayProtocol) (spice_listen : str) : str :=
  match display with
  | Vnc => "<graphics type='vnc' port='-1' autoport='yes' listen='127.0.0.1'/>" ++ nl ++
           "    <video><model type='virtio' heads='1'/></video>"
  | Spice => "<graphics type='spice' autoport='yes' listen='" ++ xml_escape spice_listen ++
             "'><image compression='off'/></graphics>" ++ nl ++
             "    <video><model type='qxl' ram='65536' vram='65536' heads='1'/></video>"
  end.

(** The disks with their positions; the first boots second when there is an
    install medium. *)
Fixpoint disks_xml (has_cdrom : bool) (i : nat) (disks : list VmDisk) : str :=
  match disks with
  | [] => []
  | d :: disks =>
      let boot := if has_cdrom && (i =? 0)%nat then Some 2%N else None in
      disk_xml i d boot ++ disks_xml has_cdrom (S i) disks
  end.

Definition hostdevs_xml (vm : Vm) : str :=
  concat (omap (λ g, pci_hostdev_xml (pa_address g)) (v_gpus vm)
          ++ omap (λ p, pci_hostdev_xml (pa_address p)) (v_pci_devices vm)
          ++ omap (λ u, usb_hostdev_xml (ua_vendor_id u) (ua_product_id u)) (v_usb_devices vm)).

Definition domain_xml (vm : Vm) (spice_listen : str) : str :=
  let has_cdrom := bool_decide (is_Some (v_cdrom vm)) in
  let os := os_xml (v_firmware vm) has_cdrom in
  let disks := disks_xml has_cdrom 0 (v_disks vm) in
  let cdrom := opt_str (v_cdrom vm) cdrom_xml in
  let cloud_init_cdrom := opt_str (v_cloud_init_iso vm) cloud_init_cdrom_xml in
  let nics := concat (map nic_xml (v_nics vm)) in
  let hostdevs := hostdevs_xml vm in
  let guest_agent_channel := if v_guest_agent vm then guest_agent_channel_xml else [] in
  let description := opt_str (v_description vm)
    (λ d, "  <description>" ++ xml_escape d ++ "</description>" ++ nl) in
  let graphics := graphics_xml (v_display vm) spice_listen in
  "<domain type='kvm'>" ++ nl ++
  "  <name>" ++ xml_escape (v_name vm) ++ "</name>" ++ nl ++
  "  <uuid>" ++ v_id vm ++ "</uuid>" ++ nl ++
  description ++
  "  <memory unit='MiB'>" ++ dec (v_memory_mib vm) ++ "</memory>" ++ nl ++
  "  <currentMemory unit='MiB'>" ++ dec (v_memory_mib vm) ++ "</currentMemory>" ++ nl ++
  "  <vcpu placement='static'>" ++ dec (v_vcpus vm) ++ "</vcpu>" ++ nl ++
  "  " ++ os ++ nl ++
  "  <features><acpi/><apic/></features>" ++ nl ++
  "  <cpu mode='host-passthrough' check='none'/>" ++ nl ++
  "  <clock offset='utc'/>" ++ nl ++
  "  <on_poweroff>destroy</on_poweroff>" ++ nl ++
  "  <on_reboot>restart</on_reboot>" ++ nl ++
  "  <on_crash>destroy</on_crash>" ++ nl ++
  "  <devices>" ++ nl ++
  "    <emulator>/usr/bin/qemu-system-x86_64</emulator>" ++ nl ++
  disks ++ cdrom ++ cloud_init_cdrom ++ nics ++ hostdevs ++ "    " ++
  guest_agent_channel ++ "    " ++
  graphics ++ nl ++
  "    <memballoon model='virtio'/>" ++ nl ++
  "    <serial type='pty'><target type='isa-serial' port='0'/></serial>" ++ nl ++
  "    <console type='pty'><target type='serial' port='0'/></console>" ++ nl ++
  "  </devices>" ++ nl ++
  "</domain>" ++ nl.
