(* ===== verification/DomainXmlProofs.v ===== *)
(** * The domain document says what the record says

    A reader of XML elements, attributes, character data and the five predefined
    entities, character by character, and the proof that it reads back from
    [domain_xml] exactly the tree of elements that the record describes: no string
    of a record can open, close or extend an element. *)

From S2P Require Export DomainXml.

(** ** Trees and their reader *)

Inductive xml :=
  | El (name : str) (attrs : list (str * str)) (kids : list xml)
  | Txt (text : str).

(** The five predefined entities. *)
Definition entities : list (str * char) :=
  [(lit "&amp;", ch "&"); (lit "&lt;", ch "<"); (lit "&gt;", ch ">");
   (lit "&quot;", DQUOTE); (lit "&apos;", ch "'")].
Fixpoint entity (es : list (str * char)) (s : str) : option (char * str) :=
  match es with
  | [] => None
  | (e, c) :: es => match strip_prefix e s with Some r => Some (c, r) | None => entity es s end
  end.
#[global] Arguments entity : simpl never.
#[global] Arguments entities : simpl never.
Fixpoint unescape_go (fuel : nat) (s : str) : str :=
  match fuel, s with
  | S fuel, c :: s' =>
      match entity entities s with
      | Some (x, r) => x :: unescape_go fuel r
      | None => c :: unescape_go fuel s'
      end
  | _, _ => []
  end.
(** Every step consumes a character, so the length is fuel enough. *)
Definition unescape (s : str) : str := unescape_go (length s) s.

Definition snoc : str → char → str := fix go s c := match s with [] => [c] | x :: s => x :: go s c end.

(** Where the reader is; [attrs] and the children of an open element are kept in
    reverse. *)
Inductive mode :=
  | Text (buf : str)
  | Less
  | Open (name : str)
  | Tag (name : str) (attrs : list (str * str))
  | Attr (name : str) (attrs : list (str * str)) (attr : str)
  | Equals (name : str) (attrs : list (str * str)) (attr : str)
  | Value (name : str) (attrs : list (str * str)) (attr value : str)
  | Slash (name : str) (attrs : list (str * str))
  | Close (name : str)
  | Bad.

(** The innermost open element with its children so far, and the ones around. *)
Record frame := mkFrame { fr_name : str; fr_attrs : list (str * str); fr_kids : list xml }.
Inductive reader := St (m : mode) (top : frame) (outer : list frame).

(** Character data counts unless it is white space only. *)
Definition add_text (buf : str) (kids : list xml) : list xml :=
  if forallb is_whitespace buf then kids else Txt (unescape buf) :: kids.
Definition with_kids (f : frame) (kids : list xml) : frame := mkFrame (fr_name f) (fr_attrs f) kids.
Definition name_char (c : char) : bool := alnum_or "_-." c.

Definition step (st : reader) (c : char) : reader :=
  let '(St m top outer) := st in
  match m with
  | Text buf =>
      if (c =? ch "<")%N then St Less (with_kids top (add_text buf (fr_kids top))) outer
      else St (Text (snoc buf c)) top outer
  | Less =>
      if (c =? ch "/")%N then St (Close []) top outer
      else if name_char c then St (Open [c]) top outer else St Bad top outer
  | Open n =>
      if (c =? ch " ")%N then St (Tag n []) top outer
      else if (c =? ch ">")%N then St (Text []) (mkFrame n [] []) (top :: outer)
      else if (c =? ch "/")%N then St (Slash n []) top outer
      else if name_char c then St (Open (snoc n c)) top outer else St Bad top outer
  | Tag n attrs =>
      if (c =? ch " ")%N then st
      else if (c =? ch ">")%N then St (Text []) (mkFrame n attrs []) (top :: outer)
      else if (c =? ch "/")%N then St (Slash n attrs) top outer
      else if name_char c then St (Attr n attrs [c]) top outer else St Bad top outer
  | Attr n attrs a =>
      if (c =? ch "=")%N then St (Equals n attrs a) top outer
      else if name_char c then St (Attr n attrs (snoc a c)) top outer else St Bad top outer
  | Equals n attrs a =>
      if (c =? ch "'")%N then St (Value n attrs a []) top outer else St Bad top outer
  | Value n attrs a v =>
      if (c =? ch "'")%N then St (Tag n ((a, unescape v) :: attrs)) top outer
      else if (c =? ch "<")%N then St Bad top outer
      else St (Value n attrs a (snoc v c)) top outer
  | Slash n attrs =>
      if (c =? ch ">")%N then St (Text []) (with_kids top (El n attrs [] :: fr_kids top)) outer
      else St Bad top outer
  | Close n =>
      if (c =? ch ">")%N then
        match outer with
        | parent :: outer =>
            if n =s? fr_name top then
              St (Text []) (with_kids parent (El n (fr_attrs top) (fr_kids top) :: fr_kids parent)) outer
            else St Bad top (parent :: outer)
        | [] => St Bad top []
        end
      else if name_char c then St (Close (snoc n c)) top outer else St Bad top outer
  | Bad => st
  end.

Definition run (st : reader) (s : str) : reader := foldl step st s.

(** Children and attributes in document order. *)
Fixpoint in_order (x : xml) : xml :=
  match x with
  | El n attrs kids => El n (reverse attrs) (reverse (map in_order kids))
  | Txt s => Txt s
  end.

(** The elements of a document, if it is one. *)
Definition read_xml (s : str) : option (list xml) :=
  match run (St (Text []) (mkFrame [] [] []) []) s with
  | St (Text buf) top [] => Some (reverse (map in_order (add_text buf (fr_kids top))))
  | _ => None
  end.

(** ** Escaped strings *)

Definition escape_char (c : char) : str :=
  if (c =? ch "&")%N then lit "&amp;" else if (c =? ch "<")%N then lit "&lt;"
  else if (c =? ch ">")%N then lit "&gt;" else if (c =? DQUOTE)%N then lit "&quot;"
  else if (c =? ch "'")%N then lit "&apos;" else [c].

Lemma replace_app c by_ a b : replace_char c by_ (a ++ b) = replace_char c by_ a ++ replace_char c by_ b.
Proof. apply flat_map_app. Qed.

Lemma xml_escape_app a b : xml_escape (a ++ b) = xml_escape a ++ xml_escape b.
Proof. unfold xml_escape. by rewrite !replace_app. Qed.

Lemma xml_escape_char c : xml_escape [c] = escape_char c.
Proof.
  unfold xml_escape, escape_char. destruct (N.eqb_spec c (ch "&")) as [->|H1]; [reflexivity|].
  destruct (N.eqb_spec c (ch "<")) as [->|H2]; [reflexivity|].
  destruct (N.eqb_spec c (ch ">")) as [->|H3]; [reflexivity|].
  destruct (N.eqb_spec c DQUOTE) as [->|H4]; [reflexivity|].
  destruct (N.eqb_spec c (ch "'")) as [->|H5]; [reflexivity|].
  assert (∀ d b, c ≠ d → replace_char d b [c] = [c]) as R.
  { intros d b Hd. unfold replace_char. simpl. by rewrite (proj2 (N.eqb_neq c d)). }
  by rewrite !R.
Qed.

Lemma xml_escape_cons c s : xml_escape (c :: s) = escape_char c ++ xml_escape s.
Proof. by rewrite <- xml_escape_char, <- xml_escape_app. Qed.

Lemma escape_char_safe c x : x ∈ escape_char c → x ≠ ch "<" ∧ x ≠ ch "'".
Proof.
  unfold escape_char. repeat case_match; bool_prop; intros Hx.
  1-5: assert (forallb (λ x, negb (x =? ch "<")%N && negb (x =? ch "'")%N) (lit "&amp;&lt;&gt;&quot;&apos;") = true)
         as Hall by reflexivity; rewrite forallb_Forall, Forall_forall in Hall;
       assert (x ∈ lit "&amp;&lt;&gt;&quot;&apos;") as Hin by (clear -Hx; vm_compute in Hx |- *; set_solver);
       apply Hall in Hin; bool_prop; naive_solver.
  apply list_elem_of_singleton in Hx as ->. done.
Qed.

Lemma xml_escape_safe s : Forall (λ x, x ≠ ch "<" ∧ x ≠ ch "'") (xml_escape s).
Proof.
  induction s as [|c s IH]; [constructor|]. rewrite xml_escape_cons. apply Forall_app. split; [|done].
  apply Forall_forall. intros x. apply escape_char_safe.
Qed.

Lemma strip_prefix_head a p x s : strip_prefix (a :: p) (x :: s) = if (a =? x)%N then strip_prefix p s else None.
Proof. done. Qed.

Lemma entity_amp es x s :
  Forall (λ e, ∃ p, e.1 = ch "&" :: p) es → x ≠ ch "&" → entity es (x :: s) = None.
Proof.
  intros H Hx. induction H as [|[e c] es [p He] _ IH]; [done|]. simpl in He. subst e.
  change (entity ((ch "&" :: p, c) :: es) (x :: s)) with
    (match strip_prefix (ch "&" :: p) (x :: s) with
     | Some r => Some (c, r) | None => entity es (x :: s) end).
  rewrite strip_prefix_head, (proj2 (N.eqb_neq (ch "&") x)) by congruence. done.
Qed.

Lemma entities_amp : Forall (λ e : str * char, ∃ p, e.1 = ch "&" :: p) entities.
Proof. repeat constructor; by eexists. Qed.

Lemma entity_escape c s :
  entity entities (escape_char c ++ s) = Some (c, s) ∨ (escape_char c = [c] ∧ c ≠ ch "&").
Proof.
  unfold escape_char.
  destruct (N.eqb_spec c (ch "&")) as [->|H1]; [left; reflexivity|].
  destruct (N.eqb_spec c (ch "<")) as [->|H2]; [left; reflexivity|].
  destruct (N.eqb_spec c (ch ">")) as [->|H3]; [left; reflexivity|].
  destruct (N.eqb_spec c DQUOTE) as [->|H4]; [left; reflexivity|].
  destruct (N.eqb_spec c (ch "'")) as [->|H5]; [left; reflexivity|]. by right.
Qed.

Lemma escape_char_cons c : ∃ x r, escape_char c = x :: r.
Proof. unfold escape_char. repeat case_match; by eexists _, _. Qed.

Lemma unescape_go_escape s fuel : (length (xml_escape s) ≤ fuel)%nat → unescape_go fuel (xml_escape s) = s.
Proof.
  revert fuel; induction s as [|c s IH]; intros fuel; [by destruct fuel|].
  rewrite xml_escape_cons, length_app. intros Hf.
  destruct (escape_char_cons c) as (x & r & Ex).
  destruct fuel as [|fuel]; [rewrite Ex in Hf; simpl in Hf; lia|].
  destruct (entity_escape c (xml_escape s)) as [H|[H Hc]].
  - rewrite Ex in H, Hf |- *. simpl in H, Hf |- *. rewrite H. f_equal. apply IH. lia.
  - rewrite H in Hf |- *. simpl in Hf |- *. rewrite (entity_amp entities) by (done || apply entities_amp).
    f_equal. apply IH. lia.
Qed.

Lemma unescape_plain p s :
  Forall (λ c, c ≠ ch "&") p → unescape (p ++ xml_escape s) = p ++ s.
Proof.
  unfold unescape. rewrite length_app. induction p as [|c p IH]; intros Hp; simpl.
  - by apply unescape_go_escape.
  - apply Forall_cons in Hp as [Hc Hp]. rewrite (entity_amp entities) by (done || apply entities_amp).
    f_equal. by apply IH.
Qed.

Lemma xml_escape_plain s :
  Forall (λ c, c ≠ ch "&" ∧ c ≠ ch "<" ∧ c ≠ ch ">" ∧ c ≠ DQUOTE ∧ c ≠ ch "'") s → xml_escape s = s.
Proof.
  induction 1 as [|c s (H1 & H2 & H3 & H4 & H5) _ IH]; [done|]. rewrite xml_escape_cons, IH.
  unfold escape_char. by rewrite !(proj2 (N.eqb_neq c _)).
Qed.

(** ** Running the reader over a piece of text *)

Lemma run_app st a b : run st (a ++ b) = run (run st a) b.
Proof. apply foldl_app. Qed.

Lemma snoc_app a c b : snoc a c ++ b = a ++ c :: b.
Proof. induction a as [|x a IH]; [done|]. simpl. by rewrite IH. Qed.

Lemma run_text buf top outer s :
  Forall (λ x, x ≠ ch "<") s → run (St (Text buf) top outer) s = St (Text (buf ++ s)) top outer.
Proof.
  revert buf; induction s as [|c s IH]; intros buf Hs; [by rewrite app_nil_r|].
  apply Forall_cons in Hs as [Hc Hs]. unfold run. simpl foldl.
  rewrite (proj2 (N.eqb_neq c _)) by done. etransitivity; [by apply IH|]. by rewrite snoc_app.
Qed.

Lemma run_value n attrs a v top outer s :
  Forall (λ x, x ≠ ch "<" ∧ x ≠ ch "'") s →
  run (St (Value n attrs a v) top outer) s = St (Value n attrs a (v ++ s)) top outer.
Proof.
  revert v; induction s as [|c s IH]; intros v Hs; [by rewrite app_nil_r|].
  apply Forall_cons in Hs as [[Hc Hq] Hs]. unfold run. simpl foldl.
  rewrite !(proj2 (N.eqb_neq c _)) by done. etransitivity; [by apply IH|]. by rewrite snoc_app.
Qed.

Lemma run_escaped_value n attrs a v top outer s :
  run (St (Value n attrs a v) top outer) (xml_escape s) = St (Value n attrs a (v ++ xml_escape s)) top outer.
Proof. apply run_value, xml_escape_safe. Qed.

Lemma run_escaped_text buf top outer s :
  run (St (Text buf) top outer) (xml_escape s) = St (Text (buf ++ xml_escape s)) top outer.
Proof.
  apply run_text. eapply Forall_impl; [apply xml_escape_safe|]. by intros x [? _].
Qed.

(** White space between elements is dropped. *)
Lemma add_space buf kids : forallb is_whitespace buf = true → add_text buf kids = kids.
Proof. unfold add_text. by intros ->. Qed.

(** ** Pieces of a document

    [reads s ts]: in element content after white space, [s] adds the nodes [ts] and
    leaves the reader in element content after white space. *)

Definition blank (s : str) : Prop := forallb is_whitespace s = true.
Definition reads (s : str) (ts : list xml) : Prop :=
  ∀ b n a k outer, blank b → ∃ b' raw,
    run (St (Text b) (mkFrame n a k) outer) s = St (Text b') (mkFrame n a (raw ++ k)) outer ∧
    blank b' ∧ map in_order raw = reverse ts.

Lemma blank_app a b : blank a → blank b → blank (a ++ b).
Proof. unfold blank. rewrite forallb_app. by intros -> ->. Qed.

Lemma reads_nil : reads [] [].
Proof. intros b n a k outer Hb. by exists b, []. Qed.

Lemma reads_app s1 s2 ts1 ts2 : reads s1 ts1 → reads s2 ts2 → reads (s1 ++ s2) (ts1 ++ ts2).
Proof.
  intros H1 H2 b n a k outer Hb. destruct (H1 b n a k outer Hb) as (b1 & r1 & E1 & Hb1 & Hr1).
  destruct (H2 b1 n a (r1 ++ k) outer Hb1) as (b2 & r2 & E2 & Hb2 & Hr2).
  exists b2, (r2 ++ r1). split_and!; [|done|].
  - by rewrite run_app, E1, E2, app_assoc.
  - by rewrite map_app, Hr1, Hr2, reverse_app.
Qed.

Lemma reads_then s1 s2 ts1 ts2 ts : reads s1 ts1 → reads s2 ts2 → ts = ts1 ++ ts2 → reads (s1 ++ s2) ts.
Proof. intros ?? ->. by apply reads_app. Qed.

Lemma blank_no_tag w : blank w → Forall (λ x, x ≠ ch "<") w.
Proof.
  unfold blank. rewrite forallb_Forall. intros H. eapply Forall_impl; [exact H|].
  intros c Hc ->. by vm_compute in Hc.
Qed.

Lemma run_blank b w top outer : blank w → run (St (Text b) top outer) w = St (Text (b ++ w)) top outer.
Proof. intros Hw. by apply run_text, blank_no_tag. Qed.

Lemma reads_blank w : blank w → reads w [].
Proof.
  intros Hw b n a k outer Hb. exists (b ++ w), []. split_and!; [by apply run_blank|by apply blank_app|done].
Qed.

(** The start of a tag, after white space. *)
Lemma run_less b w n a k outer s :
  blank b → blank w →
  run (St (Text b) (mkFrame n a k) outer) (w ++ ch "<" :: s) = run (St Less (mkFrame n a k) outer) s.
Proof.
  intros Hb Hw. rewrite run_app, run_blank by done. unfold run. simpl foldl.
  unfold with_kids. simpl. by rewrite add_space by (by apply blank_app).
Qed.

(** An element without content. *)
Lemma reads_empty w s name attrs :
  blank w →
  (∀ n a k outer, run (St Less (mkFrame n a k) outer) s
     = St (Text []) (mkFrame n a (El name (reverse attrs) [] :: k)) outer) →
  reads (w ++ ch "<" :: s) [El name attrs []].
Proof.
  intros Hw H b n a k outer Hb. exists [], [El name (reverse attrs) []].
  rewrite run_less, H by done. split_and!; [done..|]. simpl. by rewrite reverse_involutive.
Qed.

(** A start tag, and an element with content. *)
Definition opens (tag name : str) (attrs : list (str * str)) : Prop :=
  ∀ b n a k outer, blank b → run (St (Text b) (mkFrame n a k) outer) tag
    = St (Text []) (mkFrame name (reverse attrs) []) (mkFrame n a k :: outer).
Definition closes (tag name : str) : Prop :=
  ∀ b attrs k n a k' outer, blank b →
    run (St (Text b) (mkFrame name attrs k) (mkFrame n a k' :: outer)) tag
    = St (Text []) (mkFrame n a (El name attrs k :: k')) outer.
(** The end tag right after character data. *)
Definition ends_text (tag name : str) : Prop :=
  ∀ b attrs k n a k' outer, run (St (Text b) (mkFrame name attrs k) (mkFrame n a k' :: outer)) tag
    = St (Text []) (mkFrame n a (El name attrs (add_text b k) :: k')) outer.

Lemma opens_less w s name attrs :
  blank w →
  (∀ n a k outer, run (St Less (mkFrame n a k) outer) s
     = St (Text []) (mkFrame name (reverse attrs) []) (mkFrame n a k :: outer)) →
  opens (w ++ ch "<" :: s) name attrs.
Proof. intros Hw H b n a k outer Hb. by rewrite run_less, H. Qed.

Lemma closes_less w s name :
  blank w →
  (∀ attrs k n a k' outer, run (St Less (mkFrame name attrs k) (mkFrame n a k' :: outer)) s
     = St (Text []) (mkFrame n a (El name attrs k :: k')) outer) →
  closes (w ++ ch "<" :: s) name.
Proof. intros Hw H b attrs k n a k' outer Hb. by rewrite run_less, H. Qed.

Lemma reads_elem tag name attrs s ts close :
  opens tag name attrs → reads s ts → closes close name →
  reads (tag ++ s ++ close) [El name attrs ts].
Proof.
  intros Ho Hs Hc b n a k outer Hb. rewrite !run_app, (Ho b n a k outer Hb).
  destruct (Hs [] name (reverse attrs) [] (mkFrame n a k :: outer) eq_refl) as (b' & raw & -> & Hb' & Hraw).
  exists [], [El name (reverse attrs) raw]. rewrite Hc, app_nil_r by done.
  split_and!; [done..|]. simpl. by rewrite Hraw, !reverse_involutive.
Qed.

(** Character data. *)
Definition text (s : str) : list xml := if forallb is_whitespace s then [] else [Txt s].

Lemma escape_blank s : forallb is_whitespace (xml_escape s) = forallb is_whitespace s.
Proof.
  induction s as [|c s IH]; [done|]. rewrite xml_escape_cons, forallb_app, IH. simpl. f_equal.
  unfold escape_char.
  destruct (N.eqb_spec c (ch "&")) as [->|_]; [reflexivity|].
  destruct (N.eqb_spec c (ch "<")) as [->|_]; [reflexivity|].
  destruct (N.eqb_spec c (ch ">")) as [->|_]; [reflexivity|].
  destruct (N.eqb_spec c DQUOTE) as [->|_]; [reflexivity|].
  destruct (N.eqb_spec c (ch "'")) as [->|_]; [reflexivity|]. apply andb_true_r.
Qed.

Lemma reads_text tag name attrs s close :
  opens tag name attrs → ends_text close name →
  reads (tag ++ xml_escape s ++ close) [El name attrs (text s)].
Proof.
  intros Ho Hc b n a k outer Hb. rewrite !run_app, (Ho b n a k outer Hb), run_escaped_text, Hc.
  exists [], [El name (reverse attrs) (add_text (xml_escape s) [])]. split_and!; [done..|]. simpl.
  rewrite reverse_involutive. unfold add_text, text. rewrite escape_blank. f_equal.
  pose proof (unescape_plain [] s (Forall_nil_2 _)) as Hu. simpl in Hu.
  by destruct (forallb _ s); simpl; rewrite ?Hu.
Qed.

Lemma reads_xml s ts : reads s ts → read_xml s = Some ts.
Proof.
  intros H. unfold read_xml. destruct (H [] [] [] [] [] eq_refl) as (b & raw & -> & Hb & Hraw).
  simpl. by rewrite add_space, app_nil_r, Hraw, reverse_involutive.
Qed.

(** ** Computing with literal text

    [xml_run] evaluates the reader over literals and escaped values from a state
    inside a tag. *)

Ltac xml_lit :=
  match goal with
  | |- context [run (St ?m ?t ?o) ?s] =>
      lazymatch s with
      | lit _ =>
          let r := eval lazy -[add_text unescape app xml_escape dec reverse] in (run (St m t o) s) in
          change (run (St m t o) s) with r
      | _ :: _ =>
          let r := eval lazy -[add_text unescape app xml_escape dec reverse] in (run (St m t o) s) in
          change (run (St m t o) s) with r
      end
  end.
Ltac xml_run := rewrite ?run_app; repeat (xml_lit || rewrite run_escaped_value).

(** Split the first literal of a piece at its tag. *)
Ltac blank_prefix s :=
  lazymatch s with
  | 32%N :: ?s' => let w := blank_prefix s' in constr:(32%N :: w)
  | 10%N :: ?s' => let w := blank_prefix s' in constr:(10%N :: w)
  | _ => constr:(@nil N)
  end.
Ltac tag_rest s :=
  lazymatch s with 60%N :: ?s' => constr:(s') | _ :: ?s' => tag_rest s' end.
Ltac at_tag l :=
  let v := eval vm_compute in l in
  let w := blank_prefix v in
  let r := tag_rest v in
  change l with (w ++ ch "<" :: r).

(** ** The tree of a record *)

Definition el (name : string) (attrs : list (string * str)) (kids : list xml) : xml :=
  El (lit name) (map (λ '(a, v), (lit a, v)) attrs) kids.
Definition leaf (name : string) (attrs : list (string * str)) : xml := el name attrs [].
Definition opt_node {A} (o : option A) (f : A → xml) : list xml :=
  match o with Some a => [f a] | None => [] end.

Definition disk_tree (index : nat) (disk : VmDisk) (boot : option N) : xml :=
  let '(target, bus) := disk_target (dk_bus disk) index in
  el "disk" [("type", lit "block"); ("device", lit "disk")]
    ([leaf "driver" [("name", lit "qemu"); ("type", lit "raw"); ("cache", lit "none"); ("io", lit "native")];
      leaf "source" [("dev", "/dev/zvol/" ++ dk_dataset disk)];
      leaf "target" [("dev", target); ("bus", bus)]]
     ++ opt_node boot (λ o, leaf "boot" [("order", dec o)])).
Fixpoint disk_trees (has_cdrom : bool) (i : nat) (disks : list VmDisk) : list xml :=
  match disks with
  | [] => []
  | d :: disks =>
      disk_tree i d (if has_cdrom && (i =? 0)%nat then Some 2%N else None)
      :: disk_trees has_cdrom (S i) disks
  end.
Definition cdrom_tree (iso target : str) (boot : option N) : xml :=
  el "disk" [("type", lit "file"); ("device", lit "cdrom")]
    ([leaf "driver" [("name", lit "qemu"); ("type", lit "raw")];
      leaf "source" [("file", iso)];
      leaf "target" [("dev", target); ("bus", lit "sata")];
      leaf "readonly" []]
     ++ opt_node boot (λ o, leaf "boot" [("order", dec o)])).
Definition nic_tree (nic : VmNic) : xml :=
  el "interface" [("type", lit "bridge")]
    ([leaf "source" [("bridge", n_bridge nic)]]
     ++ opt_node (n_mac nic) (λ m, leaf "mac" [("address", m)])
     ++ [leaf "model" [("type", nic_model_name (n_model nic))]]
     ++ opt_node (n_vlan nic) (λ tag, el "vlan" [] [leaf "tag" [("id", dec tag)]])).
Definition pci_tree (domain bus slot func : str) : xml :=
  el "hostdev" [("mode", lit "subsystem"); ("type", lit "pci"); ("managed", lit "yes")]
    [el "source" [] [leaf "address" [("domain", "0x" ++ domain); ("bus", "0x" ++ bus);
                                     ("slot", "0x" ++ slot); ("function", "0x" ++ func)]]].
Definition usb_tree (vendor product : str) : xml :=
  el "hostdev" [("mode", lit "subsystem"); ("type", lit "usb")]
    [el "source" [] [leaf "vendor" [("id", "0x" ++ vendor)]; leaf "product" [("id", "0x" ++ product)]]].

(** The passthrough functions of a record: the addresses that name one. *)
Definition pci_parts (address : str) : option (str * str * str * str) :=
  match ensure_safe_pci_address address with
  | Err _ => None
  | Ok _ =>
      '(dbs, func) ← rsplit_once (ch ".") address;
      match split (ch ":") dbs with
      | domain :: bus :: slot :: _ => Some (domain, bus, slot, func)
      | _ => None
      end
  end.
Definition hostdev_trees (vm : Vm) : list xml :=
  omap (λ g, '(d, b, s, f) ← pci_parts (pa_address g); Some (pci_tree d b s f))
    (v_gpus vm ++ v_pci_devices vm)
  ++ omap (λ u, if is_hex4 (ua_vendor_id u) && is_hex4 (ua_product_id u)
                then Some (usb_tree (ua_vendor_id u) (ua_product_id u)) else None) (v_usb_devices vm).

Definition os_tree (firmware : Firmware) (has_cdrom : bool) : xml :=
  el "os" (match firmware with Uefi => [("firmware"%string, lit "efi")] | Bios => [] end)
    [el "type" [("arch", lit "x86_64"); ("machine", lit "q35")] [Txt "hvm"];
     if has_cdrom then leaf "bootmenu" [("enable", lit "yes")] else leaf "boot" [("dev", lit "hd")]].
Definition graphics_trees (display : DisplayProtocol) (spice_listen : str) : list xml :=
  match display with
  | Vnc => [leaf "graphics" [("type", lit "vnc"); ("port", lit "-1"); ("autoport", lit "yes");
                             ("listen", lit "127.0.0.1")];
            el "video" [] [leaf "model" [("type", lit "virtio"); ("heads", lit "1")]]]
  | Spice => [el "graphics" [("type", lit "spice"); ("autoport", lit "yes"); ("listen", spice_listen)]
                [leaf "image" [("compression", lit "off")]];
              el "video" [] [leaf "model" [("type", lit "qxl"); ("ram", lit "65536");
                                           ("vram", lit "65536"); ("heads", lit "1")]]]
  end.

Definition devices_trees (vm : Vm) (spice_listen : str) : list xml :=
  [el "emulator" [] [Txt "/usr/bin/qemu-system-x86_64"]]
  ++ disk_trees (bool_decide (is_Some (v_cdrom vm))) 0 (v_disks vm)
  ++ opt_node (v_cdrom vm) (λ iso, cdrom_tree iso "sdaa" (Some 1%N))
  ++ opt_node (v_cloud_init_iso vm) (λ iso, cdrom_tree iso "sdab" None)
  ++ map nic_tree (v_nics vm)
  ++ hostdev_trees vm
  ++ (if v_guest_agent vm then
        [el "channel" [("type", lit "unix")]
           [leaf "target" [("type", lit "virtio"); ("name", lit "org.qemu.guest_agent.0")]]] else [])
  ++ graphics_trees (v_display vm) spice_listen
  ++ [leaf "memballoon" [("model", lit "virtio")];
      el "serial" [("type", lit "pty")] [leaf "target" [("type", lit "isa-serial"); ("port", lit "0")]];
      el "console" [("type", lit "pty")] [leaf "target" [("type", lit "serial"); ("port", lit "0")]]].

Definition domain_tree (vm : Vm) (spice_listen : str) : xml :=
  el "domain" [("type", lit "kvm")]
    ([el "name" [] (text (v_name vm)); el "uuid" [] (text (v_id vm))]
     ++ opt_node (v_description vm) (λ d, el "description" [] (text d))
     ++ [el "memory" [("unit", lit "MiB")] (text (dec (v_memory_mib vm)));
         el "currentMemory" [("unit", lit "MiB")] (text (dec (v_memory_mib vm)));
         el "vcpu" [("placement", lit "static")] (text (dec (v_vcpus vm)));
         os_tree (v_firmware vm) (bool_decide (is_Some (v_cdrom vm)));
         el "features" [] [leaf "acpi" []; leaf "apic" []];
         leaf "cpu" [("mode", lit "host-passthrough"); ("check", lit "none")];
         leaf "clock" [("offset", lit "utc")];
         el "on_poweroff" [] [Txt "destroy"]; el "on_reboot" [] [Txt "restart"];
         el "on_crash" [] [Txt "destroy"];
         el "devices" [] (devices_trees vm spice_listen)]).

(** ** Reading the pieces *)

Lemma reads_nl s ts : reads s ts → reads (nl ++ s) ts.
Proof. intros H. by eapply reads_then; [by apply (reads_blank nl)|exact H|]. Qed.
Lemma reads_3 a e b r ts us : reads (a ++ e ++ b) ts → reads r us → reads (a ++ e ++ b ++ r) (ts ++ us).
Proof. intros H1 H2. replace (a ++ e ++ b ++ r) with ((a ++ e ++ b) ++ r) by (by rewrite <- !app_assoc). by apply reads_app. Qed.
Lemma reads_5 a e b f c r ts us :
  reads (a ++ e ++ b ++ f ++ c) ts → reads r us → reads (a ++ e ++ b ++ f ++ c ++ r) (ts ++ us).
Proof.
  intros H1 H2. replace (a ++ e ++ b ++ f ++ c ++ r) with ((a ++ e ++ b ++ f ++ c) ++ r)
    by (by rewrite <- !app_assoc). by apply reads_app.
Qed.
Lemma reads_line s ts : reads s ts → reads (s ++ nl) ts.
Proof. intros H. eapply reads_then; [exact H|by apply (reads_blank nl)|by rewrite app_nil_r]. Qed.

(** Fixed text, as a whole. *)
Lemma reads_lit w s ts :
  blank w →
  (∀ n a k outer, ∃ b raw, run (St Less (mkFrame n a k) outer) s
     = St (Text b) (mkFrame n a (raw ++ k)) outer ∧ blank b ∧ map in_order raw = reverse ts) →
  reads (w ++ ch "<" :: s) ts.
Proof. intros Hw H b n a k outer Hb. rewrite run_less by done. apply H. Qed.

Ltac nodes_above l k :=
  lazymatch l with
  | k => constr:(@nil xml)
  | ?x :: ?l' => let r := nodes_above l' k in constr:(x :: r)
  end.
Ltac fixed_xml :=
  lazymatch goal with |- reads (lit ?l) _ => at_tag (lit l) end;
  apply reads_lit; [reflexivity|];
  intros n a k outer;
  lazymatch goal with
  | |- ∃ b raw, run ?st ?s = _ ∧ _ =>
      let r := eval lazy in (run st s) in
      lazymatch r with
      | St (Text ?b) (mkFrame _ _ ?l) _ => let raw := nodes_above l k in exists b, raw
      end
  end; split_and!; reflexivity.

Ltac first_tag :=
  lazymatch goal with
  | |- _ (lit ?l ++ ?x) _ =>
      let v := eval vm_compute in (lit l) in
      let w := blank_prefix v in let r := tag_rest v in
      change (lit l ++ x) with (w ++ ch "<" :: (r ++ x))
  | |- _ (lit ?l ++ ?x) _ _ =>
      let v := eval vm_compute in (lit l) in
      let w := blank_prefix v in let r := tag_rest v in
      change (lit l ++ x) with (w ++ ch "<" :: (r ++ x))
  | |- _ (lit ?l) _ _ => at_tag (lit l)
  end.
Ltac plain_prefix := by repeat constructor.
(** One element without content whose attributes hold escaped strings. *)
Ltac leaf_xml :=
  first_tag; apply reads_empty; [reflexivity|];
  intros n a k outer; xml_run; rewrite ?unescape_plain by plain_prefix; reflexivity.
Ltac open_xml := first_tag; apply opens_less; [reflexivity|]; intros n a k outer; reflexivity.
Ltac close_xml :=
  lazymatch goal with |- closes (lit ?l) _ => at_tag (lit l) end;
  apply closes_less; [reflexivity|]; intros attrs k n a k' outer; reflexivity.
Ltac end_text := intros b attrs k n a k' outer; reflexivity.

(** Printed numbers need no escape. *)
Definition xml_plain (c : char) : bool :=
  negb (c =? ch "&")%N && negb (c =? ch "<")%N && negb (c =? ch ">")%N && negb (c =? DQUOTE)%N
  && negb (c =? ch "'")%N.
Lemma escape_plain s : Forall (λ c, xml_plain c = true) s → xml_escape s = s.
Proof.
  intros H. apply xml_escape_plain. eapply Forall_impl; [exact H|]. unfold xml_plain.
  intros c Hc. bool_prop. naive_solver.
Qed.
Lemma escape_dec n : xml_escape (dec n) = dec n.
Proof.
  apply escape_plain. eapply Forall_impl; [apply dec_digits|]. intros c.
  unfold is_ascii_digit, xml_plain. rewrite in_range_spec. intros Hc.
  rewrite !andb_true_iff, !negb_true_iff, !N.eqb_neq. repeat split; intros ->; destruct Hc as [H1 H2]; vm_compute in H1, H2; congruence.
Qed.

Lemma disk_letter_range i : (97 ≤ disk_letter i ≤ 122)%N.
Proof.
  unfold disk_letter. pose proof (N.mod_lt (N.of_nat i mod 256) 26 ltac:(done)) as H.
  generalize dependent ((N.of_nat i mod 256) mod 26)%N. intros m H. lia.
Qed.
Lemma escape_target bus i : xml_escape (disk_target bus i).1 = (disk_target bus i).1.
Proof.
  apply escape_plain. pose proof (disk_letter_range i) as Hl.
  assert (xml_plain (disk_letter i) = true) as Hp.
  { unfold xml_plain. rewrite !andb_true_iff, !negb_true_iff, !N.eqb_neq.
    repeat split; intros E; rewrite E in Hl; destruct Hl as [H1 H2]; vm_compute in H1, H2; congruence. }
  destruct bus; simpl; repeat constructor; done.
Qed.
Lemma escape_bus bus i : xml_escape (disk_target bus i).2 = (disk_target bus i).2.
Proof. destruct bus; reflexivity. Qed.

(** Hexadecimal fields need no escape. *)
Lemma hexdigit_range c : is_ascii_hexdigit c = true → (48 ≤ c ≤ 57 ∨ 65 ≤ c ≤ 70 ∨ 97 ≤ c ≤ 102)%N.
Proof.
  unfold is_ascii_hexdigit, is_ascii_digit. rewrite !orb_true_iff, !in_range_spec. tauto.
Qed.

Lemma range_xml_plain (lo hi c : N) :
  forallb (λ x, (x <? lo)%N || (hi <? x)%N) [ch "&"; ch "<"; ch ">"; DQUOTE; ch "'"] = true →
  (lo ≤ c ≤ hi)%N → xml_plain c = true.
Proof.
  simpl. rewrite !andb_true_iff, !orb_true_iff, !N.ltb_lt. intros H Hc.
  unfold xml_plain. rewrite !andb_true_iff, !negb_true_iff, !N.eqb_neq. lia.
Qed.

Lemma hex_xml_plain c : is_ascii_hexdigit c = true → xml_plain c = true.
Proof. intros [H|[H|H]]%hexdigit_range; revert H; by apply range_xml_plain. Qed.

Lemma escape_hex s : forallb is_ascii_hexdigit (bytes s) = true → xml_escape s = s.
Proof.
  rewrite forallb_bytes by (intros b Hb%hexdigit_range; lia). rewrite forallb_Forall. intros H.
  apply escape_plain. eapply Forall_impl; [exact H|]. apply hex_xml_plain.
Qed.

(** Safe ids need no escape either. *)
Lemma plain_id_char c : alnum_or ".-_" c = true → xml_plain c = true.
Proof.
  unfold alnum_or, is_ascii_alphanumeric, is_ascii_digit, is_ascii_uppercase, is_ascii_lowercase.
  rewrite !orb_true_iff, !in_range_spec, char_in_spec.
  intros [[[H|H]|H]|H]; try (revert H; by apply range_xml_plain).
  change (lit ".-_") with [ch "."; ch "-"; ch "_"] in H.
  rewrite !elem_of_cons, elem_of_nil in H. naive_solver.
Qed.
Lemma safe_id_escape id r : ensure_safe_id id = Ok r → xml_escape id = id.
Proof.
  intros [_ (_ & _ & _ & _ & Hc)]%ensure_safe_id_ok. apply escape_plain.
  eapply Forall_impl; [exact Hc|]. apply plain_id_char.
Qed.

(** Regroup a concatenation. *)
Ltac regroup t := match goal with |- reads ?s _ => replace s with t by (by rewrite <- ?app_assoc) end.

Lemma reads_opt {A} (o : option A) (f : A → str) (t : A → xml) :
  (∀ a, o = Some a → reads (f a) [t a]) → reads (opt_str o f) (opt_node o t).
Proof. intros H. destruct o as [a|]; [by apply H|apply reads_nil]. Qed.

Lemma reads_boot o : reads ("      <boot order='" ++ dec o ++ "'/>" ++ nl) [leaf "boot" [("order", dec o)]].
Proof.
  rewrite <- (escape_dec o) at 1. apply (reads_3 _ _ _ nl [_] []); [leaf_xml|by apply reads_blank].
Qed.

Lemma reads_disk i d boot : reads (disk_xml i d boot) [disk_tree i d boot].
Proof.
  unfold disk_xml, disk_tree. destruct d as [ds size bus]; simpl dk_dataset; simpl dk_bus.
  rewrite (surjective_pairing (disk_target bus i)).
  rewrite <- (escape_target bus i) at 1. rewrite <- (escape_bus bus i) at 1.
  generalize (disk_target bus i).1 as t, (disk_target bus i).2 as u. intros t u.
  pose proof (reads_opt boot _ _ (λ o _, reads_boot o)) as Hb.
  set (boot_line := opt_str _ _) in *.
  match goal with |- reads (?o ++ nl ++ ?l1 ++ nl ++ ?a ++ ?e ++ ?b ++ nl ++ ?c ++ ?f ++ ?g ++ ?h ++ ?j
                            ++ nl ++ boot_line ++ ?z ++ nl) _ =>
    regroup ((o ++ (nl ++ l1 ++ nl ++ (a ++ e ++ b ++ nl ++ (c ++ f ++ g ++ h ++ j ++ nl ++ boot_line))) ++ z) ++ nl)
  end.
  apply reads_line, reads_elem; [open_xml| |close_xml].
  apply reads_nl, (reads_app _ _ [_]); [fixed_xml|].
  apply reads_nl, (reads_3 _ _ _ _ [_]); [leaf_xml|].
  apply reads_nl, (reads_5 _ _ _ _ _ _ [_]); [leaf_xml|]. by apply reads_nl.
Qed.

Lemma reads_disks has_cdrom i disks : reads (disks_xml has_cdrom i disks) (disk_trees has_cdrom i disks).
Proof.
  revert i; induction disks as [|d disks IH]; intros i; [apply reads_nil|].
  apply (reads_app _ _ [_]); [apply reads_disk|apply IH].
Qed.

Lemma reads_cdrom iso : reads (cdrom_xml iso) [cdrom_tree iso "sdaa" (Some 1%N)].
Proof.
  unfold cdrom_xml, cdrom_tree.
  match goal with |- reads (?o ++ nl ++ ?l1 ++ nl ++ ?a ++ ?e ++ ?b ++ nl ++ ?c ++ nl ++ ?d ++ nl ++ ?f
                            ++ nl ++ ?z ++ nl) _ =>
    regroup ((o ++ (nl ++ l1 ++ nl ++ (a ++ e ++ b ++ nl ++ c ++ nl ++ d ++ nl ++ f ++ nl)) ++ z) ++ nl)
  end.
  apply reads_line, reads_elem; [open_xml| |close_xml].
  apply reads_nl, (reads_app _ _ [_]); [fixed_xml|].
  apply reads_nl, (reads_3 _ _ _ _ [_]); [leaf_xml|].
  apply reads_nl, (reads_app _ _ [_]); [fixed_xml|].
  apply reads_nl, (reads_app _ _ [_]); [fixed_xml|].
  apply reads_nl, (reads_app _ _ [_] []); [fixed_xml|by apply reads_blank].
Qed.

Lemma reads_cloud_init iso : reads (cloud_init_cdrom_xml iso) [cdrom_tree iso "sdab" None].
Proof.
  unfold cloud_init_cdrom_xml, cdrom_tree.
  match goal with |- reads (?o ++ nl ++ ?l1 ++ nl ++ ?a ++ ?e ++ ?b ++ nl ++ ?c ++ nl ++ ?d
                            ++ nl ++ ?z ++ nl) _ =>
    regroup ((o ++ (nl ++ l1 ++ nl ++ (a ++ e ++ b ++ nl ++ c ++ nl ++ d ++ nl)) ++ z) ++ nl)
  end.
  apply reads_line, reads_elem; [open_xml| |close_xml].
  apply reads_nl, (reads_app _ _ [_]); [fixed_xml|].
  apply reads_nl, (reads_3 _ _ _ _ [_]); [leaf_xml|].
  apply reads_nl, (reads_app _ _ [_]); [fixed_xml|].
  apply reads_nl, (reads_app _ _ [_] []); [fixed_xml|by apply reads_blank].
Qed.

Lemma reads_mac m : reads ("      <mac address='" ++ xml_escape m ++ "'/>" ++ nl) [leaf "mac" [("address", m)]].
Proof. apply (reads_3 _ _ _ nl [_] []); [leaf_xml|by apply reads_blank]. Qed.

Lemma reads_vlan tag :
  reads ("      <vlan><tag id='" ++ dec tag ++ "'/></vlan>" ++ nl) [el "vlan" [] [leaf "tag" [("id", dec tag)]]].
Proof.
  rewrite <- (escape_dec tag) at 1. apply (reads_3 _ _ _ nl [_] []); [|by apply reads_blank].
  first_tag. apply reads_lit; [reflexivity|]. intros n a k outer.
  exists [], [El (lit "vlan") [] [El (lit "tag") [(lit "id", dec tag)] []]]. split_and!; [|reflexivity..].
  xml_run. rewrite (unescape_plain []) by plain_prefix. rewrite add_space by done. reflexivity.
Qed.

Lemma reads_nic nic : reads (nic_xml nic) [nic_tree nic].
Proof.
  unfold nic_xml, nic_tree. destruct nic as [bridge vlan mac model]; simpl n_bridge; simpl n_mac; simpl n_vlan; simpl n_model.
  pose proof (reads_opt mac _ _ (λ m _, reads_mac m)) as Hm.
  pose proof (reads_opt vlan _ _ (λ t _, reads_vlan t)) as Hv.
  set (mac_line := opt_str mac _) in *. set (vlan_line := opt_str vlan _) in *.
  match goal with |- reads (?o ++ nl ++ ?a ++ ?e ++ ?b ++ nl ++ mac_line ++ ?c ++ ?f ++ ?d ++ nl
                            ++ vlan_line ++ ?z ++ nl) _ =>
    regroup ((o ++ (nl ++ a ++ e ++ b ++ nl ++ mac_line ++ c ++ f ++ d ++ nl ++ vlan_line) ++ z) ++ nl)
  end.
  apply reads_line, reads_elem; [open_xml| |close_xml].
  apply reads_nl, (reads_3 _ _ _ _ [_]); [leaf_xml|].
  apply reads_nl, reads_app; [exact Hm|].
  apply (reads_3 _ _ _ _ [_]); [destruct model; leaf_xml|]. by apply reads_nl.
Qed.

Lemma reads_concat {A} (f : A → str) (t : A → xml) l :
  (∀ x, reads (f x) [t x]) → reads (concat (map f l)) (map t l).
Proof.
  intros H. induction l as [|x l IH]; [apply reads_nil|]. apply (reads_app _ _ [_]); [apply H|exact IH].
Qed.

Lemma reads_omap {A} (f : A → option str) (t : A → option xml) l :
  (∀ x, option_Forall2 (λ s u, reads s [u]) (f x) (t x)) → reads (concat (omap f l)) (omap t l).
Proof.
  intros H. induction l as [|x l IH]; [apply reads_nil|]. simpl.
  destruct (H x) as [s u Hs|]; [|exact IH]. apply (reads_app _ _ [_]); [exact Hs|exact IH].
Qed.

Lemma reads_usb v p : option_Forall2 (λ s u, reads s [u]) (usb_hostdev_xml v p)
  (if is_hex4 v && is_hex4 p then Some (usb_tree v p) else None).
Proof.
  unfold usb_hostdev_xml. destruct (is_hex4 v) eqn:Hv, (is_hex4 p) eqn:Hp; cbn [negb orb andb]; try by constructor.
  constructor. unfold is_hex4 in Hv, Hp. apply andb_true_iff in Hv as [_ Hv], Hp as [_ Hp].
  cbv beta. apply escape_hex in Hv, Hp. rewrite <- Hv at 1. rewrite <- Hp at 1.
  match goal with |- reads (?o ++ nl ++ ?a ++ ?e ++ ?b ++ ?f ++ ?c ++ nl ++ ?z ++ nl) _ =>
    regroup ((o ++ (nl ++ a ++ e ++ b ++ f ++ c ++ nl) ++ z) ++ nl) end.
  apply reads_line, reads_elem; [open_xml| |close_xml].
  apply reads_nl, (reads_5 _ _ _ _ _ _ [_] []); [|by apply reads_blank].
  first_tag. apply reads_lit; [reflexivity|]. intros n a k outer.
  exists [], [El (lit "source") [] [El (lit "product") [(lit "id", lit "0x" ++ p)] [];
                                    El (lit "vendor") [(lit "id", lit "0x" ++ v)] []]].
  split_and!; [|reflexivity..]. xml_run. rewrite !unescape_plain by plain_prefix.
  rewrite add_space by done. reflexivity.
Qed.

Lemma reads_pci address : option_Forall2 (λ s u, reads s [u]) (pci_hostdev_xml address)
  ('(d, b, s, f) ← pci_parts address; Some (pci_tree d b s f)).
Proof.
  unfold pci_hostdev_xml, pci_parts, ensure_safe_pci_address.
  destruct (rsplit_once (ch ".") address) as [[dbs func]|] eqn:E; [|constructor].
  unfold mbind, option_bind.
  destruct (split (ch ":") dbs) as [|p0 [|p1 [|p2 [|? ?]]]]; try constructor.
  cbv zeta. destruct (_ && _) eqn:Hv; [|constructor]. constructor.
  rewrite !andb_true_iff in Hv. destruct Hv as [[_ [H0 [H1 [H2 _]%andb_true_iff]%andb_true_iff]%andb_true_iff] Hf].
  cbv beta. apply escape_hex in H0, H1, H2, Hf.
  rewrite <- H0 at 1. rewrite <- H1 at 1. rewrite <- H2 at 1. rewrite <- Hf at 1.
  match goal with |- reads (?o ++ nl ++ ?a ++ ?e ++ ?b ++ ?f ++ ?c ++ ?g ++ ?h ++ ?i ++ ?j ++ nl ++ ?z ++ nl) _ =>
    regroup ((o ++ (nl ++ (a ++ e ++ b ++ f ++ c ++ g ++ h ++ i ++ j) ++ nl) ++ z) ++ nl) end.
  apply reads_line, reads_elem; [open_xml| |close_xml].
  apply reads_nl, (reads_app _ _ [_] []); [|by apply reads_blank].
  first_tag. apply reads_lit; [reflexivity|]. intros n a k outer.
  exists [], [El (lit "source") [] [El (lit "address")
    [(lit "function", lit "0x" ++ func); (lit "slot", lit "0x" ++ p2);
     (lit "bus", lit "0x" ++ p1); (lit "domain", lit "0x" ++ p0)] []]].
  split_and!; [|reflexivity..]. xml_run. rewrite !unescape_plain by plain_prefix.
  rewrite add_space by done. reflexivity.
Qed.

Lemma reads_hostdevs vm : reads (hostdevs_xml vm) (hostdev_trees vm).
Proof.
  unfold hostdevs_xml, hostdev_trees. rewrite !concat_app, omap_app, <- app_assoc.
  apply reads_app; [|apply reads_app]; apply reads_omap; intros x.
  - apply reads_pci.
  - apply reads_pci.
  - apply reads_usb.
Qed.

Lemma reads_os fw has_cdrom : reads (os_xml fw has_cdrom) [os_tree fw has_cdrom].
Proof.
  unfold os_xml, os_tree.
  destruct fw; match goal with |- reads (?o ++ nl ++ ?a ++ nl ++ ?i ++ ?b ++ nl ++ ?z) _ =>
    regroup (o ++ (nl ++ a ++ nl ++ (i ++ b) ++ nl) ++ z) end;
    apply reads_elem; try open_xml; try close_xml;
    apply reads_nl, (reads_app _ _ [_]); try fixed_xml;
    apply reads_nl, reads_line; (apply (reads_app _ _ []); [by apply reads_blank|]);
    destruct has_cdrom; fixed_xml.
Qed.

Lemma reads_graphics display listen : reads (graphics_xml display listen) (graphics_trees display listen).
Proof.
  destruct display; unfold graphics_xml, graphics_trees.
  - apply (reads_app _ _ [_]); [fixed_xml|]. apply reads_nl. fixed_xml.
  - apply (reads_3 _ _ _ _ [_]).
    + first_tag. apply reads_lit; [reflexivity|]. intros n a k outer.
      exists [], [El (lit "graphics") [(lit "listen", listen); (lit "autoport", lit "yes"); (lit "type", lit "spice")]
        [El (lit "image") [(lit "compression", lit "off")] []]].
      split_and!; [|reflexivity..]. xml_run. rewrite (unescape_plain []) by plain_prefix.
      rewrite !add_space by done. reflexivity.
    + apply reads_nl. fixed_xml.
Qed.

Lemma reads_channel vm :
  reads (if v_guest_agent vm then guest_agent_channel_xml else [])
    (if v_guest_agent vm then
       [el "channel" [("type", lit "unix")]
          [leaf "target" [("type", lit "virtio"); ("name", lit "org.qemu.guest_agent.0")]]] else []).
Proof.
  destruct (v_guest_agent vm); [|apply reads_nil]. unfold guest_agent_channel_xml.
  match goal with |- reads (?o ++ nl ++ ?a ++ nl ++ ?z ++ nl) _ => regroup ((o ++ (nl ++ a ++ nl) ++ z) ++ nl) end.
  apply reads_line, reads_elem; [open_xml| |close_xml]. apply reads_nl, reads_line. fixed_xml.
Qed.

(** The content of [<devices>] and what comes before it. *)
Definition devices_xml (vm : Vm) (spice_listen : str) : str :=
  nl ++ "    <emulator>/usr/bin/qemu-system-x86_64</emulator>" ++ nl ++
  disks_xml (bool_decide (is_Some (v_cdrom vm))) 0 (v_disks vm) ++ opt_str (v_cdrom vm) cdrom_xml
  ++ opt_str (v_cloud_init_iso vm) cloud_init_cdrom_xml ++ concat (map nic_xml (v_nics vm))
  ++ hostdevs_xml vm ++ "    " ++ (if v_guest_agent vm then guest_agent_channel_xml else []) ++ "    " ++
  graphics_xml (v_display vm) spice_listen ++ nl ++
  "    <memballoon model='virtio'/>" ++ nl ++
  "    <serial type='pty'><target type='isa-serial' port='0'/></serial>" ++ nl ++
  "    <console type='pty'><target type='serial' port='0'/></console>" ++ nl.

Lemma reads_devices vm listen : reads (devices_xml vm listen) (devices_trees vm listen).
Proof.
  unfold devices_xml, devices_trees.
  apply reads_nl, (reads_app _ _ [_]); [fixed_xml|]. apply reads_nl, reads_app; [apply reads_disks|].
  apply reads_app; [by apply reads_opt; intros; apply reads_cdrom|].
  apply reads_app; [by apply reads_opt; intros; apply reads_cloud_init|].
  apply reads_app; [apply reads_concat, reads_nic|]. apply reads_app; [apply reads_hostdevs|].
  apply (reads_app _ _ []); [by apply reads_blank|]. apply reads_app; [apply reads_channel|].
  apply (reads_app _ _ []); [by apply reads_blank|]. apply reads_app; [apply reads_graphics|].
  apply reads_nl, (reads_app _ _ [_]); [fixed_xml|]. apply reads_nl, (reads_app _ _ [_]); [fixed_xml|].
  apply reads_nl, reads_line. fixed_xml.
Qed.

(** One line with an escaped string or a number between its tags. *)
Lemma reads_text_line tag name attrs s close r ts :
  opens tag name attrs → ends_text close name → reads r ts →
  reads (tag ++ xml_escape s ++ close ++ r) (El name attrs (text s) :: ts).
Proof. intros Ho Hc Hr. apply (reads_3 _ _ _ _ [_]); [by apply reads_text|exact Hr]. Qed.

Lemma reads_number_line tag name attrs x close r ts :
  opens tag name attrs → ends_text close name → reads r ts →
  reads (tag ++ dec x ++ close ++ r) (El name attrs (text (dec x)) :: ts).
Proof. rewrite <- (escape_dec x) at 1. apply reads_text_line. Qed.

Lemma reads_description d :
  reads ("  <description>" ++ xml_escape d ++ "</description>" ++ nl) [el "description" [] (text d)].
Proof. apply (reads_text_line _ _ []); [open_xml|end_text|by apply reads_blank]. Qed.

Definition head_xml (vm : Vm) : str :=
  nl ++ "  <name>" ++ xml_escape (v_name vm) ++ "</name>" ++ nl ++
  "  <uuid>" ++ v_id vm ++ "</uuid>" ++ nl ++
  opt_str (v_description vm) (λ d, "  <description>" ++ xml_escape d ++ "</description>" ++ nl) ++
  "  <memory unit='MiB'>" ++ dec (v_memory_mib vm) ++ "</memory>" ++ nl ++
  "  <currentMemory unit='MiB'>" ++ dec (v_memory_mib vm) ++ "</currentMemory>" ++ nl ++
  "  <vcpu placement='static'>" ++ dec (v_vcpus vm) ++ "</vcpu>" ++ nl ++
  "  " ++ os_xml (v_firmware vm) (bool_decide (is_Some (v_cdrom vm))) ++ nl ++
  "  <features><acpi/><apic/></features>" ++ nl ++
  "  <cpu mode='host-passthrough' check='none'/>" ++ nl ++
  "  <clock offset='utc'/>" ++ nl ++
  "  <on_poweroff>destroy</on_poweroff>" ++ nl ++
  "  <on_reboot>restart</on_reboot>" ++ nl ++
  "  <on_crash>destroy</on_crash>" ++ nl.

Lemma domain_xml_parts vm listen :
  domain_xml vm listen = ("<domain type='kvm'>" ++ (head_xml vm ++
    ("  <devices>" ++ devices_xml vm listen ++ "  </devices>") ++ nl) ++ "</domain>") ++ nl.
Proof. unfold domain_xml, head_xml, devices_xml. cbv zeta. rewrite <- !app_assoc. reflexivity. Qed.

(** C7: the document the service hands to [virsh define] means what the record
    says. For a record with a safe id, and whatever its name, description, dataset
    and ISO paths, NICs and passthrough addresses contain, reading the text back
    with [read_xml] gives exactly the tree [domain_tree] of the record: one
    [domain] element with its fixed hardware, a [disk] per disk with its own
    dataset as the source, an [interface] per NIC, a [hostdev] per valid
    passthrough address, and the strings as attribute values and character data,
    so none of them can close an element or bring in another device.  [read_xml]
    knows elements, attributes, character data and the five named entities; it
    takes every character as it is, where an XML parser refuses control characters
    (see [description_unchecked]) and normalizes line ends and white space in
    attributes. *)
Theorem domain_xml_reads (vm : Vm) (listen id : str) :
  ensure_safe_id (v_id vm) = Ok id →
  read_xml (domain_xml vm listen) = Some [domain_tree vm listen].
Proof.
  intros Hid. apply reads_xml. rewrite domain_xml_parts. apply reads_line.
  unfold domain_tree. apply reads_elem; [open_xml| |close_xml].
  unfold head_xml. rewrite <- (safe_id_escape _ _ Hid) at 1. rewrite <- ?app_assoc.
  apply reads_nl, reads_text_line; [open_xml|end_text|].
  apply reads_nl, reads_text_line; [open_xml|end_text|].
  apply reads_nl, reads_app; [apply reads_opt; intros; apply reads_description|].
  apply reads_number_line; [open_xml|end_text|].
  apply reads_nl, reads_number_line; [open_xml|end_text|].
  apply reads_nl, reads_number_line; [open_xml|end_text|]. apply reads_nl.
  apply (reads_app _ _ []); [by apply reads_blank|]. apply (reads_app _ _ [_]); [apply reads_os|].
  apply reads_nl, (reads_app _ _ [_]); [fixed_xml|].
  apply reads_nl, (reads_app _ _ [_]); [fixed_xml|].
  apply reads_nl, (reads_app _ _ [_]); [fixed_xml|].
  apply reads_nl, (reads_app _ _ [_]); [fixed_xml|].
  apply reads_nl, (reads_app _ _ [_]); [fixed_xml|].
  apply reads_nl, (reads_app _ _ [_]); [fixed_xml|]. apply reads_nl.
  match goal with |- reads (?o ++ ?d ++ ?z ++ nl) _ => regroup ((o ++ d ++ z) ++ nl) end.
  apply reads_line, reads_elem; [open_xml| |close_xml]. apply reads_devices.
Qed.

(** ** A concrete record *)

Definition sample_vm : Vm :=
  mkVm "5f0c" "web01" Stopped 2 2048 Uefi Spice [mkVmDisk "tank/vms/web01-disk0" 20 Virtio]
    [mkNic "vmbr0" (Some 7%N) (Some (lit "52:54:00:12:34:56")) NicVirtio] [mkPci "0000:01:00.0"]
    [mkUsb "046d" "c52b"] [] (Some (lit "/isos/it's.iso")) None
    (Some (lit "a</description><disk/>")) true no_firewall false false None [] None "now" None.

Lemma domain_xml_reads_witness :
  read_xml (domain_xml sample_vm "0.0.0.0") = Some [domain_tree sample_vm "0.0.0.0"].
Proof. apply (domain_xml_reads sample_vm "0.0.0.0" "5f0c"). reflexivity. Defined.

Lemma replace_char_keeps (c : char) (by_ s : str) (x : char) :
  x ≠ c → x ∈ s → x ∈ replace_char c by_ s.
Proof.
  intros Hne. unfold replace_char. induction s as [|y s IH]; [done|]. cbn [flat_map].
  rewrite elem_of_cons, elem_of_app. intros [<-|Hx]; [left|by right; apply IH].
  rewrite (proj2 (N.eqb_neq x c)) by done. left.
Qed.

(** The description is not checked: a control character, which no XML document
    may hold, reaches the document as it is. *)
Lemma description_unchecked (vm : Vm) (listen d : str) :
  v_description vm = Some d → 1%N ∈ d → 1%N ∈ domain_xml vm listen.
Proof.
  intros Hv Hd. rewrite domain_xml_parts. unfold head_xml. rewrite Hv. cbn [opt_str].
  assert (1%N ∈ xml_escape d) as He.
  { unfold xml_escape. by repeat (apply replace_char_keeps; [done|]). }
  rewrite !elem_of_app. tauto.
Qed.
