(* ===== verification/Firewall.v ===== *)
(** * Firewalls (src/src/services/firewall.rs, src/src/services/kvm.rs)

    The host firewall renders its configuration to an nftables batch, has it
    applied and then saves it; a VM's firewall is a batch of its own.  The batch
    file and [nft] are host operations given as parameters. *)

From S2P Require Export VmData Command.

(** ** The host firewall *)

Inductive FirewallAction := FwAccept | FwDrop | FwReject.
Inductive FirewallPolicy := PolicyAccept | PolicyDrop.
Inductive FirewallProtocol := Tcp | Udp | Icmp | AnyProtocol.

Record HostFirewallRule := mkHostRule {
  r_action : FirewallAction; r_protocol : FirewallProtocol; r_source_cidr : option str;
  r_dest_port : option N; r_description : option str }.
Record HostFirewall := mkHost {
  h_enabled : bool; h_default_input_policy : FirewallPolicy; h_rules : list HostFirewallRule }.
(** [HostFirewall::default()], disabled. *)
Definition default_host_firewall : HostFirewall := mkHost false PolicyAccept [].

Definition RECORD_ID : str := "host".
Definition TABLE : str := "daygleve_host".

Definition validate_rule (rule : HostFirewallRule) : ApiResult unit :=
  (match r_source_cidr rule with
   | Some cidr => ensure_safe_cidr cidr "firewall rule source_cidr" ;? Ok tt
   | None => Ok tt
   end) ;?
  match r_dest_port rule, r_protocol rule with
  | Some _, (Icmp | AnyProtocol) => Err (validation "dest_port is only valid for tcp or udp rules")
  | _, _ => Ok tt
  end.
Definition validate (cfg : HostFirewall) : ApiResult unit := for_each validate_rule (h_rules cfg).

Definition cidr_family (cidr : str) : ApiResult str :=
  let addr := match split_once (ch "/") cidr with Some (a, _) => a | None => cidr end in
  match parse_ip addr with
  | Some (V4 _) => Ok (lit "ip")
  | Some (V6 _) => Ok (lit "ip6")
  | None => Err (internal "firewall rule cidr failed to parse")
  end.

Definition protocol_match (rule : HostFirewallRule) : list str :=
  match r_protocol rule with
  | Tcp => match r_dest_port rule with
           | Some port => ["tcp dport " ++ dec port] | None => [lit "meta l4proto tcp"] end
  | Udp => match r_dest_port rule with
           | Some port => ["udp dport " ++ dec port] | None => [lit "meta l4proto udp"] end
  | Icmp => [lit "meta l4proto { icmp, icmpv6 }"]
  | AnyProtocol => []
  end.
Definition verdict (a : FirewallAction) : str :=
  match a with FwAccept => lit "accept" | FwDrop => lit "drop" | FwReject => lit "reject" end.

Definition render_rule (rule : HostFirewallRule) : ApiResult str :=
  source ← (match r_source_cidr rule with
            | Some cidr => family ← cidr_family cidr; Ok [family ++ " saddr " ++ cidr]
            | None => Ok []
            end);
  Ok (join " " (source ++ protocol_match rule ++ [verdict (r_action rule)])).

Definition line_feed : str := [10%N].

(** The loop over the operator's rules. *)
Fixpoint rule_lines (rules : list HostFirewallRule) : ApiResult str :=
  match rules with
  | [] => Ok []
  | rule :: rules =>
      body ← render_rule rule;
      rest ← rule_lines rules;
      Ok ("add rule inet " ++ TABLE ++ " input " ++ body ++ line_feed ++ rest)
  end.

Definition nft_host_batch (cfg : HostFirewall) : ApiResult str :=
  let head := "add table inet " ++ TABLE ++ line_feed ++
    "add chain inet " ++ TABLE ++ " input { type filter hook input priority 0; policy accept; }"
    ++ line_feed ++ "flush chain inet " ++ TABLE ++ " input" ++ line_feed in
  if negb (h_enabled cfg) then Ok head
  else
    rules ← rule_lines (h_rules cfg);
    let tail := match h_default_input_policy cfg with
                | PolicyDrop => "add rule inet " ++ TABLE ++ " input drop" ++ line_feed
                | PolicyAccept => []
                end in
    Ok (head ++ "add rule inet " ++ TABLE ++ " input iif lo accept" ++ line_feed ++
        "add rule inet " ++ TABLE ++ " input ct state established,related accept" ++ line_feed ++
        rules ++ tail).

Module HostFirewallService.
Section service.
Context `{RF : RecordStore HostFirewall} {H : Type}.
(** [resolve_batch_path], the write of the batch file, and [run_ok "nft"]. *)
Context (resolve_batch_path : Svc H str) (write : str → str → Svc H unit)
  (nft : list str → Svc H unit).

Record state := mkState { store : rstate (RecordStore:=RF); host : H }.
Definition on_store {A} (m : Svc _ A) : Svc state A := λ s,
  let '(x, r) := m (store s) in (mkState x (host s), r).
Definition on_host {A} (m : Svc H A) : Svc state A := λ s,
  let '(x, r) := m (host s) in (mkState (store s) x, r).

Definition get : Svc state HostFirewall :=
  found ← on_store (store_get RECORD_ID);
  mret (default default_host_firewall found).

Definition apply (cfg : HostFirewall) : Svc H unit :=
  batch ← lift (nft_host_batch cfg);
  path ← resolve_batch_path;
  _ ← write path batch;
  nft [lit "-f"; path].

Definition update (cfg : HostFirewall) : Svc state HostFirewall :=
  _ ← lift (validate cfg);
  _ ← on_host (apply cfg);
  _ ← on_store (store_put RECORD_ID cfg);
  mret cfg.

(** Best-effort: failures are only logged. *)
Definition apply_persisted : Svc state unit := λ s,
  match get s with
  | (s, Err _) => (s, Ok tt)
  | (s, Ok cfg) => ((on_host (apply cfg) s).1, Ok tt)
  end.
End service.
End HostFirewallService.

(** ** The firewall of one VM *)

Definition validate_vm_rule (rule : VmFirewallRule) : ApiResult unit :=
  (match f_action rule with
   | AcceptAll | DropAll =>
       match f_cidr rule with
       | Some _ => Err (validation "accept_all/drop_all rules must not carry a cidr")
       | None => Ok tt
       end
   | Accept | Drop =>
       cidr ← ok_or (validation "accept/drop rules require a cidr") (f_cidr rule);
       ensure_safe_cidr cidr "firewall rule cidr" ;? Ok tt
   end) ;?
  match f_cidr rule with
  | Some cidr => ensure_safe_cidr cidr "firewall rule cidr" ;? Ok tt
  | None => Ok tt
  end.
Definition validate_firewall (fw : VmFirewall) : ApiResult unit := for_each validate_vm_rule (fw_rules fw).

Definition mac_clause (mac : str) : str := "ether saddr " ++ mac ++ " || ether daddr " ++ mac.

Definition vm_rule_line (table chain : str) (rule : VmFirewallRule) : str :=
  let verdict := match f_action rule with
                 | Accept | AcceptAll => lit "accept" | Drop | DropAll => lit "drop" end in
  let dir := match f_direction rule with Outbound => lit "ether saddr" | Inbound => lit "ether daddr" end in
  let cidr_part := match f_cidr rule with
                   | Some c => match f_direction rule with
                               | Inbound => "ip saddr " ++ c | Outbound => "ip daddr " ++ c end
                   | None => []
                   end in
  let parts := [dir] ++ (if is_empty cidr_part then [] else [trim cidr_part]) ++ [verdict] in
  "add rule inet " ++ table ++ " " ++ chain ++ " " ++ join " " parts ++ line_feed.

Definition nft_firewall_batch (table : str) (fw : VmFirewall) (nics : list VmNic) : ApiResult str :=
  let macs := List.filter (λ m, is_ok (ensure_safe_mac m)) (omap n_mac nics) in
  match macs with
  | [] => Err (validation "firewall requires at least one NIC with a valid MAC address")
  | _ =>
    if existsb is_whitespace table then Err (internal "firewall table name must be a single token")
    else
      let chain := "vm_" ++ table ++ "_rules" in
      let mac_match := join " || " (map mac_clause macs) in
      Ok ("add table inet " ++ table ++ line_feed ++
          "add chain inet " ++ table ++ " forward { type filter hook forward priority -100; }"
          ++ line_feed ++
          "flush chain inet " ++ table ++ " forward" ++ line_feed ++
          "add rule inet " ++ table ++ " forward ct state established,related accept" ++ line_feed ++
          "add rule inet " ++ table ++ " forward " ++ mac_match ++ " jump " ++ chain ++ line_feed ++
          "add rule inet " ++ table ++ " forward " ++ mac_match ++ " drop" ++ line_feed ++
          "add chain inet " ++ table ++ " " ++ chain ++ line_feed ++
          concat (map (vm_rule_line table chain) (fw_rules fw)))
  end.

(** The batch that [apply_firewall] has applied when the firewall is off. *)
Definition removal_batch (table : str) : str :=
  "add table " ++ table ++ line_feed ++
  "add chain " ++ table ++ " forward { type filter hook forward priority -100; }" ++ line_feed ++
  "flush chain " ++ table ++ " forward" ++ line_feed.

(** [format!("daygleve_vm_{}", safe_id.replace('-', "_"))]. *)
Definition vm_table (safe_id : str) : str :=
  "daygleve_vm_" ++ map (λ c, if (c =? ch "-")%N then ch "_" else c) safe_id.

Definition firewall_batch (vm : Vm) (safe_id : str) (enabled : bool) : ApiResult str :=
  if enabled then nft_firewall_batch (vm_table safe_id) (v_firewall vm) (v_nics vm)
  else Ok (removal_batch (vm_table safe_id)).

(** * Firewalls: what reaches nft, and what is saved *)

(** ** Lines of a text *)

Lemma strip_cr_none (l : str) : 13%N ∉ l → strip_cr l = l.
Proof.
  intros H. unfold strip_cr. destruct (reverse l) as [|c r] eqn:E; [done|].
  assert (c ≠ 13%N) as Hc.
  { intros ->. apply H. rewrite <- (reverse_involutive l), E, elem_of_reverse. by left. }
  repeat case_match; by simplify_eq.
Qed.

Lemma lines_cons (l rest : str) : 10%N ∉ l → 13%N ∉ l → lines (l ++ line_feed ++ rest) = l :: lines rest.
Proof.
  intros H1 H2. unfold lines, line_feed. simpl app at 2. rewrite split_sep, (split_nosep 10 l) by done.
  destruct (split_cons 10 rest) as (p & ps & ->). simpl. by rewrite strip_cr_none.
Qed.

(** Printable characters but for the separators of nft's language. *)
Definition RULE : string := " .:/,{}_+".
Lemma rule_app a b : chars_in RULE (a ++ b) ↔ chars_in RULE a ∧ chars_in RULE b.
Proof. apply Forall_app. Qed.
Lemma rule_lit s : forallb (alnum_or RULE) s = true → chars_in RULE s.
Proof. apply forallb_Forall. Qed.
Lemma rule_not l c : chars_in RULE l → alnum_or RULE c = false → c ∉ l.
Proof. intros H Hc Hin. eapply Forall_forall in H; [|exact Hin]. simpl in H. congruence. Qed.

Lemma digit_text c : is_ascii_digit c = true → alnum_or RULE c = true.
Proof. unfold alnum_or, is_ascii_alphanumeric. by intros ->. Qed.
Lemma dec_text n : chars_in RULE (dec n).
Proof. eapply Forall_impl; [apply dec_digits|]. apply digit_text. Qed.

(** The characters of a CIDR block. *)
Definition CIDR : string := ".:/+".
Lemma addr_cidr c : addr_char c = true → alnum_or CIDR c = true.
Proof.
  unfold addr_char, is_ascii_hexdigit, alnum_or, is_ascii_alphanumeric, is_ascii_uppercase, is_ascii_lowercase.
  rewrite !orb_true_iff, !N.eqb_eq, !in_range_spec, char_in_spec.
  intros [[H| ->]| ->]; [|right; vm_compute; set_solver..]. left. intuition lia.
Qed.

Lemma digits_value_digits acc s n : digits_value acc s = Some n → Forall (λ c, is_ascii_digit c = true) s.
Proof.
  revert acc; induction s as [|c s IH]; intros acc; simpl; [constructor|].
  destruct (is_ascii_digit c) eqn:E; [|done]. intros H. constructor; [done|by eapply IH].
Qed.

Lemma prefix_cidr max s n : parse_uint max s = Some n → chars_in CIDR s.
Proof.
  assert (∀ c, is_ascii_digit c = true → alnum_or CIDR c = true) as Hd
    by (intros c; unfold alnum_or, is_ascii_alphanumeric; by intros ->).
  unfold parse_uint. destruct (strip_prefix "+" s) as [r|] eqn:E.
  - apply strip_prefix_Some in E as ->. destruct (is_empty r); [done|]. intros H.
    destruct (digits_value 0 r) eqn:Ed; [|done]. apply digits_value_digits in Ed.
    constructor; [reflexivity|]. eapply Forall_impl; [exact Ed|]. apply Hd.
  - destruct (is_empty s); [done|]. intros H. destruct (digits_value 0 s) eqn:Ed; [|done].
    apply digits_value_digits in Ed. eapply Forall_impl; [exact Ed|]. apply Hd.
Qed.

Lemma cidr_chars cidr field r : ensure_safe_cidr cidr field = Ok r → cidr ≠ [] ∧ chars_in CIDR cidr.
Proof.
  intros [_ (a & p & ip & n & -> & Ha & Hp & _)]%cidr_spec.
  apply parse_ip_chars in Ha as [Hne Ha]. split; [by destruct a|]. apply Forall_app. split.
  - eapply Forall_impl; [exact Ha|]. apply addr_cidr.
  - constructor; [reflexivity|by eapply prefix_cidr].
Qed.
Lemma cidr_text cidr field r : ensure_safe_cidr cidr field = Ok r → chars_in RULE cidr.
Proof. intros [_ H]%cidr_chars. by apply (chars_in_weaken CIDR RULE). Qed.

(** ** The rules of the host firewall *)

(** What a rule says to nft. *)
Definition rule_body (rule : HostFirewallRule) : str :=
  join " " (match r_source_cidr rule with
            | Some cidr => match cidr_family cidr with
                           | Ok family => [family ++ " saddr " ++ cidr] | Err _ => [] end
            | None => []
            end ++ protocol_match rule ++ [verdict (r_action rule)]).
Definition rule_line (rule : HostFirewallRule) : str := "add rule inet daygleve_host input " ++ rule_body rule.

(** The commands that a configuration stands for. *)
Definition host_commands (cfg : HostFirewall) : list str :=
  [lit "add table inet daygleve_host";
   lit "add chain inet daygleve_host input { type filter hook input priority 0; policy accept; }";
   lit "flush chain inet daygleve_host input"]
  ++ if h_enabled cfg then
       [lit "add rule inet daygleve_host input iif lo accept";
        lit "add rule inet daygleve_host input ct state established,related accept"]
       ++ map rule_line (h_rules cfg)
       ++ (match h_default_input_policy cfg with
           | PolicyDrop => [lit "add rule inet daygleve_host input drop"]
           | PolicyAccept => []
           end)
     else [].

Lemma cidr_family_ok cidr field r :
  ensure_safe_cidr cidr field = Ok r → ∃ f, cidr_family cidr = Ok f ∧ (f = lit "ip" ∨ f = lit "ip6").
Proof.
  unfold ensure_safe_cidr, cidr_family. destruct (split_once (ch "/") cidr) as [[a p]|]; [|done].
  intros H. inv_ok. destruct (parse_ip a) as [[|]|]; simplify_eq; eauto.
Qed.

Lemma join_text parts : Forall (chars_in RULE) parts → chars_in RULE (join " " parts).
Proof.
  induction 1 as [|p ps Hp Hps IH]; [constructor|]. destruct ps as [|q ps]; [done|].
  change (join " " (p :: q :: ps)) with (p ++ " " ++ join " " (q :: ps)).
  rewrite !rule_app. split_and!; [done|by apply rule_lit|done].
Qed.

Lemma render_rule_ok rule :
  validate_rule rule = Ok tt → render_rule rule = Ok (rule_body rule) ∧ chars_in RULE (rule_line rule).
Proof.
  unfold validate_rule, render_rule, rule_line, rule_body. intros H. apply bind_ok in H as (u & Hc & Hp).
  assert (Forall (chars_in RULE) (protocol_match rule ++ [verdict (r_action rule)])) as Hrest.
  { apply Forall_app. split.
    - unfold protocol_match.
      destruct (r_protocol rule), (r_dest_port rule); (constructor; [|constructor]) || constructor;
        rewrite ?rule_app; repeat split; try apply dec_text; by apply rule_lit.
    - constructor; [|constructor]. by destruct (r_action rule); apply rule_lit. }
  destruct (r_source_cidr rule) as [cidr|].
  - apply bind_ok in Hc as (c & Hc & _). destruct (cidr_family_ok _ _ _ Hc) as (f & -> & Hf).
    split; [done|]. apply rule_app. split; [by apply rule_lit|]. apply join_text.
    constructor; [|exact Hrest]. rewrite !rule_app. split_and!; [|by apply rule_lit|by eapply cidr_text].
    destruct Hf as [-> | ->]; by apply rule_lit.
  - split; [done|]. apply rule_app. split; [by apply rule_lit|]. by apply join_text.
Qed.

Lemma rule_lines_ok rules rest :
  Forall (λ r, validate_rule r = Ok tt) rules →
  ∃ b, rule_lines rules = Ok b ∧ lines (b ++ rest) = map rule_line rules ++ lines rest.
Proof.
  induction 1 as [|r rules Hr _ (b & IH & Hl)]; [by exists []|]. simpl.
  destruct (render_rule_ok _ Hr) as [E Ht]. rewrite E, IH.
  exists (rule_line r ++ line_feed ++ b). split.
  - unfold rule_line. rewrite <- app_assoc. reflexivity.
  - rewrite <- Hl, <- !app_assoc. apply lines_cons; by eapply rule_not.
Qed.

(** What the renderer yields for a checked configuration. *)
Lemma host_batch cfg :
  validate cfg = Ok tt → ∃ b, nft_host_batch cfg = Ok b ∧ lines b = host_commands cfg.
Proof.
  intros Hv%for_each_ok. unfold nft_host_batch, host_commands.
  destruct (h_enabled cfg); simpl negb; cbv iota.
  2: { eexists. split; [reflexivity|]. reflexivity. }
  set (tail := match h_default_input_policy cfg with PolicyDrop => _ | PolicyAccept => _ end).
  destruct (rule_lines_ok (h_rules cfg) tail Hv) as (b & -> & Hl).
  eexists. split; [reflexivity|].
  change (lines (lit "add table inet daygleve_host" ++ line_feed ++
    lit "add chain inet daygleve_host input { type filter hook input priority 0; policy accept; }" ++ line_feed ++
    lit "flush chain inet daygleve_host input" ++ line_feed ++
    lit "add rule inet daygleve_host input iif lo accept" ++ line_feed ++
    lit "add rule inet daygleve_host input ct state established,related accept" ++ line_feed ++
    (b ++ tail)) =
    [lit "add table inet daygleve_host";
     lit "add chain inet daygleve_host input { type filter hook input priority 0; policy accept; }";
     lit "flush chain inet daygleve_host input";
     lit "add rule inet daygleve_host input iif lo accept";
     lit "add rule inet daygleve_host input ct state established,related accept"]
    ++ map rule_line (h_rules cfg) ++
    (match h_default_input_policy cfg with
     | PolicyDrop => [lit "add rule inet daygleve_host input drop"] | PolicyAccept => [] end)).
  rewrite !lines_cons by (apply contains_char_false; reflexivity). rewrite Hl.
  unfold tail. by destruct (h_default_input_policy cfg).
Qed.

Section update.
Context `{RF : RecordStore HostFirewall} {H : Type}.
Context (resolve_batch_path : Svc H str) (write : str → str → Svc H unit) (nft : list str → Svc H unit).
Local Abbreviation update := (HostFirewallService.update resolve_batch_path write nft).

(** Changing the host firewall. A configuration is saved only after nft took
    it: an update that fails at any point leaves the saved one as it was, and one
    that succeeds has handed nft, through the batch file, exactly the commands of
    the configuration, one to a line - the table and its input chain emptied,
    then, when enabled, loopback and established traffic accepted before any of
    the operator's rules, these in order, and the drop of the rest last when that
    is the default. No address or port of a rule can add a command, for a rule's
    text has none of nft's separators. *)
Theorem host_firewall_update (cfg : HostFirewall) (s s' : HostFirewallService.state) r :
  update cfg s = (s', r) →
  match r with
  | Ok c => c = cfg ∧
      (∀ k, record (HostFirewallService.store s') k =
         if decide (k = RECORD_ID) then Some cfg else record (HostFirewallService.store s) k) ∧
      (∃ batch path h1 h2, resolve_batch_path (HostFirewallService.host s) = (h1, Ok path) ∧
         write path batch h1 = (h2, Ok tt) ∧
         nft [lit "-f"; path] h2 = (HostFirewallService.host s', Ok tt) ∧
         lines batch = host_commands cfg) ∧
      Forall (λ rule, chars_in RULE (rule_line rule)) (h_rules cfg)
  | Err _ => ∀ k, record (HostFirewallService.store s') k = record (HostFirewallService.store s) k
  end.
Proof.
  unfold HostFirewallService.update, HostFirewallService.apply.
  destruct (validate cfg) as [[]|e] eqn:Hv; [|by intros [= <- <-]].
  destruct (host_batch cfg Hv) as (b & Hb & Hl).
  unfold mbind, svc_bind, lift, HostFirewallService.on_host, HostFirewallService.on_store. rewrite Hb.
  destruct (resolve_batch_path _) as [h1 [path|e]] eqn:E1; [|by intros [= <- <-]].
  destruct (write path b h1) as [h2 [[]|e]] eqn:E2; [|by intros [= <- <-]].
  destruct (nft _ h2) as [h3 [[]|e]] eqn:E3; [|by intros [= <- <-]]. simpl.
  destruct (store_put _ _ _) as [d [[]|e]] eqn:E4; intros [= <- <-]; simpl.
  - split_and!; [done|by apply (put_ok _ _ _ _ E4)|by exists b, path, h1, h2|].
    apply for_each_ok in Hv. eapply Forall_impl; [exact Hv|]. intros rule Hr.
    by apply render_rule_ok in Hr as [_ ?].
  - by apply (put_err _ _ _ _ _ E4).
Qed.
End update.

(** A configuration with one rule, on a host that lists the batches applied. *)
Definition sample_firewall : HostFirewall :=
  mkHost true PolicyDrop [mkHostRule FwAccept Tcp (Some (lit "2001:db8::/32")) (Some 22%N) None].
Definition log_write (path batch : str) : Svc (list str) unit := λ h, (batch :: h, Ok tt).

Lemma host_firewall_update_witness :
  ∃ s' : HostFirewallService.state (RF:=map_store HostFirewall) (H:=list str),
    record (RecordStore:=map_store HostFirewall) (HostFirewallService.store s') RECORD_ID = Some sample_firewall.
Proof.
  pose (s := HostFirewallService.mkState (RF:=map_store HostFirewall) (∅ : gmap str HostFirewall) ([] : list str)).
  destruct (HostFirewallService.update (RF:=map_store HostFirewall) (mret (lit "/s/host.nft")) log_write
    (λ _, mret tt) sample_firewall s) as [s' r] eqn:E.
  pose proof (host_firewall_update (RF:=map_store HostFirewall) (mret (lit "/s/host.nft")) log_write
    (λ _, mret tt) sample_firewall s s' r E) as P.
  destruct r as [c|e].
  - exists s'. destruct P as (_ & P & _). rewrite P. by rewrite decide_True.
  - exfalso. assert (is_ok (HostFirewallService.update (RF:=map_store HostFirewall) (mret (lit "/s/host.nft"))
      log_write (λ _, mret tt) sample_firewall s).2 = true) as Hok by reflexivity.
    by rewrite E in Hok.
Defined.

(** ** The firewall of a VM *)

(** The batch that applies a VM's firewall works on tables of family [inet]; the
    one that removes it names no family, which nft reads as [ip]: the two never
    speak of the same table. *)
Lemma removal_batch_family id :
  lines (removal_batch (vm_table "v1")) =
    [lit "add table daygleve_vm_v1";
     lit "add chain daygleve_vm_v1 forward { type filter hook forward priority -100; }";
     lit "flush chain daygleve_vm_v1 forward"] ∧
  ∀ fw nics b, nft_firewall_batch (vm_table id) fw nics = Ok b →
    starts_with ("add table inet " ++ vm_table id ++ line_feed) b = true.
Proof.
  split; [reflexivity|]. intros fw nics b. unfold nft_firewall_batch.
  destruct (List.filter _ _); [done|]. destruct (existsb _ _); [done|]. intros [= <-].
  apply starts_with_spec. eexists. rewrite <- !app_assoc. reflexivity.
Qed.
