(* ===== verification/CloudInit.v ===== *)
(** * Cloud-init seeds (src/src/services/kvm.rs)

    The checks on a cloud-init request and the two files of the NoCloud seed. *)

From S2P Require Export VmData.

Section cloud_init.
(** [base64]'s standard decoding, and [String::from_utf8_lossy]. *)
Context (base64_decode : str → option (list N)) (from_utf8_lossy : list N → str).

Definition validate_ssh_key (key : str) : ApiResult unit :=
  if is_empty key || (4096 <? len key)%N || existsb is_control key
  then Err (validation "ssh key must be a single-line OpenSSH public key") else Ok tt.

Definition validate_dns (dns : str) : ApiResult unit :=
  if existsb (λ c, is_control c || (c =? ch ":")%N) dns || is_empty (trim dns)
  then Err (validation "cloud-init DNS servers must be plain IPv4 addresses") else Ok tt.

Definition validate_network (net : CloudInitNetwork) : ApiResult unit :=
  ensure_safe_cidr (cn_address net) "cloud-init network address" ;?
  (match cn_gateway net with
   | Some gw => match parse_ip gw with
                | Some _ => Ok tt
                | None => Err (validation "cloud-init gateway contains an invalid address")
                end
   | None => Ok tt
   end) ;?
  ensure_safe_id (cn_interface net) ;?
  for_each validate_dns (cn_dns net).

Definition opt_check {A} (o : option A) (f : A → ApiResult unit) : ApiResult unit :=
  match o with Some a => f a | None => Ok tt end.

Definition validate_cloud_init (req : CloudInitRequest) : ApiResult unit :=
  opt_check (ci_hostname req) (λ h, ensure_safe_id h ;? Ok tt) ;?
  opt_check (ci_default_user req) (λ u, ensure_safe_id u ;? Ok tt) ;?
  for_each validate_ssh_key (ci_ssh_keys req) ;?
  opt_check (ci_network req) validate_network ;?
  opt_check (ci_root_password req) (λ pw,
    match base64_decode pw with
    | Some _ => Ok tt
    | None => Err (validation "root_password must be base64-encoded")
    end).

Definition lf : str := [10%N].

Definition cloud_init_meta_data (req : CloudInitRequest) (instance_id : str) : str :=
  let hostname := default (lit "daygleve-vm") (ci_hostname req) in
  "instance-id: " ++ instance_id ++ lf ++ "local-hostname: " ++ hostname ++ lf.

Definition network_file (net : CloudInitNetwork) : str :=
  "write_files:" ++ lf ++
  "  - path: /etc/network/interfaces.d/50-cloud-init" ++ lf ++
  "    permissions: '0644'" ++ lf ++ "    content: |" ++ lf ++
  "      auto " ++ cn_interface net ++ lf ++
  "      iface " ++ cn_interface net ++ " inet static" ++ lf ++
  "      address " ++ cn_address net ++ lf ++
  (match cn_gateway net with Some gw => "      gateway " ++ gw ++ lf | None => [] end) ++
  (match cn_dns net with [] => [] | dns => "      dns-nameservers " ++ join " " dns ++ lf end).

Definition cloud_init_user_data (req : CloudInitRequest) : str :=
  let user := default (lit "daygleve") (ci_default_user req) in
  "#cloud-config" ++ lf ++
  "hostname: " ++ default (lit "daygleve-vm") (ci_hostname req) ++ lf ++
  "manage_etc_hosts: true" ++ lf ++
  "users:" ++ lf ++
  "  - name: " ++ user ++ lf ++ "    sudo: ALL=(ALL) NOPASSWD:ALL" ++ lf ++ "    groups: sudo" ++ lf ++
  "    shell: /bin/bash" ++ lf ++ "    lock_passwd: true" ++ lf ++
  (match ci_ssh_keys req with
   | [] => []
   | keys => "ssh_authorized_keys:" ++ lf ++ concat (map (λ key, "    - " ++ key ++ lf) keys)
   end) ++
  (match ci_network req with Some net => network_file net | None => [] end) ++
  (match ci_root_password req ≫= base64_decode with
   | Some decoded =>
       let plain := from_utf8_lossy decoded in
       "chpasswd:" ++ lf ++ "  expire: false" ++ lf ++ "  users:" ++ lf ++
       "    - name: " ++ user ++ lf ++ "      password: " ++ plain ++ lf ++
       "    - name: root" ++ lf ++ "      password: " ++ plain ++ lf
   | None => []
   end).
End cloud_init.
