(* ===== verification/Kvm.v ===== *)
(** * The VM service: lifecycle (src/src/services/kvm.rs)

    The VM records, the console tickets and the host.  Commands go through the
    command layer; the files the service stages under the state directory, the ISO
    library and base64 are parameters.  Paths are joined with a slash to
    [state_dir], which has none at its end. *)

From S2P Require Export Command DomainXml Firewall CloudInit.

Definition CONNECT : str := "qemu:///system".
(** Ticks of the monotonic clock in seconds. *)
Definition TICKET_TTL : Z := 60.

Inductive ConsoleTarget := VncSocket (addr : str) | Serial (pty : str).
Record Ticket := mkTicket { k_vm_id : str; k_target : ConsoleTarget; k_expires_at : Z }.
Record ConsoleTicket := mkConsoleTicket {
  ct_websocket_path : str; ct_ticket : str; ct_expires_at : str }.

Inductive VmPowerAction := PStart | PStop | PReboot | PReset | PPause | PResume | PShutdown.
Record VmPowerResponse := mkPowerResponse { pr_vm : Vm; pr_guest_ips : list str }.
Record GuestAgentInfo := mkAgentInfo {
  ga_enabled : bool; ga_connected : bool; ga_guest_os : option str; ga_guest_ips : list str }.
Record IsoImage := mkIso { iso_name : str; iso_path : str; iso_size_bytes : N; iso_storage : str }.
Record CloneVmRequest := mkCloneVm { cl_name : str; cl_full : bool; cl_description : option str }.

Module KvmService.
Section service.
Context `{RV : RecordStore Vm} {H : Type}.
(** The command layer, the files of the state directory, the ISO library. *)
Context (broker : bool) (exec : str → list str → Svc H (option str)).
Context (state_dir spice_listen : str).
Context (create_dir_all : str → Svc H unit) (write_file : str → str → Svc H unit)
  (remove_file : str → Svc H unit) (list_isos : Svc H (list IsoImage)).
Context (base64_decode : str → option (list N)) (from_utf8_lossy : list N → str).
(** RFC 3339 printing of the wall clock. *)
Context (to_rfc3339 : Z → str).

Record state := mkState {
  store : rstate (RecordStore:=RV); tickets : gmap str Ticket; host : H }.

Definition on_store {A} (m : Svc _ A) : Svc state A := λ s,
  let '(x, r) := m (store s) in (mkState x (tickets s) (host s), r).
Definition on_host {A} (m : Svc H A) : Svc state A := λ s,
  let '(x, r) := m (host s) in (mkState (store s) (tickets s) x, r).
Definition put (vm : Vm) : Svc state unit := on_store (store_put (v_id vm) vm).

(** ** Commands *)

Definition run (program : str) (args : list str) : Svc state str :=
  on_host (Command.run broker exec program args).
Definition run_ok (program : str) (args : list str) : Svc state unit :=
  on_host (Command.run_ok broker exec program args).
Definition run_optional (program : str) (args : list str) : Svc state (option str) :=
  on_host (Command.run_optional broker exec program args).
Definition virsh (args : list str) : Svc state str := run "virsh" ([lit "-c"; CONNECT] ++ args).
Definition virsh_opt (args : list str) : Svc state (option str) :=
  run_optional "virsh" ([lit "-c"; CONNECT] ++ args).
Definition zfs (args : list str) : Svc state unit := run_ok "zfs" args.

Definition get_stored (id : str) : Svc state Vm :=
  found ← on_store (store_get id);
  lift (ok_or (not_found ("vm " ++ id ++ " not found")) found).

Definition live_state (id : str) : Svc state (option VmState) :=
  out ← attempt (run_optional "virsh" [lit "-c"; CONNECT; lit "domstate"; id]);
  mret (match out with Ok (Some s) => Some (map_vm_state (trim s)) | _ => None end).

Definition hypervisor_unreachable : Svc state bool :=
  out ← attempt (run_optional "virsh" [lit "-c"; CONNECT; lit "hostname"]);
  mret (negb (is_ok out)).

Definition require_stopped (vm : Vm) (action : str) : Svc state unit :=
  live ← live_state (v_id vm);
  match live with
  | Some Stopped => mret tt
  | Some _ => fail (conflict ("stop the VM before " ++ action))
  | None =>
      unreachable ← hypervisor_unreachable;
      if unreachable : bool then
        fail (conflict "cannot confirm the VM is stopped: the libvirt connection is unavailable (check libvirtd, the qemu:///system socket and permissions); try again")
      else mret tt
  end.

(** Write the domain XML and (re)define it in libvirt. *)
Definition define (vm : Vm) : Svc state unit :=
  _ ← lift (ensure_safe_id (v_id vm));
  let xml := domain_xml vm spice_listen in
  let dir := state_dir ++ "/tmp" in
  _ ← on_host (create_dir_all dir);
  let path := dir ++ "/" ++ v_id vm ++ ".xml" in
  _ ← on_host (write_file path xml);
  result ← attempt (virsh [lit "define"; path]);
  _ ← ignore (on_host (remove_file path));
  _ ← lift result;
  mret tt.

(** Create a zvol for a disk if it does not already exist. *)
Definition ensure_zvol (disk : VmDisk) : Svc state bool :=
  dataset ← lift (ensure_safe_zfs_dataset (trim (dk_dataset disk)));
  if (dk_size_gib disk =? 0)%N then fail (validation "disk size_gib must be >= 1")
  else
    out ← attempt (run_optional "zfs" (lits ["list"; "-H"; "-o"; "name"] ++ [dataset]));
    match out with
    | Ok (Some _) => mret false
    | Ok None => fail (hypervisor "zfs is not installed; cannot provision the VM disk")
    | Err e =>
        if is_missing_dataset e then
          _ ← zfs [lit "create"; lit "-V"; dec (dk_size_gib disk) ++ "G"; dataset];
          mret true
        else fail e
    end.

Definition cleanup_created_zvols (datasets : list str) : Svc state unit :=
  each (λ dataset, ignore (zfs [lit "destroy"; lit "-r"; dataset])) datasets.

(** ** Firewall and cloud-init files *)

Definition run_nft_batch (safe_id batch : str) : Svc state unit :=
  let dir := state_dir ++ "/firewall" in
  _ ← on_host (create_dir_all dir);
  let path := dir ++ "/" ++ safe_id ++ ".nft" in
  _ ← on_host (write_file path batch);
  run_ok "nft" [lit "-f"; path].

Definition apply_firewall (id : str) (vm : Vm) (enabled : bool) : Svc state unit :=
  safe_id ← lift (ensure_safe_id id);
  batch ← lift (firewall_batch vm safe_id enabled);
  run_nft_batch safe_id batch.

Definition create_cloud_init_iso (vm_name : str) (req : CloudInitRequest) (instance_id : str) :
    Svc state str :=
  safe_name ← lift (ensure_safe_id vm_name);
  _ ← lift (validate_cloud_init base64_decode req);
  let dir := state_dir ++ "/cloud-init" in
  _ ← on_host (create_dir_all dir);
  let seed_dir := dir ++ "/" ++ safe_name in
  _ ← on_host (create_dir_all seed_dir);
  _ ← on_host (write_file (seed_dir ++ "/meta-data") (cloud_init_meta_data req instance_id));
  _ ← on_host (write_file (seed_dir ++ "/user-data")
                 (cloud_init_user_data base64_decode from_utf8_lossy req));
  let iso := dir ++ "/" ++ safe_name ++ "-seed.iso" in
  let options := lits ["-volid"; "cidata"; "-joliet"; "-rock"] ++ [seed_dir] in
  made ← attempt (run_optional "genisoimage" ([lit "-quiet"; lit "-output"; iso] ++ options));
  made ← (match made with
          | Ok (Some _) => mret true
          | Ok None =>
              out ← attempt (run_ok "xorriso"
                (lits ["-as"; "mkisofs"; "-quiet"; "-output"] ++ [iso] ++ options));
              mret (is_ok out)
          | Err e => fail e
          end);
  if negb made then
    fail (hypervisor "could not generate the cloud-init seed ISO (install genisoimage or xorriso)")
  else mret iso.

(** ** Reading *)

Fixpoint overlay_states (vms : list Vm) : Svc state (list Vm) :=
  match vms with
  | [] => mret []
  | vm :: vms =>
      live ← live_state (v_id vm);
      rest ← overlay_states vms;
      mret (set_state (default (v_state vm) live) vm :: rest)
  end.
Definition list : Svc state (Datatypes.list VmSummary) :=
  vms ← on_store store_list;
  live ← overlay_states vms;
  mret (map summary_of live).

Definition get (id : str) : Svc state Vm :=
  vm ← get_stored id;
  live ← live_state (v_id vm);
  mret (set_state (default (v_state vm) live) vm).

Definition resolve_iso (requested : str) : Svc state str :=
  let requested := trim requested in
  if is_empty requested then fail (validation "cdrom must not be empty")
  else
    isos ← on_host list_isos;
    lift (ok_or (validation "cdrom is not an available ISO image (see GET /vms/iso-images)")
            (iso_path <$> List.find (λ iso, iso_path iso =s? requested) isos)).

(** ** Create *)

(** The provisioning loop; the result are the datasets it created. *)
Fixpoint provision (created : Datatypes.list str) (disks : Datatypes.list VmDisk) :
    Svc state (Datatypes.list str) :=
  match disks with
  | [] => mret created
  | disk :: disks =>
      fresh ← ensure_zvol disk;
      provision (if fresh : bool then created ++ [trim (dk_dataset disk)] else created) disks
  end.

Definition opt_iso (iso : option str) : Svc state unit :=
  match iso with Some iso => ignore (on_host (remove_file iso)) | None => mret tt end.

Definition virsh_start (id : str) : Svc state unit := _ ← virsh [lit "start"; id]; mret tt.
Definition undefine (id : str) : Svc state unit := ignore (virsh_opt [lit "undefine"; id; lit "--nvram"]).
Definition destroy (id : str) : Svc state unit := ignore (virsh_opt [lit "destroy"; id]).

Definition new_vm (req : CreateVmRequest) (id : str) (nics : Datatypes.list VmNic)
    (cdrom cloud_init_iso : option str) (tags : Datatypes.list str) (now : str) : Vm :=
  mkVm id (c_name req) Stopped (c_vcpus req) (c_memory_mib req) (c_firmware req) (c_display req)
    (c_disks req) nics (c_gpus req) (c_usb_devices req) (c_pci_devices req) cdrom cloud_init_iso
    (c_description req) (c_guest_agent req) (c_firewall req) (c_template req)
    (c_autostart req && negb (c_template req)) (c_startup_order req) tags
    (normalize_pool_ref (c_pool req)) now None.

(** What follows the record's construction: define, firewall, start, save. *)
Definition commit_vm (vm : Vm) (created : Datatypes.list str) (start : bool) : Svc state Vm :=
  _ ← on_error (define vm)
        (_ ← cleanup_created_zvols created; opt_iso (v_cloud_init_iso vm));
  _ ← (if fw_enabled (v_firewall vm) then
         on_error (apply_firewall (v_id vm) vm true)
           (_ ← undefine (v_id vm); _ ← cleanup_created_zvols created; opt_iso (v_cloud_init_iso vm))
       else mret tt);
  vm ← (if start then
          _ ← on_error (virsh_start (v_id vm))
                (_ ← undefine (v_id vm); cleanup_created_zvols created);
          mret (set_state Running vm)
        else mret vm);
  _ ← on_error (put vm)
        (_ ← destroy (v_id vm); _ ← undefine (v_id vm); cleanup_created_zvols created);
  mret vm.

(** [new_id], [macs], [instance_id] and [now] are the fresh values of the call. *)
Definition create (req : CreateVmRequest) (new_id : str) (macs : Datatypes.list str)
    (instance_id now : str) : Svc state Vm :=
  _ ← lift (validate_vm_request req);
  if c_template req && c_start req then fail (validation "a template cannot be started")
  else
    nics ← lift (normalize_nics (c_nics req) macs);
    _ ← lift (validate_gpu_assignments (c_gpus req));
    _ ← lift (validate_usb_assignments (c_usb_devices req));
    _ ← lift (validate_pci_assignments (c_pci_devices req));
    cdrom ← (match c_cdrom req with
             | Some path => iso ← resolve_iso path; mret (Some iso)
             | None => mret None
             end);
    created ← provision [] (c_disks req);
    iso ← (match c_cloud_init req with
           | Some ci =>
               path ← on_error (create_cloud_init_iso (c_name req) ci instance_id)
                        (cleanup_created_zvols created);
               mret (Some path)
           | None => mret None
           end);
    tags ← lift (validate_tags (c_tags req));
    commit_vm (new_vm req new_id nics cdrom iso tags now) created (c_start req).

(** ** Update and delete *)

Definition name_taken (id name : str) : Svc state unit :=
  existing ← on_store store_list;
  if existsb (λ other, negb (v_id other =s? id) && (v_name other =s? name)) existing
  then fail (conflict ("a VM named " ++ debug_str name ++ " already exists"))
  else mret tt.

Definition is_some {A} (o : option A) : bool := match o with Some _ => true | None => false end.
Definition hardware_change (req : UpdateVmRequest) : bool :=
  is_some (u_firmware req) || is_some (u_display req) || is_some (u_disks req)
  || is_some (u_nics req) || is_some (u_guest_agent req) || is_some (u_cloud_init req).

(** The parts of [update] before the record is rewritten. *)
Definition check_update (id : str) (req : UpdateVmRequest) (vm : Vm) : Svc state unit :=
  _ ← (match u_name req with
       | Some name =>
           _ ← lift (ensure_safe_id name);
           if negb (name =s? v_name vm) then name_taken id name else mret tt
       | None => mret tt
       end);
  _ ← lift (match u_vcpus req with
            | Some n => if (n =? 0)%N then Err (validation "vcpus must be >= 1") else Ok tt
            | None => Ok tt end);
  _ ← lift (match u_memory_mib req with
            | Some n => if (n =? 0)%N then Err (validation "memory_mib must be >= 1") else Ok tt
            | None => Ok tt end);
  _ ← lift (opt_check (u_disks req) validate_disks);
  _ ← lift (opt_check (u_nics req) validate_nics);
  _ ← lift (opt_check (u_firewall req) validate_firewall);
  if hardware_change req then
    require_stopped vm "changing its firmware, display, disks, NICs, guest agent or cloud-init"
  else mret tt.

Definition update_disks (disks : option (Datatypes.list VmDisk)) (vm : Vm) : Svc state Vm :=
  match disks with
  | Some disks => _ ← each (λ disk, _ ← ensure_zvol disk; mret tt) disks; mret (set_disks disks vm)
  | None => mret vm
  end.

(** Eject takes precedence over attach. *)
Definition update_cdrom (req : UpdateVmRequest) (vm : Vm) : Svc state Vm :=
  if default false (u_eject_cdrom req) then mret (set_cdrom None vm)
  else match u_cdrom req with
       | Some path => iso ← resolve_iso path; mret (set_cdrom (Some iso) vm)
       | None => mret vm
       end.

(** Regenerate the seed; the old one is removed once the new file exists. *)
Definition update_cloud_init (req : UpdateVmRequest) (instance_id : str) (vm : Vm) : Svc state Vm :=
  match u_cloud_init req with
  | Some ci =>
      new_iso ← create_cloud_init_iso (v_name vm) ci instance_id;
      _ ← opt_iso (v_cloud_init_iso vm);
      mret (set_cloud_init_iso (Some new_iso) vm)
  | None => mret vm
  end.

Definition update_template (req : UpdateVmRequest) (vm : Vm) : Svc state Vm :=
  match u_template req with
  | Some template =>
      _ ← (if template && negb (v_template vm)
           then require_stopped vm "converting it to a template" else mret tt);
      let vm := set_template template vm in
      mret (if template then set_autostart false vm else vm)
  | None => mret vm
  end.

Definition update (id : str) (req : UpdateVmRequest) (macs : Datatypes.list str)
    (instance_id now : str) : Svc state Vm :=
  vm ← get_stored id;
  let old_name := v_name vm in
  _ ← check_update id req vm;
  let vm := when_some (u_name req) set_name vm in
  let vm := when_some (u_vcpus req) set_vcpus vm in
  let vm := when_some (u_memory_mib req) set_memory_mib vm in
  let vm := when_some (u_firmware req) set_firmware vm in
  let vm := when_some (u_display req) set_display vm in
  vm ← (match u_nics req with
        | Some nics => nics ← lift (normalize_nics nics macs); mret (set_nics nics vm)
        | None => mret vm end);
  vm ← update_disks (u_disks req) vm;
  let vm := when_some (u_description req) (λ d, set_description (Some d)) vm in
  vm ← update_cdrom req vm;
  let vm := when_some (u_guest_agent req) set_guest_agent vm in
  let vm := when_some (u_firewall req) set_firewall vm in
  vm ← update_cloud_init req instance_id vm;
  let vm := when_some (u_startup_order req) (λ n, set_startup_order (Some n)) vm in
  vm ← (match u_tags req with
        | Some tags => tags ← lift (validate_tags tags); mret (set_tags tags vm)
        | None => mret vm end);
  let vm := when_some (u_pool req) (λ p, set_pool (normalize_pool_ref (Some p))) vm in
  let vm := when_some (u_autostart req) set_autostart vm in
  vm ← update_template req vm;
  _ ← (if negb (v_name vm =s? old_name) then
         renamed ← attempt (virsh [lit "domrename"; v_id vm; v_name vm]);
         lift (map_err (λ _, conflict "stop the VM before renaming it") renamed ;? Ok tt)
       else mret tt);
  _ ← define vm;
  _ ← apply_firewall (v_id vm) vm (fw_enabled (v_firewall vm));
  _ ← put (set_updated_at (Some now) vm);
  get id.

(** Disks are left intact. *)
Definition delete (id : str) : Svc state unit :=
  vm ← get_stored id;
  _ ← (if fw_enabled (v_firewall vm) then ignore (apply_firewall id vm false) else mret tt);
  _ ← destroy id;
  _ ← undefine id;
  _ ← on_store (store_delete id);
  mret tt.

(** ** Clone *)

(** The destination of a source disk: the same parent, a leaf after the clone. *)
Definition clone_dataset (name : str) (i : nat) (src : str) : str :=
  let leaf := name ++ "-disk" ++ dec (N.of_nat i) in
  match rsplit_once (ch "/") src with
  | Some (parent, _) => if is_empty parent then leaf else parent ++ "/" ++ leaf
  | None => leaf
  end.

Fixpoint plan_clone (name : str) (i : nat) (disks : Datatypes.list VmDisk) :
    ApiResult (Datatypes.list (str * str) * Datatypes.list VmDisk) :=
  match disks with
  | [] => Ok ([], [])
  | disk :: disks =>
      src ← ensure_safe_dataset (trim (dk_dataset disk));
      let new_ds := clone_dataset name i src in
      _ ← ensure_safe_dataset new_ds;
      '(planned, new_disks) ← plan_clone name (S i) disks;
      Ok ((src, new_ds) :: planned, mkVmDisk new_ds (dk_size_gib disk) (dk_bus disk) :: new_disks)
  end.

Definition cleanup_clone (planned : Datatypes.list (str * str)) (created : Datatypes.list str)
    (tag : str) : Svc state unit :=
  _ ← each (λ new_ds, ignore (zfs [lit "destroy"; lit "-r"; new_ds])) created;
  each (λ p : str * str, ignore (zfs [lit "destroy"; p.1 ++ "@" ++ tag])) planned.

(** The cloning loop over the rest of the plan; [created] are the datasets made. *)
Fixpoint clone_disks (planned : Datatypes.list (str * str)) (full : bool) (tag : str)
    (created : Datatypes.list str) (rest : Datatypes.list (str * str)) :
    Svc state (Datatypes.list str) :=
  match rest with
  | [] => mret created
  | (src_ds, new_ds) :: rest =>
      _ ← on_error (zfs [lit "clone"; src_ds ++ "@" ++ tag; new_ds])
            (cleanup_clone planned created tag);
      let created := created ++ [new_ds] in
      _ ← (if full then
             on_error (zfs [lit "promote"; new_ds]) (cleanup_clone planned created tag)
           else mret tt);
      clone_disks planned full tag created rest
  end.

Fixpoint with_macs (nics : Datatypes.list VmNic) (macs : Datatypes.list str) : Datatypes.list VmNic :=
  match nics with
  | [] => []
  | n :: nics => mkNic (n_bridge n) (n_vlan n) (Some (default [] (head macs))) (n_model n)
                 :: with_macs nics (tail macs)
  end.

Definition clone_vm (src : Vm) (req : CloneVmRequest) (id : str) (disks : Datatypes.list VmDisk)
    (macs : Datatypes.list str) (now : str) : Vm :=
  mkVm id (cl_name req) Stopped (v_vcpus src) (v_memory_mib src) (v_firmware src) (v_display src)
    disks (with_macs (v_nics src) macs) [] [] [] None None
    (match cl_description req with Some d => Some d | None => v_description src end)
    false no_firewall false false None (v_tags src) (v_pool src) now None.

Definition clone_tag (new_id : str) : str :=
  CLONE_SNAPSHOT_PREFIX ++ take 12 (List.filter (λ c, negb (c =? ch "-")%N) new_id).

Definition clone (id : str) (req : CloneVmRequest) (new_id : str) (macs : Datatypes.list str)
    (now : str) : Svc state Vm :=
  src ← get_stored id;
  if is_empty (trim (cl_name req)) then fail (validation "name must not be empty")
  else
    _ ← lift (ensure_safe_id (cl_name req));
    existing ← on_store store_list;
    if existsb (λ v, v_name v =s? cl_name req) existing then
      fail (conflict ("a VM named " ++ debug_str (cl_name req) ++ " already exists"))
    else if existsb (λ d, is_empty (trim (dk_dataset d))) (v_disks src) then
      fail (validation "the source VM has a disk with no dataset; cannot clone")
    else
      let tag := clone_tag new_id in
      '(planned, new_disks) ← lift (plan_clone (cl_name req) 0 (v_disks src));
      _ ← (match planned with
           | [] => mret tt
           | _ => zfs ([lit "snapshot"] ++ map (λ p : str * str, p.1 ++ "@" ++ tag) planned)
           end);
      created ← clone_disks planned (cl_full req) tag [] planned;
      _ ← (if cl_full req
           then each (λ new_ds, ignore (zfs [lit "destroy"; new_ds ++ "@" ++ tag])) created
           else mret tt);
      let vm := clone_vm src req new_id new_disks macs now in
      _ ← on_error (define vm) (cleanup_clone planned created tag);
      _ ← put vm;
      mret vm.

(** ** Reconciliation with libvirt *)

(** The domains' names, trimmed. *)
Definition list_all_domains : Svc state (Datatypes.list str) :=
  out ← run_optional "virsh" [lit "-c"; CONNECT; lit "list"; lit "--all"; lit "--name"];
  match out with
  | Some o => mret (map trim (List.filter (λ l, negb (is_empty (trim l))) (lines o)))
  | None => fail (hypervisor "virsh is not installed; cannot reconcile VMs")
  end.

Definition reconcile_with_host : Svc state (Datatypes.list str * Datatypes.list str) :=
  stored ← on_store store_list;
  all_domains ← list_all_domains;
  mret (map v_id (List.filter (λ vm, negb (bool_decide (v_name vm ∈ all_domains))) stored),
        List.filter (λ d, negb (bool_decide (d ∈ map v_name stored))) all_domains).

Definition repair_missing_from_host (id : str) : Svc state unit :=
  vm ← get_stored id;
  _ ← require_stopped vm "repairing its libvirt definition";
  define vm.

(** ** Power *)

Definition forbidden_for_template (action : VmPowerAction) : bool :=
  match action with PStart | PResume | PReboot => true | _ => false end.
Definition power_subcommand (action : VmPowerAction) : str :=
  match action with
  | PStart => lit "start" | PStop => lit "destroy" | PReboot => lit "reboot" | PReset => lit "reset"
  | PPause => lit "suspend" | PResume => lit "resume" | PShutdown => lit "shutdown"
  end.

Definition guest_ips (id : str) : Svc state (Datatypes.list str) :=
  out ← attempt (virsh (lits ["domifaddr"; "--source"; "agent"] ++ [id]));
  match out with
  | Ok out => mret (parse_domifaddr_ips out)
  | Err _ => fail (hypervisor "could not query guest addresses via the guest agent")
  end.

(** The guest-agent shutdown that comes before the ACPI one; [true] when it worked. *)
Definition agent_shutdown (vm : Vm) (id : str) : Svc state bool :=
  if v_guest_agent vm then
    live ← live_state (v_id vm);
    if bool_decide (live = Some Running) then
      out ← attempt (virsh (lits ["shutdown"; "--mode"; "agent"] ++ [id]));
      mret (is_ok out)
    else mret false
  else mret false.

Definition put_under (id : str) (vm : Vm) : Svc state unit := on_store (store_put id vm).

Definition power (id : str) (action : VmPowerAction) (now : str) : Svc state VmPowerResponse :=
  vm ← get_stored id;
  if v_template vm && forbidden_for_template action then
    fail (conflict "this VM is a template and cannot be powered on; clone it first")
  else
    by_agent ← (match action with PShutdown => agent_shutdown vm id | _ => mret false end);
    if by_agent : bool then
      let vm := set_updated_at (Some now) (set_state Transitioning vm) in
      _ ← put_under id vm;
      mret (mkPowerResponse vm [])
    else
      _ ← virsh [power_subcommand action; id];
      live ← live_state id;
      let vm := set_updated_at (Some now) (set_state (default (v_state vm) live) vm) in
      _ ← put_under id vm;
      ips ← (if v_guest_agent vm then attempt (guest_ips id) else mret (Ok []));
      mret (mkPowerResponse vm (match ips with Ok l => l | Err _ => [] end)).

(** The boot queue; a failure to start is only logged. *)
Fixpoint start_queue (queue : Datatypes.list Vm) : Svc state unit :=
  match queue with
  | [] => mret tt
  | vm :: queue =>
      live ← live_state (v_id vm);
      _ ← (if bool_decide (live = Some Running) then mret tt
           else ignore (virsh [lit "start"; v_id vm]));
      start_queue queue
  end.
Definition start_autostart_vms : Svc state unit :=
  vms ← attempt (on_store store_list);
  match vms with
  | Ok vms => start_queue (autostart_queue vms)
  | Err _ => mret tt
  end.

(** ** Consoles *)

(** One ticket: the expired ones go, the new one is bound to the domain.  [mono]
    is the monotonic clock, [wall] the wall clock, in seconds. *)
Definition mint_ticket (id kind : str) (target : ConsoleTarget) (new_id : str) (mono wall : Z) :
    Svc state ConsoleTicket := λ s,
  let live := filter (λ '(_, t), (mono < k_expires_at t)%Z) (tickets s) in
  (mkState (store s) (<[new_id := mkTicket id target (mono + TICKET_TTL)]> live) (host s),
   Ok (mkConsoleTicket ("/api/v1/vms/" ++ id ++ "/" ++ kind ++ "/ws?ticket=" ++ new_id) new_id
         (to_rfc3339 (wall + TICKET_TTL)))).

Definition redeem_ticket (vm_id ticket : str) (mono : Z) : Svc state ConsoleTarget := λ s,
  match tickets s !! ticket with
  | Some t =>
      if (k_vm_id t =s? vm_id) && (mono <? k_expires_at t)%Z
      then (mkState (store s) (base.delete ticket (tickets s)) (host s), Ok (k_target t))
      else (s, Err (unauthorized "invalid or expired console ticket"))
  | None => (s, Err (unauthorized "invalid or expired console ticket"))
  end.

Definition console (id new_id : str) (mono wall : Z) : Svc state ConsoleTicket :=
  _ ← get_stored id;
  display ← attempt (virsh [lit "vncdisplay"; id]);
  display ← lift (map_err (λ _, conflict "start the VM to open a console") display);
  vnc_addr ← lift (ok_or (hypervisor "could not resolve the VM's VNC port")
                     (parse_vnc_display (trim display)));
  mint_ticket id "console" (VncSocket vnc_addr) new_id mono wall.

Definition serial_console (id new_id : str) (mono wall : Z) : Svc state ConsoleTicket :=
  _ ← get_stored id;
  pty ← attempt (virsh [lit "ttyconsole"; id]);
  pty ← lift (map_err (λ _, conflict "start the VM to open a serial console") pty);
  let pty := trim pty in
  _ ← lift (map_err (λ _, hypervisor "could not resolve the VM's serial console")
              (validate_console_pty pty));
  mint_ticket id "serial-console" (Serial pty) new_id mono wall.

Definition spice_connection_file (vm_name host : str) (port : N) : str :=
  let title := List.filter (λ c, negb (is_control c) && negb (c =? 10)%N) vm_name in
  "[virt-viewer]" ++ nl ++ "type=spice" ++ nl ++ "host=" ++ host ++ nl ++ "port=" ++ dec port ++ nl ++
  "title=" ++ title ++ " - SPICE" ++ nl ++ "delete-this-file=1" ++ nl ++
  "toggle-fullscreen=shift+f11" ++ nl ++ "release-cursor=shift+f12" ++ nl.

Definition spice_connection (id : str) : Svc state str :=
  vm ← get_stored id;
  if negb (bool_decide (v_display vm = Spice)) then
    fail (conflict "this VM does not use SPICE; set its display to spice first")
  else
    uri ← attempt (virsh (lits ["domdisplay"; "--type"; "spice"] ++ [id]));
    uri ← lift (map_err (λ _, conflict "start the VM to open its SPICE display") uri);
    port ← lift (ok_or (hypervisor "could not resolve the VM's SPICE port") (parse_spice_port (trim uri)));
    mret (spice_connection_file (v_name vm) spice_listen port).

(** ** Guest agent *)

Definition GUEST_INFO : str :=
  "{" ++ [DQUOTE] ++ "execute" ++ [DQUOTE] ++ ":" ++ [DQUOTE] ++ "guest-info" ++ [DQUOTE] ++ "}".

Definition guest_agent_info (id : str) : Svc state GuestAgentInfo :=
  vm ← get_stored id;
  let info := mkAgentInfo (v_guest_agent vm) false None [] in
  if negb (v_guest_agent vm) then mret info
  else
    live ← live_state id;
    if negb (bool_decide (live = Some Running)) then mret info
    else
      out ← attempt (virsh [lit "qemu-agent-command"; id; GUEST_INFO]);
      let '(connected, os) := match out with
        | Ok out => (true, match parse_guest_info_field out "pretty_name" with
                           | Some v => Some v | None => parse_guest_info_field out "version" end)
        | Err _ => (false, None)
        end in
      ips ← attempt (guest_ips id);
      mret (mkAgentInfo (v_guest_agent vm) connected os (match ips with Ok l => l | Err _ => [] end)).

Definition fs_freeze (id : str) : Svc state unit := _ ← virsh [lit "domfsfreeze"; id]; mret tt.
Definition fs_thaw (id : str) : Svc state unit := _ ← virsh [lit "domfsthaw"; id]; mret tt.
End service.
End KvmService.
