(* ===== verification/KvmDevices.v ===== *)
(** * The VM service: disks and passthrough devices (src/src/services/kvm.rs)

    Growing, attaching, detaching and migrating disks, USB and PCI passthrough,
    and importing an uploaded image. *)

From S2P Require Export Kvm.

Record ResizeVmDiskRequest := mkResize { rz_size_gib : N }.
Record MigrateVmDiskRequest := mkMigrate { mg_disk_index : nat; mg_target_dataset : str }.

(** [xs[i].field = ..] and [xs.remove(i)], for an index in range. *)
Definition update_at {A} (i : nat) (f : A → A) (xs : list A) : list A := alter f i xs.
Definition remove_at {A} (i : nat) (xs : list A) : list A := delete i xs.
Fixpoint position {A} (p : A → bool) (xs : list A) : option nat :=
  match xs with
  | [] => None
  | x :: xs => if p x then Some 0%nat else S <$> position p xs
  end.

Definition set_dataset (dataset : str) (d : VmDisk) : VmDisk := mkVmDisk dataset (dk_size_gib d) (dk_bus d).
Definition set_size (size : N) (d : VmDisk) : VmDisk := mkVmDisk (dk_dataset d) size (dk_bus d).

Module KvmDevices.
Section service.
Context `{RV : RecordStore Vm} {H : Type}.
Context (broker : bool) (exec : str → list str → Svc H (option str)).
Context (state_dir spice_listen : str).
Context (create_dir_all : str → Svc H unit) (write_file : str → str → Svc H unit)
  (remove_file : str → Svc H unit).
(** [command::stream_to_file] and [stream_from_file]: a command with its output,
    or its input, in a file. *)
Context (stream_to_file stream_from_file : str → list str → str → Svc H unit).
(** The IOMMU group of a PCI address, 0 when there is none. *)
Context (iommu_group : H → str → N).
(** [virtual-size] in the JSON of [qemu-img info]. *)
Context (virtual_size : str → option N).

Local Abbreviation state := (KvmService.state (RV:=RV) (H:=H)).
Local Abbreviation on_host := (KvmService.on_host (RV:=RV)).
Local Abbreviation get_stored := (KvmService.get_stored (RV:=RV) (H:=H)).
Local Abbreviation live_state := (KvmService.live_state (RV:=RV) broker exec).
Local Abbreviation virsh := (KvmService.virsh (RV:=RV) broker exec).
Local Abbreviation zfs := (KvmService.zfs (RV:=RV) broker exec).
Local Abbreviation run_optional := (KvmService.run_optional (RV:=RV) broker exec).
Local Abbreviation put_under := (KvmService.put_under (RV:=RV) (H:=H)).
Local Abbreviation ensure_zvol := (KvmService.ensure_zvol (RV:=RV) broker exec).
Local Abbreviation define :=
  (KvmService.define (RV:=RV) broker exec state_dir spice_listen create_dir_all write_file remove_file).

Definition is_running (id : str) : Svc state bool :=
  live ← live_state id; mret (bool_decide (live = Some Running)).

Definition no_disk {A} (id : str) (index : nat) : ApiResult A :=
  Err (not_found ("vm " ++ id ++ " has no disk at index " ++ dec (N.of_nat index))).

Definition resize_disk (id : str) (index : nat) (req : ResizeVmDiskRequest) (now : str) : Svc state Vm :=
  vm ← get_stored id;
  disk ← lift (match v_disks vm !! index with Some d => Ok d | None => no_disk id index end);
  dataset ← lift (ensure_safe_zfs_dataset (trim (dk_dataset disk)));
  if (rz_size_gib req =? 0)%N then fail (validation "size_gib must be >= 1")
  else if (rz_size_gib req <? dk_size_gib disk)%N then
    fail (validation "shrinking a disk is not supported; specify a larger size_gib")
  else if (rz_size_gib req =? dk_size_gib disk)%N then mret vm
  else
    let new_size := dec (rz_size_gib req) ++ "G" in
    _ ← zfs [lit "set"; "volsize=" ++ new_size; dataset];
    let target := disk_target_name index (dk_bus disk) in
    running ← is_running id;
    _ ← (if running : bool then ignore (virsh [lit "blockresize"; id; target; new_size]) else mret tt);
    let vm := set_updated_at (Some now)
                (set_disks (update_at index (set_size (rz_size_gib req)) (v_disks vm)) vm) in
    _ ← put_under id vm;
    mret vm.

(** What ends an attach or a detach: save, and redefine a VM that is not running. *)
Definition save_device_change (id : str) (running : bool) (now : str) (vm : Vm) : Svc state Vm :=
  let vm := set_updated_at (Some now) vm in
  _ ← put_under id vm;
  _ ← (if running then mret tt else define vm);
  mret vm.

Definition attach_disk (id : str) (disk : VmDisk) (now : str) : Svc state Vm :=
  vm ← get_stored id;
  _ ← lift (validate_disks [disk]);
  if (26 <=? length (v_disks vm))%nat then
    fail (validation "the VM already has the maximum of 26 data disks")
  else
    let index := length (v_disks vm) in
    _ ← ensure_zvol disk;
    running ← is_running id;
    _ ← (if running : bool then
           let target := disk_target_name index (dk_bus disk) in
           let source := "/dev/zvol/" ++ trim (dk_dataset disk) in
           _ ← virsh [lit "attach-disk"; id; target; source; lit "--persistent"]; mret tt
         else mret tt);
    save_device_change id running now (set_disks (v_disks vm ++ [disk]) vm).

Definition detach_disk (id : str) (index : nat) (now : str) : Svc state Vm :=
  vm ← get_stored id;
  disk ← lift (match v_disks vm !! index with Some d => Ok d | None => no_disk id index end);
  running ← is_running id;
  _ ← (if running : bool then
         _ ← virsh [lit "detach-disk"; id; disk_target_name index (dk_bus disk); lit "--persistent"];
         mret tt
       else mret tt);
  save_device_change id running now (set_disks (remove_at index (v_disks vm)) vm).

(** The copy of [migrate_disk]: send to a file, receive from it. *)
Definition migrate_copy (snapshot target temp : str) : Svc state unit :=
  _ ← on_host (stream_to_file "zfs" [lit "send"; snapshot] temp);
  on_host (stream_from_file "zfs" [lit "receive"; lit "-F"; target] temp).

(** [secs] and [nanos] are the wall clock. *)
Definition migrate_disk (id : str) (req : MigrateVmDiskRequest) (secs nanos : N) (now : str) :
    Svc state Vm :=
  vm ← get_stored id;
  let index := mg_disk_index req in
  disk ← lift (match v_disks vm !! index with Some d => Ok d | None => no_disk id index end);
  source ← lift (ensure_safe_zfs_dataset (trim (dk_dataset disk)));
  target ← lift (ensure_safe_zfs_dataset (mg_target_dataset req));
  if source =s? target then fail (validation "target dataset is the same as the source")
  else
    running ← is_running id;
    if running : bool then
      fail (conflict "stop the VM before migrating a disk; live migration is not supported")
    else
      exists_ ← run_optional "zfs" (lits ["list"; "-H"; "-o"; "name"] ++ [target]);
      match exists_ with
      | Some _ => fail (conflict ("target dataset " ++ target ++ " already exists"))
      | None =>
        let tag := "migrate-" ++ dec secs in
        let snapshot := source ++ "@" ++ tag in
        _ ← zfs [lit "snapshot"; snapshot];
        id' ← lift (map_err (λ e, internal (message e)) (ensure_safe_id id));
        let temp := state_dir ++ "/tmp/disk-migrate-" ++ id' ++ "-" ++ dec nanos ++ ".zfs" in
        _ ← ignore (on_host (create_dir_all (state_dir ++ "/tmp")));
        _ ← on_error (migrate_copy snapshot target temp)
              (_ ← ignore (on_host (remove_file temp)); ignore (zfs [lit "destroy"; snapshot]));
        _ ← ignore (on_host (remove_file temp));
        _ ← ignore (zfs [lit "destroy"; target ++ "@" ++ tag]);
        _ ← zfs (lits ["list"; "-H"; "-o"; "name"] ++ [target]);
        let vm := set_updated_at (Some now)
                    (set_disks (update_at index (set_dataset target) (v_disks vm)) vm) in
        _ ← put_under id vm;
        _ ← define vm;
        _ ← zfs [lit "destroy"; lit "-r"; source];
        mret vm
      end.

(** ** Passthrough *)

(** Stage a device's XML where the broker allows it and attach or detach it;
    [uuid] names the file. *)
Definition device_command (id device_xml subcommand uuid : str) : Svc state unit :=
  _ ← lift (ensure_safe_id id);
  let dir := state_dir ++ "/tmp" in
  _ ← on_host (create_dir_all dir);
  let path := dir ++ "/" ++ uuid ++ "-" ++ subcommand ++ ".xml" in
  _ ← on_host (write_file path device_xml);
  result ← attempt (virsh [subcommand; id; path]);
  _ ← ignore (on_host (remove_file path));
  _ ← lift result;
  mret tt.

Definition attach_device (id device_xml uuid : str) : Svc state unit :=
  device_command id device_xml "attach-device" uuid.
Definition detach_device (id device_xml uuid : str) : Svc state unit :=
  device_command id device_xml "detach-device" uuid.

Definition same_usb (v p : str) (u : UsbAssignment) : bool :=
  (ua_vendor_id u =s? v) && (ua_product_id u =s? p).
Definition bad_usb : AppError := validation "USB ids must be four hex digits".

Definition attach_usb (id : str) (req : UsbAssignment) (uuid now : str) : Svc state Vm :=
  vm ← get_stored id;
  _ ← lift (validate_usb_assignments [req]);
  if (10 <=? length (v_usb_devices vm))%nat then
    fail (validation "the VM already has the maximum of 10 USB passthrough devices")
  else if existsb (same_usb (ua_vendor_id req) (ua_product_id req)) (v_usb_devices vm) then
    fail (validation "that USB device is already attached to this VM")
  else
    running ← is_running id;
    _ ← (if running : bool then
           xml ← lift (ok_or bad_usb (usb_hostdev_xml (ua_vendor_id req) (ua_product_id req)));
           attach_device id xml uuid
         else mret tt);
    save_device_change id running now (set_usb_devices (v_usb_devices vm ++ [req]) vm).

Definition detach_usb (id vendor_id product_id uuid now : str) : Svc state Vm :=
  vm ← get_stored id;
  pos ← lift (ok_or (not_found ("vm " ++ id ++ " has no USB device " ++ vendor_id ++ ":" ++ product_id ++ " attached"))
                (position (same_usb vendor_id product_id) (v_usb_devices vm)));
  running ← is_running id;
  _ ← (if running : bool then
         xml ← lift (ok_or bad_usb (usb_hostdev_xml vendor_id product_id));
         detach_device id xml uuid
       else mret tt);
  save_device_change id running now (set_usb_devices (remove_at pos (v_usb_devices vm)) vm).

Definition same_pci (address : str) (p : PciAssignment) : bool :=
  eq_ignore_ascii_case (pa_address p) address.
Definition bad_pci : AppError := validation "invalid PCI address".

Definition attach_pci (id : str) (req : PciAssignment) (uuid now : str) : Svc state Vm :=
  vm ← get_stored id;
  _ ← lift (validate_pci_assignments [req]);
  if existsb (same_pci (pa_address req)) (v_pci_devices vm) then
    fail (validation "that PCI device is already attached to this VM")
  else
    running ← is_running id;
    _ ← (if running : bool then
           xml ← lift (ok_or bad_pci (pci_hostdev_xml (pa_address req)));
           attach_device id xml uuid
         else mret tt);
    save_device_change id running now (set_pci_devices (v_pci_devices vm ++ [req]) vm).

Definition detach_pci (id pci_address uuid now : str) : Svc state Vm :=
  vm ← get_stored id;
  pos ← lift (ok_or (not_found ("vm " ++ id ++ " has no PCI device " ++ pci_address ++ " attached"))
                (position (same_pci pci_address) (v_pci_devices vm)));
  running ← is_running id;
  _ ← (if running : bool then
         xml ← lift (ok_or bad_pci (pci_hostdev_xml pci_address));
         detach_device id xml uuid
       else mret tt);
  save_device_change id running now (set_pci_devices (remove_at pos (v_pci_devices vm)) vm).

(** [BTreeSet] of names: sorted and without repetition. *)
Definition btree_set (names : list str) : list str := remove_dups (sort_by str_cmp names).

Definition format_pci_group_warning (pci_address : str) (group : N) (vm_names : list str) : str :=
  "PCI device " ++ pci_address ++ " shares IOMMU group " ++ dec group
  ++ " with device(s) assigned to other VM(s): " ++ join ", " vm_names
  ++ "; hot-attaching it may disrupt those guests".

Definition pci_iommu_group_warning (vm_id pci_address : str) : Svc state (option str) :=
  _ ← lift (ensure_safe_pci_address pci_address);
  group_of ← gets (λ s, iommu_group (KvmService.host s));
  let group := group_of pci_address in
  if (group =? 0)%N then mret None
  else
    vms ← KvmService.on_store store_list;
    let sharing vm := negb (v_id vm =s? vm_id)
      && existsb (λ p, (group_of (pa_address p) =? group)%N) (v_pci_devices vm ++ v_gpus vm) in
    let names := btree_set (map v_name (List.filter sharing vms)) in
    if bool_decide (names = []) then mret None
    else mret (Some (format_pci_group_warning pci_address group names)).

(** ** Importing an image *)

Definition GIB : N := 1073741824.

Definition import_disk_image (source_path dataset : str) (size_gib : option N) : Svc state VmDisk :=
  dataset ← lift (ensure_safe_zfs_dataset (trim dataset));
  out ← attempt (run_optional "zfs" (lits ["list"; "-H"; "-o"; "name"] ++ [dataset]));
  _ ← lift (match out with
            | Ok (Some _) => Err (validation "target dataset already exists; choose a new dataset for the import")
            | Ok None => Err (hypervisor "zfs is not installed; cannot import the disk image")
            | Err e => if is_missing_dataset e then Ok tt else Err e
            end);
  info ← KvmService.run broker exec "qemu-img" [lit "info"; lit "--output=json"; source_path];
  virtual_bytes ← lift (ok_or (hypervisor "could not determine the disk image's virtual size")
                          (virtual_size info));
  let detected_gib := N.max ((virtual_bytes + (GIB - 1)) / GIB) 1 in
  target_gib ← lift (match size_gib with
    | Some g =>
        if (g =? 0)%N then Err (validation "size_gib must be >= 1")
        else if (g <? detected_gib)%N then
          Err (validation ("size_gib (" ++ dec g ++ ") is smaller than the image's virtual size ("
                           ++ dec detected_gib ++ " GiB)"))
        else Ok g
    | None => Ok detected_gib
    end);
  _ ← zfs [lit "create"; lit "-V"; dec target_gib ++ "G"; dataset];
  let device := "/dev/zvol/" ++ dataset in
  _ ← on_error (KvmService.run_ok broker exec "qemu-img"
                  [lit "convert"; lit "-O"; lit "raw"; source_path; device])
        (ignore (zfs [lit "destroy"; lit "-r"; dataset]));
  mret (mkVmDisk dataset target_gib Virtio).
End service.
End KvmDevices.
