(* ===== verification/KvmSnapshots.v ===== *)
(** * The VM service: snapshots (src/src/services/kvm.rs)

    ZFS snapshots of every disk of a VM under one name, and memory images written
    by [virsh save] to the state directory. *)

From S2P Require Export KvmDevices.

Inductive VmSnapshotType := SnapDisk | SnapRam.
Record VmSnapshot := mkSnapshot {
  sp_name : str; sp_used_bytes : N; sp_description : option str; sp_created_at : str;
  sp_type : VmSnapshotType }.
Record CreateVmSnapshotRequest := mkCreateSnapshot {
  cv_name : str; cv_description : option str; cv_type : VmSnapshotType }.

(** An entry of the directory of memory images: its name, size and creation time
    if they can be read, and the description in the file beside it. *)
Record RamFile := mkRamFile {
  rf_name : str; rf_len : option N; rf_created : option str; rf_description : option str }.

(** ** Rows of [zfs list] *)

(** The snapshots so far, by name, each with the number of rows it has: the
    [BTreeMap] of the source. *)
Abbreviation ByName := (list (str * (VmSnapshot * nat))).

(** [entry(name).or_insert_with(fresh)], then [update]. *)
Fixpoint upsert (name : str) (fresh : VmSnapshot * nat) (update : VmSnapshot * nat → VmSnapshot * nat)
    (m : ByName) : ByName :=
  match m with
  | [] => [(name, update fresh)]
  | (k, v) :: m' =>
      match str_cmp name k with
      | Lt => (name, update fresh) :: m
      | Eq => (k, update v) :: m'
      | Gt => (k, v) :: upsert name fresh update m'
      end
  end.

Definition saturating_add (a b : N) : N := N.min (a + b) U64_MAX.

(** One more row of a snapshot. *)
Definition add_row (used : N) (desc : str) (e : VmSnapshot * nat) : VmSnapshot * nat :=
  let '(s, count) := e in
  let description := match sp_description s with
    | Some d => Some d
    | None => if negb (desc =s? "-") && negb (is_empty desc) then Some desc else None
    end in
  (mkSnapshot (sp_name s) (saturating_add (sp_used_bytes s) used) description (sp_created_at s) (sp_type s),
   S count).

Section rows.
(** [ts_from_unix]. *)
Context (ts_from_unix : Z → str).

Definition snapshot_row (line : str) (m : ByName) : ByName :=
  match split 9 line with
  | full :: used :: creation :: cols =>
      match parse_uint U64_MAX used, parse_i64 creation with
      | Some used, Some creation =>
          let desc := default (lit "-") (head cols) in
          match split_once (ch "@") full with
          | Some (_, tag) =>
              if starts_with CLONE_SNAPSHOT_PREFIX tag then m
              else upsert tag (mkSnapshot tag 0 None (ts_from_unix creation) SnapDisk, 0%nat)
                     (add_row used desc) m
          | None => m
          end
      | _, _ => m
      end
  | _ => m
  end.
Definition snapshot_rows (out : str) (m : ByName) : ByName :=
  foldl (λ m line, snapshot_row line m) m (lines out).
End rows.

(** The memory images of the directory listing. *)
Definition ram_snapshot (now : str) (f : RamFile) : option VmSnapshot :=
  match stem_extension (rf_name f) with
  | (stem, Some ext) =>
      if (ext =s? "save") && is_ok (ensure_safe_snapshot stem) then
        Some (mkSnapshot stem (default 0%N (rf_len f)) (rf_description f)
                (default now (rf_created f)) SnapRam)
      else None
  | _ => None
  end.

Module KvmSnapshots.
Section service.
Context `{RV : RecordStore Vm} {H : Type}.
Context (broker : bool) (exec : str → list str → Svc H (option str)).
Context (state_dir : str).
Context (write_file : str → str → Svc H unit) (remove_file : str → Svc H unit)
  (exists_ : H → str → bool) (file_len : H → str → option N) (ram_files : H → list RamFile).
(** The sidecar of a memory image: its description, time and VM. *)
Context (sidecar : str → str → str → str).
Context (ts_from_unix : Z → str).

Local Abbreviation state := (KvmService.state (RV:=RV) (H:=H)).
Local Abbreviation on_host := (KvmService.on_host (RV:=RV)).
Local Abbreviation get_stored := (KvmService.get_stored (RV:=RV) (H:=H)).
Local Abbreviation live_state := (KvmService.live_state (RV:=RV) broker exec).
Local Abbreviation virsh := (KvmService.virsh (RV:=RV) broker exec).
Local Abbreviation zfs := (KvmService.zfs (RV:=RV) broker exec).
Local Abbreviation run_optional := (KvmService.run_optional (RV:=RV) broker exec).
Local Abbreviation put_under := (KvmService.put_under (RV:=RV) (H:=H)).
Local Abbreviation is_running := (KvmDevices.is_running (RV:=RV) broker exec).
Local Abbreviation require_stopped := (KvmService.require_stopped (RV:=RV) broker exec).

Definition list_args (dataset : str) : list str :=
  lits ["list"; "-H"; "-p"; "-t"; "snapshot"; "-d"; "1"; "-o"; "name,used,creation,daygleve:description"]
  ++ [dataset].

(** The rows of every dataset; one that does not exist yet is skipped. *)
Fixpoint dataset_rows (datasets : list str) (m : ByName) : Svc state ByName :=
  match datasets with
  | [] => mret m
  | dataset :: datasets =>
      out ← attempt (run_optional "zfs" (list_args dataset));
      match out with
      | Ok (Some o) => dataset_rows datasets (snapshot_rows ts_from_unix o m)
      | Ok None => dataset_rows datasets m
      | Err e => if is_missing_dataset e then dataset_rows datasets m else fail e
      end
  end.

Definition list_snapshots (id now : str) : Svc state (list VmSnapshot) :=
  vm ← get_stored id;
  datasets ← lift (snapshot_datasets vm);
  let disk_count := length datasets in
  by_name ← dataset_rows datasets [];
  let complete := List.filter (λ e : str * (VmSnapshot * nat),
                     (0 <? disk_count)%nat && (e.2.2 =? disk_count)%nat) by_name in
  rams ← gets (λ s, omap (ram_snapshot now) (ram_files (KvmService.host s)));
  mret (sort_by (λ a b, str_cmp (sp_created_at b) (sp_created_at a))
          (map (λ e : str * (VmSnapshot * nat), e.2.1) complete ++ rams)).

Definition has_snapshot (id tag now : str) : Svc state bool :=
  snaps ← list_snapshots id now;
  mret (existsb (λ s, sp_name s =s? tag) snaps).

Definition already_exists {A} (tag : str) : Svc state A :=
  fail (conflict ("a snapshot named " ++ debug_str tag ++ " already exists")).

(** The description as a property value. *)
Definition description_value (desc : str) : str :=
  trim (map (λ c, if is_control c then 32%N else c) desc).
Definition annotate (description : option str) (targets : list str) : Svc state unit :=
  match description with
  | Some desc =>
      if is_empty (trim desc) then mret tt
      else each (λ target, ignore (zfs [lit "set"; "daygleve:description=" ++ description_value desc; target]))
             targets
  | None => mret tt
  end.

Definition create_disk_snapshot (id : str) (req : CreateVmSnapshotRequest) (now : str) :
    Svc state VmSnapshot :=
  vm ← get_stored id;
  tag ← lift (ensure_safe_snapshot (cv_name req));
  datasets ← lift (snapshot_datasets vm);
  if bool_decide (datasets = []) then fail (validation "the VM has no disks to snapshot")
  else
    taken ← has_snapshot id tag now;
    if taken : bool then already_exists tag
    else
      frozen ← (if v_guest_agent vm then is_running id else mret false : Svc state bool);
      _ ← (if frozen : bool then ignore (KvmService.fs_freeze broker exec id) else mret tt);
      let targets := map (λ d, d ++ "@" ++ tag) datasets in
      capture ← attempt (zfs ([lit "snapshot"] ++ targets));
      _ ← (if frozen : bool then ignore (KvmService.fs_thaw broker exec id) else mret tt);
      match capture with
      | Err e =>
          _ ← each (λ target, ignore (zfs [lit "destroy"; target])) targets;
          if is_already_exists e then already_exists tag else fail e
      | Ok _ =>
          _ ← annotate (cv_description req) targets;
          snaps ← list_snapshots id now;
          lift (ok_or (internal "snapshot created but could not be read back")
                  (List.find (λ s, sp_name s =s? tag) snaps))
      end.

(** [state_dir/ram-snapshots/<tag>.save]: the VM is not part of the name. *)
Definition ram_snapshot_path (tag : str) : ApiResult str :=
  _ ← ensure_safe_id tag;
  Ok (state_dir ++ "/ram-snapshots/" ++ tag ++ ".save").
Definition json_of (tag : str) : str := state_dir ++ "/ram-snapshots/" ++ tag ++ ".json".

Definition create_ram_snapshot (id : str) (req : CreateVmSnapshotRequest) (now : str) :
    Svc state VmSnapshot :=
  vm ← get_stored id;
  tag ← lift (ensure_safe_snapshot (cv_name req));
  running ← is_running id;
  if negb running then fail (conflict "a RAM-state snapshot requires the VM to be running")
  else
    taken ← has_snapshot id tag now;
    if taken : bool then already_exists tag
    else
      path ← lift (ram_snapshot_path tag);
      _ ← on_error (_ ← virsh [lit "save"; id; path]; mret tt) (ignore (on_host (remove_file path)));
      _ ← (match cv_description req with
           | Some desc => if is_empty (trim desc) then mret tt
                          else ignore (on_host (write_file (json_of tag) (sidecar (trim desc) now (v_id vm))))
           | None => mret tt
           end);
      stored ← get_stored id;
      live ← live_state id;
      _ ← put_under id (set_updated_at (Some now) (set_state (default Stopped live) stored));
      size ← gets (λ s, default 0%N (file_len (KvmService.host s) path));
      mret (mkSnapshot tag size (cv_description req) now SnapRam).

Definition create_snapshot (id : str) (req : CreateVmSnapshotRequest) (now : str) : Svc state VmSnapshot :=
  match cv_type req with
  | SnapRam => create_ram_snapshot id req now
  | SnapDisk => create_disk_snapshot id req now
  end.

Definition restore_ram_snapshot (id name now : str) : Svc state Vm :=
  vm ← get_stored id;
  tag ← lift (ensure_safe_snapshot name);
  path ← lift (ram_snapshot_path tag);
  present ← gets (λ s, exists_ (KvmService.host s) path);
  if negb present then fail (not_found ("no RAM-state snapshot named " ++ debug_str tag))
  else
    _ ← virsh [lit "restore"; path];
    live ← live_state id;
    let vm := set_updated_at (Some now) (set_state (default Running live) vm) in
    _ ← put_under id vm;
    mret vm.

(** Whether [dataset@tag] exists on every one of the datasets. *)
Fixpoint on_all_disks (datasets : list str) (tag : str) : Svc state bool :=
  match datasets with
  | [] => mret true
  | dataset :: datasets =>
      out ← attempt (run_optional "zfs"
              (lits ["list"; "-H"; "-o"; "name"; "-t"; "snapshot"] ++ [dataset ++ "@" ++ tag]));
      match out with
      | Ok (Some o) => if is_empty (trim o) then mret false else on_all_disks datasets tag
      | Ok None => fail (hypervisor "zfs is not installed; cannot manage snapshots")
      | Err e => if is_missing_dataset e then mret false else fail e
      end
  end.
Definition snapshot_on_all_disks (datasets : list str) (tag : str) : Svc state bool :=
  match datasets with [] => mret false | _ => on_all_disks datasets tag end.

Definition no_snapshot {A} (tag : str) : Svc state A :=
  fail (not_found ("no snapshot named " ++ debug_str tag)).

Definition rollback_snapshot (id name : str) : Svc state unit :=
  vm ← get_stored id;
  tag ← lift (ensure_safe_snapshot name);
  _ ← require_stopped vm "rolling back a snapshot";
  datasets ← lift (snapshot_datasets vm);
  complete ← snapshot_on_all_disks datasets tag;
  if negb complete then no_snapshot tag
  else each (λ dataset, zfs [lit "rollback"; lit "-r"; dataset ++ "@" ++ tag]) datasets.

Definition delete_snapshot (id name : str) : Svc state unit :=
  vm ← get_stored id;
  tag ← lift (ensure_safe_snapshot name);
  ram_path ← lift (ram_snapshot_path tag);
  present ← gets (λ s, exists_ (KvmService.host s) ram_path);
  if present : bool then
    _ ← on_host (remove_file ram_path);
    ignore (on_host (remove_file (json_of tag)))
  else
    datasets ← lift (snapshot_datasets vm);
    complete ← snapshot_on_all_disks datasets tag;
    if negb complete then no_snapshot tag
    else each (λ dataset, zfs [lit "destroy"; dataset ++ "@" ++ tag]) datasets.
End service.
End KvmSnapshots.
