(* ===== verification/KvmProofs.v ===== *)
(** * The VM service: what it runs on the host, and console tickets *)

From S2P Require Export KvmSnapshots.

(** ** The commands of a computation

    The host keeps a log of the commands executed on it.  [issues P m]: every
    command that [m] has executed, whatever their outcomes, satisfies [P]. *)

Definition command : Type := str * list str.

Section log.
Context `{RV : RecordStore Vm} {H : Type} (log : H → list command).
Implicit Types (P : command → Prop) (s : KvmService.state (RV:=RV) (H:=H)).
Local Abbreviation state := (KvmService.state (RV:=RV) (H:=H)).

Definition klog s : list command := log (KvmService.host s).
Definition issues {A} P (m : Svc state A) : Prop :=
  ∀ s s' r, m s = (s', r) → ∃ tr, klog s' = klog s ++ tr ∧ Forall P tr.

Lemma issues_quiet {A} P (m : Svc state A) : (∀ s, klog (m s).1 = klog s) → issues P m.
Proof. intros Hm s s' r E. exists []. specialize (Hm s). rewrite E in Hm. by rewrite app_nil_r. Qed.
Lemma issues_ret {A} P (a : A) : issues P (mret a).
Proof. by apply issues_quiet. Qed.
Lemma issues_fail {A} P e : issues P (fail (A:=A) e).
Proof. by apply issues_quiet. Qed.
Lemma issues_lift {A} P (r : ApiResult A) : issues P (lift r).
Proof. by apply issues_quiet. Qed.
Lemma issues_gets {A} P (f : state → A) : issues P (gets f).
Proof. by apply issues_quiet. Qed.
Lemma issues_on_store {A} P (m : Svc _ A) : issues P (KvmService.on_store m).
Proof. apply issues_quiet. intros s. unfold KvmService.on_store. by destruct (m _). Qed.

Lemma issues_bind {A B} P (m : Svc state A) (f : A → Svc state B) :
  issues P m → (∀ a, issues P (f a)) → issues P (mbind f m).
Proof.
  intros Hm Hf s s' r. unfold mbind, svc_bind. destruct (m s) as [s1 [a|e]] eqn:E.
  - intros E'. destruct (Hm _ _ _ E) as (t1 & H1 & F1). destruct (Hf _ _ _ _ E') as (t2 & H2 & F2).
    exists (t1 ++ t2). rewrite H2, H1, app_assoc. split; [done|by apply Forall_app].
  - intros [= <- <-]. by eapply Hm.
Qed.
Lemma issues_attempt {A} P (m : Svc state A) : issues P m → issues P (attempt m).
Proof. intros Hm s s' r [= <- _]. destruct (m s) as [s1 r1] eqn:E. by eapply Hm. Qed.
Lemma issues_ignore {A} P (m : Svc state A) : issues P m → issues P (ignore m).
Proof. intros Hm s s' r [= <- _]. destruct (m s) as [s1 r1] eqn:E. by eapply Hm. Qed.
Lemma issues_on_error {A} P (m : Svc state A) (c : Svc state unit) :
  issues P m → issues P c → issues P (on_error m c).
Proof.
  intros Hm Hc s s' r. unfold on_error. destruct (m s) as [s1 [a|e]] eqn:E; intros [= <- <-].
  - by eapply Hm.
  - destruct (Hm _ _ _ E) as (t1 & H1 & F1). destruct (c s1) as [s2 r2] eqn:E2.
    destruct (Hc _ _ _ E2) as (t2 & H2 & F2). exists (t1 ++ t2). simpl. rewrite H2, H1, app_assoc.
    split; [done|by apply Forall_app].
Qed.
Lemma issues_each {A} P (f : A → Svc state unit) (l : list A) :
  (∀ a, issues P (f a)) → issues P (each f l).
Proof.
  intros Hf. induction l as [|a l IH]; simpl; [apply issues_ret|]. by apply issues_bind.
Qed.
Lemma issues_impl {A} P Q (m : Svc state A) : (∀ c, P c → Q c) → issues P m → issues Q m.
Proof. intros HPQ Hm s s' r E. destruct (Hm _ _ _ E) as (t & Ht & F). exists t. eauto using Forall_impl. Qed.

(** ** The host *)
Context (broker : bool) (exec : str → list str → Svc H (option str)).
Context (exec_log : ∀ p a h, log (exec p a h).1 = log h ++ [(p, a)]).

Lemma issues_dispatch P p a :
  P (p, a) → issues P (KvmService.on_host (Command.dispatch broker exec p a)).
Proof.
  intros HP s s' r. unfold KvmService.on_host, Command.dispatch, mbind, svc_bind, lift.
  destruct (Command.validate_program p) as [x|e]; [|intros [= <- _]; exists []; by rewrite app_nil_r].
  pose proof (exec_log p a (KvmService.host s)) as He.
  destruct broker; [destruct (map_err _ _) as [u|e]; [|intros [= <- _]; exists []; by rewrite app_nil_r]|];
    destruct (exec p a (KvmService.host s)) as [h o] eqn:E; intros [= <- _]; exists [(p, a)];
    (split; [exact He|by constructor]).
Qed.

Lemma on_host_bind {A B} (m : Svc H A) (f : A → Svc H B) s :
  KvmService.on_host (mbind f m) s = mbind (λ a, KvmService.on_host (f a)) (KvmService.on_host m) s.
Proof.
  unfold mbind, svc_bind, KvmService.on_host. by destruct (m (KvmService.host s)) as [h [a|e]].
Qed.

Lemma issues_ext {A} P (m m' : Svc state A) : (∀ s, m s = m' s) → issues P m' → issues P m.
Proof. intros He Hm s s' r. rewrite He. apply Hm. Qed.

Lemma issues_run P p a : P (p, a) → issues P (KvmService.run broker exec p a).
Proof.
  intros HP. eapply issues_ext; [intros s; apply on_host_bind|]. apply issues_bind; [by apply issues_dispatch|].
  intros [o|]; apply issues_quiet; intros s; reflexivity.
Qed.
Lemma issues_run_ok P p a : P (p, a) → issues P (KvmService.run_ok broker exec p a).
Proof.
  intros HP. eapply issues_ext; [intros s; apply on_host_bind|]. apply issues_bind; [by apply issues_run|].
  intros []; apply issues_quiet; intros s; reflexivity.
Qed.
Lemma issues_run_optional P p a : P (p, a) → issues P (KvmService.run_optional broker exec p a).
Proof. apply issues_dispatch. Qed.
Lemma issues_on_host {A} P (m : Svc H A) :
  (∀ h, log (m h).1 = log h) → issues P (KvmService.on_host m).
Proof. intros Hm. apply issues_quiet. intros s. unfold KvmService.on_host, klog. specialize (Hm (KvmService.host s)). by destruct (m _). Qed.
End log.

Create HintDb issues discriminated.
#[export] Hint Resolve issues_ret issues_fail issues_lift issues_gets issues_on_store : issues.

(** One step through a handler's body. *)
Ltac issues_step :=
  lazymatch goal with
  | |- issues _ _ (mbind _ _) => apply issues_bind; [|intros ?]
  | |- issues _ _ (attempt _) => apply issues_attempt
  | |- issues _ _ (ignore _) => apply issues_ignore
  | |- issues _ _ (on_error _ _) => apply issues_on_error
  | |- issues _ _ (each _ _) => apply issues_each; intros ?
  | |- issues _ _ (match ?x with _ => _ end) => destruct x
  | |- issues _ _ (let _ := _ in _) => cbv zeta
  | |- issues _ _ (KvmService.run _ _ _ _) => apply issues_run; [assumption|]
  | |- issues _ _ (KvmService.run_ok _ _ _ _) => apply issues_run_ok; [assumption|]
  | |- issues _ _ (KvmService.run_optional _ _ _ _) => apply issues_run_optional; [assumption|]
  | |- issues _ _ (KvmService.on_host _) => apply issues_on_host; solve [auto]
  | |- issues _ _ _ => solve [auto 2 with issues nocore]
  end.
Ltac issues := repeat issues_step; try done; try reflexivity.

(** ** Which operations destroy data *)

(** Commands that can destroy a disk, a dataset or a snapshot, or cut off the end
    of a volume. *)
Definition sets_volsize (args : list str) : bool :=
  (default [] (head args) =s? "set") && starts_with "volsize=" (default [] (args !! 1%nat)).
Definition destructive (c : command) : bool :=
  ((c.1 =s? "zfs") && (str_in (default [] (head c.2)) ["destroy"; "rollback"; "receive"]
                       || sets_volsize c.2))
  || (c.1 =s? "zpool") || (c.1 =s? "wipefs") || (c.1 =s? "qemu-img").
Definition harmless (c : command) : Prop := destructive c = false.

Section data.
Context `{RV : RecordStore Vm} {H : Type} (log : H → list command).
Context (broker : bool) (exec : str → list str → Svc H (option str)).
Context (state_dir spice_listen : str).
Context (create_dir_all : str → Svc H unit) (write_file : str → str → Svc H unit)
  (remove_file : str → Svc H unit) (list_isos : Svc H (list IsoImage)).
Context (base64_decode : str → option (list N)) (from_utf8_lossy : list N → str).
Context (to_rfc3339 : Z → str).
Context (exists_ : H → str → bool) (file_len : H → str → option N) (ram_files : H → list RamFile)
  (sidecar : str → str → str → str) (ts_from_unix : Z → str).
(** The log has the commands and nothing else. *)
Context (exec_log : ∀ p a h, log (exec p a h).1 = log h ++ [(p, a)])
  (create_dir_log : ∀ d h, log (create_dir_all d h).1 = log h)
  (write_log : ∀ p b h, log (write_file p b h).1 = log h)
  (remove_log : ∀ p h, log (remove_file p h).1 = log h)
  (isos_log : ∀ h, log (list_isos h).1 = log h).

Local Abbreviation issues := (issues (RV:=RV) log).

Lemma get_stored_issues P id : issues P (KvmService.get_stored id).
Proof. unfold KvmService.get_stored. issues. Qed.
Lemma live_state_issues id : issues harmless (KvmService.live_state broker exec id).
Proof. unfold KvmService.live_state. issues. Qed.
Hint Resolve get_stored_issues live_state_issues : issues.
Lemma require_stopped_issues vm a : issues harmless (KvmService.require_stopped broker exec vm a).
Proof. unfold KvmService.require_stopped, KvmService.hypervisor_unreachable. issues. Qed.
Lemma define_issues vm : issues harmless
  (KvmService.define broker exec state_dir spice_listen create_dir_all write_file remove_file vm).
Proof. unfold KvmService.define, KvmService.virsh. issues. Qed.
Lemma ensure_zvol_issues d : issues harmless (KvmService.ensure_zvol broker exec d).
Proof. unfold KvmService.ensure_zvol, KvmService.zfs. issues. Qed.
Lemma apply_firewall_issues id vm b : issues harmless
  (KvmService.apply_firewall broker exec state_dir create_dir_all write_file id vm b).
Proof. unfold KvmService.apply_firewall, KvmService.run_nft_batch. issues. Qed.
Lemma cloud_init_issues n ci i : issues harmless
  (KvmService.create_cloud_init_iso broker exec state_dir create_dir_all write_file base64_decode
     from_utf8_lossy n ci i).
Proof. unfold KvmService.create_cloud_init_iso. issues. Qed.
Lemma resolve_iso_issues P p : issues P (KvmService.resolve_iso list_isos p).
Proof. unfold KvmService.resolve_iso. issues. Qed.
Lemma opt_iso_issues P i : issues P (KvmService.opt_iso remove_file i).
Proof. unfold KvmService.opt_iso. issues. Qed.
Lemma put_issues P id vm : issues P (KvmService.put_under id vm).
Proof. unfold KvmService.put_under. issues. Qed.
Lemma put_vm_issues P vm : issues P (KvmService.put vm).
Proof. unfold KvmService.put. issues. Qed.
Lemma virsh_issues args : issues harmless (KvmService.virsh broker exec args).
Proof. unfold KvmService.virsh. issues. Qed.
Lemma virsh_opt_issues args : issues harmless (KvmService.virsh_opt broker exec args).
Proof. unfold KvmService.virsh_opt. issues. Qed.
Hint Resolve require_stopped_issues define_issues ensure_zvol_issues apply_firewall_issues
  cloud_init_issues resolve_iso_issues opt_iso_issues put_issues put_vm_issues virsh_issues
  virsh_opt_issues : issues.

Lemma check_update_issues id req vm : issues harmless (KvmService.check_update broker exec id req vm).
Proof. unfold KvmService.check_update, KvmService.name_taken. issues. Qed.
Lemma get_issues id : issues harmless (KvmService.get broker exec id).
Proof. unfold KvmService.get. issues. Qed.
Hint Resolve check_update_issues get_issues : issues.

Lemma update_issues id req macs i now : issues harmless
  (KvmService.update broker exec state_dir spice_listen create_dir_all write_file remove_file list_isos
     base64_decode from_utf8_lossy id req macs i now).
Proof.
  unfold KvmService.update, KvmService.update_disks, KvmService.update_cdrom,
    KvmService.update_cloud_init, KvmService.update_template. issues.
Qed.
Lemma delete_issues id : issues harmless
  (KvmService.delete broker exec state_dir create_dir_all write_file id).
Proof. unfold KvmService.delete, KvmService.destroy, KvmService.undefine. issues. Qed.
Lemma power_issues id a now : issues harmless (KvmService.power broker exec id a now).
Proof. unfold KvmService.power, KvmService.agent_shutdown, KvmService.guest_ips. issues. Qed.

Lemma is_running_issues id : issues harmless (KvmDevices.is_running broker exec id).
Proof. unfold KvmDevices.is_running. issues. Qed.
Lemma save_issues id running now vm : issues harmless
  (KvmDevices.save_device_change broker exec state_dir spice_listen create_dir_all write_file remove_file
     id running now vm).
Proof. unfold KvmDevices.save_device_change. issues. Qed.
Lemma device_command_issues id xml sub uuid : issues harmless
  (KvmDevices.device_command broker exec state_dir create_dir_all write_file remove_file id xml sub uuid).
Proof. unfold KvmDevices.device_command. issues. Qed.
Hint Resolve update_issues delete_issues power_issues is_running_issues save_issues device_command_issues : issues.

(** Snapshots: what lists, saves and restores them destroys nothing. *)
Lemma dataset_rows_issues datasets m :
  issues harmless (KvmSnapshots.dataset_rows broker exec ts_from_unix datasets m).
Proof. revert m; induction datasets as [|d datasets IH]; intros m; simpl; issues; apply IH. Qed.
Hint Resolve dataset_rows_issues : issues.
Lemma list_snapshots_issues id now : issues harmless
  (KvmSnapshots.list_snapshots broker exec ram_files ts_from_unix id now).
Proof. unfold KvmSnapshots.list_snapshots. issues. Qed.
Hint Resolve list_snapshots_issues : issues.
Lemma has_snapshot_issues id tag now : issues harmless
  (KvmSnapshots.has_snapshot broker exec ram_files ts_from_unix id tag now).
Proof. unfold KvmSnapshots.has_snapshot. issues. Qed.
Lemma annotate_issues description targets : issues harmless
  (KvmSnapshots.annotate broker exec description targets).
Proof. unfold KvmSnapshots.annotate, KvmService.zfs. issues. Qed.
Lemma on_all_disks_issues datasets tag : issues harmless
  (KvmSnapshots.on_all_disks broker exec datasets tag).
Proof. induction datasets as [|d datasets IH]; simpl; issues; apply IH. Qed.
Hint Resolve has_snapshot_issues annotate_issues on_all_disks_issues : issues.
Lemma create_ram_issues id req now : issues harmless
  (KvmSnapshots.create_ram_snapshot broker exec state_dir write_file remove_file file_len ram_files
     sidecar ts_from_unix id req now).
Proof. unfold KvmSnapshots.create_ram_snapshot, KvmSnapshots.already_exists. issues. Qed.
Lemma restore_ram_issues id name now : issues harmless
  (KvmSnapshots.restore_ram_snapshot broker exec state_dir exists_ id name now).
Proof. unfold KvmSnapshots.restore_ram_snapshot. issues. Qed.
Hint Resolve create_ram_issues restore_ram_issues : issues.

(** The requests that change or stop a VM, other than moving a disk. *)
Inductive vm_request :=
  | Update (id : str) (req : UpdateVmRequest) (macs : list str) (instance_id now : str)
  | Delete (id : str)
  | Power (id : str) (action : VmPowerAction) (now : str)
  | ResizeDisk (id : str) (index : nat) (req : ResizeVmDiskRequest) (now : str)
  | AttachDisk (id : str) (disk : VmDisk) (now : str)
  | DetachDisk (id : str) (index : nat) (now : str)
  | AttachUsb (id : str) (req : UsbAssignment) (uuid now : str)
  | DetachUsb (id vendor product uuid now : str)
  | AttachPci (id : str) (req : PciAssignment) (uuid now : str)
  | DetachPci (id address uuid now : str)
  | CreateSnapshot (id : str) (req : CreateVmSnapshotRequest) (now : str)
  | RestoreRam (id name now : str)
  | Rollback (id name : str)
  | DeleteSnapshot (id name : str).

Definition void {A} (m : Svc (KvmService.state (RV:=RV) (H:=H)) A) : Svc _ unit := _ ← m; mret tt.
Definition serve (r : vm_request) : Svc (KvmService.state (RV:=RV) (H:=H)) unit :=
  match r with
  | Update id req macs i now =>
      void (KvmService.update broker exec state_dir spice_listen create_dir_all write_file remove_file
              list_isos base64_decode from_utf8_lossy id req macs i now)
  | Delete id => KvmService.delete broker exec state_dir create_dir_all write_file id
  | Power id action now => void (KvmService.power broker exec id action now)
  | ResizeDisk id i req now => void (KvmDevices.resize_disk broker exec id i req now)
  | AttachDisk id d now =>
      void (KvmDevices.attach_disk broker exec state_dir spice_listen create_dir_all write_file remove_file id d now)
  | DetachDisk id i now =>
      void (KvmDevices.detach_disk broker exec state_dir spice_listen create_dir_all write_file remove_file id i now)
  | AttachUsb id req u now =>
      void (KvmDevices.attach_usb broker exec state_dir spice_listen create_dir_all write_file remove_file id req u now)
  | DetachUsb id v p u now =>
      void (KvmDevices.detach_usb broker exec state_dir spice_listen create_dir_all write_file remove_file id v p u now)
  | AttachPci id req u now =>
      void (KvmDevices.attach_pci broker exec state_dir spice_listen create_dir_all write_file remove_file id req u now)
  | DetachPci id a u now =>
      void (KvmDevices.detach_pci broker exec state_dir spice_listen create_dir_all write_file remove_file id a u now)
  | CreateSnapshot id req now =>
      void (KvmSnapshots.create_snapshot broker exec state_dir write_file remove_file file_len ram_files
              sidecar ts_from_unix id req now)
  | RestoreRam id name now => void (KvmSnapshots.restore_ram_snapshot broker exec state_dir exists_ id name now)
  | Rollback id name => KvmSnapshots.rollback_snapshot broker exec id name
  | DeleteSnapshot id name => KvmSnapshots.delete_snapshot broker exec state_dir remove_file exists_ id name
  end.

(** The destructive commands a request may run, given the records: a volume is
    only grown, and only by a request to grow that disk; a disk of the VM is
    rolled back to the snapshot that the request names; and of the snapshots only
    the named one is destroyed, by its deletion or by the clean-up of a failed
    creation. *)
Definition disk_of (f : str → option Vm) (id dataset : str) : Prop :=
  ∃ vm disk, f id = Some vm ∧ disk ∈ v_disks vm ∧ dataset = trim (dk_dataset disk).
Inductive may_destroy (f : str → option Vm) : vm_request → command → Prop :=
  | md_grow id index req now vm disk :
      f id = Some vm → v_disks vm !! index = Some disk → (dk_size_gib disk < rz_size_gib req)%N →
      may_destroy f (ResizeDisk id index req now)
        (lit "zfs", [lit "set"; "volsize=" ++ dec (rz_size_gib req) ++ "G"; trim (dk_dataset disk)])
  | md_rollback id name dataset :
      disk_of f id dataset →
      may_destroy f (Rollback id name) (lit "zfs", [lit "rollback"; lit "-r"; dataset ++ "@" ++ name])
  | md_delete id name dataset :
      disk_of f id dataset →
      may_destroy f (DeleteSnapshot id name) (lit "zfs", [lit "destroy"; dataset ++ "@" ++ name])
  | md_undo id req now dataset :
      disk_of f id dataset →
      may_destroy f (CreateSnapshot id req now) (lit "zfs", [lit "destroy"; dataset ++ "@" ++ cv_name req]).

Lemma bind_lift_issues {A B} P (r : ApiResult A) (f : A → Svc (KvmService.state (RV:=RV) (H:=H)) B) :
  (∀ a, r = Ok a → issues P (f a)) → issues P (mbind f (lift r)).
Proof.
  intros Hf s s' x. unfold mbind, svc_bind, lift. destruct r as [a|e]; [by apply Hf|].
  intros [= <- _]. exists []. by rewrite app_nil_r.
Qed.
Lemma each_issues {A} P (f : A → Svc (KvmService.state (RV:=RV) (H:=H)) unit) (l : list A) :
  (∀ a, a ∈ l → issues P (f a)) → issues P (each f l).
Proof.
  induction l as [|a l IH]; intros Hf; simpl; [apply issues_ret|].
  apply issues_bind; [apply Hf; by left|]. intros _. apply IH. intros b Hb. apply Hf. by right.
Qed.
Lemma get_stored_then {B} P id (k : Vm → Svc _ B) s s' r :
  mbind k (KvmService.get_stored id) s = (s', r) →
  (∀ vm, record (KvmService.store s) id = Some vm → issues P (k vm)) →
  ∃ tr, klog log s' = klog log s ++ tr ∧ Forall P tr.
Proof.
  unfold KvmService.get_stored, KvmService.on_store. unfold mbind, svc_bind, lift.
  destruct (store_get id (KvmService.store s)) as [d [o|e]] eqn:Hg.
  2: { intros [= <- _] _. exists []. by rewrite app_nil_r. }
  apply get_ok in Hg. destruct o as [vm|]; simpl.
  - intros E Hk. by apply (Hk vm (eq_sym Hg)) in E.
  - intros [= <- _] _. exists []. by rewrite app_nil_r.
Qed.

Lemma issues_harmless {A} f r (m : Svc _ A) :
  issues harmless m → issues (λ c, destructive c = true → may_destroy f r c) m.
Proof. apply issues_impl. unfold harmless. congruence. Qed.
Hint Resolve issues_harmless : issues.

(** One harmless step of a handler. *)
Ltac mild := apply issues_bind; [apply issues_harmless; unfold KvmService.fs_freeze,
  KvmService.fs_thaw, KvmService.zfs; issues|].

Lemma snapshot_datasets_disks vm datasets dataset :
  snapshot_datasets vm = Ok datasets → dataset ∈ datasets →
  ∃ disk, disk ∈ v_disks vm ∧ dataset = trim (dk_dataset disk).
Proof.
  unfold snapshot_datasets. intros Hd Hin.
  assert (datasets = List.filter (λ d, negb (is_empty d)) (map (λ d, trim (dk_dataset d)) (v_disks vm)))
    as ->.
  { clear Hin. revert datasets Hd.
    induction (List.filter _ _) as [|x l IH]; intros ds Hd; simpl in Hd; inv_ok; [done|].
    f_equal; [|by apply IH]. unfold ensure_safe_dataset in *. by eapply ensure_safe_zfs_dataset_id. }
  apply list_elem_of_In, List.filter_In in Hin as [Hin%list_elem_of_In _].
  apply list_elem_of_fmap in Hin as (disk & -> & Hin). eauto.
Qed.

Lemma ensure_safe_snapshot_id name tag : ensure_safe_snapshot name = Ok tag → tag = name.
Proof.
  unfold ensure_safe_snapshot. intros Hn. by inv_ok.
Qed.

Lemma resize_may_destroy id index req now s s' r :
  KvmDevices.resize_disk broker exec id index req now s = (s', r) →
  ∃ tr, klog log s' = klog log s ++ tr ∧
    Forall (λ c, destructive c = true → may_destroy (record (KvmService.store s)) (ResizeDisk id index req now) c) tr.
Proof.
  intros E. eapply get_stored_then; [exact E|]. intros vm Hvm.
  apply bind_lift_issues. intros disk Hdisk. apply bind_lift_issues. intros dataset Hds.
  destruct (_ =? 0)%N; [issues|]. destruct (rz_size_gib req <? dk_size_gib disk)%N eqn:E1; [issues|].
  destruct (rz_size_gib req =? dk_size_gib disk)%N eqn:E2; [issues|]. cbv zeta.
  apply issues_bind.
  - apply issues_run_ok; [done|]. intros _. apply ensure_safe_zfs_dataset_id in Hds as ->.
    eapply md_grow; [done| |bool_prop; lia]. by case_match; simplify_eq.
  - intros _. apply issues_harmless. issues.
Qed.

Lemma create_snapshot_may_destroy id req now s s' r :
  KvmSnapshots.create_snapshot broker exec state_dir write_file remove_file file_len ram_files
    sidecar ts_from_unix id req now s = (s', r) →
  ∃ tr, klog log s' = klog log s ++ tr ∧
    Forall (λ c, destructive c = true → may_destroy (record (KvmService.store s)) (CreateSnapshot id req now) c) tr.
Proof.
  unfold KvmSnapshots.create_snapshot. destruct (cv_type req).
  2: { apply issues_harmless. issues. }
  intros E. eapply get_stored_then; [exact E|]. intros vm Hvm.
  apply bind_lift_issues. intros tag ->%ensure_safe_snapshot_id.
  apply bind_lift_issues. intros datasets Hds. destruct (bool_decide _); [issues|].
  mild. intros [|]; [unfold KvmSnapshots.already_exists; issues|].
  mild. intros frozen. apply issues_bind; [apply issues_harmless; unfold KvmService.fs_freeze; issues|].
  intros _. cbv zeta. mild. intros capture. mild. intros _.
  destruct capture as [u|e]; [apply issues_harmless; issues|].
  apply issues_bind; [|intros _; unfold KvmSnapshots.already_exists; apply issues_harmless; issues].
  apply each_issues. intros target Hin. apply issues_ignore, issues_run_ok; [done|]. intros _.
  apply list_elem_of_fmap in Hin as (dataset & -> & Hin).
  apply (snapshot_datasets_disks _ _ _ Hds) in Hin as (disk & ? & ?). apply md_undo. by exists vm, disk.
Qed.

Lemma rollback_may_destroy id name s s' r :
  KvmSnapshots.rollback_snapshot broker exec id name s = (s', r) →
  ∃ tr, klog log s' = klog log s ++ tr ∧
    Forall (λ c, destructive c = true → may_destroy (record (KvmService.store s)) (Rollback id name) c) tr.
Proof.
  intros E. eapply get_stored_then; [exact E|]. intros vm Hvm.
  apply bind_lift_issues. intros tag ->%ensure_safe_snapshot_id. mild. intros _.
  apply bind_lift_issues. intros datasets Hds.
  apply issues_bind; [apply issues_harmless; unfold KvmSnapshots.snapshot_on_all_disks; issues|].
  intros [|]; simpl; [|unfold KvmSnapshots.no_snapshot; issues].
  apply each_issues. intros dataset Hin. apply issues_run_ok; [done|]. intros _.
  apply (snapshot_datasets_disks _ _ _ Hds) in Hin as (disk & ? & ?). apply md_rollback. by exists vm, disk.
Qed.

Lemma delete_may_destroy id name s s' r :
  KvmSnapshots.delete_snapshot broker exec state_dir remove_file exists_ id name s = (s', r) →
  ∃ tr, klog log s' = klog log s ++ tr ∧
    Forall (λ c, destructive c = true → may_destroy (record (KvmService.store s)) (DeleteSnapshot id name) c) tr.
Proof.
  intros E. eapply get_stored_then; [exact E|]. intros vm Hvm.
  apply bind_lift_issues. intros tag ->%ensure_safe_snapshot_id.
  apply bind_lift_issues. intros path _. mild. intros [|]; [apply issues_harmless; issues|].
  apply bind_lift_issues. intros datasets Hds.
  apply issues_bind; [apply issues_harmless; unfold KvmSnapshots.snapshot_on_all_disks; issues|].
  intros [|]; simpl; [|unfold KvmSnapshots.no_snapshot; issues].
  apply each_issues. intros dataset Hin. apply issues_run_ok; [done|]. intros _.
  apply (snapshot_datasets_disks _ _ _ Hds) in Hin as (disk & ? & ?). apply md_delete. by exists vm, disk.
Qed.

Lemma void_run {A} (m : Svc _ A) s s' r :
  void m s = (s', r) → ∃ r', m s = (s', r').
Proof.
  unfold void, mbind, svc_bind. destruct (m s) as [s1 [a|e]]; intros [= <- _]; eauto.
Qed.

(** The requests that destroy nothing at all. *)
Definition destroys_nothing (r : vm_request) : bool :=
  match r with
  | ResizeDisk _ _ _ _ | CreateSnapshot _ _ _ | Rollback _ _ | DeleteSnapshot _ _ => false
  | _ => true
  end.
Lemma mild_requests r : destroys_nothing r = true → issues harmless (serve r).
Proof.
  destruct r; try done; intros _; unfold serve, void, KvmDevices.attach_disk, KvmDevices.detach_disk,
    KvmDevices.attach_usb, KvmDevices.detach_usb, KvmDevices.attach_pci, KvmDevices.detach_pci,
    KvmDevices.attach_device, KvmDevices.detach_device, KvmService.zfs; issues.
Qed.


(** ** Templates *)

(** Commands that run a domain. *)
Definition runs_vm (c : command) : Prop :=
  ∃ sub id, c = (lit "virsh", [lit "-c"; CONNECT; lit sub; id]) ∧ sub ∈ ["start"; "resume"; "reboot"]%string.

Lemma start_queue_issues queue :
  issues (λ c, runs_vm c → ∃ vm, vm ∈ queue ∧ c = (lit "virsh", [lit "-c"; CONNECT; lit "start"; v_id vm]))
    (KvmService.start_queue broker exec queue).
Proof.
  induction queue as [|vm queue IH]; simpl; [apply issues_ret|].
  apply issues_bind.
  - unfold KvmService.live_state. apply issues_bind; [|intros ?; apply issues_ret].
    apply issues_attempt, issues_run_optional; [assumption|].
    intros (sub & id & [= E _] & Hs). exfalso. revert Hs E. clear.
    rewrite !elem_of_cons, elem_of_nil. intros [->|[->|[->|[]]]]; discriminate.
  - intros live. apply issues_bind.
    + destruct (bool_decide _); [apply issues_ret|]. apply issues_ignore. unfold KvmService.virsh.
      apply issues_run; [assumption|]. intros _. exists vm. split; [by left|done].
    + intros _. eapply issues_impl; [|exact IH]. intros c Hc Hr. destruct (Hc Hr) as (v & Hv & ->).
      exists v. split; [by right|done].
Qed.

Lemma elem_of_autostart vms vm :
  vm ∈ autostart_queue vms ↔ vm ∈ vms ∧ v_autostart vm = true ∧ v_template vm = false.
Proof.
  unfold autostart_queue. rewrite elem_of_sort_by, list_elem_of_In, List.filter_In, <- list_elem_of_In.
  rewrite andb_true_iff, negb_true_iff. done.
Qed.

Lemma autostart_cmp_le x y :
  autostart_cmp x y ≠ Gt ↔
  (default U32_MAX (v_startup_order x) < default U32_MAX (v_startup_order y))%N ∨
  (default U32_MAX (v_startup_order x) = default U32_MAX (v_startup_order y) ∧
   str_cmp (v_created_at x) (v_created_at y) ≠ Gt).
Proof.
  unfold autostart_cmp.
  destruct (N.compare_spec (default U32_MAX (v_startup_order x)) (default U32_MAX (v_startup_order y)));
    simpl; (split; [|intros [?|[? ?]]]); try lia; try done; intros Hc; auto.
Qed.

(** A template does not run. Asking to start, resume or reboot one is refused
    before anything reaches the host; a request to create one already started is
    refused at once; and the commands of the boot sequence start only VMs on
    record that are marked for autostart and are not templates, lowest startup
    order first. *)
Theorem template_stays_off :
  (∀ id action now s vm, record (KvmService.store s) id = Some vm → v_template vm = true →
     KvmService.forbidden_for_template action = true →
     (∃ d, store_get id (KvmService.store s) = (d, Ok (Some vm))) →
     ∃ s' e, KvmService.power broker exec id action now s = (s', Err e) ∧
       klog log s' = klog log s ∧ ∀ k, record (KvmService.store s') k = record (KvmService.store s) k) ∧
  (∀ req id macs i now s, c_template req = true → c_start req = true → ∃ e,
     KvmService.create broker exec state_dir spice_listen create_dir_all write_file remove_file list_isos
       base64_decode from_utf8_lossy req id macs i now s = (s, Err e)) ∧
  (∀ s s' res, KvmService.start_autostart_vms broker exec s = (s', res) →
     ∃ tr, klog log s' = klog log s ++ tr ∧
       Forall (λ c, runs_vm c → ∃ k vm, record (KvmService.store s) k = Some vm ∧
         v_autostart vm = true ∧ v_template vm = false ∧
         c = (lit "virsh", [lit "-c"; CONNECT; lit "start"; v_id vm])) tr) ∧
  (∀ vms, StronglySorted (λ a b, (default U32_MAX (v_startup_order a) ≤ default U32_MAX (v_startup_order b))%N)
     (autostart_queue vms)).
Proof.
  split_and!.
  - intros id action now s vm Hr Ht Ha [d Hg]. unfold KvmService.power, KvmService.get_stored.
    unfold mbind, svc_bind, KvmService.on_store. rewrite Hg. simpl. rewrite Ht, Ha. simpl.
    eexists _, _. split_and!; [done|done|]. intros k. simpl. by rewrite (get_keeps _ _ _ _ Hg).
  - intros req id macs i now s Ht Hs. unfold KvmService.create. unfold mbind, svc_bind, lift.
    destruct (validate_vm_request req) as [[]|e]; [|by eexists]. rewrite Ht, Hs. by eexists.
  - intros s s' res. unfold KvmService.start_autostart_vms, attempt, mbind, svc_bind, KvmService.on_store.
    destruct (store_list (KvmService.store s)) as [d [vms|e]] eqn:E; simpl.
    2: { intros [= <- _]. exists []. by rewrite app_nil_r. }
    intros Hq. apply (start_queue_issues (autostart_queue vms)) in Hq as (tr & Htr & F).
    exists tr. split; [done|]. eapply Forall_impl; [exact F|]. intros c Hc Hr.
    destruct (Hc Hr) as (vm & (Hin & Ha & Ht)%elem_of_autostart & ->).
    apply (list_ok _ _ _ E) in Hin as [k Hk]. by exists k, vm.
  - intros vms. unfold autostart_queue.
    assert (StronglySorted (λ x y, autostart_cmp x y ≠ Gt) (sort_by autostart_cmp
      (List.filter (λ vm, v_autostart vm && negb (v_template vm)) vms))) as Hs.
    { apply sort_by_sorted.
      - intros x y. rewrite autostart_cmp_le. unfold autostart_cmp.
        destruct (N.compare_spec (default U32_MAX (v_startup_order x)) (default U32_MAX (v_startup_order y)));
          simpl; [|done|by left]. intros Hg. right. split; [done|by apply str_cmp_total].
      - intros x y z. rewrite !autostart_cmp_le. intros [Hx|[-> Hx]] [Hy|[Hy' Hy]]; [left; lia..|].
        right. split; [done|by eapply str_cmp_trans]. }
    induction Hs as [|x l Hs IH Hx]; constructor; [done|].
    eapply Forall_impl; [exact Hx|]. intros y. rewrite autostart_cmp_le. intros [?|[-> _]]; lia.
Qed.
End data.

(** ** Console tickets *)

Section tickets.
Context `{RV : RecordStore Vm} {H : Type} (to_rfc3339 : Z → str).
Implicit Types (s : KvmService.state (RV:=RV) (H:=H)).

Lemma redeem_miss vm ticket now s :
  (∀ t, KvmService.tickets s !! ticket = Some t → k_vm_id t = vm → (now < k_expires_at t)%Z → False) →
  KvmService.redeem_ticket vm ticket now s = (s, Err (unauthorized "invalid or expired console ticket")).
Proof.
  intros Hno. unfold KvmService.redeem_ticket. destruct (KvmService.tickets s !! ticket) as [t|] eqn:E; [|done].
  destruct (k_vm_id t =s? vm) eqn:Ev; [|done]. destruct (now <? k_expires_at t)%Z eqn:El; [|done].
  exfalso. apply (Hno t); [done|by apply str_eqb_eq|lia].
Qed.

(** A console ticket opens one console once. The ticket that [console] hands
    out for a VM is accepted for that VM only and less than 60 seconds later, and
    then gives the target it was made for; a request for another VM is refused and
    does not use it up; once redeemed it is refused to everybody; and the tickets
    of other consoles that have not expired are as they were. *)
Theorem ticket_single_use id kind target ticket mono wall s s1 handshake :
  KvmService.mint_ticket to_rfc3339 id kind target ticket mono wall s = (s1, Ok handshake) →
  ct_ticket handshake = ticket ∧
  (∀ other now, other ≠ id → KvmService.redeem_ticket other ticket now s1
     = (s1, Err (unauthorized "invalid or expired console ticket"))) ∧
  (∀ now, (mono + 60 ≤ now)%Z → KvmService.redeem_ticket id ticket now s1
     = (s1, Err (unauthorized "invalid or expired console ticket"))) ∧
  (∀ now, (now < mono + 60)%Z → ∃ s2,
     KvmService.redeem_ticket id ticket now s1 = (s2, Ok target) ∧
     (∀ vm later, KvmService.redeem_ticket vm ticket later s2
        = (s2, Err (unauthorized "invalid or expired console ticket"))) ∧
     (∀ t, t ≠ ticket → KvmService.tickets s2 !! t = KvmService.tickets s1 !! t)) ∧
  (∀ t k, t ≠ ticket → KvmService.tickets s1 !! t = Some k ↔
     KvmService.tickets s !! t = Some k ∧ (mono < k_expires_at k)%Z).
Proof.
  unfold KvmService.mint_ticket. intros [= <- <-].
  set (live := filter _ _). set (t0 := mkTicket id target (mono + TICKET_TTL)).
  assert (<[ticket := t0]> live !! ticket = Some t0) as Hl by apply lookup_insert_eq.
  split_and!; [done|..].
  - intros other now Ho. apply redeem_miss. intros t. simpl. rewrite Hl. intros [= <-] Hv _. by apply Ho.
  - intros now Hn. apply redeem_miss. intros t. simpl. rewrite Hl. intros [= <-] _ Hv. simpl in Hv. unfold TICKET_TTL in Hv. lia.
  - intros now Hn. unfold KvmService.redeem_ticket at 1. simpl. rewrite Hl. simpl.
    rewrite str_eqb_refl, (proj2 (Z.ltb_lt _ _)) by (unfold TICKET_TTL; lia). simpl.
    eexists. split_and!; [done|..].
    + intros vm later. apply redeem_miss. intros t. simpl. by rewrite lookup_delete_eq.
    + intros t Ht. simpl. by rewrite lookup_delete_ne by congruence.
  - intros t k Ht. simpl. rewrite lookup_insert_ne by congruence. unfold live. by rewrite map_lookup_filter_Some.
Qed.
End tickets.
