(* ===== verification/KvmCreateProofs.v ===== *)
(** * Creating and migrating: what is undone, and when data goes *)

From S2P Require Export ZfsProofs KvmProofs.

(** ** Records *)

Section records.
Context `{RV : RecordStore Vm} {H : Type}.
Local Abbreviation state := (KvmService.state (RV:=RV) (H:=H)).

(** The records are those of [f]. *)
Definition records (f : str → option Vm) (s : state) : Prop := ∀ k, record (KvmService.store s) k = f k.

Lemma keeps_on_host {A} f (m : Svc H A) : keeps (records f) (KvmService.on_host m).
Proof. intros s s' r. unfold KvmService.on_host. destruct (m _) as [h x]. by intros [= <- _]. Qed.
Lemma keeps_store_list f : keeps (records f) (KvmService.on_store (H:=H) store_list).
Proof.
  intros s s' r. unfold KvmService.on_store. destruct (store_list _) as [d x] eqn:E. intros [= <- _] Hs k.
  simpl. by rewrite (list_keeps _ _ _ E).
Qed.
Lemma keeps_store_get f id : keeps (records f) (KvmService.on_store (H:=H) (store_get id)).
Proof.
  intros s s' r. unfold KvmService.on_store. destruct (store_get _ _) as [d x] eqn:E. intros [= <- _] Hs k.
  simpl. by rewrite (get_keeps _ _ _ _ E).
Qed.
End records.

(** Show that a computation leaves the records alone. *)
Ltac keeps_step :=
  lazymatch goal with
  | |- keeps _ (mbind _ _) => apply keeps_bind; [|intros ?]
  | |- keeps _ (attempt _) => apply keeps_attempt
  | |- keeps _ (ignore _) => apply keeps_ignore
  | |- keeps _ (on_error _ _) => apply keeps_on_error
  | |- keeps _ (each _ _) => apply keeps_each; intros ?
  | |- keeps _ (match ?x with _ => _ end) => destruct x
  | |- keeps _ (KvmService.on_host _) => apply keeps_on_host
  | |- keeps _ (KvmService.run _ _ _ _) => apply keeps_on_host
  | |- keeps _ (KvmService.run_ok _ _ _ _) => apply keeps_on_host
  | |- keeps _ (KvmService.run_optional _ _ _ _) => apply keeps_on_host
  | |- keeps _ (KvmService.on_store store_list) => apply keeps_store_list
  | |- keeps _ (KvmService.on_store (store_get _)) => apply keeps_store_get
  | |- keeps _ (mret _) => apply keeps_ret
  | |- keeps _ (fail _) => apply keeps_fail
  | |- keeps _ (lift _) => apply keeps_lift
  | |- keeps _ (gets _) => apply keeps_gets
  | |- keeps _ _ => assumption || solve [auto 2 with issues nocore]
  end.
Ltac keeps_records := repeat keeps_step.

(** ** Undoing *)

Section create.
Context `{RV : RecordStore Vm} {H : Type} (log : H → list command).
Context (broker : bool) (exec : str → list str → Svc H (option str)).
Context (state_dir spice_listen : str).
Context (create_dir_all : str → Svc H unit) (write_file : str → str → Svc H unit)
  (remove_file : str → Svc H unit) (list_isos : Svc H (list IsoImage)).
Context (base64_decode : str → option (list N)) (from_utf8_lossy : list N → str).
Context (exec_log : ∀ p a h, log (exec p a h).1 = log h ++ [(p, a)])
  (create_dir_log : ∀ d h, log (create_dir_all d h).1 = log h)
  (write_log : ∀ p b h, log (write_file p b h).1 = log h)
  (remove_log : ∀ p h, log (remove_file p h).1 = log h)
  (isos_log : ∀ h, log (list_isos h).1 = log h).

Local Abbreviation state := (KvmService.state (RV:=RV) (H:=H)).
Local Abbreviation issues := (issues (RV:=RV) log).
Local Abbreviation klog := (klog (RV:=RV) log).
Local Abbreviation commit_vm := (KvmService.commit_vm (RV:=RV) broker exec state_dir spice_listen
  create_dir_all write_file remove_file).
Local Abbreviation create := (KvmService.create (RV:=RV) broker exec state_dir spice_listen
  create_dir_all write_file remove_file list_isos base64_decode from_utf8_lossy).

Definition destroy_cmd (dataset : str) : command := (lit "zfs", [lit "destroy"; lit "-r"; dataset]).

(** A dataset that the broker accepts as an argument. *)
Definition sound_dataset (d : str) : Prop := safe_dataset d = true ∧ (length d ≤ 4096)%nat.

Lemma destroy_accepted d : sound_dataset d → validate_exec "zfs" [lit "destroy"; lit "-r"; d] = Ok tt.
Proof.
  intros [Hs Hl]. apply zfs_accepts; [reflexivity|simpl; lia| |].
  - apply Forall_cons_2; [by apply word_lit|]. apply Forall_cons_2; [by apply word_lit|].
    apply Forall_singleton. split; [by apply dataset_chars|exact Hl].
  - rewrite loop_flag by reflexivity. rewrite dataset_word_args by (done || discriminate). done.
Qed.

(** A failed [m] has run all of [cmds]; a clean-up runs all of them. *)
Definition undoes {A} (cmds : list command) (m : Svc state A) : Prop :=
  ∀ s s' e, m s = (s', Err e) → ∃ tr, klog s' = klog s ++ tr ∧ ∀ c, c ∈ cmds → c ∈ tr.
Definition covers (cmds : list command) (m : Svc state unit) : Prop :=
  ∀ s s' r, m s = (s', r) → ∃ tr, klog s' = klog s ++ tr ∧ ∀ c, c ∈ cmds → c ∈ tr.
Definition total {A} (m : Svc state A) : Prop := ∀ s, ∃ s' a, m s = (s', Ok a).

Lemma undoes_ok {A} cmds (m : Svc state A) : total m → undoes cmds m.
Proof. intros Hm s s' e E. destruct (Hm s) as (s1 & a & E1). congruence. Qed.

Lemma undoes_bind {A B} cmds (m : Svc state A) (f : A → Svc state B) :
  undoes cmds m → issues (λ _, True) m → (∀ a, undoes cmds (f a)) → undoes cmds (mbind f m).
Proof.
  intros Hm Hi Hf s s' e. unfold mbind, svc_bind. destruct (m s) as [s1 [a|e1]] eqn:E.
  - intros E2. destruct (Hi _ _ _ E) as (t1 & H1 & _). destruct (Hf _ _ _ _ E2) as (t2 & H2 & Hc).
    exists (t1 ++ t2). rewrite H2, H1, app_assoc. split; [done|]. set_solver.
  - intros [= <- <-]. by eapply Hm.
Qed.
Lemma undoes_on_error {A} cmds (m : Svc state A) c :
  issues (λ _, True) m → covers cmds c → undoes cmds (on_error m c).
Proof.
  intros Hi Hc s s' e. unfold on_error. destruct (m s) as [s1 [a|e1]] eqn:E; intros [= <- <-].
  destruct (Hi _ _ _ E) as (t1 & H1 & _). destruct (c s1) as [s2 r2] eqn:E2.
  destruct (Hc _ _ _ E2) as (t2 & H2 & Hin). exists (t1 ++ t2). simpl. rewrite H2, H1, app_assoc.
  split; [done|]. set_solver.
Qed.
Lemma covers_bind_l {A} cmds (m : Svc state unit) (f : unit → Svc state A) :
  covers cmds m → (∀ a, issues (λ _, True) (f a)) →
  ∀ s s' r, mbind f m s = (s', r) → ∃ tr, klog s' = klog s ++ tr ∧ ∀ c, c ∈ cmds → c ∈ tr.
Proof.
  intros Hm Hf s s' r. unfold mbind, svc_bind. destruct (m s) as [s1 [a|e1]] eqn:E.
  - intros E2. destruct (Hm _ _ _ E) as (t1 & H1 & Hc). destruct (Hf _ _ _ _ E2) as (t2 & H2 & _).
    exists (t1 ++ t2). rewrite H2, H1, app_assoc. split; [done|]. set_solver.
  - intros [= <- <-]. by eapply Hm.
Qed.
Lemma covers_bind_r {A} cmds (m : Svc state A) (f : A → Svc state unit) :
  total m → issues (λ _, True) m → (∀ a, covers cmds (f a)) → covers cmds (mbind f m).
Proof.
  intros Ht Hm Hf s s' r. unfold mbind, svc_bind. destruct (Ht s) as (s1 & a & E). rewrite E. intros E2.
  destruct (Hm _ _ _ E) as (t1 & H1 & _). destruct (Hf _ _ _ _ E2) as (t2 & H2 & Hc).
  exists (t1 ++ t2). rewrite H2, H1, app_assoc. split; [done|]. set_solver.
Qed.
Lemma total_ret {A} (a : A) : total (mret a).
Proof. intros s. by eexists _, _. Qed.
Lemma total_ignore {A} (m : Svc state A) : total (ignore m).
Proof. intros s. by eexists _, _. Qed.

(** *** The clean-up of the zvols *)

Lemma executed p args h :
  is_ok (Command.validate_program p) = true → validate_exec p args = Ok tt →
  log (Command.run_ok broker exec p args h).1 = log h ++ [(p, args)].
Proof.
  intros Hp Hv. unfold Command.run_ok, Command.run, Command.dispatch, mbind, svc_bind, lift.
  destruct (Command.validate_program p) as [x|e]; [|done]. rewrite Hv.
  pose proof (exec_log p args h) as He.
  destruct broker; simpl; destruct (exec _ _ _) as [h' [[o|]|e]]; simpl in *; exact He.
Qed.

Lemma destroy_logged d s :
  sound_dataset d → klog (ignore (KvmService.zfs broker exec [lit "destroy"; lit "-r"; d]) s).1 = klog s ++ [destroy_cmd d].
Proof.
  intros Hd. pose proof (executed "zfs" _ (KvmService.host s) eq_refl (destroy_accepted d Hd)) as He.
  unfold ignore, KvmService.zfs, KvmService.run_ok, KvmService.on_host, KvmProofs.klog. cbn [fst].
  by destruct (Command.run_ok _ _ _ _ _) as [h r].
Qed.

Lemma cleanup_covers created :
  Forall sound_dataset created →
  covers (map destroy_cmd created) (KvmService.cleanup_created_zvols broker exec created).
Proof.
  intros Hc s s' r E. unfold KvmService.cleanup_created_zvols in E.
  assert (klog s' = klog s ++ map destroy_cmd created) as Hl; [|exists (map destroy_cmd created); by rewrite Hl].
  revert s E. induction Hc as [|d ds Hd _ IH]; intros s; simpl.
  - intros [= <- _]. by rewrite app_nil_r.
  - unfold mbind, svc_bind, ignore at 1. intros E. rewrite (IH _ E).
    pose proof (destroy_logged d s Hd) as Hl. unfold ignore in Hl. simpl in Hl. rewrite Hl.
    by rewrite <- app_assoc.
Qed.

(** *** [commit_vm] and [create] *)

Lemma any_issues {A} (m : Svc state A) : issues harmless m → issues (λ _, True) m.
Proof. by apply issues_impl. Qed.

Lemma any_define vm : issues (λ _, True)
  (KvmService.define broker exec state_dir spice_listen create_dir_all write_file remove_file vm).
Proof. by apply any_issues, define_issues. Qed.
Lemma any_firewall id vm b : issues (λ _, True)
  (KvmService.apply_firewall broker exec state_dir create_dir_all write_file id vm b).
Proof. by apply any_issues, apply_firewall_issues. Qed.
Lemma any_cloud_init n ci i : issues (λ _, True)
  (KvmService.create_cloud_init_iso broker exec state_dir create_dir_all write_file base64_decode
     from_utf8_lossy n ci i).
Proof. by apply any_issues, cloud_init_issues. Qed.
Lemma any_opt_iso i : issues (λ _, True) (KvmService.opt_iso remove_file i).
Proof. by apply opt_iso_issues. Qed.
Lemma any_virsh args : issues (λ _, True) (KvmService.virsh broker exec args).
Proof. unfold KvmService.virsh. by apply issues_run. Qed.
Lemma any_undefine id : issues (λ _, True) (KvmService.undefine broker exec id).
Proof. unfold KvmService.undefine, KvmService.virsh_opt. by apply issues_ignore, issues_run_optional. Qed.
Lemma any_destroy id : issues (λ _, True) (KvmService.destroy broker exec id).
Proof. unfold KvmService.destroy, KvmService.virsh_opt. by apply issues_ignore, issues_run_optional. Qed.
Lemma any_cleanup created : issues (λ _, True) (KvmService.cleanup_created_zvols broker exec created).
Proof. apply issues_each. intros d. by apply issues_ignore, issues_run_ok. Qed.
Lemma any_start id : issues (λ _, True) (KvmService.virsh_start broker exec id).
Proof. apply issues_bind; [by apply any_virsh|intros ?; apply issues_ret]. Qed.
Lemma any_put vm : issues (λ _, True) (KvmService.put vm).
Proof. apply issues_on_store. Qed.
Hint Resolve any_define any_firewall any_cloud_init any_opt_iso any_virsh any_undefine any_destroy
  any_cleanup any_start any_put : issues.

Lemma commit_undoes vm created start :
  Forall sound_dataset created → undoes (map destroy_cmd created) (commit_vm vm created start).
Proof.
  intros Hc. pose proof (cleanup_covers created Hc) as Hclean.
  assert (∀ i, covers (map destroy_cmd created)
    (_ ← KvmService.cleanup_created_zvols broker exec created; KvmService.opt_iso remove_file i)) as Hclean_iso.
  { intros i s s' r. apply covers_bind_l; [done|]. intros _. apply any_opt_iso. }
  assert (∀ id (c : Svc state unit), covers (map destroy_cmd created) c →
    covers (map destroy_cmd created) (_ ← KvmService.undefine broker exec id; c)) as Hund.
  { intros id c Hcov. apply covers_bind_r; [apply total_ignore|apply any_undefine|by intros]. }
  unfold KvmService.commit_vm. apply undoes_bind; [by apply undoes_on_error; [apply any_define|]|KvmProofs.issues|].
  intros _. apply undoes_bind; [|KvmProofs.issues|].
  { destruct (fw_enabled _); [|apply undoes_ok, total_ret].
    apply undoes_on_error; [apply any_firewall|]. by apply Hund. }
  intros _. apply undoes_bind; [|KvmProofs.issues|].
  { destruct start; [|apply undoes_ok, total_ret].
    apply undoes_bind; [|KvmProofs.issues|intros _; apply undoes_ok, total_ret].
    apply undoes_on_error; [apply any_start|]. by apply Hund. }
  intros vm'. apply undoes_bind; [|KvmProofs.issues|intros _; apply undoes_ok, total_ret].
  apply undoes_on_error; [apply any_put|].
  apply covers_bind_r; [apply total_ignore|apply any_destroy|]. intros _. by apply Hund.
Qed.

(** What [provision] reports are datasets of the request, checked. *)
Lemma provision_sound disks created s s' r :
  Forall (λ d, (length (trim (dk_dataset d)) ≤ 4096)%nat) disks → Forall sound_dataset created →
  KvmService.provision broker exec created disks s = (s', Ok r) → Forall sound_dataset r.
Proof.
  intros Hd. revert created s; induction Hd as [|d ds Hd _ IH]; intros created s Hc; simpl.
  { by intros [= <- <-]. }
  rewrite svc_bind_ok. intros (s1 & b & E & Hp). eapply IH; [|exact Hp]. destruct b; [|done].
  apply Forall_app. split; [done|]. apply Forall_singleton. split; [|done].
  unfold KvmService.ensure_zvol in E. apply svc_bind_ok in E as (s2 & ds' & E & _).
  unfold lift in E. injection E as _ E. rewrite <- dataset_ok_safe, E. done.
Qed.

(** *** The records *)

Definition fails_clean {A} (f : str → option Vm) (m : Svc state A) : Prop :=
  ∀ s s' e, m s = (s', Err e) → records f s → records f s'.
Lemma keeps_fails_clean {A} f (m : Svc state A) : keeps (records f) m → fails_clean f m.
Proof. intros Hm s s' e E. by eapply Hm. Qed.
Lemma fails_clean_bind {A B} f (m : Svc state A) (g : A → Svc state B) :
  keeps (records f) m → (∀ a, fails_clean f (g a)) → fails_clean f (mbind g m).
Proof.
  intros Hm Hg s s' e. rewrite svc_bind_err. intros [E|(s1 & a & E & E2)] Hs; [by eapply Hm|].
  eapply Hg; [exact E2|]. by eapply Hm.
Qed.

Lemma put_under_result id vm (s s' : state) r f : KvmService.put_under id vm s = (s', r) → records f s →
  match r with
  | Ok _ => records (λ k, if decide (k = id) then Some vm else f k) s'
  | Err _ => records f s'
  end.
Proof.
  unfold KvmService.put_under, KvmService.on_store. destruct (store_put _ _ _) as [d [[]|e]] eqn:E;
    intros [= <- <-] Hs k; simpl.
  - rewrite (put_ok _ _ _ _ E k). case_decide; [done|apply Hs].
  - rewrite (put_err _ _ _ _ _ E k). apply Hs.
Qed.
Lemma put_result vm (s s' : state) r f : KvmService.put vm s = (s', r) → records f s →
  match r with
  | Ok _ => records (λ k, if decide (k = v_id vm) then Some vm else f k) s'
  | Err _ => records f s'
  end.
Proof. apply put_under_result. Qed.

Lemma keeps_define f vm : keeps (records f) (KvmService.define broker exec state_dir spice_listen
  create_dir_all write_file remove_file vm).
Proof. unfold KvmService.define, KvmService.virsh. keeps_records. Qed.
Lemma keeps_cleanup f c : keeps (records f) (KvmService.cleanup_created_zvols broker exec c).
Proof. unfold KvmService.cleanup_created_zvols, KvmService.zfs. keeps_records. Qed.
Lemma keeps_undefine f id : keeps (records f) (KvmService.undefine broker exec id).
Proof. unfold KvmService.undefine, KvmService.virsh_opt. keeps_records. Qed.
Lemma keeps_destroy f id : keeps (records f) (KvmService.destroy broker exec id).
Proof. unfold KvmService.destroy, KvmService.virsh_opt. keeps_records. Qed.
Lemma keeps_firewall f id vm b : keeps (records f)
  (KvmService.apply_firewall broker exec state_dir create_dir_all write_file id vm b).
Proof. unfold KvmService.apply_firewall, KvmService.run_nft_batch. keeps_records. Qed.
Lemma keeps_start f id : keeps (records f) (KvmService.virsh_start broker exec id).
Proof. unfold KvmService.virsh_start, KvmService.virsh. keeps_records. Qed.
Lemma keeps_opt_iso f i : keeps (records f) (KvmService.opt_iso remove_file i).
Proof. unfold KvmService.opt_iso. keeps_records. Qed.
Lemma keeps_ensure f d : keeps (records f) (KvmService.ensure_zvol broker exec d).
Proof. unfold KvmService.ensure_zvol, KvmService.zfs. keeps_records. Qed.
Lemma keeps_provision f created disks : keeps (records f) (KvmService.provision broker exec created disks).
Proof.
  revert created; induction disks as [|d ds IH]; intros created; simpl; [apply keeps_ret|].
  apply keeps_bind; [apply keeps_ensure|]. intros b. apply IH.
Qed.
Lemma keeps_iso f p : keeps (records f) (KvmService.resolve_iso list_isos p).
Proof. unfold KvmService.resolve_iso. keeps_records. Qed.
Lemma keeps_cloud_init f n ci i : keeps (records f)
  (KvmService.create_cloud_init_iso broker exec state_dir create_dir_all write_file base64_decode
     from_utf8_lossy n ci i).
Proof. unfold KvmService.create_cloud_init_iso. keeps_records. Qed.
Hint Resolve keeps_define keeps_cleanup keeps_undefine keeps_destroy keeps_firewall keeps_start
  keeps_opt_iso keeps_ensure keeps_provision keeps_iso keeps_cloud_init : issues.

Lemma commit_fails f vm created start : fails_clean f (commit_vm vm created start).
Proof.
  unfold KvmService.commit_vm. repeat (apply fails_clean_bind; [solve [keeps_records]|intros ?]).
  intros s s' e. rewrite svc_bind_err. intros [E|(s1 & [] & _ & E)] Hs; [|discriminate E].
  unfold on_error in E. destruct (KvmService.put _ s) as [s1 [u|e1]] eqn:Ep; [done|].
  injection E as <- _. apply (put_result _ _ _ _ f) in Ep; [|done].
  match goal with |- records f (?c s1).1 => destruct (c s1) as [s2 r2] eqn:Ec;
    assert (keeps (records f) c) as Hk by keeps_records; by eapply Hk end.
Qed.

Lemma commit_ok f vm created start s s' vm' :
  commit_vm vm created start s = (s', Ok vm') → records f s →
  records (λ k, if decide (k = v_id vm') then Some vm' else f k) s' ∧
  vm' = (if start then set_state Running vm else vm).
Proof.
  unfold KvmService.commit_vm. rewrite svc_bind_ok. intros (s1 & [] & E1 & E) Hs.
  apply svc_bind_ok in E as (s2 & [] & E2 & E). apply svc_bind_ok in E as (s3 & w & E3 & E).
  apply svc_bind_ok in E as (s4 & [] & E4 & [= <- <-]).
  assert (keeps (records f) (on_error (KvmService.define broker exec state_dir spice_listen create_dir_all
    write_file remove_file vm) (_ ← KvmService.cleanup_created_zvols broker exec created;
    KvmService.opt_iso remove_file (v_cloud_init_iso vm)))) as K1 by keeps_records.
  pose proof (K1 _ _ _ E1 Hs) as H1.
  assert (records f s2) as H2.
  { destruct (fw_enabled _); [|by injection E2 as <-]. revert E2 H1. clear. generalize (Ok (E:=AppError) tt). intros r.
    revert s1 s2 r. match goal with |- ∀ s1 s2 r, ?c s1 = (s2, r) → _ => change (keeps (records f) c) end.
    keeps_records. }
  assert (records f s3 ∧ w = (if start then set_state Running vm else vm)) as [H3 ->].
  { destruct start; [|by injection E3 as <- <-]. apply svc_bind_ok in E3 as (s5 & [] & E5 & [= <- <-]).
    split; [|done]. revert E5 H2. generalize (Ok (E:=AppError) tt). intros r.
    clear. revert s2 s5 r. match goal with |- ∀ s1 s2 r, ?c s1 = (s2, r) → _ => change (keeps (records f) c) end.
    keeps_records. }
  split; [|done]. unfold on_error in E4. destruct (KvmService.put _ s3) as [s5 [u|e1]] eqn:Ep; [|done].
  injection E4 as <- _. by apply (put_result _ _ _ _ f) in Ep.
Qed.

Lemma create_fails f req id macs i now : fails_clean f (create req id macs i now).
Proof.
  unfold KvmService.create. apply fails_clean_bind; [keeps_records|intros _].
  destruct (_ && _); [apply keeps_fails_clean; keeps_records|].
  do 4 (apply fails_clean_bind; [solve [keeps_records]|intros ?]).
  do 4 (apply fails_clean_bind; [solve [keeps_records]|intros ?]). apply commit_fails.
Qed.

(** The install medium of a request, looked up before anything is created. *)
Definition medium (req : CreateVmRequest) : Svc state (option str) :=
  match c_cdrom req with
  | Some path => iso ← KvmService.resolve_iso list_isos path; mret (Some iso)
  | None => mret None
  end.
Definition seeded (req : CreateVmRequest) (instance_id : str) (created : list str) : Svc state (option str) :=
  match c_cloud_init req with
  | Some ci =>
      path ← on_error (KvmService.create_cloud_init_iso broker exec state_dir create_dir_all write_file
                         base64_decode from_utf8_lossy (c_name req) ci instance_id)
               (KvmService.cleanup_created_zvols broker exec created);
      mret (Some path)
  | None => mret None
  end.
Lemma seeded_issues req i created : issues (λ _, True) (seeded req i created).
Proof. unfold seeded. KvmProofs.issues. Qed.
Lemma seeded_undoes req i created :
  Forall sound_dataset created → undoes (map destroy_cmd created) (seeded req i created).
Proof.
  intros Hc. unfold seeded. destruct (c_cloud_init req); [|apply undoes_ok, total_ret].
  apply undoes_bind; [|KvmProofs.issues|intros ?; apply undoes_ok, total_ret].
  apply undoes_on_error; [apply any_cloud_init|by apply cleanup_covers].
Qed.

End create.

(** ** Migrating a disk *)

Section migrate.
Context `{RV : RecordStore Vm} {H : Type} (log : H → list command).
Context (broker : bool) (exec : str → list str → Svc H (option str)).
Context (state_dir spice_listen : str).
Context (create_dir_all : str → Svc H unit) (write_file : str → str → Svc H unit)
  (remove_file : str → Svc H unit).
Context (stream_to_file stream_from_file : str → list str → str → Svc H unit).
Context (exec_log : ∀ p a h, log (exec p a h).1 = log h ++ [(p, a)])
  (create_dir_log : ∀ d h, log (create_dir_all d h).1 = log h)
  (write_log : ∀ p b h, log (write_file p b h).1 = log h)
  (remove_log : ∀ p h, log (remove_file p h).1 = log h)
  (to_file_log : ∀ p a f h, log (stream_to_file p a f h).1 = log h ++ [(p, a)])
  (from_file_log : ∀ p a f h, log (stream_from_file p a f h).1 = log h ++ [(p, a)]).

Local Abbreviation state := (KvmService.state (RV:=RV) (H:=H)).
Local Abbreviation klog := (klog (RV:=RV) log).
Local Abbreviation migrate_disk := (KvmDevices.migrate_disk (RV:=RV) broker exec state_dir spice_listen
  create_dir_all write_file remove_file stream_to_file stream_from_file).

(** Not the destruction of a dataset with all it holds. *)
Definition spares (c : command) : Prop := ∀ d, c ≠ destroy_cmd d.
Local Abbreviation issues := (issues (RV:=RV) log).

(** A run from [s] to [s'], after the commands [p], that ends as [Φ] says. *)
Definition ends (Φ : list command → Prop) (s' s : state) (p : list command) : Prop :=
  ∃ tr, klog s' = klog s ++ tr ∧ Φ (p ++ tr).

Lemma ends_step {A B} f (m : Svc state A) (g : A → Svc state B) (Φ : list command → Prop) p s s' r :
  mbind g m s = (s', r) → records f s → Forall spares p → (∀ t, Forall spares t → Φ t) →
  issues spares m → keeps (records f) m →
  (∀ t s1 a, m s = (s1, Ok a) → klog s1 = klog s ++ t → Forall spares (p ++ t) → records f s1 →
     g a s1 = (s', r) → ends Φ s' s1 (p ++ t)) →
  ends Φ s' s p.
Proof.
  intros E Hs Hp HΦ Hm Hk Hg. unfold mbind, svc_bind in E. destruct (m s) as [s1 [a|e]] eqn:Em.
  - destruct (Hm _ _ _ Em) as (t & Ht & F).
    destruct (Hg t s1 a eq_refl Ht (Forall_app_2 _ _ _ Hp F) (Hk _ _ _ Em Hs) E) as (tr & Htr & P).
    exists (t ++ tr). by rewrite Htr, Ht, !app_assoc in *.
  - injection E as <- _. destruct (Hm _ _ _ Em) as (t & Ht & F). exists t. split; [done|].
    by apply HΦ, Forall_app_2.
Qed.

Lemma spares_zfs cmd rest : cmd ≠ lit "destroy" → spares (lit "zfs", cmd :: rest).
Proof. intros Hc d [= -> _]. by apply Hc. Qed.
Lemma spares_destroy_one a : spares (lit "zfs", [lit "destroy"; a]).
Proof. intros d. discriminate. Qed.
Lemma spares_virsh a : spares (lit "virsh", a).
Proof. intros d [=]. Qed.
Hint Resolve spares_destroy_one spares_virsh : core.

Lemma spares_get_stored id : issues spares (KvmService.get_stored id).
Proof. unfold KvmService.get_stored. apply issues_bind; [apply issues_on_store|intros ?; apply issues_lift]. Qed.
Lemma spares_running id : issues spares (KvmDevices.is_running broker exec id).
Proof.
  unfold KvmDevices.is_running, KvmService.live_state. apply issues_bind; [|intros ?; apply issues_ret].
  apply issues_bind; [|intros ?; apply issues_ret]. apply issues_attempt, issues_run_optional; auto.
Qed.
Lemma spares_define vm : issues spares (KvmService.define broker exec state_dir spice_listen
  create_dir_all write_file remove_file vm).
Proof.
  unfold KvmService.define, KvmService.virsh. apply issues_bind; [apply issues_lift|intros _].
  cbv zeta. apply issues_bind; [by apply issues_on_host|intros _].
  apply issues_bind; [by apply issues_on_host|intros _].
  apply issues_bind; [apply issues_attempt, issues_run; auto|intros ?].
  apply issues_bind; [by apply issues_ignore, issues_on_host|intros _].
  apply issues_bind; [apply issues_lift|intros _]. apply issues_ret.
Qed.
Lemma spares_host {A} (m : Svc H A) (c : command) :
  spares c → (∀ h, log (m h).1 = log h ++ [c]) → issues spares (KvmService.on_host m).
Proof.
  intros Hc Hm s s' r. unfold KvmService.on_host. pose proof (Hm (KvmService.host s)) as Hl.
  destruct (m _) as [h x]. intros [= <- _]. exists [c]. split; [exact Hl|by constructor].
Qed.

Lemma copy_trace snapshot target temp s s1 :
  KvmDevices.migrate_copy stream_to_file stream_from_file snapshot target temp s = (s1, Ok tt) →
  klog s1 = klog s ++ [(lit "zfs", [lit "send"; snapshot]); (lit "zfs", [lit "receive"; lit "-F"; target])].
Proof.
  unfold KvmDevices.migrate_copy, mbind, svc_bind, KvmService.on_host, KvmProofs.klog.
  pose proof (to_file_log "zfs" [lit "send"; snapshot] temp (KvmService.host s)) as H1.
  destruct (stream_to_file _ _ _ _) as [h1 [u|e]]; [|done]. simpl in *.
  pose proof (from_file_log "zfs" [lit "receive"; lit "-F"; target] temp h1) as H2.
  destruct (stream_from_file _ _ _ _) as [h2 [u2|e]]; [|done]. intros [= <-]. simpl in *.
  by rewrite H2, H1, <- app_assoc.
Qed.

Lemma spares_copy snapshot target temp :
  issues spares (KvmDevices.migrate_copy stream_to_file stream_from_file snapshot target temp).
Proof.
  apply issues_bind; [|intros _];
    (eapply spares_host; [|intros h; apply to_file_log || apply from_file_log];
     apply spares_zfs; discriminate).
Qed.

Lemma zfs_trace args s s' r : KvmService.zfs broker exec args s = (s', r) →
  (klog s' = klog s ∨ klog s' = klog s ++ [(lit "zfs", args)]) ∧
  ∀ f, records f s → records f s'.
Proof.
  unfold KvmService.zfs, KvmService.run_ok, Command.run_ok, Command.run, Command.dispatch, KvmService.on_host,
    KvmProofs.klog, mbind, svc_bind, lift.
  pose proof (exec_log "zfs" args (KvmService.host s)) as He.
  destruct (Command.validate_program _); [|intros [= <- _]; by split; [left|]].
  destruct broker; [destruct (map_err _ _); [|intros [= <- _]; by split; [left|]]|];
    destruct (exec _ _ _) as [h' [[o|]|e]]; simpl in *; intros [= <- _]; (split; [by right|done]).
Qed.

(** The commands of a migration that went all the way. *)
Definition moved f id req (s' : state) (tr : list command) : Prop :=
  ∃ pre vm disk snapshot, tr = pre ++ [destroy_cmd (trim (dk_dataset disk))] ∧ Forall spares pre ∧
    f id = Some vm ∧ v_disks vm !! mg_disk_index req = Some disk ∧
    starts_with (trim (dk_dataset disk) ++ "@") snapshot = true ∧
    (lit "zfs", [lit "send"; snapshot]) ∈ pre ∧
    (lit "zfs", [lit "receive"; lit "-F"; mg_target_dataset req]) ∈ pre ∧
    ∃ vm', record (KvmService.store s') id = Some vm' ∧
      v_disks vm' = alter (set_dataset (mg_target_dataset req)) (mg_disk_index req) (v_disks vm).
Definition migrated f id req s' tr : Prop := Forall spares tr ∨ moved f id req s' tr.

Lemma get_stored_result f id (s s1 : state) vm :
  KvmService.get_stored id s = (s1, Ok vm) → records f s → f id = Some vm.
Proof.
  intros E Hs. apply svc_bind_ok in E as (s2 & o & E1 & [= -> E2]).
  unfold KvmService.on_store in E1. destruct (store_get id _) as [d r1] eqn:Eg. injection E1 as <- ->.
  apply get_ok in Eg. rewrite Hs in Eg. subst o. by destruct (f id); [injection E2 as ->|].
Qed.
Lemma disk_result {id i} {l : list VmDisk} {disk : VmDisk} {s s1 : state} :
  lift (match l !! i with Some d => Ok d | None => KvmDevices.no_disk id i end) s = (s1, Ok disk) →
  l !! i = Some disk.
Proof. by destruct (l !! i); [intros [= _ ->]|]. Qed.

(** One step of a migration that destroys nothing. *)
Ltac spares_goal := solve [apply issues_lift | apply spares_get_stored | apply spares_running
  | apply spares_copy | apply spares_define | apply issues_on_store
  | apply issues_ignore, issues_on_host; auto
  | apply issues_run_optional; [assumption|apply spares_zfs; discriminate]
  | apply issues_run_ok; [assumption|apply spares_zfs; discriminate]
  | apply issues_ignore, issues_run_ok; [assumption|apply spares_destroy_one]
  | apply issues_on_error; [apply spares_copy|apply issues_bind; [|intros _];
      apply issues_ignore; [by apply issues_on_host|apply issues_run_ok; [assumption|apply spares_destroy_one]]]].
Ltac keeps_goal := solve [unfold KvmService.get_stored, KvmDevices.is_running, KvmService.live_state,
  KvmService.define, KvmService.virsh, KvmService.zfs, KvmDevices.migrate_copy; keeps_records].
Ltac next E H0 := eapply ends_step; [exact E|eassumption|eassumption|exact H0|spares_goal|keeps_goal|]; clear E.

(** What follows the copy: save, redefine, destroy the source. *)
Lemma switch_over f id req vm disk snapshot vm' s s' r p :
  (_ ← KvmService.put_under id vm';
   _ ← KvmService.define broker exec state_dir spice_listen create_dir_all write_file remove_file vm';
   _ ← KvmService.zfs broker exec [lit "destroy"; lit "-r"; trim (dk_dataset disk)];
   mret vm') s = (s', r) →
  records f s → Forall spares p → f id = Some vm → v_disks vm !! mg_disk_index req = Some disk →
  starts_with (trim (dk_dataset disk) ++ "@") snapshot = true →
  (lit "zfs", [lit "send"; snapshot]) ∈ p →
  (lit "zfs", [lit "receive"; lit "-F"; mg_target_dataset req]) ∈ p →
  v_disks vm' = alter (set_dataset (mg_target_dataset req)) (mg_disk_index req) (v_disks vm) →
  ends (migrated f id req s') s' s p.
Proof.
  intros E Hs Hp Hvm Hd Hsn Hsend Hrecv Hvm'.
  assert (∀ t, Forall spares t → migrated f id req s' t) as H0 by (intros t Ht; by left).
  unfold mbind at 1, svc_bind in E. destruct (KvmService.put_under _ _ s) as [s1 r1] eqn:E1.
  pose proof (put_under_result _ _ _ _ _ _ E1 Hs) as R1.
  assert (klog s1 = klog s) as L1.
  { pose proof (issues_on_store log (λ _, False) (store_put id vm') _ _ _ E1) as (t & -> & F).
    destruct F; [by rewrite app_nil_r|done]. }
  destruct r1 as [[]|e]; [|injection E as <- _; exists []; rewrite !app_nil_r; auto].
  assert (ends (migrated f id req s') s' s1 p) as (tr & Htr & Hm); [|exists tr; by rewrite <- L1].
  next E H0. intros t2 s2 [] _ _ F2 R2 E. unfold mbind, svc_bind in E.
  destruct (KvmService.zfs _ _ _ s2) as [s3 r3] eqn:E3. apply zfs_trace in E3 as [L3 K3].
  assert (s3 = s') as -> by (destruct r3; by injection E).
  destruct L3 as [L3|L3]; [exists []; rewrite !app_nil_r; auto|]. exists [destroy_cmd (trim (dk_dataset disk))].
  split; [exact L3|]. right. exists (p ++ t2), vm, disk, snapshot. split_and!; try done.
  1,2: by apply elem_of_app; left.
  exists vm'. split; [|done]. rewrite (K3 _ R2 id). by rewrite decide_True.
Qed.

(** ** With [zfs] installed a migration is always refused *)

Definition refuses {A} f (m : Svc state A) : Prop :=
  ∀ s s' r, m s = (s', r) → records f s → is_ok r = false ∧ records f s'.
Lemma refuses_fail {A} f e : refuses f (fail (A:=A) e).
Proof. by intros s s' r [= <- <-]. Qed.
Lemma refuses_bind {A B} f (m : Svc state A) (g : A → Svc state B) (P : A → Prop) :
  keeps (records f) m → (∀ s s' a, m s = (s', Ok a) → P a) → (∀ a, P a → refuses f (g a)) →
  refuses f (mbind g m).
Proof.
  intros Hk HP Hg s s' r. unfold mbind, svc_bind. destruct (m s) as [s1 [a|e]] eqn:E.
  - intros E2 Hs. by eapply (Hg a (HP _ _ _ E)); [|eapply Hk].
  - intros [= <- <-] Hs. split; [done|by eapply Hk].
Qed.

Lemma migrate_refused f id req secs nanos now :
  (∀ a h, (exec (lit "zfs") a h).2 ≠ Ok None) → refuses f (migrate_disk id req secs nanos now).
Proof.
  intros Hz. unfold KvmDevices.migrate_disk.
  do 4 (apply (refuses_bind _ _ _ (λ _, True)); [keeps_goal|done|intros ? _]).
  destruct (_ =s? _); [apply refuses_fail|].
  apply (refuses_bind _ _ _ (λ _, True)); [keeps_goal|done|intros [] _]; [apply refuses_fail|].
  apply (refuses_bind _ _ _ (λ o, o ≠ None)); [keeps_goal| |intros [?|] ?; [apply refuses_fail|done]].
  intros s s' found. unfold KvmService.run_optional, KvmService.on_host, Command.run_optional, Command.dispatch,
    mbind, svc_bind, lift. destruct (Command.validate_program _); [|done].
  match goal with |- context [exec _ ?args] => pose proof (Hz args (KvmService.host s)) as Hx end.
  destruct broker; [destruct (map_err _ _); [|done]|]; destruct (exec _ _ _) as [h' r]; intros [= _ ->];
    intros ->; by apply Hx.
Qed.

(** A migration keeps the data until the VM is on its copy. The only command
    of [migrate_disk] that can destroy a dataset with its contents is its very
    last one, and that one destroys the disk's old dataset only after the copy
    was sent and received on the target the request names and the saved record of
    the VM points that disk, and only that disk, to the target; a migration that
    stops anywhere before leaves the old dataset where it is. On a host that has
    [zfs] no migration gets that far: a target that does not exist makes the
    check before the copy fail, so every request ends in an error and the records
    stay as they were. *)
Theorem migrate_keeps_source id req secs nanos now s s' r f :
  migrate_disk id req secs nanos now s = (s', r) → records f s →
  ∃ tr, klog s' = klog s ++ tr ∧ migrated f id req s' tr ∧
    ((∀ a h, (exec (lit "zfs") a h).2 ≠ Ok None) → is_ok r = false ∧ records f s').
Proof.
  intros E Hs. cut (∃ tr, klog s' = klog s ++ tr ∧ migrated f id req s' tr).
  { intros (tr & ? & ?). exists tr. split_and!; [done..|]. intros Hz. by eapply migrate_refused. }
  change (ends (migrated f id req s') s' s []).
  assert (∀ t, Forall spares t → migrated f id req s' t) as H0 by (intros t Ht; by left).
  pose proof (Forall_nil_2 spares) as F0. unfold KvmDevices.migrate_disk in E.
  next E H0. intros t1 s1 vm E1 _ F1 R1 E. pose proof (get_stored_result _ _ _ _ _ E1 Hs) as Hvm.
  next E H0. intros t2 s2 disk E2 _ F2 R2 E. apply disk_result in E2.
  next E H0. intros t3 s3 source E3 _ F3 R3 E. injection E3 as <- E3. apply ensure_safe_zfs_dataset_id in E3 as ->.
  next E H0. intros t4 s4 target E4 _ F4 R4 E. injection E4 as <- E4. apply ensure_safe_zfs_dataset_id in E4 as ->.
  destruct (_ =s? _). { injection E as <- _. exists []. rewrite !app_nil_r in *. by split; [|left]. }
  next E H0. intros t5 s5 running E5 _ F5 R5 E.
  destruct running. { injection E as <- _. exists []. rewrite !app_nil_r in *. by split; [|left]. }
  next E H0. intros t6 s6 found E6 _ F6 R6 E.
  destruct found. { injection E as <- _. exists []. rewrite !app_nil_r in *. by split; [|left]. }
  cbv zeta in E. set (snapshot := trim (dk_dataset disk) ++ _) in E.
  next E H0. intros t7 s7 [] E7 _ F7 R7 E.
  next E H0. intros t8 s8 id' E8 _ F8 R8 E.
  next E H0. intros t9 s9 [] E9 _ F9 R9 E.
  next E H0. intros t10 s10 [] E10 L10 F10 R10 E.
  next E H0. intros t11 s11 [] E11 _ F11 R11 E.
  next E H0. intros t12 s12 [] E12 _ F12 R12 E.
  next E H0. intros t13 s13 [] E13 _ F13 R13 E.
  assert (t10 = [(lit "zfs", [lit "send"; snapshot]);
                 (lit "zfs", [lit "receive"; lit "-F"; mg_target_dataset req])]) as ->.
  { unfold on_error in E10. destruct (KvmDevices.migrate_copy _ _ _ _ _ s9) as [sc [[]|e]] eqn:Ec; [|done].
    injection E10 as <-. apply copy_trace in Ec. rewrite Ec in L10. by apply app_inv_head in L10. }
  apply (switch_over f id req vm disk snapshot _ _ _ _ _ E); try done.
  - subst snapshot. apply starts_with_spec. eexists. by rewrite <- app_assoc.
  - rewrite !elem_of_app. do 3 left. right. by left.
  - rewrite !elem_of_app. do 3 left. right. right. by left.
Qed.
End migrate.
