(* ===== verification/KvmRuns.v ===== *)
(** * Runs of the VM service on a concrete host

    A host that records the commands it gets and answers each with a function of
    the command; the theorems about the VM service applied to it. *)

From S2P Require Export KvmCreateProofs.

Section host.
Context (answer : list command → str → list str → ApiResult (option str)).

Definition trace_exec (p : str) (a : list str) : Svc (list command) (option str) :=
  λ h, (h ++ [(p, a)], answer h p a).
Definition trace_stream (p : str) (a : list str) (_ : str) : Svc (list command) unit :=
  λ h, (h ++ [(p, a)], Ok tt).
End host.
Definition quiet1 (_ : str) : Svc (list command) unit := λ h, (h, Ok tt).
Definition quiet2 (_ _ : str) : Svc (list command) unit := λ h, (h, Ok tt).
Definition no_isos : Svc (list command) (list IsoImage) := λ h, (h, Ok []).

(** The tools answer; domains are shut off, and the only datasets are those
    received so far. *)
Definition received (dataset : str) (h : list command) : bool :=
  existsb (λ c, (c.1 =s? "zfs") && existsb (str_eqb "receive") c.2 && existsb (str_eqb dataset) c.2) h.
Definition good_host (h : list command) (p : str) (a : list str) : ApiResult (option str) :=
  if p =s? "zfs" then
    match a with
    | [cmd; _; _; _; dataset] => if (cmd =s? "list") && negb (received dataset h)
                                 then Err (hypervisor "dataset does not exist") else Ok (Some [])
    | _ => Ok (Some [])
    end
  else if existsb (str_eqb "domstate") a then Ok (Some (lit "shut off")) else Ok (Some []).
(** As [good_host], but nothing starts. *)
Definition failing_start (h : list command) (p : str) (a : list str) : ApiResult (option str) :=
  if existsb (str_eqb "start") a then Err (hypervisor "no") else good_host h p a.
(** A host that has no [zfs] as long as nothing was received. *)
Definition late_zfs (h : list command) (p : str) (a : list str) : ApiResult (option str) :=
  match good_host h p a with Err _ => Ok None | r => r end.

Definition demo_vm (template autostart : bool) : Vm :=
  mkVm "5f0c" "web01" Stopped 2 2048 Uefi Spice [mkVmDisk "tank/vms/web01-disk0" 20 Virtio] [] [] [] []
    None None None true no_firewall template autostart None [] None "2026-01-01T00:00:00Z" None.
Definition demo_records (template autostart : bool) : str → option Vm :=
  λ k, if decide (k = "5f0c") then Some (demo_vm template autostart) else None.
Definition demo_state (template autostart : bool) : KvmService.state (RV:=map_store Vm) (H:=list command) :=
  KvmService.mkState (RV:=map_store Vm) {[ lit "5f0c" := demo_vm template autostart ]} ∅ [].
Lemma demo_has t a : records (demo_records t a) (demo_state t a).
Proof.
  intros k. change (({[ lit "5f0c" := demo_vm t a ]} : gmap str Vm) !! k = demo_records t a k).
  unfold demo_records. case_decide as Hk; [by rewrite Hk, lookup_singleton_eq|].
  by rewrite lookup_singleton_ne.
Qed.

(** Deleting a VM: its domain is destroyed and undefined, its disk is not.
    Growing its disk: that volume is set to the new size; and a request for a
    smaller one reaches no command. *)
Definition demo_serve (r : vm_request) := serve (RV:=map_store Vm) true (trace_exec good_host)
  "/var/lib/daygleve" "0.0.0.0" quiet1 quiet2 quiet1 no_isos (λ _, None) (λ _, []) (λ _ _, false)
  (λ _ _, None) (λ _, []) (λ _ _ _, []) (λ _, []) r (demo_state false false).
Definition direct_serve (r : vm_request) := serve (RV:=map_store Vm) false (trace_exec good_host)
  "/var/lib/daygleve" "0.0.0.0" quiet1 quiet2 quiet1 no_isos (λ _, None) (λ _, []) (λ _ _, false)
  (λ _ _, None) (λ _, []) (λ _ _ _, []) (λ _, []) r (demo_state false false).
Definition grown := direct_serve (ResizeDisk "5f0c" 0 (mkResize 30) "now").
Definition grow_cmd : command := (lit "zfs", lits ["set"; "volsize=30G"; "tank/vms/web01-disk0"]).

Definition demo_create (start : bool) : CreateVmRequest :=
  mkCreateVm "db01" 2 2048 Uefi Spice [mkVmDisk "tank/vms/db01-disk0" 20 Virtio] [] [] [] [] None None None
    true no_firewall false true None [] None start.

(** A template is asked to start: refused, and the host sees nothing. *)
Lemma template_stays_off_witness :
  record (RecordStore:=map_store Vm) (KvmService.store (demo_state true false)) (lit "5f0c")
    = Some (demo_vm true false) ∧
  ∃ s' e, KvmService.power (RV:=map_store Vm) true (trace_exec good_host) (lit "5f0c") PStart (lit "now")
      (demo_state true false) = (s', Err e) ∧ klog (λ h, h) s' = [].
Proof.
  assert (record (RecordStore:=map_store Vm) (KvmService.store (demo_state true false)) (lit "5f0c")
    = Some (demo_vm true false)) as Hr by exact (demo_has true false (lit "5f0c")).
  split; [exact Hr|].
  destruct (template_stays_off (RV:=map_store Vm) (λ h, h) true (trace_exec good_host) "/var/lib/daygleve" "0.0.0.0"
    quiet1 quiet2 quiet1 no_isos (λ _, None) (λ _, []) (λ p a h, eq_refl)) as [Hp _].
  destruct (Hp (lit "5f0c") PStart (lit "now") (demo_state true false) _ Hr eq_refl eq_refl
    (ex_intro _ _ eq_refl)) as (s' & e & E & Hl & _).
  by exists s', e.
Defined.

(** A ticket minted at 100 is good at 130, for one use. *)
Definition demo_mint := KvmService.mint_ticket (RV:=map_store Vm) (H:=list command) (λ _, lit "later") (lit "5f0c") (lit "vnc")
  (VncSocket "127.0.0.1:5900") (lit "t1") 100 0 (demo_state false false).
Lemma ticket_single_use_witness : ∃ s1 h s2,
  demo_mint = (s1, Ok h) ∧
  KvmService.redeem_ticket (lit "5f0c") (lit "t1") 130 s1 = (s2, Ok (VncSocket "127.0.0.1:5900")) ∧
  KvmService.redeem_ticket (lit "5f0c") (lit "t1") 131 s2
    = (s2, Err (unauthorized "invalid or expired console ticket")).
Proof.
  destruct demo_mint as [s1 [h|e]] eqn:E; [|discriminate E].
  pose proof (ticket_single_use _ _ _ _ _ _ _ _ _ _ E) as (_ & _ & _ & Hok & _).
  destruct (Hok 130%Z ltac:(lia)) as (s2 & E2 & Hno & _). exists s1, h, s2. auto.
Defined.

(** A VM whose start fails leaves neither a record nor its disk. *)
Definition demo_failed := KvmService.create (RV:=map_store Vm) true (trace_exec failing_start) "/var/lib/daygleve" "0.0.0.0"
  quiet1 quiet2 quiet1 no_isos (λ _, None) (λ _, []) (demo_create true) (lit "77aa") [] (lit "i-1") (lit "now")
  (demo_state false false).

(** A migration that goes through: the source goes last. *)
Definition demo_migrated := KvmDevices.migrate_disk (RV:=map_store Vm) true (trace_exec late_zfs)
  "/var/lib/daygleve" "0.0.0.0" quiet1 quiet2 quiet1 trace_stream trace_stream (lit "5f0c")
  (mkMigrate 0 "fast/web01-disk0") 1 1 (lit "now") (demo_state false false).
(** With [zfs] installed the same request is turned down. *)
Definition demo_refused := KvmDevices.migrate_disk (RV:=map_store Vm) true (trace_exec good_host)
  "/var/lib/daygleve" "0.0.0.0" quiet1 quiet2 quiet1 trace_stream trace_stream (lit "5f0c")
  (mkMigrate 0 "fast/web01-disk0") 1 1 (lit "now") (demo_state false false).
Lemma good_host_has_zfs a h : (trace_exec good_host (lit "zfs") a h).2 ≠ Ok None.
Proof.
  cbn [trace_exec snd]. unfold good_host. change (lit "zfs" =s? "zfs") with true. cbv match.
  destruct a as [|c [|? [|? [|? [|? []]]]]]; try discriminate. by destruct (_ && _).
Qed.
Lemma migrate_keeps_source_witness :
  last (klog (λ h, h) demo_migrated.1) = Some (destroy_cmd "tank/vms/web01-disk0") ∧
  ∃ tr, klog (λ h, h) demo_migrated.1 = klog (λ h, h) (demo_state false false) ++ tr ∧
    moved (demo_records false false) (lit "5f0c") (mkMigrate 0 "fast/web01-disk0") demo_migrated.1 tr ∧
    is_ok demo_refused.2 = false.
Proof.
  split; [reflexivity|].
  destruct (migrate_keeps_source (λ h, h) true (trace_exec good_host) "/var/lib/daygleve" "0.0.0.0" quiet1 quiet2
    quiet1 trace_stream trace_stream (λ p a h, eq_refl) (λ d h, eq_refl) (λ p b h, eq_refl) (λ p h, eq_refl)
    (λ p a f h, eq_refl) (λ p a f h, eq_refl) _ _ _ _ _ _ _ _ _ (surjective_pairing demo_refused)
    (demo_has false false)) as (_ & _ & _ & Hno). destruct (Hno good_host_has_zfs) as [Hr _].
  pose proof (migrate_keeps_source (λ h, h) true (trace_exec late_zfs) "/var/lib/daygleve" "0.0.0.0" quiet1 quiet2
    quiet1 trace_stream trace_stream (λ p a h, eq_refl) (λ d h, eq_refl) (λ p b h, eq_refl) (λ p h, eq_refl)
    (λ p a f h, eq_refl) (λ p a f h, eq_refl) _ _ _ _ _ _ _ _ _ (surjective_pairing demo_migrated)
    (demo_has false false)) as (tr & Htr & [Hs|Hm] & _); exists tr; (split; [exact Htr|]); [exfalso|by split].
  assert (last tr = Some (destroy_cmd "tank/vms/web01-disk0")) as Hl .
  { change (klog (λ h, h) demo_migrated.1 = tr) in Htr. rewrite <- Htr. reflexivity. }
  apply last_Some in Hl as [l ->]. apply Forall_app in Hs as [_ Hs]. apply Forall_cons_1 in Hs as [Hs _].
  by apply (Hs (lit "tank/vms/web01-disk0")).
Defined.
