(* ===== verification/IsoScan.v ===== *)
(** * The ISO library (src/src/services/kvm.rs, scan_iso_dir and list_isos)

    The walk over the library and the mounted shares for [*.iso] files: a loop over
    a stack of directories.  The directories are a function of the path that may
    hold anything, a directory inside itself included; a listing that fails part
    way has the entries before the failure.  Entry names are valid UTF-8.  *)

From S2P Require Export Kvm.

Definition ISO_SCAN_DEPTH : nat := 4.

(** [FileType]: a symbolic link is neither a directory nor a file. *)
Inductive FileType := IsDir | IsFile | IsOther.
(** An entry, its type and its size, when they can be read. *)
Record DirEntry := mkEntry { e_name : str; e_type : option FileType; e_len : option N }.

(** [entry.path()]: the directory joined with the name, which holds no slash. *)
Definition join_path (dir name : str) : str :=
  if is_empty dir || ends_with "/" dir then dir ++ name else dir ++ "/" ++ name.
Definition is_iso_name (name : str) : bool :=
  match (stem_extension name).2 with Some e => eq_ignore_ascii_case e "iso" | None => false end.

Module IsoScan.
Section scan.
(** [tokio::fs::read_dir] with its entries. *)
Context (read_dir : str → option (list DirEntry)).
Context (storage : str) (max_depth : nat).

(** The image an entry of [dir] is, if it is one. *)
Definition image_of (dir : str) (entry : DirEntry) : option IsoImage :=
  match e_type entry, e_len entry with
  | Some IsFile, Some len =>
      if is_iso_name (e_name entry)
      then Some (mkIso (e_name entry) (join_path dir (e_name entry)) len storage) else None
  | _, _ => None
  end.

(** The loop over the entries: directories go on the stack (its top first). *)
Fixpoint scan_entries (dir : str) (depth : nat) (entries : list DirEntry)
    (stack : list (str * nat)) (out : list IsoImage) : list (str * nat) * list IsoImage :=
  match entries with
  | [] => (stack, out)
  | entry :: entries =>
      match e_type entry with
      | Some IsDir =>
          let stack := if (depth <? max_depth)%nat
                       then (join_path dir (e_name entry), S depth) :: stack else stack in
          scan_entries dir depth entries stack out
      | _ =>
          scan_entries dir depth entries stack
            (match image_of dir entry with Some iso => out ++ [iso] | None => out end)
      end
  end.

(** The loop over the stack; [None] when [fuel] runs out. *)
Fixpoint scan_loop (fuel : nat) (stack : list (str * nat)) (out : list IsoImage) :
    option (list IsoImage) :=
  match stack with
  | [] => Some out
  | (dir, depth) :: stack =>
      match fuel with
      | O => None
      | S fuel =>
          match read_dir dir with
          | None => scan_loop fuel stack out
          | Some entries =>
              let '(stack, out) := scan_entries dir depth entries stack out in
              scan_loop fuel stack out
          end
      end
  end.

Definition scan_iso_dir (fuel : nat) (root : str) (out : list IsoImage) : option (list IsoImage) :=
  scan_loop fuel [(root, O)] out.
End scan.

Section list_isos.
Context (read_dir : str → option (list DirEntry)) (iso_dir : str).

Definition iso_cmp (a b : IsoImage) : comparison :=
  then_ (str_cmp (iso_storage a) (iso_storage b)) (str_cmp (iso_name a) (iso_name b)).

Fixpoint scan_shares (fuel : nat) (roots : list (str * str)) (out : list IsoImage) :
    option (list IsoImage) :=
  match roots with
  | [] => Some out
  | (name, root) :: roots =>
      out ← scan_iso_dir read_dir name ISO_SCAN_DEPTH fuel root out;
      scan_shares fuel roots out
  end.

(** [roots] are the mount points of the shares that hold ISOs. *)
Definition list_isos (fuel : nat) (roots : list (str * str)) : option (list IsoImage) :=
  isos ← scan_iso_dir read_dir "local" 0 fuel iso_dir [];
  isos ← scan_shares fuel roots isos;
  Some (sort_by iso_cmp isos).
End list_isos.
End IsoScan.

Lemma elem_of_concat {A} (x : A) (ls : list (list A)) : x ∈ concat ls ↔ ∃ l, x ∈ l ∧ l ∈ ls.
Proof.
  induction ls as [|l ls IH]; simpl; [split; [by intros ?%not_elem_of_nil|by intros (? & _ & ?%not_elem_of_nil)]|].
  rewrite elem_of_app, IH. setoid_rewrite elem_of_cons. naive_solver.
Qed.

(** ** The scan ends, and lists exactly the images in reach *)

Section walk.
Context (read_dir : str → option (list DirEntry)) (storage : str).
Local Abbreviation image_of := (IsoScan.image_of storage).

Definition subdirs (dir : str) (entries : list DirEntry) : list str :=
  omap (λ e, match e_type e with Some IsDir => Some (join_path dir (e_name e)) | _ => None end) entries.

(** The same walk as a recursion over the levels left: the images of a directory,
    then those of its subdirectories, the last first. *)
Fixpoint walk (levels : nat) (dir : str) : list IsoImage :=
  match read_dir dir with
  | None => []
  | Some entries =>
      omap (image_of dir) entries ++
      match levels with
      | O => []
      | S levels => concat (map (walk levels) (reverse (subdirs dir entries)))
      end
  end.

(** How many directories it opens. *)
Fixpoint opened (levels : nat) (dir : str) : nat :=
  S match read_dir dir, levels with
    | Some entries, S levels => sum_list (map (opened levels) (reverse (subdirs dir entries)))
    | _, _ => O
    end.

Context (max_depth : nat).
Local Abbreviation scan_entries := (IsoScan.scan_entries storage max_depth).
Local Abbreviation scan_loop := (IsoScan.scan_loop read_dir storage max_depth).

Definition pushed (dir : str) (depth : nat) (entries : list DirEntry) : list (str * nat) :=
  if (depth <? max_depth)%nat then map (λ d, (d, S depth)) (reverse (subdirs dir entries)) else [].

Lemma scan_entries_spec dir depth entries stack out :
  scan_entries dir depth entries stack out
  = (pushed dir depth entries ++ stack, out ++ omap (image_of dir) entries).
Proof.
  revert stack out. induction entries as [|e entries IH]; intros stack out; cbn [IsoScan.scan_entries].
  { unfold pushed. simpl. by destruct (_ <? _)%nat; rewrite app_nil_r. }
  assert (∀ o, e_type e = o → o ≠ Some IsDir →
    (match image_of dir e with Some iso => out ++ [iso] | None => out end) ++ omap (image_of dir) entries
    = out ++ omap (image_of dir) (e :: entries)) as Hfile.
  { intros o _ _. simpl. destruct (image_of dir e); simpl; [by rewrite <- app_assoc|done]. }
  unfold pushed in *. cbn [subdirs]. unfold subdirs at 1. cbn [omap list_omap].
  destruct (e_type e) as [[| |]|] eqn:Et; rewrite IH.
  - assert (image_of dir e = None) as -> by (unfold IsoScan.image_of; by rewrite Et).
    destruct (_ <? _)%nat; [|done]. by rewrite reverse_cons, map_app, <- app_assoc.
  - by rewrite (Hfile _ eq_refl).
  - by rewrite (Hfile _ eq_refl).
  - by rewrite (Hfile _ eq_refl).
Qed.

(** The work a stack stands for. *)
Definition stack_walk (stack : list (str * nat)) : list IsoImage :=
  concat (map (λ d : str * nat, walk (max_depth - d.2) d.1) stack).
Definition stack_size (stack : list (str * nat)) : nat :=
  sum_list (map (λ d : str * nat, opened (max_depth - d.2) d.1) stack).

Lemma pushed_walk dir depth entries : read_dir dir = Some entries →
  omap (image_of dir) entries ++ stack_walk (pushed dir depth entries) = walk (max_depth - depth) dir ∧
  S (stack_size (pushed dir depth entries)) = opened (max_depth - depth) dir.
Proof.
  intros E. unfold pushed, stack_walk, stack_size. destruct (Nat.ltb_spec depth max_depth) as [Hd|Hd].
  - rewrite !map_map. cbn [fst snd]. replace (max_depth - depth)%nat with (S (max_depth - S depth)) by lia.
    simpl. by rewrite E.
  - replace (max_depth - depth)%nat with O by lia. simpl. by rewrite E.
Qed.

Lemma scan_loop_ends fuel stack out :
  (stack_size stack ≤ fuel)%nat → scan_loop fuel stack out = Some (out ++ stack_walk stack).
Proof.
  revert stack out. induction fuel as [|fuel IH]; intros [|[dir depth] stack] out Hf.
  - by rewrite app_nil_r.
  - exfalso. unfold stack_size in Hf. simpl in Hf. destruct (max_depth - depth)%nat; simpl in Hf; lia.
  - by rewrite app_nil_r.
  - cbn [IsoScan.scan_loop]. change (stack_walk ((dir, depth) :: stack))
      with (walk (max_depth - depth) dir ++ stack_walk stack).
    change (stack_size ((dir, depth) :: stack))
      with (opened (max_depth - depth) dir + stack_size stack)%nat in Hf.
    destruct (read_dir dir) as [entries|] eqn:E.
    + rewrite scan_entries_spec. destruct (pushed_walk dir depth entries E) as [Hw Ho].
      rewrite IH.
      * unfold stack_walk at 1. rewrite map_app, concat_app. rewrite <- Hw.
        unfold stack_walk. by rewrite <- !app_assoc.
      * unfold stack_size in *. rewrite map_app, sum_list_with_app.
        rewrite <- Ho in Hf. lia.
    + rewrite IH.
      * f_equal. f_equal. destruct (max_depth - depth)%nat; simpl; by rewrite E.
      * destruct (max_depth - depth)%nat; simpl in Hf; lia.
Qed.

(** [dir] is reached from [root] through at most [levels] real directories. *)
Inductive reaches : nat → str → str → Prop :=
  | reach_root levels root : reaches levels root root
  | reach_sub levels root entries entry dir :
      read_dir root = Some entries → entry ∈ entries → e_type entry = Some IsDir →
      reaches levels (join_path root (e_name entry)) dir → reaches (S levels) root dir.

(** The images on offer below [root]: regular files called [*.iso]. *)
Definition offered (levels : nat) (root : str) (iso : IsoImage) : Prop :=
  ∃ dir entries entry, reaches levels root dir ∧ read_dir dir = Some entries ∧ entry ∈ entries ∧
    e_type entry = Some IsFile ∧ is_iso_name (e_name entry) = true ∧
    iso_path iso = join_path dir (e_name entry) ∧ iso_name iso = e_name entry ∧
    e_len entry = Some (iso_size_bytes iso) ∧ iso_storage iso = storage.

Lemma image_of_spec dir entry iso : image_of dir entry = Some iso ↔
  e_type entry = Some IsFile ∧ is_iso_name (e_name entry) = true ∧
  iso_path iso = join_path dir (e_name entry) ∧ iso_name iso = e_name entry ∧
  e_len entry = Some (iso_size_bytes iso) ∧ iso_storage iso = storage.
Proof.
  unfold IsoScan.image_of. destruct iso as [n p len st]; simpl.
  destruct (e_type entry) as [[| |]|]; try naive_solver.
  destruct (e_len entry) as [l|]; [|naive_solver]. destruct (is_iso_name _); naive_solver.
Qed.

Lemma elem_of_subdirs dir entries d : d ∈ subdirs dir entries ↔
  ∃ entry, entry ∈ entries ∧ e_type entry = Some IsDir ∧ d = join_path dir (e_name entry).
Proof.
  unfold subdirs. rewrite list_elem_of_omap. split.
  - intros (e & He & Hd). exists e. destruct (e_type e) as [[| |]|]; naive_solver.
  - intros (e & He & Ht & ->). exists e. by rewrite Ht.
Qed.

Lemma elem_of_walk levels root iso : iso ∈ walk levels root ↔ offered levels root iso.
Proof.
  revert root. induction levels as [|n IH]; intros root; simpl.
  - split.
    + destruct (read_dir root) as [es|] eqn:E; [|by intros ?%not_elem_of_nil].
      rewrite app_nil_r, list_elem_of_omap. intros (e & He & Hi%image_of_spec).
      exists root, es, e. split_and!; [constructor|done..| | | | | |]; apply Hi.
    + intros (dir & es & e & Hr & E & He & Hi). inversion Hr; subst.
      rewrite E, app_nil_r, list_elem_of_omap. exists e. by rewrite image_of_spec.
  - split.
    + destruct (read_dir root) as [es|] eqn:E; [|by intros ?%not_elem_of_nil].
      rewrite elem_of_app. intros [Hi|Hi].
      * apply list_elem_of_omap in Hi as (e & He & Hi%image_of_spec).
        exists root, es, e. split_and!; [constructor|done..| | | | | |]; apply Hi.
      * apply elem_of_concat in Hi as (l & Hi & Hl).
        apply list_elem_of_fmap in Hl as (d & -> & Hd). rewrite elem_of_reverse in Hd.
        apply elem_of_subdirs in Hd as (e & He & Ht & ->). apply IH in Hi as (dir & es' & e' & Hr & Hi).
        exists dir, es', e'. split; [by eapply reach_sub|done].
    + intros (dir & es & e & Hr & E & He & Hi). inversion Hr as [|? ? es0 e0 ? E0 He0 Ht0 Hr0]; subst.
      * rewrite E, elem_of_app, list_elem_of_omap. left. exists e. by rewrite image_of_spec.
      * rewrite E0, elem_of_app. right. apply elem_of_concat.
        exists (walk n (join_path root (e_name e0))). split.
        -- apply IH. exists dir, es, e. by split.
        -- apply list_elem_of_fmap. eexists. split; [done|]. rewrite elem_of_reverse.
           apply elem_of_subdirs. by exists e0.
Qed.

Lemma scan_iso_dir_ends fuel root out : (opened max_depth root ≤ fuel)%nat →
  IsoScan.scan_iso_dir read_dir storage max_depth fuel root out = Some (out ++ walk max_depth root).
Proof.
  intros Hf. unfold IsoScan.scan_iso_dir. rewrite scan_loop_ends.
  - unfold stack_walk. simpl. by rewrite Nat.sub_0_r, app_nil_r.
  - unfold stack_size. simpl. rewrite Nat.sub_0_r. lia.
Qed.
End walk.

(** The directories opened to list the library and the shares. *)
Definition list_size (read_dir : str → option (list DirEntry)) (iso_dir : str) (roots : list (str * str)) : nat :=
  opened read_dir 0 iso_dir + sum_list (map (λ r : str * str, opened read_dir ISO_SCAN_DEPTH r.2) roots).

Lemma scan_shares_ends read_dir fuel roots out :
  (sum_list (map (λ r : str * str, opened read_dir ISO_SCAN_DEPTH r.2) roots) ≤ fuel)%nat →
  IsoScan.scan_shares read_dir fuel roots out
  = Some (out ++ concat (map (λ r : str * str, walk read_dir r.1 ISO_SCAN_DEPTH r.2) roots)).
Proof.
  revert out. induction roots as [|[name root] roots IH]; intros out Hf; cbn [IsoScan.scan_shares].
  { by rewrite app_nil_r. }
  change (opened read_dir ISO_SCAN_DEPTH root
    + sum_list (map (λ r : str * str, opened read_dir ISO_SCAN_DEPTH r.2) roots) ≤ fuel)%nat in Hf.
  rewrite scan_iso_dir_ends by lia. cbn [mbind option_bind]. rewrite IH by lia. by rewrite <- app_assoc.
Qed.

Lemma iso_cmp_le a b : IsoScan.iso_cmp a b ≠ Gt ↔
  str_cmp (iso_storage a) (iso_storage b) = Lt ∨
  (str_cmp (iso_storage a) (iso_storage b) = Eq ∧ str_cmp (iso_name a) (iso_name b) ≠ Gt).
Proof. unfold IsoScan.iso_cmp. destruct (str_cmp _ (iso_storage b)); simpl; naive_solver. Qed.

Lemma str_cmp_eq (a b : str) : str_cmp a b = Eq → a = b.
Proof.
  revert b; induction a as [|x a IH]; intros [|y b]; simpl; try done.
  destruct (x ?= y)%N eqn:E; [|done..]. apply N.compare_eq in E as ->. intros H. by rewrite (IH _ H).
Qed.
Lemma str_cmp_refl (a : str) : str_cmp a a = Eq.
Proof. induction a as [|x a IH]; simpl; [done|]. by rewrite N.compare_refl. Qed.

Lemma iso_cmp_total a b : IsoScan.iso_cmp a b = Gt → IsoScan.iso_cmp b a ≠ Gt.
Proof.
  unfold IsoScan.iso_cmp. rewrite (str_cmp_opp (iso_storage a) (iso_storage b)).
  destruct (str_cmp _ _) eqn:E; simpl; [|done..]. apply str_cmp_total.
Qed.
Lemma iso_cmp_trans a b c :
  IsoScan.iso_cmp a b ≠ Gt → IsoScan.iso_cmp b c ≠ Gt → IsoScan.iso_cmp a c ≠ Gt.
Proof.
  rewrite !iso_cmp_le. intros [Hx|[Ex%str_cmp_eq Hx]] [Hy|[Ey%str_cmp_eq Hy]].
  - left. destruct (str_cmp (iso_storage a) (iso_storage c)) eqn:E; [|done|].
    + apply str_cmp_eq in E. rewrite <- E in Hy. rewrite (str_cmp_opp (iso_storage a)) in Hy.
      by rewrite Hx in Hy.
    + exfalso. eapply str_cmp_trans; [| |exact E]; [by rewrite Hx|by rewrite Hy].
  - left. by rewrite <- Ey.
  - left. by rewrite Ex.
  - right. split; [rewrite Ex, Ey; apply str_cmp_refl|by eapply str_cmp_trans].
Qed.

(** C35: listing the install media ends and is exact, whatever the directories
    hold (loops of mount points included): with fuel for the directories within
    the depth bound the loop of [scan_iso_dir] runs to its end, and the list it
    makes is sorted by storage and name and holds exactly the regular files called
    [*.iso] that are in the library itself or at most four real directories below
    a mounted share; and a VM is given install media from that list only. *)
Theorem iso_listing_exact {H : Type} read_dir iso_dir roots fuel :
  (list_size read_dir iso_dir roots ≤ fuel)%nat →
  ∃ isos, IsoScan.list_isos read_dir iso_dir fuel roots = Some isos ∧
    StronglySorted (λ a b, IsoScan.iso_cmp a b ≠ Gt) isos ∧
    (∀ iso, iso ∈ isos ↔ offered read_dir "local" 0 iso_dir iso ∨
       ∃ name root, (name, root) ∈ roots ∧ offered read_dir name ISO_SCAN_DEPTH root iso) ∧
    (∀ (RV : RecordStore Vm) requested (s s' : KvmService.state (RV:=RV) (H:=H)) path,
       KvmService.resolve_iso (λ h, (h, Ok isos)) requested s = (s', Ok path) →
       s' = s ∧ path = trim requested ∧ ∃ iso, iso ∈ isos ∧ iso_path iso = path).
Proof.
  intros Hf. unfold list_size in Hf. eexists. split_and!.
  - unfold IsoScan.list_isos. rewrite scan_iso_dir_ends by lia. cbn [mbind option_bind].
    rewrite scan_shares_ends by lia. reflexivity.
  - apply sort_by_sorted; [apply iso_cmp_total|apply iso_cmp_trans].
  - intros iso. rewrite elem_of_sort_by, app_nil_l, elem_of_app, elem_of_walk. f_equiv.
    rewrite elem_of_concat. split.
    + intros (l & Hi & ([name root] & -> & Hr)%list_elem_of_fmap). exists name, root. by rewrite <- elem_of_walk.
    + intros (name & root & Hr & Hi). exists (walk read_dir name ISO_SCAN_DEPTH root).
      rewrite elem_of_walk. split; [done|]. apply list_elem_of_fmap. by exists (name, root).
  - intros RV requested s s' path. unfold KvmService.resolve_iso. destruct (is_empty _); [done|].
    unfold mbind, svc_bind, KvmService.on_host, lift.
    destruct (List.find _ _) as [iso|] eqn:E; simpl; [|done]. intros [= <- <-].
    apply List.find_some in E as [Hi%list_elem_of_In He%str_eqb_eq]. destruct s. split_and!; [done|done|].
    by exists iso.
Qed.

(** A share whose directory holds an image, a link and itself. *)
Definition loop_dir (d : str) : option (list DirEntry) :=
  if d =s? "/var/lib/iso" then None
  else Some [mkEntry "debian.ISO" (Some IsFile) (Some 700%N); mkEntry "link.iso" (Some IsOther) None;
             mkEntry "self" (Some IsDir) None].
Lemma iso_listing_exact_witness : ∃ isos,
  (list_size loop_dir "/var/lib/iso" [(lit "nas", lit "/mnt/nas")] ≤ 6)%nat ∧
  IsoScan.list_isos loop_dir "/var/lib/iso" 6 [(lit "nas", lit "/mnt/nas")] = Some isos ∧
  length isos = 5%nat ∧ mkIso "debian.ISO" "/mnt/nas/debian.ISO" 700 "nas" ∈ isos.
Proof.
  assert (list_size loop_dir "/var/lib/iso" [(lit "nas", lit "/mnt/nas")] ≤ 6)%nat as Hs
    by (vm_compute; lia).
  destruct (iso_listing_exact (H:=unit) loop_dir "/var/lib/iso" [(lit "nas", lit "/mnt/nas")] 6 Hs)
    as (isos & E & _ & Hin & _).
  exists isos. split_and!; [exact Hs|exact E| |].
  - vm_compute in E. injection E as <-. reflexivity.
  - apply Hin. right. exists (lit "nas"), (lit "/mnt/nas"). split; [by left|].
    eexists (lit "/mnt/nas"), _, _. split_and!; [constructor|reflexivity|left|reflexivity..].
Defined.
