(* ===== verification/Lxc.v ===== *)
(** * The container service (src/src/services/lxc.rs)

    The [lxc-*] tools run as host commands; the configuration files of the
    containers are written by [command::append_lxc_config] and
    [command::set_lxc_rootfs], whose checks are modelled and whose file access is a
    parameter, as are the uploaded templates, UUIDs and the printing of times.
    A multiplication that overflows wraps, as in a release build. *)

From S2P Require Export Host VmData BrokerProto.

(** ** Records *)

Inductive LxcState := LxcRunning | LxcStopped | LxcFrozen | LxcTransitioning.
#[export] Instance LxcState_eq_dec : EqDecision LxcState.
Proof. solve_decision. Defined.
Inductive LxcPowerAction := LxcStart | LxcStop | LxcRestart | LxcFreeze | LxcUnfreeze.
Record LxcNetwork := mkLxcNet { ln_bridge : str; ln_vlan : option N; ln_ip : option str }.
Record LxcMount := mkLxcMount { lm_source : str; lm_destination : str; lm_read_only : bool }.
Record Lxc := mkLxc {
  ct_id : str; ct_name : str; ct_state : LxcState; ct_template : str; ct_rootfs_dataset : str;
  ct_vcpus : N; ct_memory_mib : N; ct_networks : list LxcNetwork; ct_mounts : list LxcMount;
  ct_unprivileged : bool; ct_description : option str; ct_tags : list str; ct_pool : option str;
  ct_created_at : str; ct_updated_at : option str }.
Record CreateLxcRequest := mkCreateLxc {
  cc_name : str; cc_template : str; cc_template_file : option str; cc_vcpus : N; cc_memory_mib : N;
  cc_rootfs_size_gib : N; cc_networks : list LxcNetwork; cc_mounts : list LxcMount;
  cc_unprivileged : bool; cc_description : option str; cc_tags : list str; cc_pool : option str;
  cc_start : bool }.
Record UpdateLxcRequest := mkUpdateLxc {
  uc_name : option str; uc_vcpus : option N; uc_memory_mib : option N; uc_description : option str;
  uc_tags : option (list str); uc_pool : option str }.
Record LxcSummary := mkLxcSummary {
  ls_id : str; ls_name : str; ls_state : LxcState; ls_vcpus : N; ls_memory_mib : N;
  ls_tags : list str; ls_pool : option str; ls_created_at : str }.
Record LxcSnapshotRecord := mkLxcSnapshot {
  lp_id : str; lp_name : str; lp_container_id : str; lp_dataset : str; lp_used_bytes : N;
  lp_description : option str; lp_created_at : str }.
Record ConsoleTicketEntry := mkConsoleEntry { ce_container_id : str; ce_name : str; ce_expires_at : Z }.

Definition ct_set_state (x : LxcState) (c : Lxc) : Lxc :=
  mkLxc (ct_id c) (ct_name c) x (ct_template c) (ct_rootfs_dataset c) (ct_vcpus c) (ct_memory_mib c)
    (ct_networks c) (ct_mounts c) (ct_unprivileged c) (ct_description c) (ct_tags c) (ct_pool c)
    (ct_created_at c) (ct_updated_at c).
Definition ct_set_rootfs (x : str) (c : Lxc) : Lxc :=
  mkLxc (ct_id c) (ct_name c) (ct_state c) (ct_template c) x (ct_vcpus c) (ct_memory_mib c)
    (ct_networks c) (ct_mounts c) (ct_unprivileged c) (ct_description c) (ct_tags c) (ct_pool c)
    (ct_created_at c) (ct_updated_at c).
Definition ct_set_updated_at (x : option str) (c : Lxc) : Lxc :=
  mkLxc (ct_id c) (ct_name c) (ct_state c) (ct_template c) (ct_rootfs_dataset c) (ct_vcpus c)
    (ct_memory_mib c) (ct_networks c) (ct_mounts c) (ct_unprivileged c) (ct_description c) (ct_tags c)
    (ct_pool c) (ct_created_at c) x.

(** ** Validation and rendering *)

Definition wrap64 (n : N) : N := (n mod 2 ^ 64)%N.
(** [memory_mib * 1024 * 1024] and [vcpus as u64 * 100_000]. *)
Definition memory_bytes (memory_mib : N) : N := wrap64 (wrap64 (memory_mib * 1024) * 1024).
Definition cpu_quota (vcpus : N) : N := (vcpus * 100000)%N.

Definition safe_abs (p field : str) : ApiResult unit :=
  if negb (starts_with "/" p) then Err (validation (field ++ " must be an absolute path"))
  else if existsb (λ c, c =s? "..") (split (ch "/") p) then
    Err (validation (field ++ " must not contain `..`"))
  else if (1024 <? len p)%N || existsb (λ c, is_whitespace c || is_control c) p then
    Err (validation (field ++ " contains whitespace, control characters, or is too long"))
  else Ok tt.

Definition validate_mount (mount : LxcMount) : ApiResult unit :=
  _ ← safe_abs (trim (lm_source mount)) "mount.source";
  _ ← safe_abs (trim (lm_destination mount)) "mount.destination";
  if is_empty (trim_start_matches (ch "/") (trim (lm_destination mount))) then
    Err (validation "mount.destination must not be the container root")
  else Ok tt.

Definition end_of_line : str := [10%N].

Definition mount_entry_line (mount : LxcMount) : str :=
  let dest_rel := trim_start_matches (ch "/") (lm_destination mount) in
  let opts : str := if lm_read_only mount then "bind,ro,create=dir" else "bind,rw,create=dir" in
  "lxc.mount.entry = " ++ trim (lm_source mount) ++ " " ++ dest_rel ++ " none " ++ opts ++ " 0 0"
    ++ end_of_line.

Definition network_lines (i : nat) (net : LxcNetwork) : str :=
  let key := "lxc.net." ++ dec (N.of_nat i) ++ "." in
  key ++ "type = veth" ++ end_of_line
  ++ key ++ "link = " ++ ln_bridge net ++ end_of_line
  ++ key ++ "flags = up" ++ end_of_line
  ++ (match ln_vlan net with Some vlan => key ++ "vlan.id = " ++ dec vlan ++ end_of_line | None => [] end)
  ++ (match ln_ip net with Some ip => key ++ "ipv4.address = " ++ ip ++ end_of_line | None => [] end).

Fixpoint networks_lines (i : nat) (networks : list LxcNetwork) : str :=
  match networks with
  | [] => []
  | net :: networks => network_lines i net ++ networks_lines (S i) networks
  end.

Fixpoint mounts_lines (mounts : list LxcMount) : ApiResult str :=
  match mounts with
  | [] => Ok []
  | mount :: mounts =>
      _ ← validate_mount mount;
      rest ← mounts_lines mounts;
      Ok (mount_entry_line mount ++ rest)
  end.

(** The block that [write_config] appends. *)
Definition config_block (vcpus memory_mib : N) (networks : list LxcNetwork) (mounts : list LxcMount) :
    ApiResult str :=
  mount_lines ← mounts_lines mounts;
  Ok (end_of_line ++ "# --- DaygleVE limits & networking ---" ++ end_of_line
      ++ "lxc.cgroup2.memory.max = " ++ dec (memory_bytes memory_mib) ++ end_of_line
      ++ "lxc.cgroup2.cpu.max = " ++ dec (cpu_quota vcpus) ++ " 100000" ++ end_of_line
      ++ networks_lines 0 networks ++ mount_lines).

Definition map_lxc_state (s : str) : LxcState :=
  let s := to_ascii_uppercase (trim s) in
  if s =s? "RUNNING" then LxcRunning
  else if s =s? "STOPPED" then LxcStopped
  else if s =s? "FROZEN" then LxcFrozen
  else if str_in s ["STARTING"; "STOPPING"; "ABORTING"; "FREEZING"; "THAWED"] then LxcTransitioning
  else LxcStopped.

Definition lxc_summary_of (c : Lxc) : LxcSummary :=
  mkLxcSummary (ct_id c) (ct_name c) (ct_state c) (ct_vcpus c) (ct_memory_mib c) (ct_tags c)
    (ct_pool c) (ct_created_at c).

Definition validate_network (network : LxcNetwork) : ApiResult unit :=
  _ ← ensure_safe_id (ln_bridge network);
  _ ← (match ln_vlan network with
       | Some vlan => if (1 <=? vlan)%N && (vlan <=? 4094)%N then Ok tt
                      else Err (validation "container VLAN must be in 1..=4094")
       | None => Ok tt end);
  match ln_ip network with Some ip => _ ← ensure_safe_cidr ip "network.ip"; Ok tt | None => Ok tt end.

(** [<dist>-<release>] of a download template. *)
Definition parse_template (template : str) : ApiResult (str * str) :=
  '(dist, release) ← ok_or (validation "template must be <dist>-<release>, e.g. debian-bookworm")
                       (split_once (ch "-") template);
  if is_empty dist || is_empty release
     || negb (forallb is_ascii_alphanumeric (bytes dist))
     || negb (forallb (λ b, is_ascii_alphanumeric b || char_in b ".-") (bytes release))
  then Err (validation "template contains invalid characters")
  else Ok (dist, release).

(** What [create] checks before anything touches the host. *)
Definition check_create (req : CreateLxcRequest) : ApiResult unit :=
  if is_empty (trim (cc_name req)) then Err (validation "name must not be empty")
  else
    _ ← ensure_safe_id (cc_name req);
    if (cc_vcpus req =? 0)%N then Err (validation "vcpus must be >= 1")
    else if (cc_memory_mib req =? 0)%N then Err (validation "memory_mib must be >= 1")
    else if (cc_rootfs_size_gib req =? 0)%N then Err (validation "rootfs_size_gib must be >= 1")
    else
      _ ← for_each validate_network (cc_networks req);
      for_each validate_mount (cc_mounts req).

(** ** The service *)

Module LxcService.
Section service.
Context `{RV : RecordStore Lxc} {H : Type}.
Context (broker : bool) (exec : str → list str → Svc H (option str)).
Context (state_dir default_pool : str).
Context (create_dir_all remove_file : str → Svc H unit)
  (stream_to_file stream_from_file : str → list str → str → Svc H unit).
(** The path of an uploaded template, the append to a container's configuration
    and the replacement of its rootfs line, after their checks. *)
Context (resolve_ct_template : str → Svc H str) (append_file set_rootfs_line : str → str → Svc H unit).
Context (to_rfc3339 ts_from_unix : Z → str) (uuid_v5 : str → str).

Record state := mkState {
  store : rstate (RecordStore:=RV); tickets : gmap str ConsoleTicketEntry; host : H }.
#[export] Instance state_host : HasHost state H.
Proof.
  refine {| host_of := host; set_host h s := mkState (store s) (tickets s) h |}. done.
Defined.

Definition on_store {A} (m : Svc _ A) : Svc state A := λ s,
  let '(x, r) := m (store s) in (mkState x (tickets s) (host s), r).
Definition put (id : str) (ct : Lxc) : Svc state unit := on_store (store_put id ct).

Local Abbreviation run_ok := (host_run_ok (S:=state) broker exec).
Local Abbreviation run_optional := (host_run_optional (S:=state) broker exec).
Definition zfs (args : list str) : Svc state unit := run_ok "zfs" args.

Definition get_stored (id : str) : Svc state Lxc :=
  found ← on_store (store_get id);
  lift (ok_or (not_found ("container " ++ id ++ " not found")) found).

Definition live_state (name : str) : Svc state (option LxcState) :=
  out ← attempt (run_optional "lxc-info" [lit "-n"; name; lit "-sH"]);
  mret (match out with Ok (Some s) => Some (map_lxc_state (trim s)) | _ => None end).

Definition append_lxc_config (name block : str) : Svc state unit :=
  _ ← lift (map_err validation (validate_lxc_name name));
  _ ← lift (map_err validation (validate_lxc_config_block block));
  at_host (append_file name block).
Definition set_lxc_rootfs (name dataset : str) : Svc state unit :=
  _ ← lift (map_err validation (validate_lxc_name name));
  _ ← lift (map_err validation (validate_zfs_dataset_path dataset));
  at_host (set_rootfs_line name dataset).

Definition write_config (name : str) (vcpus memory_mib : N) (networks : Datatypes.list LxcNetwork)
    (mounts : Datatypes.list LxcMount) : Svc state unit :=
  block ← lift (config_block vcpus memory_mib networks mounts);
  append_lxc_config name block.

(** ** Listing, consoles *)

Fixpoint overlay_states (cts : Datatypes.list Lxc) : Svc state (Datatypes.list LxcSummary) :=
  match cts with
  | [] => mret []
  | ct :: cts =>
      live ← live_state (ct_name ct);
      rest ← overlay_states cts;
      mret (lxc_summary_of (ct_set_state (default (ct_state ct) live) ct) :: rest)
  end.
Definition list : Svc state (Datatypes.list LxcSummary) :=
  cts ← on_store store_list;
  overlay_states cts.

Definition get (id : str) : Svc state Lxc :=
  ct ← get_stored id;
  live ← live_state (ct_name ct);
  mret (ct_set_state (default (ct_state ct) live) ct).

(** [ticket] is the fresh ticket, [mono] the monotonic clock, [wall] the other. *)
Definition mint_console_ticket (id name ticket : str) (mono wall : Z) : Svc state (str * str * str) := λ s,
  let kept := filter (λ '(_, t), (mono < ce_expires_at t)%Z) (tickets s) in
  (mkState (store s) (<[ticket := mkConsoleEntry id name (mono + 60)]> kept) (host s),
   Ok ("/api/v1/containers/" ++ id ++ "/console/ws?ticket=" ++ ticket, ticket, to_rfc3339 (wall + 60))).
Definition console (id ticket : str) (mono wall : Z) : Svc state (str * str * str) :=
  ct ← get_stored id;
  live ← live_state (ct_name ct);
  if bool_decide (live = Some LxcRunning) then mint_console_ticket id (ct_name ct) ticket mono wall
  else fail (conflict "start the container to open a console").

Definition redeem_console_ticket (container_id ticket : str) (mono : Z) : Svc state str := λ s,
  match tickets s !! ticket with
  | Some t =>
      if (ce_container_id t =s? container_id) && (mono <? ce_expires_at t)%Z
      then (mkState (store s) (base.delete ticket (tickets s)) (host s), Ok (ce_name t))
      else (s, Err (unauthorized "invalid or expired console ticket"))
  | None => (s, Err (unauthorized "invalid or expired console ticket"))
  end.

(** ** Create *)

(** The teardown of a container that could not be set up. *)
Definition tear_down (name rootfs_dataset : str) : Svc state unit :=
  _ ← ignore (run_optional "lxc-destroy" [lit "-n"; name; lit "-f"]);
  ignore (run_optional "zfs" [lit "destroy"; lit "-r"; rootfs_dataset]).

Definition lxc_create_args (name zfsroot : str) (fstree : option str) (dist release : str) :
    Datatypes.list str :=
  [lit "-n"; name; lit "-B"; lit "zfs"; lit "--zfsroot"; zfsroot; lit "-t"]
  ++ match fstree with
     | Some fstree => [lit "local"; lit "--"; lit "--fstree"; fstree]
     | None => [lit "download"; lit "--"; lit "--dist"; dist; lit "--release"; release;
                lit "--arch"; lit "amd64"]
     end.

Definition new_container (req : CreateLxcRequest) (id rootfs_dataset : str)
    (tags : Datatypes.list str) (pool : option str) (now : str) : Lxc :=
  mkLxc id (cc_name req) LxcStopped (cc_template req) rootfs_dataset (cc_vcpus req) (cc_memory_mib req)
    (cc_networks req) (cc_mounts req) (cc_unprivileged req) (cc_description req) tags pool now None.

Definition create (req : CreateLxcRequest) (new_id now : str) : Svc state Lxc :=
  _ ← lift (check_create req);
  tags ← lift (validate_tags (cc_tags req));
  let pool := normalize_pool_ref (cc_pool req) in
  fstree ← (match cc_template_file req with
            | Some name => path ← at_host (resolve_ct_template name); mret (Some path)
            | None => mret None end);
  '(dist, release) ← (match fstree with
                      | None => lift (parse_template (cc_template req))
                      | Some _ => mret ([], []) end);
  _ ← lift (ensure_safe_zfs_dataset default_pool);
  let zfsroot := default_pool ++ "/lxc" in
  let rootfs_dataset := zfsroot ++ "/" ++ cc_name req in
  _ ← run_ok "lxc-create" (lxc_create_args (cc_name req) zfsroot fstree dist release);
  _ ← on_error (zfs [lit "set"; "quota=" ++ dec (cc_rootfs_size_gib req) ++ "G"; rootfs_dataset])
        (tear_down (cc_name req) rootfs_dataset);
  _ ← on_error (write_config (cc_name req) (cc_vcpus req) (cc_memory_mib req) (cc_networks req)
                  (cc_mounts req))
        (tear_down (cc_name req) rootfs_dataset);
  let ct := new_container req new_id rootfs_dataset tags pool now in
  ct ← (if cc_start req then
          _ ← run_ok "lxc-start" [lit "-n"; ct_name ct; lit "-d"];
          mret (ct_set_state LxcRunning ct)
        else mret ct);
  _ ← put (ct_id ct) ct;
  mret ct.

(** ** Update and delete *)

Definition updated (req : UpdateLxcRequest) (ct : Lxc) : ApiResult Lxc :=
  vcpus ← (match uc_vcpus req with
           | Some v => if (v =? 0)%N then Err (validation "vcpus must be >= 1") else Ok v
           | None => Ok (ct_vcpus ct) end);
  memory ← (match uc_memory_mib req with
            | Some m => if (m =? 0)%N then Err (validation "memory_mib must be >= 1") else Ok m
            | None => Ok (ct_memory_mib ct) end);
  tags ← (match uc_tags req with Some tags => validate_tags tags | None => Ok (ct_tags ct) end);
  Ok (mkLxc (ct_id ct) (ct_name ct) (ct_state ct) (ct_template ct) (ct_rootfs_dataset ct) vcpus memory
        (ct_networks ct) (ct_mounts ct) (ct_unprivileged ct)
        (match uc_description req with Some d => Some d | None => ct_description ct end)
        tags (match uc_pool req with Some p => normalize_pool_ref (Some p) | None => ct_pool ct end)
        (ct_created_at ct) (ct_updated_at ct)).

Definition apply_limits (ct : Lxc) : Svc state unit :=
  live ← live_state (ct_name ct);
  if bool_decide (live = Some LxcRunning) then
    _ ← ignore (run_optional "lxc-cgroup"
                  [lit "-n"; ct_name ct; lit "memory.max"; dec (memory_bytes (ct_memory_mib ct))]);
    ignore (run_optional "lxc-cgroup"
              [lit "-n"; ct_name ct; lit "cpu.max"; dec (cpu_quota (ct_vcpus ct)) ++ " 100000"])
  else mret tt.

Definition update (id : str) (req : UpdateLxcRequest) (now : str) : Svc state Lxc :=
  ct ← get_stored id;
  match uc_name req with
  | Some _ => fail (validation "renaming a container is not supported yet")
  | None =>
      ct ← lift (updated req ct);
      _ ← apply_limits ct;
      _ ← put id (ct_set_updated_at (Some now) ct);
      get id
  end.

Definition delete (id : str) : Svc state unit :=
  ct ← get_stored id;
  _ ← ignore (run_optional "lxc-stop" [lit "-n"; ct_name ct; lit "-k"]);
  _ ← tear_down (ct_name ct) (ct_rootfs_dataset ct);
  _ ← on_store (store_delete id);
  mret tt.

(** ** Migration of the rootfs *)

Definition migrate_copy (snapshot target temp : str) : Svc state unit :=
  _ ← at_host (stream_to_file "zfs" [lit "send"; snapshot] temp);
  at_host (stream_from_file "zfs" [lit "receive"; lit "-F"; target] temp).

Definition migrate_rootfs (id target_dataset : str) (secs nanos : N) (now : str) : Svc state Lxc :=
  ct ← get_stored id;
  source ← lift (ensure_safe_zfs_dataset (trim (ct_rootfs_dataset ct)));
  target ← lift (ensure_safe_zfs_dataset target_dataset);
  if source =s? target then fail (validation "target dataset is the same as the source")
  else
    live ← live_state (ct_name ct);
    if bool_decide (live = Some LxcRunning) then
      fail (conflict "stop the container before migrating its rootfs")
    else
      exists_ ← run_optional "zfs" (lits ["list"; "-H"; "-o"; "name"] ++ [target]);
      match exists_ with
      | Some _ => fail (conflict ("target dataset " ++ target ++ " already exists"))
      | None =>
        let tag := "migrate-" ++ dec secs in
        let snapshot := source ++ "@" ++ tag in
        _ ← zfs [lit "snapshot"; snapshot];
        id' ← lift (map_err (λ e, internal (message e)) (ensure_safe_id id));
        let temp := state_dir ++ "/tmp/ct-migrate-" ++ id' ++ "-" ++ dec nanos ++ ".zfs" in
        _ ← ignore (at_host (create_dir_all (state_dir ++ "/tmp")));
        _ ← on_error (migrate_copy snapshot target temp)
              (_ ← ignore (at_host (remove_file temp)); ignore (zfs [lit "destroy"; snapshot]));
        _ ← ignore (at_host (remove_file temp));
        _ ← ignore (zfs [lit "destroy"; target ++ "@" ++ tag]);
        _ ← zfs (lits ["list"; "-H"; "-o"; "name"] ++ [target]);
        _ ← set_lxc_rootfs (ct_name ct) target;
        let ct := ct_set_updated_at (Some now) (ct_set_rootfs target ct) in
        _ ← put id ct;
        _ ← zfs [lit "destroy"; lit "-r"; source];
        mret ct
      end.

(** ** Power *)

Definition power_commands (ct : Lxc) (action : LxcPowerAction) : Svc state unit :=
  match action with
  | LxcStart => run_ok "lxc-start" [lit "-n"; ct_name ct; lit "-d"]
  | LxcStop => run_ok "lxc-stop" [lit "-n"; ct_name ct]
  | LxcRestart =>
      _ ← ignore (run_optional "lxc-stop" [lit "-n"; ct_name ct]);
      run_ok "lxc-start" [lit "-n"; ct_name ct; lit "-d"]
  | LxcFreeze => run_ok "lxc-freeze" [lit "-n"; ct_name ct]
  | LxcUnfreeze => run_ok "lxc-unfreeze" [lit "-n"; ct_name ct]
  end.

Definition power (id : str) (action : LxcPowerAction) (now : str) : Svc state Lxc :=
  ct ← get_stored id;
  _ ← power_commands ct action;
  live ← live_state (ct_name ct);
  let ct := ct_set_updated_at (Some now) (ct_set_state (default (ct_state ct) live) ct) in
  _ ← put id ct;
  mret ct.

(** ** Reconciliation *)

Definition list_all_containers : Svc state (Datatypes.list str) :=
  out ← attempt (run_optional "lxc-ls" (lits ["-1"; "--nesting"]));
  match out with
  | Ok (Some out) => mret (map trim (List.filter (λ l, negb (is_empty (trim l))) (lines out)))
  | Ok None => mret []
  | Err e => fail e
  end.

Fixpoint missing_in_host (cts : Datatypes.list Lxc) : Svc state (Datatypes.list str) :=
  match cts with
  | [] => mret []
  | ct :: cts =>
      out ← attempt (run_optional "lxc-info" [lit "-n"; ct_name ct; lit "-sH"]);
      match out with
      | Ok found =>
          rest ← missing_in_host cts;
          mret (match found with Some _ => rest | None => ct_id ct :: rest end)
      | Err _ => fail (hypervisor "lxc-info is unavailable; cannot reconcile containers")
      end
  end.

Definition reconcile_with_host : Svc state (Datatypes.list str * Datatypes.list str) :=
  stored ← on_store store_list;
  missing ← missing_in_host stored;
  all ← list_all_containers;
  mret (missing, List.filter (λ name, negb (existsb (λ ct, ct_name ct =s? name) stored)) all).

Definition repair_missing_from_host (id : str) : Svc state unit :=
  ct ← get_stored id;
  write_config (ct_name ct) (ct_vcpus ct) (ct_memory_mib ct) (ct_networks ct) (ct_mounts ct).

(** ** Snapshots *)

Definition snapshot_row (ct : Lxc) (line : str) : option LxcSnapshotRecord :=
  match split 9 line with
  | full :: cols =>
      match strip_prefix (ct_rootfs_dataset ct ++ "@") full with
      | Some name =>
          if is_empty name then None
          else
            used ← used ← cols !! 0%nat; parse_uint U64_MAX used;
            creation ← creation ← cols !! 1%nat; parse_i64 creation;
            let desc := default (lit "-") (cols !! 2%nat) in
            Some (mkLxcSnapshot (uuid_v5 (ct_id ct ++ "@" ++ name)) name (ct_id ct) (ct_rootfs_dataset ct)
                    used (if negb (desc =s? "-") && negb (is_empty desc) then Some desc else None)
                    (ts_from_unix creation))
      | None => None
      end
  | [] => None
  end.

Definition list_snapshots (id : str) : Svc state (Datatypes.list LxcSnapshotRecord) :=
  ct ← get_stored id;
  out ← attempt (run_optional "zfs"
          (lits ["list"; "-t"; "snapshot"; "-Hp"; "-o"; "name,used,creation,daygleve:description";
                 "-d"; "1"] ++ [ct_rootfs_dataset ct]));
  match out with
  | Ok (Some out) => mret (omap (snapshot_row ct) (List.filter (λ l, negb (is_empty (trim l))) (lines out)))
  | Ok None => mret []
  | Err e => if is_missing_dataset e then mret [] else fail e
  end.

Definition snapshot_conflict {A} (tag : str) : Svc state A :=
  fail (conflict ("a snapshot named " ++ debug_str tag ++ " already exists")).

Definition snapshot (id name : str) (description : option str) : Svc state LxcSnapshotRecord :=
  ct ← get_stored id;
  tag ← lift (ensure_safe_snapshot name);
  existing ← list_snapshots id;
  if existsb (λ s, lp_name s =s? tag) existing then snapshot_conflict tag
  else
    let full := ct_rootfs_dataset ct ++ "@" ++ tag in
    captured ← attempt (zfs [lit "snapshot"; full]);
    match captured with
    | Err e => if is_already_exists e then snapshot_conflict tag else fail e
    | Ok _ =>
        _ ← (match description with
             | Some d =>
                 let d := trim d in
                 if is_empty d then mret tt
                 else
                   let sanitized := map (λ c, if is_control c then 32%N else c) d in
                   ignore (zfs [lit "set"; "daygleve:description=" ++ trim sanitized; full])
             | None => mret tt
             end);
        after ← list_snapshots id;
        lift (ok_or (internal "snapshot created but could not be read back")
                (List.find (λ s, lp_name s =s? tag) after))
    end.

Definition snapshot_exists (dataset tag : str) : Svc state bool :=
  out ← attempt (run_optional "zfs" (lits ["list"; "-H"; "-o"; "name"; "-t"; "snapshot"]
                                     ++ [dataset ++ "@" ++ tag]));
  match out with
  | Ok (Some o) => mret (negb (is_empty (trim o)))
  | Ok None => fail (hypervisor "zfs is not installed; cannot manage snapshots")
  | Err e => if is_missing_dataset e then mret false else fail e
  end.

Definition require_stopped (ct : Lxc) (action : str) : Svc state unit :=
  live ← live_state (ct_name ct);
  match live with
  | Some LxcStopped | None => mret tt
  | Some _ => fail (conflict ("stop the container before " ++ action))
  end.

Definition no_snapshot {A} (tag : str) : Svc state A :=
  fail (not_found ("no snapshot named " ++ debug_str tag)).

Definition rollback_snapshot (id name : str) : Svc state unit :=
  ct ← get_stored id;
  tag ← lift (ensure_safe_snapshot name);
  _ ← require_stopped ct "rolling back a snapshot";
  there ← snapshot_exists (ct_rootfs_dataset ct) tag;
  if there : bool then zfs [lit "rollback"; lit "-r"; ct_rootfs_dataset ct ++ "@" ++ tag]
  else no_snapshot tag.

Definition delete_snapshot (id name : str) : Svc state unit :=
  ct ← get_stored id;
  tag ← lift (ensure_safe_snapshot name);
  there ← snapshot_exists (ct_rootfs_dataset ct) tag;
  if there : bool then zfs [lit "destroy"; ct_rootfs_dataset ct ++ "@" ++ tag] else no_snapshot tag.
End service.
End LxcService.
