(* ===== verification/LxcProofs.v ===== *)
(** * Containers: what the service writes and runs *)

From S2P Require Export Lxc Firewall ZfsProofs.

(** ** Words *)

(** No line end, no NUL; and a field of a line: not empty, no white space either. *)
Definition clean (s : str) : Prop := Forall (λ c, negb (existsb (N.eqb c) [0; 10; 13]%N) = true) s.
Definition fields_char (c : char) : bool := negb (is_whitespace c) && negb (c =? 0)%N.
Definition solid (w : str) : Prop := w ≠ [] ∧ Forall (λ c, fields_char c = true) w.

Lemma clean_app a b : clean (a ++ b) ↔ clean a ∧ clean b.
Proof. apply Forall_app. Qed.
Lemma clean_lit (s : string) : forallb (λ c, negb (existsb (N.eqb c) [0; 10; 13]%N)) (lit s) = true → clean s.
Proof. by intros H%forallb_Forall. Qed.
Lemma clean_not s : clean s → (10%N ∉ s) ∧ (13%N ∉ s) ∧ (0%N ∉ s).
Proof. intros H. split_and!; intros Hin; (eapply Forall_forall in H; [|exact Hin]); discriminate H. Qed.
Lemma solid_no_ws w : solid w → Forall (λ c, is_whitespace c = false) w.
Proof. intros [_ H]. eapply Forall_impl; [exact H|]. by intros c [?%negb_true_iff _]%andb_true_iff. Qed.
Lemma fields_char_clean w : Forall (λ c, fields_char c = true) w → clean w.
Proof.
  intros H. eapply Forall_impl; [exact H|]. intros c [Hw H0]%andb_true_iff. apply negb_true_iff.
  apply negb_true_iff in Hw, H0. apply not_true_iff_false. intros (x & Hx & ->%N.eqb_eq)%existsb_exists.
  by destruct Hx as [<-|[<-|[<-|[]]]].
Qed.
Lemma solid_clean w : solid w → clean w.
Proof. intros [_ H]. by apply fields_char_clean. Qed.

Lemma split_ws_word cur w rest : w ≠ [] ∨ cur ≠ [] → Forall (λ c, is_whitespace c = false) w →
  split_ws_go cur (w ++ ch " " :: rest) = (reverse cur ++ w) :: split_whitespace rest.
Proof.
  revert cur. induction w as [|c w IH]; intros cur Hne Hw.
  - destruct Hne as [?|Hne]; [done|]. simpl. rewrite app_nil_r. by destruct cur.
  - apply Forall_cons in Hw as [Hc Hw]. simpl. rewrite Hc, IH by (auto || by right).
    by rewrite reverse_cons, <- app_assoc.
Qed.
Lemma split_whitespace_cons w rest : solid w → split_whitespace (w ++ " " ++ rest) = w :: split_whitespace rest.
Proof.
  intros Hs. unfold split_whitespace at 1. apply (split_ws_word []); [left; apply Hs|by apply solid_no_ws].
Qed.

Lemma solid_last s w : solid w → ∀ c, last (s ++ w) = Some c → is_whitespace c = false.
Proof.
  intros Hs c Hc. pose proof (solid_no_ws _ Hs) as Hw. destruct Hs as [Hne _].
  destruct w as [|x w] using rev_ind; [done|]. rewrite app_assoc, last_snoc in Hc.
  injection Hc as <-. apply Forall_app in Hw as [_ Hx]. by apply Forall_cons_1 in Hx as [Hx _].
Qed.

Lemma alnum_or_fields (alts : string) c : forallb fields_char (lit alts) = true → alnum_or alts c = true →
  fields_char c = true.
Proof.
  intros Ha Hc. unfold fields_char. rewrite (not_whitespace_alnum alts c), andb_true_l; [| |done].
  - destruct (c =? 0)%N eqn:E; [|done]. apply N.eqb_eq in E as ->. apply orb_true_iff in Hc as [Hc|Hc]; [done|].
    apply forallb_Forall in Ha. apply char_in_spec in Hc. by eapply Forall_forall in Ha; [|exact Hc].
  - apply forallb_Forall. apply forallb_Forall in Ha. eapply Forall_impl; [exact Ha|].
    by intros x [? _]%andb_true_iff.
Qed.
Lemma chars_solid alts w : forallb fields_char (lit alts) = true → w ≠ [] → chars_in alts w → solid w.
Proof. intros Ha Hne Hw. split; [done|]. eapply Forall_impl; [exact Hw|]. intros c. by apply alnum_or_fields. Qed.
Lemma lit_solid (s : string) : forallb fields_char (lit s) = true → lit s ≠ [] → solid s.
Proof. intros Ha Hne. split; [done|]. by apply forallb_Forall. Qed.
Lemma id_solid id r : ensure_safe_id id = Ok r → solid id.
Proof.
  intros [_ (Hne & _ & _ & _ & Hc)]%ensure_safe_id_ok. by apply (chars_solid ".-_").
Qed.
Lemma dec_go_nonempty fuel n acc : acc ≠ [] → dec_go fuel n acc ≠ [].
Proof. revert n acc. induction fuel as [|f IH]; intros n acc Ha; simpl; [done|]. case_match; [done|by apply IH]. Qed.
Lemma dec_solid n : solid (dec n).
Proof.
  split; [unfold dec; simpl; case_match; [done|by apply dec_go_nonempty]|].
  eapply Forall_impl; [apply dec_digits|]. intros c Hc.
  apply (alnum_or_fields ""); [done|]. unfold alnum_or, is_ascii_alphanumeric. by rewrite Hc.
Qed.
Lemma cidr_solid cidr field r : ensure_safe_cidr cidr field = Ok r → solid cidr.
Proof. intros [Hne H]%cidr_chars. by apply (chars_solid CIDR). Qed.

(** ** Settings *)

Definition setting_line (kv : str * str) : str := kv.1 ++ " = " ++ kv.2.
Definition net_settings (i : nat) (net : LxcNetwork) : list (str * str) :=
  let key := "lxc.net." ++ dec (N.of_nat i) ++ "." in
  [(key ++ "type", lit "veth"); (key ++ "link", ln_bridge net); (key ++ "flags", lit "up")]
  ++ match ln_vlan net with Some vlan => [(key ++ "vlan.id", dec vlan)] | None => [] end
  ++ match ln_ip net with Some ip => [(key ++ "ipv4.address", ip)] | None => [] end.
Fixpoint nets_settings (i : nat) (networks : list LxcNetwork) : list (str * str) :=
  match networks with
  | [] => []
  | net :: networks => net_settings i net ++ nets_settings (S i) networks
  end.
Definition text_of (ls : list str) : str := concat (map (λ l, l ++ end_of_line) ls).
Lemma text_of_app a b : text_of (a ++ b) = text_of a ++ text_of b.
Proof. unfold text_of. by rewrite map_app, concat_app. Qed.

Lemma network_lines_text i net : network_lines i net = text_of (map setting_line (net_settings i net)).
Proof.
  unfold network_lines, net_settings, text_of, setting_line.
  change (lit "type = veth") with (lit "type" ++ " = " ++ "veth").
  change (lit "link = ") with (lit "link" ++ " = "). change (lit "flags = up") with (lit "flags" ++ " = " ++ "up").
  change (lit "vlan.id = ") with (lit "vlan.id" ++ " = ").
  change (lit "ipv4.address = ") with (lit "ipv4.address" ++ " = ").
  destruct (ln_vlan net), (ln_ip net); cbn [app map concat fst snd];
    repeat rewrite ?app_nil_r, <- ?app_assoc; reflexivity.
Qed.
Lemma networks_lines_text i nets : networks_lines i nets = text_of (map setting_line (nets_settings i nets)).
Proof.
  revert i. induction nets as [|n nets IH]; intros i; [done|].
  cbn [networks_lines nets_settings].
  by rewrite network_lines_text, IH, map_app, text_of_app.
Qed.

(** A setting that the broker lets through. *)
Definition good_setting (kv : str * str) : Prop :=
  (∃ k, kv.1 = "lxc.cgroup2." ++ k ∨ kv.1 = "lxc.net." ++ k) ∧ clean kv.1 ∧
  ∃ pre w, kv.2 = pre ++ w ∧ solid w ∧ clean pre.

Lemma setting_accepted kv : good_setting kv → validate_lxc_config_line (setting_line kv) = Ok tt.
Proof.
  destruct kv as [key value]. intros ((k & Hk) & _ & (pre & w & Hv & Hw & _)). simpl in *. subst value.
  unfold setting_line. cbn [fst snd]. rewrite !app_assoc.
  assert (trim (((key ++ " = ") ++ pre) ++ w) = ((key ++ " = ") ++ pre) ++ w) as Ht.
  { apply trim_id; [|by apply solid_last]. intros c. destruct Hk as [-> | ->]; simpl; by intros [= <-]. }
  unfold validate_lxc_config_line. cbv zeta. rewrite Ht.
  assert (contains " = " (((key ++ " = ") ++ pre) ++ w) = true) as ->.
  { apply contains_spec. exists key, (pre ++ w). by rewrite <- !app_assoc. }
  destruct Hk as [-> | ->]; reflexivity.
Qed.

(** ** Mounts *)

Definition dest_of (m : LxcMount) : str := trim_start_matches (ch "/") (lm_destination m).
Definition opts_of (m : LxcMount) : str := if lm_read_only m then "bind,ro,create=dir" else "bind,rw,create=dir".
Definition mount_fields (m : LxcMount) : list str :=
  [trim (lm_source m); dest_of m; lit "none"; opts_of m; lit "0"; lit "0"].
Definition mount_text (m : LxcMount) : str :=
  "lxc.mount.entry = " ++ trim (lm_source m) ++ " " ++ dest_of m ++ " " ++ "none" ++ " " ++ opts_of m
    ++ " " ++ "0" ++ " " ++ "0".

Lemma mount_entry_line_text m : mount_entry_line m = mount_text m ++ end_of_line.
Proof.
  unfold mount_entry_line, mount_text. cbv zeta. change (lit " none ") with (lit " " ++ "none" ++ " ").
  change (lit " 0 0") with (lit " " ++ "0" ++ " " ++ "0"). by rewrite <- !app_assoc.
Qed.

Lemma safe_abs_ok p field : safe_abs p field = Ok tt →
  (∃ r, p = ch "/" :: r) ∧ no_traversal p = true ∧ Forall (λ c, fields_char c = true) p.
Proof.
  unfold safe_abs. intros H. inv_ok. split_checks.
  apply starts_with_spec in H as [r ->]. split; [by exists r|].
  assert (Forall (λ c, is_whitespace c = false ∧ is_control c = false) ("/" ++ r)) as Hc.
  { apply existsb_false in H3. eapply Forall_impl; [exact H3|]. intros c. by intros ?%orb_false_iff. }
  split; [|eapply Forall_impl; [exact Hc|]].
  2:{ intros c [Hw Hk]. unfold fields_char. rewrite Hw. destruct (c =? 0)%N eqn:E; [|done].
      by apply N.eqb_eq in E as ->. }
  unfold no_traversal. rewrite H0. simpl negb. cbn [andb]. apply andb_true_iff. split.
  - apply negb_true_iff, contains_char_false. intros Hin. eapply Forall_forall in Hc as [_ Hc]; [|exact Hin].
    discriminate Hc.
  - apply forallb_Forall. eapply Forall_impl; [exact Hc|]. by intros c [_ ->].
Qed.

Lemma dest_relative m : validate_mount m = Ok tt → trim (lm_destination m) = lm_destination m →
  solid (trim (lm_source m)) ∧ solid (dest_of m) ∧
  starts_with "/" (trim (lm_source m)) = true ∧ no_traversal (trim (lm_source m)) = true ∧
  starts_with "/" (dest_of m) = false ∧ no_traversal (dest_of m) = true.
Proof.
  unfold validate_mount, dest_of. intros H Ht. rewrite Ht in H. inv_ok. split_checks.
  apply safe_abs_ok in H as ((r & Hr) & Hn & Hw). apply safe_abs_ok in H0 as ((r' & Hr') & Hn' & Hw').
  assert (∀ s c, In c (trim_start_matches (ch "/") s) → In c s) as Hsub.
  { intros s c. unfold trim_start_matches, trim_start_by. induction s as [|y s IH]; [done|].
    cbn [drop_while In]. destruct (ch "/" =? y)%N; [intros; right; by apply IH|done]. }
  split_and!.
  - split; [by rewrite Hr|done].
  - split; [done|]. apply Forall_forall. intros c Hc%list_elem_of_In%Hsub%list_elem_of_In.
    by eapply Forall_forall in Hw'.
  - rewrite Hr. reflexivity.
  - done.
  - clear. unfold trim_start_matches, trim_start_by. induction (lm_destination m) as [|c s IH]; [done|].
    cbn [drop_while]. destruct (ch "/" =? c)%N eqn:E; [done|].
    change (starts_with [ch "/"] (c :: s) = false). by rewrite starts_with_char.
  - clear -Hn'. unfold trim_start_matches, trim_start_by. induction (lm_destination m) as [|c s IH]; [done|].
    cbn [drop_while]. destruct (ch "/" =? c)%N eqn:E; [|done]. apply IH.
    apply N.eqb_eq in E as <-. revert Hn'. unfold no_traversal.
    rewrite !andb_true_iff, !negb_true_iff, !forallb_Forall, !contains_char_false.
    intros [[Hd Hz] Hc]. split_and!.
    + change (split (ch "/") (ch "/" :: s)) with ([] :: split (ch "/") s) in Hd. by apply orb_false_iff in Hd as [_ Hd].
    + intros Hin. apply Hz. by right.
    + by apply Forall_cons in Hc as [_ Hc].
Qed.

Lemma mount_accepted m : validate_mount m = Ok tt → trim (lm_destination m) = lm_destination m →
  validate_lxc_config_line (mount_text m) = Ok tt ∧ clean (mount_text m) ∧
  split_whitespace (drop 18 (mount_text m)) = mount_fields m.
Proof.
  intros Hm Ht. destruct (dest_relative m Hm Ht) as (Hs & Hd & Hsa & Hsn & Hda & Hdn).
  assert (solid (opts_of m)) as Ho by (unfold opts_of; destruct (lm_read_only m); by apply lit_solid).
  assert (∀ s : string, forallb fields_char (lit s) = true → lit s ≠ [] → solid s) as Hl by apply lit_solid.
  set (value := trim (lm_source m) ++ " " ++ dest_of m ++ " " ++ "none" ++ " " ++ opts_of m ++ " " ++ "0" ++ " " ++ "0").
  assert (split_whitespace value = mount_fields m) as Hf.
  { unfold value. rewrite split_whitespace_cons by done. rewrite split_whitespace_cons by done.
    rewrite split_whitespace_cons by (by apply Hl). rewrite split_whitespace_cons by done. reflexivity. }
  change (mount_text m) with ("lxc.mount.entry = " ++ value).
  split_and!; [|..|exact Hf].
  - unfold validate_lxc_config_line. cbv zeta.
    assert (trim ("lxc.mount.entry = " ++ value) = "lxc.mount.entry = " ++ value) as ->.
    { apply trim_id; [by intros c [= <-]|]. unfold value. rewrite !app_assoc. apply solid_last. by apply Hl. }
    change (starts_with "#" (trim_start ("lxc.mount.entry = " ++ value))) with false. cbv match.
    assert (contains " = " ("lxc.mount.entry = " ++ value) = true) as ->.
    { apply contains_spec. by exists (lit "lxc.mount.entry"), value. }
    cbn [negb]. rewrite strip_prefix_app. unfold validate_lxc_mount_entry. rewrite Hf. unfold mount_fields.
    rewrite Hsa, Hsn, Hda, Hdn. destruct Hd as [Hd _]. destruct (dest_of m); [done|].
    unfold opts_of. by destruct (lm_read_only m).
  - unfold value. rewrite !clean_app.
    split_and!; (by apply solid_clean) || by apply clean_lit.
Qed.

(** ** The whole block *)

Definition limits (vcpus memory_mib : N) : list (str * str) :=
  [(lit "lxc.cgroup2.memory.max", dec (memory_bytes memory_mib));
   (lit "lxc.cgroup2.cpu.max", dec (cpu_quota vcpus) ++ " 100000")].
Definition block_lines (vcpus memory_mib : N) (networks : list LxcNetwork) (mounts : list LxcMount) : list str :=
  [[]; lit "# --- DaygleVE limits & networking ---"]
  ++ map setting_line (limits vcpus memory_mib ++ nets_settings 0 networks) ++ map mount_text mounts.

Lemma mounts_lines_text mounts : Forall (λ m, validate_mount m = Ok tt) mounts →
  mounts_lines mounts = Ok (text_of (map mount_text mounts)).
Proof.
  induction 1 as [|m ms Hm _ IH]; [done|]. cbn [mounts_lines]. rewrite Hm. cbn [mbind result_bind].
  rewrite IH. cbn [mbind result_bind]. by rewrite mount_entry_line_text.
Qed.

Lemma config_block_text vcpus memory_mib networks mounts : Forall (λ m, validate_mount m = Ok tt) mounts →
  config_block vcpus memory_mib networks mounts
  = Ok (text_of (block_lines vcpus memory_mib networks mounts)).
Proof.
  intros Hm. unfold config_block. rewrite mounts_lines_text by done. cbn [mbind result_bind].
  rewrite networks_lines_text. unfold block_lines. f_equal.
  change (lit "lxc.cgroup2.memory.max = ") with (lit "lxc.cgroup2.memory.max" ++ " = ").
  change (lit "lxc.cgroup2.cpu.max = ") with (lit "lxc.cgroup2.cpu.max" ++ " = ").
  rewrite map_app, !text_of_app.
  assert (∀ l ls, text_of (l :: ls) = l ++ end_of_line ++ text_of ls) as Hc.
  { intros l ls. unfold text_of. cbn [map concat]. by rewrite <- app_assoc. }
  unfold limits, setting_line at 1. cbn [map fst snd]. rewrite !Hc. unfold setting_line at 1 2. cbn [fst snd].
  change (text_of []) with ([] : str). repeat rewrite ?app_nil_r, <- ?app_assoc. reflexivity.
Qed.

Lemma lines_text ls : Forall clean ls → lines (text_of ls) = ls.
Proof.
  induction 1 as [|l ls (H1 & H2 & _)%clean_not _ IH]; [done|].
  change (text_of (l :: ls)) with ((l ++ end_of_line) ++ text_of ls). rewrite <- app_assoc.
  etransitivity; [by apply (lines_cons l (text_of ls))|]. by rewrite IH.
Qed.

Lemma solid_setting key w : (∃ k, key = "lxc.cgroup2." ++ k ∨ key = "lxc.net." ++ k) → clean key → solid w →
  good_setting (key, w).
Proof. intros Hk Hkey Hw. split; [done|]. split; [done|]. exists [], w. split_and!; [done|done|constructor]. Qed.

Lemma net_settings_good i net : validate_network net = Ok tt → Forall good_setting (net_settings i net).
Proof.
  unfold validate_network. intros H. inv_ok. apply id_solid in H as Hb.
  assert (∀ (name : string) w, forallb fields_char (lit name) = true → solid w →
    good_setting (("lxc.net." ++ dec (N.of_nat i) ++ ".") ++ name, w)) as Hg.
  { intros name w Hn Hw. apply solid_setting; [|rewrite !clean_app; split_and!|done].
    - exists ((dec (N.of_nat i) ++ ".") ++ name). right. by rewrite <- !app_assoc.
    - by apply clean_lit.
    - apply solid_clean, dec_solid.
    - by apply clean_lit.
    - apply fields_char_clean. by apply forallb_Forall. }
  unfold net_settings. cbv zeta. apply Forall_app. split; [|apply Forall_app; split].
  - repeat apply Forall_cons_2; [apply Hg; [done|by apply lit_solid]|by apply Hg|apply Hg; [done|by apply lit_solid]|constructor].
  - destruct (ln_vlan net); [|constructor]. apply Forall_singleton. apply Hg; [done|apply dec_solid].
  - destruct (ln_ip net) as [ip|]; [|constructor]. inv_ok. apply Forall_singleton. apply Hg; [done|by eapply cidr_solid].
Qed.

Lemma nets_settings_good i nets : Forall (λ n, validate_network n = Ok tt) nets →
  Forall good_setting (nets_settings i nets).
Proof.
  intros H. revert i. induction H as [|n nets Hn _ IH]; intros i; [constructor|].
  apply Forall_app. split; [by apply net_settings_good|apply IH].
Qed.

Lemma limits_good vcpus memory_mib : Forall good_setting (limits vcpus memory_mib).
Proof.
  apply Forall_cons_2; [|apply Forall_singleton].
  - apply solid_setting; [by exists (lit "memory.max"); left|by apply clean_lit|apply dec_solid].
  - split; [by exists (lit "cpu.max"); left|]. split; [by apply clean_lit|].
    exists (dec (cpu_quota vcpus) ++ " "), (lit "100000"). split; [by rewrite <- app_assoc|].
    split; [by apply lit_solid|]. apply clean_app. split; [apply solid_clean, dec_solid|by apply clean_lit].
Qed.

Lemma setting_line_clean kv : good_setting kv → clean (setting_line kv).
Proof.
  intros (_ & Hk & (pre & w & Hv & Hw & Hp)). unfold setting_line. rewrite Hv, !clean_app.
  split_and!; [done|by apply clean_lit|done|by apply solid_clean].
Qed.

(** The bind mounts that a container configuration asks for. *)
Definition mount_of_line (line : str) : option (list str) :=
  split_whitespace <$> strip_prefix "lxc.mount.entry = " (trim line).

Lemma check_create_ok req : check_create req = Ok tt →
  Forall (λ n, validate_network n = Ok tt) (cc_networks req) ∧
  Forall (λ m, validate_mount m = Ok tt) (cc_mounts req).
Proof.
  unfold check_create. intros H. inv_ok. split; done.
Qed.

Definition trimmed (m : LxcMount) : Prop := trim (lm_destination m) = lm_destination m.

Lemma setting_not_mount kv : good_setting kv → mount_of_line (setting_line kv) = None.
Proof.
  destruct kv as [key value]. intros ((k & Hk) & _ & (pre & w & Hv & Hw & _)). simpl in *. subst value.
  unfold mount_of_line, setting_line. cbn [fst snd]. rewrite !app_assoc. rewrite trim_id; [|..|by apply solid_last].
  - by destruct Hk as [-> | ->].
  - intros c. destruct Hk as [-> | ->]; simpl; by intros [= <-].
Qed.
Lemma mount_text_trim m : validate_mount m = Ok tt → trim (mount_text m) = mount_text m.
Proof.
  intros _. apply trim_id; [by intros c [= <-]|]. unfold mount_text. rewrite !app_assoc. apply solid_last.
  by apply lit_solid.
Qed.
Lemma mount_line_read m : validate_mount m = Ok tt → trimmed m → mount_of_line (mount_text m) = Some (mount_fields m).
Proof.
  intros Hm Ht. destruct (mount_accepted m Hm Ht) as (_ & _ & <-). unfold mount_of_line.
  rewrite mount_text_trim by done. reflexivity.
Qed.

Definition block_ok (ls : list str) : Prop :=
  Forall clean ls ∧ Forall (λ l, is_empty (trim l) = true ∨ validate_lxc_config_line l = Ok tt) ls.

Lemma block_lines_ok vcpus memory_mib networks mounts :
  Forall (λ n, validate_network n = Ok tt) networks →
  Forall (λ m, validate_mount m = Ok tt) mounts → Forall trimmed mounts →
  block_ok (block_lines vcpus memory_mib networks mounts).
Proof.
  intros Hn Hm Ht.
  assert (Forall good_setting (limits vcpus memory_mib ++ nets_settings 0 networks)) as Hg.
  { apply Forall_app. split; [apply limits_good|by apply nets_settings_good]. }
  assert (Forall (λ m, validate_lxc_config_line (mount_text m) = Ok tt ∧ clean (mount_text m)) mounts) as Hms.
  { apply Forall_forall. intros m Hin. eapply Forall_forall in Hm, Ht; [|exact Hin..].
    by destruct (mount_accepted m Hm Ht) as (? & ? & _). }
  unfold block_ok, block_lines. rewrite !Forall_app, !Forall_map. split_and!.
  - apply Forall_cons_2; [constructor|]. apply Forall_singleton. by apply clean_lit.
  - eapply Forall_impl; [exact Hg|]. intros kv. apply setting_line_clean.
  - eapply Forall_impl; [exact Hms|]. by intros m [].
  - apply Forall_cons_2; [by left|]. apply Forall_singleton. by right.
  - eapply Forall_impl; [exact Hg|]. intros kv Hkv. right. by apply setting_accepted.
  - eapply Forall_impl; [exact Hms|]. intros m []. by right.
Qed.

Lemma block_accepted ls : ls ≠ [] → block_ok ls → (len (text_of ls) <= 8192)%N →
  validate_lxc_config_block (text_of ls) = Ok tt.
Proof.
  intros Hne [Hc Hl] Hlen. unfold validate_lxc_config_block.
  destruct (is_empty (text_of ls)) eqn:He.
  { destruct ls as [|l ls]; [done|]. exfalso. revert He. unfold text_of. cbn [map concat]. by destruct l. }
  rewrite (proj2 (N.ltb_ge _ _)) by done.
  assert (contains_char 0 (text_of ls) = false) as ->.
  { apply contains_char_false. unfold text_of. clear -Hc. induction Hc as [|l ls (_ & _ & Hl)%clean_not _ IH];
      [apply not_elem_of_nil|].
    cbn [map concat]. rewrite !not_elem_of_app. split_and!; [done| |done]. by intros ?%list_elem_of_singleton. }
  rewrite lines_text by done. apply for_each_ok, Forall_forall. intros l [Hin Hb]%list_elem_of_In%filter_In.
  eapply Forall_forall in Hl as [Hl|Hl]; [|done|by apply list_elem_of_In]. by rewrite Hl in Hb.
Qed.

(** C12: what the container service writes is what the broker lets through, and says
    what was asked for, under two conditions the service does not check. For a
    checked request whose mount destinations carry no white space at their ends (see
    [untrimmed_destination]), the block it appends is made of exactly the limit,
    network and mount lines, the mounts that a reader of the file finds are the
    requested ones in order, and the broker's own check accepts the block if it has
    at most 8192 bytes. *)
Theorem container_config_accepted req : check_create req = Ok tt → Forall trimmed (cc_mounts req) →
  ∃ block, config_block (cc_vcpus req) (cc_memory_mib req) (cc_networks req) (cc_mounts req) = Ok block ∧
    lines block = block_lines (cc_vcpus req) (cc_memory_mib req) (cc_networks req) (cc_mounts req) ∧
    omap mount_of_line (lines block) = map mount_fields (cc_mounts req) ∧
    ((len block <= 8192)%N → validate_lxc_config_block block = Ok tt).
Proof.
  intros [Hn Hm]%check_create_ok Ht.
  pose proof (block_lines_ok (cc_vcpus req) (cc_memory_mib req) _ _ Hn Hm Ht) as Hok.
  eexists. split; [by apply config_block_text|]. rewrite lines_text by apply Hok.
  split; [done|]. split; [|by apply block_accepted].
  unfold block_lines. rewrite !omap_app. change (omap mount_of_line [_; _]) with (@nil (list str)).
  assert (∀ l, Forall good_setting l → omap mount_of_line (map setting_line l) = []) as Hs.
  { induction 1 as [|kv l Hkv _ IH]; [done|]. cbn [map omap list_omap]. by rewrite setting_not_mount. }
  rewrite Hs by (apply Forall_app; split; [apply limits_good|by apply nets_settings_good]).
  cbn [app]. clear -Hm Ht. induction (cc_mounts req) as [|m ms IH]; [done|].
  apply Forall_cons in Hm as [Hm Hms]. apply Forall_cons in Ht as [Ht Hts].
  cbn [map omap list_omap]. rewrite mount_line_read by done. by rewrite IH.
Qed.

Definition demo_container : CreateLxcRequest :=
  mkCreateLxc "web01" "debian-bookworm" None 2 2048 8 [mkLxcNet "br0" (Some 20%N) (Some (lit "10.0.0.5/24"))]
    [mkLxcMount "/srv/www" "/var/www" true] true None [] None false.
Lemma container_config_accepted_witness :
  check_create demo_container = Ok tt ∧
  ∃ block, config_block 2 2048 (cc_networks demo_container) (cc_mounts demo_container) = Ok block ∧
    validate_lxc_config_block block = Ok tt ∧
    omap mount_of_line (lines block)
    = [map lit ["/srv/www"; "var/www"; "none"; "bind,ro,create=dir"; "0"; "0"]].
Proof.
  split; [vm_compute; reflexivity|].
  destruct (container_config_accepted demo_container) as (b & Hb & _ & Hm & Ha);
    [vm_compute; reflexivity|repeat constructor|].
  exists b. split; [exact Hb|]. split; [|exact Hm]. apply Ha.
  apply N.leb_le. change (len b <=? 8192)%N with (match Ok (E:=AppError) b with Ok b => len b <=? 8192 | Err _ => true end)%N.
  rewrite <- Hb. vm_compute. reflexivity.
Defined.

(** A destination with white space at its end passes the service's check, and the
    broker refuses the line it becomes. *)
Example untrimmed_destination :
  let m := mkLxcMount "/srv/www" " /data" false in
  validate_mount m = Ok tt ∧ ∃ e, validate_lxc_config_line (mount_text m) = Err e.
Proof. split; [vm_compute; reflexivity|]. eexists. vm_compute. reflexivity. Qed.

(** * Containers: what creating, restoring and reconciling leave behind *)

#[export] Existing Instance LxcService.state_host.

(** A command that destroys a container or a dataset. *)
Definition destroys (c : command_line) : bool :=
  (c.1 =s? "lxc-destroy") || ((c.1 =s? "zfs") && match c.2 with a :: _ => a =s? "destroy" | [] => false end).
Definition harmless_line (c : command_line) : Prop := destroys c = false.

Section records.
Context `{RV : RecordStore Lxc} {H : Type}.
Local Abbreviation state := (LxcService.state (RV:=RV) (H:=H)).

Definition ct_records (f : str → option Lxc) (s : state) : Prop := ∀ k, record (LxcService.store s) k = f k.

Lemma ct_keeps_at_host {A} f (m : Svc H A) : keeps (ct_records f) (at_host (S:=state) m).
Proof. intros s s' r. unfold at_host. destruct (m _) as [h x]. by intros [= <- _]. Qed.
Lemma ct_keeps_list f : keeps (ct_records f) (LxcService.on_store (H:=H) store_list).
Proof.
  intros s s' r. unfold LxcService.on_store. destruct (store_list _) as [d x] eqn:E. intros [= <- _] Hs k.
  simpl. by rewrite (list_keeps _ _ _ E).
Qed.
Lemma ct_keeps_get f id : keeps (ct_records f) (LxcService.on_store (H:=H) (store_get id)).
Proof.
  intros s s' r. unfold LxcService.on_store. destruct (store_get _ _) as [d x] eqn:E. intros [= <- _] Hs k.
  simpl. by rewrite (get_keeps _ _ _ _ E).
Qed.
Lemma ct_put_spec f id ct (s s' : state) r : LxcService.put id ct s = (s', r) → ct_records f s →
  match r with
  | Ok _ => ct_records (λ k, if decide (k = id) then Some ct else f k) s'
  | Err _ => ct_records f s'
  end.
Proof.
  unfold LxcService.put, LxcService.on_store. destruct (store_put _ _ _) as [d x] eqn:E.
  intros [= <- <-] Hs. destruct x as [[]|e]; intros k; simpl.
  - rewrite (put_ok _ _ _ _ E). case_decide; [done|apply Hs].
  - rewrite (put_err _ _ _ _ _ E). apply Hs.
Qed.
Lemma on_store_trace {A} (log : H → list command_line) P (m : Svc (rstate (RecordStore:=RV)) A) :
  emits (S:=state) log P (LxcService.on_store m).
Proof. apply emits_quiet. intros s. unfold LxcService.on_store, trace. by destruct (m _). Qed.
End records.

Ltac keeps_ct_step :=
  lazymatch goal with
  | |- keeps _ (mbind _ _) => apply keeps_bind; [|intros ?]
  | |- keeps _ (attempt _) => apply keeps_attempt
  | |- keeps _ (ignore _) => apply keeps_ignore
  | |- keeps _ (on_error _ _) => apply keeps_on_error
  | |- keeps _ (match ?x with _ => _ end) => destruct x
  | |- keeps _ (let _ := _ in _) => cbv zeta
  | |- keeps _ (at_host _) => apply ct_keeps_at_host
  | |- keeps _ (host_run_ok _ _ _ _) => apply ct_keeps_at_host
  | |- keeps _ (host_run_optional _ _ _ _) => apply ct_keeps_at_host
  | |- keeps _ (LxcService.zfs _ _ _) => apply ct_keeps_at_host
  | |- keeps _ (LxcService.on_store store_list) => apply ct_keeps_list
  | |- keeps _ (LxcService.on_store (store_get _)) => apply ct_keeps_get
  | |- keeps _ (mret _) => apply keeps_ret
  | |- keeps _ (fail _) => apply keeps_fail
  | |- keeps _ (lift _) => apply keeps_lift
  | |- keeps _ _ => assumption
  end.
Ltac keeps_ct := repeat keeps_ct_step.

Section outcomes.
Context `{RV : RecordStore Lxc} {H : Type} (log : H → list command_line).
Context (broker : bool) (exec : str → list str → Svc H (option str)).
Context (default_pool : str).
Context (resolve_ct_template : str → Svc H str) (append_file : str → str → Svc H unit).
Context (exec_log : ∀ p a h, log (exec p a h).1 = log h ++ [(p, a)])
  (resolve_log : ∀ n h, log (resolve_ct_template n h).1 = log h).
Local Abbreviation state := (LxcService.state (RV:=RV) (H:=H)).
Local Abbreviation create := (LxcService.create (RV:=RV) broker exec default_pool resolve_ct_template append_file).
Local Abbreviation write_config := (LxcService.write_config (RV:=RV) append_file).
Local Abbreviation tear_down := (LxcService.tear_down (RV:=RV) broker exec).
Local Abbreviation emits := (emits (S:=state) log).

Lemma keeps_write_config f n v m nets ms : keeps (ct_records f) (write_config n v m nets ms).
Proof. unfold LxcService.write_config, LxcService.append_lxc_config. keeps_ct. Qed.
Lemma keeps_tear_down f n d : keeps (ct_records f) (tear_down n d).
Proof. unfold LxcService.tear_down. keeps_ct. Qed.

Lemma run_ok_none p a s s' : (∀ h o, (exec p a h).2 ≠ Ok (Some o)) →
  host_run_ok (S:=state) broker exec p a s ≠ (s', Ok tt).
Proof.
  intros Hn. unfold host_run_ok, at_host, Command.run_ok, Command.run, Command.dispatch, mbind, svc_bind, lift.
  destruct (Command.validate_program p); [|done]. specialize (Hn (host_of s)).
  destruct broker; [destruct (map_err _ _); [|done]|];
    destruct (exec p a (host_of s)) as [h [[o|]|e]]; simpl in *; try done; by destruct (Hn o).
Qed.

(** Setting a container up after [lxc-create]: what is saved is what is returned. *)
Definition saves (f : str → option Lxc) (id : str) (Q : Lxc → Prop) (m : Svc state Lxc) : Prop :=
  ∀ s s' r, m s = (s', r) → ct_records f s →
    match r with
    | Ok ct => Q ct ∧ ct_records (λ k, if decide (k = id) then Some ct else f k) s'
    | Err _ => ct_records f s'
    end.
Lemma saves_bind {A} f id Q (m : Svc state A) (g : A → Svc state Lxc) :
  keeps (ct_records f) m → (∀ a, (∃ s s', m s = (s', Ok a)) → saves f id Q (g a)) → saves f id Q (mbind g m).
Proof.
  intros Hm Hg s s' r. unfold mbind, svc_bind. destruct (m s) as [s1 [a|e]] eqn:E.
  - intros E' Hs. pose proof (Hm _ _ _ E Hs) as H1. eapply Hg; [by eexists _, _| |]; done.
  - intros [= <- <-] Hs. exact (Hm _ _ _ E Hs).
Qed.
Lemma saves_put f id (Q : Lxc → Prop) ct : Q ct → saves f id Q (_ ← LxcService.put id ct; mret ct).
Proof.
  intros HQ s s' r. unfold mbind, svc_bind. destruct (LxcService.put id ct s) as [s1 [[]|e]] eqn:E;
    intros [= <- <-] Hs; pose proof (ct_put_spec _ _ _ _ _ _ E Hs); done.
Qed.

(** The record that a request makes. *)
Definition made_for (req : CreateLxcRequest) (id : str) (ct : Lxc) : Prop :=
  check_create req = Ok tt ∧ ct_id ct = id ∧ ct_name ct = cc_name req ∧
  ct_rootfs_dataset ct = default_pool ++ "/lxc/" ++ cc_name req ∧
  ct_state ct = (if cc_start req then LxcRunning else LxcStopped).

(** C33: creating a container. Success saves exactly the returned record - checked,
    with the fresh id, on its own dataset below the pool, running exactly when it was
    asked to start - and nothing else changes; failure saves nothing. And when
    [lxc-create] does not succeed (a container or dataset of that name is there
    already, the template is missing, ...) the request destroys nothing. *)
Theorem container_create_outcomes req id now s s' r f :
  create req id now s = (s', r) → ct_records f s →
  match r with
  | Ok ct =>
      made_for req id ct ∧ ct_records (λ k, if decide (k = id) then Some ct else f k) s'
  | Err _ => ct_records f s'
  end ∧
  ((∀ a h o, (exec "lxc-create" a h).2 ≠ Ok (Some o)) →
   ∃ tr, trace log s' = trace log s ++ tr ∧ Forall harmless_line tr).
Proof.
  intros E Hs. split.
  - revert s s' r E Hs. change (saves f id (made_for req id) (create req id now)).
    unfold LxcService.create. apply saves_bind; [keeps_ct|intros [] (? & ? & [= _ Hc])].
    apply saves_bind; [keeps_ct|intros tags _]. cbv zeta. apply saves_bind; [keeps_ct|intros fstree _].
    apply saves_bind; [keeps_ct|intros [dist release] _]. apply saves_bind; [keeps_ct|intros ? _].
    apply saves_bind; [keeps_ct|intros _ _]. apply saves_bind.
    { apply keeps_on_error; [keeps_ct|apply keeps_tear_down]. } intros _ _. apply saves_bind.
    { apply keeps_on_error; [apply keeps_write_config|apply keeps_tear_down]. } intros _ _.
    apply saves_bind; [keeps_ct|]. intros ct (s1 & s2 & Hct).
    assert (made_for req id ct) as HQ.
    { destruct (cc_start req) eqn:Est.
      - apply svc_bind_ok in Hct as (? & ? & _ & [= _ <-]). unfold made_for. rewrite Est. split_and!; try done. simpl. by rewrite <- app_assoc.
      - injection Hct as _ <-. unfold made_for. rewrite Est. split_and!; try done. simpl. by rewrite <- app_assoc. }
    assert (ct_id ct = id) as -> by apply HQ. by apply saves_put.
  - intros Hn. revert s s' r E Hs. enough (emits harmless_line (create req id now)) as Hem.
    { intros s s' r E _. by eapply Hem. }
    unfold LxcService.create. cbv zeta. apply emits_bind; [emits|intros []]. apply emits_bind; [emits|intros tags].
    apply emits_bind; [emits|intros fstree]. apply emits_bind; [emits|intros [dist release]].
    apply emits_bind; [emits|intros ?].
    apply emits_bind_fails; [by apply emits_run_ok|]. intros ? ? []. by apply run_ok_none.
Qed.

(** With [lxc-info] installed, the check for containers that are gone from the host
    finds none: [None] is the answer for a missing program, and a missing container
    is an error. *)
Lemma reconcile_blind cts s s' r :
  (∀ a h, (exec "lxc-info" a h).2 ≠ Ok None) →
  LxcService.missing_in_host (RV:=RV) broker exec cts s = (s', r) → r = Ok [] ∨ ∃ e, r = Err e.
Proof.
  intros Hn. revert s s' r. induction cts as [|ct cts IH]; intros s s' r; cbn [LxcService.missing_in_host].
  { intros [= _ <-]. by left. }
  unfold mbind at 1, svc_bind at 1, attempt. destruct (host_run_optional _ _ _ _ s) as [s1 [found|e]] eqn:E; simpl;
    [|intros [= _ <-]; right; by eexists].
  assert (found ≠ None) as Hf.
  { intros ->. revert E. unfold host_run_optional, at_host, Command.run_optional, Command.dispatch, mbind, svc_bind, lift.
    cbn [Command.validate_program]. change (Command.validate_program "lxc-info") with (Ok (E:=AppError) (lit "/usr/bin/lxc-info")).
    specialize (Hn [lit "-n"; ct_name ct; lit "-sH"] (host_of s)).
    destruct broker; [destruct (map_err _ _); [|done]|]; destruct (exec _ _ _) as [h [[o|]|e]]; simpl in *; congruence. }
  destruct found; [|done]. unfold mbind, svc_bind. destruct (LxcService.missing_in_host _ _ _ _) as [s2 [rest|e]] eqn:E2.
  - intros [= _ <-]. destruct (IH _ _ _ E2) as [[= ->]|[? [=]]]. by left.
  - intros [= _ <-]. right. by eexists.
Qed.
End outcomes.

(** ** On a concrete host *)

Section host.
Context (answer : list command_line → str → list str → ApiResult (option str)).
Definition ct_exec (p : str) (a : list str) : Svc (list command_line) (option str) :=
  λ h, (h ++ [(p, a)], answer h p a).
End host.
Definition all_well (h : list command_line) (p : str) (a : list str) : ApiResult (option str) := Ok (Some []).
Definition taken_name (h : list command_line) (p : str) (a : list str) : ApiResult (option str) :=
  if p =s? "lxc-create" then Err (hypervisor "already exists") else Ok (Some []).
Definition no_start (h : list command_line) (p : str) (a : list str) : ApiResult (option str) :=
  if p =s? "lxc-start" then Err (hypervisor "failed to start") else Ok (Some []).
Definition demo_started : CreateLxcRequest :=
  mkCreateLxc "web01" "debian-bookworm" None 2 2048 8 [] [] true None [] None true.
Definition no_containers : LxcService.state (RV:=map_store Lxc) (H:=list command_line) :=
  LxcService.mkState (RV:=map_store Lxc) ∅ ∅ [].
Definition created_on (answer : list command_line → str → list str → ApiResult (option str)) :=
  LxcService.create (RV:=map_store Lxc) true (ct_exec answer) "tank" (λ n h, (h, Ok n)) (λ _ _ h, (h, Ok tt))
    demo_started "c1" "2026-01-01T00:00:00Z" no_containers.

Lemma container_create_outcomes_witness :
  is_ok (created_on all_well).2 = true ∧ is_ok (created_on taken_name).2 = false ∧
  ct_records (λ _, None) (created_on taken_name).1 ∧
  ∃ tr, trace (λ h, h) (created_on taken_name).1 = [] ++ tr ∧ Forall harmless_line tr.
Proof.
  split; [reflexivity|]. split; [reflexivity|].
  destruct (container_create_outcomes (RV:=map_store Lxc) (λ h, h) true (ct_exec taken_name) "tank"
    (λ n h, (h, Ok n)) (λ _ _ h, (h, Ok tt)) (λ p a h, eq_refl) (λ n h, eq_refl)
    demo_started "c1" "2026-01-01T00:00:00Z" no_containers _ _ (λ _, None)
    (surjective_pairing (created_on taken_name))) as [Hr Ht].
  - intros k. exact (lookup_empty k).
  - split; [exact Hr|]. apply Ht. intros a h o. discriminate.
Defined.

(** A container that does not start is left behind, without a record. *)
Example failed_start_orphans :
  is_ok (created_on no_start).2 = false ∧
  map fst (trace (λ h, h) (created_on no_start).1) = map lit ["lxc-create"; "zfs"; "lxc-start"] ∧
  LxcService.store (created_on no_start).1 = ∅.
Proof. split_and!; reflexivity. Qed.
