(* ===== verification/Console.v ===== *)
(** * Console bridges (src/src/services/command.rs, api/vms.rs, api/containers.rs)

    A console is a pair of halves, opened through the broker or directly, that a
    websocket is bridged to.  The two loops of a bridge run concurrently; a run is the
    sequence of the events they see, each with the outcome of the write it causes, and
    ends with the first loop that does. *)

From S2P Require Export CommandRouting Kvm Lxc BrokerCodec.

(** ** Opening the halves *)

Inductive ConsoleHalves := BrokerHalves | DirectHalves | ChildHalves.

Section attach.
(** [broker_client()], the connection to the broker with the bytes it takes, a fresh
    request id, opening a device and starting [lxc-console] with its pipes. *)
Context `{Codec} (broker_configured : bool) (dial : result str unit) (wire : list N → result str unit)
  (new_request_id : str) (open_pty : str → bool → result str unit)
  (spawn_lxc_console : str → list str → ApiResult unit).

(** [BrokerClient::console_attach] and [lxc_console_attach]: one request is sent, and the
    two directions of the connection are the halves. *)
Definition attach_stream (op : Op) : result BrokerClient.BrokerError unit :=
  _ ← map_err BrokerClient.Unavailable dial;
  sent ← BrokerClient.encode_frame (request_to_json (mkRequest PROTOCOL_VERSION new_request_id op));
  map_err BrokerClient.Protocol (wire sent).
Definition via_attach (op : Op) : ApiResult ConsoleHalves :=
  _ ← map_err (λ e, CommandRouting.broker_error (BrokerClient.broker_error_text e)) (attach_stream op);
  Ok BrokerHalves.
Definition console_attach (pty : str) : ApiResult ConsoleHalves :=
  _ ← map_err validation (validate_console_pty pty);
  if broker_configured then via_attach (ConsoleAttach pty CommandRouting.CONSOLE_IDLE_TIMEOUT_SECS)
  else
    let opened read := map_err (λ e, hypervisor ("open console " ++ pty ++ ": " ++ e)) (open_pty pty read) in
    _ ← opened true;
    _ ← opened false;
    Ok DirectHalves.
Definition lxc_console_attach (name : str) : ApiResult ConsoleHalves :=
  _ ← map_err validation (validate_lxc_name name);
  if broker_configured then via_attach (LxcConsoleAttach name CommandRouting.CONSOLE_IDLE_TIMEOUT_SECS)
  else
    _ ← spawn_lxc_console "lxc-console" [lit "-n"; name; lit "-t"; lit "0"];
    Ok ChildHalves.
End attach.

(** [ConsoleReadHalf::recv] of a device or a child: one [read], whose end and whose
    failure both end the console. *)
Definition recv_direct (read : result str (list N)) : option (list N) :=
  match read with Ok [] | Err _ => None | Ok chunk => Some chunk end.
(** [ConsoleWriteHalf::send] of a device or a child. *)
Definition send_direct (write_all flush : result str unit) : ApiResult unit :=
  _ ← map_err (λ e, hypervisor ("console write: " ++ e)) write_all;
  map_err (λ e, hypervisor ("console flush: " ++ e)) flush.

(** ** Bridges *)

(** [Message]: pings and pongs are [WsControl]. *)
Inductive ws_message := WsBinary (data : list N) | WsText (text : str) | WsClose | WsControl.
(** [None] is a stream that ended or failed. *)
Inductive bridge_event :=
  | FromBrowser (msg : option ws_message) (sent : bool)
  | FromGuest (chunk : option (list N)) (sent : bool).
(** What was written completely, whether the websocket was closed and the guest's side
    shut down, and whether the bridge is over. *)
Record Bridge := mkBridge {
  b_to_guest : list (list N); b_to_browser : list (list N); b_closed : bool; b_shut : bool; b_over : bool }.
Definition new_bridge : Bridge := mkBridge [] [] false false false.

Section bridge.
(** What a message carries for the guest, and whether the guest's side is shut down when
    the browser's loop ends. *)
Context (payload : ws_message → option (list N)) (shutdown : bool).

Definition browser_ends (b : Bridge) : Bridge :=
  mkBridge (b_to_guest b) (b_to_browser b) (b_closed b) shutdown true.
Definition guest_ends (b : Bridge) : Bridge :=
  mkBridge (b_to_guest b) (b_to_browser b) true (b_shut b) true.
Definition bridge_step (b : Bridge) (e : bridge_event) : Bridge :=
  if b_over b then b
  else match e with
  | FromBrowser None _ | FromBrowser (Some WsClose) _ => browser_ends b
  | FromBrowser (Some msg) sent =>
      match payload msg with
      | None => b
      | Some data =>
          if sent then mkBridge (b_to_guest b ++ [data]) (b_to_browser b) (b_closed b) (b_shut b) false
          else browser_ends b
      end
  | FromGuest None _ => guest_ends b
  | FromGuest (Some chunk) sent =>
      if sent then mkBridge (b_to_guest b) (b_to_browser b ++ [chunk]) (b_closed b) (b_shut b) false
      else guest_ends b
  end.
Definition bridge (events : list bridge_event) : Bridge := foldl bridge_step new_bridge events.
End bridge.

(** The serial and the container console take text as bytes; the graphical console
    takes binary frames only. *)
Definition console_payload (msg : ws_message) : option (list N) :=
  match msg with WsBinary data => Some data | WsText text => Some (bytes text) | _ => None end.
Definition vnc_payload (msg : ws_message) : option (list N) :=
  match msg with WsBinary data => Some data | _ => None end.
Definition proxy_console : list bridge_event → Bridge := bridge console_payload false.
(** [connected]: whether the display's socket could be reached; if not the browser's
    socket is closed at once. *)
Definition proxy_vnc (connected : bool) (events : list bridge_event) : Bridge :=
  if connected then bridge vnc_payload true events else mkBridge [] [] true false true.

(** What the websocket of a console becomes once its ticket is redeemed. *)
Definition serve_console (attached : ApiResult ConsoleHalves) (events : list bridge_event) : Bridge :=
  match attached with Ok _ => proxy_console events | Err _ => mkBridge [] [] true false true end.

(** ** What a bridge carries *)

Section relay.
Context (payload : ws_message → option (list N)) (shutdown : bool).

(** The event after which nothing is carried. *)
Definition ends (e : bridge_event) : bool :=
  match e with
  | FromBrowser None _ | FromBrowser (Some WsClose) _ | FromGuest None _ => true
  | FromBrowser (Some msg) sent => bool_decide (is_Some (payload msg)) && negb sent
  | FromGuest (Some _) sent => negb sent
  end.
Fixpoint live (events : list bridge_event) : list bridge_event :=
  match events with [] => [] | e :: events => if ends e then [] else e :: live events end.
Definition keystrokes (e : bridge_event) : option (list N) :=
  match e with FromBrowser (Some msg) _ => payload msg | _ => None end.
Definition output_chunk (e : bridge_event) : option (list N) :=
  match e with FromGuest chunk _ => chunk | _ => None end.

Lemma bridge_over events b : b_over b = true → foldl (bridge_step payload shutdown) b events = b.
Proof.
  intros Hb. induction events as [|e events IH]; [done|]. cbn [foldl].
  by replace (bridge_step payload shutdown b e) with b by (unfold bridge_step; by rewrite Hb).
Qed.
Lemma bridge_step_ends e b : b_over b = false → ends e = true →
  let b' := bridge_step payload shutdown b e in
  b_over b' = true ∧ b_to_guest b' = b_to_guest b ∧ b_to_browser b' = b_to_browser b.
Proof.
  intros Hb Ee. unfold bridge_step, ends in *. rewrite Hb.
  repeat (case_match; simplify_eq/=; try done).
Qed.
Lemma bridge_step_live e b : b_over b = false → ends e = false →
  let b' := bridge_step payload shutdown b e in
  b_over b' = false ∧ b_to_guest b' = b_to_guest b ++ omap keystrokes [e] ∧
  b_to_browser b' = b_to_browser b ++ omap output_chunk [e].
Proof.
  intros Hb Ee. unfold bridge_step, ends, keystrokes, output_chunk in *. rewrite Hb.
  repeat (case_match; simplify_eq/=; rewrite ?app_nil_r; try done).
Qed.
Lemma bridge_carries events b : b_over b = false →
  let b' := foldl (bridge_step payload shutdown) b events in
  b_to_guest b' = b_to_guest b ++ omap keystrokes (live events) ∧
  b_to_browser b' = b_to_browser b ++ omap output_chunk (live events) ∧
  b_over b' = existsb ends events.
Proof.
  revert b. induction events as [|e events IH]; intros b Hb; [by rewrite !app_nil_r|].
  cbn zeta. cbn [foldl live existsb]. destruct (ends e) eqn:Ee.
  - destruct (bridge_step_ends e b Hb Ee) as (Ho & H1 & H2).
    rewrite (bridge_over _ _ Ho), H1, H2. by rewrite !app_nil_r.
  - destruct (bridge_step_live e b Hb Ee) as (Ho & H1 & H2).
    destruct (IH _ Ho) as (K1 & K2 & K3). rewrite K1, K2, K3, H1, H2.
    change (e :: live events) with ([e] ++ live events). by rewrite !omap_app, !app_assoc.
Qed.
End relay.

(** Both bridges carry exactly what comes before the first end, each direction in its
    order, and nothing after it. *)
Lemma proxy_console_carries events :
  b_to_guest (proxy_console events) = omap (keystrokes console_payload) (live console_payload events) ∧
  b_to_browser (proxy_console events) = omap output_chunk (live console_payload events).
Proof. by destruct (bridge_carries console_payload false events new_bridge eq_refl) as (H1 & H2 & _). Qed.
Lemma proxy_vnc_carries events :
  b_to_guest (proxy_vnc true events) = omap (keystrokes vnc_payload) (live vnc_payload events) ∧
  b_to_browser (proxy_vnc true events) = omap output_chunk (live vnc_payload events).
Proof. by destruct (bridge_carries vnc_payload true events new_bridge eq_refl) as (H1 & H2 & _). Qed.

(** ** What opening a console sends *)

(** A request behind a console is one the broker accepts. *)
Lemma attach_accepted id op :
  (∃ pty, op = ConsoleAttach pty CommandRouting.CONSOLE_IDLE_TIMEOUT_SECS ∧ validate_console_pty pty = Ok tt) ∨
  (∃ name, op = LxcConsoleAttach name CommandRouting.CONSOLE_IDLE_TIMEOUT_SECS ∧ validate_lxc_name name = Ok tt) →
  id ≠ [] → (len id <= 128)%N → contains_char 0 id = false →
  validate_request (mkRequest PROTOCOL_VERSION id op) = Ok tt.
Proof.
  intros Hop Hid Hlen Hnul. unfold validate_request. cbn [req_v req_id req_op]. rewrite N.eqb_refl. cbn [negb].
  replace (is_empty id) with false by by destruct id.
  replace (128 <? len id)%N with false by (symmetry; by apply N.ltb_ge). rewrite Hnul. cbn [orb].
  destruct Hop as [(pty & -> & Hp)|(name & -> & Hp)]; cbn [validate_op]; by rewrite Hp.
Qed.

Section sent.
Context `{Codec} (laws : CodecLaws) (broker_configured : bool) (dial : result str unit)
  (wire : list N → result str unit) (new_request_id : str) (open_pty : str → bool → result str unit)
  (spawn_lxc_console : str → list str → ApiResult unit).
Hypothesis id_ok : new_request_id ≠ [] ∧ (len new_request_id <= 128)%N ∧ contains_char 0 new_request_id = false.

Lemma via_attach_sends op : (∀ id, id ≠ [] → (len id <= 128)%N → contains_char 0 id = false →
    validate_request (mkRequest PROTOCOL_VERSION id op) = Ok tt) →
  via_attach dial wire new_request_id op = Ok BrokerHalves →
  ∃ body sent req, write_frame body = Ok sent ∧ wire sent = Ok tt ∧ request_of_json body = Ok req ∧
    req_op req = op ∧ validate_request req = Ok tt.
Proof using laws id_ok.
  intros Hv. unfold via_attach, attach_stream, BrokerClient.encode_frame.
  destruct dial; cbn; [|done]. set (req := mkRequest _ _ _).
  destruct (write_frame (request_to_json req)) as [sent|e] eqn:Es; cbn; [|done].
  destruct (wire sent) as [[]|e] eqn:Ew; cbn; [|done]. intros _. destruct id_ok as (H1 & H2 & H3).
  exists (request_to_json req), sent, req. split_and!; try done; [apply request_json; by destruct laws|by apply Hv].
Qed.

(** A console that opens behind the broker has sent it a request it reads and accepts,
    for exactly that device or container. *)
Lemma console_attach_sends pty :
  console_attach broker_configured dial wire new_request_id open_pty pty = Ok BrokerHalves →
  ∃ body sent req, write_frame body = Ok sent ∧ wire sent = Ok tt ∧ request_of_json body = Ok req ∧
    req_op req = ConsoleAttach pty CommandRouting.CONSOLE_IDLE_TIMEOUT_SECS ∧ validate_request req = Ok tt.
Proof using laws id_ok.
  unfold console_attach. destruct (validate_console_pty pty) as [[]|] eqn:Hp; cbn; [|done].
  destruct broker_configured; [|by do 2 destruct (open_pty _ _)].
  apply via_attach_sends. intros id. apply attach_accepted. left. eauto.
Qed.
Lemma lxc_console_attach_sends name :
  lxc_console_attach broker_configured dial wire new_request_id spawn_lxc_console name = Ok BrokerHalves →
  ∃ body sent req, write_frame body = Ok sent ∧ wire sent = Ok tt ∧ request_of_json body = Ok req ∧
    req_op req = LxcConsoleAttach name CommandRouting.CONSOLE_IDLE_TIMEOUT_SECS ∧ validate_request req = Ok tt.
Proof using laws id_ok.
  unfold lxc_console_attach. destruct (validate_lxc_name name) as [[]|] eqn:Hp; cbn; [|done].
  destruct broker_configured; [|by destruct (spawn_lxc_console _ _)].
  apply via_attach_sends. intros id. apply attach_accepted. right. eauto.
Qed.
End sent.
