(* ===== verification/Metrics.v ===== *)
(** * The metrics service (src/src/services/metrics.rs)

    A sample of the node is computed from two readings of [/proc] and [/sys]; a
    sample of a guest from the counters of [virsh domstats] or of its cgroup and from
    those of the previous tick.  Reading the host, its clocks and sleeping are
    parameters, and so are the decimal forms of an [f64].  A sum of counters that
    overflows wraps, as in a release build. *)

From Stdlib Require Export SpecFloat.
From S2P Require Export Host VmData DomainXml Lxc Validate.

(** * binary64

    An [f64] is a binary64 number of [SpecFloat]; the operations round to nearest,
    ties to even.  [round_u64] and [trunc_u64] are the casts [x.round() as u64] and
    [x as u64], which saturate; rounding to an integer is exact, so that the two
    steps of the first are one. *)

Definition f64 : Type := spec_float.
Definition f64_of (n : N) : f64 := binary_normalize 53 1024 (Z.of_N n) 0 false.
Definition f64_add (a b : f64) : f64 := SFadd 53 1024 a b.
Definition f64_div (a b : f64) : f64 := SFdiv 53 1024 a b.
Definition f64_mul (a b : f64) : f64 := SFmul 53 1024 a b.
Definition f64_ge (a b : f64) : bool := SFleb b a.
Definition f64_lt (a b : f64) : bool := SFltb a b.
Definition is_finite (a : f64) : bool := match a with S754_zero _ | S754_finite _ _ _ => true | _ => false end.
Definition f64_zero : f64 := S754_zero false.

(** [x.clamp(lo, hi)]. *)
Definition clamp (lo hi x : f64) : f64 :=
  let x := if f64_lt x lo then lo else x in
  if f64_lt hi x then hi else x.

(** The magnitude of a number, [m * 2 ^ e], to the nearest integer (a half goes away
    from zero) and rounded down. *)
Definition round_magnitude (m : positive) (e : Z) : N :=
  match e with
  | Zneg p => N.shiftr (N.pos m + 2 ^ (N.pos p - 1)) (N.pos p)
  | _ => N.shiftl (N.pos m) (Z.to_N e)
  end.
Definition trunc_magnitude (m : positive) (e : Z) : N :=
  match e with
  | Zneg p => N.shiftr (N.pos m) (N.pos p)
  | _ => N.shiftl (N.pos m) (Z.to_N e)
  end.
Definition to_u64 (magnitude : positive → Z → N) (x : f64) : N :=
  match x with
  | S754_finite false m e => N.min (magnitude m e) U64_MAX
  | S754_infinity false => U64_MAX
  | _ => 0
  end.
Definition round_u64 : f64 → N := to_u64 round_magnitude.
Definition trunc_u64 : f64 → N := to_u64 trunc_magnitude.

(** [Duration::as_secs_f64] of so many nanoseconds. *)
Definition as_secs_f64 (nanos : N) : f64 :=
  f64_add (f64_of (nanos / 1000000000)) (f64_div (f64_of (nanos mod 1000000000)) (f64_of 1000000000)).

(** ** Data *)

Inductive MetricsScope := NodeScope | VmScope | LxcScope.
#[export] Instance MetricsScope_eq_dec : EqDecision MetricsScope.
Proof. solve_decision. Defined.
Record GuestMetrics := mkMetrics {
  gm_id : str; gm_timestamp : str; gm_cpu_pct : f64; gm_memory_used_bytes : N;
  gm_memory_max_bytes : N; gm_disk_read_bps : N; gm_disk_write_bps : N; gm_net_rx_bps : N;
  gm_net_tx_bps : N }.
Record GuestMetricsSample := mkGuestSample { gs_scope : MetricsScope; gs_metrics : GuestMetrics }.
Record NodeMetrics := mkNode {
  nm_timestamp : str; nm_cpu_pct : f64; nm_cpu_count : N; nm_load_average : f64 * f64 * f64;
  nm_memory_total_bytes : N; nm_memory_used_bytes : N; nm_swap_total_bytes : N;
  nm_swap_used_bytes : N; nm_disk_read_bps : N; nm_disk_write_bps : N; nm_net_rx_bps : N;
  nm_net_tx_bps : N; nm_uptime_seconds : N }.
Record MetricsEvent := mkEvent {
  me_scope : MetricsScope; me_node : option NodeMetrics; me_guest : option GuestMetrics }.
Record StreamTicket := mkStreamTicket { tk_user_id : str; tk_expires_at : N }.
Record GuestCounters := mkCounters {
  gc_cpu_time_ns : N; gc_read_bytes : N; gc_write_bytes : N; gc_rx_bytes : N; gc_tx_bytes : N;
  gc_sampled_at : option N }.
Record RawGuestStats := mkStats {
  rs_cpu_time_ns : N; rs_memory_used_bytes : N; rs_read_bytes : N; rs_write_bytes : N;
  rs_rx_bytes : N; rs_tx_bytes : N }.
Definition no_counters : GuestCounters := mkCounters 0 0 0 0 0 None.
Definition no_stats : RawGuestStats := mkStats 0 0 0 0 0 0.

(** The durations of this file, in nanoseconds. *)
Definition SAMPLE_WINDOW : N := 200000000.
Definition STREAM_TICKET_TTL : N := 30000000000.
Definition CACHE_TTL : N := 1500000000.
Definition GUEST_RETENTION : N := 604800000000000.
Definition MAX_GUEST_SAMPLES : nat := Z.to_nat 50000.

Definition wrap_u64 (n : N) : N := n mod 2 ^ 64.
Definition sat_add (a b : N) : N := N.min (a + b) U64_MAX.
Definition sat_mul (a b : N) : N := N.min (a * b) U64_MAX.
(** [s.parse::<u64>().unwrap_or(0)]. *)
Definition u64_or_0 (s : str) : N := default 0%N (parse_uint U64_MAX s).

Definition scope_debug (scope : MetricsScope) : str :=
  match scope with NodeScope => "Node" | VmScope => "Vm" | LxcScope => "Lxc" end.
Definition sample_key (scope : MetricsScope) (id : str) : str := scope_debug scope ++ ":" ++ id.

Definition history_key (sample : GuestMetricsSample) : str :=
  (match gs_scope sample with VmScope => "vm" | LxcScope => "lxc" | NodeScope => "node" end)
  ++ "-" ++ gm_id (gs_metrics sample) ++ "-"
  ++ replace_char (ch "T") "t" (replace_char (ch "+") "-" (replace_char (ch ":") "-"
       (gm_timestamp (gs_metrics sample)))).

Definition prometheus_label (value : str) : str :=
  replace_char 10 [92%N; ch "n"] (replace_char DQUOTE [92%N; DQUOTE] (replace_char 92 [92%N; 92%N] value)).

(** ** Rates *)

(** [rate]; [per_second] of [make_guest_metrics] is the same. *)
Definition rate (a b : N) (secs : f64) : N :=
  if f64_ge f64_zero secs then 0%N else round_u64 (f64_div (f64_of (b - a)) secs).

Definition guest_cpu_pct (before after vcpus : N) (dt : f64) : f64 :=
  if f64_lt f64_zero dt then
    clamp f64_zero (f64_of 100)
      (f64_mul (f64_div (f64_of (after - before)) (f64_mul (f64_mul dt (f64_of 1000000000)) (f64_of vcpus)))
         (f64_of 100))
  else f64_zero.

(** ** The formats of the host *)

(** One line of [virsh domstats]. *)
Definition domstats_line (stats : RawGuestStats) (line : str) : RawGuestStats :=
  let '(mkStats cpu mem rd wr rx tx) := stats in
  match split_once (ch "=") (trim line) with
  | None => stats
  | Some (key, value) =>
      let value := u64_or_0 (trim value) in
      if ends_with "cpu.time" key then mkStats (sat_add cpu value) mem rd wr rx tx
      else if ends_with "balloon.current" key then mkStats cpu (sat_mul value 1024) rd wr rx tx
      else if contains "block." key && ends_with "rd.bytes" key then mkStats cpu mem (sat_add rd value) wr rx tx
      else if contains "block." key && ends_with "wr.bytes" key then mkStats cpu mem rd (sat_add wr value) rx tx
      else if contains "net." key && ends_with "rx.bytes" key then mkStats cpu mem rd wr (sat_add rx value) tx
      else if contains "net." key && ends_with "tx.bytes" key then mkStats cpu mem rd wr rx (sat_add tx value)
      else stats
  end.
Definition parse_domstats (out : str) : RawGuestStats := foldl domstats_line no_stats (lines out).

(** [parse_cpu_stat] of the text of [cpu.stat]. *)
Definition cpu_stat (text : str) : N :=
  sat_mul (default 0%N (head (omap (λ line,
    match split_whitespace line with
    | key :: value :: _ => if key =s? "usage_usec" then parse_uint U64_MAX value else None
    | _ => None
    end) (lines text)))) 1000.

Definition io_field (acc : N * N) (field : str) : N * N :=
  let acc := match strip_prefix "rbytes=" field with
             | Some value => (sat_add acc.1 (u64_or_0 value), acc.2) | None => acc end in
  match strip_prefix "wbytes=" field with
  | Some value => (acc.1, sat_add acc.2 (u64_or_0 value))
  | None => acc
  end.
Definition io_stat (text : str) : N * N :=
  foldl (λ acc line, foldl io_field acc (split_whitespace line)) (0, 0)%N (lines text).

(** [/proc/<pid>/net/dev]: two header lines, then one interface a line. *)
Definition net_dev_line (acc : N * N) (line : str) : N * N :=
  match split_once (ch ":") line with
  | None => acc
  | Some (_, values) =>
      let fields := split_whitespace values in
      match fields !! 0%nat, fields !! 8%nat with
      | Some rx, Some tx => (sat_add acc.1 (u64_or_0 rx), sat_add acc.2 (u64_or_0 tx))
      | _, _ => acc
      end
  end.
Definition net_dev (text : str) : N * N := foldl net_dev_line (0, 0)%N (drop 2 (lines text)).

Definition sum_u64 (l : list N) : N := foldl (λ a b, wrap_u64 (a + b)) 0%N l.
(** [cpu_times] of the text of [/proc/stat]: busy and total. *)
Definition cpu_times_of (stat : str) : N * N :=
  match List.find (starts_with "cpu ") (lines stat) with
  | None => (0, 0)%N
  | Some line =>
      let vals := map u64_or_0 (drop 1 (split_whitespace line)) in
      let idle := wrap_u64 (default 0%N (vals !! 3%nat) + default 0%N (vals !! 4%nat)) in
      let total := sum_u64 vals in
      ((total - idle)%N, total)
  end.

Definition meminfo_get (text : str) (key : string) : N :=
  default 0%N (
    l ← List.find (starts_with (lit key)) (lines text);
    v ← split_whitespace l !! 1%nat;
    kb ← parse_uint U64_MAX v;
    Some (wrap_u64 (kb * 1024))).
Definition meminfo_of (text : str) : N * N * N * N :=
  (meminfo_get text "MemTotal:", meminfo_get text "MemAvailable:", meminfo_get text "SwapTotal:",
   meminfo_get text "SwapFree:").

(** [disk_sectors] of the text of [/proc/diskstats]. *)
Definition disk_line (disks : list str) (acc : N * N) (line : str) : N * N :=
  let f := split_whitespace line in
  match f !! 2%nat, f !! 5%nat, f !! 9%nat with
  | Some name, Some rd, Some wr =>
      if existsb (λ d, d =s? name) disks
      then (wrap_u64 (acc.1 + u64_or_0 rd), wrap_u64 (acc.2 + u64_or_0 wr)) else acc
  | _, _, _ => acc
  end.
Definition disk_sectors_of (disks : list str) (text : str) : N * N :=
  foldl (disk_line disks) (0, 0)%N (lines text).

Definition virtual_disk (name : str) : bool :=
  existsb (λ p, starts_with (lit p) name) ["loop"; "ram"; "zram"; "dm-"; "sr"].

(** ** Reading the host *)

Module MetricsHost.
Section host.
Context {H : Type} (broker : bool) (exec : str → list str → Svc H (option str)).
(** [fs::read_to_string], the names of a directory up to the first that cannot be
    read, [fs::metadata(..).is_ok()], [available_parallelism], [sleep], the two
    clocks, [to_rfc3339], [str::parse::<f64>]. *)
Context (read_to_string : str → H → option str) (read_dir : str → H → option (list str))
  (exists_ : str → H → bool) (parallelism : option N) (sleep : N → H → H)
  (instant : H → N) (utc : H → Z) (to_rfc3339 : Z → str) (parse_f64 : str → option f64).

Definition text (path : str) (h : H) : str := default [] (read_to_string path h).

Definition vm_domstats (id : str) : Svc H RawGuestStats :=
  out ← attempt (Command.run_optional broker exec "virsh"
    (lits ["-c"; "qemu:///system"; "domstats"; "--vcpu"; "--balloon"; "--block"; "--interface"] ++ [id]));
  mret (match out with Ok (Some out) => parse_domstats out | _ => no_stats end).

Definition read_u64_file (path : str) (h : H) : option N :=
  t ← read_to_string path h; parse_uint U64_MAX (trim t).
Definition read_counter (path : str) (h : H) : N := default 0%N (read_u64_file path h).
Definition parse_cpu_stat (path : str) (h : H) : N := cpu_stat (text path h).
Definition parse_io_stat (path : str) (h : H) : N * N := io_stat (text path h).

Definition container_net_bytes (name : str) : Svc H (N * N) :=
  out ← attempt (Command.run_optional broker exec "lxc-info" [lit "-n"; name; lit "-pH"]);
  match (match out with Ok (Some value) => parse_uint U32_MAX (trim value) | _ => None end) with
  | None => mret (0, 0)%N
  | Some pid => gets (λ h, net_dev (text ("/proc/" ++ dec pid ++ "/net/dev") h))
  end.

(** The cgroups that may be there, the first of which is read. *)
Fixpoint cgroup_stats (roots : list str) (name : str) (memory_max_bytes : N) : Svc H RawGuestStats :=
  match roots with
  | [] => mret no_stats
  | root :: roots =>
      found ← gets (exists_ root);
      if negb found then cgroup_stats roots name memory_max_bytes
      else
        memory ← gets (λ h, match read_u64_file (path_join root "memory.current") h with
                            | Some value => Some value
                            | None => read_u64_file (path_join root "memory.usage_in_bytes") h
                            end);
        cpu ← gets (parse_cpu_stat (path_join root "cpu.stat"));
        io ← gets (parse_io_stat (path_join root "io.stat"));
        net ← container_net_bytes name;
        mret (mkStats cpu (N.min (default 0%N memory) memory_max_bytes) io.1 io.2 net.1 net.2)
  end.
Definition lxc_cgroup_stats (name : str) (memory_max_bytes : N) : Svc H RawGuestStats :=
  if negb (is_ok (ensure_safe_id name)) then mret no_stats
  else cgroup_stats [path_join "/sys/fs/cgroup/lxc" name; path_join "/sys/fs/cgroup/lxc.payload" name]
         name memory_max_bytes.

Definition whole_disks (h : H) : list str :=
  match read_dir "/sys/block" h with
  | None => []
  | Some names => List.filter (λ name, negb (virtual_disk name)) names
  end.
Definition net_step (h : H) (acc : N * N) (name : str) : N * N :=
  if name =s? "lo" then acc
  else let base := path_join (path_join "/sys/class/net" name) "statistics" in
       (wrap_u64 (acc.1 + read_counter (path_join base "rx_bytes") h),
        wrap_u64 (acc.2 + read_counter (path_join base "tx_bytes") h)).
Definition net_bytes (h : H) : N * N :=
  match read_dir "/sys/class/net" h with
  | None => (0, 0)%N
  | Some names => foldl (net_step h) (0, 0)%N names
  end.

(** [Sample]: the counters at one point in time. *)
Record Sample := mkSample {
  s_cpu_busy : N; s_cpu_total : N; s_disk_read_sectors : N; s_disk_write_sectors : N;
  s_net_rx : N; s_net_tx : N }.
Definition take (disks : list str) (h : H) : Sample :=
  let cpu := cpu_times_of (text "/proc/stat" h) in
  let disk := disk_sectors_of disks (text "/proc/diskstats" h) in
  let net := net_bytes h in
  mkSample cpu.1 cpu.2 disk.1 disk.2 net.1 net.2.

Definition loadavg (h : H) : f64 * f64 * f64 :=
  let it := split_whitespace (text "/proc/loadavg" h) in
  let nth i := default f64_zero (v ← it !! i; parse_f64 v) in
  (nth 0%nat, nth 1%nat, nth 2%nat).
Definition uptime (h : H) : N :=
  default 0%N (
    s ← read_to_string "/proc/uptime" h;
    first ← head (split_whitespace s);
    f ← parse_f64 first;
    Some (trunc_u64 f)).
Definition cpu_count (h : H) : N :=
  let n := length (List.filter (starts_with "processor") (lines (text "/proc/cpuinfo" h))) in
  if (0 <? n)%nat then N.of_nat n mod 2 ^ 32
  else match parallelism with Some n => n mod 2 ^ 32 | None => 1 end.

Definition node_cpu_pct (a b : Sample) : f64 :=
  let total := (s_cpu_total b - s_cpu_total a)%N in
  let busy := (s_cpu_busy b - s_cpu_busy a)%N in
  if (0 <? total)%N then f64_mul (f64_div (f64_of busy) (f64_of total)) (f64_of 100) else f64_zero.

Definition sample_now : Svc H NodeMetrics :=
  disks ← gets whole_disks;
  a ← gets (take disks);
  started ← gets instant;
  _ ← modify (sleep SAMPLE_WINDOW);
  b ← gets (take disks);
  ended ← gets instant;
  let dt := as_secs_f64 (ended - started) in
  h ← gets id;
  let '(mem_total, mem_avail, swap_total, swap_free) := meminfo_of (text "/proc/meminfo" h) in
  mret (mkNode (to_rfc3339 (utc h)) (node_cpu_pct a b) (cpu_count h) (loadavg h) mem_total
    (mem_total - mem_avail) swap_total (swap_total - swap_free)
    (wrap_u64 (rate (s_disk_read_sectors a) (s_disk_read_sectors b) dt * 512))
    (wrap_u64 (rate (s_disk_write_sectors a) (s_disk_write_sectors b) dt * 512))
    (rate (s_net_rx a) (s_net_rx b) dt) (rate (s_net_tx a) (s_net_tx b) dt) (uptime h)).
End host.
End MetricsHost.

(** ** The service *)

Module MetricsService.
Section service.
Context `{RS : RecordStore GuestMetricsSample} {H : Type}.
Context (broker : bool) (exec : str → list str → Svc H (option str)).
Context (read_to_string : str → H → option str) (read_dir : str → H → option (list str))
  (exists_ : str → H → bool) (parallelism : option N) (sleep : N → H → H)
  (instant : H → N) (utc : H → Z) (to_rfc3339 : Z → str) (parse_f64 : str → option f64)
  (display_f64 : f64 → str).

Record state := mkState {
  cache : option (N * NodeMetrics); stream_tickets : gmap str StreamTicket;
  history_store : rstate (RecordStore:=RS); current : gmap str GuestMetricsSample;
  counters : gmap str GuestCounters; host : H }.
#[global] Instance metrics_host : HasHost state H.
Proof.
  refine {| host_of := host;
            set_host h s := mkState (cache s) (stream_tickets s) (history_store s) (current s) (counters s) h |}. done.
Defined.
Definition on_store {A} (m : Svc _ A) : Svc state A := λ s,
  let '(x, r) := m (history_store s) in
  (mkState (cache s) (stream_tickets s) x (current s) (counters s) (host s), r).
Definition set_cache (c : option (N * NodeMetrics)) : Svc state unit := modify (λ s,
  mkState c (stream_tickets s) (history_store s) (current s) (counters s) (host s)).
Definition set_tickets (t : gmap str StreamTicket) : Svc state unit := modify (λ s,
  mkState (cache s) t (history_store s) (current s) (counters s) (host s)).
Definition set_current (c : gmap str GuestMetricsSample) : Svc state unit := modify (λ s,
  mkState (cache s) (stream_tickets s) (history_store s) c (counters s) (host s)).
Definition set_counters (c : gmap str GuestCounters) : Svc state unit := modify (λ s,
  mkState (cache s) (stream_tickets s) (history_store s) (current s) c (host s)).
Definition now : Svc state N := gets (λ s, instant (host s)).
Definition now_ts : Svc state str := gets (λ s, to_rfc3339 (utc (host s))).

Definition mint_stream_ticket (user_id ticket : str) : Svc state (str * str) :=
  t ← now;
  tickets ← gets stream_tickets;
  _ ← set_tickets (<[ticket := mkStreamTicket user_id (t + STREAM_TICKET_TTL)]>
                     (filter (λ '(_, k), (t <? tk_expires_at k)%N = true) tickets));
  expires_at ← gets (λ s, to_rfc3339 (utc (host s) + Z.of_N STREAM_TICKET_TTL)%Z);
  mret (ticket, expires_at).

Definition redeem_stream_ticket (ticket : str) : Svc state (option str) :=
  t ← now;
  tickets ← gets stream_tickets;
  match tickets !! ticket with
  | Some k =>
      if (t <? tk_expires_at k)%N then
        _ ← set_tickets (delete ticket tickets); mret (Some (tk_user_id k))
      else mret None
  | None => mret None
  end.

Definition key_of (s : GuestMetricsSample) : str := sample_key (gs_scope s) (gm_id (gs_metrics s)).
Definition current_guests : Svc state (list GuestMetricsSample) :=
  gets (λ s, sort_by (λ a b, str_cmp (key_of a) (key_of b)) (values (current s))).

Definition timestamp (s : GuestMetricsSample) : str := gm_timestamp (gs_metrics s).
Definition at_most (a b : str) : bool := bool_decide (str_cmp a b ≠ Gt).
Definition when_given {A} (f : A → bool) (o : option A) : bool :=
  match o with Some x => f x | None => true end.
Definition history (scope : option MetricsScope) (guest_id from to : option str) :
    Svc state (list GuestMetricsSample) :=
  _ ← lift (match guest_id with Some id => ensure_safe_id id | None => Ok [] end);
  samples ← on_store store_list;
  mret (sort_by (λ a b, str_cmp (timestamp a) (timestamp b))
    (List.filter (λ s,
      when_given (λ wanted, bool_decide (gs_scope s = wanted)) scope
      && when_given (λ id, gm_id (gs_metrics s) =s? id) guest_id
      && when_given (λ at_, at_most at_ (timestamp s)) from
      && when_given (λ at_, at_most (timestamp s) at_) to) samples)).

(** One gauge of the export. *)
Definition gauge (name : string) (scope : string) (id value : str) : str :=
  lit name ++ "{scope=" ++ [DQUOTE] ++ lit scope ++ [DQUOTE] ++ ",guest_id=" ++ [DQUOTE] ++ id ++ [DQUOTE]
  ++ "} " ++ value ++ [10%N].
Definition prometheus_guest (s : GuestMetricsSample) : str :=
  let m := gs_metrics s in
  let id := prometheus_label (gm_id m) in
  let all scope :=
    gauge "daygleve_guest_cpu_percent" scope id (display_f64 (gm_cpu_pct m))
    ++ gauge "daygleve_guest_memory_bytes" scope id (dec (gm_memory_used_bytes m))
    ++ gauge "daygleve_guest_memory_max_bytes" scope id (dec (gm_memory_max_bytes m))
    ++ gauge "daygleve_guest_disk_read_bytes_per_second" scope id (dec (gm_disk_read_bps m))
    ++ gauge "daygleve_guest_disk_write_bytes_per_second" scope id (dec (gm_disk_write_bps m))
    ++ gauge "daygleve_guest_network_receive_bytes_per_second" scope id (dec (gm_net_rx_bps m))
    ++ gauge "daygleve_guest_network_transmit_bytes_per_second" scope id (dec (gm_net_tx_bps m)) in
  match gs_scope s with VmScope => all "vm" | LxcScope => all "lxc" | NodeScope => [] end.
Definition prometheus : Svc state str :=
  samples ← current_guests;
  mret ("# TYPE daygleve_guest_cpu_percent gauge" ++ [10%N]
        ++ "# TYPE daygleve_guest_memory_bytes gauge" ++ [10%N]
        ++ concat (map prometheus_guest samples)).

Definition node : Svc state NodeMetrics :=
  t ← now;
  cached ← gets cache;
  let fresh : Svc state NodeMetrics :=
    sample ← at_host (MetricsHost.sample_now read_to_string read_dir parallelism sleep instant utc
                        to_rfc3339 parse_f64);
    t ← now;
    _ ← set_cache (Some (t, sample));
    mret sample in
  match cached with
  | Some (at_, sample) => if (t - at_ <? CACHE_TTL)%N then mret sample else fresh
  | None => fresh
  end.

Definition make_guest_metrics (scope : MetricsScope) (id : str) (memory_max_bytes vcpus : N)
    (stats : RawGuestStats) : Svc state GuestMetrics :=
  let key := sample_key scope id in
  t ← now;
  all ← gets counters;
  _ ← set_counters (<[key := mkCounters (rs_cpu_time_ns stats) (rs_read_bytes stats) (rs_write_bytes stats)
                              (rs_rx_bytes stats) (rs_tx_bytes stats) (Some t)]> all);
  let '(dt, p) := default (f64_zero, no_counters)
    (p ← all !! key; at_ ← gc_sampled_at p; Some (as_secs_f64 (t - at_), p)) in
  ts ← now_ts;
  mret (mkMetrics id ts (guest_cpu_pct (gc_cpu_time_ns p) (rs_cpu_time_ns stats) vcpus dt)
    (N.min (rs_memory_used_bytes stats) memory_max_bytes) memory_max_bytes
    (rate (gc_read_bytes p) (rs_read_bytes stats) dt) (rate (gc_write_bytes p) (rs_write_bytes stats) dt)
    (rate (gc_rx_bytes p) (rs_rx_bytes stats) dt) (rate (gc_tx_bytes p) (rs_tx_bytes stats) dt)).

Definition record_sample (sample : GuestMetricsSample) : Svc state unit :=
  all ← gets current;
  _ ← set_current (<[key_of sample := sample]> all);
  on_store (store_put (history_key sample) sample).

(** The samples from the [index]-th on, of a list that is sorted newest first. *)
Fixpoint prune (cutoff : str) (index : nat) (samples : list GuestMetricsSample) : Svc state unit :=
  match samples with
  | [] => mret tt
  | sample :: samples =>
      _ ← (if negb (at_most cutoff (timestamp sample)) || (MAX_GUEST_SAMPLES <=? index)%nat
           then _ ← on_store (store_delete (history_key sample)); mret tt else mret tt);
      prune cutoff (S index) samples
  end.
Definition prune_history : Svc state unit :=
  samples ← on_store store_list;
  cutoff ← gets (λ s, to_rfc3339 (utc (host s) - Z.of_N GUEST_RETENTION)%Z);
  prune cutoff 0 (sort_by (λ a b, str_cmp (timestamp b) (timestamp a)) samples).

Definition vm_sample (vm : VmSummary) : Svc state MetricsEvent :=
  stats ← at_host (MetricsHost.vm_domstats broker exec (sm_id vm));
  metrics ← make_guest_metrics VmScope (sm_id vm) (sat_mul (sm_memory_mib vm) 1048576)
              (N.max (sm_vcpus vm) 1) stats;
  _ ← record_sample (mkGuestSample VmScope metrics);
  mret (mkEvent VmScope None (Some metrics)).
Definition lxc_sample (ct : LxcSummary) : Svc state MetricsEvent :=
  let memory_max := sat_mul (ls_memory_mib ct) 1048576 in
  stats ← at_host (MetricsHost.lxc_cgroup_stats broker exec read_to_string exists_ (ls_name ct) memory_max);
  metrics ← make_guest_metrics LxcScope (ls_id ct) memory_max (N.max (ls_vcpus ct) 1) stats;
  _ ← record_sample (mkGuestSample LxcScope metrics);
  mret (mkEvent LxcScope None (Some metrics)).
Fixpoint sample_all {G} (one : G → Svc state MetricsEvent) (guests : list G) : Svc state (list MetricsEvent) :=
  match guests with
  | [] => mret []
  | g :: guests => event ← one g; events ← sample_all one guests; mret (event :: events)
  end.
Definition collect_guests (vms : list VmSummary) (containers : list LxcSummary) : Svc state (list MetricsEvent) :=
  n ← node;
  vm_events ← sample_all vm_sample vms;
  lxc_events ← sample_all lxc_sample containers;
  _ ← prune_history;
  mret (mkEvent NodeScope (Some n) None :: vm_events ++ lxc_events).
End service.
End MetricsService.
