(* ===== verification/MetricsProofs.v ===== *)
(** * Metrics: what a collection reports and keeps, and what the broker hides

    A small theory of the sizes of binary64 numbers shows that a guest's share of the
    processors is a number; the theorem about a collection is a refinement of
    [collect_guests] by ticks, one per guest, followed by the pruning of the history. *)

From S2P Require Export Metrics.

(** ** Sizes of binary64 numbers

    A number [m * 2 ^ e] has the size [digits m + e], which rounding never lowers and
    which keeps a sum, a product or a quotient of positive numbers away from zero. *)

Definition digits (m : Z) : Z := Zdigits2 m.
#[global] Arguments digits : simpl never.
Definition at_least (L : Z) (x : f64) : Prop :=
  x = S754_infinity false ∨ ∃ m e, x = S754_finite false m e ∧ (L ≤ digits (Z.pos m) + e)%Z.
Definition nonneg (x : f64) : Prop :=
  match x with S754_zero b | S754_infinity b | S754_finite b _ _ => b = false | S754_nan => False end.

Lemma digits_log2 m : (0 < m)%Z → digits m = (Z.log2 m + 1)%Z.
Proof.
  destruct m as [|p|p]; try done. intros _. unfold digits, Zdigits2.
  assert (∀ p, Z.pos (digits2_pos p) = (Z.log2 (Z.pos p) + 1)%Z) as Hd; [|done].
  clear. intros p. induction p as [p IH|p IH|]; simpl digits2_pos; [| |done].
  - rewrite Pos2Z.inj_succ, IH, (Pos2Z.inj_xI p), Z.log2_succ_double by lia. lia.
  - rewrite Pos2Z.inj_succ, IH, (Pos2Z.inj_xO p), Z.log2_double by lia. lia.
Qed.
Lemma digits_mono a b : (0 < a)%Z → (a ≤ b)%Z → (digits a ≤ digits b)%Z.
Proof. intros Ha Hb. rewrite !digits_log2 by lia. pose proof (Z.log2_le_mono a b Hb). lia. Qed.
Lemma digits_mul a b : (0 < a)%Z → (0 < b)%Z → (digits a + digits b - 1 ≤ digits (a * b))%Z.
Proof. intros Ha Hb. rewrite !digits_log2 by nia. pose proof (Z.log2_mul_below a b ltac:(lia) ltac:(lia)). lia. Qed.
Lemma digits_shift a k : (0 < a)%Z → (0 ≤ k)%Z → digits (a * 2 ^ k) = (digits a + k)%Z.
Proof. intros Ha Hk. rewrite !digits_log2, Z.log2_mul_pow2 by lia. lia. Qed.
Lemma digits_pos m : (0 < m)%Z → (1 ≤ digits m)%Z.
Proof. intros Hm. rewrite digits_log2 by done. pose proof (Z.log2_nonneg m). lia. Qed.

Lemma shr_1_half r : (0 ≤ shr_m r)%Z → shr_m (shr_1 r) = (shr_m r / 2)%Z.
Proof.
  destruct r as [m a b]. simpl. destruct m as [|[p|p|]|p]; simpl; try done; try lia; intros _.
  - rewrite Pos2Z.inj_xI. symmetry. rewrite Z.mul_comm. apply (Z.div_add_l (Z.pos p) 2 1). done.
  - rewrite Pos2Z.inj_xO. symmetry. rewrite Z.mul_comm. by apply Z.div_mul.
Qed.
Lemma shr_iter p r : (0 ≤ shr_m r)%Z → shr_m (SpecFloat.iter_pos shr_1 p r) = (shr_m r / 2 ^ Z.pos p)%Z.
Proof.
  revert r. induction p as [p IH|p IH|]; intros r Hr; simpl SpecFloat.iter_pos.
  - assert (0 ≤ shr_m (shr_1 r))%Z as H1 by (rewrite shr_1_half by done; apply Z.div_pos; lia).
    rewrite IH; [|rewrite IH by done; apply Z.div_pos; lia].
    rewrite IH, shr_1_half by done.
    rewrite !Z.div_div by lia. f_equal. rewrite Pos2Z.inj_xI, Z.pow_add_r by lia. replace (2 ^ (2 * Z.pos p))%Z with (2 ^ (Z.pos p + Z.pos p))%Z by (f_equal; lia). rewrite (Z.pow_add_r 2 (Z.pos p)) by lia. lia.
  - rewrite IH; [|rewrite IH by done; apply Z.div_pos; lia]. rewrite IH by done.
    rewrite Z.div_div by lia. f_equal. rewrite <- Z.pow_add_r by lia. f_equal. lia.
  - by rewrite shr_1_half.
Qed.

(** One pass of rounding keeps the size. *)
Lemma shr_fexp_size m e l : (0 < m)%Z → (-1000 ≤ digits m + e)%Z →
  let x := shr_fexp 53 1024 m e l in
  (0 < shr_m x.1)%Z ∧ (digits (shr_m x.1) + x.2 = digits m + e)%Z ∧ (x.2 ≤ Z.max e (digits m + e - 53))%Z.
Proof.
  intros Hm HD. unfold shr_fexp. change (Zdigits2 m) with (digits m). unfold fexp, emin.
  assert (shr_m (shr_record_of_loc m l) = m) as Hr by (by destruct l as [|[]]).
  unfold shr. destruct (Z.max _ _ - e)%Z as [|p|p] eqn:En; simpl; rewrite ?Hr; [split_and!; lia| |split_and!; lia].
  rewrite shr_iter, Hr by lia. assert (Z.pos p = digits m - 53)%Z as Hp by lia.
  rewrite digits_log2 in Hp by done.
  assert (2 ^ Z.pos p ≤ m)%Z by (apply Z.log2_le_pow2; lia).
  assert (0 < m / 2 ^ Z.pos p)%Z by (apply Z.div_str_pos; lia).
  split; [done|]. split; [|rewrite digits_log2 by done; lia].
  rewrite !digits_log2 by done. rewrite <- Z.shiftr_div_pow2, Z.log2_shiftr by lia. lia.
Qed.
Lemma round_size m e l : (0 < m)%Z → (-1000 ≤ digits m + e)%Z →
  at_least (digits m + e) (binary_round_aux 53 1024 false m e l) ∧
  ((e ≤ 900)%Z → (digits m + e ≤ 900)%Z → binary_round_aux 53 1024 false m e l ≠ S754_infinity false).
Proof.
  intros Hm HD. unfold binary_round_aux. pose proof (shr_fexp_size m e l Hm HD) as H1.
  destruct (shr_fexp 53 1024 m e l) as [r e1]. cbv zeta in H1. simpl in H1. destruct H1 as (Hr & HD1 & He1).
  set (m2 := round_nearest_even _ _).
  assert (shr_m r ≤ m2 ≤ shr_m r + 1)%Z as Hm2.
  { subst m2. unfold round_nearest_even. destruct (loc_of_shr_record r) as [|[]]; try lia.
    destruct (Z.even _); lia. }
  assert (digits (shr_m r) ≤ digits m2 ≤ digits (shr_m r) + 1)%Z as Hd2.
  { split; [apply digits_mono; lia|]. rewrite !digits_log2 by lia.
    pose proof (Z.log2_le_mono m2 (shr_m r + 1) ltac:(lia)). pose proof (Z.log2_succ_le (shr_m r)) as Hs. rewrite <- Z.add_1_r in Hs. lia. }
  pose proof (shr_fexp_size m2 e1 loc_Exact ltac:(lia) ltac:(lia)) as H2.
  destruct (shr_fexp 53 1024 m2 e1 loc_Exact) as [r2 e2]. simpl in H2. destruct H2 as (Hr2 & HD2 & He2).
  destruct (shr_m r2) as [|p|p]; [lia| |lia].
  destruct (e2 <=? 1024 - 53)%Z eqn:Ele.
  - split; [|done]. right. exists p, e2. split; [done|lia].
  - apply Z.leb_gt in Ele. split; [by left|]. intros ? ?. lia.
Qed.
Lemma round_nonneg m e l : (0 ≤ m)%Z → nonneg (binary_round_aux 53 1024 false m e l).
Proof.
  intros Hm. unfold binary_round_aux.
  assert (∀ m e l, (0 ≤ m)%Z → (0 ≤ shr_m (shr_fexp 53 1024 m e l).1)%Z) as Hs.
  { clear. intros m e l Hm. unfold shr_fexp, shr.
    assert (shr_m (shr_record_of_loc m l) = m) as Hr by (by destruct l as [|[]]).
    case_match; simpl; rewrite ?Hr; [done| |done]. rewrite shr_iter, Hr by lia. apply Z.div_pos; lia. }
  pose proof (Hs m e l Hm) as H1. destruct (shr_fexp 53 1024 m e l) as [r e1]. simpl in H1.
  set (m2 := round_nearest_even _ _). assert (0 ≤ m2)%Z as Hm2.
  { subst m2. unfold round_nearest_even. destruct (loc_of_shr_record r) as [|[]]; try lia. destruct (Z.even _); lia. }
  pose proof (Hs m2 e1 loc_Exact Hm2) as H2. destruct (shr_fexp 53 1024 m2 e1 loc_Exact) as [r2 e2]. simpl in H2.
  destruct (shr_m r2) as [|p|p]; [done| |lia]. by case_match.
Qed.

Lemma iter_xO p k : Z.pos (Pos.iter xO p k) = (Z.pos p * 2 ^ Z.pos k)%Z.
Proof.
  induction k as [|k IH] using Pos.peano_ind; [simpl; lia|].
  rewrite Pos.iter_succ, Pos2Z.inj_xO, IH, Pos2Z.inj_succ, Z.pow_succ_r by lia. lia.
Qed.
(** Aligning a number to a lower exponent. *)
Lemma align_size m e e' :
  let x := shl_align m e e' in
  (digits (Z.pos x.1) + x.2 = digits (Z.pos m) + e)%Z ∧ x.2 = Z.min e e' ∧ (Z.pos m ≤ Z.pos x.1)%Z.
Proof.
  unfold shl_align. destruct (e' - e)%Z as [|p|p] eqn:E; simpl; [lia|lia|].
  pose proof (iter_xO m p) as Hi. rewrite Hi, digits_shift by lia.
  split_and!; [lia|lia|]. pose proof (Z.pow_pos_nonneg 2 (Z.pos p)). nia.
Qed.
Lemma normalize_size m e z : (0 < m)%Z → (-1000 ≤ digits m + e)%Z →
  at_least (digits m + e) (binary_normalize 53 1024 m e z) ∧
  ((e ≤ 900)%Z → (digits m + e ≤ 900)%Z → binary_normalize 53 1024 m e z ≠ S754_infinity false).
Proof.
  intros Hm HD. destruct m as [|m|m]; [lia| |lia]. unfold binary_normalize, binary_round.
  pose proof (align_size m e (fexp 53 1024 (Z.pos (digits2_pos m) + e))) as Ha.
  destruct (shl_align _ _ _) as [m1 e1]. simpl in Ha. destruct Ha as (Ha & He & _). rewrite <- Ha in *.
  destruct (round_size (Z.pos m1) e1 loc_Exact ltac:(lia) HD) as [H1 H2]. split; [done|].
  intros. apply H2; lia.
Qed.

Lemma at_least_le L L' x : (L' ≤ L)%Z → at_least L x → at_least L' x.
Proof. intros Hl [->|(m & e & -> & ?)]; [by left|]. right. exists m, e. split; [done|lia]. Qed.
Lemma at_least_nonneg L x : at_least L x → nonneg x.
Proof. by intros [->|(m & e & -> & _)]. Qed.
Lemma at_least_positive L x : at_least L x → f64_lt f64_zero x = true ∧ f64_ge f64_zero x = false.
Proof. by intros [->|(m & e & -> & _)]. Qed.

Lemma f64_of_size n : (0 < n)%N → at_least 1 (f64_of n).
Proof.
  intros Hn. unfold f64_of. destruct (normalize_size (Z.of_N n) 0 false) as [Ha _]; [lia| |].
  - pose proof (digits_pos (Z.of_N n) ltac:(lia)). lia.
  - eapply at_least_le; [|exact Ha]. pose proof (digits_pos (Z.of_N n) ltac:(lia)). lia.
Qed.
Lemma f64_of_finite n : (n ≤ U64_MAX)%N → nonneg (f64_of n) ∧ f64_of n ≠ S754_infinity false.
Proof.
  intros Hn. destruct (decide (n = 0%N)) as [->|Hz]; [done|]. split; [by eapply at_least_nonneg, f64_of_size; lia|].
  assert (digits (Z.of_N n) ≤ 64)%Z.
  { transitivity (digits (Z.of_N U64_MAX)); [apply digits_mono; lia|by vm_compute]. }
  pose proof (digits_pos (Z.of_N n) ltac:(lia)).
  unfold f64_of. apply normalize_size; lia.
Qed.
Lemma mul_size L L' x y : at_least L x → at_least L' y → (-1000 ≤ L + L' - 1)%Z →
  at_least (L + L' - 1) (f64_mul x y).
Proof.
  intros [->|(m & e & -> & Hm)] [->|(m' & e' & -> & Hm')] Hl; [by left..|].
  unfold f64_mul, SFmul. simpl xorb.
  pose proof (digits_mul (Z.pos m) (Z.pos m') ltac:(lia) ltac:(lia)) as Hd. rewrite <- Pos2Z.inj_mul in Hd.
  eapply at_least_le; [|apply round_size; lia]. lia.
Qed.
Lemma mul_nonneg L x y : nonneg x → at_least L y → nonneg (f64_mul x y) ∨ x = f64_zero ∧ y = S754_infinity false.
Proof.
  intros Hx [->|(m & e & -> & _)]; destruct x as [[]|[]| |[] mx ex]; try done; try (by left); [by right|].
  left. unfold f64_mul, SFmul. simpl xorb. by apply round_nonneg.
Qed.
Lemma div_nonneg L x y : nonneg x → x ≠ S754_infinity false → at_least L y → nonneg (f64_div x y).
Proof.
  intros Hx Hi [->|(m & e & -> & _)]; destruct x as [[]|[]| |[] mx ex]; try done.
  unfold f64_div, SFdiv, SFdiv_core_binary. simpl xorb.
  match goal with |- context [Z.div_eucl ?a ?b] => pose proof (Z.div_pos a b) as Hp; unfold Z.div in Hp;
    assert (0 ≤ a)%Z as Ha; [|destruct (Z.div_eucl a b)] end.
  - case_match; [lia| |lia]. by apply Z.shiftl_nonneg.
  - apply round_nonneg, Hp; lia.
Qed.
Lemma div_size m e m' e' : 
  let D := (digits (Z.pos m) + e - (digits (Z.pos m') + e'))%Z in (-1000 ≤ D)%Z →
  at_least D (f64_div (S754_finite false m e) (S754_finite false m' e')).
Proof.
  intros D HD. unfold f64_div, SFdiv, SFdiv_core_binary. simpl xorb.
  change (Zdigits2 (Z.pos m)) with (digits (Z.pos m)). change (Zdigits2 (Z.pos m')) with (digits (Z.pos m')).
  unfold fexp, emin. set (e1 := Z.min _ _). set (s := (e - e' - e1)%Z).
  assert (0 ≤ s)%Z as Hs by lia.
  assert (match s with Z.pos _ => Z.shiftl (Z.pos m) s | Z0 => Z.pos m | Z.neg _ => 0%Z end = (Z.pos m * 2 ^ s)%Z) as ->.
  { destruct s; [lia|by rewrite Z.shiftl_mul_pow2|lia]. }
  pose proof (digits_shift (Z.pos m) s ltac:(lia) Hs) as Hd. set (a := (Z.pos m * 2 ^ s)%Z) in *.
  assert (0 < a)%Z as Ha by (subst a; pose proof (Z.pow_pos_nonneg 2 s); lia).
  assert (0 ≤ digits a - 1 - digits (Z.pos m'))%Z as Hk by (rewrite Hd; subst s e1; lia).
  assert (2 ^ (digits a - 1 - digits (Z.pos m')) ≤ a / Z.pos m')%Z as Hq.
  { apply Z.div_le_lower_bound; [lia|]. clearbody a. clear Hd HD Hs. clear s e1 D. rewrite !digits_log2 in * by lia.
    pose proof (Z.log2_spec a Ha) as [Hlo _]. pose proof (Z.log2_spec (Z.pos m') ltac:(lia)) as [_ Hhi].
    rewrite <- Z.add_1_r in Hhi.
    transitivity (2 ^ (Z.log2 (Z.pos m') + 1) * 2 ^ (Z.log2 a + 1 - 1 - (Z.log2 (Z.pos m') + 1)))%Z.
    - apply Z.mul_le_mono_nonneg_r; [apply Z.pow_nonneg; lia|lia].
    - rewrite <- Z.pow_add_r by (pose proof (Z.log2_nonneg (Z.pos m')); lia).
      replace (_ + _)%Z with (Z.log2 a) by lia. lia. }
  unfold Z.div in Hq. destruct (Z.div_eucl a (Z.pos m')) as [q r] eqn:Eq.
  assert (digits a - digits (Z.pos m') ≤ digits q)%Z as Hdq.
  { pose proof (Z.pow_pos_nonneg 2 (digits a - 1 - digits (Z.pos m')) ltac:(lia) ltac:(lia)).
    rewrite (digits_log2 q) by lia. apply Z.log2_le_mono in Hq. rewrite Z.log2_pow2 in Hq by lia. lia. }
  assert (0 < q)%Z.
  { pose proof (Z.pow_pos_nonneg 2 (digits a - 1 - digits (Z.pos m')) ltac:(lia) ltac:(lia)). lia. }
  eapply at_least_le; [|apply round_size; lia]. lia.
Qed.
Lemma add_size L x y : (-1000 ≤ L)%Z → (at_least L x ∧ nonneg y) ∨ (nonneg x ∧ at_least L y) →
  at_least L (f64_add x y).
Proof.
  intros HL Hxy. assert (nonneg x ∧ nonneg y) as [Hx Hy].
  { destruct Hxy as [[? ?]|[? ?]]; split; eauto using at_least_nonneg. }
  destruct x as [[]|[]| |[] m e], y as [[]|[]| |[] m' e']; try done; unfold f64_add, SFadd;
    try (by left);
    try (destruct Hxy as [[Ha _]|[_ Ha]]; first [exact Ha|by destruct Ha as [Ha|(? & ? & Ha & _)]]).
  simpl cond_Zopp.
  destruct (align_size m e (Z.min e e')) as (Hd & He & _), (align_size m' e' (Z.min e e')) as (Hd' & He' & _).
  destruct (shl_align m _ _) as [a ea], (shl_align m' _ _) as [a' ea']. simpl in *.
  assert (L ≤ digits (Z.pos (a + a')) + Z.min e e')%Z.
  { pose proof (digits_mono (Z.pos a) (Z.pos (a + a')) ltac:(lia) ltac:(lia)).
    pose proof (digits_mono (Z.pos a') (Z.pos (a + a')) ltac:(lia) ltac:(lia)).
    destruct Hxy as [[[Hx'|(? & ? & Hx' & ?)] _]|[_ [Hx'|(? & ? & Hx' & ?)]]]; try discriminate Hx'; injection Hx' as <- <-; lia. }
  eapply at_least_le; [|apply (normalize_size (Z.pos (a + a')) (Z.min e e') false); lia]. lia.
Qed.

(** A duration that is not zero is a positive number of seconds. *)
Lemma as_secs_size n : (0 < n)%N → at_least (-29) (as_secs_f64 n).
Proof.
  intros Hn. unfold as_secs_f64. assert (at_least 30 (f64_of 1000000000)) as Hb 
    by (right; do 2 eexists; split; [by vm_compute|by vm_compute]).
  assert (n mod 1000000000 < 1000000000)%N as Hr by (apply N.mod_lt; lia).
  destruct (f64_of_finite (n mod 1000000000)) as [Hn1 Hi]; [unfold U64_MAX; lia|].
  apply add_size; [lia|]. destruct (decide (n / 1000000000 = 0)%N) as [Hq|Hq].
  - right. rewrite Hq. split; [done|]. pose proof (N.div_mod n 1000000000).
    destruct (f64_of_size (n mod 1000000000)) as [?|(m & e & -> & Hm)]; [lia|done|].
    replace (f64_of 1000000000) with (S754_finite false (8388608000000000)%positive (-23)%Z) by by vm_compute.
    assert (digits (Z.pos 8388608000000000) = 53)%Z as H53 by by vm_compute.
    pose proof (div_size m e 8388608000000000 (-23)) as Hd. cbv zeta in Hd. rewrite H53 in Hd.
    eapply at_least_le; [|apply Hd; lia]. lia.
  - left. split; [apply (at_least_le 1); [lia|apply f64_of_size, N.neq_0_lt_0, Hq]|]. eapply div_nonneg; [done|done|exact Hb].
Qed.

(** ** Samples *)

Lemma nonneg_ge x : nonneg x → f64_ge x f64_zero = true.
Proof. destruct x as [[]|[]| |[] m e]; simpl; done. Qed.
Lemma not_above_100 x : nonneg x → f64_lt (f64_of 100) x = false → f64_ge (f64_of 100) x = true.
Proof.
  replace (f64_of 100) with (S754_finite false 7036874417766400 (-46)) by by vm_compute.
  generalize 7036874417766400%positive (-46)%Z. intros M E.
  unfold f64_lt, f64_ge, SFltb, SFleb. destruct x as [[]|[]| |[] m e]; try done. intros _. cbn [SFcompare].
  rewrite (Z.compare_antisym e E). destruct (e ?= E)%Z; cbn [CompOpp]; try done.
  change (Pos.compare_cont Eq M m) with (M ?= m)%positive.
  change (Pos.compare_cont Eq m M) with (m ?= M)%positive.
  rewrite (Pos.compare_antisym m M). by destruct (m ?= M)%positive.
Qed.

(** The share of the processors that a guest had between two readings, in per cent. *)
Definition cpu_share (used elapsed vcpus : N) : f64 :=
  f64_mul (f64_div (f64_of used) (f64_mul (f64_mul (as_secs_f64 elapsed) (f64_of 1000000000)) (f64_of vcpus)))
    (f64_of 100).
Lemma cpu_share_nonneg used elapsed vcpus :
  (0 < elapsed)%N → (0 < vcpus)%N → (used <= U64_MAX)%N → nonneg (cpu_share used elapsed vcpus).
Proof.
  intros He Hv Hu. unfold cpu_share. destruct (f64_of_finite _ Hu) as [Hn Hi].
  assert (at_least 30 (f64_of 1000000000)) as Hb
    by (right; do 2 eexists; split; [by vm_compute|by vm_compute]).
  pose proof (mul_size _ _ _ _ (as_secs_size _ He) Hb ltac:(lia)) as H1.
  pose proof (mul_size _ _ _ _ H1 (f64_of_size _ Hv) ltac:(lia)) as H2.
  assert (at_least 7 (f64_of 100)) as H100 by (right; do 2 eexists; split; [by vm_compute|by vm_compute]).
  destruct (mul_nonneg _ _ _ (div_nonneg _ _ _ Hn Hi H2) H100) as [?|[_ Hno]]; [done|by vm_compute in Hno].
Qed.
(** A share that is a number between 0 and 100, not NaN. *)
Definition percentage (x : f64) : Prop :=
  is_finite x = true ∧ f64_ge x f64_zero = true ∧ f64_ge (f64_of 100) x = true.
Lemma guest_cpu_pct_share before after vcpus elapsed :
  (0 < elapsed)%N → (0 < vcpus)%N → (after <= U64_MAX)%N →
  let share := cpu_share (after - before) elapsed vcpus in
  let pct := guest_cpu_pct before after vcpus (as_secs_f64 elapsed) in
  percentage pct ∧ pct = if f64_lt (f64_of 100) share then f64_of 100 else share.
Proof.
  intros He Hv Ha share pct. pose proof (cpu_share_nonneg (after - before) elapsed vcpus He Hv ltac:(lia)) as Hs.
  fold share in Hs. assert (pct = if f64_lt (f64_of 100) share then f64_of 100 else share) as Hp.
  { unfold pct, guest_cpu_pct. rewrite (proj1 (at_least_positive _ _ (as_secs_size _ He))).
    change (clamp f64_zero (f64_of 100) share = if f64_lt (f64_of 100) share then f64_of 100 else share).
    unfold clamp. replace (f64_lt share f64_zero) with false; [done|]. by destruct share as [[]|[]| |[] m e]. }
  split; [|done]. rewrite Hp. destruct (f64_lt (f64_of 100) share) eqn:E; [by vm_compute|].
  pose proof (not_above_100 _ Hs E) as Hle. split_and!; [|by apply nonneg_ge|done].
  clearbody share. destruct share as [|[]| |]; try done; by vm_compute in Hle.
Qed.

(** What a sample of a guest says, of the counters [prev] of the last tick and of those
    just read at the time [now]: the memory is within the guest's; without an earlier
    reading, or when the clock has not moved, nothing was used; otherwise every rate is
    that of its own counter over the time that passed, none when the counter was
    reset. *)
Definition sampled (prev : option GuestCounters) (now : N) (st : RawGuestStats) (memory_max vcpus : N)
    (m : GuestMetrics) : Prop :=
  gm_memory_used_bytes m = N.min (rs_memory_used_bytes st) memory_max ∧ gm_memory_max_bytes m = memory_max ∧
  percentage (gm_cpu_pct m) ∧
  match (p ← prev; at_ ← gc_sampled_at p; if (at_ <? now)%N then Some (p, (now - at_)%N) else None) with
  | None => gm_cpu_pct m = f64_zero ∧ gm_disk_read_bps m = 0%N ∧ gm_disk_write_bps m = 0%N ∧
      gm_net_rx_bps m = 0%N ∧ gm_net_tx_bps m = 0%N
  | Some (p, elapsed) =>
      let per_second before after := round_u64 (f64_div (f64_of (after - before)) (as_secs_f64 elapsed)) in
      let share := cpu_share (rs_cpu_time_ns st - gc_cpu_time_ns p) elapsed vcpus in
      gm_cpu_pct m = (if f64_lt (f64_of 100) share then f64_of 100 else share) ∧
      gm_disk_read_bps m = per_second (gc_read_bytes p) (rs_read_bytes st) ∧
      gm_disk_write_bps m = per_second (gc_write_bytes p) (rs_write_bytes st) ∧
      gm_net_rx_bps m = per_second (gc_rx_bytes p) (rs_rx_bytes st) ∧
      gm_net_tx_bps m = per_second (gc_tx_bytes p) (rs_tx_bytes st)
  end.

(** A counter that was reset counts as no traffic. *)
Lemma rate_reset a b secs : (b <= a)%N → rate a b secs = 0%N.
Proof.
  intros Hle. unfold rate. destruct (f64_ge f64_zero secs) eqn:E; [done|].
  replace (b - a)%N with 0%N by lia. by destruct secs as [| [] | | []].
Qed.
Lemma rate_elapsed a b elapsed : (0 < elapsed)%N →
  rate a b (as_secs_f64 elapsed) = round_u64 (f64_div (f64_of (b - a)) (as_secs_f64 elapsed)).
Proof. intros He. unfold rate. by rewrite (proj2 (at_least_positive _ _ (as_secs_size _ He))). Qed.

(** The processor time that is read fits a [u64]. *)
Lemma domstats_cpu out : (rs_cpu_time_ns (parse_domstats out) <= U64_MAX)%N.
Proof.
  unfold parse_domstats. assert (rs_cpu_time_ns no_stats <= U64_MAX)%N as H0 by by vm_compute. revert H0.
  generalize no_stats. induction (lines out) as [|l ls IH]; intros st Hst; simpl; [done|]. apply IH.
  unfold domstats_line. destruct st as [cpu mem rd wr rx tx]. simpl in Hst.
  destruct (split_once _ _) as [[key value]|]; [|done]. cbv zeta. repeat case_match; try done.
  simpl. unfold sat_add. lia.
Qed.

(** ** Tickets of the metrics stream *)

Module MetricsServiceProofs.
Section service.
Context `{RS : RecordStore GuestMetricsSample} {H : Type}.
Context (broker : bool) (exec : str → list str → Svc H (option str)).
Context (read_to_string : str → H → option str) (read_dir : str → H → option (list str))
  (exists_ : str → H → bool) (parallelism : option N) (sleep : N → H → H)
  (instant : H → N) (utc : H → Z) (to_rfc3339 : Z → str) (parse_f64 : str → option f64).
Abbreviation state := (MetricsService.state (RS:=RS) (H:=H)).
Abbreviation history_store := (MetricsService.history_store (RS:=RS) (H:=H)).
Abbreviation collect_guests := (MetricsService.collect_guests (RS:=RS) broker exec read_to_string read_dir exists_
  parallelism sleep instant utc to_rfc3339 parse_f64).
Implicit Types s : state.

Lemma stream_ticket_once ticket s s1 s2 user r :
  MetricsService.redeem_stream_ticket instant ticket s = (s1, Ok (Some user)) →
  MetricsService.redeem_stream_ticket instant ticket s1 = (s2, r) →
  (∃ k, MetricsService.stream_tickets s !! ticket = Some k ∧ tk_user_id k = user ∧
     (instant (MetricsService.host s) < tk_expires_at k)%N) ∧ r = Ok None.
Proof.
  unfold MetricsService.redeem_stream_ticket, MetricsService.now.
  unfold mbind, svc_bind, gets, MetricsService.set_tickets, modify, mret, svc_ret.
  destruct (MetricsService.stream_tickets s !! ticket) as [k|] eqn:E; [|done].
  destruct (instant (MetricsService.host s) <? tk_expires_at k)%N eqn:Et; [|done].
  apply N.ltb_lt in Et. intros [= <- <-]. cbn [MetricsService.stream_tickets].
  rewrite lookup_delete_eq. intros [= _ <-]. eauto.
Qed.

(** ** The history *)

(** Every record is kept under the key of its sample. *)
Definition history_keyed s : Prop :=
  ∀ k v, record (history_store s) k = Some v → k = history_key v.

(** A step that leaves the history alone, and what is known of the others. *)
Lemma quiet_keeps {A} (m : Svc state A) :
  (∀ s, history_store (m s).1 = history_store s) → keeps history_keyed m.
Proof. intros Hm s s' r E Hk. specialize (Hm s). rewrite E in Hm. cbn [fst] in Hm. unfold history_keyed. by rewrite Hm. Qed.
Lemma put_keeps sample :
  keeps history_keyed (MetricsService.on_store (store_put (history_key sample) sample)).
Proof.
  intros s s' r. unfold MetricsService.on_store.
  destruct (store_put _ _ _) as [x y] eqn:E. intros [= <- <-] Hk k v. cbn.
  destruct y as [[]|e].
  - rewrite (put_ok _ _ _ _ E). case_decide as Hd; [|apply Hk]. by intros [= <-].
  - rewrite (put_err _ _ _ _ _ E). apply Hk.
Qed.
Lemma history_delete_spec key s s' r :
  MetricsService.on_store (store_delete key) s = (s', r) →
  MetricsService.host s' = MetricsService.host s ∧
  ∀ k, record (history_store s') k =
    if is_ok r && bool_decide (k = key) then None else record (history_store s) k.
Proof.
  unfold MetricsService.on_store. destruct (store_delete _ _) as [x y] eqn:E. intros [= <- <-].
  split; [done|]. intros k. cbn. destruct y as [b|e]; cbn.
  - rewrite (delete_ok _ _ _ _ E). case_decide as Hd; by rewrite ?bool_decide_true, ?bool_decide_false by done.
  - apply (delete_err _ _ _ _ E).
Qed.

(** What pruning does to the samples [l], of which the first has the given index. *)
Definition old cutoff (sample : GuestMetricsSample) (index : nat) : bool :=
  negb (MetricsService.at_most cutoff (MetricsService.timestamp sample)) || (MAX_GUEST_SAMPLES <=? index)%nat.
Lemma history_prune_spec cutoff index l s s' :
  MetricsService.prune cutoff index l s = (s', Ok tt) →
  MetricsService.host s' = MetricsService.host s ∧
  ∀ k v, record (history_store s') k = Some v ↔
    record (history_store s) k = Some v ∧
    ∀ i x, l !! i = Some x → old cutoff x (index + i) = true → k ≠ history_key x.
Proof.
  revert index s. induction l as [|x l IH]; intros index s E.
  { cbn in E. injection E as <-. split; [done|]. intros k v. split; [|by intros []]. by intros Hk; split. }
  cbn [MetricsService.prune] in E. apply svc_bind_ok in E as (s1 & [] & E1 & E).
  apply IH in E as [Hh Hr]. change (_ || _)%bool with (old cutoff x index) in E1.
  assert (MetricsService.host s1 = MetricsService.host s ∧ ∀ k, record (history_store s1) k =
    if old cutoff x index && bool_decide (k = history_key x) then None else record (history_store s) k) as [Hh1 H1].
  { destruct (old cutoff x index).
    - apply svc_bind_ok in E1 as (s2 & b & E1 & [= <-]). by apply history_delete_spec in E1.
    - injection E1 as <-. by split. }
  split; [by rewrite Hh|]. intros k v. rewrite Hr, H1. split.
  - intros [Hv Hl]. destruct (old cutoff x index && bool_decide (k = history_key x)) eqn:Ed; [done|].
    split; [done|]. intros [|i] y Hy Hold.
    + injection Hy as ->. rewrite Nat.add_0_r in Hold. rewrite Hold in Ed. simpl in Ed.
      by apply bool_decide_eq_false in Ed.
    + apply (Hl i); [done|]. by rewrite Nat.add_succ_comm.
  - intros [Hv Hl]. rewrite Hv. split.
    + destruct (old cutoff x index) eqn:Eo; [|done]. rewrite bool_decide_false; [done|].
      apply (Hl 0%nat); [done|]. by rewrite Nat.add_0_r.
    + intros i y Hy Hold. apply (Hl (S i)); [done|]. by rewrite <- Nat.add_succ_comm.
Qed.
Lemma prune_history_spec s s' : history_keyed s → MetricsService.prune_history utc to_rfc3339 s = (s', Ok tt) →
  let cutoff := to_rfc3339 (utc (MetricsService.host s') - Z.of_N GUEST_RETENTION)%Z in
  let kept k v := record (history_store s') k = Some v in
  (∀ k v, kept k v → record (history_store s) k = Some v ∧ MetricsService.at_most cutoff (MetricsService.timestamp v) = true) ∧
  (∀ ks, NoDup ks → Forall (λ k, ∃ v, kept k v) ks → (length ks ≤ MAX_GUEST_SAMPLES)%nat) ∧
  (∀ k v, record (history_store s) k = Some v → MetricsService.at_most cutoff (MetricsService.timestamp v) = true →
     kept k v ∨ ∃ l, NoDup l ∧ (MAX_GUEST_SAMPLES ≤ length l)%nat ∧ Forall (λ w, (∃ j, record (history_store s) j = Some w) ∧
       MetricsService.at_most (MetricsService.timestamp v) (MetricsService.timestamp w) = true) l).
Proof.
  intros Hk E. unfold MetricsService.prune_history in E.
  apply svc_bind_ok in E as (s1 & vs & E1 & E). apply svc_bind_ok in E as (s2 & cutoff & [= <- <-] & E).
  assert (MetricsService.host s1 = MetricsService.host s ∧ (∀ k, record (history_store s1) k = record (history_store s) k)
    ∧ (∀ v, v ∈ vs ↔ ∃ k, record (history_store s) k = Some v) ∧ NoDup vs) as (Hh1 & H1 & Hvs & Hnd).
  { unfold MetricsService.on_store in E1. destruct (store_list _) as [x y] eqn:El. injection E1 as <- ->.
    split; [done|]. split; [intros k; by eapply list_keeps|]. split; [by eapply list_ok|].
    apply list_once in El as (ids & Hids & Hall). apply (NoDup_fmap_1 history_key).
    replace (history_key <$> vs) with ids; [done|].
    clear -Hk Hall. induction Hall as [|k v ids vs Hv _ IH]; [done|]. cbn. by rewrite <- IH, (Hk _ _ Hv). }
  apply history_prune_spec in E as [Hh Hr]. rewrite Hh. cbv zeta.
  set (cmp := λ a b, str_cmp (MetricsService.timestamp b) (MetricsService.timestamp a)) in *.
  set (sorted := sort_by cmp vs) in *.
  set (cutoff := to_rfc3339 _) in *.
  assert (Hin : ∀ k v, record (history_store s') k = Some v →
    record (history_store s) k = Some v ∧ ∃ i, sorted !! i = Some v ∧ old cutoff v i = false).
  { intros k v [Hv Hl]%Hr. rewrite H1 in Hv. split; [done|].
    assert (v ∈ sorted) as [i Hi]%list_elem_of_lookup by (apply elem_of_sort_by, Hvs; eauto).
    exists i. split; [done|]. destruct (old cutoff v i) eqn:Eo; [|done].
    destruct (Hl i v Hi Eo). by apply Hk. }
  split_and!.
  - intros k v (Hv & i & _ & Hi)%Hin. split; [done|]. apply orb_false_iff in Hi as [Hi _].
    by apply negb_false_iff in Hi.
  - intros ks Hnd' Hks. transitivity (length (map history_key (take MAX_GUEST_SAMPLES sorted))).
    + apply submseteq_length, NoDup_submseteq; [done|]. intros k Hkin.
      eapply Forall_forall in Hks as [v Hv]; [|done]. apply Hin in Hv as (Hv & i & Hi & Ho).
      apply orb_false_iff in Ho as [_ Ho]. apply Nat.leb_gt in Ho.
      apply list_elem_of_fmap. exists v. split; [by apply Hk|].
      apply list_elem_of_lookup. exists i. by rewrite lookup_take_lt.
    + rewrite length_map, length_take. lia.
  - intros k v Hv Hfresh. destruct (record (history_store s') k) as [w|] eqn:Ew.
    { left. apply Hin in Ew as [Ew _]. congruence. }
    right. assert (Hno : ¬ ∀ i x, sorted !! i = Some x → old cutoff x i = true → k ≠ history_key x).
    { intros Hl. assert (record (history_store s') k = Some v) as E2 by (apply Hr; by rewrite H1). congruence. }
    assert (Hex : Exists (λ ix, old cutoff ix.2 ix.1 = true ∧ k = history_key ix.2) (imap pair sorted)).
    { apply dec_stable. intros Hx. apply Hno. intros i x Hi Ho ->. apply Hx, Exists_exists.
      exists (i, x). split; [|done]. apply elem_of_lookup_imap. eauto. }
    apply Exists_exists in Hex as ([i x] & Hix & Ho & ->). cbn [fst snd] in *.
    apply elem_of_lookup_imap in Hix as (i' & x' & [= -> ->] & Hi).
    assert (x' = v) as ->.
    { assert (x' ∈ vs) as [j Hj]%Hvs by (apply (elem_of_sort_by cmp), list_elem_of_lookup; eauto).
      rewrite (Hk _ _ Hj) in Hj. congruence. }
    unfold old in Ho. rewrite Hfresh in Ho. cbn [negb orb] in Ho. apply Nat.leb_le in Ho.
    exists (take i' sorted). split_and!.
    + apply (NoDup_app _ (drop i' sorted)). rewrite take_drop. unfold sorted. by rewrite sort_by_perm.
    + rewrite length_take. apply lookup_lt_Some in Hi. lia.
    + apply Forall_forall. intros w Hw. split.
      * apply Hvs, (elem_of_sort_by cmp). by eapply subseteq_take.
      * apply bool_decide_eq_true. change (cmp w v ≠ Gt).
        apply (sorted_take_drop (λ a b, cmp a b ≠ Gt) sorted i'); [|done|].
        -- apply sort_by_sorted; unfold cmp; [intros a b; apply str_cmp_total|].
           intros a b c Hab Hbc. by eapply str_cmp_trans.
        -- apply list_elem_of_lookup. exists 0%nat. by rewrite lookup_drop, Nat.add_0_r.
Qed.
Lemma on_store_counters {A} (m : Svc _ A) s s' r :
  MetricsService.on_store (H:=H) m s = (s', r) → MetricsService.counters s' = MetricsService.counters s.
Proof. unfold MetricsService.on_store. destruct (m _). by intros [= <- _]. Qed.
Lemma prune_counters cutoff i l s s' : MetricsService.prune cutoff i l s = (s', Ok tt) →
  MetricsService.counters s' = MetricsService.counters s.
Proof.
  revert s i. induction l as [|x l IH]; intros s i E; [by injection E as <-|].
  cbn [MetricsService.prune] in E. apply svc_bind_ok in E as (s1 & [] & E1 & E). rewrite (IH _ _ E).
  destruct (_ || _)%bool; [|by injection E1 as <-].
  apply svc_bind_ok in E1 as (s2 & b & E1 & [= <-]). by apply on_store_counters in E1.
Qed.
Lemma prune_history_counters s s' : MetricsService.prune_history utc to_rfc3339 s = (s', Ok tt) →
  MetricsService.counters s' = MetricsService.counters s.
Proof.
  intros (s1 & vs & E1 & (s2 & cutoff & [= <- <-] & E)%svc_bind_ok)%svc_bind_ok.
  rewrite <- (on_store_counters _ _ _ _ E1). by eapply prune_counters.
Qed.

(** ** A collection *)

(** What a tick asks of one guest. *)
Record Guest := mkGuest {
  g_scope : MetricsScope; g_id : str; g_memory_max : N; g_vcpus : N; g_read : Svc H RawGuestStats }.
Definition vm_guest (vm : VmSummary) : Guest :=
  mkGuest VmScope (sm_id vm) (sat_mul (sm_memory_mib vm) 1048576) (N.max (sm_vcpus vm) 1)
    (MetricsHost.vm_domstats broker exec (sm_id vm)).
Definition lxc_guest (ct : LxcSummary) : Guest :=
  let memory_max := sat_mul (ls_memory_mib ct) 1048576 in
  mkGuest LxcScope (ls_id ct) memory_max (N.max (ls_vcpus ct) 1)
    (MetricsHost.lxc_cgroup_stats broker exec read_to_string exists_ (ls_name ct) memory_max).

(** The sample of one guest: its counters are read, the event says what they amount to
    since those of the last tick, they are kept for the next one, and the sample is put
    into the history. *)
Definition tick (g : Guest) s s' (e : MetricsEvent) : Prop :=
  ∃ st m, g_read g (MetricsService.host s) = (MetricsService.host s', Ok st) ∧
    e = mkEvent (g_scope g) None (Some m) ∧ gm_id m = g_id g ∧
    gm_timestamp m = to_rfc3339 (utc (MetricsService.host s')) ∧
    (let key := sample_key (g_scope g) (g_id g) in let now := instant (MetricsService.host s') in
     sampled (MetricsService.counters s !! key) now st (g_memory_max g) (g_vcpus g) m ∧
     MetricsService.counters s' = <[key := mkCounters (rs_cpu_time_ns st) (rs_read_bytes st) (rs_write_bytes st)
       (rs_rx_bytes st) (rs_tx_bytes st) (Some now)]> (MetricsService.counters s)) ∧
    let sample := mkGuestSample (g_scope g) m in
    ∀ k, record (history_store s') k = if decide (k = history_key sample) then Some sample
                                        else record (history_store s) k.
Fixpoint guest_ticks (gs : list Guest) s s' (es : list MetricsEvent) : Prop :=
  match gs, es with
  | [], [] => s' = s
  | g :: gs, e :: es => ∃ s1, tick g s s1 e ∧ guest_ticks gs s1 s' es
  | _, _ => False
  end.
Lemma guest_ticks_app gs gs' s s1 s' es es' : guest_ticks gs s s1 es → guest_ticks gs' s1 s' es' → guest_ticks (gs ++ gs') s s' (es ++ es').
Proof.
  revert s es. induction gs as [|g gs IH]; intros s [|e es]; simpl; try done; [by intros ->|].
  intros (s0 & Ht & Hs) H'. exists s0. split; [done|]. by apply IH.
Qed.

Lemma make_metrics_spec scope id memory_max vcpus stats s s' m :
  (0 < vcpus)%N → (rs_cpu_time_ns stats <= U64_MAX)%N →
  MetricsService.make_guest_metrics instant utc to_rfc3339 scope id memory_max vcpus stats s = (s', Ok m) →
  let key := sample_key scope id in let now := instant (MetricsService.host s) in
  MetricsService.host s' = MetricsService.host s ∧ history_store s' = history_store s ∧ gm_id m = id ∧
  gm_timestamp m = to_rfc3339 (utc (MetricsService.host s)) ∧
  sampled (MetricsService.counters s !! key) now stats memory_max vcpus m ∧
  MetricsService.counters s' = <[key := mkCounters (rs_cpu_time_ns stats) (rs_read_bytes stats)
    (rs_write_bytes stats) (rs_rx_bytes stats) (rs_tx_bytes stats) (Some now)]> (MetricsService.counters s).
Proof.
  intros Hv Hu. unfold MetricsService.make_guest_metrics, MetricsService.now, MetricsService.now_ts, MetricsService.set_counters.
  unfold mbind at 1 2 3, svc_bind at 1 2 3, gets at 1 2, modify. cbv zeta.
  set (prev := MetricsService.counters s !! sample_key scope id).
  set (now := instant (MetricsService.host s)).
  destruct (default _ _) as [dt p] eqn:Ed. unfold mbind, svc_bind, gets, mret, svc_ret. intros [= <- <-].
  split_and!; try done. unfold sampled. cbn [gm_memory_used_bytes gm_memory_max_bytes gm_cpu_pct
    gm_disk_read_bps gm_disk_write_bps gm_net_rx_bps gm_net_tx_bps].
  assert (percentage f64_zero) as Hz by by vm_compute.
  assert (∀ a b c, guest_cpu_pct a b c f64_zero = f64_zero) as Hc by done.
  assert (∀ a b, rate a b f64_zero = 0%N) as Hr by done.
  split; [done|]. split; [done|].
  destruct prev as [q|]; simpl in Ed |- *; [|injection Ed as <- <-; rewrite !Hc, !Hr; by split_and!].
  destruct (gc_sampled_at q) as [at_|]; simpl in Ed |- *; [|injection Ed as <- <-; rewrite !Hc, !Hr; by split_and!].
  injection Ed as <- <-. destruct (at_ <? now)%N eqn:Et; simpl.
  - apply N.ltb_lt in Et. rewrite !rate_elapsed by lia.
    pose proof (guest_cpu_pct_share (gc_cpu_time_ns q) (rs_cpu_time_ns stats) vcpus (now - at_) ltac:(lia) Hv Hu) as [Hp Hs].
    by split_and!.
  - apply N.ltb_ge in Et. replace (now - at_)%N with 0%N by lia.
    change (as_secs_f64 0) with f64_zero. rewrite !Hc, !Hr. by split_and!.
Qed.
Lemma keyed_make scope id memory_max vcpus stats :
  keeps history_keyed (MetricsService.make_guest_metrics (RS:=RS) instant utc to_rfc3339 scope id memory_max vcpus stats).
Proof.
  apply quiet_keeps. intros s.
  unfold MetricsService.make_guest_metrics, MetricsService.now, MetricsService.now_ts, MetricsService.set_counters.
  unfold mbind at 1 2 3, svc_bind at 1 2 3, gets at 1 2, modify. by destruct (default _ _) as [dt p].
Qed.
Lemma keyed_record sample : keeps history_keyed (MetricsService.record_sample sample).
Proof.
  apply keeps_bind; [by apply quiet_keeps|]. intros all.
  apply keeps_bind; [by apply quiet_keeps|]. intros _. apply put_keeps.
Qed.
Lemma keyed_host {A} (m : Svc H A) : keeps history_keyed (at_host m).
Proof. apply quiet_keeps. intros s. unfold at_host. by destruct (m (host_of s)). Qed.
Hint Resolve keyed_make keyed_record keyed_host : daygle.

(** The body that the samples of machines and containers share. *)
Definition sample_guest (g : Guest) : Svc state MetricsEvent :=
  stats ← at_host (g_read g);
  metrics ← MetricsService.make_guest_metrics instant utc to_rfc3339 (g_scope g) (g_id g) (g_memory_max g) (g_vcpus g) stats;
  _ ← MetricsService.record_sample (mkGuestSample (g_scope g) metrics);
  mret (mkEvent (g_scope g) None (Some metrics)).
Definition readable (g : Guest) : Prop :=
  (0 < g_vcpus g)%N ∧ ∀ h h' st, g_read g h = (h', Ok st) → (rs_cpu_time_ns st <= U64_MAX)%N.
Lemma sample_guest_tick g s s' e : readable g → sample_guest g s = (s', Ok e) → tick g s s' e.
Proof.
  intros [Hv Hu]. unfold sample_guest.
  intros (s1 & st & Hr & (s2 & m & Hm & (s3 & [] & Hs & [= <- <-])%svc_bind_ok)%svc_bind_ok)%svc_bind_ok.
  unfold at_host in Hr. cbn [host_of set_host MetricsService.metrics_host] in Hr.
  destruct (g_read g (MetricsService.host s)) as [h r] eqn:Er. injection Hr as <- ->.
  apply make_metrics_spec in Hm as (Hh & Hist & Hid & Hts & Hsam & Hcnt); [|done|by eapply Hu].
  cbn [MetricsService.host MetricsService.history_store MetricsService.counters] in *.
  unfold MetricsService.record_sample in Hs.
  apply svc_bind_ok in Hs as (s4 & all & [= <- <-] & Hs). apply svc_bind_ok in Hs as (s5 & [] & [= <-] & Hs).
  unfold MetricsService.on_store in Hs. destruct (store_put _ _ _) as [x y] eqn:Ep. injection Hs as <- ->.
  exists st, m. cbn [MetricsService.host MetricsService.history_store MetricsService.counters] in *.
  rewrite Hh. split_and!; try done. intros k. rewrite (put_ok _ _ _ _ Ep). by rewrite Hist.
Qed.
Lemma sample_all_guest_ticks {G} (one : G → Svc state MetricsEvent) (guest : G → Guest) l s s' es :
  (∀ x, one x = sample_guest (guest x) ∧ readable (guest x)) →
  MetricsService.sample_all one l s = (s', Ok es) → guest_ticks (map guest l) s s' es ∧ (history_keyed s → history_keyed s').
Proof.
  intros Hone. revert s es. induction l as [|x l IH]; intros s es; [by intros [= <- <-]|]. destruct (Hone x) as [Hx Hr].
  intros (s1 & e & E1 & (s2 & es' & E2 & [= <- <-])%svc_bind_ok)%svc_bind_ok. rewrite Hx in E1.
  apply IH in E2 as [H2 Hk2]. split.
  - exists s1. split; [|done]. by apply sample_guest_tick.
  - intros Hk. apply Hk2. assert (keeps history_keyed (sample_guest (guest x))) as Hkeep
      by (unfold sample_guest; auto 6 with daygle). by eapply Hkeep.
Qed.
Lemma vm_guest_reads vm : readable (vm_guest vm).
Proof.
  split; [cbn; lia|]. intros h h' st. cbn. intros (h1 & out & _ & [= _ <-])%svc_bind_ok.
  destruct out as [[out|]|e]; [apply domstats_cpu|done..].
Qed.
Lemma lxc_guest_reads ct : readable (lxc_guest ct).
Proof.
  split; [cbn; lia|]. intros h h' st. cbn. unfold MetricsHost.lxc_cgroup_stats.
  destruct (negb _); [by intros [= _ <-]|]. generalize (sat_mul (ls_memory_mib ct) 1048576). intros mx.
  generalize [path_join "/sys/fs/cgroup/lxc" (ls_name ct); path_join "/sys/fs/cgroup/lxc.payload" (ls_name ct)].
  intros roots. revert h. induction roots as [|root roots IH]; intros h; simpl; [by intros [= _ <-]|].
  intros (h1 & found & _ & E)%svc_bind_ok. destruct (negb found); [by eapply IH|].
  apply svc_bind_ok in E as (h2 & mem & _ & E). apply svc_bind_ok in E as (h3 & cpu & Hc & E).
  apply svc_bind_ok in E as (h4 & io & _ & E). apply svc_bind_ok in E as (h5 & net & _ & [= _ <-]).
  injection Hc as _ <-. cbn. unfold MetricsHost.parse_cpu_stat, cpu_stat, sat_mul. lia.
Qed.

(** Reading the node leaves the counters and the history alone. *)
Lemma node_quiet s s' r : MetricsService.node (RS:=RS) read_to_string read_dir parallelism sleep instant
  utc to_rfc3339 parse_f64 s = (s', r) →
  MetricsService.counters s' = MetricsService.counters s ∧ history_store s' = history_store s.
Proof.
  unfold MetricsService.node, MetricsService.now, MetricsService.set_cache, mbind, svc_bind, gets, modify, mret, svc_ret, at_host.
  destruct (MetricsService.cache s) as [[at_ sample]|]; [destruct (_ <? _)%N; [by intros [= <- _]|]|];
    destruct (MetricsHost.sample_now _ _ _ _ _ _ _ _ _) as [h [x|e]]; by intros [= <- _].
Qed.

(** C39: A collection that succeeds has an event for the node and then samples every
    guest in turn: the counters read are compared with those of its last tick, so that
    the share of the processors is a number between 0 and 100, never NaN, each rate is
    that of its own counter over the time that passed, and a first reading or a clock
    that has not moved counts as no use at all; the counters are kept for the next tick
    and the sample goes into the history. Of the history it then keeps at most
    [MAX_GUEST_SAMPLES] samples, none older than the retention, each under its own key
    and as it was, and drops no other: a sample within the retention goes only if there
    are [MAX_GUEST_SAMPLES] others that are no older. *)
Theorem collection_bounded vms containers s s' events :
  history_keyed s → collect_guests vms containers s = (s', Ok events) →
  ∃ n es s1 s2, events = mkEvent NodeScope (Some n) None :: es ∧
    MetricsService.counters s1 = MetricsService.counters s ∧ history_store s1 = history_store s ∧
    guest_ticks (map vm_guest vms ++ map lxc_guest containers) s1 s2 es ∧
    MetricsService.counters s' = MetricsService.counters s2 ∧ history_keyed s' ∧
    let before k := record (history_store s2) k in let after k := record (history_store s') k in
    let recent v := MetricsService.at_most (to_rfc3339 (utc (MetricsService.host s') - Z.of_N GUEST_RETENTION)%Z)
      (MetricsService.timestamp v) = true in
    (∀ k v, after k = Some v → before k = Some v ∧ recent v) ∧
    (∀ ks, NoDup ks → Forall (λ k, ∃ v, after k = Some v) ks → (length ks ≤ MAX_GUEST_SAMPLES)%nat) ∧
    ∀ k v, before k = Some v → recent v → after k = Some v ∨
      ∃ l, NoDup l ∧ (MAX_GUEST_SAMPLES ≤ length l)%nat ∧ Forall (λ w, (∃ j, before j = Some w) ∧
        MetricsService.at_most (MetricsService.timestamp v) (MetricsService.timestamp w) = true) l.
Proof.
  intros Hk (s1 & n & E1 & (s2 & es & E2 & (s3 & fs & E3 & (s4 & [] & E4 & [= <- <-])%svc_bind_ok)%svc_bind_ok)%svc_bind_ok)%svc_bind_ok.
  apply node_quiet in E1 as [Hc1 Hh1].
  apply (sample_all_guest_ticks _ vm_guest) in E2 as [H2 Hk2]; [|intros vm; split; [done|apply vm_guest_reads]].
  apply (sample_all_guest_ticks _ lxc_guest) in E3 as [H3 Hk3]; [|intros ct; split; [done|apply lxc_guest_reads]].
  assert (history_keyed s3) as Hs3.
  { apply Hk3, Hk2. unfold history_keyed. by rewrite Hh1. }
  destruct (prune_history_spec _ _ Hs3 E4) as (Hkept & Hcount & Hdrop).
  exists n, (es ++ fs), s1, s3. split_and!; try done.
  - by eapply guest_ticks_app.
  - by apply prune_history_counters.
  - intros k v [Hv _]%Hkept. by apply Hs3.
Qed.
End service.
End MetricsServiceProofs.

(** ** What the broker hides *)

(** [virsh domstats] is not on the broker's list, whatever the domain. *)
Lemma domstats_not_allowed id :
  is_ok (validate_exec "virsh" (lits ["-c"; "qemu:///system"; "domstats"; "--vcpu"; "--balloon"; "--block";
    "--interface"] ++ [id])) = false.
Proof.
  unfold validate_exec. destruct (program_path "virsh"); [|done].
  destruct (256 <? _)%nat; [done|].
  destruct (for_each validate_exec_arg _) as [u|e]; [|done].
  unfold validate_exec_shape. by vm_compute.
Qed.

(** Behind the broker every VM is sampled as idle, whatever it does: nothing is run,
    and the counters read zero. *)
Lemma vm_stats_hidden {H} (exec : str → list str → Svc H (option str)) id h :
  MetricsHost.vm_domstats true exec id h = (h, Ok no_stats).
Proof.
  unfold MetricsHost.vm_domstats, attempt, mbind, svc_bind. cbn [fst snd].
  unfold Command.run_optional, Command.dispatch.
  replace (Command.validate_program "virsh") with (Ok (lit "/usr/bin/virsh") : ApiResult str) by by vm_compute.
  unfold mbind, svc_bind, Cache.lift. pose proof (domstats_not_allowed id) as Hno.
  destruct (validate_exec _ _); [done|]. done.
Qed.

(** Without it the share of the processors still reads zero: with these options libvirt
    reports the time of each virtual processor, under a key that is not looked for. *)
Definition sample_domstats : str :=
  join [10%N] (lits ["Domain: 'web'"; "  balloon.current=2097152"; "  vcpu.current=2"; "  vcpu.0.state=1";
    "  vcpu.0.time=4471000000000"; "  vcpu.1.time=4470000000000"; "  net.count=1"; "  net.0.rx.bytes=714000";
    "  net.0.tx.bytes=281000"; "  block.count=1"; "  block.0.rd.bytes=99000"; "  block.0.wr.bytes=12000"]).
Example vcpu_time_missed :
  parse_domstats sample_domstats = mkStats 0 2147483648 99000 12000 714000 281000.
Proof. by vm_compute. Qed.

(** ** A concrete collection *)

Definition m_exec (program : str) (args : list str) : Svc N (option str) := λ h,
  ((h + 1000000)%N, Ok (Some sample_domstats)).
Definition m_vm : VmSummary := mkSummary "v1" "web" VmData.Running 2 1024 false false [] None "2026-01-01".
Abbreviation m_state := (MetricsService.state (RS:=map_store GuestMetricsSample) (H:=N)).
Abbreviation m_collect := (MetricsService.collect_guests (RS:=map_store GuestMetricsSample) false m_exec
  (λ _ _, None) (λ _ _, None) (λ _ _, false) None (λ n h, (h + n)%N) id Z.of_N sample_print (λ _, None)).

(** A second tick, one second and the clock's step after the first. *)
Definition m_before : GuestCounters := mkCounters 0 99000 0 700000 281000 (Some 5%N).
Definition m_second : m_state :=
  MetricsService.mkState None ∅ (∅ : gmap str GuestMetricsSample) ∅ {[ sample_key VmScope "v1" := m_before ]} 5%N.
Theorem collection_bounded_witness :
  ∃ s' events m, m_collect [m_vm] [] m_second = (s', Ok events) ∧ (events !! 1%nat ≫= me_guest) = Some m ∧
    gm_memory_used_bytes m = 1073741824%N ∧ gm_net_rx_bps m = 69652%N ∧ gm_net_tx_bps m = 0%N ∧
    percentage (gm_cpu_pct m) ∧ MetricsServiceProofs.history_keyed s'.
Proof.
  destruct (m_collect [m_vm] [] m_second) as [s' r] eqn:E.
  assert (match r with Ok es => (λ m, (gm_memory_used_bytes m, gm_net_rx_bps m, gm_net_tx_bps m)) <$> (es !! 1%nat ≫= me_guest)
                     | Err _ => None end = Some (1073741824%N, 69652%N, 0%N)) as Hm.
  { apply (f_equal snd) in E. cbn [snd] in E. rewrite <- E. by vm_compute. }
  destruct r as [events|e]; [|discriminate Hm].
  destruct (MetricsServiceProofs.collection_bounded (RS:=map_store GuestMetricsSample) false m_exec
      (λ _ _, None) (λ _ _, None) (λ _ _, false) None (λ n h, (h + n)%N) id Z.of_N sample_print (λ _, None)
      [m_vm] [] m_second s' events) as (n & es & s1 & s2 & -> & _ & _ & Ht & _ & Hk & _); [|exact E|].
  { intros k v Hv. cbn in Hv. by rewrite lookup_empty in Hv. }
  destruct es as [|e es]; [destruct Ht|]. destruct Ht as (s3 & (st & m & _ & -> & _ & _ & ((_ & _ & Hp & _) & _) & _) & _).
  exists s', (mkEvent NodeScope (Some n) None :: mkEvent VmScope None (Some m) :: es), m.
  cbn in Hm. injection Hm as Hm1 Hm2 Hm3. by split_and!.
Defined.
