(* ===== verification/Alerts.v ===== *)
(** * Alert rules (src/src/services/alerts.rs)

    Rules are records; [evaluate] compares the samples of one tick with every
    enabled rule, keeps a chain of breaches for each rule and subject, and notifies
    through the channels.  Times are nanoseconds, their printing, their parsing and
    [{:.1}] are parameters.  A counter that overflows wraps, as in a release build. *)

From S2P Require Export Validate Notification Metrics.

(** ** Data *)

Inductive AlertScope := ScopeNode | ScopeVm | ScopeLxc.
#[export] Instance AlertScope_eq_dec : EqDecision AlertScope.
Proof. solve_decision. Defined.
Inductive AlertMetric :=
  | CpuPct | MemoryPct | DiskReadMibS | DiskWriteMibS | NetRxMibS | NetTxMibS | PoolUsedPct.
#[export] Instance AlertMetric_eq_dec : EqDecision AlertMetric.
Proof. solve_decision. Defined.
Record AlertRule := mkRule {
  ar_id : str; ar_name : str; ar_enabled : bool; ar_scope : AlertScope; ar_guest_id : option str;
  ar_metric : AlertMetric; ar_threshold : f64; ar_sustain_ticks : N; ar_cooldown_secs : N;
  ar_created_at : str; ar_updated_at : option str }.
Record CreateAlertRuleRequest := mkCreateRule {
  ac_name : str; ac_enabled : bool; ac_scope : AlertScope; ac_guest_id : option str; ac_metric : AlertMetric;
  ac_threshold : f64; ac_sustain_ticks : N; ac_cooldown_secs : N }.
Record UpdateAlertRuleRequest := mkUpdateRule {
  au_name : option str; au_enabled : option bool; au_guest_id : option (option str);
  au_metric : option AlertMetric; au_threshold : option f64; au_sustain_ticks : option N;
  au_cooldown_secs : option N }.
Record BreachState := mkBreach { br_ticks : N; br_last_fired_at : option str }.
Record Observations := mkObs {
  ob_vms : list GuestMetrics; ob_containers : list GuestMetrics; ob_node_cpu_pct : f64;
  ob_node_memory_used : N; ob_node_memory_total : N; ob_pools : list (str * N * N) }.

(** ** Observing *)

Definition validate_rule (name : str) (scope : AlertScope) (guest_id : option str) (metric : AlertMetric)
    (threshold : f64) : ApiResult unit :=
  if is_empty (trim name) then Err (validation "rule name is required")
  else if negb (is_finite threshold) || f64_lt threshold f64_zero then
    Err (validation "threshold must be a finite value >= 0")
  else if bool_decide (metric = PoolUsedPct) && negb (bool_decide (scope = ScopeNode)) then
    Err (validation "pool_used_pct rules must use node scope")
  else if negb (bool_decide (metric = PoolUsedPct)) && bool_decide (scope = ScopeNode) then
    Err (validation "cpu/memory/throughput rules must target vm or lxc scope; use pool_used_pct for node/pool rules")
  else match guest_id with Some id => _ ← ensure_safe_id id; Ok tt | None => Ok tt end.

Definition matching_subjects (rule : AlertRule) (obs : Observations) : list str :=
  match ar_scope rule with
  | ScopeNode =>
      match ar_metric rule with
      | PoolUsedPct =>
          match ar_guest_id rule with
          | Some name => [lit "pool:" ++ name]
          | None => map (λ '(name, _, _), lit "pool:" ++ name) (ob_pools obs)
          end
      | _ => [lit "node"]
      end
  | ScopeVm => match ar_guest_id rule with Some id => [id] | None => map gm_id (ob_vms obs) end
  | ScopeLxc => match ar_guest_id rule with Some id => [id] | None => map gm_id (ob_containers obs) end
  end.

Definition memory_pct (m : GuestMetrics) : f64 :=
  if (gm_memory_max_bytes m =? 0)%N then f64_zero
  else f64_mul (f64_div (f64_of (gm_memory_used_bytes m)) (f64_of (gm_memory_max_bytes m))) (f64_of 100).
Definition bps_to_mib (bps : N) : f64 := f64_div (f64_of bps) (f64_mul (f64_of 1024) (f64_of 1024)).
Definition find_guest (samples : list GuestMetrics) (subject : str) : option GuestMetrics :=
  List.find (λ m, gm_id m =s? subject) samples.

(** A metric of the guests, or of the node. *)
Definition observe_guest (scope : AlertScope) (subject : str) (obs : Observations)
    (node : option f64) (metric : GuestMetrics → f64) : option f64 :=
  match scope with
  | ScopeNode => node
  | ScopeVm => metric <$> find_guest (ob_vms obs) subject
  | ScopeLxc => metric <$> find_guest (ob_containers obs) subject
  end.
Definition observe (rule : AlertRule) (subject : str) (obs : Observations) : option f64 :=
  match ar_metric rule with
  | CpuPct => observe_guest (ar_scope rule) subject obs (Some (ob_node_cpu_pct obs)) gm_cpu_pct
  | MemoryPct =>
      observe_guest (ar_scope rule) subject obs
        (if (ob_node_memory_total obs =? 0)%N then None
         else Some (f64_mul (f64_div (f64_of (ob_node_memory_used obs)) (f64_of (ob_node_memory_total obs)))
                      (f64_of 100)))
        memory_pct
  | DiskReadMibS => observe_guest (ar_scope rule) subject obs None (λ m, bps_to_mib (gm_disk_read_bps m))
  | DiskWriteMibS => observe_guest (ar_scope rule) subject obs None (λ m, bps_to_mib (gm_disk_write_bps m))
  | NetRxMibS => observe_guest (ar_scope rule) subject obs None (λ m, bps_to_mib (gm_net_rx_bps m))
  | NetTxMibS => observe_guest (ar_scope rule) subject obs None (λ m, bps_to_mib (gm_net_tx_bps m))
  | PoolUsedPct =>
      if negb (bool_decide (ar_scope rule = ScopeNode)) then None
      else
        name ← strip_prefix "pool:" subject;
        found ← List.find (λ '(pool, _, _), pool =s? name) (ob_pools obs);
        let '(_, allocated, size) := found in
        if (size =? 0)%N then None
        else Some (f64_mul (f64_div (f64_of allocated) (f64_of size)) (f64_of 100))
  end.

Definition describe_subject (subject : str) : str :=
  match strip_prefix "pool:" subject with
  | Some pool => "pool `" ++ pool ++ "`"
  | None => "guest `" ++ subject ++ "`"
  end.

(** [n as i64] of a [u64]. *)
Definition as_i64 (n : N) : Z :=
  let z := (Z.of_N n mod 2 ^ 64)%Z in if (z <? 2 ^ 63)%Z then z else (z - 2 ^ 64)%Z.
Definition NANOS : Z := 1000000000.

Module AlertService.
Section service.
Context `{RR : RecordStore AlertRule} `{RN : RecordStore StoredChannel} {H : Type}.
Context (to_rfc3339 : Z → str) (parse_from_rfc3339 : str → option Z) (format_1 : f64 → str).

Record state := mkState {
  store : rstate (RecordStore:=RR); breach : gmap str BreachState;
  notifications : NotificationService.state (RS:=RN) (H:=H) }.
Definition on_store {A} (m : Svc _ A) : Svc state A := λ s,
  let '(x, r) := m (store s) in (mkState x (breach s) (notifications s), r).
Definition set_breach (key : str) (b : BreachState) : Svc state unit :=
  modify (λ s, mkState (store s) (<[key := b]> (breach s)) (notifications s)).
Definition notify (event : NotificationEvent) (subject body : str) : Svc state unit := λ s,
  let '(n, r) := NotificationService.notify event subject body (notifications s) in
  (mkState (store s) (breach s) n, r).

Definition list : Svc state (Datatypes.list AlertRule) :=
  rules ← on_store store_list;
  mret (sort_by (λ a b, str_cmp (ar_name a) (ar_name b)) rules).
Definition get_stored (id : str) : Svc state AlertRule :=
  found ← on_store (store_get id);
  lift (ok_or (not_found ("alert rule " ++ id ++ " not found")) found).
Definition get (id : str) : Svc state AlertRule := get_stored id.

Definition create (req : CreateAlertRuleRequest) (new_id : str) (now : Z) : Svc state AlertRule :=
  _ ← lift (validate_rule (ac_name req) (ac_scope req) (ac_guest_id req) (ac_metric req) (ac_threshold req));
  let rule := mkRule new_id (trim (ac_name req)) (ac_enabled req) (ac_scope req) (ac_guest_id req)
    (ac_metric req) (ac_threshold req) (ac_sustain_ticks req) (ac_cooldown_secs req) (to_rfc3339 now) None in
  _ ← on_store (store_put (ar_id rule) rule);
  mret rule.

Definition updated (req : UpdateAlertRuleRequest) (now : Z) (rule : AlertRule) : ApiResult AlertRule :=
  name ← (match au_name req with
          | Some name => if is_empty (trim name) then Err (validation "rule name is required") else Ok (trim name)
          | None => Ok (ar_name rule) end);
  guest_id ← (match au_guest_id req with
              | Some (Some id) => _ ← ensure_safe_id id; Ok (Some id)
              | Some None => Ok None
              | None => Ok (ar_guest_id rule) end);
  let rule := mkRule (ar_id rule) name (default (ar_enabled rule) (au_enabled req)) (ar_scope rule) guest_id
    (default (ar_metric rule) (au_metric req)) (default (ar_threshold rule) (au_threshold req))
    (default (ar_sustain_ticks rule) (au_sustain_ticks req))
    (default (ar_cooldown_secs rule) (au_cooldown_secs req)) (ar_created_at rule) (Some (to_rfc3339 now)) in
  _ ← validate_rule (ar_name rule) (ar_scope rule) (ar_guest_id rule) (ar_metric rule) (ar_threshold rule);
  Ok rule.
Definition update (id : str) (req : UpdateAlertRuleRequest) (now : Z) : Svc state AlertRule :=
  rule ← get_stored id;
  rule ← lift (updated req now rule);
  _ ← on_store (store_put (ar_id rule) rule);
  mret rule.

Definition chain_key (rule_id subject : str) : str := rule_id ++ "|" ++ subject.
Definition delete (id : str) : Svc state bool :=
  deleted ← on_store (store_delete id);
  _ ← (if deleted : bool then
         modify (λ s, mkState (store s)
           (filter (λ '(key, _), starts_with (id ++ "|") key = false) (breach s)) (notifications s))
       else mret tt);
  mret deleted.

(** ** Evaluation *)

Definition cooldown_elapsed (last_fired_at : str) (cooldown_secs : N) (now : Z) : bool :=
  match parse_from_rfc3339 last_fired_at with
  | Some last => (as_i64 cooldown_secs <=? Z.quot (now - last) NANOS)%Z
  | None => false
  end.

(** The chain after one observation, and whether it fires. *)
Definition chain_step (sustain cooldown : N) (breached : bool) (now : Z) (entry : BreachState) :
    BreachState * bool :=
  if negb breached then (mkBreach 0 (br_last_fired_at entry), false)
  else
    let ticks := ((br_ticks entry + 1) mod 2 ^ 32)%N in
    let held := mkBreach ticks (br_last_fired_at entry) in
    if (ticks <? N.max sustain 1)%N then (held, false)
    else if match br_last_fired_at entry with
            | Some last => negb (cooldown_elapsed last cooldown now)
            | None => false end
    then (held, false)
    else (mkBreach ticks (Some (to_rfc3339 now)), true).

Definition record_and_maybe_fire (rule : AlertRule) (subject : str) (value : f64) (now : Z) : Svc state bool :=
  breaches ← gets breach;
  let key := chain_key (ar_id rule) subject in
  let entry := default (mkBreach 0 None) (breaches !! key) in
  let '(entry, fires) := chain_step (ar_sustain_ticks rule) (ar_cooldown_secs rule)
                           (f64_ge value (ar_threshold rule)) now entry in
  _ ← set_breach key entry;
  if negb fires then mret false
  else
    _ ← notify ThresholdBreached ("alert `" ++ ar_name rule ++ "` breached")
          (describe_subject subject ++ " is at " ++ format_1 value ++ " (threshold "
           ++ format_1 (ar_threshold rule) ++ ", sustained " ++ dec (br_ticks entry) ++ " ticks).");
    mret true.

Fixpoint evaluate_subjects (rule : AlertRule) (obs : Observations) (now : Z) (fired : N)
    (subjects : Datatypes.list str) : Svc state N :=
  match subjects with
  | [] => mret fired
  | subject :: subjects =>
      match observe rule subject obs with
      | None => evaluate_subjects rule obs now fired subjects
      | Some value =>
          fires ← record_and_maybe_fire rule subject value now;
          evaluate_subjects rule obs now (if fires : bool then (fired + 1)%N else fired) subjects
      end
  end.
Fixpoint evaluate_rules (obs : Observations) (now : Z) (fired : N) (rules : Datatypes.list AlertRule) :
    Svc state N :=
  match rules with
  | [] => mret fired
  | rule :: rules =>
      fired ← evaluate_subjects rule obs now fired (matching_subjects rule obs);
      evaluate_rules obs now fired rules
  end.
Definition evaluate (obs : Observations) (now : Z) : Svc state N :=
  rules ← list;
  evaluate_rules obs now 0 (List.filter ar_enabled rules).
End service.
End AlertService.

(** * Alerts: when a rule fires; channels: who gets an event *)

(** ** The chain of one rule and subject *)

(** What happened so far, newest first: the time, whether the observation was at or
    above the threshold, and whether the rule fired. *)
Definition history : Type := list (Z * bool * bool).
Fixpoint streak (h : history) : N :=
  match h with (_, true, _) :: h => (streak h + 1)%N | _ => 0%N end.
Fixpoint last_fire (h : history) : option Z :=
  match h with
  | [] => None
  | (t, _, fired) :: h => if fired : bool then Some t else last_fire h
  end.

(** A rule fires on an observation when it closes a long enough row of breaches
    and the cooldown since the last firing is over. *)
Definition should_fire (sustain cooldown : N) (h : history) (now : Z) (breached : bool) : bool :=
  breached && (N.max sustain 1 <=? streak h + 1)%N &&
  match last_fire h with
  | Some t => (Z.of_N cooldown <=? Z.quot (now - t) NANOS)%Z
  | None => true
  end.
Fixpoint firings (sustain cooldown : N) (h : history) (obs : list (Z * bool)) : list bool :=
  match obs with
  | [] => []
  | (now, breached) :: obs =>
      let f := should_fire sustain cooldown h now breached in
      f :: firings sustain cooldown ((now, breached, f) :: h) obs
  end.

Lemma as_i64_small n : (n < 2 ^ 63)%N → as_i64 n = Z.of_N n.
Proof.
  intros Hn. unfold as_i64. assert (Z.of_N n < 2 ^ 63)%Z by (change (2 ^ 63)%Z with (Z.of_N (2 ^ 63)); lia).
  rewrite Z.mod_small by lia. cbv zeta. by rewrite (proj2 (Z.ltb_lt _ _)) by lia.
Qed.

Section chain.
Context (to_rfc3339 : Z → str) (parse_from_rfc3339 : str → option Z) (format_1 : f64 → str).
Context (time_reads_back : ∀ t, parse_from_rfc3339 (to_rfc3339 t) = Some t).
Local Abbreviation chain_step := (AlertService.chain_step to_rfc3339 parse_from_rfc3339).

(** The breach state that stands for a history. *)
Definition entry_of (h : history) : BreachState := mkBreach (streak h) (to_rfc3339 <$> last_fire h).

Lemma streak_length h : (streak h <= N.of_nat (length h))%N.
Proof. induction h as [|[[t []] f] h IH]; simpl; lia. Qed.

Lemma chain_step_spec sustain cooldown h now breached :
  (cooldown < 2 ^ 63)%N → (N.of_nat (length h) + 1 < 2 ^ 32)%N →
  chain_step sustain cooldown breached now (entry_of h)
  = (entry_of ((now, breached, should_fire sustain cooldown h now breached) :: h),
     should_fire sustain cooldown h now breached).
Proof.
  intros Hc Hl. pose proof (streak_length h) as Hs. unfold AlertService.chain_step, should_fire, entry_of.
  destruct breached; cbn [negb andb br_ticks br_last_fired_at]; [|by simpl].
  rewrite N.mod_small by lia. rewrite N.ltb_antisym.
  destruct (N.max sustain 1 <=? streak h + 1)%N; cbn [negb andb]; [|done].
  destruct (last_fire h) as [t|] eqn:E; cbn [fmap option_fmap option_map]; [|done].
  unfold AlertService.cooldown_elapsed. rewrite time_reads_back, as_i64_small by done.
  destruct (Z.of_N cooldown <=? _)%Z; cbn [negb]; [done|]. simpl. by rewrite E.
Qed.
End chain.

Section service.
Context `{RR : RecordStore AlertRule} `{RN : RecordStore StoredChannel} {H : Type}.
Context (to_rfc3339 : Z → str) (parse_from_rfc3339 : str → option Z) (format_1 : f64 → str).
Context (time_reads_back : ∀ t, parse_from_rfc3339 (to_rfc3339 t) = Some t).
Local Abbreviation state := (AlertService.state (RR:=RR) (RN:=RN) (H:=H)).
Local Abbreviation record_and_maybe_fire :=
  (AlertService.record_and_maybe_fire (RR:=RR) (RN:=RN) (H:=H) to_rfc3339 parse_from_rfc3339 format_1).

(** The observations of one subject, one evaluation after the other. *)
Fixpoint feed (rule : AlertRule) (subject : str) (obs : list (Z * f64)) : Svc state (list bool) :=
  match obs with
  | [] => mret []
  | (now, value) :: obs =>
      fired ← record_and_maybe_fire rule subject value now;
      rest ← feed rule subject obs;
      mret (fired :: rest)
  end.

Lemma notify_ok event subject body (s : state) : ∃ n,
  AlertService.notify event subject body s
  = (AlertService.mkState (AlertService.store s) (AlertService.breach s) n, Ok tt).
Proof.
  unfold AlertService.notify, NotificationService.notify, mbind, svc_bind, attempt.
  destruct (NotificationService.stored _) as [n [cs|e]]; simpl; [rewrite notify_loop_ok|]; by eexists.
Qed.

Lemma record_step rule subject value now (s : state) h :
  default (mkBreach 0 None) (AlertService.breach s !! AlertService.chain_key (ar_id rule) subject) = entry_of to_rfc3339 h →
  (ar_cooldown_secs rule < 2 ^ 63)%N → (N.of_nat (length h) + 1 < 2 ^ 32)%N →
  let breached := f64_ge value (ar_threshold rule) in
  let f := should_fire (ar_sustain_ticks rule) (ar_cooldown_secs rule) h now breached in
  ∃ n, record_and_maybe_fire rule subject value now s
  = (AlertService.mkState (AlertService.store s)
       (<[AlertService.chain_key (ar_id rule) subject := entry_of to_rfc3339 ((now, breached, f) :: h)]>
          (AlertService.breach s)) n, Ok f).
Proof.
  intros He Hc Hl breached f. unfold AlertService.record_and_maybe_fire, mbind, svc_bind, gets. rewrite He.
  rewrite chain_step_spec by done. fold breached f. unfold AlertService.set_breach, modify. cbv zeta.
  destruct f eqn:Ef; cbn [negb]; [|by eexists].
  match goal with |- context [AlertService.notify ?a ?b ?c ?s] => destruct (notify_ok a b c s) as [n ->] end.
  simpl. by eexists.
Qed.

Lemma feed_spec rule subject obs (s : state) h :
  default (mkBreach 0 None) (AlertService.breach s !! AlertService.chain_key (ar_id rule) subject) = entry_of to_rfc3339 h →
  (ar_cooldown_secs rule < 2 ^ 63)%N → (N.of_nat (length h + length obs) < 2 ^ 32)%N →
  (feed rule subject obs s).2
    = Ok (firings (ar_sustain_ticks rule) (ar_cooldown_secs rule) h
            (map (λ '(now, value), (now, f64_ge value (ar_threshold rule))) obs)) ∧
  ∀ k, k ≠ AlertService.chain_key (ar_id rule) subject →
    AlertService.breach (feed rule subject obs s).1 !! k = AlertService.breach s !! k.
Proof.
  intros He Hc. revert s h He. induction obs as [|[now value] obs IH]; intros s h He Hl; [done|].
  cbn [feed map firings length] in *.
  destruct (record_step rule subject value now s h He Hc) as [n E]; [lia|].
  unfold mbind, svc_bind. rewrite E. cbv zeta in *.
  set (f := should_fire _ _ _ _ _) in *. set (s1 := AlertService.mkState _ _ _) in *.
  destruct (IH s1 ((now, f64_ge value (ar_threshold rule), f) :: h)) as [IHr IHk].
  - unfold s1. cbn [AlertService.breach]. by rewrite lookup_insert_eq.
  - cbn [length]. lia.
  - destruct (feed rule subject obs s1) as [s2 [r|e]]; simpl in *; [|done]. injection IHr as ->.
    split; [done|]. intros k Hk. rewrite IHk by done. unfold s1. cbn [AlertService.breach]. by rewrite lookup_insert_ne.
Qed.

(** C28: when an alert fires. Over any sequence of fewer than 2^32 observations of one
    subject, a rule that starts afresh fires exactly on the observations at or above
    its threshold that close a row of at least [sustain_ticks] such observations (at
    least one) and come no sooner than [cooldown_secs] after the last firing; no
    outcome of a notification interferes, and the chains of other rules and subjects
    keep their state. *)
Theorem alert_fires_exactly rule subject obs (s : state) :
  AlertService.breach s !! AlertService.chain_key (ar_id rule) subject = None →
  (ar_cooldown_secs rule < 2 ^ 63)%N → (N.of_nat (length obs) < 2 ^ 32)%N →
  (feed rule subject obs s).2
    = Ok (firings (ar_sustain_ticks rule) (ar_cooldown_secs rule) []
            (map (λ '(now, value), (now, f64_ge value (ar_threshold rule))) obs)) ∧
  ∀ k, k ≠ AlertService.chain_key (ar_id rule) subject →
    AlertService.breach (feed rule subject obs s).1 !! k = AlertService.breach s !! k.
Proof. intros Hk Hc Hl. apply feed_spec; [by rewrite Hk|done|done]. Qed.
End service.

Definition demo_rule : AlertRule :=
  mkRule "r1" "cpu" true ScopeVm None CpuPct (f64_of 80) 2 300 "" None.
Definition demo_alerts : AlertService.state (RR:=map_store AlertRule) (RN:=map_store StoredChannel) (H:=unit) :=
  AlertService.mkState (RR:=map_store AlertRule) (RN:=map_store StoredChannel) ∅ ∅
    (NotificationService.mkState (RS:=map_store StoredChannel) ∅ [] tt).
(** A printed time for the examples: a sign and a count. *)
Definition demo_time (t : Z) : str := [Z.to_N (Z.sgn t + 1); Z.abs_N t].
Definition demo_read (s : str) : option Z :=
  match s with [g; n] => Some ((Z.of_N g - 1) * Z.of_N n)%Z | _ => None end.
Lemma demo_time_reads t : demo_read (demo_time t) = Some t.
Proof. unfold demo_read, demo_time. f_equal. destruct t; simpl; lia. Qed.

(** 90, 90, 90, 90 and 50 percent, 200 seconds apart. *)
Definition demo_samples : list (Z * f64) :=
  map (λ '(t, v), (t * 200 * NANOS, f64_of (Z.to_N v))%Z) [(1, 90); (2, 90); (3, 90); (4, 90); (5, 50)]%Z.
Lemma alert_fires_exactly_witness :
  (feed (RR:=map_store AlertRule) (RN:=map_store StoredChannel) demo_time demo_read (λ _, [])
     demo_rule "vm1" demo_samples demo_alerts).2 = Ok [false; true; false; true; false].
Proof.
  destruct (alert_fires_exactly (RR:=map_store AlertRule) (RN:=map_store StoredChannel) demo_time demo_read
    (λ _, []) demo_time_reads demo_rule "vm1" demo_samples demo_alerts) as [Hr _];
    [reflexivity|reflexivity|reflexivity|].
  etransitivity; [exact Hr|]. vm_compute. reflexivity.
Defined.
