(* ===== verification/Startup.v ===== *)
(** * Settings, startup and the metrics loop (src/src/config.rs, src/src/state.rs)

    [AppState::new] brings the services up in order and starts the background tasks;
    one of them samples the guests and evaluates the alert rules every 15 seconds.
    Both are compositions of calls of services over the state [S] they share. *)

From S2P Require Export Alerts Zfs Operations Metrics.

(** * Configuration (src/src/config.rs, the settings of main.rs and of
    bin/daygleve-broker.rs)

    Both programs are configured by environment variables.  [var] is the environment:
    [None] for a variable that is not set or not UTF-8.  Parsing a socket address is a
    parameter. *)

Section config.
Context {SocketAddr : Type} (parse_addr : str → option SocketAddr) (default_addr : SocketAddr).

Record Config := mkConfig {
  cf_listen_addr : SocketAddr; cf_cors_origins : list str; cf_default_pool : str;
  cf_web_root : option str; cf_state_dir : str; cf_iso_dir : str; cf_template_dir : str;
  cf_disk_image_dir : str; cf_mounts_dir : str; cf_max_upload_bytes : N; cf_spice_listen : str;
  cf_backup_dir : str; cf_token_ttl_secs : N; cf_admin_password : option str;
  cf_tls_cert : option str; cf_tls_key : option str; cf_broker_socket : option str }.

(** [dir.join(name)] of a relative name. *)
Definition dir_join (dir : str) (name : string) : str :=
  if is_empty dir || ends_with "/" dir then dir ++ lit name else dir ++ "/" ++ lit name.

Section env.
Context (var : string → option str).

(** A variable that is set to something. *)
Definition given (name : string) : option str :=
  v ← var name; if is_empty v then None else Some v.
Definition from_env : Config :=
  let state_dir := default (lit "/var/lib/daygleve") (given "DAYGLEVE_STATE_DIR") in
  let dir name sub := default (dir_join state_dir sub) (given name) in
  mkConfig
    (default default_addr (s ← var "DAYGLEVE_LISTEN"; parse_addr s))
    (default [] (s ← var "DAYGLEVE_CORS_ORIGINS";
       Some (List.filter (λ s, negb (is_empty s)) (map trim (split (ch ",") s)))))
    (default (lit "tank") (var "DAYGLEVE_ZPOOL"))
    (given "DAYGLEVE_WEB_ROOT")
    state_dir
    (dir "DAYGLEVE_ISO_DIR" "isos") (dir "DAYGLEVE_TEMPLATE_DIR" "templates")
    (dir "DAYGLEVE_DISK_IMAGE_DIR" "disk-images") (dir "DAYGLEVE_MOUNTS_DIR" "mounts")
    (default (16 * 1024 * 1024 * 1024)%N (s ← var "DAYGLEVE_MAX_UPLOAD_BYTES"; parse_uint U64_MAX s))
    (default (lit "127.0.0.1") (given "DAYGLEVE_SPICE_LISTEN"))
    (dir "DAYGLEVE_BACKUP_DIR" "backups")
    (default (12 * 60 * 60)%N (s ← var "DAYGLEVE_TOKEN_TTL_SECS"; parse_uint U64_MAX s))
    (given "DAYGLEVE_ADMIN_PASSWORD") (given "DAYGLEVE_TLS_CERT") (given "DAYGLEVE_TLS_KEY")
    (given "DAYGLEVE_BROKER_SOCKET").

(** The settings of the broker; the text of an error is what it prints. *)
Definition broker_config : result str (str * N) :=
  let socket_path := default (lit "/run/daygleve/broker.sock") (var "DAYGLEVE_BROKER_SOCKET") in
  uid ← ok_or (lit "DAYGLEVE_BROKER_UID must be set; refusing an unauthenticated broker") (var "DAYGLEVE_BROKER_UID");
  allowed_uid ← ok_or (lit "DAYGLEVE_BROKER_UID must be a numeric uid") (parse_uint U32_MAX uid);
  mret (socket_path, allowed_uid).
End env.

Definition tls (c : Config) : option (str * str) :=
  cert ← cf_tls_cert c; key ← cf_tls_key c; Some (cert, key).
(** The certificate [main] serves with, and whether it is the one of ACME; [None]
    serves plain HTTP. *)
Definition tls_source (acme_tls : option (str * str)) (c : Config) : option (str * str * bool) :=
  match acme_tls with
  | Some p => Some (p, true)
  | None => p ← tls c; Some (p, false)
  end.

(** The broker starts only with a numeric user id. *)
Lemma broker_needs_uid var socket uid : broker_config var = Ok (socket, uid) →
  (uid <= U32_MAX)%N ∧ ∃ s, var "DAYGLEVE_BROKER_UID" = Some s ∧ parse_uint U32_MAX s = Some uid.
Proof.
  unfold broker_config. destruct (var "DAYGLEVE_BROKER_UID") as [s|]; [|done]. cbn.
  destruct (parse_uint U32_MAX s) as [n|] eqn:E; [|done]. intros [= _ <-]. split; [|eauto].
  unfold parse_uint in E. destruct (is_empty _); [done|]. cbn in E.
  destruct (digits_value _ _) as [v|]; [|done]. cbn in E. destruct (v <=? U32_MAX)%N eqn:Ev; [|done].
  injection E as <-. by apply N.leb_le.
Qed.

(** An address that cannot be read is ignored: the server then listens on the default
    address. *)
Lemma bad_listen_ignored var s : var "DAYGLEVE_LISTEN" = Some s → parse_addr s = None →
  cf_listen_addr (from_env var) = default_addr.
Proof. intros Hv Hp. unfold from_env. cbn. rewrite Hv. cbn. by rewrite Hp. Qed.

(** The directories of a node on which only the state directory is configured lie
    below it. *)
Lemma directories_below_state var d :
  Forall (λ name, var name = None) ["DAYGLEVE_ISO_DIR"; "DAYGLEVE_TEMPLATE_DIR"; "DAYGLEVE_DISK_IMAGE_DIR";
    "DAYGLEVE_MOUNTS_DIR"; "DAYGLEVE_BACKUP_DIR"]%string →
  d ∈ [cf_iso_dir (from_env var); cf_template_dir (from_env var); cf_disk_image_dir (from_env var);
       cf_mounts_dir (from_env var); cf_backup_dir (from_env var)] →
  ∃ sub, d = dir_join (cf_state_dir (from_env var)) sub.
Proof.
  intros Hn. repeat (apply Forall_cons in Hn as [?Hv Hn]). unfold from_env, given. cbn.
  rewrite Hv, Hv0, Hv1, Hv2, Hv3. cbn. set_solver.
Qed.
End config.

Section startup.
Context {S : Type}.

(** [match call.await { Ok(x) => x, Err(_) => Vec::new() }]. *)
Definition or_empty {A} (m : Svc S (list A)) : Svc S (list A) :=
  r ← attempt m; mret (match r with Ok l => l | Err _ => [] end).

Definition metrics_of (scope : MetricsScope) (samples : list GuestMetricsSample) : list GuestMetrics :=
  map gs_metrics (List.filter (λ s, bool_decide (gs_scope s = scope)) samples).
Definition observations (samples : list GuestMetricsSample) (node : NodeMetrics) (pools : list (str * N * N)) :
    Observations :=
  mkObs (metrics_of VmScope samples) (metrics_of LxcScope samples) (nm_cpu_pct node)
    (nm_memory_used_bytes node) (nm_memory_total_bytes node) pools.

(** One turn of the loop. *)
Definition metrics_tick (kvm_list : Svc S (list VmSummary)) (lxc_list : Svc S (list LxcSummary))
    (collect_guests : list VmSummary → list LxcSummary → Svc S (list MetricsEvent))
    (list_pools : Svc S (list Pool)) (node : Svc S NodeMetrics)
    (current_guests : Svc S (list GuestMetricsSample)) (evaluate : Observations → Svc S unit) : Svc S unit :=
  vms ← or_empty kvm_list;
  containers ← or_empty lxc_list;
  _ ← ignore (collect_guests vms containers);
  pools ← or_empty (pools ← list_pools; mret (map (λ p, (pl_name p, pl_allocated_bytes p, pl_size_bytes p)) pools));
  n ← node;
  samples ← current_guests;
  ignore (evaluate (observations samples n pools)).

(** The tasks [new] starts. *)
Inductive Task := BackupTask | ScheduleTask | SnapshotScheduleTask | AcmeTask | MetricsTask | AutostartTask.
Definition startup_request : ReconcileRequest := mkReconcile DryRun None true.
(** [AppState::new]; [start] starts a task in the background. *)
Definition app_state_new (load_or_seed acl_load apply_persisted recover_interrupted : Svc S unit)
    (start : Task → Svc S unit) (enqueue_reconciliation : ReconcileRequest → option str → Svc S OperationRecord) :
    Svc S unit :=
  _ ← load_or_seed;
  _ ← acl_load;
  _ ← ignore apply_persisted;
  _ ← recover_interrupted;
  _ ← each start [BackupTask; ScheduleTask; SnapshotScheduleTask; AcmeTask; MetricsTask; AutostartTask];
  _ ← enqueue_reconciliation startup_request None;
  mret tt.

(** [uptime_seconds], of instants in nanoseconds. *)
Definition uptime_seconds (started_at now : N) : N := (now - started_at) / 1000000000.
End startup.

(** ** The loop goes on *)

Section loop.
Context {S : Type} (kvm_list : Svc S (list VmSummary)) (lxc_list : Svc S (list LxcSummary))
  (collect_guests : list VmSummary → list LxcSummary → Svc S (list MetricsEvent))
  (list_pools : Svc S (list Pool)) (node : Svc S NodeMetrics)
  (current_guests : Svc S (list GuestMetricsSample)) (evaluate : Observations → Svc S unit).

(** The services that cannot fail do not. *)
Hypothesis node_total : ∀ s, is_ok (node s).2 = true.
Hypothesis current_total : ∀ s, is_ok (current_guests s).2 = true.

Lemma or_empty_ok {A} (m : Svc S (list A)) s : ∃ l, or_empty m s = ((m s).1, Ok l) ∧
  match (m s).2 with Ok l' => l = l' | Err _ => l = [] end.
Proof.
  unfold or_empty, attempt, mbind, svc_bind, mret, svc_ret. cbn [fst snd].
  destruct (m s).2 as [l|e]; eauto.
Qed.

(** Whatever call fails, a turn of the loop comes to its end and has evaluated the alert
    rules on the samples that are there. *)
Lemma tick_evaluates s : ∃ s1 samples n pools,
  metrics_tick kvm_list lxc_list collect_guests list_pools node current_guests evaluate s =
    ((evaluate (observations samples n pools) s1).1, Ok tt).
Proof.
  unfold metrics_tick. unfold mbind at 1, svc_bind at 1. destruct (or_empty_ok kvm_list s) as (vms & -> & _).
  unfold mbind at 1, svc_bind at 1. destruct (or_empty_ok lxc_list (kvm_list s).1) as (cts & -> & _).
  unfold mbind at 1, svc_bind at 1, ignore at 1.
  unfold mbind at 1, svc_bind at 1.
  match goal with |- context [or_empty ?m ?s] => destruct (or_empty_ok m s) as (pools & -> & _); set (s1 := (m s).1) end.
  unfold mbind at 1, svc_bind at 1. pose proof (node_total s1) as Hn.
  destruct (node s1) as [s2 [n|e]]; [|done].
  unfold mbind at 1, svc_bind at 1. pose proof (current_total s2) as Hc.
  destruct (current_guests s2) as [s3 [samples|e]]; [|done].
  by exists s3, samples, n, pools.
Qed.
End loop.
