(* ===== verification/Programs.v ===== *)
(** * The two programs (src/src/main.rs, src/src/bin/daygleve-broker.rs) and what they
      do at the edges: timers, the health endpoint (src/src/api/health.rs) and the file of
      the first password (src/src/services/auth.rs) *)

From S2P Require Export Startup BrokerServe Users.

(** ** The HTTP server *)

Section main.
Context {S Tls Listener SocketAddr : Type} (show_addr : SocketAddr → str).
(** [AppState::new], the paths of the ACME certificate, reading a certificate and its key,
    handing the listener's handle to ACME, binding, and serving until an error. *)
Context (app_state_new : Svc S unit) (installed_tls_paths : S → S * option (str * str))
  (from_pem_file : str → str → Io S str Tls) (set_reload_handle : Tls → S → S)
  (bind : SocketAddr → Io S str Listener) (serve_https : SocketAddr → Tls → Io S str unit)
  (serve_http : Listener → Io S str unit).

Definition main (config : Config (SocketAddr:=SocketAddr)) : Io S str unit :=
  let addr := cf_listen_addr config in
  _ ← io_map_err (λ e, "initialize state: " ++ message e) app_state_new;
  acme_tls ← (λ s, let '(s, p) := installed_tls_paths s in (s, Ok p));
  match tls_source acme_tls config with
  | Some (cert, key, from_acme) =>
      tls ← io_map_err (λ e, "load TLS cert/key: " ++ e) (from_pem_file cert key);
      _ ← (if from_acme : bool then io_modify (set_reload_handle tls) else mret tt);
      io_map_err (λ e, "serve https: " ++ e) (serve_https addr tls)
  | None =>
      listener ← io_map_err (λ e, "bind " ++ show_addr addr ++ ": " ++ e) (bind addr);
      io_map_err (λ e, "serve: " ++ e) (serve_http listener)
  end.

(** Plain HTTP is served when, and only when, there is neither a certificate of ACME nor
    both files in the configuration: one file alone is not enough. *)
Lemma plain_http_when acme_tls (config : Config (SocketAddr:=SocketAddr)) :
  tls_source acme_tls config = None ↔
    acme_tls = None ∧ (cf_tls_cert config = None ∨ cf_tls_key config = None).
Proof.
  unfold tls_source, tls. destruct acme_tls; [naive_solver|].
  destruct (cf_tls_cert config), (cf_tls_key config); naive_solver.
Qed.
(** A certificate that cannot be read is never answered with plain HTTP: the program
    ends. *)
Lemma bad_certificate_ends config s s1 s2 s3 p cert key from_acme e :
  app_state_new s = (s1, Ok tt) → installed_tls_paths s1 = (s2, p) →
  tls_source p config = Some (cert, key, from_acme) → from_pem_file cert key s2 = (s3, Err e) →
  main config s = (s3, Err ("load TLS cert/key: " ++ e)).
Proof.
  intros H1 H2 H3 H4. unfold main, mbind, io_bind, io_map_err. rewrite H1. cbn. rewrite H2, H3. by rewrite H4.
Qed.
End main.

(** ** The broker *)

Section broker_main.
Context `{Codec} {X : Type} (strerror : errno → str) (address_in_use : str).
Context (output : command → N → X → X * outcome).
Context (spawn : command → option (list (list N)) → N → X → X * result (bool * str) child).
Context (pty_reads : str → list (list N) → N → X → X * list read_event).

Definition broker_main (var : string → option str) (accepted : list (result str connection)) :
    Io (World X) str unit :=
  match broker_config var with
  | Ok (socket_path, allowed_uid) => serve strerror address_in_use output spawn pty_reads socket_path allowed_uid accepted
  | Err e => io_err e
  end.

(** Without a numeric user id in its environment the broker touches nothing. *)
Lemma broker_needs_peer var accepted w :
  (var "DAYGLEVE_BROKER_UID" = None ∨ ∃ s, var "DAYGLEVE_BROKER_UID" = Some s ∧ parse_uint U32_MAX s = None) →
  (broker_main var accepted w).1 = w.
Proof.
  unfold broker_main, broker_config. intros [-> |(s & -> & Hs)]; cbn; [done|]. by rewrite Hs.
Qed.
End broker_main.

(** ** Timers

    [start_scheduler] of the schedules: a tick every 30 seconds, whose failure is only
    logged. *)
Section timer.
Context {S : Type} (run_due : Svc S unit).

Fixpoint ticks (n : nat) : Svc S unit :=
  match n with O => mret tt | Datatypes.S n => _ ← ignore run_due; ticks n end.

(** No failure ends the loop: every tick runs, from what the one before it left. *)
Lemma ticks_go_on n s : ticks n s = (Nat.iter n (λ s, (run_due s).1) s, Ok tt).
Proof.
  revert s. induction n as [|n IH]; intros s; [done|]. change (ticks (Datatypes.S n) s) with (ticks n (run_due s).1).
  by rewrite IH, Nat.iter_succ_r.
Qed.
End timer.

(** ** Health *)

Record HealthStatus := mkHealth {
  hs_healthy : bool; hs_version : str; hs_api_version : str; hs_uptime_seconds : N }.
(** [API_VERSION] is the schema's. *)
Definition health (api_version : str) (started_at now : N) : HealthStatus :=
  mkHealth true (lit "1.0.0") api_version (uptime_seconds started_at now).

(** ** The file of the first password *)

(** [generate_initial_password] of 18 random bytes. *)
Definition generate_initial_password (random : list N) : str := AuthService.hex_of random.

(** Files with their modes, and the outcomes of the next operations: an operation that
    fails may have left a part of what it writes. *)
Record Disk := mkDisk {
  dk_dirs : gset str; dk_files : gmap str (str * N); dk_faults : list (option (str * option str)) }.

Section secret.
(** The mode the umask leaves a new file. *)
Context (umask_mode : N).

Definition disk_op (what : str) (failed : str → Disk → Disk) (f : Disk → Disk) : Svc Disk unit := λ d,
  let next fs := mkDisk (dk_dirs d) (dk_files d) fs in
  match dk_faults d with
  | Some (e, part) :: fs =>
      (match part with Some part => failed part (next fs) | None => next fs end, Err (internal (what ++ ": " ++ e)))
  | None :: fs => (f (next fs), Ok tt)
  | [] => (f d, Ok tt)
  end.
(** [tokio::fs::write]: a file that exists keeps its mode. *)
Definition put_content (path content : str) (d : Disk) : Disk :=
  let mode := match dk_files d !! path with Some (_, m) => m | None => umask_mode end in
  mkDisk (dk_dirs d) (<[path := (content, mode)]> (dk_files d)) (dk_faults d).
Definition put_mode (path : str) (mode : N) (d : Disk) : Disk :=
  mkDisk (dk_dirs d) (alter (λ f, (f.1, mode)) path (dk_files d)) (dk_faults d).
Definition SECRET_MODE : N := 384.

(** [write_secret_file] of [dir.join(name)]. *)
Definition write_secret_file (dir : str) (name : string) (secret : str) : Svc Disk unit :=
  let path := dir_join dir name in
  _ ← disk_op ("create " ++ dir) (λ _, id) (λ d, mkDisk ({[dir]} ∪ dk_dirs d) (dk_files d) (dk_faults d));
  _ ← disk_op ("write " ++ path) (put_content path) (put_content path (secret ++ [10%N]));
  disk_op ("secure " ++ path) (λ _, id) (put_mode path SECRET_MODE).

(** *** What it leaves *)

Lemma disk_op_inv what failed f d d' r : disk_op what failed f d = (d', r) →
  (r = Ok tt ∧ ∃ fs, d' = f (mkDisk (dk_dirs d) (dk_files d) fs)) ∨
  (∃ e, r = Err e) ∧ ∃ fs, d' = mkDisk (dk_dirs d) (dk_files d) fs ∨
    ∃ part, d' = failed part (mkDisk (dk_dirs d) (dk_files d) fs).
Proof.
  unfold disk_op. destruct d as [ds files [|[[e [part|]]|] fs]]; cbn; intros [= <- <-]; eauto 10.
Qed.

(** Written, the file holds the secret and is its owner's alone; whatever happens, no
    other file changes. *)
Lemma secret_written dir name secret d d' r : write_secret_file dir name secret d = (d', r) →
  (r = Ok tt → dk_files d' !! dir_join dir name = Some (secret ++ [10%N], SECRET_MODE)) ∧
  ∀ p, p ≠ dir_join dir name → dk_files d' !! p = dk_files d !! p.
Proof.
  unfold write_secret_file, mbind, io_bind. cbv zeta.
  match goal with |- context [disk_op ?what ?g ?f d] => destruct (disk_op what g f d) as [d1 r1] eqn:E1 end.
  apply disk_op_inv in E1 as [(-> & fs1 & ->)|((e & ->) & fs1 & E1)].
  2: { intros [= <- <-]. split; [done|]. intros p _. destruct E1 as [-> |[part ->]]; done. }
  cbn iota. match goal with |- context [disk_op ?what (put_content ?p) ?f ?d] =>
    destruct (disk_op what (put_content p) f d) as [d2 r2] eqn:E2 end.
  apply disk_op_inv in E2 as [(-> & fs2 & ->)|((e & ->) & fs2 & E2)].
  2: { intros [= <- <-]. split; [done|]. intros p Hp. destruct E2 as [-> |[part ->]]; cbn; [done|].
       by rewrite lookup_insert_ne. }
  intros [(-> & fs3 & ->)|((e & ->) & fs3 & E3)]%disk_op_inv.
  - cbn. split; [intros _; by rewrite lookup_alter_eq, lookup_insert_eq|]. intros p Hp.
    by rewrite lookup_alter_ne, lookup_insert_ne.
  - split; [done|]. intros p Hp. destruct E3 as [-> |[part ->]]; cbn; by rewrite lookup_insert_ne.
Qed.

(** When restricting the mode of a new file fails, the file is there with the secret,
    under the mode of the umask. *)
Lemma secret_left_open dir name secret d e : dk_faults d = [None; None; Some (e, None)] →
  dk_files d !! dir_join dir name = None →
  let r := write_secret_file dir name secret d in
  is_ok r.2 = false ∧ dk_files r.1 !! dir_join dir name = Some (secret ++ [10%N], umask_mode).
Proof.
  intros Hf Hn. unfold write_secret_file, mbind, io_bind, disk_op. rewrite Hf. cbn. rewrite Hn.
  by rewrite lookup_insert_eq.
Qed.

End secret.

(** The generated password of 18 bytes has 36 characters, enough for the accounts'
    minimum. *)
Lemma hex_of_length bs : length (AuthService.hex_of bs) = (2 * length bs)%nat.
Proof. unfold AuthService.hex_of. induction bs as [|b bs IH]; [done|]. cbn. rewrite IH. lia. Qed.
Lemma hex_of_ascii bs : Forall (λ b, (b < 256)%N) bs → forallb is_ascii (AuthService.hex_of bs) = true.
Proof.
  unfold AuthService.hex_of, is_ascii. induction 1 as [|b bs Hb _ IH]; [done|].
  assert (∀ d, (d < 16)%N → (AuthService.lower_hex_digit d <? 128)%N = true) as Hd.
  { intros d Hd. unfold AuthService.lower_hex_digit. destruct (d <? 10)%N; apply N.ltb_lt; lia. }
  cbn [flat_map AuthService.hex2 app forallb]. rewrite !Hd, IH; [done| |].
  - by apply N.mod_lt.
  - by apply N.Div0.div_lt_upper_bound.
Qed.
Lemma generated_password_long random : length random = 18%nat → Forall (λ b, (b < 256)%N) random →
  len (generate_initial_password random) = 36%N ∧
  AuthService.short_password (generate_initial_password random) = false.
Proof.
  intros Hl Hb. unfold AuthService.short_password. rewrite len_ascii by by apply hex_of_ascii.
  unfold generate_initial_password. rewrite hex_of_length, Hl. by split.
Qed.
