(* ===== verification/Acme.v ===== *)
(** * The ACME service (src/src/services/acme.rs)

    The node's certificate: its configuration, the order at the authority, the files it
    keeps below [<state_dir>/acme] and the renewal.  The file system has a schedule of
    faults, of which each operation uses up one; a write that fails leaves what its
    fault says in the file.  The authority and the crates that speak to it, JSON, keys
    and certificates are parameters; times are nanoseconds. *)

From S2P Require Export Errors Cache NetAddr.

(** ** Data *)

Record AcmeConfig := mkAcmeConfig {
  af_enabled : bool; af_directory_url : str; af_contact_email : str; af_domains : list str;
  af_terms_agreed : bool; af_renewal_days : N }.
Record UpdateAcmeConfigRequest := mkUpdateAcme {
  ua_enabled : bool; ua_directory_url : str; ua_contact_email : str; ua_domains : list str;
  ua_terms_agreed : bool; ua_renewal_days : option N }.
Inductive AcmeState := AcmeDisabled | AcmeError | AcmeActive | AcmePending.
Record AcmeStatus := mkAcmeStatus {
  as_config : AcmeConfig; as_state : AcmeState; as_certificate_domains : list str;
  as_issued_at : option str; as_expires_at : option str; as_last_renewal_at : option str;
  as_last_error : option str; as_account_registered : bool }.
Record CertMeta := mkMeta {
  cm_domains : list str; cm_issued_at : option str; cm_expires_at : option str;
  cm_last_renewal_at : option str; cm_last_error : option str }.
Definition no_meta : CertMeta := mkMeta [] None None None None.
Record InstalledCert := mkInstalled { ic_issued_at : str; ic_expires_at : str }.

(** [CONFIG_FILE], [ACCOUNT_FILE], [META_FILE], [CERT_FILE] and [KEY_FILE]. *)
Inductive AcmeFile := ConfigFile | AccountFile | MetaFile | CertFile | KeyFile.
#[export] Instance AcmeFile_eq_dec : EqDecision AcmeFile.
Proof. solve_decision. Defined.

Definition DEFAULT_RENEWAL_DAYS : N := 30.
Definition ORDER_POLL_ATTEMPTS : nat := 30.

(** What the authority answers. *)
Inductive AuthorizationStatus := AuthzValid | AuthzPending | AuthzOther (debug : str).
Inductive OrderStatus := OrderReady | OrderValid | OrderInvalid | OrderPending | OrderProcessing.
Record Challenge := mkChallenge { ch_http01 : bool; ch_token : str; ch_url : str }.
Record Authorization := mkAuthz { az_status : AuthorizationStatus; az_challenges : list Challenge }.

(** ** Configuration *)

Definition is_domain (value : str) : bool :=
  if is_empty value || (253 <? len value)%N || negb (contains_char (ch ".") value) then false
  else forallb (λ label,
    negb (is_empty label) && (len label <=? 63)%N && negb (starts_with "-" label)
    && negb (ends_with "-" label)
    && forallb (λ b, is_ascii_alphanumeric b || (b =? ch "-")%N) (bytes label)) (split (ch ".") value).

Definition is_email (value : str) : bool :=
  match split (ch "@") value with
  | [local; domain] =>
      negb (is_empty local) && negb (existsb (λ c, is_whitespace c || is_control c) value) && is_domain domain
  | _ => false
  end.

Definition clean_domains (domains : list str) : list str :=
  List.filter (λ d, negb (is_empty d)) (map (λ d, to_ascii_lowercase (trim d)) domains).

Definition validate_config (req : UpdateAcmeConfigRequest) : ApiResult AcmeConfig :=
  let renewal_days := default DEFAULT_RENEWAL_DAYS (ua_renewal_days req) in
  if negb ((1 <=? renewal_days)%N && (renewal_days <=? 89)%N) then
    Err (validation "renewal_days must be between 1 and 89")
  else
    let directory_url := trim (ua_directory_url req) in
    let contact_email := trim (ua_contact_email req) in
    let domains := clean_domains (ua_domains req) in
    _ ← (if ua_enabled req then
           if negb (starts_with "https://" directory_url) then
             Err (validation "directory_url must be an https:// URL")
           else if negb (is_email contact_email) then Err (validation "contact_email is not a valid email")
           else if match domains with [] => true | _ => false end then
             Err (validation "at least one domain is required")
           else
             _ ← for_each (λ d, if negb (is_domain d) then Err (validation ("invalid domain: " ++ debug_str d))
                                else Ok tt) domains;
             if negb (ua_terms_agreed req) then
               Err (validation "you must agree to the CA terms of service to enable ACME")
             else Ok tt
         else Ok tt);
    Ok (mkAcmeConfig (ua_enabled req) directory_url contact_email domains (ua_terms_agreed req) renewal_days).

Definition DAY : Z := 86400 * 1000000000.

Module AcmeService.
Section service.
Context (LETS_ENCRYPT_PRODUCTION : str).
(** Times. *)
Context (to_rfc3339 : Z → str) (parse_from_rfc3339 : str → option Z) (from_timestamp : Z → option str).
(** The authority, the account at it, an order, keys and certificates. *)
Context {W Account Credentials Order Params KeyPair Csr Pem Handle : Type}.
Context (account_restore : Credentials → W → W * result str Account)
  (account_create : str → bool → str → W → W * result str (Account * Credentials))
  (new_order : Account → list str → W → W * result str Order)
  (authorizations : Order → W → W * result str (list Authorization))
  (key_authorization : Order → Challenge → str)
  (set_challenge_ready : Order → str → W → W * result str unit)
  (refresh : Order → W → W * result str OrderStatus)
  (csr_params : list str → result str Params) (generate : W → W * result str KeyPair)
  (serialize_request : Params → KeyPair → result str Csr) (serialize_pem : KeyPair → str)
  (finalize : Order → Csr → W → W * result str unit)
  (certificate : Order → W → W * result str (option str))
  (parse_x509_pem : str → result str Pem) (parse_x509 : Pem → result str (Z * Z))
  (reload_from_pem_file : Handle → option (list N) → option (list N) → W → W * result str unit).
(** JSON. *)
Context (config_json : AcmeConfig → list N) (config_of : list N → option AcmeConfig)
  (meta_json : CertMeta → list N) (meta_of : list N → option CertMeta)
  (account_json : str → Credentials → list N) (account_of : list N → option (str * Credentials)).

Definition default_config : AcmeConfig :=
  mkAcmeConfig false LETS_ENCRYPT_PRODUCTION [] [] false DEFAULT_RENEWAL_DAYS.

Definition should_renew (expires_at : str) (renewal_days : N) (now : Z) : bool :=
  match parse_from_rfc3339 expires_at with
  | Some exp => (exp - Z.of_N renewal_days * DAY <=? now)%Z
  | None => true
  end.

Definition parse_cert_validity (pem_chain : str) : ApiResult (str * str) :=
  pem ← map_err (λ e, internal ("parse issued cert pem: " ++ e)) (parse_x509_pem pem_chain);
  validity ← map_err (λ e, internal ("parse issued cert: " ++ e)) (parse_x509 pem);
  let rfc t := ok_or (internal "certificate validity timestamp out of range") (from_timestamp t) in
  before ← rfc validity.1;
  after ← rfc validity.2;
  Ok (before, after).

(** [dir]: whether the directory exists. *)
Record state := mkState {
  dir : bool; files : AcmeFile → option (list N); faults : list (option (str * option (list N)));
  challenges : gmap str str; reload : option Handle; issuing : bool; ca : W }.
Definition set_files (d : bool) (f : AcmeFile → option (list N)) (s : state) : state :=
  mkState d f (faults s) (challenges s) (reload s) (issuing s) (ca s).
Definition set_faults (fs : list (option (str * option (list N)))) (s : state) : state :=
  mkState (dir s) (files s) fs (challenges s) (reload s) (issuing s) (ca s).
Definition set_challenges (c : gmap str str) : Svc state unit := modify (λ s,
  mkState (dir s) (files s) (faults s) c (reload s) (issuing s) (ca s)).
Definition set_issuing (b : bool) : Svc state unit := modify (λ s,
  mkState (dir s) (files s) (faults s) (challenges s) (reload s) b (ca s)).
Definition set_reload_handle (h : Handle) : Svc state unit := modify (λ s,
  mkState (dir s) (files s) (faults s) (challenges s) (Some h) (issuing s) (ca s)).

(** A file operation: [failed] when the next fault is one. *)
Definition sys {A} (failed : option (list N) → state → state) (k : state → state * result str A) :
    Svc state (result str A) := λ s,
  match faults s with
  | Some (e, kept) :: fs => (failed kept (set_faults fs s), Ok (Err e))
  | None :: fs => let '(s, r) := k (set_faults fs s) in (s, Ok r)
  | [] => let '(s, r) := k s in (s, Ok r)
  end.
Definition put_file (f : AcmeFile) (b : option (list N)) (s : state) : state :=
  set_files (dir s) (λ g, if decide (g = f) then b else files s g) s.
(** [tokio::fs::write], [read] and [metadata] of a file of the directory. *)
Definition fs_write (f : AcmeFile) (b : list N) : Svc state (result str unit) :=
  sys (λ kept s, match kept with Some b => put_file f (Some b) s | None => s end)
    (λ s, (put_file f (Some b) s, Ok tt)).
Definition fs_read (f : AcmeFile) : Svc state (result str (list N)) :=
  sys (λ _ s, s) (λ s, (s, ok_or (lit "No such file or directory (os error 2)") (files s f))).
Definition fs_metadata (f : AcmeFile) : Svc state (result str unit) :=
  sys (λ _ s, s) (λ s, (s, ok_or (lit "No such file or directory (os error 2)") (_ ← files s f; Some tt))).
(** A call of the authority. *)
Definition at_ca {A} (what : string) (call : W → W * result str A) : Svc state A := λ s,
  let '(w, r) := call (ca s) in
  (mkState (dir s) (files s) (faults s) (challenges s) (reload s) (issuing s) w,
   map_err (λ e, hypervisor (lit what ++ e)) r).

(** ** Files *)

Definition resolve_dir (create : bool) : Svc state (option unit) :=
  _ ← (if create then
         r ← sys (λ _ s, s) (λ s, (set_files true (files s) s, Ok tt));
         lift (map_err (λ e, internal ("create acme dir: " ++ e)) r)
       else mret tt);
  found ← sys (λ _ s, s) (λ s, (s, if dir s then Ok tt else Err (lit "No such file or directory (os error 2)")));
  match found with
  | Ok _ => mret (Some tt)
  | Err e => if create then fail (internal ("resolve acme dir: " ++ e)) else mret None
  end.
(** [resolve_file] of a constant name is the name itself, in the directory. *)
Definition resolve_file (create : bool) (file : AcmeFile) : Svc state (option AcmeFile) :=
  d ← resolve_dir create; mret (_ ← d; Some file).
(** [resolve_file(true, ..)?.expect(..)]. *)
Definition created_file (file : AcmeFile) : Svc state AcmeFile :=
  p ← resolve_file true file; mret (default file p).

(** What a file holds, if it can be read and understood. *)
Definition stored {A} (file : AcmeFile) (parse : list N → option A) (dflt : A) : Svc state A :=
  p ← attempt (resolve_file false file);
  match p with
  | Ok (Some f) =>
      bytes ← fs_read f;
      mret (match bytes with Ok b => default dflt (parse b) | Err _ => dflt end)
  | _ => mret dflt
  end.
Definition config : Svc state AcmeConfig := stored ConfigFile config_of default_config.
Definition meta : Svc state CertMeta := stored MetaFile meta_of no_meta.
Definition write_meta (m : CertMeta) : Svc state unit :=
  f ← created_file MetaFile;
  r ← fs_write f (meta_json m);
  lift (map_err (λ e, internal ("write acme meta: " ++ e)) r).

Definition account_registered : Svc state bool :=
  p ← attempt (resolve_file false AccountFile);
  match p with
  | Ok (Some f) => r ← fs_metadata f; mret (is_ok r)
  | _ => mret false
  end.
Definition cert_installed : Svc state bool :=
  cert ← attempt (resolve_file false CertFile);
  key ← attempt (resolve_file false KeyFile);
  match cert, key with
  | Ok (Some cert), Ok (Some key) =>
      c ← fs_metadata cert;
      if is_ok c then k ← fs_metadata key; mret (is_ok k) else mret false
  | _, _ => mret false
  end.
Definition installed_tls_paths : Svc state (option (AcmeFile * AcmeFile)) :=
  c ← config;
  if negb (af_enabled c) then mret None
  else
    installed ← cert_installed;
    if negb installed then mret None
    else
      cert ← attempt (resolve_file false CertFile);
      match cert with
      | Ok (Some cert) =>
          key ← attempt (resolve_file false KeyFile);
          mret (match key with Ok (Some key) => Some (cert, key) | _ => None end)
      | _ => mret None
      end.

Definition state_of (c : AcmeConfig) (m : CertMeta) (installed : bool) : AcmeState :=
  if negb (af_enabled c) then AcmeDisabled
  else if bool_decide (is_Some (cm_last_error m)) && negb installed then AcmeError
  else if installed then AcmeActive else AcmePending.
Definition status : Svc state AcmeStatus :=
  c ← config;
  m ← meta;
  installed ← cert_installed;
  registered ← account_registered;
  mret (mkAcmeStatus c (state_of c m installed) (cm_domains m) (cm_issued_at m) (cm_expires_at m)
          (cm_last_renewal_at m) (cm_last_error m) registered).

Definition update_config (req : UpdateAcmeConfigRequest) : Svc state AcmeConfig :=
  c ← lift (validate_config req);
  f ← created_file ConfigFile;
  r ← fs_write f (config_json c);
  _ ← lift (map_err (λ e, internal ("write acme config: " ++ e)) r);
  mret c.

Definition challenge_response (token : str) : Svc state (option str) := gets (λ s, challenges s !! token).

(** ** Issuing *)

Definition new_account (c : AcmeConfig) (f : AcmeFile) : Svc state Account :=
  r ← at_ca "acme account create: "
        (account_create ("mailto:" ++ af_contact_email c) (af_terms_agreed c) (af_directory_url c));
  w ← fs_write f (account_json (af_directory_url c) r.2);
  _ ← lift (map_err (λ e, internal ("write acme account: " ++ e)) w);
  mret r.1.
Definition load_or_create_account (c : AcmeConfig) : Svc state Account :=
  f ← created_file AccountFile;
  bytes ← fs_read f;
  match (match bytes with Ok b => account_of b | Err _ => None end) with
  | Some (url, credentials) =>
      if url =s? af_directory_url c then at_ca "acme account restore: " (account_restore credentials)
      else new_account c f
  | None => new_account c f
  end.

(** Answer the pending authorizations: the URLs to report ready, and the tokens. *)
Fixpoint answer (order : Order) (l : list Authorization) : Svc state (list str * list str) :=
  match l with
  | [] => mret ([], [])
  | authz :: l =>
      match az_status authz with
      | AuthzValid => answer order l
      | AuthzOther debug => fail (hypervisor ("acme authorization in unexpected state " ++ debug))
      | AuthzPending =>
          challenge ← lift (ok_or (hypervisor "acme server offered no http-01 challenge")
                              (List.find ch_http01 (az_challenges authz)));
          all ← gets challenges;
          _ ← set_challenges (<[ch_token challenge := key_authorization order challenge]> all);
          rest ← answer order l;
          mret (ch_url challenge :: rest.1, ch_token challenge :: rest.2)
      end
  end.

Fixpoint poll_order_ready (attempts : nat) (order : Order) : Svc state unit :=
  match attempts with
  | O => fail (hypervisor "acme order did not become ready in time")
  | S n =>
      st ← at_ca "acme order refresh: " (refresh order);
      match st with
      | OrderReady | OrderValid => mret tt
      | OrderInvalid => fail (hypervisor "acme order became invalid (challenge validation failed)")
      | OrderPending | OrderProcessing => poll_order_ready n order
      end
  end.
Fixpoint poll_certificate (attempts : nat) (order : Order) : Svc state str :=
  match attempts with
  | O => fail (hypervisor "acme certificate was not issued in time")
  | S n =>
      r ← at_ca "acme certificate: " (certificate order);
      match r with Some pem => mret pem | None => poll_certificate n order end
  end.

Definition new_key_pair : Svc state KeyPair := λ s,
  let '(w, r) := generate (ca s) in
  (mkState (dir s) (files s) (faults s) (challenges s) (reload s) (issuing s) w,
   map_err (λ e, internal ("acme keypair: " ++ e)) r).
Definition finalize_order (c : AcmeConfig) (order : Order) (urls : list str) : Svc state (str * str) :=
  _ ← each (λ url, at_ca "acme set ready: " (set_challenge_ready order url)) urls;
  _ ← poll_order_ready ORDER_POLL_ATTEMPTS order;
  params ← lift (map_err (λ e, internal ("acme csr params: " ++ e)) (csr_params (af_domains c)));
  key_pair ← new_key_pair;
  csr ← lift (map_err (λ e, internal ("acme csr: " ++ e)) (serialize_request params key_pair));
  _ ← at_ca "acme finalize: " (finalize order csr);
  chain ← poll_certificate ORDER_POLL_ATTEMPTS order;
  mret (chain, serialize_pem key_pair).

(** The listener, if there is one, takes the files; its answer is only logged. *)
Definition live_reload (cert key : AcmeFile) : Svc state unit := λ s,
  match reload s with
  | Some h =>
      let '(w, _) := reload_from_pem_file h (files s cert) (files s key) (ca s) in
      (mkState (dir s) (files s) (faults s) (challenges s) (reload s) (issuing s) w, Ok tt)
  | None => (s, Ok tt)
  end.
Definition install_cert (cert_chain key_pem : str) : Svc state InstalledCert :=
  validity ← lift (parse_cert_validity cert_chain);
  cert ← created_file CertFile;
  key ← created_file KeyFile;
  r ← fs_write cert (bytes cert_chain);
  _ ← lift (map_err (λ e, internal ("write acme cert: " ++ e)) r);
  r ← fs_write key (bytes key_pem);
  _ ← lift (map_err (λ e, internal ("write acme key: " ++ e)) r);
  _ ← live_reload cert key;
  mret (mkInstalled validity.1 validity.2).

Definition issue_inner (c : AcmeConfig) : Svc state InstalledCert :=
  account ← load_or_create_account c;
  order ← at_ca "acme new order: " (new_order account (af_domains c));
  authzs ← at_ca "acme authorizations: " (authorizations order);
  answered ← answer order authzs;
  finalized ← attempt (finalize_order c order answered.1);
  all ← gets challenges;
  _ ← set_challenges (foldl (λ m token, delete token m) all answered.2);
  pair ← lift finalized;
  install_cert pair.1 pair.2.

(** The metadata after an attempt. *)
Definition meta_after (c : AcmeConfig) (now : Z) (result : ApiResult InstalledCert) (m : CertMeta) : CertMeta :=
  match result with
  | Ok installed =>
      mkMeta (af_domains c) (Some (ic_issued_at installed)) (Some (ic_expires_at installed))
        (Some (to_rfc3339 now)) None
  | Err e =>
      mkMeta (cm_domains m) (cm_issued_at m) (cm_expires_at m) (cm_last_renewal_at m) (Some (message e))
  end.
(** Under the guard. *)
Definition issue_guarded (c : AcmeConfig) (now : Z) : Svc state unit :=
  _ ← resolve_dir true;
  result ← attempt (issue_inner c);
  m ← meta;
  _ ← write_meta (meta_after c now result m);
  _ ← lift result;
  mret tt.
(** [try_lock]; the guard is dropped at the end, whatever that is. *)
Definition run_issuance (c : AcmeConfig) (now : Z) : Svc state unit :=
  busy ← gets issuing;
  if busy : bool then mret tt
  else
    _ ← set_issuing true;
    r ← attempt (issue_guarded c now);
    _ ← set_issuing false;
    lift r.

(** The answer of the issue endpoint, and whether a task runs [run_issuance]. *)
Definition trigger_issue : Svc state (AcmeStatus * bool) :=
  c ← config;
  if negb (af_enabled c) then fail (validation "enable ACME and set at least one domain before issuing")
  else if match af_domains c with [] => true | _ => false end then
    fail (validation "configure at least one domain first")
  else st ← status; mret (st, true).

(** One turn of [start_scheduler]. *)
Definition renewal_tick (now : Z) : Svc state unit :=
  c ← config;
  if negb (af_enabled c) || match af_domains c with [] => true | _ => false end then mret tt
  else
    m ← meta;
    let due := match cm_expires_at m with
               | Some ts => should_renew ts (af_renewal_days c) now
               | None => true end in
    installed ← cert_installed;
    if negb installed || due then ignore (run_issuance c now) else mret tt.
End service.
End AcmeService.
