(* ===== verification/AcmeProofs.v ===== *)
(** * ACME: the configurations that are accepted, and issuing that is all or nothing *)

From S2P Require Export Acme.

(** ** Configuration *)

(** [t] is [s] without the white space around it. *)
Definition blank (s : str) : Prop := Forall (λ c, is_whitespace c = true) s.
Definition trims (s t : str) : Prop :=
  (∃ a b, s = a ++ t ++ b ∧ blank a ∧ blank b) ∧
  (∀ c, head t = Some c → is_whitespace c = false) ∧ (∀ c, last t = Some c → is_whitespace c = false).
(** A label of a host name: letters, digits and inner hyphens, 63 of them at most. *)
Definition host_label (l : str) : Prop :=
  (1 ≤ length l ≤ 63)%nat ∧
  Forall (λ c, (48 <= c <= 57 ∨ 65 <= c <= 90 ∨ 97 <= c <= 122 ∨ c = 45)%N) l ∧
  head l ≠ Some 45%N ∧ last l ≠ Some 45%N.
(** A host name: two labels or more, with dots between them, of 253 characters at most. *)
Definition host_name (d : str) : Prop :=
  ∃ labels, d = join (lit ".") labels ∧ (2 ≤ length labels)%nat ∧ (length d ≤ 253)%nat ∧ Forall host_label labels.
(** An e-mail address: something without blanks at a host name. *)
Definition mail_address (e : str) : Prop :=
  ∃ local domain, e = local ++ lit "@" ++ domain ∧ local ≠ [] ∧ host_name domain ∧
    Forall (λ c, c ≠ ch "@" ∧ is_whitespace c = false ∧ is_control c = false) local.
Definition lower_case (c : N) : N := if ((65 <=? c) && (c <=? 90))%N then (c + 32)%N else c.
(** The domains that are kept: trimmed, in lower case, without the blank ones. *)
Inductive cleaned : list str → list str → Prop :=
  | cleaned_nil : cleaned [] []
  | cleaned_blank d ds cs : blank d → cleaned ds cs → cleaned (d :: ds) cs
  | cleaned_keep d t ds cs : trims d t → t ≠ [] → cleaned ds cs → cleaned (d :: ds) (map lower_case t :: cs).

(** *** Trimming *)

Lemma drop_while_split (p : char → bool) s : ∃ u, s = u ++ drop_while p s ∧ Forall (λ c, p c = true) u.
Proof.
  induction s as [|c s (u & IH & Hu)]; [by exists []|]. simpl. destruct (p c) eqn:E; [|by exists []].
  exists (c :: u). simpl. rewrite <- IH. split; [done|by constructor].
Qed.
Lemma drop_while_skip (p : char → bool) a s : Forall (λ c, p c = true) a → drop_while p (a ++ s) = drop_while p s.
Proof. induction 1 as [|c a Hc _ IH]; simpl; [done|by rewrite Hc]. Qed.
Lemma trims_iff s t : trims s t ↔ t = trim s.
Proof.
  split.
  - intros ((a & b & -> & Ha & Hb) & Hh & Hl). symmetry. unfold trim, trim_start, trim_start_by, trim_end, trim_end_by.
    rewrite drop_while_skip by done.
    assert (Forall (λ c, is_whitespace c = true) (reverse b)) as Hb' by by apply Forall_reverse.
    destruct (decide (t = [])) as [->|Hne].
    + rewrite <- (app_nil_r b). simpl. by rewrite drop_while_skip.
    + assert (drop_while is_whitespace (t ++ b) = t ++ b) as ->.
      { destruct t as [|c t]; [done|]. simpl. by rewrite (Hh c). }
      rewrite reverse_app, drop_while_skip by done.
      destruct (last t) as [x|] eqn:E; [|by apply last_None in E].
      apply last_Some in E as [u ->]. rewrite reverse_app. simpl. rewrite (Hl x) by done.
      by rewrite reverse_cons, reverse_involutive.
  - intros ->. split; [|split; [apply trim_head|apply trim_last]].
    destruct (drop_while_split is_whitespace s) as (a & Ha & Hab).
    destruct (drop_while_split is_whitespace (reverse (trim_start s))) as (b & Hb & Hbb).
    exists a, (reverse b). split; [|split; [done|by apply Forall_reverse]].
    rewrite Ha at 1. f_equal. change (drop_while is_whitespace s) with (trim_start s).
    apply (f_equal reverse) in Hb. rewrite reverse_involutive, reverse_app in Hb. by rewrite Hb at 1.
Qed.
Lemma blank_trim s : blank s ↔ trim s = [].
Proof.
  split; [|intros E; pose proof (proj2 (trims_iff s []) (eq_sym E)) as ((a & b & -> & Ha & Hb) & _); by apply Forall_app].
  intros Hb. symmetry. apply trims_iff. split; [|done]. exists s, []. split; [by rewrite app_nil_r|]. by split; [|constructor].
Qed.
Lemma cleaned_iff ds cs : cleaned ds cs ↔ cs = clean_domains ds.
Proof.
  unfold clean_domains. split.
  - induction 1 as [|d ds cs Hd _ IH|d t ds cs Ht Hn _ IH]; cbn [map List.filter]; [done| |].
    + by rewrite (proj1 (blank_trim d) Hd).
    + apply trims_iff in Ht as ->. unfold to_ascii_lowercase at 1. destruct (trim d) eqn:E; [done|].
      rewrite <- E. rewrite <- IH. by destruct (trim d).
  - intros ->. induction ds as [|d ds IH]; cbn [map List.filter]; [constructor|].
    destruct (trim d) as [|c t] eqn:E; cbn; [apply cleaned_blank; [by apply blank_trim|done]|].
    apply (cleaned_keep d (c :: t)); [by apply trims_iff|done|done].
Qed.

(** *** Host names and addresses *)

Lemma split_join (c : char) ls : ls ≠ [] → Forall (λ l, c ∉ l) ls → split c (join [c] ls) = ls.
Proof.
  intros Hne Hl. induction Hl as [|l ls Hl Hls IH]; [done|]. destruct ls as [|l' ls]; simpl; [by apply split_nosep|].
  change (split c (l ++ c :: join [c] (l' :: ls)) = l :: l' :: ls).
  by rewrite split_sep, split_nosep, IH.
Qed.
Definition host_char (c : N) : bool := is_ascii_alphanumeric c || (c =? ch "-")%N.
Lemma host_char_iff c : host_char c = true ↔ (48 <= c <= 57 ∨ 65 <= c <= 90 ∨ 97 <= c <= 122 ∨ c = 45)%N.
Proof.
  unfold host_char, is_ascii_alphanumeric, is_ascii_digit, is_ascii_uppercase, is_ascii_lowercase.
  rewrite !orb_true_iff, !in_range_spec, N.eqb_eq. change (ch "-") with 45%N. tauto.
Qed.
Lemma host_char_ascii s : forallb host_char s = true → forallb is_ascii s = true.
Proof.
  rewrite !forallb_Forall. intros Hs. eapply Forall_impl; [exact Hs|]. intros c Hc%host_char_iff.
  unfold is_ascii. apply N.ltb_lt. lia.
Qed.
Lemma host_label_iff l :
  negb (is_empty l) && (len l <=? 63)%N && negb (starts_with "-" l) && negb (ends_with "-" l)
    && forallb host_char (bytes l) = true ↔ host_label l.
Proof.
  assert (forallb host_char (bytes l) = forallb host_char l) as ->.
  { apply forallb_bytes. intros b Hb%host_char_iff. lia. }
  assert (forallb host_char l = true ↔ Forall (λ c, (48 <= c <= 57 ∨ 65 <= c <= 90 ∨ 97 <= c <= 122 ∨ c = 45)%N) l) as Hc.
  { rewrite forallb_Forall. apply Forall_iff. intros c. apply host_char_iff. }
  assert (starts_with "-" l = true ↔ head l = Some 45%N) as Hs.
  { rewrite starts_with_spec, head_Some. done. }
  assert (ends_with "-" l = true ↔ last l = Some 45%N) as He.
  { rewrite ends_with_spec, last_Some. done. }
  unfold host_label. rewrite !andb_true_iff, !negb_true_iff, N.leb_le, Hc, <- !not_true_iff_false, Hs, He.
  destruct (forallb host_char l) eqn:E.
  - rewrite (len_ascii l) by by apply host_char_ascii. destruct l; simpl; naive_solver lia.
  - assert (¬ Forall (λ c, (48 <= c <= 57 ∨ 65 <= c <= 90 ∨ 97 <= c <= 122 ∨ c = 45)%N) l) as Hn
      by (intros H; apply Hc in H; done). naive_solver.
Qed.
Lemma host_label_chars l : host_label l → Forall (λ c, host_char c = true) l.
Proof. intros (_ & Hl & _). eapply Forall_impl; [exact Hl|]. intros c. apply host_char_iff. Qed.
Lemma host_name_chars labels :
  Forall host_label labels → Forall (λ c, host_char c = true ∨ c = 46%N) (join (lit ".") labels).
Proof.
  induction 1 as [|l ls Hl _ IH]; [constructor|]. apply host_label_chars in Hl.
  assert (Forall (λ c, host_char c = true ∨ c = 46%N) l) as Hl' by (eapply Forall_impl; [exact Hl|]; auto).
  destruct ls as [|l' ls]; [done|]. simpl join. apply Forall_app. split; [done|]. constructor; [by right|exact IH].
Qed.
Lemma host_name_ascii labels : Forall host_label labels → forallb is_ascii (join (lit ".") labels) = true.
Proof.
  intros H%host_name_chars. apply forallb_Forall. eapply Forall_impl; [exact H|]. intros c Hc. apply N.ltb_lt.
  destruct Hc as [Hc%host_char_iff| ->]; lia.
Qed.
Lemma is_domain_iff d : is_domain d = true ↔ host_name d.
Proof.
  unfold is_domain. fold host_char.
  assert (∀ ls, forallb (λ label, negb (is_empty label) && (len label <=? 63)%N && negb (starts_with "-" label)
    && negb (ends_with "-" label) && forallb host_char (bytes label)) ls = true ↔ Forall host_label ls) as Hall.
  { intros ls. rewrite forallb_Forall. apply Forall_iff. intros l. apply host_label_iff. }
  change (forallb _ (split (ch ".") d)) with (forallb (λ label, negb (is_empty label) && (len label <=? 63)%N
    && negb (starts_with "-" label) && negb (ends_with "-" label) && forallb host_char (bytes label)) (split (ch ".") d)).
  split.
  - destruct (is_empty d || (253 <? len d)%N || negb (contains_char (ch ".") d)) eqn:E; [done|].
    apply orb_false_iff in E as [[E1 E2]%orb_false_iff E3%negb_false_iff]. intros Hl%Hall.
    assert (d = join (lit ".") (split (ch ".") d)) as Hd by (symmetry; apply (join_split (ch "."))).
    exists (split (ch ".") d). split_and!; [done| | |done].
    + destruct (split (ch ".") d) as [|p [|q ps]] eqn:Es; simpl; [by simpl in Hd; subst d|exfalso|lia].
      simpl in Hd. pose proof (split_no_sep (ch ".") d) as Hno. rewrite Es in Hno.
      apply Forall_inv in Hno. apply contains_char_spec in E3. by subst p.
    + apply host_name_ascii in Hl. rewrite <- Hd in Hl. apply len_ascii in Hl. apply N.ltb_ge in E2. lia.
  - intros (labels & -> & H2 & Hlen & Hl).
    assert (Forall (λ l, ch "." ∉ l) labels) as Hno.
    { eapply Forall_impl; [exact Hl|]. intros l Hc%host_label_chars Hin.
      apply (proj1 (Forall_forall _ _) Hc) in Hin. by vm_compute in Hin. }
    change (lit ".") with [ch "."] in *. rewrite (split_join (ch ".")) by (done || by intros ->; simpl in H2; lia).
    rewrite (proj2 (Hall labels) Hl).
    assert (is_empty (join [ch "."] labels) || (253 <? len (join [ch "."] labels))%N
      || negb (contains_char (ch ".") (join [ch "."] labels)) = false) as ->; [|done].
    destruct labels as [|l [|l' ls]]; simpl in H2; [lia..|].
    rewrite !orb_false_iff, negb_false_iff, N.ltb_ge. split_and!.
    + apply Forall_inv in Hl as ([? _] & _). by destruct l; simpl in *; [lia|].
    + rewrite len_ascii by by apply (host_name_ascii (l :: l' :: ls)). lia.
    + apply contains_char_spec. simpl. set_solver.
Qed.
Lemma is_email_iff e : is_email e = true ↔ mail_address e.
Proof.
  unfold is_email. split.
  - destruct (split (ch "@") e) as [|local [|domain [|]]] eqn:Es; try done.
    pose proof (join_split (ch "@") e) as Hj. rewrite Es in Hj. simpl in Hj.
    pose proof (split_no_sep (ch "@") e) as Hno. rewrite Es in Hno. apply Forall_inv in Hno.
    rewrite !andb_true_iff, !negb_true_iff, is_domain_iff. intros ((Hl & Hw) & Hd).
    exists local, domain. split_and!; [done|by destruct local|done|].
    apply existsb_false in Hw. rewrite <- Hj in Hw. apply Forall_app in Hw as [Hw _].
    apply Forall_forall. intros c Hc. pose proof (proj1 (Forall_forall _ _) Hw c Hc) as Hb.
    apply orb_false_iff in Hb. split; [|done]. by intros ->.
  - intros (local & domain & -> & Hne & Hd & Hl).
    assert (Forall (λ c, host_char c = true ∨ c = 46%N) domain) as Hdc.
    { destruct Hd as (labels & -> & _ & _ & Hls). by apply host_name_chars. }
    change (lit "@" ++ domain) with (ch "@" :: domain).
    rewrite split_sep, split_nosep, split_nosep; simpl.
    + rewrite (proj2 (is_domain_iff domain) Hd). rewrite andb_true_r, andb_true_iff, !negb_true_iff.
      split; [by destruct local|]. apply existsb_false, Forall_app. split.
      * eapply Forall_impl; [exact Hl|]. intros c (_ & H1 & H2). by rewrite H1, H2.
      * constructor; [done|]. eapply Forall_impl; [exact Hdc|]. intros c Hc. apply not_true_iff_false.
        unfold is_whitespace, is_control. rewrite !orb_true_iff, !in_range_spec, !N.eqb_eq.
        destruct Hc as [Hc%host_char_iff| ->]; lia.
    + intros Hin. apply (proj1 (Forall_forall _ _) Hdc) in Hin. by vm_compute in Hin; destruct Hin.
    + intros Hin. by apply (proj1 (Forall_forall _ _) Hl) in Hin as (? & _).
Qed.

(** *** Configurations *)

(** What a configuration says of the request it comes from. *)
Definition normal_form (req : UpdateAcmeConfigRequest) (c : AcmeConfig) : Prop :=
  af_enabled c = ua_enabled req ∧ af_terms_agreed c = ua_terms_agreed req ∧
  trims (ua_directory_url req) (af_directory_url c) ∧ trims (ua_contact_email req) (af_contact_email c) ∧
  cleaned (ua_domains req) (af_domains c) ∧
  af_renewal_days c = match ua_renewal_days req with Some days => days | None => 30%N end.
(** What an enabled configuration promises. *)
Definition usable (c : AcmeConfig) : Prop :=
  (∃ rest, af_directory_url c = lit "https://" ++ rest) ∧ mail_address (af_contact_email c) ∧
  af_domains c ≠ [] ∧ Forall host_name (af_domains c) ∧ af_terms_agreed c = true.

Lemma validate_enabled (url email : str) domains (terms : bool) :
  (if negb (starts_with "https://" url) then Err (validation "directory_url must be an https:// URL")
   else if negb (is_email email) then Err (validation "contact_email is not a valid email")
   else if match domains with [] => true | _ => false end then Err (validation "at least one domain is required")
   else
     _ ← for_each (λ d, if negb (is_domain d) then Err (validation ("invalid domain: " ++ debug_str d)) else Ok tt) domains;
     if negb terms then Err (validation "you must agree to the CA terms of service to enable ACME") else Ok tt)
  = (Ok tt : ApiResult unit) ↔
  (∃ rest, url = lit "https://" ++ rest) ∧ mail_address email ∧ domains ≠ [] ∧ Forall host_name domains ∧ terms = true.
Proof.
  rewrite <- starts_with_spec, <- is_email_iff.
  destruct (starts_with "https://" url); simpl; [|naive_solver].
  destruct (is_email email); simpl; [|naive_solver].
  destruct domains as [|d0 ds]; [naive_solver|]. set (domains := d0 :: ds).
  assert (for_each (λ d, if negb (is_domain d) then Err (validation ("invalid domain: " ++ debug_str d)) else Ok tt) domains
    = (Ok tt : ApiResult unit) ↔ Forall host_name domains) as Hd.
  { rewrite for_each_ok. apply Forall_iff. intros d. rewrite <- is_domain_iff. by destruct (is_domain d). }
  destruct (for_each _ domains) as [[]|e]; simpl; [|naive_solver]. destruct terms; simpl; naive_solver.
Qed.

(** C40: A configuration is accepted exactly as the normal form of its request: its
    directory and its contact are those of the request without the white space around
    them, its domains are those that are not blank, trimmed and in lower case, in their
    order, and the rest is the request's, with a window of 30 days unless it says
    otherwise. The window is between 1 and 89 days; and if it is enabled it names an
    https directory, an e-mail address, at least one domain, each of them a host name of
    two labels or more, and agrees to the terms. *)
Theorem config_normal req c : validate_config req = Ok c ↔
  normal_form req c ∧ (1 <= af_renewal_days c <= 89)%N ∧ (af_enabled c = true → usable c).
Proof.
  assert (∀ c, normal_form req c ↔ c = mkAcmeConfig (ua_enabled req) (trim (ua_directory_url req))
    (trim (ua_contact_email req)) (clean_domains (ua_domains req)) (ua_terms_agreed req)
    (default DEFAULT_RENEWAL_DAYS (ua_renewal_days req))) as Hn.
  { clear c. intros [en url mail ds terms days]. unfold normal_form. simpl. rewrite !trims_iff, cleaned_iff.
    change (match ua_renewal_days req with Some days => days | None => 30%N end)
      with (default DEFAULT_RENEWAL_DAYS (ua_renewal_days req)). split; [naive_solver|by intros [= -> -> -> -> -> ->]]. }
  rewrite Hn. unfold validate_config. cbv zeta. set (days := default _ _).
  destruct ((1 <=? days)%N && (days <=? 89)%N) eqn:Ed; cbn [negb].
  2: { split; [done|]. intros (-> & [H1 H2] & _). cbn in H1, H2.
       apply andb_false_iff in Ed as [Ed|Ed]; apply N.leb_gt in Ed; lia. }
  apply andb_true_iff in Ed as [Ed1%N.leb_le Ed2%N.leb_le].
  pose proof (validate_enabled (trim (ua_directory_url req)) (trim (ua_contact_email req))
    (clean_domains (ua_domains req)) (ua_terms_agreed req)) as Hv.
  destruct (ua_enabled req) eqn:En.
  - destruct (if negb (starts_with "https://" _) then _ else _) as [[]|e]; cbn.
    + split; [intros [= <-]|by intros [-> _]]. split; [done|]. split; [done|]. intros _. by apply Hv.
    + split; [done|]. intros (-> & _ & Hu). by apply Hv in Hu.
  - cbn. split; [by intros [= <-]|by intros [-> _]].
Qed.

(** ** Issuing *)

Create HintDb acme.
Module AcmeServiceProofs.
Section service.
Context (to_rfc3339 : Z → str) (from_timestamp : Z → option str).
Context {W Account Credentials Order Params KeyPair Csr Pem Handle : Type}.
Context (account_restore : Credentials → W → W * result str Account)
  (account_create : str → bool → str → W → W * result str (Account * Credentials))
  (new_order : Account → list str → W → W * result str Order)
  (authorizations : Order → W → W * result str (list Authorization))
  (key_authorization : Order → Challenge → str)
  (set_challenge_ready : Order → str → W → W * result str unit)
  (refresh : Order → W → W * result str OrderStatus)
  (csr_params : list str → result str Params) (generate : W → W * result str KeyPair)
  (serialize_request : Params → KeyPair → result str Csr) (serialize_pem : KeyPair → str)
  (finalize : Order → Csr → W → W * result str unit)
  (certificate : Order → W → W * result str (option str))
  (parse_x509_pem : str → result str Pem) (parse_x509 : Pem → result str (Z * Z))
  (reload_from_pem_file : Handle → option (list N) → option (list N) → W → W * result str unit).
Context (meta_json : CertMeta → list N) (meta_of : list N → option CertMeta)
  (account_json : str → Credentials → list N) (account_of : list N → option (str * Credentials)).
Abbreviation state := (AcmeService.state (W:=W) (Handle:=Handle)).
Abbreviation parse_cert_validity := (AcmeService.parse_cert_validity from_timestamp parse_x509_pem parse_x509).
Abbreviation load_or_create_account := (AcmeService.load_or_create_account (Handle:=Handle) account_restore account_create
  account_json account_of).
Abbreviation answer := (AcmeService.answer (W:=W) (Handle:=Handle) key_authorization).
Abbreviation finalize_order := (AcmeService.finalize_order (Handle:=Handle) set_challenge_ready refresh csr_params generate
  serialize_request serialize_pem finalize certificate).
Abbreviation install_cert := (AcmeService.install_cert (W:=W) (Handle:=Handle) from_timestamp parse_x509_pem parse_x509
  reload_from_pem_file).
Abbreviation issue_inner := (AcmeService.issue_inner (Handle:=Handle) from_timestamp account_restore account_create new_order
  authorizations key_authorization set_challenge_ready refresh csr_params generate serialize_request
  serialize_pem finalize certificate parse_x509_pem parse_x509 reload_from_pem_file account_json account_of).
Abbreviation issue_guarded := (AcmeService.issue_guarded (Handle:=Handle) to_rfc3339 from_timestamp account_restore account_create
  new_order authorizations key_authorization set_challenge_ready refresh csr_params generate serialize_request
  serialize_pem finalize certificate parse_x509_pem parse_x509 reload_from_pem_file meta_json meta_of
  account_json account_of).
Abbreviation run_issuance := (AcmeService.run_issuance (Handle:=Handle) to_rfc3339 from_timestamp account_restore account_create
  new_order authorizations key_authorization set_challenge_ready refresh csr_params generate serialize_request
  serialize_pem finalize certificate parse_x509_pem parse_x509 reload_from_pem_file meta_json meta_of
  account_json account_of).
Implicit Types (s : state) (fs : list AcmeFile).

(** On a file system without faults [m] changes at most the files [fs]. *)
Definition changes {A} fs (m : Svc state A) : Prop := ∀ s s' r,
  AcmeService.faults s = [] → m s = (s', r) →
  AcmeService.faults s' = [] ∧ AcmeService.issuing s' = AcmeService.issuing s ∧
  (AcmeService.dir s = true → AcmeService.dir s' = true) ∧
  ∀ f, f ∉ fs → AcmeService.files s' f = AcmeService.files s f.

Lemma changes_bind {A B} fs (m : Svc state A) (f : A → Svc state B) :
  changes fs m → (∀ a, changes fs (f a)) → changes fs (mbind f m).
Proof.
  intros Hm Hf s s' r Hs. unfold mbind, svc_bind. destruct (m s) as [s1 [a|e]] eqn:E.
  - intros E2. destruct (Hm _ _ _ Hs E) as (H1 & H2 & H3 & H4).
    destruct (Hf a _ _ _ H1 E2) as (K1 & K2 & K3 & K4). split_and!; [done|congruence|auto|].
    intros g Hg. by rewrite K4, H4.
  - intros [= <- _]. by eapply Hm.
Qed.
Lemma changes_pure {A} fs (m : Svc state A) : (∀ s, (m s).1 = s) → changes fs m.
Proof. intros Hm s s' r Hs E. specialize (Hm s). rewrite E in Hm. cbn in Hm. by subst. Qed.
Lemma changes_ca {A} fs what (call : W → W * result str A) : changes fs (AcmeService.at_ca what call).
Proof. intros s s' r Hs. unfold AcmeService.at_ca. destruct (call _) as [w x]. by intros [= <- _]. Qed.
Lemma changes_attempt {A} fs (m : Svc state A) : changes fs m → changes fs (attempt m).
Proof. intros Hm s s' r Hs [= <- _]. destruct (m s) as [s1 x] eqn:E. by eapply Hm. Qed.
Lemma changes_each {A} fs (f : A → Svc state unit) l : (∀ a, changes fs (f a)) → changes fs (each f l).
Proof. intros Hf. induction l as [|a l IH]; [by apply changes_pure|]. by apply changes_bind. Qed.
Lemma changes_sub {A} fs gs (m : Svc state A) : fs ⊆ gs → changes fs m → changes gs m.
Proof.
  intros Hsub Hm s s' r Hs E. destruct (Hm _ _ _ Hs E) as (H1 & H2 & H3 & H4). split_and!; auto.
Qed.
Lemma changes_resolve fs create : changes fs (AcmeService.resolve_dir create).
Proof.
  intros s s' r Hs. unfold AcmeService.resolve_dir, AcmeService.sys. destruct create.
  - unfold mbind, svc_bind. rewrite Hs. cbn. rewrite Hs. intros [= <- _]. done.
  - unfold mbind, svc_bind, mret, svc_ret. rewrite Hs. destruct (AcmeService.dir s) eqn:Ed; intros [= <- _]; by rewrite ?Ed.
Qed.

(** Without faults a file is created, read and written. *)
Lemma created_run f s : AcmeService.faults s = [] →
  AcmeService.created_file f s = (AcmeService.set_files true (AcmeService.files s) s, Ok f).
Proof.
  intros Hs. unfold AcmeService.created_file, AcmeService.resolve_file, AcmeService.resolve_dir, AcmeService.sys.
  unfold mbind, svc_bind. rewrite Hs. cbn. by rewrite Hs.
Qed.
Lemma read_run f s : AcmeService.faults s = [] →
  AcmeService.fs_read f s = (s, Ok (ok_or (lit "No such file or directory (os error 2)") (AcmeService.files s f))).
Proof. intros Hs. unfold AcmeService.fs_read, AcmeService.sys. by rewrite Hs. Qed.
Lemma write_run f b s : AcmeService.faults s = [] →
  AcmeService.fs_write f b s = (AcmeService.put_file f (Some b) s, Ok (Ok tt)).
Proof. intros Hs. unfold AcmeService.fs_write, AcmeService.sys. by rewrite Hs. Qed.
Lemma meta_run s : AcmeService.faults s = [] → AcmeService.dir s = true →
  AcmeService.meta meta_of s = (s, Ok (default no_meta (b ← AcmeService.files s MetaFile; meta_of b))).
Proof.
  intros Hs Hd. unfold AcmeService.meta, AcmeService.stored, AcmeService.resolve_file, AcmeService.resolve_dir, AcmeService.sys.
  unfold mbind, svc_bind, attempt. cbn. rewrite Hs, Hd. cbn. rewrite read_run by done. cbn.
  by destruct (AcmeService.files s MetaFile).
Qed.
Lemma put_file_files f b s g :
  AcmeService.files (AcmeService.put_file f b s) g = if decide (g = f) then b else AcmeService.files s g.
Proof. done. Qed.
Lemma changes_created fs f : changes fs (AcmeService.created_file f).
Proof. intros s s' r Hs. rewrite created_run by done. by intros [= <- _]. Qed.
Lemma changes_read fs f : changes fs (AcmeService.fs_read f).
Proof. intros s s' r Hs. rewrite read_run by done. by intros [= <- _]. Qed.
Lemma changes_write f b : changes [f] (AcmeService.fs_write f b).
Proof.
  intros s s' r Hs. rewrite write_run by done. intros [= <- _]. split_and!; [done..|].
  intros g Hg. rewrite put_file_files, decide_False; [done|set_solver].
Qed.
Hint Resolve changes_ca changes_attempt changes_each changes_resolve changes_created changes_read : acme.
Hint Extern 1 (changes _ (Cache.lift _)) => by apply changes_pure : acme.
Hint Extern 1 (changes _ (mret _)) => by apply changes_pure : acme.
Hint Extern 1 (changes _ (fail _)) => by apply changes_pure : acme.
Hint Extern 1 (changes _ (gets _)) => by apply changes_pure : acme.
Hint Extern 5 (changes _ (_ ≫= _)) => apply changes_bind; [|intros ?] : acme.

Lemma changes_account c : changes [AccountFile] (load_or_create_account c).
Proof.
  assert (∀ f, f = AccountFile → changes [AccountFile] (AcmeService.new_account (Handle:=Handle) account_create account_json c f)) as Hn.
  { intros f ->. unfold AcmeService.new_account. pose proof changes_write. auto 10 with acme. }
  intros s s' r Hs E. unfold AcmeService.load_or_create_account in E.
  unfold mbind at 1, svc_bind at 1 in E. rewrite created_run in E by done.
  unfold mbind at 1, svc_bind at 1 in E. rewrite read_run in E by done.
  assert (∃ m, changes [AccountFile] m ∧ m (AcmeService.set_files true (AcmeService.files s) s) = (s', r)) as (m & Hm & E2).
  { destruct (match ok_or _ _ with Ok b => _ | Err _ => _ end) as [[url cr]|]; [destruct (str_eqb _ _)|];
      eexists; (split; [|exact E]); auto with acme. }
  destruct (Hm (AcmeService.set_files true (AcmeService.files s) s) _ _ Hs E2) as (H1 & H2 & H3 & H4).
  by split_and!; auto.
Qed.
Lemma changes_answer order l : changes [] (answer order l).
Proof.
  induction l as [|authz l IH]; cbn [AcmeService.answer]; [auto with acme|].
  destruct (az_status authz); [done| |auto with acme].
  assert (∀ c, changes [] (AcmeService.set_challenges (W:=W) (Handle:=Handle) c)) by (intros c s s' r Hs [= <- _]; done).
  auto 10 with acme.
Qed.
Lemma changes_poll_ready n order : changes [] (AcmeService.poll_order_ready (Handle:=Handle) refresh n order).
Proof.
  induction n as [|n IH]; cbn [AcmeService.poll_order_ready]; [auto with acme|].
  apply changes_bind; [auto with acme|]. intros []; auto with acme.
Qed.
Lemma changes_poll_cert n order : changes [] (AcmeService.poll_certificate (Handle:=Handle) certificate n order).
Proof.
  induction n as [|n IH]; cbn [AcmeService.poll_certificate]; [auto with acme|].
  apply changes_bind; [auto with acme|]. intros []; auto with acme.
Qed.
Lemma changes_key_pair : changes [] (AcmeService.new_key_pair (Handle:=Handle) generate).
Proof. intros s s' r Hs. unfold AcmeService.new_key_pair. destruct (generate _). by intros [= <- _]. Qed.
Hint Resolve changes_poll_ready changes_poll_cert changes_key_pair : acme.
Lemma changes_finalize c order urls : changes [] (finalize_order c order urls).
Proof. unfold AcmeService.finalize_order. auto 20 with acme. Qed.
(** What is served to the authority is changed by [answer] and [issue_inner] alone. *)
Definition serves (m : gmap str str) s : Prop := AcmeService.challenges s = m.
Lemma serves_sys {A} m (failed : option (list N) → state → state) (k : state → state * result str A) :
  (∀ b s, AcmeService.challenges (failed b s) = AcmeService.challenges s) →
  (∀ s, AcmeService.challenges (k s).1 = AcmeService.challenges s) → keeps (serves m) (AcmeService.sys failed k).
Proof.
  intros Hf Hk s s' r. unfold AcmeService.sys, serves.
  destruct (AcmeService.faults s) as [|[[e b]|] fs].
  - specialize (Hk s). destruct (k s). intros [= <- _]. cbn in Hk. congruence.
  - intros [= <- _]. by rewrite Hf.
  - specialize (Hk (AcmeService.set_faults fs s)). destruct (k _). intros [= <- _]. cbn in Hk. congruence.
Qed.
Lemma serves_ca {A} m what (call : W → W * result str A) : keeps (serves m) (AcmeService.at_ca (Handle:=Handle) what call).
Proof. intros s s' r. unfold AcmeService.at_ca. destruct (call _). by intros [= <- _]. Qed.
Lemma serves_created m f : keeps (serves m) (AcmeService.created_file (W:=W) (Handle:=Handle) f).
Proof.
  unfold AcmeService.created_file, AcmeService.resolve_file, AcmeService.resolve_dir.
  apply keeps_bind; [|auto with daygle]. apply keeps_bind; [|auto with daygle].
  apply keeps_bind; [|intros _; apply keeps_bind; [by apply serves_sys|intros []; auto with daygle]].
  apply keeps_bind; [by apply serves_sys|auto with daygle].
Qed.
Lemma serves_write m f b : keeps (serves m) (AcmeService.fs_write (W:=W) (Handle:=Handle) f b).
Proof. apply serves_sys; [by intros []|done]. Qed.
Lemma serves_read m f : keeps (serves m) (AcmeService.fs_read (W:=W) (Handle:=Handle) f).
Proof. by apply serves_sys. Qed.
Hint Resolve serves_ca serves_created serves_write serves_read : daygle.
Lemma serves_account m c : keeps (serves m) (load_or_create_account c).
Proof.
  unfold AcmeService.load_or_create_account. apply keeps_bind; [auto with daygle|]. intros f.
  apply keeps_bind; [auto with daygle|]. intros b.
  assert (keeps (serves m) (AcmeService.new_account (Handle:=Handle) account_create account_json c f)) by
    (unfold AcmeService.new_account; auto 10 with daygle).
  destruct (match b with Ok b => _ | Err _ => _ end) as [[url cr]|]; [destruct (str_eqb _ _)|]; auto with daygle.
Qed.
Lemma serves_finalize m c order urls : keeps (serves m) (finalize_order c order urls).
Proof.
  assert (∀ n, keeps (serves m) (AcmeService.poll_order_ready (Handle:=Handle) refresh n order)) as H1.
  { induction n as [|n IH]; cbn; [auto with daygle|]. apply keeps_bind; [auto with daygle|]. intros []; auto with daygle. }
  assert (∀ n, keeps (serves m) (AcmeService.poll_certificate (Handle:=Handle) certificate n order)) as H2.
  { induction n as [|n IH]; cbn; [auto with daygle|]. apply keeps_bind; [auto with daygle|]. intros []; auto with daygle. }
  assert (keeps (serves m) (AcmeService.new_key_pair (Handle:=Handle) generate)) as H3.
  { intros s s' r. unfold AcmeService.new_key_pair. destruct (generate _). by intros [= <- _]. }
  unfold AcmeService.finalize_order. auto 20 with daygle.
Qed.
Lemma answer_serves order l s s' urls tokens : answer order l s = (s', Ok (urls, tokens)) →
  ∀ t, t ∉ tokens → AcmeService.challenges s' !! t = AcmeService.challenges s !! t.
Proof.
  revert s s' urls tokens. induction l as [|authz l IH]; intros s s' urls tokens; cbn [AcmeService.answer].
  { by intros [= <- _ _]. }
  destruct (az_status authz); [by apply IH| |done].
  intros (s1 & ch & [= <- _] & (s2 & all & [= <- <-] & (s3 & [] & [= <-] & (s4 & [us ts] & E & [= <- _ <-])%svc_bind_ok)%svc_bind_ok)%svc_bind_ok)%svc_bind_ok.
  intros t [Ht1 Ht2]%not_elem_of_cons. rewrite (IH _ _ _ _ E t Ht2). cbn. by rewrite lookup_insert_ne.
Qed.

(** ** What is installed *)

(** A chain and a key that come out of an order for exactly the domains of [c]. *)
Definition obtained (c : AcmeConfig) (chain key : str) : Prop :=
  ∃ account order params key_pair csr,
    (∃ w w', new_order account (af_domains c) w = (w', Ok order)) ∧
    csr_params (af_domains c) = Ok params ∧ serialize_request params key_pair = Ok csr ∧
    (∃ w w', finalize order csr w = (w', Ok tt)) ∧
    (∃ w w', certificate order w = (w', Ok (Some chain))) ∧ key = serialize_pem key_pair.

Lemma at_ca_ok {A} what (call : W → W * result str A) s s' a :
  AcmeService.at_ca what call s = (s', Ok a) → ∃ w w', call w = (w', Ok a).
Proof.
  unfold AcmeService.at_ca. destruct (call (AcmeService.ca s)) as [w [x|e]] eqn:E; [|done].
  intros [= _ <-]. eauto.
Qed.
Lemma poll_cert_ok n order s s' chain :
  AcmeService.poll_certificate (Handle:=Handle) certificate n order s = (s', Ok chain) →
  ∃ w w', certificate order w = (w', Ok (Some chain)).
Proof.
  revert s. induction n as [|n IH]; intros s; cbn; [done|].
  intros (s1 & [pem|] & E1%at_ca_ok & E)%svc_bind_ok; [|by eapply IH]. by injection E as _ ->.
Qed.
Lemma finalize_ok c order urls s s' chain key : finalize_order c order urls s = (s', Ok (chain, key)) →
  ∃ params key_pair csr, csr_params (af_domains c) = Ok params ∧ serialize_request params key_pair = Ok csr ∧
    (∃ w w', finalize order csr w = (w', Ok tt)) ∧
    (∃ w w', certificate order w = (w', Ok (Some chain))) ∧ key = serialize_pem key_pair.
Proof.
  intros (s1 & [] & _ & (s2 & [] & _ & (s3 & params & E3 & (s4 & kp & _ & (s5 & csr & E5 & (s6 & [] & E6 & (s7 & ch & E7 & [= _ <- <-])%svc_bind_ok)%svc_bind_ok)%svc_bind_ok)%svc_bind_ok)%svc_bind_ok)%svc_bind_ok)%svc_bind_ok.
  injection E3 as <- E3. injection E5 as <- E5.
  exists params, kp, csr. destruct (csr_params _); [|done]. injection E3 as ->.
  destruct (serialize_request _ _); [|done]. injection E5 as ->.
  split_and!; [done|done|by eapply at_ca_ok|by eapply poll_cert_ok|done].
Qed.
(** What a step leaves alone: all files but [fs], and the rest of the service. *)
Definition same_but fs s s' : Prop :=
  AcmeService.faults s' = [] ∧ AcmeService.issuing s' = AcmeService.issuing s ∧
  (AcmeService.dir s = true → AcmeService.dir s' = true) ∧
  ∀ f, f ∉ fs → AcmeService.files s' f = AcmeService.files s f.

Lemma install_spec chain key s s' r : AcmeService.faults s = [] → install_cert chain key s = (s', r) →
  match parse_cert_validity chain with
  | Ok (issued, expires) => r = Ok (mkInstalled issued expires) ∧ same_but [CertFile; KeyFile] s s' ∧
      AcmeService.files s' CertFile = Some (bytes chain) ∧ AcmeService.files s' KeyFile = Some (bytes key) ∧
      AcmeService.challenges s' = AcmeService.challenges s
  | Err e => r = Err e ∧ s' = s
  end.
Proof.
  intros Hs E. unfold AcmeService.install_cert in E. unfold mbind at 1, svc_bind at 1, Cache.lift at 1 in E.
  destruct (parse_cert_validity chain) as [[issued expires]|e]; [|by injection E as <- <-].
  unfold mbind at 1, svc_bind at 1 in E. rewrite created_run in E by done.
  unfold mbind at 1, svc_bind at 1 in E. rewrite created_run in E by done.
  unfold mbind at 1, svc_bind at 1 in E. rewrite write_run in E by done.
  unfold mbind at 1, svc_bind at 1, Cache.lift at 1 in E. cbn [map_err] in E.
  unfold mbind at 1, svc_bind at 1 in E. rewrite write_run in E by done.
  unfold mbind at 1, svc_bind at 1, Cache.lift at 1 in E. cbn [map_err] in E.
  unfold mbind, svc_bind, AcmeService.live_reload, mret, svc_ret in E.
  assert (∀ s2, AcmeService.faults s2 = [] → AcmeService.issuing s2 = AcmeService.issuing s →
    (AcmeService.dir s2 = true) → AcmeService.challenges s2 = AcmeService.challenges s →
    (∀ f, AcmeService.files s2 f = AcmeService.files (AcmeService.put_file KeyFile (Some (bytes key))
       (AcmeService.put_file CertFile (Some (bytes chain)) s)) f) →
    same_but [CertFile; KeyFile] s s2 ∧
    AcmeService.files s2 CertFile = Some (bytes chain) ∧ AcmeService.files s2 KeyFile = Some (bytes key) ∧
    AcmeService.challenges s2 = AcmeService.challenges s) as Hgoal.
  { intros s2 H1 H2 H3 H4 H5. split_and!; [|by rewrite H5..|done]. split_and!; [done|done|done|].
    intros f Hf. rewrite H5, !put_file_files, !decide_False by set_solver. done. }
  cbn [AcmeService.reload AcmeService.put_file AcmeService.set_files] in E.
  destruct (AcmeService.reload s) as [h|].
  - destruct (reload_from_pem_file _ _ _ _) as [w x]. injection E as <- <-.
    split; [done|]. by apply Hgoal.
  - injection E as <- <-. split; [done|]. by apply Hgoal.
Qed.

Lemma same_but_refl fs s : AcmeService.faults s = [] → same_but fs s s.
Proof. intros Hs. by split_and!. Qed.
Lemma same_but_trans fs gs s s1 s2 : same_but fs s s1 → same_but gs s1 s2 → same_but (fs ++ gs) s s2.
Proof.
  intros (H1 & H2 & H3 & H4) (K1 & K2 & K3 & K4). split_and!; [done|congruence|auto|].
  intros f Hf. rewrite K4, H4 by set_solver. done.
Qed.
Lemma same_but_changes {A} fs gs (m : Svc state A) s s1 s2 r :
  same_but fs s s1 → changes gs m → m s1 = (s2, r) → same_but (fs ++ gs) s s2.
Proof. intros H1 Hm E. eapply same_but_trans; [exact H1|]. destruct H1 as [H1 _]. exact (Hm _ _ _ H1 E). Qed.

Lemma delete_tokens (tokens : list str) (m : gmap str str) t :
  foldl (λ m token, delete token m) m tokens !! t = if decide (t ∈ tokens) then None else m !! t.
Proof.
  revert m. induction tokens as [|x tokens IH]; intros m; cbn [foldl]; [by rewrite decide_False by apply not_elem_of_nil|].
  rewrite IH. destruct (decide (t ∈ tokens)) as [Ht|Ht].
  - rewrite decide_True; [done|by right].
  - destruct (decide (t = x)) as [->|Hx].
    + rewrite lookup_delete_eq, decide_True; [done|by left].
    + rewrite lookup_delete_ne by done. rewrite decide_False; [done|]. by intros [?|?]%elem_of_cons.
Qed.

Lemma issue_spec c s s' r : AcmeService.faults s = [] → AcmeService.dir s = true → issue_inner c s = (s', r) →
  match r with
  | Ok installed => same_but [AccountFile; CertFile; KeyFile] s s' ∧ ∃ chain key, obtained c chain key ∧
      parse_cert_validity chain = Ok (ic_issued_at installed, ic_expires_at installed) ∧
      AcmeService.files s' CertFile = Some (bytes chain) ∧ AcmeService.files s' KeyFile = Some (bytes key) ∧
      AcmeService.challenges s' ⊆ AcmeService.challenges s
  | Err e => same_but [AccountFile] s s'
  end.
Proof.
  intros Hs Hd E. unfold AcmeService.issue_inner in E. pose proof (same_but_refl [] s Hs) as S0.
  unfold mbind at 1, svc_bind at 1 in E. destruct (load_or_create_account c s) as [s1 [account|e]] eqn:E1;
    pose proof (same_but_changes _ _ _ _ _ _ _ S0 (changes_account c) E1) as S1; cbn [app] in S1;
    [|by injection E as <- <-].
  pose proof (serves_account (AcmeService.challenges s) c _ _ _ E1 eq_refl) as C1.
  unfold mbind at 1, svc_bind at 1 in E. destruct (AcmeService.at_ca "acme new order: " _ s1) as [s2 [order|e]] eqn:E2;
    pose proof (same_but_changes _ [] _ _ _ _ _ S1 (changes_ca _ _ _) E2) as S2; cbn [app] in S2;
    [|by injection E as <- <-].
  pose proof (serves_ca (AcmeService.challenges s) _ _ _ _ _ E2 C1) as C2. apply at_ca_ok in E2.
  unfold mbind at 1, svc_bind at 1 in E. destruct (AcmeService.at_ca "acme authorizations: " _ s2) as [s3 [authzs|e]] eqn:E3;
    pose proof (same_but_changes _ [] _ _ _ _ _ S2 (changes_ca _ _ _) E3) as S3; cbn [app] in S3;
    [|by injection E as <- <-].
  pose proof (serves_ca (AcmeService.challenges s) _ _ _ _ _ E3 C2) as C3.
  unfold mbind at 1, svc_bind at 1 in E. destruct (answer order authzs s3) as [s4 [[urls tokens]|e]] eqn:E4;
    pose proof (same_but_changes _ _ _ _ _ _ _ S3 (changes_answer order authzs) E4) as S4; cbn [app] in S4;
    [|by injection E as <- <-].
  pose proof (answer_serves _ _ _ _ _ _ E4) as C4.
  unfold mbind at 1, svc_bind at 1, attempt in E. cbn [fst snd] in E.
  destruct (finalize_order c order urls s4) as [s5 x] eqn:E5.
  pose proof (same_but_changes _ _ _ _ _ _ _ S4 (changes_finalize c order urls) E5) as S5. cbn [app] in S5.
  pose proof (serves_finalize _ _ _ _ _ _ _ E5 eq_refl) as C5. unfold serves in C5.
  unfold mbind, svc_bind, gets, AcmeService.set_challenges, modify, Cache.lift in E. cbn [fst snd] in E.
  set (s6 := AcmeService.mkState _ _ _ _ _ _ _) in E.
  assert (same_but [AccountFile] s s6) as S6 by exact S5.
  destruct x as [[chain key]|e]; [|by injection E as <- <-].
  apply install_spec in E; [|by apply S5]. cbn [fst snd] in E.
  destruct (parse_cert_validity chain) as [[issued expires]|e] eqn:Ep; [|by destruct E as [-> ->]].
  destruct E as (-> & S7 & H1 & H2 & C7). split; [exact (same_but_trans _ _ _ _ _ S6 S7)|].
  exists chain, key. split_and!; [|done|done|done|].
  - apply finalize_ok in E5 as (params & kp & csr & Hrest). exists account, order, params, kp, csr. split; [done|exact Hrest].
  - rewrite C7. unfold s6. cbn [AcmeService.challenges]. apply map_subseteq_spec. intros t v.
    rewrite delete_tokens. case_decide as Ht; [done|]. rewrite C5, (C4 t Ht). unfold serves in C3. by rewrite C3.
Qed.
(** A second issuance while one runs does nothing. *)
Lemma issuance_exclusive c now s : AcmeService.issuing s = true → run_issuance c now s = (s, Ok tt).
Proof. intros Hs. unfold AcmeService.run_issuance. unfold mbind, svc_bind, gets. by rewrite Hs. Qed.

(** C38: On a file system without faults an issuance is all or nothing. If it succeeds,
    the certificate and the key on disk are the ones of an order for exactly the configured
    domains, the metadata tells its validity and no error, and no challenge is served that
    was not before. If it fails, certificate and key are what they were and the metadata
    differs in the error alone. The configuration is never touched, and the next issuance
    is not locked out. *)
Theorem issuance_outcomes c now s s' r :
  AcmeService.faults s = [] → AcmeService.issuing s = false → run_issuance c now s = (s', r) →
  AcmeService.issuing s' = false ∧
  AcmeService.files s' ConfigFile = AcmeService.files s ConfigFile ∧
  match r with
  | Ok _ => ∃ chain key issued expires, obtained c chain key ∧
      parse_cert_validity chain = Ok (issued, expires) ∧
      AcmeService.files s' CertFile = Some (bytes chain) ∧ AcmeService.files s' KeyFile = Some (bytes key) ∧
      AcmeService.files s' MetaFile =
        Some (meta_json (mkMeta (af_domains c) (Some issued) (Some expires) (Some (to_rfc3339 now)) None)) ∧
      AcmeService.challenges s' ⊆ AcmeService.challenges s
  | Err e =>
      let m := default no_meta (b ← AcmeService.files s MetaFile; meta_of b) in
      AcmeService.files s' CertFile = AcmeService.files s CertFile ∧
      AcmeService.files s' KeyFile = AcmeService.files s KeyFile ∧
      AcmeService.files s' MetaFile =
        Some (meta_json (mkMeta (cm_domains m) (cm_issued_at m) (cm_expires_at m) (cm_last_renewal_at m)
                           (Some (message e))))
  end.
Proof.
  intros Hs Hi E. unfold AcmeService.run_issuance in E. unfold mbind, svc_bind, gets in E. rewrite Hi in E.
  unfold AcmeService.set_issuing, modify, attempt, Cache.lift in E. cbn [fst snd] in E.
  set (s0 := AcmeService.mkState (AcmeService.dir s) (AcmeService.files s) (AcmeService.faults s)
    (AcmeService.challenges s) (AcmeService.reload s) true (AcmeService.ca s)) in E.
  destruct (issue_guarded c now s0) as [s9 x] eqn:E9.
  injection E as <- <-. cbn [AcmeService.issuing AcmeService.files AcmeService.challenges fst snd].
  split; [done|]. unfold AcmeService.issue_guarded in E9.
  assert (AcmeService.resolve_dir true s0 = (AcmeService.set_files true (AcmeService.files s0) s0, Ok (Some tt))) as Er.
  { unfold AcmeService.resolve_dir, AcmeService.sys, mbind, svc_bind. unfold s0. cbn. by rewrite Hs. }
  unfold mbind at 1, svc_bind at 1 in E9. rewrite Er in E9.
  unfold mbind at 1, svc_bind at 1, attempt in E9. cbn [fst snd] in E9.
  set (s1 := AcmeService.set_files true (AcmeService.files s0) s0) in E9.
  destruct (issue_inner c s1) as [s2 y] eqn:E2. cbn [fst snd] in E9.
  assert (AcmeService.faults s1 = []) as Hs1 by exact Hs.
  pose proof (issue_spec _ _ _ _ Hs1 eq_refl E2) as Hy.
  assert (same_but [AccountFile; CertFile; KeyFile] s1 s2) as (F2 & _ & D2 & K2).
  { destruct y; [by apply Hy|]. destruct Hy as (Y1 & Y2 & Y3 & Y4). split_and!; [done..|].
    intros f Hf. apply Y4. set_solver. }
  unfold mbind at 1, svc_bind at 1 in E9. rewrite meta_run in E9 by auto.
  replace (AcmeService.files s2 MetaFile) with (AcmeService.files s MetaFile) in E9
    by (symmetry; apply (K2 MetaFile); set_solver).
  unfold mbind at 1, svc_bind at 1, AcmeService.write_meta in E9.
  unfold mbind at 1, svc_bind at 1 in E9. rewrite created_run in E9 by done.
  unfold mbind at 1, svc_bind at 1 in E9. rewrite write_run in E9 by done.
  unfold mbind, svc_bind, Cache.lift, mret, svc_ret in E9. cbn [map_err] in E9.
  assert (AcmeService.files s9 = AcmeService.files (AcmeService.put_file MetaFile (Some (meta_json (AcmeService.meta_after to_rfc3339 c now y
    (default no_meta (b ← AcmeService.files s MetaFile; meta_of b))))) s2) ∧
    AcmeService.challenges s9 = AcmeService.challenges s2 ∧ x = (_ ← y; Ok tt)) as (Hf & Hc & ->).
  { destruct y; injection E9 as <- <-; done. }
  rewrite Hf, Hc, !put_file_files. rewrite !decide_False by done. rewrite decide_True by done.
  split; [apply (K2 ConfigFile); set_solver|]. destruct y as [ic|e]; cbn.
  - destruct Hy as (_ & chain & key & Ho & Hp & H1 & H2 & H3).
    exists chain, key, (ic_issued_at ic), (ic_expires_at ic). by split_and!.
  - destruct Hy as (_ & _ & _ & Y4). split_and!; [by apply (Y4 CertFile); set_solver|by apply (Y4 KeyFile); set_solver|done].
Qed.
End service.
End AcmeServiceProofs.

(** ** An authority that issues *)

Definition toy_config : AcmeConfig :=
  mkAcmeConfig true "https://ca.example/directory" "admin@example.com" [lit "node.example.com"] true 30.
Definition pending : Authorization := mkAuthz AuthzPending [mkChallenge true "tok" "https://ca.example/c1"].
Abbreviation toy_state := (AcmeService.state (W:=unit) (Handle:=unit)).
(** The files before: an old certificate with its key. *)
Definition toy_files (f : AcmeFile) : option (list N) :=
  match f with CertFile => Some (bytes "OLD") | KeyFile => Some (bytes "OLDKEY") | _ => None end.
Definition toy_start (faults : list (option (str * option (list N)))) : toy_state :=
  AcmeService.mkState true toy_files faults ∅ None false tt.
Definition toy_meta (m : CertMeta) : list N := bytes (default [] (cm_last_error m)).
Abbreviation toy_issuance authzs := (AcmeService.run_issuance (W:=unit) (Account:=unit) (Credentials:=unit)
  (Order:=list str) (Params:=list str) (KeyPair:=unit) (Csr:=unit) (Pem:=unit) (Handle:=unit)
  sample_print (λ t, Some (sample_print t)) (λ _ w, (w, Ok tt)) (λ _ _ _ w, (w, Ok (tt, tt)))
  (λ _ domains w, (w, Ok domains)) (λ _ w, (w, Ok authzs)) (λ _ _, lit "tok.thumbprint") (λ _ _ w, (w, Ok tt))
  (λ _ w, (w, Ok OrderReady)) (λ domains, Ok domains) (λ w, (w, Ok tt)) (λ _ _, Ok tt) (λ _, lit "KEY")
  (λ _ _ w, (w, Ok tt)) (λ _ w, (w, Ok (Some (lit "CHAIN")))) (λ _, Ok tt) (λ _, Ok (0%Z, 1000%Z))
  (λ _ _ _ w, (w, Ok tt)) toy_meta (λ _, None) (λ _ _, [1%N]) (λ _, None)).

Theorem issuance_outcomes_witness :
  ∃ s', toy_issuance [pending] toy_config 0 (toy_start []) = (s', Ok tt) ∧
    AcmeService.files s' CertFile = Some (bytes "CHAIN") ∧
    ∃ chain key, AcmeService.files s' CertFile = Some (bytes chain) ∧ AcmeService.files s' KeyFile = Some (bytes key).
Proof.
  destruct (toy_issuance [pending] toy_config 0 (toy_start [])) as [s' r] eqn:E.
  destruct r as [[]|e]; [|exfalso; apply (f_equal (is_ok ∘ snd)) in E; vm_compute in E; discriminate E].
  exists s'. split; [done|]. split.
  - assert (AcmeService.files (toy_issuance [pending] toy_config 0 (toy_start [])).1 CertFile = Some (bytes "CHAIN"))
      as Hc by by vm_compute.
    rewrite E in Hc. exact Hc.
  - pose proof (AcmeServiceProofs.issuance_outcomes (W:=unit) (Account:=unit) (Credentials:=unit)
      (Order:=list str) (Params:=list str) (KeyPair:=unit) (Csr:=unit) (Pem:=unit) (Handle:=unit)
      sample_print (λ t, Some (sample_print t)) (λ _ w, (w, Ok tt)) (λ _ _ _ w, (w, Ok (tt, tt)))
      (λ _ domains w, (w, Ok domains)) (λ _ w, (w, Ok [pending])) (λ _ _, lit "tok.thumbprint") (λ _ _ w, (w, Ok tt))
      (λ _ w, (w, Ok OrderReady)) (λ domains, Ok domains) (λ w, (w, Ok tt)) (λ _ _, Ok tt) (λ _, lit "KEY")
      (λ _ _ w, (w, Ok tt)) (λ _ w, (w, Ok (Some (lit "CHAIN")))) (λ _, Ok tt) (λ _, Ok (0%Z, 1000%Z))
      (λ _ _ _ w, (w, Ok tt)) toy_meta (λ _, None) (λ _ _, [1%N]) (λ _, None)
      toy_config 0 (toy_start []) s' (Ok tt) eq_refl eq_refl E) as (_ & _ & chain & key & _ & _ & _ & _ & Hc & Hk & _).
    exists chain, key. by split.
Defined.

Theorem config_normal_witness :
  let req := mkUpdateAcme true " https://ca.example/d" "admin@example.com" [lit " Node.Example.COM"; lit " "] true None in
  let c := mkAcmeConfig true "https://ca.example/d" "admin@example.com" [lit "node.example.com"] true 30 in
  validate_config req = Ok c ∧ usable c.
Proof.
  intros req c. assert (validate_config req = Ok c) as E by by vm_compute. split; [done|].
  by apply (config_normal req c).
Defined.

(** An authorization in an unexpected state ends the issuance before the tokens are
    cleared: the answer to the first challenge stays served. *)
Example token_left : AcmeService.challenges
    (toy_issuance [pending; mkAuthz (AuthzOther "Revoked") []] toy_config 0 (toy_start [])).1
  = {[ lit "tok" := lit "tok.thumbprint" ]}.
Proof. by vm_compute. Qed.

(** A disk that is full when the key is written leaves the new certificate with the old
    key, which no listener can load. *)
Definition full_disk : list (option (str * option (list N))) :=
  repeat None 11 ++ [Some (lit "No space left on device", None)].
Example mismatched_pair :
  let s := (toy_issuance [pending] toy_config 0 (toy_start full_disk)).1 in
  AcmeService.files s CertFile = Some (bytes "CHAIN") ∧ AcmeService.files s KeyFile = Some (bytes "OLDKEY").
Proof. by vm_compute. Qed.
