(* ===== verification/Backup.v ===== *)
(** * Backups (src/src/services/backup.rs)

    Plans and artifacts are records; a backup runs as an operation of the journal
    ([Operations]), asks the VM and container services for the datasets and streams
    them with [zfs].  Files, the SHA-256 function and the RFC 3339 times are
    parameters; one call sees one time.  A panic of the code
    (a time out of the range of chrono) is an error that no caller looks at. *)

From S2P Require Export Host Notification Operations Kvm Lxc.

(** ** Data *)

Inductive BackupSourceType := Dataset | SourceVm | Container.
Record BackupPlan := mkPlan {
  bp_id : str; bp_name : str; bp_source_type : BackupSourceType; bp_source_id : str;
  bp_destination : str; bp_interval_secs : option N; bp_retention_count : N;
  bp_from_snapshot : option str; bp_verify : bool; bp_enabled : bool; bp_created_at : str;
  bp_updated_at : option str; bp_last_run_at : option str; bp_next_run_at : option str }.
Record BackupFile := mkBackupFile {
  bf_dataset : str; bf_snapshot : str; bf_incremental_from : option str; bf_path : str;
  bf_size_bytes : N; bf_sha256 : str }.
Record BackupArtifact := mkArtifact {
  ba_id : str; ba_plan_id : str; ba_source_type : BackupSourceType; ba_source_id : str;
  ba_created_at : str; ba_total_size_bytes : N; ba_verified : bool; ba_files : list BackupFile }.
Record CreateBackupPlanRequest := mkCreatePlan {
  cp_name : str; cp_source_type : BackupSourceType; cp_source_id : str; cp_destination : str;
  cp_interval_secs : option N; cp_retention_count : N; cp_from_snapshot : option str;
  cp_verify : bool; cp_enabled : bool }.
Record UpdateBackupPlanRequest := mkUpdatePlan {
  up_interval_secs : option N; up_retention_count : option N; up_from_snapshot : option str;
  up_verify : option bool; up_enabled : option bool }.
Record RestoreBackupRequest := mkRestore {
  rb_target_id : option str; rb_base_artifact_id : option str; rb_force : bool }.

Definition bp_set_interval (i : option N) (next : option str) (p : BackupPlan) : BackupPlan :=
  mkPlan (bp_id p) (bp_name p) (bp_source_type p) (bp_source_id p) (bp_destination p) i
    (bp_retention_count p) (bp_from_snapshot p) (bp_verify p) (bp_enabled p) (bp_created_at p)
    (bp_updated_at p) (bp_last_run_at p) next.
Definition bp_set_next (next : option str) (p : BackupPlan) : BackupPlan :=
  bp_set_interval (bp_interval_secs p) next p.
Definition bp_set_policy (retention : N) (from : option str) (verify : bool) (p : BackupPlan) : BackupPlan :=
  mkPlan (bp_id p) (bp_name p) (bp_source_type p) (bp_source_id p) (bp_destination p) (bp_interval_secs p)
    retention from verify (bp_enabled p) (bp_created_at p) (bp_updated_at p) (bp_last_run_at p) (bp_next_run_at p).
Definition bp_set_enabled (enabled : bool) (p : BackupPlan) : BackupPlan :=
  mkPlan (bp_id p) (bp_name p) (bp_source_type p) (bp_source_id p) (bp_destination p) (bp_interval_secs p)
    (bp_retention_count p) (bp_from_snapshot p) (bp_verify p) enabled (bp_created_at p) (bp_updated_at p)
    (bp_last_run_at p) (bp_next_run_at p).
Definition bp_set_times (updated last : option str) (p : BackupPlan) : BackupPlan :=
  mkPlan (bp_id p) (bp_name p) (bp_source_type p) (bp_source_id p) (bp_destination p) (bp_interval_secs p)
    (bp_retention_count p) (bp_from_snapshot p) (bp_verify p) (bp_enabled p) (bp_created_at p) updated
    last (bp_next_run_at p).

(** ** Validation *)

Definition MIN_INTERVAL_SECS : N := 60.
Definition MAX_RETENTION : N := 3650.

Definition ensure_within_managed_pool (target default_pool : str) : ApiResult unit :=
  let prefix := default_pool ++ "/" in
  if negb (starts_with prefix target) then
    Err (validation ("restore target must be a dataset under the managed pool " ++ debug_str default_pool))
  else Ok tt.

Definition validate_interval (value : option N) : ApiResult unit :=
  if match value with Some secs => (secs <? MIN_INTERVAL_SECS)%N | None => false end then
    Err (validation "backup interval must be at least 60 seconds")
  else Ok tt.

Definition validate_retention (value : N) : ApiResult unit :=
  if (value =? 0)%N || (MAX_RETENTION <? value)%N then
    Err (validation ("retention_count must be 1..=" ++ dec MAX_RETENTION))
  else Ok tt.

Definition validate_destination (value : str) : ApiResult unit :=
  if is_empty (trim value) || starts_with "/" value || contains_char 92 value || (128 <? len value)%N then
    Err (validation "destination must be a relative backup directory")
  else if existsb (λ part, is_empty part || (part =s? ".") || (part =s? "..")) (split (ch "/") value)
          || negb (forallb (λ b, is_ascii_alphanumeric b || char_in b ".-_/") (bytes value)) then
    Err (validation "destination contains invalid path components")
  else Ok tt.

Definition validate_from_snapshot (tag : str) : ApiResult (option str) :=
  let tag := trim tag in
  if is_empty tag then Ok None
  else safe ← ensure_safe_zfs_snapshot tag; Ok (Some safe).

Definition validate_plan_request (req : CreateBackupPlanRequest) : ApiResult unit :=
  if is_empty (trim (cp_name req)) || (64 <? len (trim (cp_name req)))%N then
    Err (validation "backup plan name must be 1..=64 characters")
  else if is_empty (trim (cp_source_id req)) then Err (validation "backup source_id must not be empty")
  else
    _ ← ensure_safe_id (trim (cp_name req));
    _ ← validate_interval (cp_interval_secs req);
    _ ← validate_retention (cp_retention_count req);
    _ ← validate_destination (cp_destination req);
    match cp_source_type req with
    | Dataset => _ ← ensure_safe_zfs_dataset (trim (cp_source_id req)); Ok tt
    | SourceVm | Container => _ ← ensure_safe_id (trim (cp_source_id req)); Ok tt
    end.

(** The components of a path. *)
Definition path_components (p : str) : list str :=
  List.filter (λ c, negb (is_empty c) && negb (c =s? ".")) (split (ch "/") p).
Fixpoint path_prefix (a b : list str) : bool :=
  match a, b with
  | [], _ => true
  | x :: a, y :: b => (x =s? y) && path_prefix a b
  | _, _ => false
  end.
Definition path_starts_with (p root : str) : bool := path_prefix (path_components root) (path_components p).

Definition safe_destination (root relative : str) : ApiResult str :=
  _ ← validate_destination relative;
  let path := path_join root relative in
  if existsb (λ c, c =s? "..") (path_components path) then
    Err (validation "destination escapes backup root")
  else Ok path.

Definition zfs_incremental_send_args (base snapshot : str) : list str :=
  [lit "send"; lit "-i"; base; snapshot].

Definition backup_tag (artifact_id : str) : str :=
  "daygleve-backup-" ++ List.filter (λ c, negb (c =? ch "-")%N) artifact_id.

(** [(index * 70 / total) as u8).max(5)]. *)
Definition backup_progress (index total : nat) : N :=
  N.max (N.of_nat (index * 70 / total) mod 256) 5.

(** ** The service *)

Module BackupService.
Section service.
Context `{RP : RecordStore BackupPlan} `{RA : RecordStore BackupArtifact}
  `{RVm : RecordStore Vm} `{RCt : RecordStore Lxc}.
Context `{RO : RecordStore OperationRecord} `{RQ : RecordStore QuarantineRecord}
  `{RC : RecordStore ConsumedApproval} `{RN : RecordStore StoredChannel}.
Context {H : Type} (broker : bool) (exec : str → list str → Svc H (option str)).
Context (backup_dir default_pool : str).
(** Files: errors are the texts of the I/O errors; a stream gives its length. *)
Context (create_dir_all : str → H → H * result str unit) (canonicalize : str → H → H * result str str)
  (read_file : str → H → H * result str (list N)) (remove_file : str → H → H * result str unit)
  (stream_to_file : str → list str → str → Svc H N) (stream_from_file : str → list str → str → Svc H unit).
Context (sha256_hex : list N → str).
(** Times: the last instant that chrono represents, printing and parsing. *)
Context (max_timestamp : Z) (to_rfc3339 : Z → str) (parse_from_rfc3339 : str → option Z).

Definition panicked : AppError := internal "panic".

(** With the services that backups call: the VMs, the containers and the channels,
    each with its own records, on one host. *)
Record state := mkState {
  plans : rstate (RecordStore:=RP); artifacts : rstate (RecordStore:=RA); running : gset str;
  vms : rstate (RecordStore:=RVm); vm_tickets : gmap str Ticket;
  cts : rstate (RecordStore:=RCt); ct_tickets : gmap str ConsoleTicketEntry;
  notifications : NotificationService.state (RS:=RN) (H:=unit); host : H }.
#[export] Instance state_host : HasHost state H.
Proof.
  refine {| host_of := host; set_host h s :=
    mkState (plans s) (artifacts s) (running s) (vms s) (vm_tickets s) (cts s) (ct_tickets s) (notifications s) h |}. done.
Defined.

Definition on_plans {A} (m : Svc _ A) : Svc state A := λ s,
  let '(x, r) := m (plans s) in
  (mkState x (artifacts s) (running s) (vms s) (vm_tickets s) (cts s) (ct_tickets s) (notifications s) (host s), r).
Definition on_artifacts {A} (m : Svc _ A) : Svc state A := λ s,
  let '(x, r) := m (artifacts s) in
  (mkState (plans s) x (running s) (vms s) (vm_tickets s) (cts s) (ct_tickets s) (notifications s) (host s), r).
Definition set_running (x : gset str) (s : state) : state :=
  mkState (plans s) (artifacts s) x (vms s) (vm_tickets s) (cts s) (ct_tickets s) (notifications s) (host s).
Definition on_kvm {A} (m : Svc (KvmService.state (RV:=RVm) (H:=H)) A) : Svc state A := λ s,
  let '(k, r) := m (KvmService.mkState (vms s) (vm_tickets s) (host s)) in
  (mkState (plans s) (artifacts s) (running s) (KvmService.store k) (KvmService.tickets k) (cts s)
     (ct_tickets s) (notifications s) (KvmService.host k), r).
Definition on_lxc {A} (m : Svc (LxcService.state (RV:=RCt) (H:=H)) A) : Svc state A := λ s,
  let '(k, r) := m (LxcService.mkState (cts s) (ct_tickets s) (host s)) in
  (mkState (plans s) (artifacts s) (running s) (vms s) (vm_tickets s) (LxcService.store k)
     (LxcService.tickets k) (notifications s) (LxcService.host k), r).
Definition notify (event : NotificationEvent) (subject body : str) : Svc state unit := λ s,
  let '(n, r) := NotificationService.notify event subject body (notifications s) in
  (mkState (plans s) (artifacts s) (running s) (vms s) (vm_tickets s) (cts s) (ct_tickets s) n (host s), r).

Local Abbreviation run_ok := (host_run_ok (S:=state) broker exec).
Local Abbreviation run_optional := (host_run_optional (S:=state) broker exec).

(** A file operation and the error it becomes. *)
Definition io {A} (context : str) (m : H → H * result str A) : Svc state A :=
  at_host (λ h, let '(h, r) := m h in (h, map_err (λ e, internal (context ++ ": " ++ e)) r)).

(** ** Plans and artifacts *)

Definition add_seconds (timestamp : str) (secs : N) (now : str) : ApiResult str :=
  match parse_from_rfc3339 timestamp with
  | Some dt =>
      let t := (dt + Z.of_N (N.min secs I64_MAX))%Z in
      if (t <=? max_timestamp)%Z then Ok (to_rfc3339 t) else Err panicked
  | None => Ok now
  end.
Definition next_run (interval : option N) (now : str) : ApiResult (option str) :=
  match interval with
  | Some secs => at_ ← add_seconds now secs now; Ok (Some at_)
  | None => Ok None
  end.

Definition list_plans : Svc state (list BackupPlan) :=
  plans ← on_plans store_list;
  mret (sort_by (λ a b, str_cmp (bp_name a) (bp_name b)) plans).

Definition get_plan (id : str) : Svc state BackupPlan :=
  _ ← lift (ensure_safe_id id);
  found ← on_plans (store_get id);
  lift (ok_or (not_found "backup plan not found") found).

Definition create_plan (req : CreateBackupPlanRequest) (new_id now : str) : Svc state BackupPlan :=
  _ ← lift (validate_plan_request req);
  _ ← lift (ensure_safe_id (cp_name req));
  plans ← list_plans;
  if existsb (λ p, eq_ignore_ascii_case (bp_name p) (trim (cp_name req))) plans then
    fail (conflict "a backup plan with that name already exists")
  else
    next ← lift (next_run (cp_interval_secs req) now);
    let plan := mkPlan new_id (trim (cp_name req)) (cp_source_type req) (trim (cp_source_id req))
      (trim (cp_destination req)) (cp_interval_secs req) (cp_retention_count req)
      (match cp_from_snapshot req with
       | Some tag => if is_empty (trim tag) then None else Some (trim tag)
       | None => None end)
      (cp_verify req) (cp_enabled req) now None None next in
    _ ← on_plans (store_put (bp_id plan) plan);
    mret plan.

Definition updated_plan (req : UpdateBackupPlanRequest) (now : str) (plan : BackupPlan) : ApiResult BackupPlan :=
  plan ← (match up_interval_secs req with
          | Some interval =>
              _ ← validate_interval (Some interval);
              next ← next_run (Some interval) now;
              Ok (bp_set_interval (Some interval) next plan)
          | None => Ok plan end);
  retention ← (match up_retention_count req with
               | Some retention => _ ← validate_retention retention; Ok retention
               | None => Ok (bp_retention_count plan) end);
  from ← (match up_from_snapshot req with
          | Some tag => validate_from_snapshot tag
          | None => Ok (bp_from_snapshot plan) end);
  let plan := bp_set_policy retention from (default (bp_verify plan) (up_verify req)) plan in
  plan ← (match up_enabled req with
          | Some enabled =>
              let plan := bp_set_enabled enabled plan in
              if enabled && bool_decide (is_Some (bp_interval_secs plan))
                 && negb (bool_decide (is_Some (bp_next_run_at plan)))
              then next ← next_run (bp_interval_secs plan) now; Ok (bp_set_next next plan)
              else Ok plan
          | None => Ok plan end);
  Ok (bp_set_times (Some now) (bp_last_run_at plan) plan).

Definition update_plan (id : str) (req : UpdateBackupPlanRequest) (now : str) : Svc state BackupPlan :=
  plan ← get_plan id;
  plan ← lift (updated_plan req now plan);
  _ ← on_plans (store_put (bp_id plan) plan);
  mret plan.

Definition delete_plan (id : str) : Svc state unit :=
  _ ← get_plan id;
  running ← gets running;
  if bool_decide (id ∈ running) then fail (conflict "backup plan is currently running")
  else _ ← on_plans (store_delete id); mret tt.

Definition list_artifacts (plan_id : option str) : Svc state (list BackupArtifact) :=
  artifacts ← on_artifacts store_list;
  let artifacts := match plan_id with
                   | Some plan_id => List.filter (λ a, ba_plan_id a =s? plan_id) artifacts
                   | None => artifacts end in
  mret (sort_by (λ a b, str_cmp (ba_created_at b) (ba_created_at a)) artifacts).

Definition get_artifact (id : str) : Svc state BackupArtifact :=
  _ ← lift (ensure_safe_id id);
  found ← on_artifacts (store_get id);
  lift (ok_or (not_found "backup artifact not found") found).

(** ** Streams and checksums *)

Definition sha256_file (path : str) : Svc state str :=
  bytes ← io ("open " ++ path) (read_file path);
  mret (sha256_hex bytes).
Definition verify_file (file : BackupFile) : Svc state unit :=
  actual ← sha256_file (bf_path file);
  if negb (actual =s? bf_sha256 file) then fail (conflict "backup checksum verification failed") else mret tt.
Definition verify_checksum (path expected : str) : Svc state unit :=
  actual ← sha256_file path;
  if negb (actual =s? expected) then fail (internal "backup checksum changed during verification") else mret tt.

Definition send_to_file (snapshot path : str) : Svc state N :=
  at_host (stream_to_file "zfs" [lit "send"; lit "-p"; snapshot] path).
Definition send_incremental_to_file (base snapshot path : str) : Svc state N :=
  at_host (stream_to_file "zfs" (zfs_incremental_send_args base snapshot) path).

Definition dataset_exists (name : str) : Svc state bool :=
  found ← run_optional "zfs" [lit "list"; lit "-H"; lit "-o"; lit "name"; name];
  mret (bool_decide (is_Some found)).

Definition restore_file (file : BackupFile) (target : str) (force : bool) : Svc state unit :=
  _ ← lift (ensure_safe_zfs_dataset target);
  exists_ ← dataset_exists target;
  if (exists_ : bool) && negb force then fail (conflict "restore target already exists; set force to replace it")
  else
    _ ← (if exists_ && force then run_ok "zfs" [lit "destroy"; lit "-r"; target] else mret tt);
    at_host (stream_from_file "zfs" [lit "receive"; lit "-F"; target] (bf_path file)).

Definition restore_incremental_file (file : BackupFile) (target : str) : Svc state unit :=
  _ ← lift (ensure_safe_zfs_dataset target);
  exists_ ← dataset_exists target;
  if negb exists_ then
    fail (validation "incremental restore requires the target dataset to already exist with the base snapshot; restore the base artifact first")
  else at_host (stream_from_file "zfs" [lit "receive"; lit "-F"; target] (bf_path file)).

(** ** Retention *)

Definition remove_files (files : list BackupFile) : Svc state unit :=
  each (λ f, ignore (at_host (λ h, let '(h, r) := remove_file (bf_path f) h in (h, map_err internal r)))) files.
Fixpoint drop_artifacts (old : list BackupArtifact) : Svc state unit :=
  match old with
  | [] => mret tt
  | artifact :: old =>
      _ ← remove_files (ba_files artifact);
      _ ← on_artifacts (store_delete (ba_id artifact));
      drop_artifacts old
  end.
Definition apply_retention (plan : BackupPlan) : Svc state unit :=
  artifacts ← list_artifacts (Some (bp_id plan));
  if (length artifacts <=? N.to_nat (bp_retention_count plan))%nat then mret tt
  else drop_artifacts (drop (N.to_nat (bp_retention_count plan)) artifacts).

(** ** Sources *)

Definition resolve_sources (plan : BackupPlan) : Svc state (list str) :=
  match bp_source_type plan with
  | Dataset =>
      _ ← lift (ensure_safe_zfs_dataset (bp_source_id plan));
      mret [bp_source_id plan]
  | SourceVm =>
      vm ← on_kvm (KvmService.get broker exec (bp_source_id plan));
      lift (mapM (λ d, ensure_safe_zfs_dataset (trim (dk_dataset d))) (v_disks vm))
  | Container =>
      ct ← on_lxc (LxcService.get broker exec (bp_source_id plan));
      lift (s ← ensure_safe_zfs_dataset (ct_rootfs_dataset ct); Ok [s])
  end.

(** ** Running a backup

    A job runs inside the operation journal, whose host is the backup service. *)

Definition OpState : Type := OperationService.state (RO:=RO) (RQ:=RQ) (RC:=RC) (H:=state).
Definition here {A} (m : Svc state A) : Svc OpState A := OperationService.on_host m.
Definition progress (op_id : str) (pct : N) (text : str) : Svc OpState unit :=
  OperationService.update_progress op_id pct (Some text).

Definition resolve_bases (datasets : list str) (from_snapshot : option str) : Svc state (list (option str)) :=
  match from_snapshot with
  | Some tag =>
      let fix loop datasets :=
        match datasets with
        | [] => mret []
        | dataset :: datasets =>
            let base := dataset ++ "@" ++ tag in
            there ← dataset_exists base;
            if negb there then
              fail (validation ("incremental base snapshot " ++ base ++ " does not exist on the source"))
            else rest ← loop datasets; mret (Some base :: rest)
        end in
      loop datasets
  | None => mret (map (λ _, None) datasets)
  end.

(** One dataset, after its snapshot was taken. *)
Definition capture (plan : BackupPlan) (op_id dataset snapshot path : str) (base : option str) :
    Svc OpState BackupFile :=
  size ← here (match base with
               | Some base => send_incremental_to_file base snapshot path
               | None => send_to_file snapshot path end);
  sha ← here (sha256_file path);
  _ ← (if bp_verify plan then
         _ ← progress op_id 75 "verifying backup checksum";
         here (verify_checksum path sha)
       else mret tt);
  mret (mkBackupFile dataset snapshot base path size sha).

Definition take_snapshot (op_id snapshot : str) (index total : nat) : Svc OpState unit :=
  _ ← progress op_id (backup_progress index total) "creating backup snapshot";
  here (run_ok "zfs" [lit "snapshot"; snapshot]).

(** The loop over the datasets: the snapshots it took, and its outcome. *)
Fixpoint backup_datasets (plan : BackupPlan) (op_id artifact_id tag destination : str) (index total : nat)
    (datasets : list (str * option str)) (s : OpState) :
    OpState * (list str * ApiResult (list BackupFile)) :=
  match datasets with
  | [] => (s, ([], Ok []))
  | (dataset, base) :: datasets =>
      let snapshot := dataset ++ "@" ++ tag in
      match take_snapshot op_id snapshot index total s with
      | (s, Err e) => (s, ([], Err e))
      | (s, Ok _) =>
          let path := path_join destination (artifact_id ++ "-" ++ dec (N.of_nat index) ++ ".zfs") in
          match capture plan op_id dataset snapshot path base s with
          | (s, Err e) => (s, ([snapshot], Err e))
          | (s, Ok file) =>
              let '(s, (taken, r)) :=
                backup_datasets plan op_id artifact_id tag destination (S index) total datasets s in
              (s, (snapshot :: taken, match r with Ok files => Ok (file :: files) | Err e => Err e end))
          end
      end
  end.

Definition new_artifact (plan : BackupPlan) (artifact_id now : str) (files : list BackupFile) : BackupArtifact :=
  mkArtifact artifact_id (bp_id plan) (bp_source_type plan) (bp_source_id plan) now
    (foldr (λ f n, bf_size_bytes f + n)%N 0%N files mod 2 ^ 64)%N (bp_verify plan) files.

(** The block of [run_backup] whose outcome is looked at after the clean-up. *)
Definition backup_body (plan : BackupPlan) (op_id artifact_id destination now : str) (datasets : list str)
    (s : OpState) : OpState * (list str * ApiResult BackupArtifact) :=
  match here (resolve_bases datasets (bp_from_snapshot plan)) s with
  | (s, Err e) => (s, ([], Err e))
  | (s, Ok bases) =>
      let '(s, (taken, r)) := backup_datasets plan op_id artifact_id (backup_tag artifact_id) destination 0
                                (length datasets) (zip datasets bases) s in
      match r with
      | Err e => (s, (taken, Err e))
      | Ok files =>
          let artifact := new_artifact plan artifact_id now files in
          let '(s, r) := here (_ ← on_artifacts (store_put (ba_id artifact) artifact);
                               apply_retention plan) s in
          (s, (taken, match r with Ok _ => Ok artifact | Err e => Err e end))
      end
  end.

(** The directory of the files, created and checked to be below the backup root. *)
Definition prepare_destination (plan : BackupPlan) : Svc state str :=
  _ ← io "create backup root" (create_dir_all backup_dir);
  destination ← lift (safe_destination backup_dir (bp_destination plan));
  _ ← io "create backup destination" (create_dir_all destination);
  root ← io "resolve backup root" (canonicalize backup_dir);
  resolved ← io "resolve backup destination" (canonicalize destination);
  if negb (path_starts_with resolved root) then fail (validation "backup destination escapes backup root")
  else mret destination.

(** What follows the block: the snapshots go, the schedule moves on. *)
Definition drop_snapshots (taken : list str) : Svc state unit :=
  each (λ snapshot, ignore (run_ok "zfs" [lit "destroy"; snapshot])) taken.
Definition advance_schedule (plan_id now : str) (succeeded : bool) : Svc state unit :=
  current ← get_plan plan_id;
  next ← lift (next_run (bp_interval_secs current) now);
  let current := bp_set_next next
    (bp_set_times (bp_updated_at current) (if succeeded then Some now else bp_last_run_at current) current) in
  on_plans (store_put (bp_id current) current).

Definition backup_to (plan : BackupPlan) (op_id artifact_id destination now : str) (datasets : list str) :
    Svc OpState BackupArtifact := λ s,
  let '(s, (taken, result)) := backup_body plan op_id artifact_id destination now datasets s in
  (_ ← here (drop_snapshots taken);
   _ ← here (advance_schedule (bp_id plan) now (is_ok result));
   lift result) s.

Definition run_backup (plan : BackupPlan) (op_id artifact_id now : str) : Svc OpState BackupArtifact :=
  datasets ← here (resolve_sources plan);
  match datasets with
  | [] => fail (validation "backup source contains no datasets")
  | _ =>
      destination ← here (prepare_destination plan);
      backup_to plan op_id artifact_id destination now datasets
  end.

(** The operation that [enqueue_backup_for_plan] hands to the journal. *)
Definition announce (plan : BackupPlan) (result : ApiResult BackupArtifact) : Svc state unit :=
  match result with
  | Ok artifact =>
      notify BackupSucceeded ("Backup succeeded: " ++ bp_name plan)
        ("Backup plan " ++ debug_str (bp_name plan) ++ " completed: artifact " ++ ba_id artifact ++ " ("
         ++ dec (ba_total_size_bytes artifact) ++ " bytes).")
  | Err e =>
      notify BackupFailed ("Backup failed: " ++ bp_name plan)
        ("Backup plan " ++ debug_str (bp_name plan) ++ " failed: " ++ message e)
  end.
Definition release (plan_id : str) : Svc state unit := modify (λ s, set_running (running s ∖ {[plan_id]}) s).
Definition backup_job (plan : BackupPlan) (artifact_id now op_id : str) : Svc OpState (option str) :=
  result ← attempt (run_backup plan op_id artifact_id now);
  _ ← here (release (bp_id plan));
  _ ← here (announce plan result);
  artifact ← lift result;
  mret (Some ("created backup " ++ ba_id artifact ++ " (" ++ dec (ba_total_size_bytes artifact) ++ " bytes)")).

(** Admission: the plan is marked as running, and unmarked if the operation cannot
    be queued; on success the task [backup_worker] is started. *)
Definition claim (plan_id : str) : Svc state unit :=
  busy ← gets running;
  if bool_decide (plan_id ∈ busy) then fail (conflict "a backup for this plan is already running")
  else modify (λ s, set_running ({[plan_id]} ∪ busy) s).
Definition enqueue_backup_for_plan (plan : BackupPlan) (actor : option str) (op_id now : str) :
    Svc OpState (str * OperationRecord) :=
  _ ← here (claim (bp_id plan));
  on_error (OperationService.queue now "backup.run" (Some (lit "backup_plan")) (Some (bp_id plan)) actor op_id)
    (here (release (bp_id plan))).
Definition enqueue_backup (plan_id : str) (actor : option str) (op_id now : str) :
    Svc OpState (BackupPlan * (str * OperationRecord)) :=
  plan ← here (get_plan plan_id);
  queued ← enqueue_backup_for_plan plan actor op_id now;
  mret (plan, queued).
Definition backup_worker (plan : BackupPlan) (op_id artifact_id now : str) : Svc OpState unit :=
  OperationService.worker now op_id (Some (lit "backup_plan")) (Some (bp_id plan))
    (backup_job plan artifact_id now).

(** ** Restoring *)

(** The checks of [enqueue_restore]: the file, its base and the target. *)
Definition base_of (artifact : BackupArtifact) (file : BackupFile) (base_id : option str) :
    Svc state (option BackupFile) :=
  match base_id with
  | Some base_id =>
      base_artifact ← get_artifact base_id;
      if negb (ba_plan_id base_artifact =s? ba_plan_id artifact) then
        fail (validation "base artifact belongs to a different backup plan")
      else match bf_incremental_from file with
      | None => fail (validation "this artifact is a full stream and needs no base")
      | Some base_snapshot =>
          base_file ← lift (ok_or (validation "base artifact does not contain the incremental base snapshot")
                              (List.find (λ f, bf_snapshot f =s? base_snapshot) (ba_files base_artifact)));
          if negb (ba_verified base_artifact) then
            fail (conflict "base artifact is not verified; verify it before restoring")
          else mret (Some base_file)
      end
  | None =>
      if bool_decide (is_Some (bf_incremental_from file)) then
        fail (validation "this artifact is an incremental stream; pass base_artifact_id of the full backup it builds on")
      else mret None
  end.
Definition restore_target (artifact : BackupArtifact) (target_id : option str) : ApiResult str :=
  match ba_source_type artifact, target_id with
  | _, Some target => Ok (trim target)
  | Dataset, None => Ok (ba_source_id artifact)
  | _, None => Err (validation "target_id is required when restoring a VM or container backup")
  end.
Definition plan_restore (artifact_id : str) (req : RestoreBackupRequest) :
    Svc state (BackupFile * option BackupFile * str) :=
  artifact ← get_artifact artifact_id;
  if negb (ba_verified artifact) then
    fail (conflict "this artifact was not verified; verify it before restoring")
  else match ba_files artifact with
  | [file] =>
      base_file ← base_of artifact file (rb_base_artifact_id req);
      target ← lift (restore_target artifact (rb_target_id req));
      _ ← lift (ensure_safe_zfs_dataset target);
      _ ← lift (ensure_within_managed_pool target default_pool);
      mret (file, base_file, target)
  | _ => fail (validation "restore currently supports one-dataset artifacts only")
  end.
Definition restore_streams (file : BackupFile) (base_file : option BackupFile) (target : str) (force : bool) :
    Svc state unit :=
  if bool_decide (is_Some (bf_incremental_from file)) then
    _ ← (match base_file with Some base => restore_file base target force | None => mret tt end);
    restore_incremental_file file target
  else restore_file file target force.
Definition restore_job (file : BackupFile) (base_file : option BackupFile) (target : str) (force : bool)
    (op_id : str) : Svc OpState (option str) :=
  _ ← progress op_id 10 "verifying backup file";
  _ ← (match base_file with Some base => here (verify_file base) | None => mret tt end);
  _ ← here (verify_file file);
  _ ← progress op_id 35 "restoring ZFS stream";
  _ ← here (restore_streams file base_file target force);
  mret (Some ("restored " ++ bf_snapshot file ++ " to " ++ target)).
Definition enqueue_restore (artifact_id : str) (req : RestoreBackupRequest) (actor : option str) (op_id now : str) :
    Svc OpState (BackupFile * option BackupFile * str) :=
  planned ← here (plan_restore artifact_id req);
  _ ← OperationService.queue now "backup.restore" (Some (lit "dataset")) (Some planned.2) actor op_id;
  mret planned.
Definition restore_worker (planned : BackupFile * option BackupFile * str) (force : bool) (op_id now : str) :
    Svc OpState unit :=
  let '(file, base_file, target) := planned in
  OperationService.worker now op_id (Some (lit "dataset")) (Some target) (restore_job file base_file target force).

(** ** The scheduler *)

Definition plan_due (plan : BackupPlan) (now : str) : bool :=
  bp_enabled plan && bool_decide (is_Some (bp_interval_secs plan)) &&
  match bp_next_run_at plan with Some at_ => bool_decide (str_cmp at_ now ≠ Gt) | None => false end.
(** One tick: the plans queued, with the ids of their operations. *)
Fixpoint queue_due (now : str) (plans : list (BackupPlan * str)) : Svc OpState (list (BackupPlan * str)) :=
  match plans with
  | [] => mret []
  | (plan, op_id) :: plans =>
      if negb (plan_due plan now) then queue_due now plans
      else
        queued ← attempt (enqueue_backup_for_plan plan None op_id now);
        rest ← queue_due now plans;
        mret (match queued with Ok _ => (plan, op_id) :: rest | Err _ => rest end)
  end.
Definition scheduler_tick (now : str) (new_op_id : BackupPlan → str) : Svc OpState (list (BackupPlan * str)) :=
  plans ← attempt (here list_plans);
  match plans with
  | Ok plans => queue_due now (map (λ p, (p, new_op_id p)) plans)
  | Err _ => mret []
  end.
End service.
End BackupService.
