(* ===== verification/BackupProofs.v ===== *)
(** * Backups: one run per plan, confined restores, what a run leaves *)

From S2P Require Export Backup.

#[export] Existing Instance BackupService.state_host.

Section backup.
Context `{RP : RecordStore BackupPlan} `{RA : RecordStore BackupArtifact}
  `{RVm : RecordStore Vm} `{RCt : RecordStore Lxc}.
Context `{RO : RecordStore OperationRecord} `{RQ : RecordStore QuarantineRecord}
  `{RC : RecordStore ConsumedApproval} `{RN : RecordStore StoredChannel}.
Context {H : Type} (log : H → list command_line).
Context (broker : bool) (exec : str → list str → Svc H (option str)).
Context (backup_dir default_pool : str).
Context (create_dir_all : str → H → H * result str unit) (canonicalize : str → H → H * result str str)
  (read_file : str → H → H * result str (list N)) (remove_file : str → H → H * result str unit)
  (stream_to_file : str → list str → str → Svc H N) (stream_from_file : str → list str → str → Svc H unit).
Context (sha256_hex : list N → str).
Context (max_timestamp : Z) (to_rfc3339 : Z → str) (parse_from_rfc3339 : str → option Z).

Local Abbreviation state := (BackupService.state (RP:=RP) (RA:=RA) (RVm:=RVm) (RCt:=RCt) (RN:=RN) (H:=H)).
Local Abbreviation OpState := (BackupService.OpState (RP:=RP) (RA:=RA) (RVm:=RVm) (RCt:=RCt) (RO:=RO) (RQ:=RQ)
  (RC:=RC) (RN:=RN) (H:=H)).

#[local] Instance op_host : HasHost OpState H.
Proof.
  refine {| host_of s := BackupService.host (OperationService.host s);
            set_host h s := OperationService.mkState (OperationService.store s) (OperationService.quarantined s)
              (OperationService.consumed_approvals s) (set_host h (OperationService.host s)) |}. done.
Defined.

Lemma emits_here {A} P (m : Svc state A) : emits log P m → emits (S:=OpState) log P (BackupService.here m).
Proof.
  intros Hm s s' r. unfold BackupService.here, OperationService.on_host.
  destruct (m (OperationService.host s)) as [b x] eqn:E. intros [= <- _]. exact (Hm _ _ _ E).
Qed.
Lemma emits_progress P op_id pct text : emits (S:=OpState) log P (BackupService.progress op_id pct text).
Proof.
  apply emits_quiet. intros s. unfold BackupService.progress, OperationService.update_progress, OperationService.get,
    OperationService.put_record, OperationService.on_store, mbind, svc_bind, lift, trace, mret, svc_ret.
  repeat (case_match; simplify_eq/=; try done).
Qed.

(** The journal touches no host. *)
Ltac journal_quiet :=
  apply emits_quiet; let st := fresh "st" in intros st;
  unfold OperationService.queue, OperationService.create_record, OperationService.mark_running,
    OperationService.succeed, OperationService.fail_operation, OperationService.finish, OperationService.get,
    OperationService.put_record, OperationService.on_store, mbind, svc_bind, lift, trace, mret, svc_ret;
  repeat (case_match; simplify_eq/=; try done).
Lemma emits_worker P now op_id t i operation :
  (∀ h, emits (S:=OpState) log P (operation h)) → emits (S:=OpState) log P (OperationService.worker now op_id t i operation).
Proof.
  intros Ho. unfold OperationService.worker.
  assert (∀ {A} (m : Svc OpState A), emits log P m → emits log P (OperationService.try m)) as Htry.
  { intros A m Hm s s' r. unfold OperationService.try. destruct (m s) as [s1 r1] eqn:E. intros [= <- _]. by eapply Hm. }
  assert (∀ m : Svc OpState unit, emits log P m → emits log P (OperationService.best_effort m)) as Hbest.
  { intros m Hm s s' r [= <- _]. destruct (m s) as [s1 r1] eqn:E. by eapply Hm. }
  apply emits_bind; [apply Htry; journal_quiet|intros [_|e]; [|apply emits_ret]].
  apply emits_bind; [by apply Htry|]. intros [m|e]; apply Hbest; journal_quiet.
Qed.

(** ** Restores *)

Context (exec_log : ∀ p a h, log (exec p a h).1 = log h ++ [(p, a)])
  (receive_log : ∀ p a f h, log (stream_from_file p a f h).1 = log h ++ [(p, a)])
  (read_log : ∀ f h, log (read_file f h).1 = log h).
Local Abbreviation verify_file := (BackupService.verify_file (RP:=RP) (RA:=RA) (RVm:=RVm) (RCt:=RCt) (RN:=RN)
  read_file sha256_hex).
Local Abbreviation restore_file := (BackupService.restore_file (RP:=RP) (RA:=RA) (RVm:=RVm) (RCt:=RCt) (RN:=RN)
  broker exec stream_from_file).
Local Abbreviation restore_incremental_file := (BackupService.restore_incremental_file (RP:=RP) (RA:=RA) (RVm:=RVm)
  (RCt:=RCt) (RN:=RN) broker exec stream_from_file).
Local Abbreviation restore_job := (BackupService.restore_job (RP:=RP) (RA:=RA) (RVm:=RVm) (RCt:=RCt) (RO:=RO)
  (RQ:=RQ) (RC:=RC) (RN:=RN) broker exec read_file stream_from_file sha256_hex).
Local Abbreviation restore_worker := (BackupService.restore_worker (RP:=RP) (RA:=RA) (RVm:=RVm) (RCt:=RCt) (RO:=RO)
  (RQ:=RQ) (RC:=RC) (RN:=RN) broker exec read_file stream_from_file sha256_hex).
Local Abbreviation enqueue_restore := (BackupService.enqueue_restore (RP:=RP) (RA:=RA) (RVm:=RVm) (RCt:=RCt)
  (RO:=RO) (RQ:=RQ) (RC:=RC) (RN:=RN) (H:=H) default_pool).

(** What a restore to [target] may execute. *)
Definition confined (target : str) (force : bool) (c : command_line) : Prop :=
  c = (lit "zfs", [lit "list"; lit "-H"; lit "-o"; lit "name"; target]) ∨
  (force = true ∧ c = (lit "zfs", [lit "destroy"; lit "-r"; target])) ∨
  c = (lit "zfs", [lit "receive"; lit "-F"; target]).

Lemma receive_emits target force f :
  emits (S:=state) log (confined target force) (at_host (stream_from_file "zfs" [lit "receive"; lit "-F"; target] f)).
Proof.
  eapply at_host_one; [by right; right|]. intros h h' r E. right.
  pose proof (receive_log "zfs" [lit "receive"; lit "-F"; target] f h) as Hl. by rewrite E in Hl.
Qed.
Lemma dataset_exists_emits target force :
  emits (S:=state) log (confined target force) (BackupService.dataset_exists broker exec target).
Proof. apply emits_bind; [apply emits_run_optional; [done|by left]|intros; apply emits_ret]. Qed.
Lemma restore_file_emits f target force : emits log (confined target force) (restore_file f target force).
Proof.
  unfold BackupService.restore_file. apply emits_bind; [apply emits_lift|intros _].
  apply emits_bind; [apply dataset_exists_emits|intros there].
  destruct (there && negb force); [apply emits_fail|]. apply emits_bind; [|intros; apply receive_emits].
  destruct (there && force) eqn:E; [|apply emits_ret]. apply andb_true_iff in E as [_ Hf].
  apply emits_run_ok; [done|]. right. by left.
Qed.
Lemma restore_incremental_emits f target force :
  emits log (confined target force) (restore_incremental_file f target).
Proof.
  unfold BackupService.restore_incremental_file. apply emits_bind; [apply emits_lift|intros _].
  apply emits_bind; [apply dataset_exists_emits|intros there].
  destruct there; simpl; [apply receive_emits|apply emits_fail].
Qed.
Lemma verify_emits P f : emits log P (verify_file f).
Proof.
  unfold BackupService.verify_file, BackupService.sha256_file, BackupService.io.
  apply emits_bind; [apply emits_bind; [|intros; apply emits_ret]|].
  - apply emits_at_host. intros h. pose proof (read_log (bf_path f) h) as Hr. by destruct (read_file _ h).
  - intros x. destruct (negb _); [apply emits_fail|apply emits_ret].
Qed.

Lemma restore_job_emits f base target force op_id :
  emits log (confined target force) (restore_job f base target force op_id).
Proof.
  unfold BackupService.restore_job. apply emits_bind; [apply emits_progress|intros _].
  apply emits_bind; [destruct base; [apply emits_here, verify_emits|apply emits_ret]|intros _].
  apply emits_bind; [apply emits_here, verify_emits|intros _].
  apply emits_bind; [apply emits_progress|intros _].
  apply emits_bind; [apply emits_here|intros; apply emits_ret].
  unfold BackupService.restore_streams. destruct (bool_decide _); [|apply restore_file_emits].
  apply emits_bind; [|intros; apply restore_incremental_emits].
  destruct base; [apply restore_file_emits|apply emits_ret].
Qed.

(** A file whose content is not what was recorded. *)
Definition altered (f : BackupFile) : Prop :=
  ∀ h b, (read_file (bf_path f) h).2 = Ok b → sha256_hex b ≠ bf_sha256 f.
Lemma verify_altered f (s s' : state) : altered f → verify_file f s ≠ (s', Ok tt).
Proof.
  intros Ha. unfold BackupService.verify_file, BackupService.sha256_file, BackupService.io, at_host, mbind, svc_bind.
  specialize (Ha (host_of s)). destruct (read_file _ _) as [h [b|e]]; simpl; [|done].
  unfold str_eqb. case_bool_decide as Hb; [by destruct (Ha b)|done].
Qed.
Lemma here_never {A} (m : Svc state A) : (∀ s s' a, m s ≠ (s', Ok a)) →
  ∀ s s' a, BackupService.here (RO:=RO) (RQ:=RQ) (RC:=RC) m s ≠ (s', Ok a).
Proof.
  intros Hm s s' a. unfold BackupService.here, OperationService.on_host.
  destruct (m _) as [b x] eqn:E. intros [= _ ->]. by eapply Hm.
Qed.
Lemma restore_altered f base target force op_id :
  (altered f ∨ ∃ b, base = Some b ∧ altered b) → emits log (λ _, False) (restore_job f base target force op_id).
Proof.
  intros Ha. unfold BackupService.restore_job. apply emits_bind; [apply emits_progress|intros _].
  destruct Ha as [Ha|(b & -> & Ha)].
  - apply emits_bind; [destruct base; [apply emits_here, verify_emits|apply emits_ret]|intros _].
    apply emits_bind_fails; [apply emits_here, verify_emits|]. intros s s' []. apply here_never.
    intros ? ? []. by apply verify_altered.
  - apply emits_bind_fails; [apply emits_here, verify_emits|]. intros s s' []. apply here_never.
    intros ? ? []. by apply verify_altered.
Qed.

Lemma get_artifact_ok id (s s' : state) a : BackupService.get_artifact id s = (s', Ok a) →
  record (BackupService.artifacts s) id = Some a ∧ host_of s' = host_of s ∧
  ∀ k, record (BackupService.artifacts s') k = record (BackupService.artifacts s) k.
Proof.
  unfold BackupService.get_artifact. intros (s1 & x & [= <- _] & E)%svc_bind_ok.
  apply svc_bind_ok in E as (s2 & o & E & [= <- Ho]). apply ok_or_ok in Ho as ->.
  unfold BackupService.on_artifacts in E. destruct (store_get id _) as [d r] eqn:Eg. injection E as <- ->.
  simpl. split; [symmetry; by eapply get_ok|]. split; [done|]. intros k. by eapply get_keeps.
Qed.
Lemma pool_prefix target : ensure_within_managed_pool target default_pool = Ok tt →
  ∃ rest, target = default_pool ++ "/" ++ rest.
Proof.
  unfold ensure_within_managed_pool. destruct (starts_with _ _) eqn:E; simpl; [|done]. intros _.
  apply starts_with_spec in E as [r ->]. exists r. by rewrite <- app_assoc.
Qed.
Lemma base_of_ok a f base_id (s s' : state) b : BackupService.base_of a f base_id s = (s', Ok b) →
  host_of s' = host_of s ∧ (is_Some (bf_incremental_from f) ↔ is_Some b) ∧
  ∀ g, b = Some g → bf_incremental_from f = Some (bf_snapshot g).
Proof.
  unfold BackupService.base_of. destruct base_id as [base_id|].
  - intros (s1 & ba & E1 & E)%svc_bind_ok. destruct (get_artifact_ok _ _ _ _ E1) as (_ & H1 & _).
    destruct (negb _); [done|]. destruct (bf_incremental_from f) as [snap|]; [|done].
    apply svc_bind_ok in E as (s2 & g & [= <- Hg] & E). apply ok_or_ok, find_some in Hg as [_ Hg].
    destruct (negb (ba_verified ba)); [done|]. injection E as <- <-. split; [done|]. split; [done|].
    intros ? [= <-]. unfold str_eqb in Hg. apply bool_decide_eq_true in Hg. by rewrite Hg.
  - case_bool_decide as Hb; [done|]. intros [= <- <-]. split; [done|]. split; [|done].
    split; [done|]. by intros [? [=]].
Qed.

(** C8: what a restore can destroy. A restore is accepted only for one file of a
    verified artifact, with the base it builds on if it is incremental, and for a
    well-formed dataset below the managed pool, never the pool itself; accepting it
    runs nothing on the host. Its job runs nothing but the check for the target, the
    receive into it and, when the request forces it, its destruction; and when the
    content of the file or of its base is not the recorded one, the job runs no
    command at all. *)
Theorem restore_confined id req actor op_id now s s' file base target :
  enqueue_restore id req actor op_id now s = (s', Ok (file, base, target)) →
  trace log s' = trace log s ∧
  (∃ rest, target = default_pool ++ "/" ++ rest) ∧ ensure_safe_zfs_dataset target = Ok target ∧
  (∃ a, record (BackupService.artifacts (OperationService.host s)) id = Some a ∧ ba_verified a = true ∧
     ba_files a = [file]) ∧
  (is_Some (bf_incremental_from file) ↔ is_Some base) ∧
  ∀ op_id' now' t t' r, restore_worker (file, base, target) (rb_force req) op_id' now' t = (t', r) →
    ∃ tr, trace log t' = trace log t ++ tr ∧ Forall (confined target (rb_force req)) tr ∧
      (altered file ∨ (∃ b, base = Some b ∧ altered b) → tr = []).
Proof.
  unfold BackupService.enqueue_restore. intros (s1 & pl & E1 & E)%svc_bind_ok.
  apply svc_bind_ok in E as (s2 & q & Eq & [= <- ->]).
  unfold BackupService.here, OperationService.on_host in E1.
  destruct (BackupService.plan_restore _ _ _ _) as [b1 r1] eqn:Ep. injection E1 as <- ->.
  unfold BackupService.plan_restore in Ep. apply svc_bind_ok in Ep as (b2 & a & Ea & Ep).
  destruct (get_artifact_ok _ _ _ _ Ea) as (Hrec & H2 & _).
  destruct (ba_verified a) eqn:Hv; [|done]. cbn [negb] in Ep. destruct (ba_files a) as [|f [|]] eqn:Hf; try done.
  apply svc_bind_ok in Ep as (b3 & bs & Eb & Ep). destruct (base_of_ok _ _ _ _ _ _ Eb) as (H3 & Hb & _).
  do 3 (apply svc_bind_ok in Ep as (? & ? & [= <- ?] & Ep)). injection Ep as <- -> -> ->.
  assert (trace log s2 = trace log s) as Htr.
  { transitivity (log (host_of (S:=state) b3)); [|by rewrite H3, H2].
    assert (emits (S:=OpState) log (λ _, False) (OperationService.queue now "backup.restore" (Some (lit "dataset"))
      (Some target) actor op_id)) as Hq by journal_quiet.
    destruct (Hq _ _ _ Eq) as (tr & Htr & Hfalse). rewrite Htr.
    destruct tr; [by rewrite app_nil_r|by apply Forall_cons in Hfalse as [[] _]]. }
  split; [done|]. split.
  { match goal with h : ensure_within_managed_pool target _ = Ok ?u |- _ => destruct u; by apply pool_prefix in h end. } split.
  { match goal with h : ensure_safe_zfs_dataset target = Ok ?x |- _ =>
      by rewrite h; f_equal; eapply ensure_safe_zfs_dataset_id end. }
  split; [by exists a|]. split; [done|]. intros op_id' now' t t' r Ew.
  assert (emits log (confined target (rb_force req)) (restore_worker (file, base, target) (rb_force req) op_id' now')) as He.
  { apply emits_worker. intros h. apply restore_job_emits. }
  destruct (He _ _ _ Ew) as (tr & Ht & Hc). exists tr. split; [done|]. split; [done|]. intros Ha.
  assert (emits log (λ _, False) (restore_worker (file, base, target) (rb_force req) op_id' now')) as Hn.
  { apply emits_worker. intros h. by apply restore_altered. }
  destruct (Hn _ _ _ Ew) as (tr' & Ht' & Hc'). rewrite Ht in Ht'. apply app_inv_head in Ht'. subst tr'.
  destruct tr; [done|by apply Forall_cons in Hc' as [[] _]].
Qed.

End backup.

(** ** One run per plan *)

Section runs.
Context `{RP : RecordStore BackupPlan} `{RA : RecordStore BackupArtifact}
  `{RVm : RecordStore Vm} `{RCt : RecordStore Lxc}.
Context `{RO : RecordStore OperationRecord} `{RQ : RecordStore QuarantineRecord}
  `{RC : RecordStore ConsumedApproval} `{RN : RecordStore StoredChannel}.
Context {H : Type} (broker : bool) (exec : str → list str → Svc H (option str)).
Context (backup_dir : str).
Context (create_dir_all : str → H → H * result str unit) (canonicalize : str → H → H * result str str)
  (read_file : str → H → H * result str (list N)) (remove_file : str → H → H * result str unit)
  (stream_to_file : str → list str → str → Svc H N).
Context (sha256_hex : list N → str).
Context (max_timestamp : Z) (to_rfc3339 : Z → str) (parse_from_rfc3339 : str → option Z).

Local Abbreviation state := (BackupService.state (RP:=RP) (RA:=RA) (RVm:=RVm) (RCt:=RCt) (RN:=RN) (H:=H)).
Local Abbreviation OpState := (BackupService.OpState (RP:=RP) (RA:=RA) (RVm:=RVm) (RCt:=RCt) (RO:=RO) (RQ:=RQ)
  (RC:=RC) (RN:=RN) (H:=H)).

Definition busy (s : OpState) : gset str := BackupService.running (OperationService.host s).
Local Abbreviation run_backup := (BackupService.run_backup (RP:=RP) (RA:=RA) (RVm:=RVm) (RCt:=RCt) (RO:=RO)
  (RQ:=RQ) (RC:=RC) (RN:=RN) broker exec backup_dir create_dir_all canonicalize read_file remove_file
  stream_to_file sha256_hex max_timestamp to_rfc3339 parse_from_rfc3339).
Local Abbreviation backup_job := (BackupService.backup_job (RP:=RP) (RA:=RA) (RVm:=RVm) (RCt:=RCt) (RO:=RO)
  (RQ:=RQ) (RC:=RC) (RN:=RN) broker exec backup_dir create_dir_all canonicalize read_file remove_file
  stream_to_file sha256_hex max_timestamp to_rfc3339 parse_from_rfc3339).
Local Abbreviation enqueue_backup_for_plan := (BackupService.enqueue_backup_for_plan (RP:=RP) (RA:=RA) (RVm:=RVm)
  (RCt:=RCt) (RO:=RO) (RQ:=RQ) (RC:=RC) (RN:=RN) (H:=H)).

(** The runs in progress are those of [r]. *)
Definition running_is (r : gset str) (s : state) : Prop := BackupService.running s = r.
Definition busy_is (r : gset str) (s : OpState) : Prop := busy s = r.

Lemma keeps_at_host {A} r (m : Svc H A) : keeps (running_is r) (at_host m).
Proof. intros s s' x. unfold at_host. destruct (m _) as [h y]. by intros [= <- _]. Qed.
Lemma keeps_on_plans {A} r (m : Svc _ A) : keeps (running_is r) (BackupService.on_plans m).
Proof. intros s s' x. unfold BackupService.on_plans. destruct (m _) as [h y]. by intros [= <- _]. Qed.
Lemma keeps_on_artifacts {A} r (m : Svc _ A) : keeps (running_is r) (BackupService.on_artifacts m).
Proof. intros s s' x. unfold BackupService.on_artifacts. destruct (m _) as [h y]. by intros [= <- _]. Qed.
Lemma keeps_on_kvm {A} r (m : Svc _ A) : keeps (running_is r) (BackupService.on_kvm m).
Proof. intros s s' x. unfold BackupService.on_kvm. destruct (m _) as [h y]. by intros [= <- _]. Qed.
Lemma keeps_on_lxc {A} r (m : Svc _ A) : keeps (running_is r) (BackupService.on_lxc m).
Proof. intros s s' x. unfold BackupService.on_lxc. destruct (m _) as [h y]. by intros [= <- _]. Qed.
Lemma keeps_here {A} r (m : Svc state A) : keeps (running_is r) m → keeps (busy_is r) (BackupService.here m).
Proof.
  intros Hm s s' x. unfold BackupService.here, OperationService.on_host. destruct (m _) as [b y] eqn:E.
  intros [= <- _]. exact (Hm _ _ _ E).
Qed.
Lemma keeps_progress r op_id pct text : keeps (busy_is r) (BackupService.progress op_id pct text).
Proof.
  intros s s' x. unfold BackupService.progress, OperationService.update_progress, OperationService.get,
    OperationService.put_record, OperationService.on_store, mbind, svc_bind, lift, mret, svc_ret.
  repeat (case_match; simplify_eq/=); intros; by simplify_eq/=.
Qed.

Ltac run_step :=
  lazymatch goal with
  | |- keeps _ (mbind _ _) => apply keeps_bind; [|intros ?]
  | |- keeps _ (attempt _) => apply keeps_attempt
  | |- keeps _ (ignore _) => apply keeps_ignore
  | |- keeps _ (each _ _) => apply keeps_each; intros ?
  | |- keeps _ (match ?x with _ => _ end) => destruct x
  | |- keeps _ (let _ := _ in _) => cbv zeta
  | |- keeps _ (BackupService.here _) => apply keeps_here
  | |- keeps _ (BackupService.progress _ _ _) => apply keeps_progress
  | |- keeps _ (at_host _) => apply keeps_at_host
  | |- keeps _ (BackupService.io _ _) => apply keeps_at_host
  | |- keeps _ (host_run_ok _ _ _ _) => apply keeps_at_host
  | |- keeps _ (host_run_optional _ _ _ _) => apply keeps_at_host
  | |- keeps _ (BackupService.on_plans _) => apply keeps_on_plans
  | |- keeps _ (BackupService.on_artifacts _) => apply keeps_on_artifacts
  | |- keeps _ (BackupService.on_kvm _) => apply keeps_on_kvm
  | |- keeps _ (BackupService.on_lxc _) => apply keeps_on_lxc
  | |- keeps _ (mret _) => apply keeps_ret
  | |- keeps _ (fail _) => apply keeps_fail
  | |- keeps _ (lift _) => apply keeps_lift
  end.
Ltac keeps_running := repeat run_step.

Lemma keeps_capture r plan op_id d snap path base :
  keeps (busy_is r) (BackupService.capture (RO:=RO) (RQ:=RQ) (RC:=RC) (RN:=RN) (RP:=RP) (RA:=RA) (RVm:=RVm) (RCt:=RCt)
    read_file stream_to_file sha256_hex plan op_id d snap path base).
Proof.
  unfold BackupService.capture, BackupService.send_to_file, BackupService.send_incremental_to_file,
    BackupService.verify_checksum, BackupService.sha256_file. keeps_running.
Qed.
Lemma keeps_bases r datasets from :
  keeps (running_is r) (BackupService.resolve_bases (RN:=RN) (RP:=RP) (RA:=RA) (RVm:=RVm) (RCt:=RCt) broker exec datasets from).
Proof.
  unfold BackupService.resolve_bases. destruct from as [tag|]; [|apply keeps_ret].
  induction datasets as [|d ds IH]; [apply keeps_ret|]. unfold BackupService.dataset_exists. keeps_running. exact IH.
Qed.
Lemma keeps_snapshot r op_id snap i total : keeps (busy_is r)
  (BackupService.take_snapshot (RO:=RO) (RQ:=RQ) (RC:=RC) (RN:=RN) (RP:=RP) (RA:=RA) (RVm:=RVm) (RCt:=RCt)
    broker exec op_id snap i total).
Proof. unfold BackupService.take_snapshot. keeps_running. Qed.
Lemma keeps_datasets r plan op_id aid tag dest i total ds s s' x :
  BackupService.backup_datasets (RO:=RO) (RQ:=RQ) (RC:=RC) (RN:=RN) (RP:=RP) (RA:=RA) (RVm:=RVm) (RCt:=RCt)
    broker exec read_file stream_to_file sha256_hex plan op_id aid tag dest i total ds s = (s', x) →
  busy_is r s → busy_is r s'.
Proof.
  revert i s s' x. induction ds as [|[d base] ds IH]; intros i s s' x; cbn [BackupService.backup_datasets].
  { by intros [= <- _]. }
  destruct (BackupService.take_snapshot _ _ _ _ _ _ s) as [s1 [[]|e]] eqn:E1; intros E Hs;
    assert (busy_is r s1) as H1 by (revert E1 Hs; apply keeps_snapshot); [|by injection E as <- _].
  destruct (BackupService.capture _ _ _ _ _ _ _ _ _ _) as [s2 [f|e]] eqn:E2;
    pose proof (keeps_capture r _ _ _ _ _ _ _ _ _ E2 H1) as H2; [|by injection E as <- _].
  destruct (BackupService.backup_datasets _ _ _ _ _ _ _ _ _ _ _ _ _) as [s3 [taken r3]] eqn:E3.
  injection E as <- _. by eapply IH.
Qed.
Lemma keeps_retention r plan :
  keeps (running_is r) (BackupService.apply_retention (RN:=RN) (RP:=RP) (RA:=RA) (RVm:=RVm) (RCt:=RCt) remove_file plan).
Proof.
  unfold BackupService.apply_retention, BackupService.list_artifacts. apply keeps_bind; [keeps_running|intros l].
  destruct (_ <=? _)%nat; [apply keeps_ret|]. induction (drop _ l) as [|a al IH]; [apply keeps_ret|].
  cbn [BackupService.drop_artifacts]. unfold BackupService.remove_files. keeps_running. exact IH.
Qed.
Lemma keeps_body r plan op_id aid dest now datasets s s' x :
  BackupService.backup_body (RO:=RO) (RQ:=RQ) (RC:=RC) (RN:=RN) (RP:=RP) (RA:=RA) (RVm:=RVm) (RCt:=RCt)
    broker exec read_file remove_file stream_to_file sha256_hex plan op_id aid dest now datasets s = (s', x) →
  busy_is r s → busy_is r s'.
Proof.
  unfold BackupService.backup_body. destruct (BackupService.here _ s) as [s1 [bases|e]] eqn:E1; intros E Hs.
  - assert (busy_is r s1) as H1 by (revert E1 Hs; apply keeps_here, keeps_bases).
    destruct (BackupService.backup_datasets _ _ _ _ _ _ _ _ _ _ _ _ _) as [s2 [taken [files|e]]] eqn:E2;
      pose proof (keeps_datasets r _ _ _ _ _ _ _ _ _ _ _ E2 H1) as H2; [|by injection E as <- _].
    destruct (BackupService.here _ s2) as [s3 y] eqn:E3. injection E as <- _. revert E3 H2. apply keeps_here.
    apply keeps_bind; [keeps_running|intros _; apply keeps_retention].
  - injection E as <- _. revert E1 Hs. apply keeps_here, keeps_bases.
Qed.
Lemma run_keeps_busy r plan op_id aid now : keeps (busy_is r) (run_backup plan op_id aid now).
Proof.
  unfold BackupService.run_backup. apply keeps_bind; [apply keeps_here; unfold BackupService.resolve_sources; keeps_running|].
  intros [|d ds]; [apply keeps_fail|].
  apply keeps_bind; [apply keeps_here; unfold BackupService.prepare_destination; keeps_running|intros dest].
  intros s s' x. unfold BackupService.backup_to.
  destruct (BackupService.backup_body _ _ _ _ _ _ _ _ _ _ _ _ _) as [s1 [taken result]] eqn:E1. intros E Hs.
  pose proof (keeps_body r _ _ _ _ _ _ _ _ _ E1 Hs) as H1.
  eapply (keeps_bind (busy_is r)); [| |exact E|exact H1].
  - unfold BackupService.drop_snapshots. keeps_running.
  - intros ?. unfold BackupService.advance_schedule, BackupService.get_plan. keeps_running.
Qed.

(** *** Admission *)

Lemma queue_keeps r now kind t i actor op_id : keeps (busy_is r)
  (OperationService.queue (RO:=RO) (RQ:=RQ) (RC:=RC) (H:=state) now kind t i actor op_id).
Proof.
  unfold OperationService.queue, OperationService.create_record, OperationService.put_record.
  destruct (is_empty _); [apply keeps_fail|]. cbv zeta. apply keeps_bind; [|intros; apply keeps_ret].
  intros s s' x. unfold OperationService.on_store. destruct (store_put _ _ _) as [d y]. by intros [= <- _].
Qed.
Lemma enqueue_busy plan actor op_id now s s' x : enqueue_backup_for_plan plan actor op_id now s = (s', x) →
  match x with
  | Ok _ => (bp_id plan ∉ busy s) ∧ busy s' = {[bp_id plan]} ∪ busy s
  | Err _ => busy s' = busy s
  end.
Proof.
  unfold BackupService.enqueue_backup_for_plan. unfold mbind at 1, svc_bind at 1.
  unfold BackupService.here at 1, OperationService.on_host at 1, BackupService.claim, gets. 
  unfold mbind at 1, svc_bind at 1. case_bool_decide as Hin; simpl; [by intros [= <- <-]|].
  unfold on_error. set (s1 := OperationService.mkState _ _ _ _).
  assert (busy s1 = {[bp_id plan]} ∪ busy s) as H1 by reflexivity. clearbody s1.
  destruct (OperationService.queue _ _ _ _ _ _ s1) as [s2 [q|e]] eqn:Eq;
    pose proof (queue_keeps (busy s1) _ _ _ _ _ _ _ _ _ Eq eq_refl) as H2; unfold busy_is in H2; intros [= <- <-].
  - by rewrite H2, H1.
  - transitivity (busy s2 ∖ {[bp_id plan]}); [done|]. rewrite H2, H1. set_solver.
Qed.
Lemma claim_refused id (b : state) : id ∈ BackupService.running b →
  BackupService.claim id b = (b, Err (conflict "a backup for this plan is already running")).
Proof. intros Hin. unfold BackupService.claim, mbind, svc_bind, gets. by rewrite bool_decide_true. Qed.
Lemma release_busy id s s' x : BackupService.here (RO:=RO) (RQ:=RQ) (RC:=RC) (BackupService.release id) s = (s', x) →
  busy s' = busy s ∖ {[id]}.
Proof. by intros [= <- _]. Qed.

(** The service and the runs in progress: a run starts when it is admitted, a request
    can be refused, everything else (what runs do on the host and in the records, the
    other requests) leaves the set of running plans alone, and a run ends when it
    takes its plan out of the set. *)
Inductive backup_step : OpState * list BackupPlan → OpState * list BackupPlan → Prop :=
  | step_admitted plan actor op_id now s s' q jobs :
      enqueue_backup_for_plan plan actor op_id now s = (s', Ok q) → backup_step (s, jobs) (s', plan :: jobs)
  | step_refused plan actor op_id now s s' e jobs :
      enqueue_backup_for_plan plan actor op_id now s = (s', Err e) → backup_step (s, jobs) (s', jobs)
  | step_elsewhere s s' jobs : busy s' = busy s → backup_step (s, jobs) (s', jobs)
  | step_ended plan s s' x before after :
      BackupService.here (BackupService.release (bp_id plan)) s = (s', x) →
      backup_step (s, before ++ plan :: after) (s', before ++ after).

Definition jobs_sound (c : OpState * list BackupPlan) : Prop :=
  NoDup (map bp_id c.2) ∧ ∀ plan, plan ∈ c.2 → bp_id plan ∈ busy c.1.
Lemma backup_step_sound c c' : backup_step c c' → jobs_sound c → jobs_sound c'.
Proof.
  intros Hstep. destruct Hstep as [plan actor op_id now s s' q jobs E|plan actor op_id now s s' e jobs E
    |s s' jobs E|plan s s' x before after E]; intros [Hn Hb]; unfold jobs_sound in *; cbn [fst snd] in *.
  - apply enqueue_busy in E as [Hnew ->]. split.
    + cbn [map]. apply NoDup_cons. split; [|done]. intros (p & Hp & Hin)%list_elem_of_fmap.
      apply Hnew. rewrite Hp. by apply Hb.
    + intros p [->|Hp]%elem_of_cons; [set_solver|]. apply elem_of_union_r. by apply Hb.
  - apply enqueue_busy in E as ->. done.
  - by rewrite E.
  - apply release_busy in E as ->. rewrite map_app in *. cbn [map] in *.
    apply NoDup_app in Hn as (H1 & H2 & H3). apply NoDup_cons in H3 as [H3 H4]. split.
    + apply NoDup_app. split; [done|]. split; [|done]. intros i Hi Ha. apply (H2 i Hi). by right.
    + intros p Hp. apply elem_of_difference. split.
      * apply Hb. apply elem_of_app. apply elem_of_app in Hp as [Hp|Hp]; [by left|right; by right].
      * intros Heq%elem_of_singleton. apply elem_of_app in Hp as [Hp|Hp].
        -- apply (H2 (bp_id plan)); [rewrite <- Heq; by apply list_elem_of_fmap_2|by left].
        -- apply H3. rewrite <- Heq. by apply list_elem_of_fmap_2.
Qed.

(** C24: a plan is backed up by one run at a time. However requests, ticks of the
    scheduler and the work of the runs interleave from a service with no run, the runs
    in progress are of different plans; while one is in progress a further backup of
    its plan is refused and so is the deletion of the plan; and the job of a run does
    all of its work before it takes its plan out of the set. *)
Theorem one_backup_per_plan s0 s jobs : busy s0 = ∅ → rtc backup_step (s0, []) (s, jobs) →
  NoDup (map bp_id jobs) ∧
  (∀ plan, plan ∈ jobs →
     (∀ plan' actor op_id now, bp_id plan' = bp_id plan →
        ∃ s', enqueue_backup_for_plan plan' actor op_id now s
              = (s', Err (conflict "a backup for this plan is already running"))) ∧
     ∀ b, (BackupService.delete_plan (bp_id plan) (OperationService.host s)).2 ≠ Ok b) ∧
  ∀ plan op_id aid now t t' x, run_backup plan op_id aid now t = (t', x) → busy t' = busy t.
Proof.
  intros H0 Hs. assert (jobs_sound (s, jobs)) as [Hn Hb].
  { assert (jobs_sound (s0, [])) as H1 by (split; [constructor|intros p Hp; by apply not_elem_of_nil in Hp]).
    revert H1. induction Hs as [c|c1 c2 c3 Hstep _ IH]; [done|]. intros Hc. apply IH. by eapply backup_step_sound. }
  split; [exact Hn|]. split; [|intros plan op_id aid now t t' x E; by eapply (run_keeps_busy (busy t))].
  intros plan Hp. apply Hb in Hp. cbn [fst] in Hp. split.
  - intros plan' actor op_id now Heq. eexists. unfold BackupService.enqueue_backup_for_plan, mbind, svc_bind,
      BackupService.here, OperationService.on_host. rewrite claim_refused by (by rewrite Heq). reflexivity.
  - intros b. unfold BackupService.delete_plan, mbind, svc_bind.
    destruct (BackupService.get_plan _ _) as [s1 [p|e]] eqn:E; simpl; [|done].
    assert (BackupService.running s1 = busy s) as ->; [|by rewrite bool_decide_true].
    assert (keeps (running_is (busy s)) (BackupService.get_plan (RP:=RP) (RA:=RA) (RVm:=RVm) (RCt:=RCt) (RN:=RN) (H:=H)
      (bp_id plan))) as Hk by (unfold BackupService.get_plan; keeps_running).
    exact (Hk _ _ _ E eq_refl).
Qed.

End runs.

(** ** Retention *)

Section retention.
Context `{RP : RecordStore BackupPlan} `{RA : RecordStore BackupArtifact}
  `{RVm : RecordStore Vm} `{RCt : RecordStore Lxc} `{RN : RecordStore StoredChannel}.
Context {H : Type} (remove_file : str → H → H * result str unit).
Local Abbreviation state := (BackupService.state (RP:=RP) (RA:=RA) (RVm:=RVm) (RCt:=RCt) (RN:=RN) (H:=H)).

Local Abbreviation apply_retention := (BackupService.apply_retention (RN:=RN) (RP:=RP) (RA:=RA) (RVm:=RVm) (RCt:=RCt)
  remove_file).
Definition artifact (s : state) (id : str) : option BackupArtifact := record (BackupService.artifacts s) id.
Definition newest_first (a b : BackupArtifact) : comparison := str_cmp (ba_created_at b) (ba_created_at a).

Lemma at_host_artifacts {A} (m : Svc H A) s s' r : at_host m s = (s', r) → ∀ id, artifact s' id = artifact s id.
Proof. unfold at_host. destruct (m _) as [h x]. by intros [= <- _]. Qed.
Lemma remove_files_artifacts files s s' r :
  BackupService.remove_files (RN:=RN) (RP:=RP) (RA:=RA) (RVm:=RVm) (RCt:=RCt) remove_file files s = (s', r) →
  ∀ id, artifact s' id = artifact s id.
Proof.
  revert s. unfold BackupService.remove_files. induction files as [|f fs IH]; intros s; [by intros [= <- _]|].
  cbn [each]. unfold mbind, svc_bind, ignore at 1. destruct (at_host _ s) as [s1 x] eqn:E1. cbn [fst].
  intros E id. rewrite (IH _ E). by eapply at_host_artifacts.
Qed.
(** The removals of some files, one call each, in their order. *)
Definition files_removed (files : list BackupFile) (h : H) : H :=
  foldl (λ h f, (remove_file (bf_path f) h).1) h files.
Lemma remove_files_host files s s' r :
  BackupService.remove_files (RN:=RN) (RP:=RP) (RA:=RA) (RVm:=RVm) (RCt:=RCt) remove_file files s = (s', r) →
  BackupService.host s' = files_removed files (BackupService.host s).
Proof.
  revert s. unfold BackupService.remove_files. induction files as [|f fs IH]; intros s; [by intros [= <- _]|].
  cbn [each]. unfold mbind, svc_bind, ignore at 1. destruct (at_host _ s) as [s1 x] eqn:E1. cbn [fst].
  intros E. rewrite (IH _ E). unfold at_host in E1. cbn [host_of set_host BackupService.state_host] in E1.
  unfold files_removed. cbn [foldl]. destruct (remove_file _ _) as [h y]. by injection E1 as <- _.
Qed.
Lemma drop_artifacts_host old s s' :
  BackupService.drop_artifacts (RN:=RN) (RP:=RP) (RA:=RA) (RVm:=RVm) (RCt:=RCt) remove_file old s = (s', Ok tt) →
  BackupService.host s' = files_removed (flat_map ba_files old) (BackupService.host s).
Proof.
  revert s. induction old as [|a old IH]; intros s; cbn [BackupService.drop_artifacts]; [by intros [= <-]|].
  intros (s1 & [] & E1 & E)%svc_bind_ok. apply svc_bind_ok in E as (s2 & b & E2 & E).
  rewrite (IH _ E). unfold BackupService.on_artifacts in E2. destruct (store_delete _ _) as [d x].
  injection E2 as <- ->. simpl. rewrite (remove_files_host _ _ _ _ E1). unfold files_removed. by rewrite foldl_app.
Qed.
Lemma drop_artifacts_spec old s s' :
  BackupService.drop_artifacts (RN:=RN) (RP:=RP) (RA:=RA) (RVm:=RVm) (RCt:=RCt) remove_file old s = (s', Ok tt) →
  ∀ id, artifact s' id = if decide (id ∈ map ba_id old) then None else artifact s id.
Proof.
  revert s. induction old as [|a old IH]; intros s; cbn [BackupService.drop_artifacts].
  { intros [= <-] id. rewrite decide_False; [done|apply not_elem_of_nil]. }
  intros (s1 & [] & E1 & E)%svc_bind_ok id. apply svc_bind_ok in E as (s2 & b & E2 & E).
  rewrite (IH _ E). unfold BackupService.on_artifacts in E2. destruct (store_delete _ _) as [d x] eqn:Ed.
  injection E2 as <- ->. unfold artifact at 1. simpl. rewrite (delete_ok _ _ _ _ Ed).
  pose proof (remove_files_artifacts _ _ _ _ E1 id) as H1. unfold artifact in H1. rewrite H1.
  cbn [map]. destruct (decide (id ∈ ba_id a :: map ba_id old)) as [Hin|Hin]; rewrite elem_of_cons in Hin.
  - destruct (decide (id ∈ map ba_id old)); [done|]. rewrite decide_True; [done|]. naive_solver.
  - rewrite !decide_False by naive_solver. done.
Qed.
Lemma list_artifacts_spec plan s s' l :
  BackupService.list_artifacts (RN:=RN) (RP:=RP) (RA:=RA) (RVm:=RVm) (RCt:=RCt) (H:=H) (Some plan) s = (s', Ok l) →
  (∀ id, artifact s' id = artifact s id) ∧
  (∀ a, a ∈ l ↔ ba_plan_id a = plan ∧ ∃ id, artifact s id = Some a) ∧
  StronglySorted (λ a b, newest_first a b ≠ Gt) l.
Proof.
  unfold BackupService.list_artifacts. intros (s1 & all & E1 & [= <- <-])%svc_bind_ok.
  unfold BackupService.on_artifacts in E1. destruct (store_list _) as [d x] eqn:El. injection E1 as <- ->.
  split; [intros id; by eapply list_keeps|]. split.
  - intros a. rewrite elem_of_sort_by, list_elem_of_In, filter_In, <- list_elem_of_In. unfold str_eqb.
    rewrite bool_decide_eq_true, (list_ok _ _ _ El). naive_solver.
  - apply (sort_by_sorted newest_first); unfold newest_first.
    + intros x y. apply str_cmp_total.
    + intros x y z H1 H2. by eapply str_cmp_trans.
Qed.

Lemma list_artifacts_nodup plan s s' l :
  BackupService.list_artifacts (RN:=RN) (RP:=RP) (RA:=RA) (RVm:=RVm) (RCt:=RCt) (H:=H) (Some plan) s = (s', Ok l) →
  (∀ id a, artifact s id = Some a → ba_id a = id) → NoDup l.
Proof.
  unfold BackupService.list_artifacts. intros (s1 & all & E1 & [= <- <-])%svc_bind_ok Hkey.
  unfold BackupService.on_artifacts in E1. destruct (store_list _) as [d x] eqn:El. injection E1 as <- ->.
  rewrite sort_by_perm. apply NoDup_ListNoDup, List.NoDup_filter, NoDup_ListNoDup.
  destruct (list_once _ _ _ El) as (ids & Hids & Hall).
  assert (map ba_id all = ids) as Hmap.
  { clear -Hall Hkey. induction Hall as [|id v ids vs Hv _ IH]; [done|]. cbn [map]. rewrite IH. by rewrite (Hkey _ _ Hv). }
  rewrite <- Hmap in Hids. by eapply NoDup_fmap_1.
Qed.

(** C31: what retention deletes. When it succeeds, the artifacts of the plan fall in
    two parts: as many as the plan keeps stay, or all of them if there are no more,
    and the others are deleted, none of which is newer than one that stays; every
    other artifact is untouched. The only files it removes are those of the deleted
    artifacts, each with one call and nothing else done to the host; no file that only
    kept artifacts name is asked for. An artifact newer than all others of its plan
    stays. *)
Theorem retention_keeps_newest plan s s' :
  (∀ id a, artifact s id = Some a → ba_id a = id) → apply_retention plan s = (s', Ok tt) →
  ∃ kept gone : list BackupArtifact,
    (∀ a, a ∈ kept ++ gone ↔ ba_plan_id a = bp_id plan ∧ artifact s (ba_id a) = Some a) ∧
    (length kept ≤ N.to_nat (bp_retention_count plan))%nat ∧
    (gone ≠ [] → length kept = N.to_nat (bp_retention_count plan)) ∧
    (∀ a b, a ∈ kept → b ∈ gone → str_cmp (ba_created_at b) (ba_created_at a) ≠ Gt) ∧
    (∀ id, artifact s' id = if decide (id ∈ map ba_id gone) then None else artifact s id) ∧
    BackupService.host s' =
      foldl (λ h f, (remove_file (bf_path f) h).1) (BackupService.host s) (flat_map ba_files gone) ∧
    ∀ a, bp_retention_count plan ≠ 0%N → artifact s (ba_id a) = Some a → ba_plan_id a = bp_id plan →
      (∀ b, b ≠ a → ba_plan_id b = bp_id plan → artifact s (ba_id b) = Some b →
        str_cmp (ba_created_at b) (ba_created_at a) = Lt) → artifact s' (ba_id a) = Some a.
Proof.
  intros Hkey (s1 & l & E1 & E)%svc_bind_ok. destruct (list_artifacts_spec _ _ _ _ E1) as (H1 & Hl & Hsort).
  assert (∀ a, a ∈ l ↔ ba_plan_id a = bp_id plan ∧ artifact s (ba_id a) = Some a) as Hl'.
  { intros a. rewrite Hl. split; intros [Hp Ha]; (split; [done|]); [destruct Ha as [id Ha]|by eexists].
    by rewrite (Hkey _ _ Ha). }
  set (n := N.to_nat (bp_retention_count plan)) in *.
  assert ((length l ≤ n)%nat ∧ s' = s1 ∨ 
    (n < length l)%nat ∧ ∀ id, artifact s' id = if decide (id ∈ map ba_id (drop n l)) then None else artifact s1 id) as Hcase.
  { destruct (length l <=? n)%nat eqn:En; [apply Nat.leb_le in En; left; by injection E as <-|].
    apply Nat.leb_gt in En. right. split; [done|]. by apply drop_artifacts_spec. }
  exists (take n l), (drop n l). rewrite take_drop.
  assert (∀ id, artifact s' id = if decide (id ∈ map ba_id (drop n l)) then None else artifact s id) as Hs'.
  { intros id. destruct Hcase as [[Hn ->]|[Hn ->]]; [|by rewrite H1].
    rewrite drop_ge by done. rewrite decide_False; [apply H1|apply not_elem_of_nil]. }
  assert (∀ a b, a ∈ take n l → b ∈ drop n l → str_cmp (ba_created_at b) (ba_created_at a) ≠ Gt) as Hord.
  { intros a b Ha Hb. exact (sorted_take_drop _ _ _ Hsort a b Ha Hb). }
  split; [done|]. split; [rewrite length_take; lia|]. split.
  { intros Hne. rewrite length_take. destruct Hcase as [[Hn _]|[Hn _]]; [by rewrite drop_ge in Hne|lia]. }
  split; [done|]. split; [done|]. split.
  { assert (BackupService.host s1 = BackupService.host s) as Hh1.
    { unfold BackupService.list_artifacts in E1. apply svc_bind_ok in E1 as (s0 & all & E0 & [= <- _]).
      unfold BackupService.on_artifacts in E0. destruct (store_list _) as [d x]. by injection E0 as <- _. }
    rewrite <- Hh1. destruct (length l <=? n)%nat eqn:En; [|by apply drop_artifacts_host].
    apply Nat.leb_le in En. rewrite drop_ge by done. by injection E as <-. }
  intros a Hr Ha Hp Hnew. rewrite Hs', decide_False; [done|].
  intros (b & Hb & Hin)%list_elem_of_fmap.
  assert (b ∈ l) as Hbl by (rewrite <- (take_drop n l); apply elem_of_app; by right).
  apply Hl' in Hbl as [_ Hbl]. rewrite <- Hb, Ha in Hbl. injection Hbl as <-.
  destruct (take n l) as [|x t] eqn:Et.
  { destruct l as [|y l']; [rewrite drop_nil in Hin; by apply not_elem_of_nil in Hin|].
    unfold n in Et. destruct (N.to_nat (bp_retention_count plan)) eqn:E0; [lia|done]. }
  assert (x ∈ l) as Hx by (rewrite <- (take_drop n l), Et; by left).
  assert (x ≠ a) as Hxa.
  { intros ->. assert (NoDup l) as Hnd by (by eapply list_artifacts_nodup). rewrite <- (take_drop n l), Et in Hnd.
    apply NoDup_cons in Hnd as [Hnd _]. apply Hnd, elem_of_app. by right. }
  apply Hl' in Hx as [Hxp Hx]. specialize (Hnew _ Hxa Hxp Hx). specialize (Hord x a ltac:(by left) Hin).
  rewrite str_cmp_opp, Hnew in Hord. by apply Hord.
Qed.
End retention.

(** * Backups on a concrete host

    The theorems about backups applied to a host that logs its commands, with one
    plan, its artifacts and files that read as they were written. *)

Definition b_exec (p : str) (a : list str) : Svc (list command_line) (option str) :=
  λ h, (h ++ [(p, a)], Ok (Some [])).
Definition b_receive (p : str) (a : list str) (_ : str) : Svc (list command_line) unit :=
  λ h, (h ++ [(p, a)], Ok tt).
Definition b_send (p : str) (a : list str) (_ : str) : Svc (list command_line) N :=
  λ h, (h ++ [(p, a)], Ok 10%N).
Definition b_read (content : list N) (_ : str) (h : list command_line) : list command_line * result str (list N) :=
  (h, Ok content).
Definition b_unit (_ : str) (h : list command_line) : list command_line * result str unit := (h, Ok tt).
Definition b_same (p : str) (h : list command_line) : list command_line * result str str := (h, Ok p).

Definition b_plan : BackupPlan :=
  mkPlan "p1" "nightly" Dataset "tank/vms/web" "nas/web" (Some 3600%N) 1 None true true "t0" None None None.
Definition b_file : BackupFile :=
  mkBackupFile "tank/vms/web" "tank/vms/web@b1" None "/backups/nas/web/a1-0.zfs" 10 "good".
Definition b_artifact (id at_ : string) : BackupArtifact :=
  mkArtifact id "p1" Dataset "tank/vms/web" at_ 10 true [b_file].

Local Abbreviation state := (BackupService.state (RP:=map_store BackupPlan) (RA:=map_store BackupArtifact)
  (RVm:=map_store Vm) (RCt:=map_store Lxc) (RN:=map_store StoredChannel) (H:=list command_line)).
Definition b_artifacts : gmap str BackupArtifact :=
  <[lit "a1" := b_artifact "a1" "t1"]> {[ lit "a2" := b_artifact "a2" "t2" ]}.
Definition b_state : state :=
  BackupService.mkState (RP:=map_store BackupPlan) (RA:=map_store BackupArtifact) (RVm:=map_store Vm)
    (RCt:=map_store Lxc) (RN:=map_store StoredChannel) {[ lit "p1" := b_plan ]} b_artifacts ∅ ∅ ∅ ∅ ∅
    (NotificationService.mkState (RS:=map_store StoredChannel) ∅ [] tt) [].
Definition b_ops : BackupService.OpState (RP:=map_store BackupPlan) (RA:=map_store BackupArtifact)
  (RVm:=map_store Vm) (RCt:=map_store Lxc) (RN:=map_store StoredChannel) (RO:=map_store OperationRecord)
  (RQ:=map_store QuarantineRecord) (RC:=map_store ConsumedApproval) (H:=list command_line) :=
  OperationService.mkState (RO:=map_store OperationRecord) (RQ:=map_store QuarantineRecord)
    (RC:=map_store ConsumedApproval) ∅ ∅ ∅ b_state.

(** ** A restore over an existing dataset *)

Definition b_request : RestoreBackupRequest := mkRestore (Some (lit "tank/vms/web2")) None true.
Definition b_enqueued := BackupService.enqueue_restore (RO:=map_store OperationRecord) (RQ:=map_store QuarantineRecord)
  (RC:=map_store ConsumedApproval) "tank" "a1" b_request None "op1" "t3" b_ops.
Definition b_restored (content : list N) := BackupService.restore_worker (RO:=map_store OperationRecord)
  (RQ:=map_store QuarantineRecord) (RC:=map_store ConsumedApproval) true b_exec (b_read content) b_receive
  (λ bytes, match bytes with [] => lit "good" | _ => lit "bad" end)
  (b_file, None, lit "tank/vms/web2") true "op1" "t4" b_enqueued.1.

Definition log_of (s : BackupService.OpState (RP:=map_store BackupPlan) (RA:=map_store BackupArtifact)
  (RVm:=map_store Vm) (RCt:=map_store Lxc) (RN:=map_store StoredChannel) (RO:=map_store OperationRecord)
  (RQ:=map_store QuarantineRecord) (RC:=map_store ConsumedApproval) (H:=list command_line)) : list command_line :=
  BackupService.host (OperationService.host s).

Lemma restore_confined_witness :
  log_of (b_restored []).1 = map (λ a, (lit "zfs", map lit a))
    [["list"; "-H"; "-o"; "name"; "tank/vms/web2"]; ["destroy"; "-r"; "tank/vms/web2"]; ["receive"; "-F"; "tank/vms/web2"]] ∧
  b_enqueued.2 = Ok (b_file, None, lit "tank/vms/web2") ∧
  ∃ tr, log_of (b_restored [1%N]).1 = log_of b_enqueued.1 ++ tr ∧ tr = [].
Proof.
  split; [reflexivity|]. split; [reflexivity|].
  assert (b_enqueued = (b_enqueued.1, Ok (b_file, None, lit "tank/vms/web2"))) as E by reflexivity.
  destruct (restore_confined (λ h, h) true b_exec "tank" (b_read [1%N]) b_receive
    (λ bytes, match bytes with [] => lit "good" | _ => lit "bad" end) (λ p a h, eq_refl) (λ p a f h, eq_refl)
    (λ f h, eq_refl) "a1" b_request None "op1" "t3" b_ops _ b_file None (lit "tank/vms/web2") E)
    as (_ & _ & _ & _ & _ & Hw).
  destruct (Hw "op1" "t4" b_enqueued.1 _ _ (surjective_pairing (b_restored [1%N]) )) as (tr & Ht & _ & Ha).
  exists tr. split; [exact Ht|]. apply Ha. left. intros h b [= <-]. discriminate.
Defined.

(** ** Retention *)

Definition b_remove (p : str) (h : list command_line) : list command_line * result str unit :=
  (h ++ [(lit "remove", [p])], Ok tt).
Definition b_retained := BackupService.apply_retention (RN:=map_store StoredChannel) (RP:=map_store BackupPlan)
  (RA:=map_store BackupArtifact) (RVm:=map_store Vm) (RCt:=map_store Lxc) b_remove b_plan b_state.
Lemma retention_keeps_newest_witness :
  b_retained.2 = Ok tt ∧ artifact b_retained.1 "a2" = Some (b_artifact "a2" "t2") ∧
  artifact b_retained.1 "a1" = None ∧
  BackupService.host b_retained.1 = [(lit "remove", [lit "/backups/nas/web/a1-0.zfs"])].
Proof.
  split; [reflexivity|]. split; [|by vm_compute].
  destruct (retention_keeps_newest b_remove b_plan b_state b_retained.1) as (kept & gone & _ & _ & _ & _ & _ & _ & Hnew).
  - intros id a Ha. change (b_artifacts !! id = Some a) in Ha. unfold b_artifacts in Ha.
    apply lookup_insert_Some in Ha as [[<- <-]|[_ [<- <-]%lookup_singleton_Some]]; reflexivity.
  - reflexivity.
  - apply (Hnew (b_artifact "a2" "t2")); [discriminate|reflexivity|reflexivity|]. intros b Hb _ Hin.
    change (b_artifacts !! ba_id b = Some b) in Hin. unfold b_artifacts in Hin.
    apply lookup_insert_Some in Hin as [[_ <-]|[_ [_ <-]%lookup_singleton_Some]]; [reflexivity|done].
Defined.

(** ** A run of the plan *)

Definition b_admitted := BackupService.enqueue_backup_for_plan (RP:=map_store BackupPlan) (RA:=map_store BackupArtifact)
  (RVm:=map_store Vm) (RCt:=map_store Lxc) (RN:=map_store StoredChannel) (RO:=map_store OperationRecord)
  (RQ:=map_store QuarantineRecord) (RC:=map_store ConsumedApproval) (H:=list command_line)
  b_plan None "op1" "t3" b_ops.
Definition b_again := BackupService.enqueue_backup_for_plan (RP:=map_store BackupPlan) (RA:=map_store BackupArtifact)
  (RVm:=map_store Vm) (RCt:=map_store Lxc) (RN:=map_store StoredChannel) (RO:=map_store OperationRecord)
  (RQ:=map_store QuarantineRecord) (RC:=map_store ConsumedApproval) (H:=list command_line)
  b_plan None "op2" "t3" b_admitted.1.
Lemma one_backup_per_plan_witness :
  is_ok b_admitted.2 = true ∧ ∃ s', b_again = (s', Err (conflict "a backup for this plan is already running")).
Proof.
  split; [reflexivity|].
  destruct (one_backup_per_plan true b_exec "/backups" b_unit b_same (b_read []) b_unit b_send (λ _, lit "good") 1000
    (λ _, lit "t") (λ _, None) b_ops b_admitted.1 [b_plan]) as (_ & Hj & _).
  - reflexivity.
  - eapply rtc_l; [|apply rtc_refl].
    assert (∃ q, b_admitted = (b_admitted.1, Ok q)) as [q Hq] by (eexists; reflexivity).
    by eapply (step_admitted b_plan None "op1" "t3").
  - destruct (Hj b_plan) as [Ha _]; [by left|]. by apply (Ha b_plan None "op2" "t3").
Defined.

(** A scheduled run: the snapshot is taken, streamed and dropped, the artifact saved
    and the schedule moved on. *)
Definition b_run := BackupService.run_backup (RP:=map_store BackupPlan) (RA:=map_store BackupArtifact)
  (RVm:=map_store Vm) (RCt:=map_store Lxc) (RN:=map_store StoredChannel) (RO:=map_store OperationRecord)
  (RQ:=map_store QuarantineRecord) (RC:=map_store ConsumedApproval) true b_exec "/backups" b_unit b_same
  (b_read []) b_unit b_send (λ _, lit "good") 10000 (λ t, [Z.to_N t]) (λ _, Some 5%Z) b_plan "op1" "a-3" "t3" b_admitted.1.
Example scheduled_run :
  is_ok b_run.2 = true ∧
  log_of b_run.1 = map (λ a, (lit "zfs", map lit a))
    [["snapshot"; "tank/vms/web@daygleve-backup-a3"]; ["send"; "-p"; "tank/vms/web@daygleve-backup-a3"];
     ["destroy"; "tank/vms/web@daygleve-backup-a3"]] ∧
  (bp_next_run_at <$> (BackupService.plans (OperationService.host b_run.1) : gmap str BackupPlan) !! lit "p1")
    = Some (Some [3605%N]).
Proof. split_and!; reflexivity. Qed.

(** The answer of [zfs list] for a dataset that does not exist is an error, so a
    restore to a new dataset stops there. *)
Definition b_no_dataset (p : str) (a : list str) : Svc (list command_line) (option str) :=
  λ h, (h ++ [(p, a)], Err (hypervisor "dataset does not exist")).
Example fresh_restore_refused :
  (BackupService.restore_file (RP:=map_store BackupPlan) (RA:=map_store BackupArtifact)
    (RVm:=map_store Vm) (RCt:=map_store Lxc) (RN:=map_store StoredChannel) true b_no_dataset b_receive
    b_file "tank/vms/new" false b_state).2 = Err (hypervisor "dataset does not exist").
Proof. reflexivity. Qed.
