(* ===== verification/Library.v ===== *)
(** * The media library (src/src/services/library.rs)

    Uploaded files below three directories, and the download of disk images.  The
    file system is that of [Store], with its schedule of faults; symbolic links are
    not modelled.  URLs, name resolution and HTTP are parameters: the network [W]
    answers look-ups and requests. *)

From S2P Require Export Store.
From S2P Require Export NetAddr Cache.

Inductive StorageFileKind := IsoKind | CtTemplate | DiskImage.
#[export] Instance StorageFileKind_eq_dec : EqDecision StorageFileKind.
Proof. solve_decision. Defined.
Record StorageFile := mkStorageFile {
  sf_name : str; sf_path : path; sf_size_bytes : N; sf_kind : StorageFileKind }.
Inductive DiskImageFetchState := Downloading | Completed | FetchFailed.
#[export] Instance DiskImageFetchState_eq_dec : EqDecision DiskImageFetchState.
Proof. solve_decision. Defined.
Record DiskImageFetch := mkFetch {
  df_id : str; df_url : str; df_name : str; df_state : DiskImageFetchState; df_bytes_downloaded : N;
  df_total_bytes : option N; df_error : option str; df_started_at : str; df_finished_at : option str }.

(** ** File names *)

Definition CT_TEMPLATE_EXTENSIONS : list string :=
  [".tar"; ".tar.gz"; ".tgz"; ".tar.xz"; ".txz"; ".tar.zst"; ".tar.bz2"].
Definition DISK_IMAGE_EXTENSIONS : list string := [".qcow2"; ".vmdk"; ".raw"; ".img"; ".vdi"; ".vhd"; ".vhdx"].
Definition MAX_FETCH_REDIRECTS : nat := 5.
Definition MAX_FETCH_HISTORY : nat := 50.

Definition validate_library_filename (name : str) (kind : StorageFileKind) : ApiResult str :=
  let bad := is_empty name || (255 <? len name)%N || (name =s? ".") || (name =s? "..")
             || starts_with "." name || contains_char (ch "/") name || contains_char 92 name
             || existsb is_ascii_control (bytes name) in
  if bad then Err (validation ("invalid file name: " ++ debug_str name))
  else
    let lower := to_ascii_lowercase name in
    let ext_ok := match kind with
                  | IsoKind => ends_with ".iso" lower
                  | CtTemplate => existsb (λ ext, ends_with (lit ext) lower) CT_TEMPLATE_EXTENSIONS
                  | DiskImage => existsb (λ ext, ends_with (lit ext) lower) DISK_IMAGE_EXTENSIONS
                  end in
    if negb ext_ok then
      Err (validation (match kind with
        | IsoKind => lit "ISO uploads must have a .iso extension"
        | CtTemplate => "CT-template uploads must be a tarball (" ++ join ", " (lits CT_TEMPLATE_EXTENSIONS) ++ ")"
        | DiskImage => "disk-image uploads must be a supported disk image (" ++ join ", " (lits DISK_IMAGE_EXTENSIONS) ++ ")"
        end))
    else Ok name.

(** [join_component] of this file, which words its error differently. *)
Definition library_join (dir : path) (name : str) : ApiResult path :=
  match file_name name with
  | Some c => if c =s? name then Ok (dir ++ [c])
              else Err (validation ("invalid file name: " ++ debug_str name))
  | None => Err (validation ("invalid file name: " ++ debug_str name))
  end.

(** ** Addresses *)

Definition octet (o : list N) (i : nat) : N := nth i o 0%N.
Definition ipv4_disallowed (o : list N) : bool :=
  let a := octet o 0 in let b := octet o 1 in let c := octet o 2 in let d := octet o 3 in
  (a =? 127)%N
  || ((a =? 10)%N || (a =? 172)%N && (16 <=? b)%N && (b <=? 31)%N || (a =? 192)%N && (b =? 168)%N)
  || (a =? 169)%N && (b =? 254)%N
  || (a =? 255)%N && (b =? 255)%N && (c =? 255)%N && (d =? 255)%N
  || (224 <=? a)%N && (a <=? 239)%N
  || ((a =? 192)%N && (b =? 0)%N && (c =? 2)%N || (a =? 198)%N && (b =? 51)%N && (c =? 100)%N
      || (a =? 203)%N && (b =? 0)%N && (c =? 113)%N)
  || (a =? 0)%N && (b =? 0)%N && (c =? 0)%N && (d =? 0)%N
  || (a =? 0)%N
  || (a =? 100)%N && (N.land b 192 =? 64)%N.

(** [to_ipv4_mapped]: ::ffff:a.b.c.d. *)
Definition to_ipv4_mapped (s : list N) : option (list N) :=
  match s with
  | [s0; s1; s2; s3; s4; s5; ab; cd] =>
      if (s0 =? 0)%N && (s1 =? 0)%N && (s2 =? 0)%N && (s3 =? 0)%N && (s4 =? 0)%N && (s5 =? 65535)%N
      then Some [(ab / 256)%N; (ab mod 256)%N; (cd / 256)%N; (cd mod 256)%N] else None
  | _ => None
  end.
Definition ip_is_disallowed (ip : IpAddr) : bool :=
  match ip with
  | V4 o => ipv4_disallowed o
  | V6 s =>
      if bool_decide (s = [0; 0; 0; 0; 0; 0; 0; 1]%N) || bool_decide (s = [0; 0; 0; 0; 0; 0; 0; 0]%N)
         || (N.land (octet s 0) 65280 =? 65280)%N || (N.land (octet s 0) 65024 =? 64512)%N
         || (N.land (octet s 0) 65472 =? 65152)%N
      then true
      else match to_ipv4_mapped s with Some v4 => ipv4_disallowed v4 | None => false end
  end.

(** ** Fetch records *)

Definition set_fetch (f : DiskImageFetch) (state : DiskImageFetchState) (bytes : N) (total : option N)
    (error finished : option str) : DiskImageFetch :=
  mkFetch (df_id f) (df_url f) (df_name f) state bytes total error (df_started_at f) finished.
(** Change the first record with this id. *)
Fixpoint on_fetch (id : str) (g : DiskImageFetch → DiskImageFetch) (l : list DiskImageFetch) : list DiskImageFetch :=
  match l with
  | [] => []
  | f :: l => if df_id f =s? id then g f :: l else f :: on_fetch id g l
  end.
Fixpoint remove_finished (l : list DiskImageFetch) : option (list DiskImageFetch) :=
  match l with
  | [] => None
  | f :: l =>
      if bool_decide (df_state f = Downloading) then rest ← remove_finished l; Some (f :: rest) else Some l
  end.
(** The loop of [prune_fetches]; every turn removes a record. *)
Fixpoint prune_loop (fuel : nat) (l : list DiskImageFetch) : list DiskImageFetch :=
  match fuel with
  | O => l
  | S fuel =>
      if (MAX_FETCH_HISTORY <? length l)%nat then
        match remove_finished l with Some l => prune_loop fuel l | None => l end
      else l
  end.
Definition prune_fetches (l : list DiskImageFetch) : list DiskImageFetch := prune_loop (length l) l.

(** ** The service *)

(** What an HTTP server answers: the status, a Location header, the announced length
    and the chunks of the body. *)
Record Response := mkResponse {
  rs_status : N; rs_location : option str; rs_content_length : option N;
  rs_body : list (result str (list N)) }.

Module LibraryService.
Section service.
Context (iso_dir template_dir disk_image_dir : path) (max_upload_bytes : N).
(** Which file operations fail, what a failing write leaves, the error's text. *)
Context (fault : nat → bool) (torn : nat → list N) (io_error : str).
(** The [url] crate: parsing, the parts of a URL, joining a relative one. *)
Context {Url : Type} (url_parse : str → result str Url) (url_scheme : Url → str) (url_host : Url → option str)
  (url_username : Url → str) (url_password : Url → option str) (url_last_segment : Url → option str)
  (url_port : Url → option N) (url_join : Url → str → result str Url) (url_to_string : Url → str).
(** Name resolution and HTTP. *)
Context {W : Type} (lookup_host : str → N → W → W * result str (list IpAddr))
  (http_get : Url → W → W * result str Response).

Record state := mkState { fetches : Datatypes.list DiskImageFetch; fs : Fs; net : W }.
Definition on_fs {A} (m : Fs → Fs * ApiResult A) : Svc state A := λ s,
  let '(f, r) := m (fs s) in (mkState (fetches s) f (net s), r).
Definition on_net {A} (wrap : str → AppError) (m : W → W * result str A) : Svc state A := λ s,
  let '(w, r) := m (net s) in (mkState (fetches s) (fs s) w, map_err wrap r).
Definition set_fetches (l : Datatypes.list DiskImageFetch) : Svc state unit :=
  modify (λ s, mkState l (fs s) (net s)).

(** One file operation: the next tick; what it does, or what it leaves and an error. *)
Definition file_op {A} (what : str) (failed : Fs → Fs) (k : Fs → Fs * A) : Svc state A := on_fs (λ s,
  let s' := mkFs (dirs s) (files s) (S (tick s)) in
  if fault (tick s) then (failed s', Err (internal (what ++ ": " ++ io_error)))
  else let '(s', a) := k s' in (s', Ok a)).
Definition on_files (g : gmap path (Datatypes.list N) → gmap path (Datatypes.list N)) (s : Fs) : Fs :=
  mkFs (dirs s) (g (files s)) (tick s).

(** *** Directories *)

Definition dir_for (kind : StorageFileKind) : path :=
  match kind with IsoKind => iso_dir | CtTemplate => template_dir | DiskImage => disk_image_dir end.

Definition directory_there (dir : path) (s : Fs) : bool := bool_decide (dir ∈ dirs s).
Definition resolve_dir (kind : StorageFileKind) (create : bool) : Svc state (option path) :=
  let raw := dir_for kind in
  leaf ← lift (ok_or (internal "invalid library directory configuration")
                 (match last raw with Some c => if c =s? ".." then None else Some c | None => None end));
  canonical_parent ← gets (λ s, JsonStore.canonicalize (fs s) (removelast raw));
  match canonical_parent with
  | None =>
      if negb create then mret None
      else fail (internal ("library directory parent is unavailable: " ++ io_error))
  | Some parent =>
      dir ← lift (library_join parent leaf);
      if create then
        _ ← file_op "could not create library directory" (λ s, s)
              (λ s, (mkFs (dirs s ∪ JsonStore.prefixes dir) (files s) (tick s), tt));
        mret (Some dir)
      else
        there ← gets (λ s, directory_there dir (fs s));
        mret (if there : bool then Some dir else None)
  end.

(** *** Listing *)

(** The files of a directory, in an order of its own. *)
Definition entries_of (dir : path) (s : Fs) : Datatypes.list (str * N) :=
  omap (λ '(p, b), match last p with
                   | Some name => if bool_decide (removelast p = dir) then Some (name, N.of_nat (length b)) else None
                   | None => None end) (map_to_list (files s)).
Definition list_entry (kind : StorageFileKind) (dir : path) (entry : str * N) : option StorageFile :=
  if is_ok (validate_library_filename entry.1 kind)
  then Some (mkStorageFile entry.1 (dir ++ [entry.1]) entry.2 kind) else None.
Definition list (kind : StorageFileKind) : Svc state (Datatypes.list StorageFile) :=
  dir ← resolve_dir kind false;
  match dir with
  | None => mret []
  | Some dir =>
      entries ← attempt (file_op "" (λ s, s) (λ s, (s, entries_of dir s)));
      match entries with
      | Ok entries => mret (sort_by (λ a b, str_cmp (sf_name a) (sf_name b)) (omap (list_entry kind dir) entries))
      | Err _ => mret []
      end
  end.

(** *** Uploads *)

Definition create_file (p : path) : Svc state unit :=
  file_op "could not open upload target" (λ s, s) (λ s, (on_files <[p := []]> s, tt)).
Definition append (p : path) (b : Datatypes.list N) (s : Fs) : Fs :=
  on_files (alter (λ old, old ++ b) p) s.
Definition write_all (p : path) (b : Datatypes.list N) : Svc state unit :=
  file_op "could not write upload" (λ s, append p (torn (tick s)) s) (λ s, (append p b s, tt)).
Definition flush : Svc state unit := file_op "could not flush upload" (λ s, s) (λ s, (s, tt)).
(** Removing and renaming fail on a file that is not there, too. *)
Definition file_op_on {A} (p : path) (what : str) (k : Datatypes.list N → Fs → Fs * A) : Svc state A := on_fs (λ s,
  let s' := mkFs (dirs s) (files s) (S (tick s)) in
  match files s !! p with
  | Some bytes =>
      if fault (tick s) then (s', Err (internal (what ++ ": " ++ io_error)))
      else let '(s', a) := k bytes s' in (s', Ok a)
  | None => (s', Err (internal (what ++ ": " ++ io_error)))
  end).
Definition remove_file (what : str) (p : path) : Svc state unit :=
  file_op_on p what (λ _ s, (on_files (base.delete p) s, tt)).
Definition rename (a b : path) : Svc state unit :=
  file_op_on a "could not finalize upload" (λ bytes s, (on_files (λ m, <[b := bytes]> (base.delete a m)) s, tt)).

(** The loop over the chunks; it counts the bytes. *)
Fixpoint receive (partial : path) (written : N) (stream : Datatypes.list (result str (Datatypes.list N))) :
    Svc state N :=
  match stream with
  | [] => _ ← flush; mret written
  | chunk :: stream =>
      b ← lift (map_err (λ e, validation ("upload stream error: " ++ e)) chunk);
      let written := N.min U64_MAX (written + N.of_nat (length b)) in
      if (max_upload_bytes <? written)%N then
        fail (validation ("upload exceeds the maximum size of " ++ dec max_upload_bytes ++ " bytes"))
      else
        _ ← write_all partial b;
        receive partial written stream
  end.

Definition partial_name (new_id : str) : str := ".upload-" ++ new_id ++ ".partial".
Definition upload (kind : StorageFileKind) (name : str) (stream : Datatypes.list (result str (Datatypes.list N)))
    (new_id : str) : Svc state StorageFile :=
  name ← lift (validate_library_filename name kind);
  dir ← resolve_dir kind true;
  base ← lift (ok_or (internal "resolve_dir") dir);
  final_path ← lift (library_join base name);
  let partial_path := base ++ [partial_name new_id] in
  _ ← create_file partial_path;
  written ← on_error (receive partial_path 0 stream) (ignore (remove_file "" partial_path));
  if (written =? 0)%N then
    _ ← ignore (remove_file "" partial_path);
    fail (validation "uploaded file is empty")
  else
    _ ← rename partial_path final_path;
    mret (mkStorageFile name final_path written kind).

Definition delete (kind : StorageFileKind) (name : str) : Svc state unit :=
  name ← lift (validate_library_filename name kind);
  all ← list kind;
  target ← lift (ok_or (not_found "no such library file") (List.find (λ f, sf_name f =s? name) all));
  remove_file "could not delete file" (sf_path target).

Definition resolve_ct_template (name : str) : Svc state path :=
  name ← lift (validate_library_filename name CtTemplate);
  all ← list CtTemplate;
  lift (ok_or (validation "template_file is not an uploaded CT template (see GET /storage/ct-templates)")
          (sf_path <$> List.find (λ f, sf_name f =s? name) all)).
Definition resolve_disk_image (name : str) : Svc state path :=
  name ← lift (validate_library_filename name DiskImage);
  all ← list DiskImage;
  lift (ok_or (validation "image_name is not an uploaded disk image (see GET /storage/disk-images)")
          (sf_path <$> List.find (λ f, sf_name f =s? name) all)).

(** *** Fetching a disk image *)

Definition parse_fetch_url (raw : str) : ApiResult Url :=
  url ← map_err (λ e, validation ("invalid url: " ++ e)) (url_parse (trim raw));
  if negb (str_in (url_scheme url) ["http"; "https"]) then
    Err (validation ("unsupported url scheme " ++ debug_str (url_scheme url) ++ "; use http or https"))
  else if negb (bool_decide (is_Some (url_host url))) then Err (validation "url has no host")
  else if negb (is_empty (url_username url)) || bool_decide (is_Some (url_password url)) then
    Err (validation "url must not contain credentials")
  else Ok url.

Definition derive_fetch_name (url : Url) (provided : option str) : ApiResult str :=
  candidate ← (match provided with
               | Some n => Ok (trim n)
               | None =>
                   ok_or (validation "could not derive a file name from the url; provide `name`")
                     (s ← url_last_segment url; if is_empty s then None else Some s)
               end);
  _ ← validate_library_filename candidate DiskImage;
  Ok candidate.

Definition validate_public_url (url : Url) : Svc state unit :=
  host ← lift (ok_or (validation "url has no host") (url_host url));
  match parse_ip host with
  | Some ip =>
      if ip_is_disallowed ip
      then fail (validation "refusing to fetch from a private, loopback, or link-local address")
      else mret tt
  | None =>
      addrs ← on_net (λ e, validation ("could not resolve host " ++ debug_str host ++ ": " ++ e))
                (lookup_host host (default 443%N (url_port url)));
      if existsb ip_is_disallowed addrs then
        fail (validation "host resolves to a private, loopback, or link-local address; refusing to fetch")
      else match addrs with
           | [] => fail (validation ("host " ++ debug_str host ++ " did not resolve"))
           | _ => mret tt
           end
  end.

(** The loop over the redirects, [hops] of which are left. *)
Fixpoint follow (hops : nat) (current : Url) : Svc state Response :=
  match hops with
  | O => fail (hypervisor "too many redirects")
  | S hops =>
      _ ← validate_public_url current;
      response ← on_net (λ e, hypervisor ("fetch failed: " ++ e)) (http_get current);
      let status := rs_status response in
      if (300 <=? status)%N && (status <? 400)%N then
        location ← lift (ok_or (hypervisor "redirect without a location") (rs_location response));
        next ← lift (map_err (λ e, validation ("invalid redirect target: " ++ e)) (url_join current location));
        follow hops next
      else if negb ((200 <=? status)%N && (status <? 300)%N) then
        fail (hypervisor ("remote server returned HTTP " ++ dec status))
      else mret response
  end.
Definition loop_response (current : Url) : Svc state Response := follow (S MAX_FETCH_REDIRECTS) current.

Definition list_fetches : Svc state (Datatypes.list DiskImageFetch) :=
  fetches ← gets fetches;
  mret (sort_by (λ a b, str_cmp (df_started_at b) (df_started_at a)) fetches).
Definition set_fetch_total (id : str) (total : N) : Svc state unit :=
  fetches ← gets fetches;
  set_fetches (on_fetch id (λ f, set_fetch f (df_state f) (df_bytes_downloaded f) (Some total) (df_error f)
                                   (df_finished_at f)) fetches).
Definition finish_fetch (id : str) (result : ApiResult N) (now : str) : Svc state unit :=
  fetches ← gets fetches;
  set_fetches (on_fetch id (λ f,
    match result with
    | Ok bytes => set_fetch f Completed bytes (df_total_bytes f) (df_error f) (Some now)
    | Err e => set_fetch f FetchFailed (df_bytes_downloaded f) (df_total_bytes f) (Some (message e)) (Some now)
    end) fetches).

(** The request; the task that it starts is [fetch_task]. *)
Definition start_fetch (raw_url : str) (provided : option str) (new_id now : str) : Svc state (DiskImageFetch * Url) :=
  url ← lift (parse_fetch_url raw_url);
  name ← lift (derive_fetch_name url provided);
  let fetch := mkFetch new_id (url_to_string url) name Downloading 0 None None now None in
  fetches ← gets fetches;
  _ ← set_fetches (prune_fetches (fetches ++ [fetch]));
  mret (fetch, url).

Definition run_fetch (id : str) (url : Url) (name upload_id : str) : Svc state N :=
  response ← loop_response url;
  _ ← (match rs_content_length response with
       | Some total =>
           if (max_upload_bytes <? total)%N then
             fail (validation ("remote file is " ++ dec total ++ " bytes, exceeding the maximum of "
                               ++ dec max_upload_bytes))
           else set_fetch_total id total
       | None => mret tt
       end);
  file ← upload DiskImage name (rs_body response) upload_id;
  mret (sf_size_bytes file).
Definition fetch_task (fetch : DiskImageFetch) (url : Url) (upload_id now : str) : Svc state unit :=
  result ← attempt (run_fetch (df_id fetch) url (df_name fetch) upload_id);
  finish_fetch (df_id fetch) result now.
End service.
End LibraryService.
