(* ===== verification/LibraryProofs.v ===== *)
(** * The library: uploads are whole, names stay inside, fetches stay outside *)

From S2P Require Export Library.

(** ** Names *)

Lemma partial_not_listed new_id kind :
  is_ok (validate_library_filename (LibraryService.partial_name new_id) kind) = false.
Proof.
  unfold validate_library_filename, LibraryService.partial_name. cbv zeta.
  change (starts_with "." (".upload-" ++ new_id ++ ".partial")) with true.
  rewrite !orb_true_r. reflexivity.
Qed.
Lemma valid_name_ok name kind r : validate_library_filename name kind = Ok r →
  r = name ∧ name ≠ [] ∧ starts_with "." name = false.
Proof.
  unfold validate_library_filename. cbv zeta. intros H.
  destruct (is_empty name || _ || _ || _ || starts_with "." name || _ || _ || _) eqn:E; [done|].
  destruct (negb _); [done|]. injection H as <-.
  rewrite !orb_false_iff in E. destruct E as (((((((E & _) & _) & _) & Es) & _) & _) & _).
  split; [done|]. split; [by destruct name|done].
Qed.

Section library.
Context (iso_dir template_dir disk_image_dir : path) (max_upload_bytes : N).
Context (fault : nat → bool) (torn : nat → list N) (io_error : str).
Context {W : Type}.
Local Abbreviation state := (LibraryService.state (W:=W)).
Local Abbreviation upload := (LibraryService.upload (W:=W) iso_dir template_dir disk_image_dir max_upload_bytes fault
  torn io_error).
Local Abbreviation receive := (LibraryService.receive (W:=W) max_upload_bytes fault torn io_error).

Definition contents (s : state) : gmap path (list N) := files (LibraryService.fs s).

Lemma file_op_spec {A} what failed k (s s' : state) (r : ApiResult A) :
  LibraryService.file_op fault io_error what failed k s = (s', r) →
  let f := mkFs (dirs (LibraryService.fs s)) (contents s) (S (tick (LibraryService.fs s))) in
  (LibraryService.fs s' = failed f ∧ ∃ e, r = Err e) ∨ (LibraryService.fs s' = (k f).1 ∧ r = Ok (k f).2).
Proof.
  unfold LibraryService.file_op, LibraryService.on_fs, contents. cbv zeta.
  destruct (fault _); [intros [= <- <-]; left; split; [done|by eexists]|].
  destruct (k _) as [f' a]. intros [= <- <-]. by right.
Qed.
Lemma file_op_on_spec {A} p what k (s s' : state) (r : ApiResult A) :
  LibraryService.file_op_on fault io_error p what k s = (s', r) →
  let f := mkFs (dirs (LibraryService.fs s)) (contents s) (S (tick (LibraryService.fs s))) in
  (contents s' = contents s ∧ ∃ e, r = Err e) ∨
  ∃ b, contents s !! p = Some b ∧ LibraryService.fs s' = (k b f).1 ∧ r = Ok (k b f).2.
Proof.
  unfold LibraryService.file_op_on, LibraryService.on_fs, contents. cbv zeta.
  destruct (files (LibraryService.fs s) !! p) as [b|] eqn:E; [|intros [= <- <-]; left; split; [done|by eexists]].
  destruct (fault _); [intros [= <- <-]; left; split; [done|by eexists]|].
  destruct (k b _) as [f' a] eqn:Ek. intros [= <- <-]. right. exists b. rewrite Ek. by split_and!.
Qed.

Lemma resolve_dir_contents kind create (s s' : state) r :
  LibraryService.resolve_dir iso_dir template_dir disk_image_dir fault io_error kind create s = (s', r) →
  contents s' = contents s.
Proof.
  unfold LibraryService.resolve_dir. cbv zeta. unfold mbind at 1, svc_bind at 1, Cache.lift at 1.
  destruct (ok_or _ _) as [leaf|e]; [|by intros [= <- _]].
  unfold mbind at 1, svc_bind at 1, gets at 1. destruct (JsonStore.canonicalize _ _) as [parent|].
  2:{ destruct create; by intros [= <- _]. }
  unfold mbind at 1, svc_bind at 1, Cache.lift. destruct (library_join parent leaf) as [dir|e]; [|by intros [= <- _]].
  destruct create; [|by intros [= <- _]].
  unfold mbind, svc_bind. destruct (LibraryService.file_op _ _ _ _ _ s) as [s1 x] eqn:E1.
  apply file_op_spec in E1 as [[H1 [e ->]]|[H1 ->]]; intros [= <- _]; unfold contents; by rewrite H1.
Qed.

Lemma receive_spec partial w stream (s s' : state) r old :
  receive partial w stream s = (s', r) → contents s !! partial = Some old →
  (max_upload_bytes < U64_MAX)%N → (w <= max_upload_bytes)%N →
  (∃ c, contents s' = <[partial := c]> (contents s)) ∧
  ∀ w', r = Ok w' → ∃ bs, stream = map Ok bs ∧ contents s' = <[partial := old ++ concat bs]> (contents s) ∧
    w' = (w + N.of_nat (length (concat bs)))%N ∧ (w' <= max_upload_bytes)%N.
Proof.
  intros E Hold Hmax. revert w s E old Hold. induction stream as [|chunk stream IH]; intros w s E old Hold Hw.
  - cbn [LibraryService.receive] in E. unfold mbind, svc_bind, LibraryService.flush in E.
    destruct (LibraryService.file_op _ _ _ _ _ s) as [s1 x] eqn:E1.
    assert (contents s1 = contents s) as H1.
    { unfold contents. apply file_op_spec in E1 as [[H1 _]|[H1 _]]; by rewrite H1. }
    assert (s1 = s') as -> by (destruct x; by injection E as <- _).
    split; [exists old; by rewrite H1, insert_id|]. intros w' ->. destruct x; [|done]. injection E as ->.
    exists []. simpl. rewrite app_nil_r, H1, insert_id by done. split_and!; [done|done|lia|done].
  - cbn [LibraryService.receive] in E. unfold mbind at 1, svc_bind at 1, Cache.lift at 1 in E.
    destruct chunk as [b|e]; cbn [map_err] in E; [|injection E as <- <-; split; [exists old; by rewrite insert_id|done]].
    destruct (max_upload_bytes <? _)%N eqn:Em; [injection E as <- <-; split; [exists old; by rewrite insert_id|done]|].
    apply N.ltb_ge in Em. unfold mbind at 1, svc_bind at 1, LibraryService.write_all in E.
    destruct (LibraryService.file_op _ _ _ _ _ s) as [s1 x] eqn:E1.
    assert (∀ c, alter (λ o, o ++ c) partial (contents s) = <[partial := old ++ c]> (contents s)) as Ha.
    { intros c. apply map_eq. intros p. destruct (decide (p = partial)) as [->|Hp].
      - by rewrite lookup_alter_eq, lookup_insert_eq, Hold.
      - by rewrite lookup_alter_ne, lookup_insert_ne. }
    apply file_op_spec in E1 as [[H1 [e ->]]|[H1 ->]].
    + injection E as <- <-. split; [|done]. eexists. unfold contents at 1. rewrite H1. apply Ha.
    + assert (contents s1 = <[partial := old ++ b]> (contents s)) as H1' by (unfold contents at 1; rewrite H1; apply Ha).
      destruct (IH _ _ E (old ++ b)) as [[c Hc] Hr]; [by rewrite H1', lookup_insert_eq|done|].
      split; [exists c; by rewrite Hc, H1', insert_insert_eq|]. intros w' Hw'.
      destruct (Hr w' Hw') as (bs & -> & Hcs & -> & Hle). exists (b :: bs). cbn [map concat].
      split; [done|]. rewrite Hcs, H1', insert_insert_eq, length_app, app_assoc. split; [done|]. lia.
Qed.

(** C29: an upload is whole or nothing. One that succeeds changes exactly one file,
    named as asked inside one directory: its content is everything that was sent, it
    is not empty and within the size limit. One that fails, at whatever file operation
    and whatever a torn write leaves, changes no file but its own temporary one, and
    that is never listed as a library file. *)
Theorem upload_atomic kind name stream new_id s s' r :
  (max_upload_bytes < U64_MAX)%N → upload kind name stream new_id s = (s', r) →
  (∀ k, is_ok (validate_library_filename (LibraryService.partial_name new_id) k) = false) ∧
  match r with
  | Ok f => ∃ base bs, stream = map Ok bs ∧ concat bs ≠ [] ∧ sf_path f = base ++ [name] ∧ sf_name f = name ∧
      sf_size_bytes f = N.of_nat (length (concat bs)) ∧ (sf_size_bytes f <= max_upload_bytes)%N ∧
      contents s' = <[base ++ [name] := concat bs]>
                      (base.delete (base ++ [LibraryService.partial_name new_id]) (contents s))
  | Err _ => contents s' = contents s ∨
      ∃ base, ∀ p, p ≠ base ++ [LibraryService.partial_name new_id] → contents s' !! p = contents s !! p
  end.
Proof.
  intros Hmax E. split; [intros k; apply partial_not_listed|]. unfold LibraryService.upload in E.
  unfold mbind at 1, svc_bind at 1, Cache.lift at 1 in E.
  destruct (validate_library_filename name kind) as [n|e] eqn:En; [|injection E as <- <-; by left].
  apply valid_name_ok in En as (-> & Hne & Hdot).
  unfold mbind at 1, svc_bind at 1 in E. destruct (LibraryService.resolve_dir _ _ _ _ _ _ _ s) as [s1 [dir|e]] eqn:E1;
    apply resolve_dir_contents in E1; [|injection E as <- <-; by left].
  unfold mbind at 1, svc_bind at 1, Cache.lift at 1 in E. destruct dir as [base|]; cbn [ok_or] in E;
    [|injection E as <- <-; by left].
  unfold mbind at 1, svc_bind at 1, Cache.lift at 1 in E.
  destruct (library_join base name) as [final|e] eqn:Ej; [|injection E as <- <-; by left].
  assert (final = base ++ [name]) as ->.
  { unfold library_join in Ej. destruct (file_name name) as [c|]; [|done]. destruct (c =s? name) eqn:Eq; [|done].
    injection Ej as <-. unfold str_eqb in Eq. apply bool_decide_eq_true in Eq. by subst. }
  cbv zeta in E. set (partial := base ++ [LibraryService.partial_name new_id]) in *.
  assert (∀ s2 : state, (∀ p, p ≠ partial → contents s2 !! p = contents s !! p) →
    contents s2 = contents s ∨ ∃ base, ∀ p, p ≠ base ++ [LibraryService.partial_name new_id] →
      contents s2 !! p = contents s !! p) as Hfail by (intros s2 H2; right; by exists base).
  unfold mbind at 1, svc_bind at 1 in E. destruct (LibraryService.create_file _ _ _ s1) as [s2 x] eqn:E2.
  apply file_op_spec in E2 as [[H2 [e ->]]|[H2 ->]].
  { injection E as <- <-. left. unfold contents at 1. rewrite H2. exact E1. }
  assert (contents s2 = <[partial := []]> (contents s)) as H2' by (unfold contents at 1; rewrite H2, <- E1; done).
  unfold mbind at 1, svc_bind at 1, on_error in E.
  destruct (receive partial 0 stream s2) as [s3 x] eqn:E3.
  destruct (receive_spec partial 0 stream s2 s3 x [] E3) as [[c Hc] Hok];
    [by rewrite H2', lookup_insert_eq|done|lia|]. rewrite H2', insert_insert_eq in Hc.
  assert (∀ p b (s4 s5 : state) y, contents s4 = <[partial := b]> (contents s) →
    LibraryService.remove_file fault io_error p partial s4 = (s5, y) →
    ∀ q, q ≠ partial → contents s5 !! q = contents s !! q) as Hrm.
  { intros p b s4 s5 y H4 E5 q Hq. apply file_op_on_spec in E5 as [[H5 _]|(b' & _ & H5 & _)].
    - by rewrite H5, H4, lookup_insert_ne.
    - unfold contents at 1. rewrite H5. simpl. by rewrite lookup_delete_ne, H4, lookup_insert_ne. }
  destruct x as [w|e].
  2:{ injection E as <- <-. apply Hfail. unfold ignore. cbn [fst].
      destruct (LibraryService.remove_file fault io_error "" partial s3) as [s5 y] eqn:E5. by eapply Hrm. }
  destruct (Hok w eq_refl) as (bs & Hbs & Hcs & Hw & Hle). rewrite H2', insert_insert_eq in Hcs. simpl in Hcs, Hw.
  destruct (w =? 0)%N eqn:Ew.
  { unfold mbind, svc_bind, ignore in E. injection E as <- <-. apply Hfail.
    destruct (LibraryService.remove_file fault io_error "" partial s3) as [s5 y] eqn:E5. by eapply Hrm. }
  apply N.eqb_neq in Ew. unfold mbind, svc_bind in E.
  destruct (LibraryService.rename _ _ _ _ s3) as [s4 x] eqn:E4.
  apply file_op_on_spec in E4 as [[H4 [e ->]]|(b & Hb & H4 & ->)].
  - injection E as <- <-. apply Hfail. intros q Hq. by rewrite H4, Hcs, lookup_insert_ne.
  - injection E as <- <-. exists base, bs. cbn [sf_path sf_size_bytes sf_name].
    rewrite Hcs, lookup_insert_eq in Hb. injection Hb as <-.
    split; [done|]. split; [intros H0; rewrite H0 in Hw; simpl in Hw; lia|]. split_and!; try done.
    unfold contents at 1. rewrite H4. simpl. rewrite Hcs. f_equal.
    apply map_eq. intros q. destruct (decide (q = partial)) as [->|Hq]; [by rewrite !lookup_delete_eq|].
    by rewrite !lookup_delete_ne, lookup_insert_ne.
Qed.
End library.

(** ** Addresses

    The refused addresses as blocks, first and last address of each. *)

Definition quad (a b c d : N) : N := (((a * 256 + b) * 256 + c) * 256 + d)%N.
Definition REFUSED_V4 : list (N * N) :=
  [(quad 0 0 0 0, quad 0 255 255 255); (quad 10 0 0 0, quad 10 255 255 255);
   (quad 100 64 0 0, quad 100 127 255 255); (quad 127 0 0 0, quad 127 255 255 255);
   (quad 169 254 0 0, quad 169 254 255 255); (quad 172 16 0 0, quad 172 31 255 255);
   (quad 192 0 2 0, quad 192 0 2 255); (quad 192 168 0 0, quad 192 168 255 255);
   (quad 198 51 100 0, quad 198 51 100 255); (quad 203 0 113 0, quad 203 0 113 255);
   (quad 224 0 0 0, quad 239 255 255 255); (quad 255 255 255 255, quad 255 255 255 255)].
Definition refused_v4 (a b c d : N) : Prop :=
  ∃ lo hi, (lo, hi) ∈ REFUSED_V4 ∧ (lo ≤ quad a b c d ≤ hi)%N.

(** The unspecified and the loopback address, multicast, unique-local and
    link-local ones, and the mapped refused IPv4 addresses. *)
Inductive refused : IpAddr → Prop :=
  | rf_v4 a b c d : refused_v4 a b c d → refused (V4 [a; b; c; d])
  | rf_loopback : refused (V6 [0; 0; 0; 0; 0; 0; 0; 1]%N)
  | rf_unspecified : refused (V6 [0; 0; 0; 0; 0; 0; 0; 0]%N)
  | rf_multicast g gs : (0xff00 ≤ g ≤ 0xffff)%N → refused (V6 (g :: gs))
  | rf_unique_local g gs : (0xfc00 ≤ g ≤ 0xfdff)%N → refused (V6 (g :: gs))
  | rf_link_local g gs : (0xfe80 ≤ g ≤ 0xfebf)%N → refused (V6 (g :: gs))
  | rf_mapped a b c d : (a < 256 ∧ b < 256 ∧ c < 256 ∧ d < 256)%N → refused_v4 a b c d →
      refused (V6 [0; 0; 0; 0; 0; 0xffff; a * 256 + b; c * 256 + d]%N).

(** What an address is: four bytes, or eight groups of sixteen bits. *)
Definition well_formed (ip : IpAddr) : Prop :=
  match ip with
  | V4 o => length o = 4%nat ∧ Forall (λ x, (x < 256)%N) o
  | V6 g => length g = 8%nat ∧ Forall (λ x, (x < 65536)%N) g
  end.

Lemma land_shifted (x m k : N) : N.land x (N.shiftl m k) = N.shiftl (N.land (N.shiftr x k) m) k.
Proof.
  apply N.bits_inj. intros i. rewrite N.land_spec. destruct (N.lt_ge_cases i k).
  - by rewrite !N.shiftl_spec_low, andb_false_r by done.
  - rewrite !N.shiftl_spec_high', N.land_spec, N.shiftr_spec' by done.
    by replace (i - k + k)%N with i by lia.
Qed.

(** A mask of leading ones picks a range: [x & mask == value]. *)
Lemma land_range (x n k v : N) :
  (x < 2 ^ (n + k))%N → (v < 2 ^ n)%N →
  N.land x (N.shiftl (N.ones n) k) = N.shiftl v k ↔ (v * 2 ^ k ≤ x < (v + 1) * 2 ^ k)%N.
Proof.
  intros Hx Hv. rewrite land_shifted, N.land_ones, !N.shiftl_mul_pow2, N.shiftr_div_pow2.
  assert (2 ^ k ≠ 0)%N as Hk by (apply N.pow_nonzero; done).
  assert (x / 2 ^ k < 2 ^ n)%N as Hd.
  { apply N.Div0.div_lt_upper_bound. rewrite N.add_comm, N.pow_add_r in Hx. done. }
  rewrite N.mod_small by done. rewrite N.mul_cancel_r by done.
  pose proof (N.div_mod x (2 ^ k) Hk) as Hdm. pose proof (N.mod_lt x (2 ^ k) Hk) as Hm.
  set (q := (x / 2 ^ k)%N) in *. set (m := (x mod 2 ^ k)%N) in *. set (w := (2 ^ k)%N) in *.
  clearbody q m w. split; [intros ->; nia|]. intros [H1 H2].
  assert (q < v + 1)%N by nia. assert (v < q + 1)%N by nia. lia.
Qed.

Lemma refused_numbers : REFUSED_V4 =
  [(0, 16777215); (167772160, 184549375); (1681915904, 1686110207); (2130706432,
   2147483647); (2851995648, 2852061183); (2886729728, 2887778303); (3221225984,
   3221226239); (3232235520, 3232301055); (3325256704, 3325256959); (3405803776,
   3405804031); (3758096384, 4026531839); (4294967295, 4294967295)]%N.
Proof. reflexivity. Qed.

Lemma in_block (i : nat) (a b c d lo hi : N) :
  REFUSED_V4 !! i = Some (lo, hi) → (lo ≤ quad a b c d ≤ hi)%N → refused_v4 a b c d.
Proof. intros Hi%list_elem_of_lookup_2 H. by exists lo, hi. Qed.

Lemma cgnat_range (b : N) : (b < 256)%N → N.land b 192 = 64%N ↔ (64 ≤ b < 128)%N.
Proof. intros Hb. by apply (land_range b 2 6 1). Qed.

(** [lia] on one alternative of the goal. *)
Ltac pick_lia := lazymatch goal with
  | |- _ ∨ _ => solve [left; pick_lia | right; pick_lia]
  | |- _ => lia
  end.

Lemma ipv4_disallowed_spec (a b c d : N) :
  (a < 256)%N → (b < 256)%N → (c < 256)%N → (d < 256)%N →
  ipv4_disallowed [a; b; c; d] = true ↔ refused_v4 a b c d.
Proof.
  intros Ha Hb Hc Hd. unfold ipv4_disallowed, octet. cbn [nth]. cbv zeta.
  autorewrite with rust_bool. rewrite (cgnat_range b Hb). split.
  - intros H. unfold quad in *.
    repeat match goal with H : _ ∨ _ |- _ => destruct H as [H|H] end;
      first [ eapply (in_block 0); [rewrite refused_numbers; reflexivity|unfold quad; lia]
            | eapply (in_block 1); [rewrite refused_numbers; reflexivity|unfold quad; lia]
            | eapply (in_block 2); [rewrite refused_numbers; reflexivity|unfold quad; lia]
            | eapply (in_block 3); [rewrite refused_numbers; reflexivity|unfold quad; lia]
            | eapply (in_block 4); [rewrite refused_numbers; reflexivity|unfold quad; lia]
            | eapply (in_block 5); [rewrite refused_numbers; reflexivity|unfold quad; lia]
            | eapply (in_block 6); [rewrite refused_numbers; reflexivity|unfold quad; lia]
            | eapply (in_block 7); [rewrite refused_numbers; reflexivity|unfold quad; lia]
            | eapply (in_block 8); [rewrite refused_numbers; reflexivity|unfold quad; lia]
            | eapply (in_block 9); [rewrite refused_numbers; reflexivity|unfold quad; lia]
            | eapply (in_block 10); [rewrite refused_numbers; reflexivity|unfold quad; lia]
            | eapply (in_block 11); [rewrite refused_numbers; reflexivity|unfold quad; lia] ].
  - intros (lo & hi & Hin & H). rewrite refused_numbers in Hin. unfold quad in H.
    repeat (apply elem_of_cons in Hin as [Hin|Hin];
      [injection Hin as -> ->; clear -Ha Hb Hc Hd H; pick_lia|]).
    by apply not_elem_of_nil in Hin.
Qed.

(** The IPv4 address inside a mapped one. *)
Lemma to_ipv4_mapped_spec (g : list N) (o : list N) :
  Forall (λ x, (x < 65536)%N) g → to_ipv4_mapped g = Some o →
  ∃ a b c d, o = [a; b; c; d] ∧ (a < 256 ∧ b < 256 ∧ c < 256 ∧ d < 256)%N ∧
    g = [0; 0; 0; 0; 0; 65535; a * 256 + b; c * 256 + d]%N.
Proof.
  intros Hg. unfold to_ipv4_mapped.
  destruct g as [|s0 [|s1 [|s2 [|s3 [|s4 [|s5 [|x [|y [|??]]]]]]]]]; try done.
  destruct (_ && _) eqn:E; [|done]. intros [= <-]. bool_prop. destruct_and!. subst.
  rewrite !Forall_cons in Hg. destruct Hg as (_ & _ & _ & _ & _ & _ & Hx & Hy & _).
  cbv beta in Hx, Hy. exists (x / 256)%N, (x mod 256)%N, (y / 256)%N, (y mod 256)%N.
  pose proof (N.div_mod x 256 ltac:(done)) as Dx. pose proof (N.div_mod y 256 ltac:(done)) as Dy.
  pose proof (N.mod_lt x 256 ltac:(done)) as Mx. pose proof (N.mod_lt y 256 ltac:(done)) as My.
  revert Dx Dy Mx My. generalize (x / 256)%N (x mod 256)%N (y / 256)%N (y mod 256)%N.
  intros qx rx qy ry Dx Dy Mx My. split; [done|]. split; [lia|]. do 6 f_equal. f_equal; [lia|]. f_equal. lia.
Qed.

Lemma v6_head (g : N) :
  (g < 65536)%N →
  (N.land g 65280 = 65280%N ↔ (0xff00 ≤ g ≤ 0xffff)%N) ∧
  (N.land g 65024 = 64512%N ↔ (0xfc00 ≤ g ≤ 0xfdff)%N) ∧
  (N.land g 65472 = 65152%N ↔ (0xfe80 ≤ g ≤ 0xfebf)%N).
Proof.
  intros Hg. split_and!.
  - rewrite (land_range g 8 8 255 Hg) by done. lia.
  - rewrite (land_range g 7 9 126 Hg) by done. lia.
  - rewrite (land_range g 10 6 1018 Hg) by done. lia.
Qed.

Lemma disallowed_spec (ip : IpAddr) :
  well_formed ip → ip_is_disallowed ip = true ↔ refused ip.
Proof.
  destruct ip as [o|g]; intros [Hl Hf]; simpl.
  - destruct o as [|a [|b [|c [|d [|??]]]]]; try done. rewrite !Forall_cons in Hf. destruct_and!.
    rewrite ipv4_disallowed_spec by done. split; [by constructor|]. by inversion 1.
  - destruct g as [|s0 g]; [done|]. pose proof (proj1 (Forall_cons _ _ _) Hf) as [H0 _].
    destruct (v6_head s0 H0) as (Hm & Hu & Hk). unfold octet. cbn [nth].
    match goal with |- (if ?b then _ else _) = _ ↔ _ => destruct b eqn:E end.
    + split; [intros _|done]. rewrite !orb_true_iff, !bool_decide_eq_true, !N.eqb_eq in E.
      rewrite Hm, Hu, Hk in E.
      destruct E as [[[[->| ->]|E]|E]|E]; [by constructor..| | |].
      * by apply rf_multicast.
      * by apply rf_unique_local.
      * by apply rf_link_local.
    + rewrite !orb_false_iff, !bool_decide_eq_false, !N.eqb_neq, Hm, Hu, Hk in E.
      destruct E as [[[[E1 E2] E3] E4] E5].
      destruct (to_ipv4_mapped (s0 :: g)) as [v4|] eqn:Em.
      * apply to_ipv4_mapped_spec in Em as (a & b & c & d & -> & (Ha & Hb & Hc & Hd) & Heq); [|done].
        rewrite ipv4_disallowed_spec by done. rewrite Heq. split; [by constructor|].
        inversion 1 as [| | | | | |a' b' c' d' Hb' Hr]; subst; try lia.
        assert (a' = a ∧ b' = b ∧ c' = c ∧ d' = d) as (-> & -> & -> & ->) by lia. done.
      * split; [done|]. inversion 1; subst; done.
Qed.

(** ** Fetching *)

Inductive net_event (Url : Type) :=
  | Looked (host : str) (port : N) (answer : result str (list IpAddr))
  | Got (url : Url).
Arguments Looked {Url}. Arguments Got {Url}.

Section fetch.
Context {Url W : Type} (url_host : Url → option str) (url_port : Url → option N)
  (url_join : Url → str → result str Url) (lookup_host : str → N → W → W * result str (list IpAddr))
  (http_get : Url → W → W * result str Response) (wlog : W → list (net_event Url)).
Context (lookup_log : ∀ h p w, wlog (lookup_host h p w).1 = wlog w ++ [Looked h p (lookup_host h p w).2])
  (get_log : ∀ u w, wlog (http_get u w).1 = wlog w ++ [Got u]).
Context (iso_dir template_dir disk_image_dir : path) (max_upload_bytes : N).
Context (fault : nat → bool) (torn : nat → list N) (io_error : str).
Local Abbreviation state := (LibraryService.state (W:=W)).
Local Abbreviation validate_public_url := (LibraryService.validate_public_url url_host url_port lookup_host).
Local Abbreviation follow := (LibraryService.follow url_host url_port url_join lookup_host http_get).
Local Abbreviation run_fetch := (LibraryService.run_fetch iso_dir template_dir disk_image_dir max_upload_bytes fault
  torn io_error url_host url_port url_join lookup_host http_get).
Local Abbreviation fetch_task := (LibraryService.fetch_task iso_dir template_dir disk_image_dir max_upload_bytes fault
  torn io_error url_host url_port url_join lookup_host http_get).

(** Not in any refused block. *)
Definition vetted (ip : IpAddr) : Prop := well_formed ip → ¬ refused ip.
Lemma vetted_spec (ip : IpAddr) : ip_is_disallowed ip = false → vetted ip.
Proof. intros H Hw Hr%disallowed_spec; [congruence|done]. Qed.

(** Requests to a vetted host only: a literal address that is allowed, or a name that
    the look-up just before resolved to allowed addresses only, at least one. *)
Inductive guarded : list (net_event Url) → Prop :=
  | guarded_nil : guarded []
  | guarded_literal url host ip t : url_host url = Some host → parse_ip host = Some ip →
      vetted ip → guarded t → guarded (Got url :: t)
  | guarded_name url host port addrs t : url_host url = Some host → addrs ≠ [] →
      Forall vetted addrs → guarded t →
      guarded (Looked host port (Ok addrs) :: Got url :: t)
  | guarded_refused host port answer : guarded [Looked host port answer].
Fixpoint gets_of (t : list (net_event Url)) : nat :=
  match t with [] => 0 | Got _ :: t => S (gets_of t) | Looked _ _ _ :: t => gets_of t end.

Definition traffic (s : state) : list (net_event Url) := wlog (LibraryService.net s).

Lemma public_url_traffic url (s s' : state) r : validate_public_url url s = (s', r) →
  ∃ tr, traffic s' = traffic s ++ tr ∧ guarded tr ∧ gets_of tr = 0%nat ∧
    (r = Ok tt → ∀ t, guarded t → guarded (tr ++ Got url :: t)).
Proof.
  unfold LibraryService.validate_public_url, mbind, svc_bind, Cache.lift.
  assert (∀ (r0 : ApiResult unit) e, r0 = Err e → ∃ tr, traffic s = traffic s ++ tr ∧ guarded tr ∧
    gets_of tr = 0%nat ∧ (r0 = Ok tt → ∀ t, guarded t → guarded (tr ++ Got url :: t))) as Hnone.
  { intros r0 e ->. exists []. rewrite app_nil_r. by repeat constructor. }
  destruct (url_host url) as [host|] eqn:Eh; simpl; [|intros [= <- <-]; by eapply Hnone].
  destruct (parse_ip host) as [ip|] eqn:Ei.
  - destruct (ip_is_disallowed ip) eqn:Ed; intros [= <- <-]; [by eapply Hnone|].
    exists []. rewrite app_nil_r. split; [done|]. split; [constructor|]. split; [done|]. intros _ t Ht.
    eapply guarded_literal; eauto using vetted_spec.
  - unfold LibraryService.on_net. set (port := default 443%N (url_port url)).
    pose proof (lookup_log host port (LibraryService.net s)) as Hl.
    destruct (lookup_host host port (LibraryService.net s)) as [w a]. simpl in Hl.
    assert (∀ r0 : ApiResult unit, (r0 = Ok tt → ∀ t, guarded t → guarded ([Looked host port a] ++ Got url :: t)) →
      ∃ tr, traffic (LibraryService.mkState (LibraryService.fetches s) (LibraryService.fs s) w) = traffic s ++ tr ∧
        guarded tr ∧ gets_of tr = 0%nat ∧ (r0 = Ok tt → ∀ t, guarded t → guarded (tr ++ Got url :: t))) as Hsome.
    { intros r0 Hr. exists [Looked host port a]. split; [exact Hl|]. by split; [constructor|split]. }
    destruct a as [addrs|e]; simpl; [|intros [= <- <-]; by apply Hsome].
    destruct (existsb ip_is_disallowed addrs) eqn:Ex; [intros [= <- <-]; by apply Hsome|].
    destruct addrs as [|ip addrs]; intros [= <- <-]; apply Hsome; [done|]. intros _ t Ht. simpl.
    eapply guarded_name; [done|done| |done]. apply existsb_false in Ex.
    eapply Forall_impl; [exact Ex|]. apply vetted_spec.
Qed.

Lemma follow_traffic hops url (s s' : state) r : follow hops url s = (s', r) →
  ∃ tr, traffic s' = traffic s ++ tr ∧ guarded tr ∧ (gets_of tr ≤ hops)%nat.
Proof.
  revert url s. induction hops as [|hops IH]; intros url s; cbn [LibraryService.follow].
  { intros [= <- <-]. exists []. rewrite app_nil_r. by repeat constructor. }
  unfold mbind at 1, svc_bind at 1. destruct (validate_public_url url s) as [s1 [[]|e]] eqn:E1;
    destruct (public_url_traffic _ _ _ _ E1) as (t1 & H1 & G1 & C1 & K1).
  2:{ intros [= <- <-]. exists t1. rewrite C1. split_and!; [done|done|lia]. }
  unfold mbind at 1, svc_bind at 1, LibraryService.on_net.
  pose proof (get_log url (LibraryService.net s1)) as Hg. destruct (http_get url (LibraryService.net s1)) as [w a].
  cbn [fst] in Hg. set (s2 := LibraryService.mkState _ _ w).
  assert (∀ t, guarded t → gets_of (t1 ++ Got url :: t) = S (gets_of t)) as Hcount.
  { intros t _. clear -C1. revert C1. induction t1 as [|[] t1 IH]; simpl; [done|done|done]. }
  assert (traffic s2 = traffic s ++ t1 ++ [Got url]) as H2.
  { unfold traffic at 1. unfold s2. cbn [LibraryService.net]. rewrite Hg. unfold traffic in H1. by rewrite H1, <- app_assoc. }
  assert (∃ tr, traffic s2 = traffic s ++ tr ∧ guarded tr ∧ (gets_of tr ≤ S hops)%nat) as Hend.
  { exists (t1 ++ [Got url]). split; [done|]. split; [by apply K1; [|constructor]|].
    rewrite Hcount by constructor. simpl. lia. }
  destruct a as [response|e]; simpl; [|by intros [= <- <-]].
  destruct ((300 <=? rs_status response)%N && _).
  - unfold mbind at 1, svc_bind at 1, Cache.lift. destruct (rs_location response) as [loc|]; simpl; [|by intros [= <- <-]].
    unfold mbind, svc_bind, Cache.lift. destruct (url_join url loc) as [next|e]; simpl; [|by intros [= <- <-]].
    intros E. destruct (IH _ _ E) as (t2 & H3 & G2 & C2). exists (t1 ++ Got url :: t2).
    split; [by rewrite H3, H2, <- !app_assoc|]. split; [by apply K1|]. rewrite Hcount by done. lia.
  - destruct (negb _); by intros [= <- <-].
Qed.

(** Files do not touch the network. *)
Definition net_is (w : W) (s : state) : Prop := LibraryService.net s = w.
Lemma keeps_on_fs {A} w (m : Fs → Fs * ApiResult A) : keeps (net_is w) (LibraryService.on_fs m).
Proof. intros s s' r. unfold LibraryService.on_fs. destruct (m _) as [f x]. by intros [= <- _]. Qed.
Lemma keeps_set_fetches w l : keeps (net_is w) (LibraryService.set_fetches l).
Proof. by intros s s' r [= <- _]. Qed.
Ltac keeps_net_step :=
  lazymatch goal with
  | |- keeps _ (mbind _ _) => apply keeps_bind; [|intros ?]
  | |- keeps _ (attempt _) => apply keeps_attempt
  | |- keeps _ (ignore _) => apply keeps_ignore
  | |- keeps _ (on_error _ _) => apply keeps_on_error
  | |- keeps _ (match ?x with _ => _ end) => destruct x
  | |- keeps _ (let _ := _ in _) => cbv zeta
  | |- keeps _ (LibraryService.on_fs _) => apply keeps_on_fs
  | |- keeps _ (LibraryService.file_op _ _ _ _ _) => apply keeps_on_fs
  | |- keeps _ (LibraryService.file_op_on _ _ _ _ _) => apply keeps_on_fs
  | |- keeps _ (LibraryService.set_fetches _) => apply keeps_set_fetches
  | |- keeps _ (mret _) => apply keeps_ret
  | |- keeps _ (fail _) => apply keeps_fail
  | |- keeps _ (Cache.lift _) => apply keeps_lift
  | |- keeps _ (gets _) => apply keeps_gets
  | |- keeps _ _ => assumption
  end.
Ltac keeps_net := repeat keeps_net_step.

Lemma keeps_receive w partial n stream : keeps (net_is w)
  (LibraryService.receive max_upload_bytes fault torn io_error partial n stream).
Proof.
  revert n. induction stream as [|c stream IH]; intros n; cbn [LibraryService.receive]; unfold LibraryService.flush,
    LibraryService.write_all; keeps_net. apply IH.
Qed.
Lemma keeps_upload w kind name stream id : keeps (net_is w)
  (LibraryService.upload iso_dir template_dir disk_image_dir max_upload_bytes fault torn io_error kind name stream id).
Proof.
  unfold LibraryService.upload, LibraryService.resolve_dir, LibraryService.create_file, LibraryService.remove_file,
    LibraryService.rename.
  pose proof (keeps_receive w) as Hr. repeat (keeps_net_step || apply Hr).
Qed.

(** C14: a download of a disk image asks vetted addresses only. Whatever servers
    answer, wherever they redirect and whatever fails, the task of a fetch makes at
    most six requests; each goes to a literal address outside the refused blocks
    ([refused], spelled out above), or to a name whose look-up just before gave only
    such addresses, at least one (the request looks the name up again). The task
    always ends by recording its outcome: [Completed] with the size if the download
    gave one, [Failed] with the message if it gave an error. *)
Theorem fetch_only_public fetch url upload_id now s s' r :
  fetch_task fetch url upload_id now s = (s', r) →
  r = Ok tt ∧ (∃ tr, traffic s' = traffic s ++ tr ∧ guarded tr ∧ (gets_of tr ≤ S MAX_FETCH_REDIRECTS)%nat) ∧
  ∀ f, f ∈ LibraryService.fetches s' → df_id f = df_id fetch →
    NoDup (map df_id (LibraryService.fetches s')) →
    match (run_fetch (df_id fetch) url (df_name fetch) upload_id s).2 with
    | Ok size => df_state f = Completed ∧ df_bytes_downloaded f = size
    | Err e => df_state f = FetchFailed ∧ df_error f = Some (message e)
    end.
Proof.
  unfold LibraryService.fetch_task. unfold mbind at 1, svc_bind at 1, attempt.
  destruct (run_fetch (df_id fetch) url (df_name fetch) upload_id s) as [s1 x] eqn:E.
  simpl. intros [= <- <-]. split; [done|]. split.
  - unfold LibraryService.run_fetch in E.
    assert (∀ (s2 : state), LibraryService.net s2 = LibraryService.net s1 →
      traffic s2 = traffic s1) as Ht by (intros s2 H2; unfold traffic; by rewrite H2).
    enough (∃ tr, traffic s1 = traffic s ++ tr ∧ guarded tr ∧ (gets_of tr ≤ S MAX_FETCH_REDIRECTS)%nat) as (tr & H1 & H2 & H3).
    { exists tr. split; [|done]. rewrite <- H1. done. }
    unfold mbind at 1, svc_bind at 1 in E.
    destruct (LibraryService.loop_response url_host url_port url_join lookup_host http_get url s) as [s2 [response|e]] eqn:E2.
    2:{ injection E as <- _. exact (follow_traffic _ _ _ _ _ E2). }
    destruct (follow_traffic _ _ _ _ _ E2) as (tr & H1 & H2 & H3). exists tr. split; [|done]. rewrite <- H1.
    assert (net_is (LibraryService.net s2) s1) as Hn; [|unfold traffic; by rewrite Hn].
    eapply (keeps_bind (net_is (LibraryService.net s2))); [| |exact E|reflexivity].
    + unfold LibraryService.set_fetch_total. keeps_net.
    + intros ?. apply keeps_bind; [apply keeps_upload|intros; apply keeps_ret].
  - simpl. clear. intros f. induction (LibraryService.fetches s1) as [|g l IH]; [by intros ?%not_elem_of_nil|].
    cbn [on_fetch]. unfold str_eqb. case_bool_decide as Hg.
    + cbn [map]. intros [->|Hf]%elem_of_cons Hid Hnd.
      * by destruct x.
      * exfalso. apply NoDup_cons in Hnd as [Hnd _]. apply Hnd. apply list_elem_of_fmap. exists f.
        split; [|done]. rewrite Hid. by destruct x.
    + cbn [map]. intros [->|Hf]%elem_of_cons Hid Hnd; [congruence|]. apply NoDup_cons in Hnd as [_ Hnd]. by apply IH.
Qed.
End fetch.

(** ** On a concrete network *)

(** A URL is its host; everything redirects to [10.0.0.7] but the name [mirror]. *)
Definition n_lookup (host : str) (port : N) (w : list (net_event str)) : list (net_event str) * result str (list IpAddr) :=
  let r := if host =s? "mirror" then Ok [V4 [93; 184; 216; 34]%N] else Err (lit "unknown") in
  (w ++ [Looked host port r], r).
Definition n_get (url : str) (w : list (net_event str)) : list (net_event str) * result str Response :=
  (w ++ [Got url], Ok (mkResponse 302 (Some (lit "10.0.0.7")) None [])).
Definition n_fetch : DiskImageFetch := mkFetch "f1" "mirror" "disk.raw" Downloading 0 None None "t0" None.
Definition n_state : LibraryService.state (W:=list (net_event str)) :=
  LibraryService.mkState [n_fetch] (mkFs ({[ []; [lit "lib"] ]} : gset path) ∅ 0) [].
Definition n_done := LibraryService.fetch_task [lit "lib"; lit "isos"] [lit "lib"; lit "templates"]
  [lit "lib"; lit "images"] 1000 (λ _, false) (λ _, []) "io" (λ u, Some u) (λ _, None) (λ _ l, Ok l)
  n_lookup n_get n_fetch (lit "mirror") "u1" "t1" n_state.
Lemma fetch_only_public_witness :
  LibraryService.net n_done.1 = [Looked (lit "mirror") 443 (Ok [V4 [93; 184; 216; 34]%N]); Got (lit "mirror")] ∧
  guarded (λ u, Some u) (LibraryService.net n_done.1) ∧ n_done.2 = Ok tt.
Proof.
  split; [vm_compute; reflexivity|].
  destruct (fetch_only_public (λ u, Some u) (λ _, None) (λ _ l, Ok l) n_lookup n_get (λ w, w)
    (λ h p w, eq_refl) (λ u w, eq_refl) [lit "lib"; lit "isos"] [lit "lib"; lit "templates"]
    [lit "lib"; lit "images"] 1000 (λ _, false) (λ _, []) "io" n_fetch (lit "mirror") "u1" "t1" n_state _ _
    (surjective_pairing n_done)) as (Hr & (tr & Ht & Hg & _) & _).
  split; [|exact Hr]. unfold traffic in Ht. cbn [n_state LibraryService.net] in Ht. by rewrite Ht.
Defined.

Definition n_uploaded := LibraryService.upload (W:=list (net_event str)) [lit "lib"; lit "isos"]
  [lit "lib"; lit "templates"] [lit "lib"; lit "images"] 1000 (λ _, false) (λ _, []) "io"
  DiskImage "disk.raw" [Ok [1; 2]%N; Ok [3]%N] "u1" n_state.
Lemma upload_atomic_witness :
  is_ok n_uploaded.2 = true ∧
  contents n_uploaded.1 !! [lit "lib"; lit "images"; lit "disk.raw"] = Some [1; 2; 3]%N.
Proof.
  assert (n_uploaded.2 = Ok (mkStorageFile "disk.raw" [lit "lib"; lit "images"; lit "disk.raw"] 3 DiskImage)) as E
    by (vm_compute; reflexivity).
  split; [by rewrite E|].
  pose proof (upload_atomic [lit "lib"; lit "isos"] [lit "lib"; lit "templates"] [lit "lib"; lit "images"] 1000
    (λ _, false) (λ _, []) "io" DiskImage "disk.raw" [Ok [1; 2]%N; Ok [3]%N] "u1" n_state _ _ eq_refl
    (surjective_pairing n_uploaded)) as [_ H].
  rewrite E in H. destruct H as (base & bs & Hbs & _ & Hp & _ & _ & _ & Hc).
  cbn [sf_path] in Hp. rewrite <- Hp in Hc. rewrite Hc, lookup_insert_eq. f_equal.
  destruct bs as [|b1 [|b2 [|]]]; try discriminate Hbs. by injection Hbs as <- <-.
Defined.
