(* ===== verification/Pools.v ===== *)
(** * Resource pools (src/src/services/pool.rs)

    A pool is a record with a name; guests carry the name of their pool.  The
    service checks that a new name is not taken and never changes one. *)

From S2P Require Export Validate Cache.

Record ResourcePool := mkPool {
  rp_id : str; rp_name : str; rp_comment : option str; rp_created_at : str;
  rp_updated_at : option str }.
#[export] Instance ResourcePool_eq_dec : EqDecision ResourcePool.
Proof. solve_decision. Defined.
Record CreateResourcePoolRequest := mkCreatePool { crp_name : str; crp_comment : option str }.
Record UpdateResourcePoolRequest := mkUpdatePool { urp_comment : option str }.

(** Characters, not bytes, are counted. *)
Definition normalize_comment (comment : option str) : option str :=
  match comment with
  | Some c => if is_empty (trim c) then None else Some (take 1024 (trim c))
  | None => None
  end.

Module PoolService.
Section service.
Context `{RS : RecordStore ResourcePool}.
Abbreviation state := (rstate (RecordStore:=RS)).

Definition list : Svc state (Datatypes.list ResourcePool) :=
  pools ← store_list;
  mret (sort_by (λ a b, str_cmp (rp_name a) (rp_name b)) pools).

Definition get (id : str) : Svc state ResourcePool :=
  found ← store_get id;
  lift (ok_or (not_found ("pool " ++ id)) found).

Definition exists_ (name : str) : Svc state bool :=
  pools ← list;
  mret (existsb (λ p, rp_name p =s? trim name) pools).

Definition ensure_exists (name : str) : Svc state unit :=
  found ← exists_ name;
  if found : bool then mret tt
  else fail (validation ("resource pool " ++ debug_str (trim name) ++ " does not exist")).

Definition create (req : CreateResourcePoolRequest) (new_id now : str) : Svc state ResourcePool :=
  name ← lift (validate_pool_name (crp_name req));
  taken ← exists_ name;
  if taken : bool then fail (conflict ("resource pool " ++ debug_str name ++ " already exists"))
  else
    let pool := mkPool new_id name (normalize_comment (crp_comment req)) now None in
    _ ← store_put (rp_id pool) pool;
    mret pool.

Definition update (id : str) (req : UpdateResourcePoolRequest) (now : str) : Svc state ResourcePool :=
  pool ← get id;
  let pool := mkPool (rp_id pool) (rp_name pool)
    (match urp_comment req with Some c => normalize_comment (Some c) | None => rp_comment pool end)
    (rp_created_at pool) (Some now) in
  _ ← store_put (rp_id pool) pool;
  mret pool.

Definition delete (id : str) : Svc state ResourcePool :=
  pool ← get id;
  _ ← store_delete id;
  mret pool.
End service.
End PoolService.

(** * Resource pools: names are valid, unique and permanent *)

Section pools.
Context `{RS : RecordStore ResourcePool}.
Abbreviation state := (rstate (RecordStore:=RS)).
Implicit Types (s : state).

(** The records of the store: kept under their ids, with valid and distinct names. *)
Definition pools_ok s : Prop :=
  (∀ k p, record s k = Some p → rp_id p = k ∧ validate_pool_name (rp_name p) = Ok (rp_name p)) ∧
  (∀ k1 k2 p1 p2, record s k1 = Some p1 → record s k2 = Some p2 → rp_name p1 = rp_name p2 → k1 = k2).

(** The mutations of the service; an id is fresh when it is given out. *)
Inductive pool_step : state → state → Prop :=
  | step_create req id now s s' r : record s id = None →
      PoolService.create req id now s = (s', r) → pool_step s s'
  | step_update id req now s s' r : PoolService.update id req now s = (s', r) → pool_step s s'
  | step_delete id s s' r : PoolService.delete id s = (s', r) → pool_step s s'.

(** States with the same records. *)
Definition same_records s s' : Prop := ∀ k, record s' k = record s k.
Lemma same_ok s s' : same_records s s' → pools_ok s → pools_ok s'.
Proof.
  intros Hs [H1 H2]. split; intros *; rewrite !Hs; [apply H1|apply H2].
Qed.

Lemma list_same s s' r : PoolService.list s = (s', r) → same_records s s'.
Proof.
  unfold PoolService.list, mbind, svc_bind. destruct (store_list s) as [s1 [l|e]] eqn:E1;
    intros [= <- _] k; by eapply list_keeps.
Qed.
Lemma list_all s s' l : PoolService.list s = (s', Ok l) →
  ∀ p, p ∈ l ↔ ∃ k, record s k = Some p.
Proof.
  unfold PoolService.list. rewrite svc_bind_ok. intros (s1 & l1 & E1 & [= <- <-]) p.
  rewrite elem_of_sort_by. by eapply list_ok.
Qed.
Lemma exists_spec name s s' r : PoolService.exists_ name s = (s', r) →
  same_records s s' ∧
  ∀ b, r = Ok b → b = true ↔ ∃ k p, record s k = Some p ∧ rp_name p = trim name.
Proof.
  unfold PoolService.exists_, mbind, svc_bind. destruct (PoolService.list s) as [s1 [l|e]] eqn:E1;
    intros [= <- <-]; (split; [by eapply list_same|]); [|done]. intros b [= <-].
  rewrite existsb_Exists. setoid_rewrite str_eqb_eq. setoid_rewrite (list_all _ _ _ E1).
  naive_solver.
Qed.
Lemma pool_get_spec id s s' r : PoolService.get id s = (s', r) →
  same_records s s' ∧ ∀ p, r = Ok p → record s id = Some p.
Proof.
  unfold PoolService.get, mbind, svc_bind. destruct (store_get id s) as [s1 [o|e]] eqn:E1;
    intros [= <- <-]; (split; [intros k; by eapply get_keeps|]); [|done].
  intros p ->%ok_or_ok. symmetry. by eapply get_ok.
Qed.

Lemma put_ok_step p k s s' r : store_put k p s = (s', r) →
  pools_ok s → rp_id p = k → validate_pool_name (rp_name p) = Ok (rp_name p) →
  (∀ k' p', record s k' = Some p' → rp_name p' = rp_name p → k' = k) → pools_ok s'.
Proof.
  intros E1 Hok Hid Hname Hnew. destruct r as [[]|e].
  2: { eapply same_ok; [|done]. intros k'. by eapply put_err. }
  pose proof (put_ok _ _ _ _ E1) as Hr. destruct Hok as [H1 H2]. split.
  - intros k' p'. rewrite Hr. case_decide as Hk; [|by apply H1]. intros [= <-]. by subst.
  - intros k1 k2 p1 p2. rewrite !Hr. repeat case_decide; subst; try done.
    + intros [= <-] Hp2 Heq. symmetry. by eapply Hnew.
    + intros Hp1 [= <-] Heq. by eapply Hnew.
    + by apply H2.
Qed.

Lemma valid_name_trim n name : validate_pool_name n = Ok name →
  validate_pool_name name = Ok name ∧ trim name = name.
Proof.
  unfold validate_pool_name. cbv zeta. intros (He & [Ht [= <-]]%if_err_ok)%if_err_ok.
  apply negb_false_iff in Ht. rewrite good_tag_trim, He, Ht by done. done.
Qed.

Lemma create_step req id now s s' r : pools_ok s → record s id = None →
  PoolService.create req id now s = (s', r) →
  pools_ok s' ∧ ∀ k p, record s k = Some p → record s' k = Some p.
Proof.
  intros Hok Hid. unfold PoolService.create, mbind, svc_bind, lift.
  destruct (validate_pool_name _) as [name|] eqn:Ev; [|by intros [= <- _]].
  apply valid_name_trim in Ev as [Hv Ht].
  destruct (PoolService.exists_ name s) as [s1 [b|e]] eqn:E1; apply exists_spec in E1 as [Hs Hb];
    pose proof (same_ok _ _ Hs Hok) as Hok1.
  2: { intros [= <- _]. split; [done|]. by intros k p Hp; rewrite Hs. }
  specialize (Hb _ eq_refl). destruct b.
  { intros [= <- _]. split; [done|]. intros k p Hp. by rewrite Hs. }
  assert (∀ k' p', record s1 k' = Some p' → rp_name p' = name → k' = id) as Hnew.
  { intros k' p' Hp Hn. rewrite Hs in Hp. exfalso. cut (false = true); [done|]. apply Hb. exists k', p'. by rewrite Ht. }
  cbv zeta. destruct (store_put _ _ s1) as [s2 r2] eqn:E2.
  assert (pools_ok s2 ∧ ∀ k p, record s k = Some p → record s2 k = Some p) as Hgoal;
    [|destruct r2; by intros [= <- _]].
  split; [eapply put_ok_step; [exact E2|done|done|done|exact Hnew]|].
  intros k p Hp. rewrite <- Hs in Hp. destruct r2 as [[]|e].
  - rewrite (put_ok _ _ _ _ E2). case_decide as Hk; [|done]. simpl in Hk. by rewrite Hk, Hs, Hid in Hp.
  - by rewrite (put_err _ _ _ _ _ E2).
Qed.
Lemma update_step id req now s s' r : pools_ok s → PoolService.update id req now s = (s', r) →
  pools_ok s' ∧ ∀ k p, record s k = Some p → ∃ p', record s' k = Some p' ∧ rp_name p' = rp_name p.
Proof.
  intros Hok. unfold PoolService.update, mbind, svc_bind.
  destruct (PoolService.get id s) as [s1 [p|e]] eqn:E1; apply pool_get_spec in E1 as [Hs Hp];
    pose proof (same_ok _ _ Hs Hok) as Hok1.
  2: { intros [= <- _]. split; [done|]. intros k q Hq. exists q. by rewrite Hs. }
  specialize (Hp _ eq_refl). pose proof (proj1 Hok _ _ Hp) as [Hpid Hpn]. rewrite <- Hs in Hp.
  destruct (store_put _ _ s1) as [s2 r2] eqn:E2. simpl in E2.
  assert (pools_ok s2 ∧ ∀ k q, record s k = Some q → ∃ p', record s2 k = Some p' ∧ rp_name p' = rp_name q)
    as Hgoal; [|destruct r2; by intros [= <- _]].
  split.
  - eapply put_ok_step; [exact E2|done|done|done|]. intros k' p' Hk' Heq.
    rewrite Hpid. by eapply (proj2 Hok1).
  - intros k q Hq. rewrite <- Hs in Hq. destruct r2 as [[]|e].
    + rewrite (put_ok _ _ _ _ E2). case_decide as Hk; [|eauto]. eexists. split; [done|]. simpl.
      rewrite Hk, Hpid in Hq. congruence.
    + rewrite (put_err _ _ _ _ _ E2). eauto.
Qed.
Lemma delete_step id s s' r : pools_ok s → PoolService.delete id s = (s', r) →
  pools_ok s' ∧ ∀ k p, record s' k = Some p → record s k = Some p.
Proof.
  intros Hok. unfold PoolService.delete, mbind, svc_bind.
  destruct (PoolService.get id s) as [s1 [p|e]] eqn:E1; apply pool_get_spec in E1 as [Hs _];
    pose proof (same_ok _ _ Hs Hok) as [H1 H2].
  2: { intros [= <- _]. split; [done|]. by intros k p; rewrite Hs. }
  destruct (store_delete id s1) as [s2 r2] eqn:E2.
  assert (∀ k q, record s2 k = Some q → record s1 k = Some q) as Hsub.
  { intros k q. destruct r2 as [b|e].
    - rewrite (delete_ok _ _ _ _ E2). by case_decide.
    - by rewrite (delete_err _ _ _ _ E2). }
  assert (pools_ok s2 ∧ ∀ k q, record s2 k = Some q → record s k = Some q) as Hgoal;
    [|destruct r2; by intros [= <- _]].
  split; [split|]; [eauto|eauto 6|]. intros k q Hq%Hsub. by rewrite <- Hs.
Qed.

(** However pools are created, updated and deleted, every pool keeps a valid
    name that no other pool has, and a pool that stays keeps its name. *)
Theorem pool_names_permanent s s' :
  pools_ok s → rtc pool_step s s' →
  pools_ok s' ∧
  ∀ s'', pool_step s' s'' → pools_ok s'' ∧
    ∀ k p p', record s' k = Some p → record s'' k = Some p' → rp_name p' = rp_name p.
Proof.
  intros Hok Hsteps.
  assert (∀ s1 s2, pools_ok s1 → pool_step s1 s2 → pools_ok s2 ∧
    ∀ k p p', record s1 k = Some p → record s2 k = Some p' → rp_name p' = rp_name p) as Hstep.
  { intros s1 s2 H1 Hst. assert (pools_ok s2) as H2.
    { destruct Hst; [by eapply create_step|by eapply update_step|by eapply delete_step]. }
    split; [done|]. intros k p p' Hp Hp'. destruct Hst as [req id now s1 s2 r Hid E1|id req now s1 s2 r E1|id s1 s2 r E1].
    - apply (proj2 (create_step _ _ _ _ _ _ H1 Hid E1)) in Hp. congruence.
    - destruct (proj2 (update_step _ _ _ _ _ _ H1 E1) _ _ Hp) as (q & Hq & <-). congruence.
    - apply (proj2 (delete_step _ _ _ _ H1 E1)) in Hp'. congruence. }
  induction Hsteps as [s|s1 s2 s3 Hst _ IH]; [split; [done|by intros s''; apply Hstep]|].
  apply IH. by destruct (Hstep _ _ Hok Hst).
Qed.
End pools.

(** Creating [prod] and then [prod] again: the second attempt is refused. *)
Definition demo_pools : gmap str ResourcePool :=
  (PoolService.create (RS:=map_store ResourcePool) (mkCreatePool "prod" None) "p1" "t0" ∅).1.
Theorem pool_names_permanent_witness :
  pools_ok (RS:=map_store ResourcePool) demo_pools ∧ demo_pools !! lit "p1" ≠ None ∧
  (PoolService.create (RS:=map_store ResourcePool) (mkCreatePool " prod " None) "p2" "t1" demo_pools).2 =
    Err (conflict ("resource pool " ++ debug_str "prod" ++ " already exists")).
Proof.
  split; [|split; [done|by vm_compute]].
  refine (proj1 (pool_names_permanent (RS:=map_store ResourcePool) ∅ demo_pools _ _)).
  - split; intros *; simpl; by rewrite lookup_empty.
  - apply rtc_once. eapply (step_create (RS:=map_store ResourcePool) (mkCreatePool "prod" None) "p1" "t0");
      [done|]. apply surjective_pairing.
Defined.
