(* ===== verification/Shares.v ===== *)
(** * Network shares (src/src/services/shares.rs)

    A share is mounted read-only below [mounts_dir] when it is created and
    unmounted when it is deleted; CIFS credentials go to a file of mode 0600.
    Every file operation asks [faults] for its outcome. *)

From S2P Require Export Host.

Inductive ShareType := Nfs | Cifs.
Inductive ShareState := Connected | Disconnected | ShareError.
#[export] Instance ShareState_eq_dec : EqDecision ShareState.
Proof. solve_decision. Defined.
Record NetworkShare := mkShare {
  ns_id : str; ns_name : str; ns_share_type : ShareType; ns_server : str; ns_export_path : str;
  ns_mount_point : str; ns_state : ShareState; ns_read_only : bool; ns_username : option str;
  ns_options : option str; ns_last_error : option str; ns_created_at : str }.
Record CreateShareRequest := mkCreateShare {
  cs_name : str; cs_share_type : ShareType; cs_server : str; cs_export_path : str;
  cs_options : option str; cs_username : option str; cs_password : option str;
  cs_domain : option str }.

Definition ns_set_state (st : ShareState) (s : NetworkShare) : NetworkShare :=
  mkShare (ns_id s) (ns_name s) (ns_share_type s) (ns_server s) (ns_export_path s)
    (ns_mount_point s) st (ns_read_only s) (ns_username s) (ns_options s) (ns_last_error s)
    (ns_created_at s).

(** ** Validation *)

Definition validate_host (value field : str) : ApiResult unit :=
  if is_empty value || starts_with "-" value || (253 <? len value)%N then
    Err (validation (field ++ " is invalid"))
  else if negb (forallb (λ c, is_ascii_alphanumeric c || char_in c ".-:_") value) then
    Err (validation (field ++ " contains invalid characters"))
  else Ok tt.

Definition validate_export (value : str) : ApiResult unit :=
  if is_empty value || starts_with "-" value || (1024 <? len value)%N then
    Err (validation "export is invalid")
  else if existsb (λ c, is_whitespace c || is_control c || (c =? ch ",")%N) value then
    Err (validation "export contains invalid characters")
  else Ok tt.

Definition DENIED_OPTION_KEYS : list string :=
  ["credentials"; "cred"; "password"; "pass"; "pass2"; "password2"; "username"; "user"; "user2";
   "domain"; "dom"; "workgroup"; "sec"; "guest"; "rw"].

(** The key of one option, [None] for a blank one. *)
Definition denied_key (opt : str) : option str :=
  let opt := trim opt in
  if is_empty opt then None
  else Some (to_ascii_lowercase (trim (first_or_default (split (ch "=") opt)))).

Definition validate_options (value : str) : ApiResult unit :=
  if negb (forallb (λ c, is_ascii_alphanumeric c || char_in c "=,._-:") value) then
    Err (validation "options contain invalid characters")
  else for_each (λ opt,
    match denied_key opt with
    | Some key =>
        if str_in key DENIED_OPTION_KEYS then
          Err (validation ("mount option '" ++ key ++ "' is not allowed; credentials use the dedicated fields and the mount is always read-only"))
        else Ok tt
    | None => Ok tt
    end) (split (ch ",") value).

Definition merge_options (base : str) (extra : option str) : str :=
  match extra with
  | Some extra => if is_empty (trim extra) then base else base ++ "," ++ trim extra
  | None => base
  end.

Definition validate_share (req : CreateShareRequest) : ApiResult unit :=
  _ ← ensure_safe_id (cs_name req);
  if eq_ignore_ascii_case (cs_name req) "local" then
    Err (validation "'local' is a reserved share name")
  else
    _ ← validate_host (cs_server req) "server";
    _ ← validate_export (cs_export_path req);
    match cs_options req with Some opts => validate_options opts | None => Ok tt end.

(** ** The mount command *)

Definition mount_source (req : CreateShareRequest) : str :=
  match cs_share_type req with
  | Nfs => cs_server req ++ ":" ++ cs_export_path req
  | Cifs => "//" ++ cs_server req ++ "/" ++ cs_export_path req
  end.
Definition cifs_base (cred_path : str) : str :=
  "ro,credentials=" ++ cred_path ++ ",file_mode=0444,dir_mode=0555".
Definition mount_options (req : CreateShareRequest) (cred_path : str) : str :=
  match cs_share_type req with
  | Nfs => merge_options "ro" (cs_options req)
  | Cifs => merge_options (cifs_base cred_path) (cs_options req)
  end.
Definition mount_args (req : CreateShareRequest) (cred_path mount_point : str) : list str :=
  [lit "-t"; match cs_share_type req with Nfs => lit "nfs" | Cifs => lit "cifs" end; lit "-o";
   mount_options req cred_path; mount_source req; mount_point].

(** ** Credentials *)

Definition check_credential (field value : str) : ApiResult unit :=
  if existsb (λ c, is_control c || (c =? 10)%N || (c =? 13)%N) value then
    Err (validation (field ++ " contains invalid characters"))
  else Ok tt.

Definition credentials_body (username password domain : option str) : str :=
  lit "username=" ++ default (lit "guest") username ++ [10%N]
  ++ lit "password=" ++ default [] password ++ [10%N]
  ++ match domain with Some domain => lit "domain=" ++ domain ++ [10%N] | None => [] end.

(** The targets of [/proc/mounts]. *)
Definition mount_targets (content : str) : list str :=
  omap (λ line, split_whitespace line !! 1%nat) (lines content).

Module ShareService.
Section service.
Context `{RS : RecordStore NetworkShare} {H : Type}.
Context (broker : bool) (exec : str → list str → Svc H (option str)) (mounts_dir : str).
(** The content of [/proc/mounts], if it can be read. *)
Context (proc_mounts : H → option str).

(** The mount points made, and the credential files with their modes. *)
Record state := mkState {
  store : rstate (RecordStore:=RS); dirs : gset str; creds : gmap str (str * N);
  faults : Datatypes.list (option str); host : H }.
#[global] Instance share_host : HasHost state H.
Proof.
  refine {| host_of := host;
            set_host h s := mkState (store s) (dirs s) (creds s) (faults s) h |}. done.
Defined.

Definition on_store {A} (m : Svc _ A) : Svc state A := λ s,
  let '(x, r) := m (store s) in (mkState x (dirs s) (creds s) (faults s) (host s), r).
Definition set_files (d : gset str) (c : gmap str (str * N)) (s : state) : state :=
  mkState (store s) d c (faults s) (host s).
(** A file operation: [f] when the next fault lets it pass. *)
Definition file_op (what : str) (f : state → state) : Svc state unit := λ s,
  let next fs := mkState (store s) (dirs s) (creds s) fs (host s) in
  match faults s with
  | Some e :: fs => (next fs, Err (internal (what ++ ": " ++ e)))
  | None :: fs => (f (next fs), Ok tt)
  | [] => (f s, Ok tt)
  end.

(** The mode a new file gets before it is changed. *)
Definition UMASK_MODE : N := 420.
Definition SECRET_MODE : N := 384.

Definition write_cifs_credentials (path : str) (username password domain : option str) :
    Svc state unit :=
  _ ← lift (check_credential "username" (default [] username));
  _ ← lift (check_credential "password" (default [] password));
  _ ← lift (check_credential "domain" (default [] domain));
  let body := credentials_body username password domain in
  _ ← file_op "cannot write credentials"
        (λ s, set_files (dirs s) (<[path := (body, UMASK_MODE)]> (creds s)) s);
  file_op "cannot secure credentials"
    (λ s, set_files (dirs s) (<[path := (body, SECRET_MODE)]> (creds s)) s).

Definition cred_path (id : str) : str := path_join mounts_dir (id ++ ".cred").

Definition read_mounts : Svc state (Datatypes.list str) :=
  content ← gets (λ s, proc_mounts (host s));
  mret (match content with Some c => mount_targets c | None => [] end).

Definition list : Svc state (Datatypes.list NetworkShare) :=
  mounted ← read_mounts;
  shares ← on_store store_list;
  let overlay share :=
    if bool_decide (ns_state share = ShareError) then share
    else ns_set_state (if existsb (λ m, m =s? ns_mount_point share) mounted
                       then Connected else Disconnected) share in
  mret (sort_by (λ a b, str_cmp (ns_name a) (ns_name b)) (map overlay shares)).

Definition iso_roots : Svc state (Datatypes.list (str * str)) :=
  mounted ← read_mounts;
  shares ← attempt (on_store store_list);
  mret (map (λ s, (ns_name s, ns_mount_point s))
          (List.filter (λ s, existsb (λ m, m =s? ns_mount_point s) mounted)
             (match shares with Ok l => l | Err _ => [] end))).

(** Best-effort removals. *)
Definition remove_file (path : str) : Svc state unit :=
  ignore (file_op [] (λ s, set_files (dirs s) (delete path (creds s)) s)).
Definition remove_dir (path : str) : Svc state unit :=
  ignore (file_op [] (λ s, set_files (dirs s ∖ {[ path ]}) (creds s) s)).

Definition mount_share (req : CreateShareRequest) (cred mount_point : str) :
    Svc state (ApiResult unit) :=
  _ ← (match cs_share_type req with
       | Nfs => mret tt
       | Cifs => write_cifs_credentials cred (cs_username req) (cs_password req) (cs_domain req)
       end);
  attempt (host_run_ok broker exec "mount" (mount_args req cred mount_point)).

Definition create (req : CreateShareRequest) (new_id now : str) : Svc state NetworkShare :=
  _ ← lift (validate_share req);
  let mount_point := path_join mounts_dir new_id in
  _ ← file_op "cannot create mount point" (λ s, set_files (dirs s ∪ {[ mount_point ]}) (creds s) s);
  let cred := cred_path new_id in
  mounted ← mount_share req cred mount_point;
  match mounted with
  | Err e =>
      _ ← remove_file cred;
      _ ← remove_dir mount_point;
      fail (hypervisor ("failed to mount share: " ++ message e))
  | Ok _ =>
      let share := mkShare new_id (cs_name req) (cs_share_type req) (cs_server req)
        (cs_export_path req) mount_point Connected true (cs_username req) (cs_options req) None now in
      _ ← on_store (store_put new_id share);
      mret share
  end.

Definition delete (id : str) : Svc state unit :=
  found ← on_store (store_get id);
  share ← lift (ok_or (not_found "share not found") found);
  mounted ← read_mounts;
  _ ← (if existsb (λ m, m =s? ns_mount_point share) mounted then
         r ← attempt (host_run_ok broker exec "umount" [ns_mount_point share]);
         lift (map_err (λ e, conflict ("could not unmount the share (is it in use?): " ++ message e)) r)
       else mret tt);
  _ ← remove_file (cred_path id);
  _ ← remove_dir (ns_mount_point share);
  _ ← on_store (store_delete id);
  mret tt.
End service.
End ShareService.

(** * Network shares: always read-only, secrets kept, failures undone *)

(** ** The options of a mount *)

(** An option under a given key: the key alone or before an equals sign, its case
    immaterial. *)
Definition under_key (key : string) (opt : str) : Prop :=
  ∃ k rest, opt = k ++ rest ∧ map to_ascii_lower k = lit key ∧ (rest = [] ∨ ∃ v, rest = ch "=" :: v).
(** An option a caller may give: it neither makes the mount writable nor says who
    the mount is made as, under any of the names mount.cifs knows. *)
Definition harmless (opt : str) : Prop :=
  Forall (λ key, ¬ under_key key opt)
    ["rw"; "sec"; "guest"; "credentials"; "cred"; "username"; "user"; "user2"; "password"; "password2";
     "pass"; "pass2"; "domain"; "dom"; "workgroup"].

Lemma under_key_denied key opt : trim opt = opt → ch "=" ∉ lit key → lit key ≠ [] →
  (∀ k, map to_ascii_lower k = lit key → trim k = k) →
  under_key key opt → denied_key opt = Some (lit key).
Proof.
  intros Ht Hn Hk Htk (k & rest & -> & E & Hrest). unfold denied_key. rewrite Ht.
  assert (ch "=" ∉ k) as Hk'.
  { intros Hin. apply Hn. rewrite <- E. by apply (list_elem_of_fmap_2 to_ascii_lower) in Hin. }
  assert (first_or_default (split (ch "=") (k ++ rest)) = k) as ->.
  { destruct Hrest as [->|[v ->]]; [by rewrite app_nil_r, split_nosep|].
    by rewrite split_sep, (split_nosep _ k). }
  rewrite Htk by done. unfold to_ascii_lowercase. rewrite E.
  destruct k as [|c k]; [by rewrite <- E in Hk|done].
Qed.
(** A name made of ASCII letters and digits has no blank in it in any case. *)
Lemma lower_not_blank key k : Forall (λ c, is_ascii_alphanumeric c = true) (lit key) →
  map to_ascii_lower k = lit key → trim k = k.
Proof.
  intros Hk E. apply trim_none. rewrite <- E, Forall_map in Hk. eapply Forall_impl; [exact Hk|].
  intros c Hc. rewrite <- lower_whitespace. apply (not_whitespace_alnum ""); [done|].
  cbv beta in Hc. unfold alnum_or. by rewrite Hc.
Qed.

Lemma validate_options_user (value : str) : validate_options value = Ok tt →
  trim value = value ∧ Forall harmless (split (ch ",") value).
Proof.
  unfold validate_options. intros [Hc He]%if_err_ok.
  assert (Forall (λ c, is_whitespace c = false) value) as Hw.
  { apply negb_false_iff, forallb_Forall in Hc. eapply Forall_impl; [exact Hc|].
    intros c. by apply (not_whitespace_alnum "=,._-:"). }
  split; [by apply trim_none|]. apply for_each_ok in He. apply Forall_forall. intros o Ho.
  pose proof (proj1 (Forall_forall _ _) He o Ho) as Hd. cbv beta in Hd.
  assert (trim o = o) as Ht.
  { apply trim_none, Forall_forall. intros c Hin.
    apply (proj1 (Forall_forall _ _) Hw). apply elem_of_split in Ho.
    destruct Ho as [->|[[? ->]|[[? ->]|(? & ? & ->)]]]; set_solver. }
  apply Forall_forall. intros key Hkey Hu.
  assert ((str_in (lit key) DENIED_OPTION_KEYS = true) ∧ (ch "=" ∉ lit key) ∧ lit key ≠ [] ∧
    Forall (λ c, is_ascii_alphanumeric c = true) (lit key)) as (Hin & Hn & H0 & Hal).
  { clear -Hkey. revert key Hkey. apply Forall_forall.
    repeat constructor; try (by vm_compute); vm_compute; set_solver. }
  rewrite (under_key_denied key o Ht Hn H0 (λ k, lower_not_blank key k Hal) Hu) in Hd.
  by rewrite Hin in Hd.
Qed.

(** The options a caller asks for, one by one. *)
Definition asked (extra : option str) : list str :=
  match extra with
  | Some e => if is_empty e then [] else split (ch ",") e
  | None => []
  end.
Lemma merge_options_split base extra :
  match extra with Some opts => validate_options opts | None => Ok tt end = Ok tt →
  split (ch ",") (merge_options base extra) = split (ch ",") base ++ asked extra ∧ Forall harmless (asked extra).
Proof.
  intros Hv. destruct extra as [e|]; simpl; [|by rewrite app_nil_r].
  apply validate_options_user in Hv as [Ht Hh]. rewrite Ht.
  destruct (is_empty e); [by rewrite app_nil_r|].
  split; [|done]. apply (split_sep (ch ",") base e).
Qed.

(** The options the service itself puts first. *)
Definition own_options (req : CreateShareRequest) (cred : str) : list str :=
  lit "ro" :: match cs_share_type req with
              | Nfs => []
              | Cifs => [lit "credentials=" ++ cred; lit "file_mode=0444"; lit "dir_mode=0555"]
              end.
Lemma split_cifs_base cred : ch "," ∉ cred →
  split (ch ",") (cifs_base cred) =
  [lit "ro"; lit "credentials=" ++ cred; lit "file_mode=0444"; lit "dir_mode=0555"].
Proof.
  intros Hc. unfold cifs_base.
  change (split (ch ",") (lit "ro" ++ ch "," :: (lit "credentials=" ++ cred ++ ch "," :: lit "file_mode=0444,dir_mode=0555")) = 
    [lit "ro"; lit "credentials=" ++ cred; lit "file_mode=0444"; lit "dir_mode=0555"]).
  rewrite split_sep, (app_assoc (lit "credentials=")), split_sep.
  rewrite (split_nosep _ (lit "credentials=" ++ cred)); [done|].
  rewrite elem_of_app. intros [Hin|?]; [|done]. vm_compute in Hin. set_solver.
Qed.
Lemma share_options_split req cred : ch "," ∉ cred → validate_share req = Ok tt →
  split (ch ",") (mount_options req cred) = own_options req cred ++ asked (cs_options req) ∧
  Forall harmless (asked (cs_options req)).
Proof.
  intros Hc Hv. unfold validate_share in Hv.
  apply bind_ok in Hv as (? & _ & Hv). apply if_err_ok in Hv as [_ Hv].
  apply bind_ok in Hv as (? & _ & Hv). apply bind_ok in Hv as (? & _ & Hv).
  unfold mount_options, own_options. destruct (cs_share_type req).
  - by destruct (merge_options_split "ro" _ Hv) as (-> & ?).
  - destruct (merge_options_split (cifs_base cred) _ Hv) as (-> & ?).
    by rewrite split_cifs_base.
Qed.

Section shares.
Context `{RS : RecordStore NetworkShare} {H : Type}.
Context (broker : bool) (exec : str → list str → Svc H (option str)) (mounts_dir : str).
Context (proc_mounts : H → option str).
Abbreviation state := (ShareService.state (RS:=RS) (H:=H)).
Abbreviation create := (ShareService.create (RS:=RS) broker exec mounts_dir).
Abbreviation mount_point id := (path_join mounts_dir id).
Abbreviation cred_path := (ShareService.cred_path mounts_dir).
Implicit Types (s : state).

(** The records, which only the store changes. *)
Definition kept s : str → option NetworkShare := record (ShareService.store s).

Lemma file_op_store what f s s' r : (∀ s0, ShareService.store (f s0) = ShareService.store s0) →
  (∀ s0, ShareService.host (f s0) = ShareService.host s0) →
  ShareService.file_op what f s = (s', r) →
  ShareService.store s' = ShareService.store s ∧ ShareService.host s' = ShareService.host s.
Proof.
  intros Hf Hh. unfold ShareService.file_op. destruct (ShareService.faults s) as [|[e|] fs];
    intros [= <- _]; by rewrite ?Hf, ?Hh.
Qed.

Section log.
Context (log : H → list command_line).
Context (exec_log : ∀ p a h, log (exec p a h).1 = log h ++ [(p, a)]).

Lemma emits_on_store {A} P (m : Svc _ A) : emits log P (ShareService.on_store (RS:=RS) (H:=H) m).
Proof.
  apply emits_quiet. intros s. unfold ShareService.on_store. by destruct (m _).
Qed.
Lemma emits_set_files P what d c : emits log P
  (ShareService.file_op (RS:=RS) (H:=H) what (λ s, ShareService.set_files (d s) (c s) s)).
Proof.
  intros s s' r E. exists []. apply file_op_store in E as [_ Hh]; [|done|done].
  rewrite app_nil_r. unfold trace. simpl. by rewrite Hh.
Qed.
Hint Resolve emits_on_store emits_set_files : emits.

(** The mount a request asks for: on the share's own mount point, its options [ro],
    for a Windows share the file with the secret and the modes of what it shows, and
    then those of the request, each of them harmless. *)
Definition read_only_mount (req : CreateShareRequest) (id : str) (c : command_line) : Prop :=
  c.1 = lit "mount" ∧ ∃ fs opts source own,
    c.2 = [lit "-t"; fs; lit "-o"; opts; source; mount_point id] ∧
    split (ch ",") opts = lit "ro" :: own ++ asked (cs_options req) ∧
    Forall harmless (asked (cs_options req)) ∧
    match cs_share_type req with
    | Nfs => fs = lit "nfs" ∧ own = [] ∧ source = cs_server req ++ lit ":" ++ cs_export_path req
    | Cifs => fs = lit "cifs" ∧ source = lit "//" ++ cs_server req ++ lit "/" ++ cs_export_path req ∧
        own = [lit "credentials=" ++ cred_path id; lit "file_mode=0444"; lit "dir_mode=0555"]
    end.

Lemma mount_args_read_only req id : ch "," ∉ mounts_dir → ch "," ∉ id → validate_share req = Ok tt →
  read_only_mount req id (lit "mount", mount_args req (cred_path id) (mount_point id)).
Proof.
  intros Hd Hi Hv. split; [done|]. destruct (share_options_split req (cred_path id)) as (Hs & Hu);
    [|done|].
  { unfold ShareService.cred_path, path_join. assert (ch "," ∉ id ++ ".cred").
    { rewrite elem_of_app. intros [?|Hin]; [done|]. vm_compute in Hin. set_solver. }
    case_match; [done|]. case_match; [by intros [?|?]%elem_of_app|].
    intros [?|[Hin|?]%elem_of_app]%elem_of_app; [done| |done]. vm_compute in Hin. set_solver. }
  do 4 eexists. split; [done|]. split; [exact Hs|]. split; [exact Hu|].
  unfold mount_source. by destruct (cs_share_type req).
Qed.

Lemma emits_mount P req cred mp : P (lit "mount", mount_args req cred mp) →
  emits log P (ShareService.mount_share (RS:=RS) broker exec req cred mp).
Proof.
  intros HP. unfold ShareService.mount_share, ShareService.write_cifs_credentials. emits.
Qed.

(** C32: Whatever a caller asks for, the only command a share's creation runs is the
    mount of the requested source on the share's own mount point. Its options begin
    with [ro], continue with the service's own, and end with those of the request, none
    of which is [rw] or one of the fourteen keys that say who the mount is made as,
    in any case. *)
Theorem share_mounts_read_only req id now s s' r :
  ch "," ∉ mounts_dir → ch "," ∉ id → create req id now s = (s', r) →
  ∃ tr, trace log s' = trace log s ++ tr ∧ Forall (read_only_mount req id) tr.
Proof.
  intros Hd Hi. unfold ShareService.create. unfold mbind at 1, svc_bind at 1, lift.
  destruct (validate_share req) as [[]|e] eqn:Hv; [|intros [= <- _]; exists []; by rewrite app_nil_r].
  pose proof (mount_args_read_only _ _ Hd Hi Hv) as HP. revert s s' r.
  apply emits_bind; [emits|]. intros _. cbv zeta. apply emits_bind; [by apply emits_mount|].
  intros [[]|e]; unfold ShareService.remove_file, ShareService.remove_dir; emits.
Qed.
End log.

(** A run of [mount_share]: what it leaves when it succeeds. *)
Lemma write_credentials_ok path u p d s s' :
  ShareService.write_cifs_credentials (RS:=RS) (H:=H) path u p d s = (s', Ok tt) →
  ShareService.store s' = ShareService.store s ∧ ShareService.dirs s' = ShareService.dirs s ∧
  ShareService.creds s' !! path = Some (credentials_body u p d, ShareService.SECRET_MODE) ∧
  ∀ k, k ≠ path → ShareService.creds s' !! k = ShareService.creds s !! k.
Proof.
  unfold ShareService.write_cifs_credentials, ShareService.file_op, mbind, svc_bind, lift.
  repeat (destruct (check_credential _ _); [|done]). cbv zeta.
  destruct (ShareService.faults s) as [|[e|] [|[e'|] fs]] eqn:E; simpl; rewrite ?E; intros [= <-];
    simpl; rewrite ?lookup_insert_eq; (split_and!; [done..|]); intros k Hk; by rewrite !lookup_insert_ne.
Qed.

(** The parts of the state that a step of the service leaves alone. *)
Lemma file_op_cases what f s s' r : ShareService.file_op (RS:=RS) (H:=H) what f s = (s', r) →
  r = Ok tt ∧ (∃ s0, s' = f s0 ∧ ShareService.store s0 = ShareService.store s ∧ ShareService.dirs s0 = ShareService.dirs s
      ∧ ShareService.creds s0 = ShareService.creds s ∧ (ShareService.faults s = [] → ShareService.faults s0 = [])) ∨
  is_ok r = false ∧ ShareService.faults s ≠ [] ∧ ShareService.store s' = ShareService.store s ∧
    ShareService.dirs s' = ShareService.dirs s ∧ ShareService.creds s' = ShareService.creds s.
Proof.
  unfold ShareService.file_op. destruct (ShareService.faults s) as [|[e|] fs] eqn:E; intros [= <- <-];
    [left|right|left]; simpl; split_and?; eauto; eexists; (split; [done|]); by split_and!.
Qed.

Lemma mount_run_state p a s s' r : host_run_ok broker exec p a s = (s', r) →
  ShareService.store s' = ShareService.store s ∧ ShareService.dirs s' = ShareService.dirs s ∧
  ShareService.creds s' = ShareService.creds s ∧ ShareService.faults s' = ShareService.faults s.
Proof.
  unfold host_run_ok, at_host. destruct (Command.run_ok _ _ _ _ _) as [h x]. by intros [= <- _].
Qed.

(** The state once the mount of a share was attempted: only the credential file
    of a CIFS share can have changed. *)
Definition attempted (req : CreateShareRequest) (cred : str) s s' : Prop :=
  ShareService.store s' = ShareService.store s ∧ ShareService.dirs s' = ShareService.dirs s ∧
  ∀ k, k ≠ cred → ShareService.creds s' !! k = ShareService.creds s !! k.
Lemma mount_share_outcome req cred mp s s' r :
  ShareService.mount_share (RS:=RS) broker exec req cred mp s = (s', r) →
  ShareService.faults s = [] ∨ is_ok r = true →
  attempted req cred s s' ∧ (ShareService.faults s = [] → ShareService.faults s' = []) ∧
  match r with
  | Ok _ =>
      match cs_share_type req with
      | Nfs => ShareService.creds s' !! cred = ShareService.creds s !! cred
      | Cifs => ∃ body, ShareService.creds s' !! cred = Some (body, ShareService.SECRET_MODE)
      end
  | Err e => code e = Validation
  end.
Proof.
  unfold ShareService.mount_share. unfold mbind at 1, svc_bind at 1. destruct (cs_share_type req).
  - unfold mret, svc_ret, attempt. destruct (host_run_ok broker exec _ _ s) as [s1 x] eqn:E.
    apply mount_run_state in E as (H1 & H2 & H3 & H4). intros [= <- <-] _. simpl.
    unfold attempted. rewrite H1, H2, H3, H4. done.
  - destruct (ShareService.write_cifs_credentials _ _ _ _ s) as [s1 [[]|e]] eqn:E.
    + unfold attempt. destruct (host_run_ok broker exec _ _ s1) as [s2 x] eqn:E2.
      apply mount_run_state in E2 as (H1 & H2 & H3 & H4). intros [= <- <-] Hf. simpl.
      pose proof (write_credentials_ok _ _ _ _ _ _ E) as (G1 & G2 & G3 & G4).
      unfold attempted. rewrite H1, H2, H3, H4. split_and!; [congruence|congruence|done| |eauto].
      intros Hn. revert E. unfold ShareService.write_cifs_credentials, ShareService.file_op, mbind, svc_bind, lift.
      repeat (destruct (check_credential _ _); [|done]). cbv zeta. rewrite Hn. simpl. rewrite Hn. by intros [= <-].
    + intros [= <- <-]. intros [Hf|Hf]; [|done]. revert E.
      unfold ShareService.write_cifs_credentials, ShareService.file_op, mbind, svc_bind, lift.
      assert (∀ f v x, check_credential f v = Err x → code x = Validation) as Hc.
      { unfold check_credential. intros f v x. by destruct (existsb _ _); [intros [= <-]|]. }
      do 3 (case_match; [|intros ?; simplify_eq/=; unfold attempted; eauto 10]).
      cbv zeta. rewrite Hf. simpl. by rewrite Hf.
Qed.

Lemma attempted_kept req cred s s' : attempted req cred s s' → kept s' = kept s.
Proof. intros (Hs & _ & _). unfold kept. by rewrite Hs. Qed.

Definition holds_secret (req : CreateShareRequest) (cred : str) s0 s : Prop :=
  match cs_share_type req with
  | Nfs => ShareService.creds s !! cred = ShareService.creds s0 !! cred
  | Cifs => ∃ body, ShareService.creds s !! cred = Some (body, ShareService.SECRET_MODE)
  end.

Lemma unfaulted_remove_file path s : ShareService.faults s = [] →
  ShareService.remove_file (RS:=RS) (H:=H) path s =
  (ShareService.set_files (ShareService.dirs s) (delete path (ShareService.creds s)) s, Ok tt).
Proof. intros Hf. unfold ShareService.remove_file, ignore, ShareService.file_op. by rewrite Hf. Qed.
Lemma unfaulted_remove_dir path s : ShareService.faults s = [] →
  ShareService.remove_dir (RS:=RS) (H:=H) path s =
  (ShareService.set_files (ShareService.dirs s ∖ {[ path ]}) (ShareService.creds s) s, Ok tt).
Proof. intros Hf. unfold ShareService.remove_dir, ignore, ShareService.file_op. by rewrite Hf. Qed.

(** On a file system that works, creating a share ends in one of four ways:
    refused with nothing changed; a bad credential, which leaves the empty mount
    point behind; a mount that fails, after which the mount point and the secrets are as
    before; or mounted, with the mount point made, the secret of a CIFS share in a file
    of mode 0600, and, unless the store refuses it, the record stored. *)
Theorem share_create_outcomes req id now s s' r :
  ShareService.faults s = [] →
  mount_point id ∉ ShareService.dirs s → ShareService.creds s !! cred_path id = None →
  create req id now s = (s', r) →
  (∃ e, validate_share req = Err e ∧ r = Err e ∧ s' = s) ∨
  ((∀ k, kept s' k = kept s k) ∧ ShareService.dirs s' = ShareService.dirs s ∪ {[ mount_point id ]} ∧
    ∃ e, r = Err e ∧ code e = Validation) ∨
  ((∀ k, kept s' k = kept s k) ∧ ShareService.dirs s' = ShareService.dirs s ∧
    ShareService.creds s' = ShareService.creds s ∧ ∃ m, r = Err (hypervisor ("failed to mount share: " ++ m))) ∨
  (ShareService.dirs s' = ShareService.dirs s ∪ {[ mount_point id ]} ∧
    holds_secret req (cred_path id) s s' ∧
    (∀ k, k ≠ cred_path id → ShareService.creds s' !! k = ShareService.creds s !! k) ∧
    match r with
    | Ok share => ns_id share = id ∧ ns_mount_point share = mount_point id ∧ ns_read_only share = true ∧
        ∀ k, kept s' k = if decide (k = id) then Some share else kept s k
    | Err _ => ∀ k, kept s' k = kept s k
    end).
Proof.
  intros Hf Hd Hc. unfold ShareService.create. unfold mbind at 1, svc_bind at 1, lift.
  destruct (validate_share req) as [[]|e]; [intros E; right; revert E|intros [= <- <-]; left; eauto].
  cbv zeta. unfold mbind at 1, svc_bind at 1, ShareService.file_op. rewrite Hf.
  set (s0 := ShareService.set_files _ _ s). unfold mbind at 1, svc_bind at 1.
  destruct (ShareService.mount_share _ _ _ _ _ s0) as [s1 x] eqn:E1.
  apply mount_share_outcome in E1 as (Ha & Hf1 & Hx); [|by left]. specialize (Hf1 Hf).
  pose proof (attempted_kept _ _ _ _ Ha) as Hk. change (kept s0) with (kept s) in Hk.
  destruct Ha as (_ & Hd1 & Hc1). change (ShareService.creds s0) with (ShareService.creds s) in Hc1, Hx.
  change (ShareService.dirs s0) with (ShareService.dirs s ∪ {[ mount_point id ]}) in Hd1.
  destruct x as [[[]|e]|e]; [intros E; do 2 right; revert E|intros E; right; left; revert E|
    intros [= <- <-]; left; rewrite Hk; eauto].
  - unfold mbind, svc_bind, ShareService.on_store.
    destruct (store_put _ _ _) as [x y] eqn:E2. intros E.
    assert (kept s1 = record (ShareService.store s1)) as Hk1 by done.
    assert (holds_secret req (cred_path id) s s1) as Hh by done.
    destruct y as [[]|e]; injection E as <- <-; (split; [exact Hd1|]); (split; [exact Hh|]);
      (split; [exact Hc1|]); simpl.
    + split_and!; [done..|]. intros k. unfold kept at 1. simpl. rewrite (put_ok _ _ _ _ E2).
      by rewrite <- Hk1, Hk.
    + intros k. unfold kept at 1. simpl. rewrite (put_err _ _ _ _ _ E2). by rewrite <- Hk1, Hk.
  - unfold mbind, svc_bind. rewrite unfaulted_remove_file, unfaulted_remove_dir by done.
    intros [= <- <-]. rewrite Hd1. simpl. split_and!; [intros k; by rewrite <- Hk| |apply map_eq; intros k|eauto].
    + set_solver.
    + destruct (decide (k = cred_path id)) as [->|Hne]; [by rewrite lookup_delete_eq, Hc|].
      by rewrite lookup_delete_ne, Hc1.
Qed.
End shares.

(** ** A CIFS share on a host that mounts *)

Definition demo_request : CreateShareRequest :=
  mkCreateShare "isos" Cifs "nas" "isos" (Some (lit "vers=3.0")) (Some (lit "bob")) (Some (lit "pw")) None.
Definition demo_exec (p : str) (a : list str) : Svc (list command_line) (option str) :=
  λ h, (h ++ [(p, a)], Ok (Some [])).
Definition demo_shares : ShareService.state (RS:=map_store NetworkShare) (H:=list command_line) :=
  ShareService.mkState (RS:=map_store NetworkShare) ∅ ∅ ∅ [] [].
Definition demo_created := ShareService.create (RS:=map_store NetworkShare) true demo_exec
  "/var/lib/daygleve/mounts" demo_request "5f0c" "2026-01-01T00:00:00Z" demo_shares.
Theorem share_mounts_read_only_witness :
  trace (λ h, h) demo_created.1 =
    [(lit "mount", lits ["-t"; "cifs"; "-o";
       "ro,credentials=/var/lib/daygleve/mounts/5f0c.cred,file_mode=0444,dir_mode=0555,vers=3.0";
       "//nas/isos"; "/var/lib/daygleve/mounts/5f0c"])] ∧
  ∃ tr, trace (λ h, h) demo_created.1 = trace (λ h, h) demo_shares ++ tr ∧
    Forall (read_only_mount "/var/lib/daygleve/mounts" demo_request "5f0c") tr.
Proof.
  split; [by vm_compute|].
  apply (share_mounts_read_only (RS:=map_store NetworkShare) true demo_exec "/var/lib/daygleve/mounts"
    (λ h, h) (λ p a h, eq_refl) demo_request "5f0c" "2026-01-01T00:00:00Z" demo_shares demo_created.1 demo_created.2);
    [vm_compute; set_solver|vm_compute; set_solver|apply surjective_pairing].
Defined.

Theorem share_create_outcomes_witness :
  let id := lit "5f0c" in let dir := lit "/var/lib/daygleve/mounts" in
  is_ok demo_created.2 = true ∧
  ((∃ e, validate_share demo_request = Err e ∧ demo_created.2 = Err e ∧ demo_created.1 = demo_shares) ∨
  ((∀ k, kept demo_created.1 k = kept demo_shares k) ∧
    ShareService.dirs demo_created.1 = ShareService.dirs demo_shares ∪ {[ path_join dir id ]} ∧
    ∃ e, demo_created.2 = Err e ∧ code e = Validation) ∨
  ((∀ k, kept demo_created.1 k = kept demo_shares k) ∧
    ShareService.dirs demo_created.1 = ShareService.dirs demo_shares ∧
    ShareService.creds demo_created.1 = ShareService.creds demo_shares ∧
    ∃ m, demo_created.2 = Err (hypervisor ("failed to mount share: " ++ m))) ∨
  (ShareService.dirs demo_created.1 = ShareService.dirs demo_shares ∪ {[ path_join dir id ]} ∧
    holds_secret demo_request (ShareService.cred_path dir id) demo_shares demo_created.1 ∧
    (∀ k, k ≠ ShareService.cred_path dir id →
      ShareService.creds demo_created.1 !! k = ShareService.creds demo_shares !! k) ∧
    match demo_created.2 with
    | Ok share => ns_id share = id ∧ ns_mount_point share = path_join dir id ∧ ns_read_only share = true ∧
        ∀ k, kept demo_created.1 k = if decide (k = id) then Some share else kept demo_shares k
    | Err _ => ∀ k, kept demo_created.1 k = kept demo_shares k
    end)).
Proof.
  cbv zeta. split; [by vm_compute|].
  apply (share_create_outcomes (RS:=map_store NetworkShare) true demo_exec "/var/lib/daygleve/mounts"
    demo_request "5f0c" "2026-01-01T00:00:00Z" demo_shares demo_created.1 demo_created.2);
    [done|done|done|apply surjective_pairing].
Defined.
