(* ===== verification/Network.v ===== *)
(** * Bridges and VLANs (src/src/services/network.rs)

    Bridges and VLANs live on the host ([ip], [bridge]); a sidecar record of each
    remembers what was asked for.  The JSON that iproute2 prints is read by a
    parameter, [serde_json]. *)

From S2P Require Export Host.

(** [serde_json::Value]; of numbers only the integers are looked at. *)
Inductive Json :=
  | JNull | JBool (b : bool) | JInt (z : Z) | JFloat | JString (s : str)
  | JArray (l : list Json) | JObject (fields : list (str * Json)).

Definition as_str (j : Json) : option str := match j with JString s => Some s | _ => None end.
Definition as_array (j : Json) : option (list Json) := match j with JArray l => Some l | _ => None end.
Definition as_i64 (j : Json) : option Z :=
  match j with
  | JInt z => if ((- 2 ^ 63 <=? z) && (z <? 2 ^ 63))%Z then Some z else None
  | _ => None end.
Definition as_u64 (j : Json) : option N :=
  match j with
  | JInt z => if ((0 <=? z) && (z <? 2 ^ 64))%Z then Some (Z.to_N z) else None
  | _ => None end.
(** [value.get(key)] and [value[key]]. *)
Definition json_get (key : str) (j : Json) : option Json :=
  match j with
  | JObject fields => snd <$> List.find (λ f, fst f =s? key) fields
  | _ => None end.
Definition json_index (j : Json) (key : str) : Json := default JNull (json_get key j).

Inductive LinkState := LinkUp | LinkDown | LinkUnknown.
#[export] Instance LinkState_eq_dec : EqDecision LinkState.
Proof. solve_decision. Defined.
Record Bridge := mkBridge {
  br_id : str; br_name : str; br_state : LinkState; br_ports : list str; br_vlan_aware : bool;
  br_address : option str; br_mtu : N; br_created_at : str }.
Record Vlan := mkVlan { vl_id : str; vl_bridge : str; vl_tag : N; vl_name : option str }.
Record CreateBridgeRequest := mkCreateBridge {
  cb_name : str; cb_ports : list str; cb_vlan_aware : bool; cb_address : option str;
  cb_mtu : option N }.
Record CreateVlanRequest := mkCreateVlan { cv_bridge : str; cv_tag : N; cv_name : option str }.

Definition link_state (operstate : str) : LinkState :=
  let s := to_ascii_uppercase operstate in
  if s =s? "UP" then LinkUp else if s =s? "DOWN" then LinkDown else LinkUnknown.

(** The checks of [create_bridge] before any change to the host. *)
Definition validate_bridge (req : CreateBridgeRequest) : ApiResult unit :=
  if is_empty (trim (cb_name req)) then Err (validation "bridge name must not be empty")
  else
    _ ← ensure_safe_id (cb_name req);
    for_each (λ port, _ ← ensure_safe_id port; Ok tt) (cb_ports req)
    ;? (match cb_address req with
        | Some address => _ ← ensure_safe_cidr address "bridge.address"; Ok tt
        | None => Ok tt end)
    ;? match cb_mtu req with
       | Some mtu => if negb ((576 <=? mtu) && (mtu <=? 65535))%N then
                       Err (validation "bridge MTU must be in 576..=65535") else Ok tt
       | None => Ok tt
       end.

(** ** The commands *)

Definition add_args (name : str) (vlan_aware : bool) : list str :=
  [lit "link"; lit "add"; lit "name"; name; lit "type"; lit "bridge"]
  ++ if vlan_aware then [lit "vlan_filtering"; lit "1"] else [].
Definition del_args (name : str) : list str := [lit "link"; lit "del"; lit "dev"; name].
Definition vlan_args (action : string) (tag : N) (bridge : str) : list str :=
  [lit "vlan"; lit action; lit "vid"; dec tag; lit "dev"; bridge; lit "self"].

Module NetworkService.
Section service.
Context `{RB : RecordStore Bridge} `{RV : RecordStore Vlan} {H : Type}.
Context (broker : bool) (exec : str → list str → Svc H (option str)).
(** [serde_json::from_str] at [Vec<Value>]. *)
Context (from_str : str → result str (list Json)).

Record state := mkState {
  bridges : rstate (RecordStore:=RB); vlans : rstate (RecordStore:=RV); host : H }.
#[global] Instance network_host : HasHost state H.
Proof. refine {| host_of := host; set_host h s := mkState (bridges s) (vlans s) h |}. done. Defined.

Definition on_bridges {A} (m : Svc _ A) : Svc state A := λ s,
  let '(x, r) := m (bridges s) in (mkState x (vlans s) (host s), r).
Definition on_vlans {A} (m : Svc _ A) : Svc state A := λ s,
  let '(x, r) := m (vlans s) in (mkState (bridges s) x (host s), r).

Local Abbreviation run_ok := (host_run_ok (S:=state) broker exec).
Local Abbreviation run_optional := (host_run_optional (S:=state) broker exec).

Definition parse (what json : str) : ApiResult (list Json) :=
  map_err (λ e, internal ("parse `" ++ what ++ "`: " ++ e)) (from_str (trim json)).

(** ** Reading the host *)

Definition bridge_ports (bridge : str) : Svc state (list str) :=
  out ← run_optional "ip" [lit "-j"; lit "link"; lit "show"; lit "master"; bridge];
  match out with
  | None => mret []
  | Some json =>
      links ← lift (parse "ip -j link show master" json);
      mret (omap (λ l, as_str (json_index l "ifname")) links)
  end.

Definition inet_address (a : Json) : option str :=
  match as_str (json_index a "family") with
  | Some family =>
      if family =s? "inet" then
        local ← as_str (json_index a "local");
        prefix ← as_u64 (json_index a "prefixlen");
        Some (local ++ "/" ++ dec prefix)
      else None
  | None => None
  end.
(** The first result of a list. *)
Definition first_some {A B} (f : A → option B) (l : list A) : option B := head (omap f l).
Definition bridge_address (bridge : str) : Svc state (option str) :=
  out ← run_optional "ip" [lit "-j"; lit "addr"; lit "show"; lit "dev"; bridge];
  match out with
  | None => mret None
  | Some json =>
      entries ← lift (parse "ip -j addr show" json);
      mret (first_some (λ entry, addrs ← as_array (json_index entry "addr_info");
                                 first_some inet_address addrs) entries)
  end.

(** The records by name; of two records with one name the later counts. *)
Definition by_name (stored : list Bridge) : gmap str Bridge :=
  foldl (λ m b, <[br_name b := b]> m) ∅ stored.

Definition vlan_filtering (link : Json) (recorded : option Bridge) : bool :=
  let live := info ← json_get "linkinfo" link; data ← json_get "info_data" info;
              v ← json_get "vlan_filtering" data; as_i64 v in
  match live with
  | Some v => negb (v =? 0)%Z
  | None => match recorded with Some b => br_vlan_aware b | None => false end
  end.

Definition bridge_of (meta : gmap str Bridge) (link : Json) (name : str) : Svc state Bridge :=
  let recorded := meta !! name in
  ports ← bridge_ports name;
  address ← bridge_address name;
  mret (mkBridge name name (link_state (default (lit "UNKNOWN") (as_str (json_index link "operstate"))))
    ports (vlan_filtering link recorded) address
    (default 1500 (as_u64 (json_index link "mtu")) mod 2 ^ 32)%N
    (match recorded with Some b => br_created_at b | None => [] end)).

Fixpoint live_bridges (meta : gmap str Bridge) (links : list Json) : Svc state (list Bridge) :=
  match links with
  | [] => mret []
  | link :: links =>
      let name := default [] (as_str (json_index link "ifname")) in
      if is_empty name then live_bridges meta links
      else
        b ← bridge_of meta link name;
        out ← live_bridges meta links;
        mret (b :: out)
  end.

Definition list_bridges : Svc state (list Bridge) :=
  stored ← on_bridges store_list;
  let meta := by_name stored in
  out ← run_optional "ip" (lits ["-d"; "-j"; "link"; "show"; "type"; "bridge"]);
  match out with
  | None => mret (map_to_list meta).*2
  | Some json => links ← lift (parse "ip -j" json); live_bridges meta links
  end.

Definition list_vlans : Svc state (list Vlan) := on_vlans store_list.

(** ** Changing the host *)

Definition configure_port (bridge port : str) : Svc state unit :=
  _ ← run_ok "ip" [lit "link"; lit "set"; lit "dev"; port; lit "master"; bridge];
  run_ok "ip" [lit "link"; lit "set"; lit "dev"; port; lit "up"].
Definition configure_bridge (req : CreateBridgeRequest) : Svc state unit :=
  _ ← each (configure_port (cb_name req)) (cb_ports req);
  _ ← (match cb_mtu req with
       | Some mtu => run_ok "ip" [lit "link"; lit "set"; lit "dev"; cb_name req; lit "mtu"; dec mtu]
       | None => mret tt end);
  _ ← (match cb_address req with
       | Some addr => run_ok "ip" [lit "addr"; lit "add"; addr; lit "dev"; cb_name req]
       | None => mret tt end);
  run_ok "ip" [lit "link"; lit "set"; lit "dev"; cb_name req; lit "up"].

Definition delete_link (name : str) : Svc state unit := ignore (run_optional "ip" (del_args name)).

Definition create_bridge (req : CreateBridgeRequest) (now : str) : Svc state Bridge :=
  _ ← lift (validate_bridge req);
  _ ← run_ok "ip" (add_args (cb_name req) (cb_vlan_aware req));
  _ ← on_error (configure_bridge req) (delete_link (cb_name req));
  let bridge := mkBridge (cb_name req) (cb_name req) LinkUp (cb_ports req) (cb_vlan_aware req)
    (cb_address req) (default 1500%N (cb_mtu req)) now in
  _ ← on_error (on_bridges (store_put (br_name bridge) bridge)) (delete_link (br_name bridge));
  mret bridge.

Definition repair_missing_from_host (name : str) : Svc state unit :=
  found ← on_bridges (store_get name);
  bridge ← lift (ok_or (not_found "bridge record not found") found);
  _ ← lift (ensure_safe_id (br_name bridge));
  _ ← run_ok "ip" (add_args (br_name bridge) false);
  let req := mkCreateBridge (br_name bridge) (br_ports bridge) (br_vlan_aware bridge)
    (br_address bridge) (Some (br_mtu bridge)) in
  on_error (configure_bridge req) (delete_link (br_name bridge)).

Definition create_vlan (req : CreateVlanRequest) (new_id : str) : Svc state Vlan :=
  if negb ((1 <=? cv_tag req) && (cv_tag req <=? 4094))%N then
    fail (validation "vlan tag must be in 1..=4094")
  else
    _ ← lift (ensure_safe_id (cv_bridge req));
    _ ← run_ok "bridge" (vlan_args "add" (cv_tag req) (cv_bridge req));
    let vlan := mkVlan new_id (cv_bridge req) (cv_tag req) (cv_name req) in
    _ ← on_error (on_vlans (store_put (vl_id vlan) vlan))
          (ignore (run_optional "bridge" (vlan_args "del" (cv_tag req) (vl_bridge vlan))));
    mret vlan.

(** ** Reconciliation *)

Definition vlan_exists_on_host (vlan : Vlan) : Svc state (option bool) :=
  out ← run_optional "bridge" [lit "vlan"; lit "show"; lit "dev"; vl_bridge vlan];
  mret (match out with
        | Some out => Some (existsb (λ line, contains (lit "vid " ++ dec (vl_tag vlan)) line) (lines out))
        | None => None
        end).

Fixpoint missing_vlans (vlans : list Vlan) : Svc state (list str) :=
  match vlans with
  | [] => mret []
  | vlan :: vlans =>
      found ← attempt (vlan_exists_on_host vlan);
      rest ← missing_vlans vlans;
      mret (match found with
            | Ok (Some false) => (lit "vlan:" ++ vl_id vlan) :: rest
            | _ => rest
            end)
  end.

Definition reconcile_with_host : Svc state (list str * list str) :=
  stored_bridges ← on_bridges store_list;
  live ← list_bridges;
  let missing_in_host := List.filter (λ n, negb (existsb (λ b, br_name b =s? n) live))
                           (map br_name stored_bridges) in
  let missing_in_store := List.filter (λ n, negb (existsb (λ b, br_name b =s? n) stored_bridges))
                            (map br_name live) in
  stored_vlans ← on_vlans store_list;
  vlans ← missing_vlans stored_vlans;
  mret (missing_in_host ++ vlans, missing_in_store).

Definition adopt_bridge (name : str) : Svc state Bridge :=
  _ ← lift (ensure_safe_id name);
  live ← list_bridges;
  bridge ← lift (ok_or (not_found "bridge no longer exists on the host")
                   (List.find (λ b, br_name b =s? name) live));
  _ ← on_bridges (store_put (br_id bridge) bridge);
  mret bridge.

Definition repair_vlan_from_host (id : str) : Svc state unit :=
  found ← on_vlans (store_get id);
  vlan ← lift (ok_or (not_found "VLAN record not found") found);
  _ ← lift (ensure_safe_id (vl_bridge vlan));
  run_ok "bridge" (vlan_args "add" (vl_tag vlan) (vl_bridge vlan)).
End service.
End NetworkService.

(** * Bridges: created completely or not at all *)

(** The commands that configure a new bridge. *)
Definition configure_commands (req : CreateBridgeRequest) : list command_line :=
  flat_map (λ port, [(lit "ip", [lit "link"; lit "set"; lit "dev"; port; lit "master"; cb_name req]);
                     (lit "ip", [lit "link"; lit "set"; lit "dev"; port; lit "up"])]) (cb_ports req)
  ++ option_list ((λ mtu, (lit "ip", [lit "link"; lit "set"; lit "dev"; cb_name req; lit "mtu"; dec mtu])) <$> cb_mtu req)
  ++ option_list ((λ addr, (lit "ip", [lit "addr"; lit "add"; addr; lit "dev"; cb_name req])) <$> cb_address req)
  ++ [(lit "ip", [lit "link"; lit "set"; lit "dev"; cb_name req; lit "up"])].

(** What the broker lets through when it creates a link it lets through when the
    link is deleted. *)
Lemma del_accepted name v :
  validate_exec "ip" (add_args name v) = Ok tt → validate_exec "ip" (del_args name) = Ok tt.
Proof.
  unfold validate_exec. change (program_path "ip") with (Some (lit "/usr/sbin/ip")). cbv iota.
  intros (_ & ([] & Ha & Hs)%bind_ok)%if_err_ok.
  change (256 <? length (del_args name))%nat with false. cbv iota.
  apply for_each_ok in Ha. assert (validate_exec_arg name = Ok tt) as Hn.
  { apply (proj1 (Forall_forall _ _) Ha). unfold add_args. set_solver. }
  assert (for_each validate_exec_arg (del_args name) = Ok tt) as ->.
  { apply for_each_ok. unfold del_args. repeat constructor; done. }
  simpl. unfold validate_exec_shape in *.
  apply if_err_ok in Hs as [_ Hs]. change (shape_allowed "ip" (del_args name)) with true. simpl.
  unfold validate_exec_args in *.
  change (validate_network_args (add_args name v) = Ok tt) in Hs.
  change (validate_network_args (del_args name) = Ok tt).
  unfold validate_network_args in *. apply for_each_ok in Hs. apply for_each_ok.
  assert (name ∈ add_args name v) as Hin by (unfold add_args; set_solver).
  apply (proj1 (Forall_forall _ _) Hs) in Hin. unfold del_args. repeat constructor; done.
Qed.

Section network.
Context `{RB : RecordStore Bridge} `{RV : RecordStore Vlan} {H : Type}.
Context (broker : bool) (exec : str → list str → Svc H (option str)).
Context (log : H → list command_line) (exec_log : ∀ p a h, log (exec p a h).1 = log h ++ [(p, a)]).
Abbreviation state := (NetworkService.state (RB:=RB) (RV:=RV) (H:=H)).
Abbreviation trace := (trace (S:=state) log).
Implicit Types (s : state).

(** The records. *)
Definition same_records s s' : Prop :=
  NetworkService.bridges s' = NetworkService.bridges s ∧ NetworkService.vlans s' = NetworkService.vlans s.

Definition accepted (c : command_line) : Prop := broker = true → validate_exec c.1 c.2 = Ok tt.

(** A command is refused and nothing happens, or it is accepted and executed. *)
Lemma run_ok_cases p a s s' r : host_run_ok broker exec p a s = (s', r) →
  same_records s s' ∧
  (s' = s ∧ is_ok r = false ∨
   accepted (p, a) ∧ trace s' = trace s ++ [(p, a)] ∧
   (r = Ok tt ↔ ∃ out, (exec p a (NetworkService.host s)).2 = Ok (Some out))).
Proof.
  unfold host_run_ok, at_host, Command.run_ok, Command.run, Command.dispatch, accepted, mbind, svc_bind, lift,
    Host.trace, same_records. cbn [host_of set_host NetworkService.network_host].
  pose proof (exec_log p a (NetworkService.host s)) as He.
  destruct (Command.validate_program p); [|intros [= <- <-]; split; [done|left; by destruct s]].
  destruct broker; [destruct (validate_exec p a) as [[]|] eqn:Hv|]; simpl;
    [| intros [= <- <-]; split; [done|left; by destruct s]|];
    destruct (exec p a _) as [h [[o|]|err]]; simpl in *; intros [= <- <-]; simpl;
    (split; [done|]); right; (split; [done|]); (split; [done|]); naive_solver.
Qed.
Lemma delete_link_runs name v s s' r : accepted (lit "ip", add_args name v) →
  NetworkService.delete_link broker exec name s = (s', r) →
  r = Ok tt ∧ same_records s s' ∧ trace s' = trace s ++ [(lit "ip", del_args name)].
Proof.
  intros Ha. unfold NetworkService.delete_link, ignore, host_run_optional, at_host, Command.run_optional,
    Command.dispatch, mbind, svc_bind, lift, Host.trace, same_records. cbn [host_of set_host NetworkService.network_host].
  pose proof (exec_log "ip" (del_args name) (NetworkService.host s)) as He.
  change (Command.validate_program "ip") with (Ok (A:=str) (E:=AppError) (lit "/usr/sbin/ip")). cbv iota.
  assert (broker = true → validate_exec "ip" (del_args name) = Ok tt) as Hd.
  { intros Hb. by eapply del_accepted, Ha. }
  destruct broker; [rewrite Hd by done|]; simpl; destruct (exec _ _ _) as [h o]; simpl in *;
    by intros [= <- <-].
Qed.

(** Running the commands of a list one after the other. *)
Definition runs_prefix (cmds : list command_line) s s' (r : ApiResult unit) : Prop :=
  same_records s s' ∧ ∃ tr, trace s' = trace s ++ tr ∧ tr `prefix_of` cmds ∧ (r = Ok tt → tr = cmds).
Lemma runs_nil s : runs_prefix [] s s (Ok tt).
Proof. split; [done|]. exists []. rewrite app_nil_r. by split_and!. Qed.
Lemma runs_one p a s s' r : host_run_ok broker exec p a s = (s', r) → runs_prefix [(p, a)] s s' r.
Proof.
  intros [Hs [[-> Hr]|(_ & Ht & _)]]%run_ok_cases; (split; [done|]).
  - exists []. rewrite app_nil_r. split_and!; [done|apply prefix_nil|]. by intros ->.
  - exists [(p, a)]. by split_and!.
Qed.
Lemma runs_bind cs1 cs2 (m : Svc state unit) (f : unit → Svc state unit) :
  (∀ s s' r, m s = (s', r) → runs_prefix cs1 s s' r) →
  (∀ s s' r, f tt s = (s', r) → runs_prefix cs2 s s' r) →
  ∀ s s' r, (m ≫= f) s = (s', r) → runs_prefix (cs1 ++ cs2) s s' r.
Proof.
  intros Hm Hf s s' r. unfold mbind, svc_bind. destruct (m s) as [s1 [[]|e]] eqn:E1.
  - intros E2. destruct (Hm _ _ _ E1) as [[Hb1 Hv1] (t1 & T1 & _ & F1)].
    destruct (Hf _ _ _ E2) as [[Hb2 Hv2] (t2 & T2 & P2 & F2)]. rewrite (F1 eq_refl) in T1.
    split; [split; congruence|]. exists (cs1 ++ t2). rewrite T2, T1, <- app_assoc.
    split_and!; [done|by apply prefix_app|]. by intros ->%F2.
  - intros [= <- <-]. destruct (Hm _ _ _ E1) as [Hs (t1 & T1 & P1 & _)]. split; [done|].
    exists t1. split_and!; [done|by apply prefix_app_r|done].
Qed.
Lemma runs_each {A} (f : A → Svc state unit) (c : A → list command_line) l :
  (∀ x s s' r, f x s = (s', r) → runs_prefix (c x) s s' r) →
  ∀ s s' r, each f l s = (s', r) → runs_prefix (flat_map c l) s s' r.
Proof.
  intros Hf. induction l as [|x l IH]; intros s s' r; simpl.
  - intros [= <- <-]. apply runs_nil.
  - apply runs_bind; [apply Hf|exact IH].
Qed.
Lemma runs_option (c : option command_line) (m : Svc state unit) :
  match c with Some c => m = host_run_ok broker exec c.1 c.2 | None => m = mret tt end →
  ∀ s s' r, m s = (s', r) → runs_prefix (option_list c) s s' r.
Proof.
  intros Hm s s' r. destruct c as [[p a]|]; subst m; [apply runs_one|]. intros [= <- <-]. apply runs_nil.
Qed.

Lemma configure_runs req s s' r : NetworkService.configure_bridge broker exec req s = (s', r) →
  runs_prefix (configure_commands req) s s' r.
Proof.
  unfold configure_commands, NetworkService.configure_bridge. revert s s' r.
  apply runs_bind; [apply runs_each; intros port; apply (runs_bind [_] [_]); apply runs_one|].
  apply runs_bind; [|apply runs_bind; [|apply runs_one]]; apply runs_option;
    [by destruct (cb_mtu req)|by destruct (cb_address req)].
Qed.

Lemma on_bridges_keeps {A} (m : Svc _ A) s s' r : NetworkService.on_bridges m s = (s', r) →
  trace s' = trace s ∧ NetworkService.vlans s' = NetworkService.vlans s ∧
  m (NetworkService.bridges s) = (NetworkService.bridges s', r).
Proof. unfold NetworkService.on_bridges. destruct (m _) as [x y] eqn:E. by intros [= <- <-]. Qed.

(** The bridge a request asks for. *)
Definition bridge_asked (req : CreateBridgeRequest) (now : str) : Bridge :=
  mkBridge (cb_name req) (cb_name req) LinkUp (cb_ports req) (cb_vlan_aware req)
    (cb_address req) (default 1500%N (cb_mtu req)) now.

(** C37: Creating a bridge either runs the creation and every configuration command
    and stores the record, or stores nothing: then nothing ran, or the creation itself
    failed, or the link was deleted again after what was configured of it. *)
Theorem bridge_all_or_nothing req now s s' r :
  NetworkService.create_bridge broker exec req now s = (s', r) →
  let add := (lit "ip", add_args (cb_name req) (cb_vlan_aware req)) in
  let del := (lit "ip", del_args (cb_name req)) in
  NetworkService.vlans s' = NetworkService.vlans s ∧
  ∃ tr, trace s' = trace s ++ tr ∧
  match r with
  | Ok bridge =>
      bridge = bridge_asked req now ∧ tr = add :: configure_commands req ∧
      ∀ k, record (NetworkService.bridges s') k =
        if decide (k = cb_name req) then Some bridge else record (NetworkService.bridges s) k
  | Err _ =>
      (∀ k, record (NetworkService.bridges s') k = record (NetworkService.bridges s) k) ∧
      (tr = [] ∨ (tr = [add] ∧ ¬ ∃ out, (exec add.1 add.2 (NetworkService.host s)).2 = Ok (Some out)) ∨
       ∃ mid, mid `prefix_of` configure_commands req ∧ tr = add :: mid ++ [del])
  end.
Proof.
  cbv zeta. unfold NetworkService.create_bridge. unfold mbind at 1, svc_bind at 1, lift.
  destruct (validate_bridge req) as [[]|e].
  2: { intros [= <- <-]. split; [done|]. exists []. rewrite app_nil_r. auto. }
  unfold mbind at 1, svc_bind at 1. destruct (host_run_ok broker exec _ _ s) as [s1 [[]|e]] eqn:E1;
    apply run_ok_cases in E1 as [[Hb1 Hv1] [[-> Hr]|(Hacc & T1 & Hr)]]; [done| | |].
  2: { intros [= <- <-]. split; [done|]. exists []. rewrite app_nil_r. auto. }
  2: { intros [= <- <-]. split; [done|]. rewrite Hb1. eexists. split; [exact T1|]. split; [done|].
       right; left. split; [done|]. intros Ho. by apply Hr in Ho. }
  unfold mbind at 1, svc_bind at 1, on_error at 1.
  destruct (NetworkService.configure_bridge _ _ _ s1) as [s2 [[]|e]] eqn:E2;
    apply configure_runs in E2 as [[Hb2 Hv2] (tr & T2 & P2 & F2)].
  2: { destruct (NetworkService.delete_link _ _ _ s2) as [s3 r3] eqn:E3.
    apply (delete_link_runs _ _ _ _ _ Hacc) in E3 as (_ & [Hb3 Hv3] & T3). intros [= <- <-]. simpl.
    split; [congruence|]. rewrite Hb3, Hb2, Hb1. exists ((lit "ip", add_args (cb_name req) (cb_vlan_aware req)) :: tr ++ [(lit "ip", del_args (cb_name req))]).
    rewrite T3, T2, T1, <- !app_assoc. split; [done|]. split; [done|]. right; right. by exists tr. }
  rewrite (F2 eq_refl) in T2. cbv zeta. unfold mbind, svc_bind, on_error.
  destruct (NetworkService.on_bridges _ s2) as [s3 [[]|e]] eqn:E3;
    apply on_bridges_keeps in E3 as (T3 & Hv3 & Hp); rewrite Hb2, Hb1 in Hp.
  - intros [= <- <-]. split; [congruence|]. eexists. rewrite T3, T2, T1, <- app_assoc. split; [done|].
    split; [done|]. split; [done|]. by apply put_ok.
  - destruct (NetworkService.delete_link _ _ _ s3) as [s4 r4] eqn:E4.
    apply (delete_link_runs _ _ _ _ _ Hacc) in E4 as (_ & [Hb4 Hv4] & T4). intros [= <- <-].
    cbn [fst]. split; [congruence|]. rewrite Hb4.
    eexists (_ :: configure_commands req ++ [_]). rewrite T4, T3, T2, T1, <- !app_assoc. split; [done|].
    split; [by eapply put_err|]. right; right. by exists (configure_commands req).
Qed.
End network.

(** ** An MTU that the host refuses *)

Definition demo_bridge : CreateBridgeRequest := mkCreateBridge "br1" [lit "eth1"] true None (Some 9000%N).
Definition demo_exec (p : str) (a : list str) : Svc (list command_line) (option str) :=
  λ h, (h ++ [(p, a)], if existsb (λ x, x =s? "mtu") a
                       then Err (hypervisor "no") else Ok (Some [])).
Definition demo_net : NetworkService.state (RB:=map_store Bridge) (RV:=map_store Vlan) (H:=list command_line) :=
  NetworkService.mkState (RB:=map_store Bridge) (RV:=map_store Vlan) ∅ ∅ [].
Definition demo_run := NetworkService.create_bridge (RB:=map_store Bridge) (RV:=map_store Vlan)
  true demo_exec demo_bridge "now" demo_net.
Theorem bridge_all_or_nothing_witness :
  is_ok demo_run.2 = false ∧ trace (λ h, h) demo_run.1 = map (λ a, (lit "ip", lits a))
    [["link"; "add"; "name"; "br1"; "type"; "bridge"; "vlan_filtering"; "1"];
     ["link"; "set"; "dev"; "eth1"; "master"; "br1"]; ["link"; "set"; "dev"; "eth1"; "up"];
     ["link"; "set"; "dev"; "br1"; "mtu"; "9000"]; ["link"; "del"; "dev"; "br1"]] ∧
  NetworkService.vlans demo_run.1 = NetworkService.vlans demo_net.
Proof.
  split; [by vm_compute|]. split; [by vm_compute|].
  apply (bridge_all_or_nothing (RB:=map_store Bridge) (RV:=map_store Vlan) true demo_exec (λ h, h)
    (λ p a h, eq_refl) demo_bridge "now" demo_net demo_run.1 demo_run.2). apply surjective_pairing.
Defined.
