(* ===== verification/Inventory.v ===== *)
(** * Host devices (src/src/services/gpu.rs, pci.rs, usb.rs)

    The inventories are read from sysfs, and a device is given to a guest by
    binding every function of its IOMMU group to [vfio-pci].  Sysfs is a parameter:
    the entries of a directory, the text of an attribute and the name a link points
    to, each as the host has it at the moment. *)

From S2P Require Export Host.

Record GpuDevice := mkGpu {
  gd_pci_address : str; gd_vendor : str; gd_model : str; gd_pci_id : str; gd_iommu_group : N;
  gd_available : bool; gd_assigned_to : option str }.
Record PciDevice := mkPci {
  pd_pci_address : str; pd_pci_id : str; pd_vendor : str; pd_class : str; pd_iommu_group : N;
  pd_available : bool }.
Record UsbDevice := mkUsb { ud_vendor_id : str; ud_product_id : str; ud_description : str }.

Definition vendor_name (vendor_id : str) : str :=
  let id := to_ascii_lowercase (trim vendor_id) in
  if id =s? "0x10de" then "NVIDIA" else if id =s? "0x1002" then "AMD"
  else if id =s? "0x8086" then "Intel" else id.

(** [trim_start_matches("0x")]: the prefix goes as often as it is there. *)
Fixpoint strip_0x (fuel : nat) (s : str) : str :=
  match fuel, strip_prefix "0x" s with
  | S fuel, Some s => strip_0x fuel s
  | _, _ => s
  end.
Definition short (id : str) : str := strip_0x (length id) id.

(** The category of the first two characters; the keys are ASCII, so that cutting
    after two bytes or after two characters is the same. *)
Definition CLASSES : list (string * string) :=
  [("00", "Unclassified"); ("01", "Storage"); ("02", "Network"); ("04", "Multimedia");
   ("05", "Memory"); ("07", "Communication"); ("08", "System peripheral"); ("09", "Input");
   ("0a", "Docking"); ("0b", "Processor"); ("0c", "Serial bus"); ("0d", "Wireless");
   ("0e", "Intelligent controller"); ("0f", "Satellite"); ("10", "Encryption");
   ("11", "Signal processing"); ("12", "Accelerator")].
Definition class_category (class : str) : str :=
  let base := short class in
  default (lit "Other") (BrokerArgs.assoc (take 2 base) CLASSES).

Module Sysfs.
Section sysfs.
Context {H : Type}.
(** [read_dir]: [None] when the directory cannot be opened; an entry may fail. *)
Context (read_dir : str → H → option (list (result str str)))
  (exists_ : str → H → bool)
  (read_to_string : str → H → option str)
  (read_link_name : str → H → option str).
(** [command::pci_write]. *)
Context (pci_write : PciWriteKind → str → Svc H unit).

Definition PCI_DEVICES : str := "/sys/bus/pci/devices".
Definition USB_DEVICES : str := "/sys/bus/usb/devices".

Definition read_trimmed (path : str) (h : H) : option str :=
  s ← read_to_string path h;
  if is_empty (trim s) then None else Some (trim s).
Definition current_driver (dir : str) (h : H) : option str := read_link_name (path_join dir "driver") h.
Definition read_iommu_group (dir : str) (h : H) : N :=
  default 0%N (n ← read_link_name (path_join dir "iommu_group") h; parse_uint U32_MAX n).
Definition iommu_group_for_address (address : str) (h : H) : N :=
  if is_ok (ensure_safe_pci_address address) then read_iommu_group (path_join PCI_DEVICES address) h
  else 0%N.

(** The entries of a directory up to one that cannot be read. *)
Fixpoint entries (dir : str) (l : list (result str str)) : ApiResult (list str) :=
  match l with
  | [] => Ok []
  | Err e :: _ => Err (internal ("read_dir " ++ dir ++ ": " ++ e))
  | Ok name :: l => names ← entries dir l; Ok (name :: names)
  end.

(** ** GPUs *)

Definition read_gpu (pci_address : str) (h : H) : option GpuDevice :=
  let dir := path_join PCI_DEVICES pci_address in
  if negb (is_ok (ensure_safe_pci_address pci_address)) then None
  else
    let vendor_id := default [] (read_trimmed (path_join dir "vendor") h) in
    let device_id := default [] (read_trimmed (path_join dir "device") h) in
    let driver := current_driver dir h in
    let pci_id := short vendor_id ++ ":" ++ short device_id in
    Some (mkGpu pci_address (vendor_name vendor_id)
            (default pci_id (read_trimmed (path_join dir "label") h)) pci_id
            (read_iommu_group dir h)
            (match driver with Some d => d =s? "vfio-pci" | None => true end) None).

Definition class_of (name : str) (h : H) : str :=
  default [] (read_trimmed (path_join (path_join PCI_DEVICES name) "class") h).

Definition list_gpus : Svc H (list GpuDevice) :=
  dir ← gets (read_dir PCI_DEVICES);
  match dir with
  | None => mret []
  | Some l =>
      names ← lift (entries PCI_DEVICES l);
      gets (λ h, omap (λ name, if starts_with "0x03" (class_of name h) then read_gpu name h else None) names)
  end.

Definition bind_one (force : bool) (addr : str) : Svc H unit :=
  current ← gets (current_driver (path_join PCI_DEVICES addr));
  let rebind :=
    _ ← pci_write Override addr;
    ignore (pci_write Bind addr) in
  match current with
  | Some driver =>
      if driver =s? "vfio-pci" then mret tt
      else if negb force then
        fail (conflict (addr ++ " is bound to host driver `" ++ driver ++ "`; retry with force to rebind"))
      else _ ← pci_write Unbind addr; rebind
  | None => rebind
  end.

Definition iommu_group_members (pci_address : str) : Svc H (list str) :=
  let devices := path_join (path_join (path_join PCI_DEVICES pci_address) "iommu_group") "devices" in
  dir ← gets (read_dir devices);
  match dir with
  | None => mret [pci_address]
  | Some l => lift (entries devices l)
  end.

Definition bind (pci_address : str) (force : bool) : Svc H GpuDevice :=
  _ ← lift (ensure_safe_pci_address pci_address);
  found ← gets (exists_ (path_join PCI_DEVICES pci_address));
  if negb found then fail (not_found ("PCI device " ++ pci_address ++ " not found"))
  else
    members ← iommu_group_members pci_address;
    _ ← each (λ addr, _ ← lift (ensure_safe_pci_address addr); bind_one force addr) members;
    dev ← gets (read_gpu pci_address);
    lift (ok_or (hypervisor ("device " ++ pci_address ++ " unreadable after bind")) dev).

(** ** Other PCI functions *)

Definition read_pci (pci_address class : str) (h : H) : option PciDevice :=
  let dir := path_join PCI_DEVICES pci_address in
  if negb (is_ok (ensure_safe_pci_address pci_address)) then None
  else
    let vendor_id := default [] (read_trimmed (path_join dir "vendor") h) in
    let device_id := default [] (read_trimmed (path_join dir "device") h) in
    Some (mkPci pci_address (short vendor_id ++ ":" ++ short device_id) (vendor_name vendor_id)
            (class_category class) (read_iommu_group dir h)
            (match current_driver dir h with Some d => d =s? "vfio-pci" | None => false end)).

Definition list_pci : Svc H (list PciDevice) :=
  dir ← gets (read_dir PCI_DEVICES);
  match dir with
  | None => mret []
  | Some l =>
      names ← lift (entries PCI_DEVICES l);
      gets (λ h, sort_by (λ a b, str_cmp (pd_pci_address a) (pd_pci_address b))
        (omap (λ name, let class := class_of name h in
               if starts_with "0x03" class || starts_with "0x06" class then None
               else read_pci name class h) names))
  end.

(** ** USB devices *)

Definition usb_description (vendor_id product_id manufacturer product : str) : str :=
  match is_empty (trim manufacturer), is_empty (trim product) with
  | true, true => vendor_id ++ ":" ++ product_id
  | true, false => trim product
  | false, true => trim manufacturer
  | false, false => trim manufacturer ++ " " ++ trim product
  end.

Fixpoint usb_devices (names : list str) (seen : list (str * str)) (h : H) : list UsbDevice :=
  match names with
  | [] => []
  | name :: names =>
      let dir := path_join USB_DEVICES name in
      match read_trimmed (path_join dir "idVendor") h, read_trimmed (path_join dir "idProduct") h with
      | Some vendor_id, Some product_id =>
          if negb (is_hex4 vendor_id) || negb (is_hex4 product_id) then usb_devices names seen h
          else if match read_trimmed (path_join dir "bDeviceClass") h with
                  | Some class => class =s? "09" | None => false end then usb_devices names seen h
          else if bool_decide ((vendor_id, product_id) ∈ seen) then usb_devices names seen h
          else
            let manufacturer := default [] (read_trimmed (path_join dir "manufacturer") h) in
            let product := default [] (read_trimmed (path_join dir "product") h) in
            mkUsb vendor_id product_id (usb_description vendor_id product_id manufacturer product)
            :: usb_devices names ((vendor_id, product_id) :: seen) h
      | _, _ => usb_devices names seen h
      end
  end.

Definition list_usb : Svc H (list UsbDevice) :=
  dir ← gets (read_dir USB_DEVICES);
  match dir with
  | None => mret []
  | Some l =>
      names ← lift (entries USB_DEVICES l);
      gets (λ h, sort_by (λ a b, str_cmp (ud_description a) (ud_description b)) (usb_devices names [] h))
  end.
End sysfs.
End Sysfs.

(** * Passing a device through: the whole group, nothing else, nothing by surprise *)

Section bind.
Context {H : Type}.
Context (read_dir : str → H → option (list (result str str))) (exists_ : str → H → bool)
  (read_to_string read_link_name : str → H → option str)
  (pci_write : PciWriteKind → str → Svc H unit).
(** The writes asked for so far, and a write changes the driver of its own function only. *)
Context (log : H → list (PciWriteKind * str))
  (write_log : ∀ k a h, log (pci_write k a h).1 = log h ++ [(k, a)]).
Abbreviation driver a h := (Sysfs.current_driver read_link_name (path_join Sysfs.PCI_DEVICES a) h).
Context (write_local : ∀ k a b h, ch "/" ∉ a → ch "/" ∉ b → b ≠ a →
  driver b (pci_write k a h).1 = driver b h).

(** The writes that bring one function to [vfio-pci]. *)
Definition writes_for (h : H) (a : str) : list (PciWriteKind * str) :=
  match driver a h with
  | Some d => if d =s? "vfio-pci" then [] else [(Unbind, a); (Override, a); (Bind, a)]
  | None => [(Override, a); (Bind, a)]
  end.
(** The host takes [h]'s functions other than [a] as they were. *)
Definition others_kept a h h' : Prop := ∀ b, ch "/" ∉ b → b ≠ a → driver b h' = driver b h.

(** A computation whose writes are a prefix of [plan], all of it on success, and
    include no [Unbind] unless [force]. *)
Definition follows (force : bool) (plan : list (PciWriteKind * str)) h h' (r : ApiResult unit) : Prop :=
  ∃ tr, log h' = log h ++ tr ∧ tr `prefix_of` plan ∧ (r = Ok tt → tr = plan) ∧
    (force = false → Forall (λ w, w.1 ≠ Unbind) tr).


Definition rebind (a : str) : Svc H unit := _ ← pci_write Override a; ignore (pci_write Bind a).
Lemma rebind_run a h h' r : ch "/" ∉ a → rebind a h = (h', r) →
  (∃ tr, log h' = log h ++ tr ∧ tr `prefix_of` [(Override, a); (Bind, a)] ∧
    (r = Ok tt → tr = [(Override, a); (Bind, a)])) ∧ others_kept a h h'.
Proof.
  intros Ha. unfold rebind, mbind, svc_bind, ignore, others_kept. pose proof (write_log Override a h) as L1.
  pose proof (λ b h, write_local Override a b h Ha) as K1.
  destruct (pci_write Override a h) as [h1 [[]|e]] eqn:E1; intros [= <- <-]; simpl in L1.
  - split; [|intros b Hb1 Hb; rewrite write_local by done; specialize (K1 b h Hb1 Hb); by rewrite E1 in K1].
    eexists. rewrite write_log, L1, <- app_assoc. by split_and!.
  - split; [|intros b Hb1 Hb; specialize (K1 b h Hb1 Hb); by rewrite E1 in K1].
    exists [(Override, a)]. split_and!; [done|by exists [(Bind, a)]|done].
Qed.
Lemma bind_one_follows force a h h' r : ch "/" ∉ a → Sysfs.bind_one read_link_name pci_write force a h = (h', r) →
  follows force (writes_for h a) h h' r ∧ others_kept a h h'.
Proof.
  intros Ha. unfold Sysfs.bind_one, gets. unfold mbind at 1, svc_bind at 1.
  change (_ ← pci_write Override a; ignore (pci_write Bind a)) with (rebind a). cbv zeta.
  unfold writes_for, follows. destruct (driver a h) as [d|].
  - destruct (d =s? "vfio-pci"); [|destruct force; simpl].
    + intros [= <- <-]. split; [exists []; rewrite app_nil_r; by split_and!|done].
    + unfold mbind, svc_bind. pose proof (write_log Unbind a h) as L1. pose proof (λ b h, write_local Unbind a b h Ha) as K1.
      destruct (pci_write Unbind a h) as [h1 [[]|e]] eqn:E1; simpl in L1.
      * intros [(tr & L2 & P2 & F2) K2]%rebind_run; [|done]. split.
        -- exists ((Unbind, a) :: tr). rewrite L2, L1, <- app_assoc. split_and!; [done|by apply prefix_cons| |done].
           by intros ->%F2.
        -- intros b Hb1 Hb. rewrite K2 by done. specialize (K1 b h Hb1 Hb). by rewrite E1 in K1.
      * intros [= <- <-]. split; [|intros b Hb1 Hb; specialize (K1 b h Hb1 Hb); by rewrite E1 in K1].
        exists [(Unbind, a)]. split_and!; [done|by eexists|done|done].
    + intros [= <- <-]. split; [|done]. exists []. rewrite app_nil_r. split_and!; [done|apply prefix_nil|done|done].
  - intros [(tr & L2 & P2 & F2) K2]%rebind_run; [|done]. split; [|done]. exists tr. split_and!; try done.
    intros _. destruct P2 as [k Hk]. assert (Forall (λ w, w.1 ≠ Unbind) [(Override, a); (Bind, a)]) as Hf
      by (repeat constructor; done). rewrite Hk in Hf. by apply Forall_app in Hf as [? _].
Qed.

(** Each function of a group in turn. *)
Definition bind_all (force : bool) (members : list str) : Svc H unit :=
  each (λ addr, _ ← lift (ensure_safe_pci_address addr);
                Sysfs.bind_one read_link_name pci_write force addr) members.
Lemma bind_all_follows force members h h' r : Forall (λ a, ch "/" ∉ a) members → NoDup members → bind_all force members h = (h', r) →
  follows force (flat_map (writes_for h) members) h h' r.
Proof.
  unfold bind_all. revert h. induction members as [|a l IH]; intros h Hn Hd; simpl.
  - intros [= <- <-]. exists []. rewrite app_nil_r. by split_and!.
  - apply NoDup_cons in Hd as [Ha Hd]. apply Forall_cons in Hn as [Hna Hn]. unfold mbind at 1, svc_bind at 1.
    unfold lift at 1. unfold mbind at 1, svc_bind at 1.
    destruct (ensure_safe_pci_address a) as [x|e].
    2: { intros [= <- <-]. exists []. rewrite app_nil_r. split_and!; [done|apply prefix_nil|done|done]. }
    destruct (Sysfs.bind_one _ _ _ _ h) as [h1 [[]|e]] eqn:E1;
      apply bind_one_follows in E1 as [(t1 & L1 & P1 & F1 & N1) K1]; try done.
    + intros (t2 & L2 & P2 & F2 & N2)%IH; [|done|done]. rewrite (F1 eq_refl) in L1, N1.
      assert (flat_map (writes_for h1) l = flat_map (writes_for h) l) as Hp.
      { rewrite !flat_map_concat_map. f_equal. apply map_ext_in. intros b Hb%list_elem_of_In.
        unfold writes_for. rewrite K1; [done| |by intros ->]. by apply (proj1 (Forall_forall _ _) Hn). }
      rewrite Hp in P2, F2. exists (writes_for h a ++ t2). rewrite L2, L1, <- app_assoc.
      split_and!; [done|by apply prefix_app|by intros ->%F2|]. intros Hf. apply Forall_app; auto.
    + intros [= <- <-]. exists t1. split_and!; [done|by apply prefix_app_r|done|done].
Qed.

(** The functions of the group of a device. *)
Definition group_of (pci_address : str) (h : H) (members : list str) : Prop :=
  Sysfs.iommu_group_members read_dir pci_address h = (h, Ok members).

(** C34: Binding a device asks for writes on the functions of its IOMMU group only, in
    order and each to bring a function to [vfio-pci] that is not there yet; a function is
    taken from its host driver only by force; and success means that all were asked for. *)
Theorem bind_writes_group pci_address force members h h' r :
  group_of pci_address h members → Forall (λ a, ch "/" ∉ a) members → NoDup members →
  Sysfs.bind read_dir exists_ read_to_string read_link_name pci_write pci_address force h = (h', r) →
  ∃ tr, log h' = log h ++ tr ∧ tr `prefix_of` flat_map (writes_for h) members ∧
    Forall (λ w, w.2 ∈ members) tr ∧
    (force = false → Forall (λ w, w.1 ≠ Unbind) tr) ∧
    (is_ok r = true → tr = flat_map (writes_for h) members).
Proof.
  intros Hg Hn Hd. unfold Sysfs.bind. unfold mbind at 1, svc_bind at 1. unfold lift at 1.
  assert (∀ tr, tr `prefix_of` flat_map (writes_for h) members → Forall (λ w, w.2 ∈ members) tr) as Hin.
  { intros tr [k Hk]. assert (Forall (λ w, w.2 ∈ members) (flat_map (writes_for h) members)) as Hf.
    { apply Forall_flat_map, Forall_forall. intros a Ha. unfold writes_for.
      destruct (driver a h) as [d|]; [destruct (d =s? _)|]; repeat constructor; done. }
    rewrite Hk in Hf. by apply Forall_app in Hf as [? _]. }
  destruct (ensure_safe_pci_address pci_address).
  2: { intros [= <- <-]. exists []. rewrite app_nil_r. split_and!; [done|apply prefix_nil|done|done|done]. }
  unfold mbind at 1, svc_bind at 1. unfold gets at 1. destruct (exists_ _ h); cbv beta iota delta [negb].
  2: { intros [= <- <-]. exists []. rewrite app_nil_r. split_and!; [done|apply prefix_nil|done|done|done]. }
  unfold mbind at 1, svc_bind at 1. unfold group_of in Hg. rewrite Hg.
  unfold mbind at 1, svc_bind at 1. fold (bind_all force members).
  destruct (bind_all force members h) as [h1 [[]|e]] eqn:E1;
    apply bind_all_follows in E1 as (tr & L1 & P1 & F1 & N1); try done.
  - unfold mbind, svc_bind, gets, lift. intros [= <- <-]. exists tr. split_and!; auto.
  - intros [= <- <-]. exists tr. split_and!; auto. done.
Qed.
End bind.

(** ** A card whose audio function is in use *)

Definition demo_gpu : str := "0000:01:00.0".
Definition demo_audio : str := "0000:01:00.1".
(** The drivers of the two functions, and the writes asked for. *)
Definition demo_host : Type := gmap str str * list (PciWriteKind * str).
Definition driver_path (a : str) : str := path_join (path_join Sysfs.PCI_DEVICES a) "driver".
Definition demo_write (k : PciWriteKind) (a : str) : Svc demo_host unit := λ '(d, w),
  ((match k with
    | Unbind => delete (driver_path a) d
    | Override => d
    | Bind => <[driver_path a := lit "vfio-pci"]> d
    end, w ++ [(k, a)]), Ok tt).
Definition demo_dirs (dir : str) (_ : demo_host) : option (list (result str str)) :=
  Some [Ok demo_gpu; Ok demo_audio].
Definition demo_start : demo_host := ({[ driver_path demo_audio := lit "snd_hda_intel" ]}, []).
Definition demo_bind (force : bool) := Sysfs.bind demo_dirs (λ _ _, true) (λ _ _, None)
  (λ p h, h.1 !! p) demo_write demo_gpu force demo_start.

Lemma driver_path_inj a b : ch "/" ∉ a → ch "/" ∉ b → driver_path a = driver_path b → a = b.
Proof.
  unfold driver_path. assert (∀ x, ch "/" ∉ x → path_join Sysfs.PCI_DEVICES x = Sysfs.PCI_DEVICES ++ "/" ++ x) as Hp.
  { intros x Hx. unfold path_join. destruct (starts_with "/" x) eqn:E; [|done].
    apply starts_with_spec in E as [y ->]. destruct Hx. left. }
  assert (∀ x, ch "/" ∉ x → path_join (Sysfs.PCI_DEVICES ++ "/" ++ x) "driver"
    = Sysfs.PCI_DEVICES ++ "/" ++ (if is_empty x then lit "driver" else x ++ "/driver")) as Hd.
  { intros x Hx. unfold path_join. change (starts_with "/" "driver") with false. cbv iota.
    destruct x as [|c x] using rev_ind; [done|]. clear IHx.
    assert (ends_with "/" (Sysfs.PCI_DEVICES ++ "/" ++ x ++ [c]) = false) as ->.
    { apply not_true_iff_false. intros [r Hr]%ends_with_spec. rewrite !app_assoc in Hr.
      apply app_inj_tail in Hr as [_ ->]. set_solver. }
    rewrite orb_false_r. assert (is_empty (x ++ [c]) = false) as -> by by destruct x. cbn [is_empty]. by rewrite <- !app_assoc. }
  intros Ha Hb. rewrite !Hp, !Hd by done. intros E. do 2 apply app_inv_head in E.
  destruct a as [|x a], b as [|y b]; cbn [is_empty] in E; [done|..].
  - exfalso. apply (f_equal length) in E. revert E. rewrite length_app.
    change (length (lit "driver")) with 6%nat. change (length (lit "/driver")) with 7%nat. lia.
  - exfalso. apply (f_equal length) in E. revert E. rewrite length_app.
    change (length (lit "driver")) with 6%nat. change (length (lit "/driver")) with 7%nat. lia.
  - by apply app_inv_tail in E.
Qed.
Lemma demo_local k a b (h : demo_host) : ch "/" ∉ a → ch "/" ∉ b → b ≠ a →
  (demo_write k a h).1.1 !! driver_path b = h.1 !! driver_path b.
Proof.
  intros Ha Hb Hne. destruct h as [d w]. destruct k; simpl; [|done|];
    [rewrite lookup_delete_ne|rewrite lookup_insert_ne]; try done; intros E; by apply driver_path_inj in E.
Qed.
Lemma demo_log k a (h : demo_host) : (demo_write k a h).1.2 = h.2 ++ [(k, a)].
Proof. by destruct h. Qed.

(** Without force the card itself is bound before the conflict with its audio
    function is found. *)
Theorem bind_writes_group_witness :
  is_ok (demo_bind false).2 = false ∧ (demo_bind false).1.2 = [(Override, demo_gpu); (Bind, demo_gpu)] ∧
  ∃ tr, (demo_bind false).1.2 = demo_start.2 ++ tr ∧
    tr `prefix_of` flat_map (writes_for (λ p h, h.1 !! p) demo_start) [demo_gpu; demo_audio].
Proof.
  split; [by vm_compute|]. split; [by vm_compute|].
  destruct (bind_writes_group demo_dirs (λ _ _, true) (λ _ _, None) (λ p h, h.1 !! p) demo_write snd
    demo_log demo_local demo_gpu false [demo_gpu; demo_audio] demo_start (demo_bind false).1 (demo_bind false).2)
    as (tr & H1 & H2 & _).
  - done.
  - repeat constructor; vm_compute; set_solver.
  - apply NoDup_cons. split; [|apply NoDup_singleton]. vm_compute. set_solver.
  - apply surjective_pairing.
  - by exists tr.
Defined.
