(* ===== verification/Api.v ===== *)
(** * The HTTP layer: handlers as programs over the services (src/src/api)

    A handler authenticates, authorizes, calls services and answers.  Here a
    handler is a finite tree whose nodes are the calls it makes: a call of a
    service, a body run as a journalled operation ([operations.run]) and a body
    handed to the operation worker ([operations.enqueue]).  The tree branches on
    every result a call may have, so a statement about all nodes of a tree is a
    statement about all runs of the handler. *)

From S2P Require Export Operations Kvm KvmSnapshots Lxc Zfs Library Backup Notification Alerts.
From S2P Require Export Tokens AuditLog Firewall Schedules Pools Shares Network Inventory Metrics Acme.

(** Types of the schema whose values the handlers only pass on. *)
Class Schema := { BrokerSplitInventory : Type }.

(** Requests that are not records of a service. *)
Record FetchDiskImageRequest := mkFetchReq { fr_url : str; fr_name : option str }.
Record ImportDiskImageRequest := mkImportReq {
  ir_image_name : str; ir_dataset : str; ir_size_gib : option N }.
Record ChangePasswordRequest := mkChange { cw_current : str; cw_new : str }.
Record CreateAclEntryRequest := mkAclReq {
  ar_path : str; ar_subject : str; ar_role : Role; ar_propagate : option bool }.
Record UpdateHostFirewallRequest := mkFwReq {
  uh_enabled : bool; uh_default_input_policy : FirewallPolicy; uh_rules : list HostFirewallRule }.

(** ** The calls of services *)

Inductive svc_call `{Schema} : Type → Type :=
  (* services/kvm.rs *)
  | KvmList : svc_call (ApiResult (list VmSummary))
  | KvmListIsos : svc_call (ApiResult (list IsoImage))
  | KvmCreate (req : CreateVmRequest) : svc_call (ApiResult VmData.Vm)
  | KvmGet (id : str) : svc_call (ApiResult VmData.Vm)
  | KvmUpdate (id : str) (req : UpdateVmRequest) : svc_call (ApiResult VmData.Vm)
  | KvmDelete (id : str) : svc_call (ApiResult unit)
  | KvmPower (id : str) (action : Kvm.VmPowerAction) : svc_call (ApiResult VmPowerResponse)
  | KvmClone (id : str) (req : CloneVmRequest) : svc_call (ApiResult VmData.Vm)
  | KvmGuestAgent (id : str) : svc_call (ApiResult GuestAgentInfo)
  | KvmListSnapshots (id : str) : svc_call (ApiResult (list VmSnapshot))
  | KvmCreateSnapshot (id : str) (req : CreateVmSnapshotRequest) : svc_call (ApiResult VmSnapshot)
  | KvmRollbackSnapshot (id name : str) : svc_call (ApiResult unit)
  | KvmDeleteSnapshot (id name : str) : svc_call (ApiResult unit)
  | KvmRestoreRam (id name : str) : svc_call (ApiResult VmData.Vm)
  | KvmResizeDisk (id : str) (index : nat) (req : ResizeVmDiskRequest) : svc_call (ApiResult VmData.Vm)
  | KvmAttachDisk (id : str) (disk : VmDisk) : svc_call (ApiResult VmData.Vm)
  | KvmDetachDisk (id : str) (index : nat) : svc_call (ApiResult VmData.Vm)
  | KvmMigrateDisk (id : str) (req : MigrateVmDiskRequest) : svc_call (ApiResult VmData.Vm)
  | KvmAttachUsb (id : str) (req : UsbAssignment) : svc_call (ApiResult VmData.Vm)
  | KvmDetachUsb (id vendor_id product_id : str) : svc_call (ApiResult VmData.Vm)
  | KvmAttachPci (id : str) (req : PciAssignment) : svc_call (ApiResult VmData.Vm)
  | KvmDetachPci (id pci_address : str) : svc_call (ApiResult VmData.Vm)
  | KvmIommuWarning (id pci_address : str) : svc_call (ApiResult (option str))
  | KvmConsole (id : str) : svc_call (ApiResult ConsoleTicket)
  | KvmSerialConsole (id : str) : svc_call (ApiResult ConsoleTicket)
  | KvmSpice (id : str) : svc_call (ApiResult str)
  | KvmRedeemTicket (id ticket : str) : svc_call (ApiResult ConsoleTarget)
  | KvmImportImage (source dataset : str) (size_gib : option N) : svc_call (ApiResult VmDisk)
  (* services/lxc.rs *)
  | LxcListAll : svc_call (ApiResult (list LxcSummary))
  | LxcCreate (req : CreateLxcRequest) : svc_call (ApiResult Lxc.Lxc)
  | LxcGet (id : str) : svc_call (ApiResult Lxc.Lxc)
  | LxcUpdate (id : str) (req : UpdateLxcRequest) : svc_call (ApiResult Lxc.Lxc)
  | LxcDelete (id : str) : svc_call (ApiResult unit)
  | LxcPowerCall (id : str) (action : Lxc.LxcPowerAction) : svc_call (ApiResult Lxc.Lxc)
  | LxcMigrateRootfs (id target : str) : svc_call (ApiResult Lxc.Lxc)
  | LxcListSnapshots (id : str) : svc_call (ApiResult (list LxcSnapshotRecord))
  | LxcSnapshotCall (id name : str) (description : option str) : svc_call (ApiResult LxcSnapshotRecord)
  | LxcRollbackSnapshot (id name : str) : svc_call (ApiResult unit)
  | LxcDeleteSnapshot (id name : str) : svc_call (ApiResult unit)
  | LxcConsole (id : str) : svc_call (ApiResult (str * str * str))
  | LxcRedeemTicket (id ticket : str) : svc_call (ApiResult str)
  (* services/zfs.rs and shares.rs *)
  | ZfsListPools : svc_call (ApiResult (list Pool))
  | ZfsCreatePool (req : Zfs.CreatePoolRequest) : svc_call (ApiResult Pool)
  | ZfsListDisks : svc_call (ApiResult (list RawDisk))
  | ZfsSmart (path : str) : svc_call (ApiResult SmartReport)
  | ZfsWipe (req : WipeDiskRequest) : svc_call (ApiResult unit)
  | ZfsListDatasets : svc_call (ApiResult (list Zfs.Dataset))
  | ZfsCreateDataset (req : CreateDatasetRequest) : svc_call (ApiResult Zfs.Dataset)
  | ZfsListSnapshots (id : str) : svc_call (ApiResult (list Zfs.Snapshot))
  | ZfsCreateSnapshot (id : str) (req : Zfs.CreateSnapshotRequest) : svc_call (ApiResult Zfs.Snapshot)
  | ZfsCloneSnapshot (id target : str) : svc_call (ApiResult Zfs.Dataset)
  | SharesList : svc_call (ApiResult (list NetworkShare))
  | SharesCreate (req : CreateShareRequest) : svc_call (ApiResult NetworkShare)
  | SharesDelete (id : str) : svc_call (ApiResult unit)
  (* services/library.rs *)
  | LibList (kind : StorageFileKind) : svc_call (ApiResult (list StorageFile))
  | LibUpload (kind : StorageFileKind) (name : str) (body : list (result str (list N))) :
      svc_call (ApiResult StorageFile)
  | LibDelete (kind : StorageFileKind) (name : str) : svc_call (ApiResult unit)
  | LibResolve (name : str) : svc_call (ApiResult str)
  | LibFetch (req : FetchDiskImageRequest) : svc_call (ApiResult DiskImageFetch)
  | LibFetches : svc_call (list DiskImageFetch)
  (* services/network.rs and firewall.rs *)
  | NetListBridges : svc_call (ApiResult (list Bridge))
  | NetCreateBridge (req : CreateBridgeRequest) : svc_call (ApiResult Bridge)
  | NetListVlans : svc_call (ApiResult (list Vlan))
  | NetCreateVlan (req : CreateVlanRequest) : svc_call (ApiResult Vlan)
  | FwGet : svc_call (ApiResult HostFirewall)
  | FwUpdate (cfg : HostFirewall) : svc_call (ApiResult HostFirewall)
  (* services/gpu.rs, pci.rs, usb.rs *)
  | GpuList : svc_call (ApiResult (list GpuDevice))
  | GpuBind (pci_address : str) (force : bool) : svc_call (ApiResult GpuDevice)
  | PciList : svc_call (ApiResult (list PciDevice))
  | UsbList : svc_call (ApiResult (list UsbDevice))
  (* services/pool.rs *)
  | PoolsList : svc_call (ApiResult (list ResourcePool))
  | PoolsGet (id : str) : svc_call (ApiResult ResourcePool)
  | PoolsEnsureExists (name : str) : svc_call (ApiResult unit)
  | PoolsCreate (req : CreateResourcePoolRequest) : svc_call (ApiResult ResourcePool)
  | PoolsUpdate (id : str) (req : UpdateResourcePoolRequest) : svc_call (ApiResult ResourcePool)
  | PoolsDelete (id : str) : svc_call (ApiResult ResourcePool)
  (* services/backup.rs, schedule.rs, snapshot_schedule.rs *)
  | BkListPlans : svc_call (ApiResult (list BackupPlan))
  | BkCreatePlan (req : CreateBackupPlanRequest) : svc_call (ApiResult BackupPlan)
  | BkGetPlan (id : str) : svc_call (ApiResult BackupPlan)
  | BkUpdatePlan (id : str) (req : UpdateBackupPlanRequest) : svc_call (ApiResult BackupPlan)
  | BkDeletePlan (id : str) : svc_call (ApiResult unit)
  | BkEnqueueBackup (id : str) (actor : option str) : svc_call (ApiResult OperationRecord)
  | BkListArtifacts (plan_id : option str) : svc_call (ApiResult (list BackupArtifact))
  | BkEnqueueRestore (id : str) (req : RestoreBackupRequest) (actor : option str) :
      svc_call (ApiResult OperationRecord)
  | SchList : svc_call (ApiResult (list PowerSchedule))
  | SchListFor (kind : ScheduleTarget) (id : str) : svc_call (ApiResult (list PowerSchedule))
  | SchGet (id : str) : svc_call (ApiResult PowerSchedule)
  | SchCreate (req : CreatePowerScheduleRequest) : svc_call (ApiResult PowerSchedule)
  | SchUpdate (id : str) (req : UpdatePowerScheduleRequest) : svc_call (ApiResult PowerSchedule)
  | SchDelete (id : str) : svc_call (ApiResult bool)
  | SnapList : svc_call (ApiResult (list SnapshotSchedule))
  | SnapListFor (kind : ScheduleTarget) (id : str) : svc_call (ApiResult (list SnapshotSchedule))
  | SnapGet (id : str) : svc_call (ApiResult SnapshotSchedule)
  | SnapCreate (req : CreateSnapshotScheduleRequest) : svc_call (ApiResult SnapshotSchedule)
  | SnapUpdate (id : str) (req : UpdateSnapshotScheduleRequest) : svc_call (ApiResult SnapshotSchedule)
  | SnapDelete (id : str) : svc_call (ApiResult bool)
  (* services/notification.rs and alerts.rs *)
  | NotList : svc_call (ApiResult (list NotificationChannel))
  | NotCreate (req : CreateNotificationChannelRequest) : svc_call (ApiResult NotificationChannel)
  | NotGet (id : str) : svc_call (ApiResult NotificationChannel)
  | NotUpdate (id : str) (req : UpdateNotificationChannelRequest) : svc_call (ApiResult NotificationChannel)
  | NotDelete (id : str) : svc_call (ApiResult bool)
  | NotTest (id : str) : svc_call (ApiResult unit)
  | AlList : svc_call (ApiResult (list AlertRule))
  | AlCreate (req : CreateAlertRuleRequest) : svc_call (ApiResult AlertRule)
  | AlGet (id : str) : svc_call (ApiResult AlertRule)
  | AlUpdate (id : str) (req : UpdateAlertRuleRequest) : svc_call (ApiResult AlertRule)
  | AlDelete (id : str) : svc_call (ApiResult bool)
  (* services/operations.rs *)
  | OpsList : svc_call (ApiResult (list OperationRecord))
  | OpsGet (id : str) : svc_call (ApiResult OperationRecord)
  | OpsReconcile (req : ReconcileRequest) (actor : option str) : svc_call (ApiResult OperationRecord)
  | OpsListQuarantine : svc_call (ApiResult (list QuarantineRecord))
  | OpsDecide (id : str) (decision : QuarantineDecision) (actor : str) (message : option str) :
      svc_call (ApiResult QuarantineRecord)
  | OpsUpdateProgress (handle : str) (pct : N) (message : option str) : svc_call (ApiResult unit)
  | OpsSetResultId (handle result_id : str) : svc_call (ApiResult unit)
  (* services/metrics.rs and acme.rs *)
  | MetNode : svc_call NodeMetrics
  | MetGuests : svc_call (list GuestMetricsSample)
  | MetHistory (scope : option MetricsScope) (guest_id from to : option str) :
      svc_call (ApiResult (list GuestMetricsSample))
  | MetPrometheus : svc_call (ApiResult str)
  | MetMintTicket (user_id : str) : svc_call (str * str)
  | MetRedeemTicket (ticket : str) : svc_call (option str)
  | AcmeStatusCall : svc_call AcmeStatus
  | AcmeUpdate (req : UpdateAcmeConfigRequest) : svc_call (ApiResult unit)
  | AcmeTrigger : svc_call (ApiResult AcmeStatus)
  | AcmeChallenge (token : str) : svc_call (option str)
  (* services/auth.rs, acl.rs, api_token.rs, audit.rs; the broker's ping *)
  | AuthListUsers : svc_call (list User)
  | AuthUserById (id : str) : svc_call (option User)
  | AuthCreateUser (req : CreateUserRequest) : svc_call (ApiResult User)
  | AuthUpdateUser (id : str) (req : UpdateUserRequest) : svc_call (ApiResult User)
  | AuthDeleteUser (id : str) : svc_call (ApiResult unit)
  | AuthLogout (token : str) : svc_call unit
  | AuthAuthenticate (token : str) : svc_call (ApiResult CurrentUser)
  | AuthChangePassword (user_id token : str) (req : ChangePasswordRequest) : svc_call (ApiResult unit)
  | AuthTwoFactorSetup (user_id : str) : svc_call (ApiResult (str * str))
  | AuthTwoFactorConfirm (user_id code : str) : svc_call (ApiResult (list str))
  | AuthTwoFactorDisable (user_id code : str) : svc_call (ApiResult unit)
  | AclListAll : svc_call (list AclEntry)
  | AclCreate (path subject username : str) (role : Role) (propagate : bool) : svc_call (ApiResult AclEntry)
  | AclDelete (id : str) : svc_call (ApiResult unit)
  | AclRemoveSubject (user_id : str) : svc_call (ApiResult unit)
  | TokListFor (user_id : str) : svc_call (ApiResult (list ApiToken))
  | TokCreate (user_id username : str) (permissions : list Permission) (req : CreateApiTokenRequest) :
      svc_call (ApiResult (str * ApiToken))
  | TokDelete (user_id id : str) : svc_call (ApiResult unit)
  | AuditRecord (event : NewAuditEvent) : svc_call unit
  | AuditList (limit : nat) : svc_call (ApiResult (list AuditEvent))
  | BrokerInventory : svc_call BrokerSplitInventory.

(** ** Handlers *)

(** What [operations.run] and [operations.enqueue] are told. *)
Record journal := mkJournal {
  j_kind : str; j_resource_type : option str; j_resource_id : option str; j_actor : option str }.

Inductive prog `{Schema} (A : Type) : Type :=
  | Ret (a : A)
  | Throw (e : AppError)
  | Call {B} (c : svc_call B) (k : B → prog A)
  | Run {B} (j : journal) (body : prog B) (k : ApiResult B → prog A)
  | Enqueue (j : journal) (body : str → prog (option str)) (k : ApiResult OperationRecord → prog A).
Arguments Ret {_ A}.
Arguments Throw {_ A}.
Arguments Call {_ A B}.
Arguments Run {_ A B}.
Arguments Enqueue {_ A}.

Fixpoint prog_bind `{Schema} {A B} (f : A → prog B) (p : prog A) : prog B :=
  match p with
  | Ret a => f a
  | Throw e => Throw e
  | Call c k => Call c (λ r, prog_bind f (k r))
  | Run j body k => Run j body (λ r, prog_bind f (k r))
  | Enqueue j body k => Enqueue j body (λ r, prog_bind f (k r))
  end.
#[export] Instance prog_ret `{Schema} : MRet prog := λ A, Ret.
#[export] Instance prog_mbind `{Schema} : MBind prog := λ A B f p, prog_bind f p.

Section plumbing.
Context `{Schema}.
Definition returned {A} (r : ApiResult A) : prog A :=
  match r with Ok a => Ret a | Err e => Throw e end.
(** [service.call(..).await?] and the same for one that cannot fail. *)
Definition await {A} (c : svc_call (ApiResult A)) : prog A := Call c returned.
Definition ask {A} (c : svc_call A) : prog A := Call c Ret.

(** [user.require(permission)?]. *)
Definition requires (user : AuthUser) (p : Permission) : prog unit := returned (require user p).
Definition user_id (user : AuthUser) : str := u_id (c_user (a_current user)).
Definition username (user : AuthUser) : str := u_username (c_user (a_current user)).

(** [operations.run(kind, Some(resource_type), resource_id, Some(&actor), ..).await?]. *)
Definition journaled {A} (user : AuthUser) (kind resource_type : string) (resource_id : option str)
    (body : prog A) : prog A :=
  Run (mkJournal kind (Some (lit resource_type)) resource_id (Some (user_id user))) body returned.
(** [operations.enqueue(..)], whose body begins by reporting progress. *)
Definition enqueued (user : AuthUser) (kind resource_type : string) (resource_id : option str)
    (progress : string) (body : str → prog (option str)) : prog OperationRecord :=
  Enqueue (mkJournal kind (Some (lit resource_type)) resource_id (Some (user_id user)))
    (λ handle, _ ← await (OpsUpdateProgress handle 10 (Some (lit progress))); body handle)
    returned.

(** [audit.record(NewAuditEvent { actor_id, actor, action, .. })]. *)
Definition audited (user : AuthUser) (action : string) (resource_type : option str)
    (resource_id : option str) (outcome : AuditOutcome) (message : option str) : prog unit :=
  ask (AuditRecord (mkNewEvent (Some (user_id user)) (username user) action resource_type resource_id
                      outcome message None)).

(** An answer: the status code, the [warning] header and the body. *)
Record reply (T : Type) := mkReply { rp_status : N; rp_warning : option str; rp_body : T }.
End plumbing.
Arguments mkReply {T}.
Arguments rp_status {T}.
Arguments rp_warning {T}.
Arguments rp_body {T}.

Definition json {T} (t : T) : reply T := mkReply 200 None t.
Definition created {T} (t : T) : reply T := mkReply 201 None t.
Definition accepted {T} (t : T) : reply T := mkReply 202 None t.
Definition no_content : reply unit := mkReply 204 None tt.

Inductive method := GET | POST | PUT | PATCH | DELETE.
#[export] Instance method_eq_dec : EqDecision method.
Proof. solve_decision. Defined.
