(* ===== verification/ApiGuests.v ===== *)
(** * VM, container and pool endpoints (src/src/api/vms.rs, containers.rs, pools.rs)

    One constructor per route, carrying what the extractors deliver; [vm_route] and
    its companions are the tables of [routes()], the handlers follow the source. *)

From S2P Require Export Api.

(** ** Pools (pools.rs) *)

Inductive PoolMemberKind := MemberVm | MemberLxc.
Record PoolMember := mkMember { pm_kind : PoolMemberKind; pm_id : str; pm_name : str }.
Record ResourcePoolSummary := mkPoolSummary {
  ps_id : str; ps_name : str; ps_comment : option str; ps_member_count : N; ps_created_at : str }.

(** [x.as_deref() == Some(name)]. *)
Definition is_pool (pool : option str) (name : str) : bool :=
  match pool with Some p => p =s? name | None => false end.

Module PoolsApi.
Section pools.
Context `{Schema}.

Definition ensure_pool_assignment (pool : option str) : prog unit :=
  match pool with
  | Some name => if negb (is_empty (trim name)) then await (PoolsEnsureExists name) else mret tt
  | None => mret tt
  end.

Definition members_of (pool_name : str) : prog (list PoolMember) :=
  vms ← await KvmList;
  cts ← await LxcListAll;
  mret (map (λ vm, mkMember MemberVm (sm_id vm) (sm_name vm))
          (List.filter (λ vm, is_pool (sm_pool vm) pool_name) vms)
        ++ map (λ ct, mkMember MemberLxc (ls_id ct) (ls_name ct))
          (List.filter (λ ct, is_pool (ls_pool ct) pool_name) cts)).

Fixpoint summaries (pools : list ResourcePool) : prog (list ResourcePoolSummary) :=
  match pools with
  | [] => mret []
  | pool :: pools =>
      members ← members_of (rp_name pool);
      out ← summaries pools;
      mret (mkPoolSummary (rp_id pool) (rp_name pool) (rp_comment pool)
              (N.of_nat (length members) mod 2 ^ 32) (rp_created_at pool) :: out)
  end.

Inductive endpoint : Type → Type :=
  | List_ : endpoint (list ResourcePoolSummary)
  | Create (req : CreateResourcePoolRequest) : endpoint ResourcePool
  | Detail (id : str) : endpoint (ResourcePool * list PoolMember)
  | Update (id : str) (req : UpdateResourcePoolRequest) : endpoint ResourcePool
  | Delete_ (id : str) : endpoint unit.

Definition route {T} (e : endpoint T) : method * list str :=
  match e with
  | List_ => (GET, [lit "pools"])
  | Create _ => (POST, [lit "pools"])
  | Detail id => (GET, [lit "pools"; id])
  | Update id _ => (PATCH, [lit "pools"; id])
  | Delete_ id => (DELETE, [lit "pools"; id])
  end.

Definition list_ (user : AuthUser) : prog (reply (list ResourcePoolSummary)) :=
  _ ← requires user PoolRead;
  pools ← await PoolsList;
  out ← summaries pools;
  mret (json out).
Definition create (user : AuthUser) (req : CreateResourcePoolRequest) : prog (reply ResourcePool) :=
  _ ← requires user PoolWrite;
  pool ← await (PoolsCreate req);
  mret (created pool).
Definition detail (user : AuthUser) (id : str) : prog (reply (ResourcePool * list PoolMember)) :=
  _ ← requires user PoolRead;
  pool ← await (PoolsGet id);
  members ← members_of (rp_name pool);
  mret (json (pool, members)).
Definition update (user : AuthUser) (id : str) (req : UpdateResourcePoolRequest) : prog (reply ResourcePool) :=
  _ ← requires user PoolWrite;
  pool ← await (PoolsUpdate id req);
  mret (json pool).
Definition delete_ (user : AuthUser) (id : str) : prog (reply unit) :=
  _ ← requires user PoolWrite;
  pool ← await (PoolsGet id);
  members ← members_of (rp_name pool);
  match members with
  | [] => _ ← await (PoolsDelete id); mret no_content
  | _ =>
      Throw (conflict ("resource pool " ++ debug_str (rp_name pool) ++ " still has "
        ++ dec (N.of_nat (length members)) ++ " member(s); reassign or remove them first"))
  end.

Definition handle {T} (e : endpoint T) (user : AuthUser) : prog (reply T) :=
  match e with
  | List_ => list_ user
  | Create req => create user req
  | Detail id => detail user id
  | Update id req => update user id req
  | Delete_ id => delete_ user id
  end.
End pools.
End PoolsApi.

(** ** Virtual machines (vms.rs) *)

Module VmsApi.
Section vms.
Context `{Schema}.

Inductive endpoint : Type → Type :=
  | List_ : endpoint (list VmSummary)
  | IsoImages : endpoint (list IsoImage)
  | Create (req : CreateVmRequest) : endpoint OperationRecord
  | GetOne (id : str) : endpoint VmData.Vm
  | Update (id : str) (req : UpdateVmRequest) : endpoint VmData.Vm
  | Delete_ (id : str) : endpoint unit
  | Power (id : str) (action : Kvm.VmPowerAction) : endpoint VmPowerResponse
  | GuestAgent (id : str) : endpoint GuestAgentInfo
  | RestoreRam (id name : str) : endpoint VmData.Vm
  | ListDisks (id : str) : endpoint (list VmDisk)
  | ResizeDisk (id : str) (index : nat) (req : ResizeVmDiskRequest) : endpoint VmData.Vm
  | AttachDisk (id : str) (disk : VmDisk) : endpoint VmData.Vm
  | MigrateDisk (id : str) (req : MigrateVmDiskRequest) : endpoint OperationRecord
  | DetachDisk (id : str) (index : nat) : endpoint VmData.Vm
  | ListUsb (id : str) : endpoint (list UsbAssignment)
  | AttachUsb (id : str) (req : UsbAssignment) : endpoint VmData.Vm
  | DetachUsb (id vendor_id product_id : str) : endpoint VmData.Vm
  | ListPci (id : str) : endpoint (list PciAssignment)
  | AttachPci (id : str) (req : PciAssignment) : endpoint VmData.Vm
  | DetachPci (id pci_address : str) : endpoint VmData.Vm
  | Clone (id : str) (req : CloneVmRequest) : endpoint OperationRecord
  | ListSnapshots (id : str) : endpoint (list VmSnapshot)
  | CreateSnapshot (id : str) (req : CreateVmSnapshotRequest) : endpoint VmSnapshot
  | RollbackSnapshot (id name : str) : endpoint unit
  | DeleteSnapshot (id name : str) : endpoint unit
  | Console (id : str) : endpoint ConsoleTicket
  | SerialConsole (id : str) : endpoint ConsoleTicket
  | Spice (id : str) : endpoint str.

(** [routes()]. *)
Definition route {T} (e : endpoint T) : method * list str :=
  let vm id rest := lit "vms" :: id :: rest in
  match e with
  | List_ => (GET, [lit "vms"])
  | Create _ => (POST, [lit "vms"])
  | IsoImages => (GET, [lit "vms"; lit "iso-images"])
  | GetOne id => (GET, vm id [])
  | Update id _ => (PATCH, vm id [])
  | Delete_ id => (DELETE, vm id [])
  | Power id _ => (POST, vm id [lit "power"])
  | Clone id _ => (POST, vm id [lit "clone"])
  | ListSnapshots id => (GET, vm id [lit "snapshots"])
  | CreateSnapshot id _ => (POST, vm id [lit "snapshots"])
  | DeleteSnapshot id name => (DELETE, vm id [lit "snapshots"; name])
  | RollbackSnapshot id name => (POST, vm id [lit "snapshots"; name; lit "rollback"])
  | RestoreRam id name => (POST, vm id [lit "snapshots"; name; lit "restore"])
  | GuestAgent id => (GET, vm id [lit "guest-agent"])
  | ResizeDisk id index _ => (POST, vm id [lit "disks"; dec (N.of_nat index); lit "resize"])
  | MigrateDisk id _ => (POST, vm id [lit "disks"; lit "migrate"])
  | ListDisks id => (GET, vm id [lit "disks"])
  | AttachDisk id _ => (POST, vm id [lit "disks"])
  | DetachDisk id index => (DELETE, vm id [lit "disks"; dec (N.of_nat index)])
  | ListUsb id => (GET, vm id [lit "usb-devices"])
  | AttachUsb id _ => (POST, vm id [lit "usb-devices"])
  | DetachUsb id _ _ => (DELETE, vm id [lit "usb-devices"])
  | ListPci id => (GET, vm id [lit "pci-devices"])
  | AttachPci id _ => (POST, vm id [lit "pci-devices"])
  | DetachPci id _ => (DELETE, vm id [lit "pci-devices"])
  | Console id => (POST, vm id [lit "console"])
  | SerialConsole id => (POST, vm id [lit "serial-console"])
  | Spice id => (POST, vm id [lit "spice"])
  end.

Definition list_ (user : AuthUser) : prog (reply (list VmSummary)) :=
  _ ← requires user VmRead; r ← await KvmList; mret (json r).
Definition iso_images (user : AuthUser) : prog (reply (list IsoImage)) :=
  _ ← requires user VmRead; r ← await KvmListIsos; mret (json r).

Definition create (user : AuthUser) (req : CreateVmRequest) : prog (reply OperationRecord) :=
  _ ← requires user VmWrite;
  _ ← PoolsApi.ensure_pool_assignment (c_pool req);
  record ← enqueued user "vm.create" "vm" None "provisioning disk" (λ handle,
    vm ← await (KvmCreate req);
    _ ← await (OpsSetResultId handle (v_id vm));
    mret (Some ("created VM " ++ v_name vm)));
  mret (accepted record).

Definition get_one (user : AuthUser) (id : str) : prog (reply VmData.Vm) :=
  _ ← requires user VmRead; r ← await (KvmGet id); mret (json r).
Definition update (user : AuthUser) (id : str) (req : UpdateVmRequest) : prog (reply VmData.Vm) :=
  _ ← requires user VmWrite;
  _ ← PoolsApi.ensure_pool_assignment (u_pool req);
  vm ← journaled user "vm.update" "vm" (Some id) (await (KvmUpdate id req));
  mret (json vm).
Definition delete_ (user : AuthUser) (id : str) : prog (reply unit) :=
  _ ← requires user VmWrite;
  _ ← journaled user "vm.delete" "vm" (Some id) (await (KvmDelete id));
  mret no_content.
Definition power (user : AuthUser) (id : str) (action : Kvm.VmPowerAction) : prog (reply VmPowerResponse) :=
  _ ← requires user VmPower;
  r ← journaled user "vm.power" "vm" (Some id) (await (KvmPower id action));
  mret (accepted r).
Definition guest_agent (user : AuthUser) (id : str) : prog (reply GuestAgentInfo) :=
  _ ← requires user VmRead; r ← await (KvmGuestAgent id); mret (json r).
Definition restore_ram_snapshot (user : AuthUser) (id name : str) : prog (reply VmData.Vm) :=
  _ ← requires user VmPower;
  vm ← journaled user "vm.restore_ram_snapshot" "vm" (Some id) (await (KvmRestoreRam id name));
  mret (json vm).

Definition list_disks (user : AuthUser) (id : str) : prog (reply (list VmDisk)) :=
  _ ← requires user VmRead; vm ← await (KvmGet id); mret (json (v_disks vm)).
Definition resize_disk (user : AuthUser) (id : str) (index : nat) (req : ResizeVmDiskRequest) : prog (reply VmData.Vm) :=
  _ ← requires user VmWrite;
  vm ← journaled user "vm.resize_disk" "vm" (Some id) (await (KvmResizeDisk id index req));
  mret (json vm).
Definition attach_disk (user : AuthUser) (id : str) (disk : VmDisk) : prog (reply VmData.Vm) :=
  _ ← requires user VmWrite;
  vm ← journaled user "vm.attach_disk" "vm" (Some id) (await (KvmAttachDisk id disk));
  mret (created vm).
Definition migrate_disk (user : AuthUser) (id : str) (req : MigrateVmDiskRequest) : prog (reply OperationRecord) :=
  _ ← requires user VmWrite;
  record ← enqueued user "vm.migrate_disk" "vm" (Some id) "migrating disk" (λ _,
    vm ← await (KvmMigrateDisk id req);
    let new_dataset := default [] (dk_dataset <$> v_disks vm !! mg_disk_index req) in
    mret (Some ("migrated disk to " ++ new_dataset)));
  mret (accepted record).
Definition detach_disk (user : AuthUser) (id : str) (index : nat) : prog (reply VmData.Vm) :=
  _ ← requires user VmWrite;
  vm ← journaled user "vm.detach_disk" "vm" (Some id) (await (KvmDetachDisk id index));
  mret (json vm).

Definition list_usb (user : AuthUser) (id : str) : prog (reply (list UsbAssignment)) :=
  _ ← requires user VmRead; vm ← await (KvmGet id); mret (json (v_usb_devices vm)).
Definition attach_usb (user : AuthUser) (id : str) (req : UsbAssignment) : prog (reply VmData.Vm) :=
  _ ← requires user VmWrite;
  vm ← journaled user "vm.attach_usb" "vm" (Some id) (await (KvmAttachUsb id req));
  mret (created vm).
Definition detach_usb (user : AuthUser) (id vendor_id product_id : str) : prog (reply VmData.Vm) :=
  _ ← requires user VmWrite;
  vm ← journaled user "vm.detach_usb" "vm" (Some id) (await (KvmDetachUsb id vendor_id product_id));
  mret (json vm).
Definition list_pci (user : AuthUser) (id : str) : prog (reply (list PciAssignment)) :=
  _ ← requires user VmRead; vm ← await (KvmGet id); mret (json (v_pci_devices vm)).

(** [HeaderValue::from_str]: visible characters, spaces and tabs. *)
Definition header_value (s : str) : option str :=
  if forallb (λ b, in_range 32 126 b || (b =? 9)%N || (128 <=? b)%N) (bytes s) then Some s else None.
Definition attach_pci (user : AuthUser) (id : str) (req : PciAssignment) : prog (reply VmData.Vm) :=
  _ ← requires user VmWrite;
  warning ← await (KvmIommuWarning id (pa_address req));
  vm ← journaled user "vm.attach_pci" "vm" (Some id) (await (KvmAttachPci id req));
  mret (mkReply 201 (w ← warning; header_value (lit "299 - " ++ [34%N] ++ w ++ [34%N])) vm).
Definition detach_pci (user : AuthUser) (id pci_address : str) : prog (reply VmData.Vm) :=
  _ ← requires user VmWrite;
  vm ← journaled user "vm.detach_pci" "vm" (Some id) (await (KvmDetachPci id pci_address));
  mret (json vm).

Definition clone_vm (user : AuthUser) (id : str) (req : CloneVmRequest) : prog (reply OperationRecord) :=
  _ ← requires user VmWrite;
  record ← enqueued user "vm.clone" "vm" (Some id) "cloning disks" (λ handle,
    vm ← await (KvmClone id req);
    _ ← await (OpsSetResultId handle (v_id vm));
    mret (Some ("cloned VM " ++ v_name vm)));
  mret (accepted record).

Definition list_snapshots (user : AuthUser) (id : str) : prog (reply (list VmSnapshot)) :=
  _ ← requires user VmRead; r ← await (KvmListSnapshots id); mret (json r).
Definition create_snapshot (user : AuthUser) (id : str) (req : CreateVmSnapshotRequest) : prog (reply VmSnapshot) :=
  _ ← requires user VmWrite;
  snap ← journaled user "vm.create_snapshot" "vm" (Some id) (await (KvmCreateSnapshot id req));
  mret (created snap).
Definition rollback_snapshot (user : AuthUser) (id name : str) : prog (reply unit) :=
  _ ← requires user VmWrite;
  _ ← journaled user "vm.rollback_snapshot" "vm" (Some id) (await (KvmRollbackSnapshot id name));
  mret no_content.
Definition delete_snapshot (user : AuthUser) (id name : str) : prog (reply unit) :=
  _ ← requires user VmWrite;
  _ ← journaled user "vm.delete_snapshot" "vm" (Some id) (await (KvmDeleteSnapshot id name));
  mret no_content.

Definition console (user : AuthUser) (id : str) : prog (reply ConsoleTicket) :=
  _ ← requires user VmPower; r ← await (KvmConsole id); mret (json r).
Definition serial_console (user : AuthUser) (id : str) : prog (reply ConsoleTicket) :=
  _ ← requires user VmPower; r ← await (KvmSerialConsole id); mret (json r).
Definition spice_connection (user : AuthUser) (id : str) : prog (reply str) :=
  _ ← requires user VmPower; r ← await (KvmSpice id); mret (json r).

Definition handle {T} (e : endpoint T) (user : AuthUser) : prog (reply T) :=
  match e with
  | List_ => list_ user | IsoImages => iso_images user | Create req => create user req
  | GetOne id => get_one user id | Update id req => update user id req
  | Delete_ id => delete_ user id | Power id action => power user id action
  | GuestAgent id => guest_agent user id | RestoreRam id name => restore_ram_snapshot user id name
  | ListDisks id => list_disks user id | ResizeDisk id index req => resize_disk user id index req
  | AttachDisk id disk => attach_disk user id disk | MigrateDisk id req => migrate_disk user id req
  | DetachDisk id index => detach_disk user id index
  | ListUsb id => list_usb user id | AttachUsb id req => attach_usb user id req
  | DetachUsb id v p => detach_usb user id v p
  | ListPci id => list_pci user id | AttachPci id req => attach_pci user id req
  | DetachPci id a => detach_pci user id a | Clone id req => clone_vm user id req
  | ListSnapshots id => list_snapshots user id | CreateSnapshot id req => create_snapshot user id req
  | RollbackSnapshot id name => rollback_snapshot user id name
  | DeleteSnapshot id name => delete_snapshot user id name
  | Console id => console user id | SerialConsole id => serial_console user id
  | Spice id => spice_connection user id
  end.

(** The websockets: what they are upgraded to. *)
Definition console_ws (id ticket : str) : prog str :=
  target ← await (KvmRedeemTicket id ticket);
  match target with
  | VncSocket addr => mret addr
  | Serial _ => Throw (validation "this ticket is for the serial console")
  end.
Definition serial_console_ws (id ticket : str) : prog str :=
  target ← await (KvmRedeemTicket id ticket);
  match target with
  | Serial pty => mret pty
  | VncSocket _ => Throw (validation "this ticket is for the graphical console")
  end.
End vms.
End VmsApi.

(** ** Containers (containers.rs) *)

Module ContainersApi.
Section containers.
Context `{Schema}.

Inductive endpoint : Type → Type :=
  | List_ : endpoint (list LxcSummary)
  | Create (req : CreateLxcRequest) : endpoint OperationRecord
  | GetOne (id : str) : endpoint Lxc.Lxc
  | Update (id : str) (req : UpdateLxcRequest) : endpoint Lxc.Lxc
  | Delete_ (id : str) : endpoint unit
  | Power (id : str) (action : Lxc.LxcPowerAction) : endpoint Lxc.Lxc
  | MigrateRootfs (id target : str) : endpoint OperationRecord
  | ListSnapshots (id : str) : endpoint (list LxcSnapshotRecord)
  | CreateSnapshot (id name : str) (description : option str) : endpoint LxcSnapshotRecord
  | RollbackSnapshot (id name : str) : endpoint unit
  | DeleteSnapshot (id name : str) : endpoint unit
  | Console (id : str) : endpoint (str * str * str).

(** [routes()]. *)
Definition route {T} (e : endpoint T) : method * list str :=
  let ct id rest := lit "containers" :: id :: rest in
  match e with
  | List_ => (GET, [lit "containers"])
  | Create _ => (POST, [lit "containers"])
  | GetOne id => (GET, ct id [])
  | Update id _ => (PATCH, ct id [])
  | Delete_ id => (DELETE, ct id [])
  | Power id _ => (POST, ct id [lit "power"])
  | MigrateRootfs id _ => (POST, ct id [lit "rootfs"; lit "migrate"])
  | ListSnapshots id => (GET, ct id [lit "snapshots"])
  | CreateSnapshot id _ _ => (POST, ct id [lit "snapshots"])
  | DeleteSnapshot id name => (DELETE, ct id [lit "snapshots"; name])
  | RollbackSnapshot id name => (POST, ct id [lit "snapshots"; name; lit "rollback"])
  | Console id => (POST, ct id [lit "console"])
  end.

Definition console (user : AuthUser) (id : str) : prog (reply (str * str * str)) :=
  _ ← requires user LxcPower; r ← await (LxcConsole id); mret (json r).
Definition console_ws (id ticket : str) : prog str := await (LxcRedeemTicket id ticket).
Definition list_ (user : AuthUser) : prog (reply (list LxcSummary)) :=
  _ ← requires user LxcRead; r ← await LxcListAll; mret (json r).
Definition create (user : AuthUser) (req : CreateLxcRequest) : prog (reply OperationRecord) :=
  _ ← requires user LxcWrite;
  _ ← PoolsApi.ensure_pool_assignment (cc_pool req);
  record ← enqueued user "container.create" "container" None "downloading template" (λ handle,
    ct ← await (LxcCreate req);
    _ ← await (OpsSetResultId handle (ct_id ct));
    mret (Some ("created container " ++ Lxc.ct_name ct)));
  mret (accepted record).
Definition get_one (user : AuthUser) (id : str) : prog (reply Lxc.Lxc) :=
  _ ← requires user LxcRead; r ← await (LxcGet id); mret (json r).
Definition update (user : AuthUser) (id : str) (req : UpdateLxcRequest) : prog (reply Lxc.Lxc) :=
  _ ← requires user LxcWrite;
  _ ← PoolsApi.ensure_pool_assignment (uc_pool req);
  ct ← journaled user "container.update" "container" (Some id) (await (LxcUpdate id req));
  mret (json ct).
Definition delete_ (user : AuthUser) (id : str) : prog (reply unit) :=
  _ ← requires user LxcWrite;
  _ ← journaled user "container.delete" "container" (Some id) (await (LxcDelete id));
  mret no_content.
Definition list_snapshots (user : AuthUser) (id : str) : prog (reply (list LxcSnapshotRecord)) :=
  _ ← requires user LxcRead; r ← await (LxcListSnapshots id); mret (json r).
Definition create_snapshot (user : AuthUser) (id name : str) (description : option str) :
    prog (reply LxcSnapshotRecord) :=
  _ ← requires user LxcWrite; r ← await (LxcSnapshotCall id name description); mret (created r).
Definition rollback_snapshot (user : AuthUser) (id name : str) : prog (reply unit) :=
  _ ← requires user LxcWrite; _ ← await (LxcRollbackSnapshot id name); mret no_content.
Definition delete_snapshot (user : AuthUser) (id name : str) : prog (reply unit) :=
  _ ← requires user LxcWrite; _ ← await (LxcDeleteSnapshot id name); mret no_content.
Definition power (user : AuthUser) (id : str) (action : Lxc.LxcPowerAction) : prog (reply Lxc.Lxc) :=
  _ ← requires user LxcPower;
  ct ← journaled user "container.power" "container" (Some id) (await (LxcPowerCall id action));
  mret (accepted ct).
Definition migrate_rootfs (user : AuthUser) (id target : str) : prog (reply OperationRecord) :=
  _ ← requires user LxcWrite;
  record ← enqueued user "container.migrate_rootfs" "container" (Some id) "migrating rootfs" (λ _,
    _ ← await (LxcMigrateRootfs id target);
    mret (Some (lit "migrated container rootfs")));
  mret (accepted record).

Definition handle {T} (e : endpoint T) (user : AuthUser) : prog (reply T) :=
  match e with
  | List_ => list_ user | Create req => create user req | GetOne id => get_one user id
  | Update id req => update user id req | Delete_ id => delete_ user id
  | Power id action => power user id action | MigrateRootfs id target => migrate_rootfs user id target
  | ListSnapshots id => list_snapshots user id
  | CreateSnapshot id name description => create_snapshot user id name description
  | RollbackSnapshot id name => rollback_snapshot user id name
  | DeleteSnapshot id name => delete_snapshot user id name
  | Console id => console user id
  end.
End containers.
End ContainersApi.
