(* ===== verification/ApiNode.v ===== *)
(** * Node endpoints (src/src/api/storage.rs, library.rs, network.rs, security.rs,
    gpus.rs, pci.rs, usb.rs, operations.rs, audit.rs, notifications.rs, alerts.rs,
    metrics.rs) *)

From S2P Require Export Api.

(** ** ZFS and shares (storage.rs) *)

Module StorageApi.
Section storage.
Context `{Schema}.

Inductive endpoint : Type → Type :=
  | ListPools : endpoint (list Pool)
  | CreatePool (req : Zfs.CreatePoolRequest) : endpoint OperationRecord
  | ListDisks : endpoint (list RawDisk)
  | SmartDisk (path : str) : endpoint SmartReport
  | WipeDisk (req : WipeDiskRequest) : endpoint unit
  | ListDatasets : endpoint (list Zfs.Dataset)
  | CreateDataset (req : CreateDatasetRequest) : endpoint OperationRecord
  | ListSnapshots (id : str) : endpoint (list Zfs.Snapshot)
  | CreateSnapshot (id : str) (req : Zfs.CreateSnapshotRequest) : endpoint OperationRecord
  | CloneSnapshot (id target : str) : endpoint OperationRecord
  | ListShares : endpoint (list NetworkShare)
  | CreateShare (req : CreateShareRequest) : endpoint OperationRecord
  | DeleteShare (id : str) : endpoint unit.

(** [routes()], below [/storage]. *)
Definition route {T} (e : endpoint T) : method * list str :=
  let at_ rest := lit "storage" :: rest in
  match e with
  | ListPools => (GET, at_ [lit "pools"])
  | CreatePool _ => (POST, at_ [lit "pools"])
  | ListDisks => (GET, at_ [lit "disks"])
  | SmartDisk _ => (GET, at_ [lit "disks"; lit "smart"])
  | WipeDisk _ => (POST, at_ [lit "disks"; lit "wipe"])
  | ListDatasets => (GET, at_ [lit "datasets"])
  | CreateDataset _ => (POST, at_ [lit "datasets"])
  | ListSnapshots id => (GET, at_ [lit "datasets"; id; lit "snapshots"])
  | CreateSnapshot id _ => (POST, at_ [lit "datasets"; id; lit "snapshots"])
  | CloneSnapshot id _ => (POST, at_ [lit "snapshots"; id; lit "clone"])
  | ListShares => (GET, at_ [lit "shares"])
  | CreateShare _ => (POST, at_ [lit "shares"])
  | DeleteShare id => (DELETE, at_ [lit "shares"; id])
  end.

Definition list_pools (user : AuthUser) : prog (reply (list Pool)) :=
  _ ← requires user StorageRead; r ← await ZfsListPools; mret (json r).
Definition create_pool (user : AuthUser) (req : Zfs.CreatePoolRequest) : prog (reply OperationRecord) :=
  _ ← requires user StorageWrite;
  record ← enqueued user "storage.create_pool" "pool" None "creating ZFS pool" (λ handle,
    pool ← await (ZfsCreatePool req);
    _ ← await (OpsSetResultId handle (pl_name pool));
    mret (Some ("created pool " ++ pl_name pool)));
  mret (accepted record).
Definition list_disks (user : AuthUser) : prog (reply (list RawDisk)) :=
  _ ← requires user StorageRead; r ← await ZfsListDisks; mret (json r).
Definition smart_disk (user : AuthUser) (path : str) : prog (reply SmartReport) :=
  _ ← requires user StorageRead; r ← await (ZfsSmart path); mret (json r).
Definition wipe_disk (user : AuthUser) (req : WipeDiskRequest) : prog (reply unit) :=
  _ ← requires user StorageWrite; _ ← await (ZfsWipe req); mret no_content.
Definition list_datasets (user : AuthUser) : prog (reply (list Zfs.Dataset)) :=
  _ ← requires user StorageRead; r ← await ZfsListDatasets; mret (json r).
Definition create_dataset (user : AuthUser) (req : CreateDatasetRequest) : prog (reply OperationRecord) :=
  _ ← requires user StorageWrite;
  record ← enqueued user "storage.create_dataset" "dataset" None "creating dataset" (λ handle,
    dataset ← await (ZfsCreateDataset req);
    _ ← await (OpsSetResultId handle (ds_id dataset));
    mret (Some ("created dataset " ++ ds_name dataset)));
  mret (accepted record).
Definition list_snapshots (user : AuthUser) (id : str) : prog (reply (list Zfs.Snapshot)) :=
  _ ← requires user StorageRead; r ← await (ZfsListSnapshots id); mret (json r).
Definition create_snapshot (user : AuthUser) (id : str) (req : Zfs.CreateSnapshotRequest) :
    prog (reply OperationRecord) :=
  _ ← requires user StorageWrite;
  record ← enqueued user "storage.create_snapshot" "snapshot" (Some id) "snapshotting" (λ handle,
    snapshot ← await (ZfsCreateSnapshot id req);
    _ ← await (OpsSetResultId handle (Zfs.sn_id snapshot));
    mret (Some ("created snapshot " ++ Zfs.sn_name snapshot)));
  mret (accepted record).
Definition clone_snapshot (user : AuthUser) (id target : str) : prog (reply OperationRecord) :=
  _ ← requires user StorageWrite;
  record ← enqueued user "storage.clone_snapshot" "dataset" (Some id) "cloning snapshot" (λ handle,
    dataset ← await (ZfsCloneSnapshot id target);
    _ ← await (OpsSetResultId handle (ds_id dataset));
    mret (Some ("cloned dataset " ++ ds_name dataset)));
  mret (accepted record).
Definition list_shares (user : AuthUser) : prog (reply (list NetworkShare)) :=
  _ ← requires user StorageRead; r ← await SharesList; mret (json r).
Definition create_share (user : AuthUser) (req : CreateShareRequest) : prog (reply OperationRecord) :=
  _ ← requires user StorageWrite;
  record ← enqueued user "storage.create_share" "share" None "mounting share" (λ handle,
    share ← await (SharesCreate req);
    _ ← await (OpsSetResultId handle (ns_id share));
    mret (Some ("mounted share " ++ ns_name share)));
  mret (accepted record).
Definition delete_share (user : AuthUser) (id : str) : prog (reply unit) :=
  _ ← requires user StorageWrite;
  _ ← journaled user "storage.delete_share" "share" (Some id) (await (SharesDelete id));
  mret no_content.

Definition handle {T} (e : endpoint T) (user : AuthUser) : prog (reply T) :=
  match e with
  | ListPools => list_pools user | CreatePool req => create_pool user req
  | ListDisks => list_disks user | SmartDisk path => smart_disk user path
  | WipeDisk req => wipe_disk user req | ListDatasets => list_datasets user
  | CreateDataset req => create_dataset user req | ListSnapshots id => list_snapshots user id
  | CreateSnapshot id req => create_snapshot user id req
  | CloneSnapshot id target => clone_snapshot user id target
  | ListShares => list_shares user | CreateShare req => create_share user req
  | DeleteShare id => delete_share user id
  end.
End storage.
End StorageApi.

(** ** The media library (library.rs) *)

Module LibraryApi.
Section library.
Context `{Schema}.

(** The body of an upload: the chunks of the stream. *)
Definition Body : Type := list (result str (list N)).
(** The routes of a kind share their handlers' shape and differ in the kind. *)
Inductive endpoint : Type → Type :=
  | List_ (kind : StorageFileKind) : endpoint (list StorageFile)
  | Upload (kind : StorageFileKind) (name : str) (body : Body) : endpoint StorageFile
  | Delete_ (kind : StorageFileKind) (name : str) : endpoint unit
  | Import_ (req : ImportDiskImageRequest) : endpoint (str * N)
  | Fetch (req : FetchDiskImageRequest) : endpoint DiskImageFetch
  | Fetches : endpoint (list DiskImageFetch).

Definition kind_segment (kind : StorageFileKind) : str :=
  match kind with IsoKind => "isos" | CtTemplate => "ct-templates" | DiskImage => "disk-images" end.
(** [routes()] and [upload_routes()]. *)
Definition route {T} (e : endpoint T) : method * list str :=
  let at_ rest := lit "storage" :: rest in
  match e with
  | List_ kind => (GET, at_ [kind_segment kind])
  | Upload kind name _ => (POST, at_ [kind_segment kind; name])
  | Delete_ kind name => (DELETE, at_ [kind_segment kind; name])
  | Import_ _ => (POST, at_ [lit "disk-images"; lit "import"])
  | Fetch _ => (POST, at_ [lit "disk-images"; lit "fetch"])
  | Fetches => (GET, at_ [lit "disk-images"; lit "fetches"])
  end.

(** [list_isos], [list_ct_templates] and [list_disk_images]. *)
Definition list_kind (kind : StorageFileKind) (user : AuthUser) : prog (reply (list StorageFile)) :=
  _ ← requires user StorageRead; r ← await (LibList kind); mret (json r).
Definition list_isos := list_kind IsoKind.
Definition list_ct_templates := list_kind CtTemplate.
Definition list_disk_images := list_kind DiskImage.
(** [upload_iso], [upload_ct_template] and [upload_disk_image]. *)
Definition upload_kind (kind : StorageFileKind) (user : AuthUser) (name : str) (body : Body) :
    prog (reply StorageFile) :=
  _ ← requires user StorageWrite; file ← await (LibUpload kind name body); mret (created file).
Definition upload_iso := upload_kind IsoKind.
Definition upload_ct_template := upload_kind CtTemplate.
Definition upload_disk_image := upload_kind DiskImage.
(** [delete_iso], [delete_ct_template] and [delete_disk_image]. *)
Definition delete_kind (kind : StorageFileKind) (user : AuthUser) (name : str) : prog (reply unit) :=
  _ ← requires user StorageWrite; _ ← await (LibDelete kind name); mret no_content.
Definition delete_iso := delete_kind IsoKind.
Definition delete_ct_template := delete_kind CtTemplate.
Definition delete_disk_image := delete_kind DiskImage.

Definition import_disk_image (user : AuthUser) (req : ImportDiskImageRequest) : prog (reply (str * N)) :=
  _ ← requires user StorageWrite;
  source ← await (LibResolve (ir_image_name req));
  disk ← await (KvmImportImage source (ir_dataset req) (ir_size_gib req));
  mret (created (dk_dataset disk, dk_size_gib disk)).
Definition fetch_disk_image (user : AuthUser) (req : FetchDiskImageRequest) : prog (reply DiskImageFetch) :=
  _ ← requires user StorageWrite;
  fetch ← await (LibFetch req);
  _ ← audited user "disk_image.fetch" (Some (lit "disk_image")) (Some (df_name fetch)) AuditSuccess
        (Some ("fetching from " ++ df_url fetch));
  mret (accepted fetch).
Definition list_disk_image_fetches (user : AuthUser) : prog (reply (list DiskImageFetch)) :=
  _ ← requires user StorageRead; r ← ask LibFetches; mret (json r).

Definition handle {T} (e : endpoint T) (user : AuthUser) : prog (reply T) :=
  match e with
  | List_ IsoKind => list_isos user | List_ CtTemplate => list_ct_templates user
  | List_ DiskImage => list_disk_images user
  | Upload IsoKind name body => upload_iso user name body
  | Upload CtTemplate name body => upload_ct_template user name body
  | Upload DiskImage name body => upload_disk_image user name body
  | Delete_ IsoKind name => delete_iso user name
  | Delete_ CtTemplate name => delete_ct_template user name
  | Delete_ DiskImage name => delete_disk_image user name
  | Import_ req => import_disk_image user req
  | Fetch req => fetch_disk_image user req
  | Fetches => list_disk_image_fetches user
  end.
End library.
End LibraryApi.

(** ** Network (network.rs) *)

Module NetworkApi.
Section network.
Context `{Schema}.

Inductive endpoint : Type → Type :=
  | ListBridges : endpoint (list Bridge)
  | CreateBridge (req : CreateBridgeRequest) : endpoint OperationRecord
  | ListVlans : endpoint (list Vlan)
  | CreateVlan (req : CreateVlanRequest) : endpoint OperationRecord
  | GetFirewall : endpoint HostFirewall
  | UpdateFirewall (req : UpdateHostFirewallRequest) : endpoint HostFirewall.

Definition route {T} (e : endpoint T) : method * list str :=
  match e with
  | ListBridges => (GET, lits ["network"; "bridges"])
  | CreateBridge _ => (POST, lits ["network"; "bridges"])
  | ListVlans => (GET, lits ["network"; "vlans"])
  | CreateVlan _ => (POST, lits ["network"; "vlans"])
  | GetFirewall => (GET, lits ["network"; "firewall"])
  | UpdateFirewall _ => (PUT, lits ["network"; "firewall"])
  end.

Definition get_firewall (user : AuthUser) : prog (reply HostFirewall) :=
  _ ← requires user NetworkRead; r ← await FwGet; mret (json r).
(** The audit event is written whatever the outcome. *)
Definition update_firewall (user : AuthUser) (req : UpdateHostFirewallRequest) : prog (reply HostFirewall) :=
  _ ← requires user NetworkWrite;
  let cfg := mkHost (uh_enabled req) (uh_default_input_policy req) (uh_rules req) in
  outcome ← ask (FwUpdate cfg);
  _ ← audited user "firewall.update" (Some (lit "host_firewall")) None
        (if is_ok outcome then AuditSuccess else AuditFailure) None;
  r ← returned outcome;
  mret (json r).
Definition list_bridges (user : AuthUser) : prog (reply (list Bridge)) :=
  _ ← requires user NetworkRead; r ← await NetListBridges; mret (json r).
Definition create_bridge (user : AuthUser) (req : CreateBridgeRequest) : prog (reply OperationRecord) :=
  _ ← requires user NetworkWrite;
  record ← enqueued user "network.create_bridge" "bridge" None "creating bridge" (λ handle,
    bridge ← await (NetCreateBridge req);
    _ ← await (OpsSetResultId handle (br_id bridge));
    mret (Some ("created bridge " ++ br_name bridge)));
  mret (accepted record).
Definition list_vlans (user : AuthUser) : prog (reply (list Vlan)) :=
  _ ← requires user NetworkRead; r ← await NetListVlans; mret (json r).
Definition create_vlan (user : AuthUser) (req : CreateVlanRequest) : prog (reply OperationRecord) :=
  _ ← requires user NetworkWrite;
  record ← enqueued user "network.create_vlan" "vlan" None "creating VLAN" (λ handle,
    vlan ← await (NetCreateVlan req);
    _ ← await (OpsSetResultId handle (vl_id vlan));
    mret (Some ("created VLAN tag " ++ dec (vl_tag vlan))));
  mret (accepted record).

Definition handle {T} (e : endpoint T) (user : AuthUser) : prog (reply T) :=
  match e with
  | ListBridges => list_bridges user | CreateBridge req => create_bridge user req
  | ListVlans => list_vlans user | CreateVlan req => create_vlan user req
  | GetFirewall => get_firewall user | UpdateFirewall req => update_firewall user req
  end.
End network.
End NetworkApi.

(** ** Certificates and the broker split (security.rs) *)

Module SecurityApi.
Section security.
Context `{Schema}.

Inductive endpoint : Type → Type :=
  | BrokerSplit : endpoint BrokerSplitInventory
  | AcmeStatus_ : endpoint AcmeStatus
  | UpdateAcme (req : UpdateAcmeConfigRequest) : endpoint AcmeStatus
  | IssueAcme : endpoint AcmeStatus.

Definition route {T} (e : endpoint T) : method * list str :=
  match e with
  | BrokerSplit => (GET, lits ["system"; "broker-split"])
  | AcmeStatus_ => (GET, lits ["security"; "acme"])
  | UpdateAcme _ => (PUT, lits ["security"; "acme"; "config"])
  | IssueAcme => (POST, lits ["security"; "acme"; "issue"])
  end.

Definition acme_status (user : AuthUser) : prog (reply AcmeStatus) :=
  _ ← requires user TlsRead; r ← ask AcmeStatusCall; mret (json r).
Definition update_acme_config (user : AuthUser) (req : UpdateAcmeConfigRequest) : prog (reply AcmeStatus) :=
  _ ← requires user TlsWrite;
  _ ← await (AcmeUpdate req);
  _ ← audited user "acme.config.update" (Some (lit "acme")) None AuditSuccess None;
  r ← ask AcmeStatusCall;
  mret (json r).
Definition issue_acme (user : AuthUser) : prog (reply AcmeStatus) :=
  _ ← requires user TlsWrite;
  status ← await AcmeTrigger;
  _ ← audited user "acme.issue" (Some (lit "acme")) None AuditSuccess None;
  mret (json status).
(** The inventory, which depends on whether a broker answers, is built by the schema. *)
Definition broker_split (user : AuthUser) : prog (reply BrokerSplitInventory) :=
  _ ← requires user OperationsRead; r ← ask BrokerInventory; mret (json r).

Definition handle {T} (e : endpoint T) (user : AuthUser) : prog (reply T) :=
  match e with
  | BrokerSplit => broker_split user | AcmeStatus_ => acme_status user
  | UpdateAcme req => update_acme_config user req | IssueAcme => issue_acme user
  end.
End security.
End SecurityApi.

(** ** Devices (gpus.rs, pci.rs, usb.rs) *)

Module DevicesApi.
Section devices.
Context `{Schema}.

Inductive endpoint : Type → Type :=
  | Gpus : endpoint (list GpuDevice)
  | BindGpu (pci_address : str) (force : bool) : endpoint OperationRecord
  | PciDevices : endpoint (list PciDevice)
  | BindPci (pci_address : str) (force : bool) : endpoint GpuDevice
  | UsbDevices : endpoint (list UsbDevice).

Definition route {T} (e : endpoint T) : method * list str :=
  match e with
  | Gpus => (GET, [lit "gpus"])
  | BindGpu a _ => (POST, [lit "gpus"; a; lit "bind"])
  | PciDevices => (GET, [lit "pci-devices"])
  | BindPci a _ => (POST, [lit "pci-devices"; a; lit "bind"])
  | UsbDevices => (GET, [lit "usb-devices"])
  end.

Definition gpus_list (user : AuthUser) : prog (reply (list GpuDevice)) :=
  _ ← requires user GpuRead; r ← await GpuList; mret (json r).
Definition gpus_bind (user : AuthUser) (pci_address : str) (force : bool) : prog (reply OperationRecord) :=
  _ ← requires user GpuWrite;
  record ← enqueued user "gpu.bind" "gpu" (Some pci_address) "binding to vfio-pci" (λ handle,
    device ← await (GpuBind pci_address force);
    _ ← await (OpsSetResultId handle (gd_pci_address device));
    mret (Some ("bound GPU " ++ gd_pci_address device)));
  mret (accepted record).
Definition pci_list (user : AuthUser) : prog (reply (list PciDevice)) :=
  _ ← requires user GpuRead; r ← await PciList; mret (json r).
Definition pci_bind (user : AuthUser) (pci_address : str) (force : bool) : prog (reply GpuDevice) :=
  _ ← requires user GpuWrite; r ← await (GpuBind pci_address force); mret (json r).
Definition usb_list (user : AuthUser) : prog (reply (list UsbDevice)) :=
  _ ← requires user GpuRead; r ← await UsbList; mret (json r).

Definition handle {T} (e : endpoint T) (user : AuthUser) : prog (reply T) :=
  match e with
  | Gpus => gpus_list user | BindGpu a force => gpus_bind user a force
  | PciDevices => pci_list user | BindPci a force => pci_bind user a force
  | UsbDevices => usb_list user
  end.
End devices.
End DevicesApi.

(** ** Operations and the audit log (operations.rs, audit.rs) *)

Module OperationsApi.
Section operations.
Context `{Schema}.

Inductive endpoint : Type → Type :=
  | List_ : endpoint (list OperationRecord)
  | GetOne (id : str) : endpoint OperationRecord
  | Reconcile (body : option ReconcileRequest) : endpoint OperationRecord
  | ListQuarantine : endpoint (list QuarantineRecord)
  | Decide (id : str) (decision : QuarantineDecision) (message : option str) : endpoint QuarantineRecord
  | Audit (limit : option nat) : endpoint (list AuditEvent).

Definition route {T} (e : endpoint T) : method * list str :=
  match e with
  | List_ => (GET, [lit "operations"])
  | Reconcile _ => (POST, lits ["operations"; "reconcile"])
  | ListQuarantine => (GET, lits ["operations"; "quarantine"])
  | Decide id _ _ => (PATCH, [lit "operations"; lit "quarantine"; id])
  | GetOne id => (GET, [lit "operations"; id])
  | Audit _ => (GET, [lit "audit"])
  end.

Definition list_ (user : AuthUser) : prog (reply (list OperationRecord)) :=
  _ ← requires user OperationsRead; r ← await OpsList; mret (json r).
Definition get_one (user : AuthUser) (id : str) : prog (reply OperationRecord) :=
  _ ← requires user OperationsRead; r ← await (OpsGet id); mret (json r).
Definition reconcile (user : AuthUser) (body : option ReconcileRequest) : prog (reply OperationRecord) :=
  _ ← requires user OperationsWrite;
  let request := default (mkReconcile DryRun None true) body in
  record ← await (OpsReconcile request (Some (user_id user)));
  mret (accepted record).
Definition list_quarantine (user : AuthUser) : prog (reply (list QuarantineRecord)) :=
  _ ← requires user OperationsRead; r ← await OpsListQuarantine; mret (json r).
Definition decide_quarantine (user : AuthUser) (id : str) (decision : QuarantineDecision)
    (message : option str) : prog (reply QuarantineRecord) :=
  _ ← requires user OperationsWrite;
  record ← await (OpsDecide id decision (user_id user) message);
  mret (json record).

Definition DEFAULT_LIMIT : nat := 200.
Definition MAX_LIMIT : nat := 1000.
Definition list_audit (user : AuthUser) (limit : option nat) : prog (reply (list AuditEvent)) :=
  _ ← requires user AuditRead;
  let limit := Nat.min (Nat.max (default DEFAULT_LIMIT limit) 1) MAX_LIMIT in
  r ← await (AuditList limit);
  mret (json r).

Definition handle {T} (e : endpoint T) (user : AuthUser) : prog (reply T) :=
  match e with
  | List_ => list_ user | GetOne id => get_one user id | Reconcile body => reconcile user body
  | ListQuarantine => list_quarantine user
  | Decide id decision message => decide_quarantine user id decision message
  | Audit limit => list_audit user limit
  end.
End operations.
End OperationsApi.

(** ** Notification channels and alert rules (notifications.rs, alerts.rs) *)

Module NotificationsApi.
Section notifications.
Context `{Schema}.

Inductive endpoint : Type → Type :=
  | List_ : endpoint (list NotificationChannel)
  | Create (req : CreateNotificationChannelRequest) : endpoint NotificationChannel
  | GetOne (id : str) : endpoint NotificationChannel
  | Update (id : str) (req : UpdateNotificationChannelRequest) : endpoint NotificationChannel
  | Delete_ (id : str) : endpoint unit
  | Test_ (id : str) : endpoint unit
  | AlertList : endpoint (list AlertRule)
  | AlertCreate (req : CreateAlertRuleRequest) : endpoint AlertRule
  | AlertGet (id : str) : endpoint AlertRule
  | AlertUpdate (id : str) (req : UpdateAlertRuleRequest) : endpoint AlertRule
  | AlertDelete (id : str) : endpoint unit.

Definition route {T} (e : endpoint T) : method * list str :=
  match e with
  | List_ => (GET, [lit "notifications"])
  | Create _ => (POST, [lit "notifications"])
  | GetOne id => (GET, [lit "notifications"; id])
  | Update id _ => (PATCH, [lit "notifications"; id])
  | Delete_ id => (DELETE, [lit "notifications"; id])
  | Test_ id => (POST, [lit "notifications"; id; lit "test"])
  | AlertList => (GET, [lit "alerts"])
  | AlertCreate _ => (POST, [lit "alerts"])
  | AlertGet id => (GET, [lit "alerts"; id])
  | AlertUpdate id _ => (PATCH, [lit "alerts"; id])
  | AlertDelete id => (DELETE, [lit "alerts"; id])
  end.

Definition list_ (user : AuthUser) : prog (reply (list NotificationChannel)) :=
  _ ← requires user NotificationRead; r ← await NotList; mret (json r).
Definition create (user : AuthUser) (req : CreateNotificationChannelRequest) : prog (reply NotificationChannel) :=
  _ ← requires user NotificationWrite; r ← await (NotCreate req); mret (created r).
Definition get_one (user : AuthUser) (id : str) : prog (reply NotificationChannel) :=
  _ ← requires user NotificationRead; r ← await (NotGet id); mret (json r).
Definition update (user : AuthUser) (id : str) (req : UpdateNotificationChannelRequest) : prog (reply NotificationChannel) :=
  _ ← requires user NotificationWrite; r ← await (NotUpdate id req); mret (json r).
(** Whether a channel was there is not looked at. *)
Definition delete_ (user : AuthUser) (id : str) : prog (reply unit) :=
  _ ← requires user NotificationWrite; _ ← await (NotDelete id); mret no_content.
Definition test_ (user : AuthUser) (id : str) : prog (reply unit) :=
  _ ← requires user NotificationWrite; _ ← await (NotTest id); mret no_content.

Definition alerts_list (user : AuthUser) : prog (reply (list AlertRule)) :=
  _ ← requires user NotificationRead; r ← await AlList; mret (json r).
Definition alerts_create (user : AuthUser) (req : CreateAlertRuleRequest) : prog (reply AlertRule) :=
  _ ← requires user NotificationWrite; r ← await (AlCreate req); mret (created r).
Definition alerts_get_one (user : AuthUser) (id : str) : prog (reply AlertRule) :=
  _ ← requires user NotificationRead; r ← await (AlGet id); mret (json r).
Definition alerts_update (user : AuthUser) (id : str) (req : UpdateAlertRuleRequest) : prog (reply AlertRule) :=
  _ ← requires user NotificationWrite; r ← await (AlUpdate id req); mret (json r).
Definition alerts_delete (user : AuthUser) (id : str) : prog (reply unit) :=
  _ ← requires user NotificationWrite; _ ← await (AlDelete id); mret no_content.

Definition handle {T} (e : endpoint T) (user : AuthUser) : prog (reply T) :=
  match e with
  | List_ => list_ user | Create req => create user req | GetOne id => get_one user id
  | Update id req => update user id req | Delete_ id => delete_ user id | Test_ id => test_ user id
  | AlertList => alerts_list user | AlertCreate req => alerts_create user req
  | AlertGet id => alerts_get_one user id | AlertUpdate id req => alerts_update user id req
  | AlertDelete id => alerts_delete user id
  end.
End notifications.
End NotificationsApi.

(** ** Metrics (metrics.rs) *)

Module MetricsApi.
Section metrics.
Context `{Schema}.

Inductive endpoint : Type → Type :=
  | Node : endpoint NodeMetrics
  | Guests : endpoint (list GuestMetricsSample)
  | History (scope : option MetricsScope) (guest_id from to : option str) : endpoint (list GuestMetricsSample)
  | Prometheus : endpoint str
  | StreamTicket : endpoint (str * str).

Definition route {T} (e : endpoint T) : method * list str :=
  match e with
  | Node => (GET, lits ["metrics"; "node"])
  | Guests => (GET, lits ["metrics"; "guests"])
  | History _ _ _ _ => (GET, lits ["metrics"; "history"])
  | Prometheus => (GET, lits ["metrics"; "prometheus"])
  | StreamTicket => (POST, lits ["metrics"; "stream"; "ticket"])
  end.

Definition node (user : AuthUser) : prog (reply NodeMetrics) :=
  _ ← requires user MetricsRead; r ← ask MetNode; mret (json r).
Definition current_guests (user : AuthUser) : prog (reply (list GuestMetricsSample)) :=
  _ ← requires user MetricsRead; r ← ask MetGuests; mret (json r).
Definition history (user : AuthUser) (scope : option MetricsScope) (guest_id from to : option str) :
    prog (reply (list GuestMetricsSample)) :=
  _ ← requires user MetricsRead; r ← await (MetHistory scope guest_id from to); mret (json r).
Definition prometheus (user : AuthUser) : prog (reply str) :=
  _ ← requires user MetricsRead; r ← await MetPrometheus; mret (json r).
Definition stream_ticket (user : AuthUser) : prog (reply (str * str)) :=
  _ ← requires user MetricsRead; r ← ask (MetMintTicket (user_id user)); mret (json r).

Definition handle {T} (e : endpoint T) (user : AuthUser) : prog (reply T) :=
  match e with
  | Node => node user | Guests => current_guests user
  | History scope guest_id from to => history user scope guest_id from to
  | Prometheus => prometheus user | StreamTicket => stream_ticket user
  end.

(** The check before the stream of [stream] is opened. *)
Definition stream_authorized (ticket authorization : option str) : prog unit :=
  match ticket with
  | Some ticket =>
      found ← ask (MetRedeemTicket ticket);
      match found with
      | None => Throw (unauthorized "invalid or expired stream ticket")
      | Some _ => mret tt
      end
  | None =>
      token ← returned (ok_or (unauthorized "missing stream ticket")
                          (v ← authorization; strip_prefix "Bearer " v));
      user ← await (AuthAuthenticate token);
      if c_must_change_password user then
        Throw (forbidden "change the initial password before using the control plane")
      else if negb (bool_decide (MetricsRead ∈ c_permissions user)) then
        Throw (forbidden "missing permission: MetricsRead")
      else mret tt
  end.
(** The frames of one tick: the node's, then one per guest. *)
Definition stream_frames : prog (NodeMetrics * list GuestMetricsSample) :=
  n ← ask MetNode; guests ← ask MetGuests; mret (n, guests).
End metrics.
End MetricsApi.
