(* ===== verification/ApiAccounts.v ===== *)
(** * Account, backup and schedule endpoints (src/src/api/users.rs, acl.rs, tokens.rs,
    auth.rs, backups.rs, schedules.rs, snapshot_schedules.rs) *)

From S2P Require Export Api.

(** ** Users and the ACL (users.rs, acl.rs) *)

Module UsersApi.
Section users.
Context `{Schema}.

Inductive endpoint : Type → Type :=
  | List_ : endpoint (list User)
  | Create (req : CreateUserRequest) : endpoint User
  | Update (id : str) (req : UpdateUserRequest) : endpoint User
  | Delete_ (id : str) : endpoint unit
  | AclList_ : endpoint (list AclEntry)
  | AclCreate_ (req : CreateAclEntryRequest) : endpoint AclEntry
  | AclDelete_ (id : str) : endpoint unit.

Definition route {T} (e : endpoint T) : method * list str :=
  match e with
  | List_ => (GET, [lit "users"])
  | Create _ => (POST, [lit "users"])
  | Update id _ => (PATCH, [lit "users"; id])
  | Delete_ id => (DELETE, [lit "users"; id])
  | AclList_ => (GET, [lit "acl"])
  | AclCreate_ _ => (POST, [lit "acl"])
  | AclDelete_ id => (DELETE, [lit "acl"; id])
  end.

Definition list_ (user : AuthUser) : prog (reply (list User)) :=
  _ ← requires user UserAdmin; r ← ask AuthListUsers; mret (json r).
Definition create (user : AuthUser) (req : CreateUserRequest) : prog (reply User) :=
  _ ← requires user UserAdmin;
  u ← await (AuthCreateUser req);
  _ ← audited user "user.create" (Some (lit "user")) (Some (u_id u)) AuditSuccess
        (Some ("created user " ++ debug_str (u_username u)));
  mret (created u).
Definition update (user : AuthUser) (id : str) (req : UpdateUserRequest) : prog (reply User) :=
  _ ← requires user UserAdmin;
  u ← await (AuthUpdateUser id req);
  _ ← audited user "user.update" (Some (lit "user")) (Some (u_id u)) AuditSuccess None;
  mret (json u).
Definition delete_ (user : AuthUser) (id : str) : prog (reply unit) :=
  _ ← requires user UserAdmin;
  _ ← await (AuthDeleteUser id);
  _ ← await (AclRemoveSubject id);
  _ ← audited user "user.delete" (Some (lit "user")) (Some id) AuditSuccess None;
  mret no_content.

Definition list_acl (user : AuthUser) : prog (reply (list AclEntry)) :=
  _ ← requires user UserAdmin; r ← ask AclListAll; mret (json r).
(** [format!("{:?}", role)]. *)
Definition role_name (r : Role) : str :=
  match r with Admin => "Admin" | Operator => "Operator" | Viewer => "Viewer" end.
Definition create_acl (user : AuthUser) (req : CreateAclEntryRequest) : prog (reply AclEntry) :=
  _ ← requires user UserAdmin;
  found ← ask (AuthUserById (ar_subject req));
  subject ← returned (ok_or (validation "subject user does not exist") found);
  entry ← await (AclCreate (ar_path req) (u_id subject) (u_username subject) (ar_role req)
                   (default true (ar_propagate req)));
  _ ← audited user "acl.grant" (Some (lit "acl")) (Some (e_id entry)) AuditSuccess
        (Some (role_name (e_role entry) ++ " to " ++ u_username subject ++ " on " ++ e_path entry));
  mret (created entry).
Definition delete_acl (user : AuthUser) (id : str) : prog (reply unit) :=
  _ ← requires user UserAdmin;
  _ ← await (AclDelete id);
  _ ← audited user "acl.revoke" (Some (lit "acl")) (Some id) AuditSuccess None;
  mret no_content.

Definition handle {T} (e : endpoint T) (user : AuthUser) : prog (reply T) :=
  match e with
  | List_ => list_ user | Create req => create user req | Update id req => update user id req
  | Delete_ id => delete_ user id | AclList_ => list_acl user | AclCreate_ req => create_acl user req
  | AclDelete_ id => delete_acl user id
  end.
End users.
End UsersApi.

(** ** The caller's own account (tokens.rs, auth.rs) *)

Module SelfApi.
Section self.
Context `{Schema}.

Inductive endpoint : Type → Type :=
  | ListTokens : endpoint (list ApiToken)
  | CreateToken (req : CreateApiTokenRequest) : endpoint (str * ApiToken)
  | DeleteToken (id : str) : endpoint unit
  | Me : endpoint CurrentUser
  | Logout : endpoint unit
  | ChangePassword (req : ChangePasswordRequest) : endpoint unit
  | TwoFactorSetup : endpoint (str * str)
  | TwoFactorConfirm (code : str) : endpoint (list str)
  | TwoFactorDisable (code : str) : endpoint unit.

Definition route {T} (e : endpoint T) : method * list str :=
  match e with
  | ListTokens => (GET, [lit "tokens"])
  | CreateToken _ => (POST, [lit "tokens"])
  | DeleteToken id => (DELETE, [lit "tokens"; id])
  | Me => (GET, lits ["auth"; "me"])
  | Logout => (POST, lits ["auth"; "logout"])
  | ChangePassword _ => (POST, lits ["auth"; "change-password"])
  | TwoFactorSetup => (POST, lits ["auth"; "2fa"; "setup"])
  | TwoFactorConfirm _ => (POST, lits ["auth"; "2fa"; "confirm"])
  | TwoFactorDisable _ => (POST, lits ["auth"; "2fa"; "disable"])
  end.

Definition list_tokens (user : AuthUser) : prog (reply (list ApiToken)) :=
  r ← await (TokListFor (user_id user)); mret (json r).
Definition create_token (user : AuthUser) (req : CreateApiTokenRequest) : prog (reply (str * ApiToken)) :=
  r ← await (TokCreate (user_id user) (username user) (c_permissions (a_current user)) req);
  _ ← audited user "api_token.create" (Some (lit "api_token")) (Some (at_id r.2)) AuditSuccess
        (Some ("created token " ++ debug_str (at_name r.2)));
  mret (created r).
Definition delete_token (user : AuthUser) (id : str) : prog (reply unit) :=
  _ ← await (TokDelete (user_id user) id);
  _ ← audited user "api_token.revoke" (Some (lit "api_token")) (Some id) AuditSuccess None;
  mret no_content.

Definition me (user : AuthUser) : prog (reply CurrentUser) := mret (json (a_current user)).
Definition logout (user : AuthUser) : prog (reply unit) :=
  _ ← ask (AuthLogout (a_token user));
  _ ← audited user "auth.logout" None None AuditSuccess None;
  mret no_content.
Definition change_password (user : AuthUser) (req : ChangePasswordRequest) : prog (reply unit) :=
  _ ← await (AuthChangePassword (user_id user) (a_token user) req);
  _ ← audited user "auth.change_password" None None AuditSuccess None;
  mret no_content.
Definition two_factor_setup (user : AuthUser) : prog (reply (str * str)) :=
  r ← await (AuthTwoFactorSetup (user_id user)); mret (json r).
Definition two_factor_confirm (user : AuthUser) (code : str) : prog (reply (list str)) :=
  r ← await (AuthTwoFactorConfirm (user_id user) code);
  _ ← audited user "auth.2fa.enable" None None AuditSuccess None;
  mret (json r).
Definition two_factor_disable (user : AuthUser) (code : str) : prog (reply unit) :=
  _ ← await (AuthTwoFactorDisable (user_id user) code);
  _ ← audited user "auth.2fa.disable" None None AuditSuccess None;
  mret no_content.

Definition handle {T} (e : endpoint T) (user : AuthUser) : prog (reply T) :=
  match e with
  | ListTokens => list_tokens user | CreateToken req => create_token user req
  | DeleteToken id => delete_token user id | Me => me user | Logout => logout user
  | ChangePassword req => change_password user req | TwoFactorSetup => two_factor_setup user
  | TwoFactorConfirm code => two_factor_confirm user code
  | TwoFactorDisable code => two_factor_disable user code
  end.
End self.
End SelfApi.

(** ** Backups (backups.rs) *)

Module BackupsApi.
Section backups.
Context `{Schema}.

Inductive endpoint : Type → Type :=
  | ListPlans : endpoint (list BackupPlan)
  | CreatePlan (req : CreateBackupPlanRequest) : endpoint BackupPlan
  | GetPlan (id : str) : endpoint BackupPlan
  | UpdatePlan (id : str) (req : UpdateBackupPlanRequest) : endpoint BackupPlan
  | DeletePlan (id : str) : endpoint unit
  | RunPlan (id : str) : endpoint OperationRecord
  | ListArtifacts (plan_id : option str) : endpoint (list BackupArtifact)
  | Restore (id : str) (req : RestoreBackupRequest) : endpoint OperationRecord.

Definition route {T} (e : endpoint T) : method * list str :=
  let at_ rest := lit "backups" :: rest in
  match e with
  | ListPlans => (GET, at_ [lit "plans"])
  | CreatePlan _ => (POST, at_ [lit "plans"])
  | GetPlan id => (GET, at_ [lit "plans"; id])
  | UpdatePlan id _ => (PATCH, at_ [lit "plans"; id])
  | DeletePlan id => (DELETE, at_ [lit "plans"; id])
  | RunPlan id => (POST, at_ [lit "plans"; id; lit "run"])
  | ListArtifacts _ => (GET, at_ [lit "artifacts"])
  | Restore id _ => (POST, at_ [lit "artifacts"; id; lit "restore"])
  end.

Definition list_plans (user : AuthUser) : prog (reply (list BackupPlan)) :=
  _ ← requires user BackupRead; r ← await BkListPlans; mret (json r).
Definition create_plan (user : AuthUser) (req : CreateBackupPlanRequest) : prog (reply BackupPlan) :=
  _ ← requires user BackupWrite; r ← await (BkCreatePlan req); mret (created r).
Definition get_plan (user : AuthUser) (id : str) : prog (reply BackupPlan) :=
  _ ← requires user BackupRead; r ← await (BkGetPlan id); mret (json r).
Definition update_plan (user : AuthUser) (id : str) (req : UpdateBackupPlanRequest) : prog (reply BackupPlan) :=
  _ ← requires user BackupWrite; r ← await (BkUpdatePlan id req); mret (json r).
Definition delete_plan (user : AuthUser) (id : str) : prog (reply unit) :=
  _ ← requires user BackupWrite; _ ← await (BkDeletePlan id); mret no_content.
Definition run_plan (user : AuthUser) (id : str) : prog (reply OperationRecord) :=
  _ ← requires user BackupWrite;
  record ← await (BkEnqueueBackup id (Some (user_id user)));
  mret (accepted record).
Definition list_artifacts (user : AuthUser) (plan_id : option str) : prog (reply (list BackupArtifact)) :=
  _ ← requires user BackupRead; r ← await (BkListArtifacts plan_id); mret (json r).
Definition restore (user : AuthUser) (id : str) (req : RestoreBackupRequest) : prog (reply OperationRecord) :=
  _ ← requires user BackupWrite;
  record ← await (BkEnqueueRestore id req (Some (user_id user)));
  mret (accepted record).

Definition handle {T} (e : endpoint T) (user : AuthUser) : prog (reply T) :=
  match e with
  | ListPlans => list_plans user | CreatePlan req => create_plan user req | GetPlan id => get_plan user id
  | UpdatePlan id req => update_plan user id req | DeletePlan id => delete_plan user id
  | RunPlan id => run_plan user id | ListArtifacts plan_id => list_artifacts user plan_id
  | Restore id req => restore user id req
  end.
End backups.
End BackupsApi.

(** ** Schedules (schedules.rs, snapshot_schedules.rs) *)

Module SchedulesApi.
Section schedules.
Context `{Schema}.

Inductive endpoint : Type → Type :=
  | List_ (kind : option ScheduleTarget) (target_id : option str) : endpoint (list PowerSchedule)
  | Create (req : CreatePowerScheduleRequest) : endpoint PowerSchedule
  | GetOne (id : str) : endpoint PowerSchedule
  | Update (id : str) (req : UpdatePowerScheduleRequest) : endpoint PowerSchedule
  | Delete_ (id : str) : endpoint unit
  | SnapList_ (kind : option ScheduleTarget) (target_id : option str) : endpoint (list SnapshotSchedule)
  | SnapCreate_ (req : CreateSnapshotScheduleRequest) : endpoint SnapshotSchedule
  | SnapGet_ (id : str) : endpoint SnapshotSchedule
  | SnapUpdate_ (id : str) (req : UpdateSnapshotScheduleRequest) : endpoint SnapshotSchedule
  | SnapDelete_ (id : str) : endpoint unit.

Definition route {T} (e : endpoint T) : method * list str :=
  match e with
  | List_ _ _ => (GET, [lit "schedules"])
  | Create _ => (POST, [lit "schedules"])
  | GetOne id => (GET, [lit "schedules"; id])
  | Update id _ => (PATCH, [lit "schedules"; id])
  | Delete_ id => (DELETE, [lit "schedules"; id])
  | SnapList_ _ _ => (GET, [lit "snapshot-schedules"])
  | SnapCreate_ _ => (POST, [lit "snapshot-schedules"])
  | SnapGet_ id => (GET, [lit "snapshot-schedules"; id])
  | SnapUpdate_ id _ => (PATCH, [lit "snapshot-schedules"; id])
  | SnapDelete_ id => (DELETE, [lit "snapshot-schedules"; id])
  end.

Definition power_permission (kind : ScheduleTarget) : Permission :=
  match kind with Schedules.Vm => VmPower | Schedules.Lxc => LxcPower end.
Definition write_permission (kind : ScheduleTarget) : Permission :=
  match kind with Schedules.Vm => VmWrite | Schedules.Lxc => LxcWrite end.
Definition read_permission (kind : ScheduleTarget) : Permission :=
  match kind with Schedules.Vm => VmRead | Schedules.Lxc => LxcRead end.

Definition ensure_target_exists (kind : ScheduleTarget) (target_id : str) : prog unit :=
  match kind with
  | Schedules.Vm => _ ← await (KvmGet target_id); mret tt
  | Schedules.Lxc => _ ← await (LxcGet target_id); mret tt
  end.
(** Reading needs access to the kind that is asked for, or to both. *)
Definition require_kinds (user : AuthUser) (kind : option ScheduleTarget) : prog unit :=
  match kind with
  | Some kind => requires user (read_permission kind)
  | None => _ ← requires user VmRead; requires user LxcRead
  end.

Definition list_ (user : AuthUser) (kind : option ScheduleTarget) (target_id : option str) :
    prog (reply (list PowerSchedule)) :=
  _ ← require_kinds user kind;
  schedules ← (match kind, target_id with
               | Some kind, Some id => await (SchListFor kind id)
               | _, _ => await SchList
               end);
  mret (json schedules).
Definition create (user : AuthUser) (req : CreatePowerScheduleRequest) : prog (reply PowerSchedule) :=
  _ ← requires user (power_permission (cp_target_kind req));
  _ ← ensure_target_exists (cp_target_kind req) (cp_target_id req);
  r ← await (SchCreate req);
  mret (created r).
(** The schedule is read before the permission is known. *)
Definition get_one (user : AuthUser) (id : str) : prog (reply PowerSchedule) :=
  schedule ← await (SchGet id);
  _ ← requires user (read_permission (pw_target_kind schedule));
  mret (json schedule).
Definition update (user : AuthUser) (id : str) (req : UpdatePowerScheduleRequest) : prog (reply PowerSchedule) :=
  existing ← await (SchGet id);
  _ ← requires user (power_permission (pw_target_kind existing));
  r ← await (SchUpdate id req);
  mret (json r).
Definition delete_ (user : AuthUser) (id : str) : prog (reply unit) :=
  existing ← await (SchGet id);
  _ ← requires user (power_permission (pw_target_kind existing));
  found ← await (SchDelete id);
  if found : bool then mret no_content else Throw (not_found ("schedule " ++ id)).

Definition snap_list (user : AuthUser) (kind : option ScheduleTarget) (target_id : option str) :
    prog (reply (list SnapshotSchedule)) :=
  _ ← require_kinds user kind;
  schedules ← (match kind, target_id with
               | Some kind, Some id => await (SnapListFor kind id)
               | _, _ => await SnapList
               end);
  mret (json schedules).
Definition snap_create (user : AuthUser) (req : CreateSnapshotScheduleRequest) : prog (reply SnapshotSchedule) :=
  _ ← requires user (write_permission (cs_target_kind req));
  _ ← ensure_target_exists (cs_target_kind req) (cs_target_id req);
  r ← await (SnapCreate req);
  mret (created r).
Definition snap_get_one (user : AuthUser) (id : str) : prog (reply SnapshotSchedule) :=
  schedule ← await (SnapGet id);
  _ ← requires user (read_permission (sn_target_kind schedule));
  mret (json schedule).
Definition snap_update (user : AuthUser) (id : str) (req : UpdateSnapshotScheduleRequest) :
    prog (reply SnapshotSchedule) :=
  existing ← await (SnapGet id);
  _ ← requires user (write_permission (sn_target_kind existing));
  r ← await (SnapUpdate id req);
  mret (json r).
Definition snap_delete (user : AuthUser) (id : str) : prog (reply unit) :=
  existing ← await (SnapGet id);
  _ ← requires user (write_permission (sn_target_kind existing));
  found ← await (SnapDelete id);
  if found : bool then mret no_content else Throw (not_found ("snapshot schedule " ++ id)).

Definition handle {T} (e : endpoint T) (user : AuthUser) : prog (reply T) :=
  match e with
  | List_ kind id => list_ user kind id | Create req => create user req | GetOne id => get_one user id
  | Update id req => update user id req | Delete_ id => delete_ user id
  | SnapList_ kind id => snap_list user kind id | SnapCreate_ req => snap_create user req
  | SnapGet_ id => snap_get_one user id | SnapUpdate_ id req => snap_update user id req
  | SnapDelete_ id => snap_delete user id
  end.
End schedules.
End SchedulesApi.
