(* ===== verification/ApiRouter.v ===== *)
(** * The route tree (src/src/api/mod.rs) and what each call of a service needs

    [endpoint] is the merged tree of [router]; [uri] is the path of a request below
    the version prefix, for parameters that need no percent-encoding.  The second
    half is the specification: the permission behind every call, the item it acts
    on, and the calls that belong into the operation journal. *)

From S2P Require Export ApiGuests ApiNode ApiAccounts.

Section router.
Context `{Schema}.

(** The groups that [router] merges. *)
Inductive endpoint (T : Type) : Type :=
  | EPools (e : PoolsApi.endpoint T) | EVms (e : VmsApi.endpoint T)
  | EContainers (e : ContainersApi.endpoint T) | EStorage (e : StorageApi.endpoint T)
  | ELibrary (e : LibraryApi.endpoint T) | ENetwork (e : NetworkApi.endpoint T)
  | ESecurity (e : SecurityApi.endpoint T) | EDevices (e : DevicesApi.endpoint T)
  | EOperations (e : OperationsApi.endpoint T) | ENotifications (e : NotificationsApi.endpoint T)
  | EMetrics (e : MetricsApi.endpoint T) | EUsers (e : UsersApi.endpoint T)
  | ESelf (e : SelfApi.endpoint T) | EBackups (e : BackupsApi.endpoint T)
  | ESchedules (e : SchedulesApi.endpoint T).

Definition route {T} (e : endpoint T) : method * list str :=
  match e with
  | EPools _ e => PoolsApi.route e | EVms _ e => VmsApi.route e
  | EContainers _ e => ContainersApi.route e | EStorage _ e => StorageApi.route e
  | ELibrary _ e => LibraryApi.route e | ENetwork _ e => NetworkApi.route e
  | ESecurity _ e => SecurityApi.route e | EDevices _ e => DevicesApi.route e
  | EOperations _ e => OperationsApi.route e | ENotifications _ e => NotificationsApi.route e
  | EMetrics _ e => MetricsApi.route e | EUsers _ e => UsersApi.route e
  | ESelf _ e => SelfApi.route e | EBackups _ e => BackupsApi.route e
  | ESchedules _ e => SchedulesApi.route e
  end.
Definition uri {T} (e : endpoint T) : str := render (route e).2.

Definition handle {T} (e : endpoint T) (user : AuthUser) : prog (reply T) :=
  match e with
  | EPools _ e => PoolsApi.handle e user | EVms _ e => VmsApi.handle e user
  | EContainers _ e => ContainersApi.handle e user | EStorage _ e => StorageApi.handle e user
  | ELibrary _ e => LibraryApi.handle e user | ENetwork _ e => NetworkApi.handle e user
  | ESecurity _ e => SecurityApi.handle e user | EDevices _ e => DevicesApi.handle e user
  | EOperations _ e => OperationsApi.handle e user | ENotifications _ e => NotificationsApi.handle e user
  | EMetrics _ e => MetricsApi.handle e user | EUsers _ e => UsersApi.handle e user
  | ESelf _ e => SelfApi.handle e user | EBackups _ e => BackupsApi.handle e user
  | ESchedules _ e => SchedulesApi.handle e user
  end.

(** The responder at [/.well-known/acme-challenge/{token}], which nobody has to log in
    for. *)
Definition acme_challenge (token : str) : prog (reply (option str)) :=
  found ← ask (AcmeChallenge token);
  mret (match found with Some key_auth => json (Some key_auth) | None => mkReply 404 None None end).

(** ** What a call needs *)

Inductive need :=
  (** Open to every caller: bookkeeping of a request that was let in. *)
  | Anyone
  (** The caller's own account. *)
  | Own (user_id : str)
  (** One of these permissions. *)
  | OneOf (ps : list Permission).

Definition need_of {B} (c : svc_call B) : need :=
  match c with
  | KvmList => OneOf [VmRead; PoolRead; PoolWrite]
  | KvmListIsos | KvmGuestAgent _ | KvmListSnapshots _ => OneOf [VmRead]
  | KvmGet _ => OneOf [VmRead; VmPower; VmWrite]
  | KvmCreate _ | KvmUpdate _ _ | KvmDelete _ | KvmClone _ _ | KvmCreateSnapshot _ _
  | KvmRollbackSnapshot _ _ | KvmDeleteSnapshot _ _ | KvmResizeDisk _ _ _ | KvmAttachDisk _ _
  | KvmDetachDisk _ _ | KvmMigrateDisk _ _ | KvmAttachUsb _ _ | KvmDetachUsb _ _ _
  | KvmAttachPci _ _ | KvmDetachPci _ _ | KvmIommuWarning _ _ => OneOf [VmWrite]
  | KvmPower _ _ | KvmRestoreRam _ _ | KvmConsole _ | KvmSerialConsole _ | KvmSpice _ => OneOf [VmPower]
  | LxcListAll => OneOf [LxcRead; PoolRead; PoolWrite]
  | LxcGet _ => OneOf [LxcRead; LxcPower; LxcWrite]
  | LxcListSnapshots _ => OneOf [LxcRead]
  | LxcCreate _ | LxcUpdate _ _ | LxcDelete _ | LxcMigrateRootfs _ _ | LxcSnapshotCall _ _ _
  | LxcRollbackSnapshot _ _ | LxcDeleteSnapshot _ _ => OneOf [LxcWrite]
  | LxcPowerCall _ _ | LxcConsole _ => OneOf [LxcPower]
  | ZfsListPools | ZfsListDisks | ZfsSmart _ | ZfsListDatasets | ZfsListSnapshots _ | SharesList
  | LibList _ | LibFetches => OneOf [StorageRead]
  | ZfsCreatePool _ | ZfsWipe _ | ZfsCreateDataset _ | ZfsCreateSnapshot _ _ | ZfsCloneSnapshot _ _
  | SharesCreate _ | SharesDelete _ | LibUpload _ _ _ | LibDelete _ _ | LibResolve _ | LibFetch _
  | KvmImportImage _ _ _ => OneOf [StorageWrite]
  | NetListBridges | NetListVlans | FwGet => OneOf [NetworkRead]
  | NetCreateBridge _ | NetCreateVlan _ | FwUpdate _ => OneOf [NetworkWrite]
  | GpuList | PciList | UsbList => OneOf [GpuRead]
  | GpuBind _ _ => OneOf [GpuWrite]
  | PoolsList => OneOf [PoolRead]
  | PoolsGet _ => OneOf [PoolRead; PoolWrite]
  | PoolsEnsureExists _ => OneOf [VmWrite; LxcWrite]
  | PoolsCreate _ | PoolsUpdate _ _ | PoolsDelete _ => OneOf [PoolWrite]
  | BkListPlans | BkGetPlan _ | BkListArtifacts _ => OneOf [BackupRead]
  | BkCreatePlan _ | BkUpdatePlan _ _ | BkDeletePlan _ => OneOf [BackupWrite]
  | BkEnqueueBackup _ _ | BkEnqueueRestore _ _ _ => OneOf [BackupWrite]
  | SchList | SnapList => OneOf [VmRead; LxcRead]
  | SchListFor kind _ | SnapListFor kind _ => OneOf [SchedulesApi.read_permission kind]
  (* which permission a schedule takes is read from the schedule *)
  | SchGet _ | SnapGet _ => Anyone
  | SchCreate req => OneOf [SchedulesApi.power_permission (cp_target_kind req)]
  | SchUpdate _ _ | SchDelete _ => OneOf [VmPower; LxcPower]
  | SnapCreate req => OneOf [SchedulesApi.write_permission (cs_target_kind req)]
  | SnapUpdate _ _ | SnapDelete _ => OneOf [VmWrite; LxcWrite]
  | NotList | NotGet _ | AlList | AlGet _ => OneOf [NotificationRead]
  | NotCreate _ | NotUpdate _ _ | NotDelete _ | NotTest _
  | AlCreate _ | AlUpdate _ _ | AlDelete _ => OneOf [NotificationWrite]
  | OpsList | OpsGet _ | OpsListQuarantine | BrokerInventory => OneOf [OperationsRead]
  | OpsReconcile _ _ | OpsDecide _ _ _ _ => OneOf [OperationsWrite]
  | OpsUpdateProgress _ _ _ | OpsSetResultId _ _ | AuditRecord _ => Anyone
  | MetNode | MetGuests | MetHistory _ _ _ _ | MetPrometheus => OneOf [MetricsRead]
  | MetMintTicket _ => OneOf [MetricsRead]
  | AcmeStatusCall => OneOf [TlsRead; TlsWrite]
  | AcmeUpdate _ | AcmeTrigger => OneOf [TlsWrite]
  | AuthListUsers | AuthUserById _ | AuthCreateUser _ | AuthUpdateUser _ _ | AuthDeleteUser _
  | AclListAll | AclCreate _ _ _ _ _ | AclDelete _ | AclRemoveSubject _ => OneOf [UserAdmin]
  | AuthLogout _ => Anyone
  | AuthChangePassword u _ _ | AuthTwoFactorSetup u | AuthTwoFactorConfirm u _
  | AuthTwoFactorDisable u _ | TokListFor u | TokCreate u _ _ _ | TokDelete u _ => Own u
  | AuditList _ => OneOf [AuditRead]
  (* redeemed without a caller *)
  | KvmRedeemTicket _ _ | LxcRedeemTicket _ _ | MetRedeemTicket _ | AcmeChallenge _
  | AuthAuthenticate _ => OneOf []
  end.

(** The VM, container or pool a call acts on.  [KvmGet] and [LxcGet] also serve to
    see that the target of a new schedule exists and are not in the table. *)
Definition item_of {B} (c : svc_call B) : option (str * str) :=
  match c with
  | KvmUpdate id _ | KvmDelete id | KvmPower id _ | KvmClone id _ | KvmGuestAgent id
  | KvmListSnapshots id | KvmCreateSnapshot id _ | KvmRollbackSnapshot id _ | KvmDeleteSnapshot id _
  | KvmRestoreRam id _ | KvmResizeDisk id _ _ | KvmAttachDisk id _ | KvmDetachDisk id _
  | KvmMigrateDisk id _ | KvmAttachUsb id _ | KvmDetachUsb id _ _ | KvmAttachPci id _
  | KvmDetachPci id _ | KvmIommuWarning id _ | KvmConsole id | KvmSerialConsole id | KvmSpice id =>
      Some (lit "vms", id)
  | LxcUpdate id _ | LxcDelete id | LxcPowerCall id _ | LxcMigrateRootfs id _ | LxcListSnapshots id
  | LxcSnapshotCall id _ _ | LxcRollbackSnapshot id _ | LxcDeleteSnapshot id _ | LxcConsole id =>
      Some (lit "containers", id)
  | PoolsGet id | PoolsUpdate id _ | PoolsDelete id => Some (lit "pools", id)
  | _ => None
  end.

(** The calls that belong into the operation journal, with the resource they name. *)
Definition journal_of {B} (c : svc_call B) : option (option str) :=
  match c with
  | KvmCreate _ | LxcCreate _ | ZfsCreatePool _ | ZfsCreateDataset _ | SharesCreate _
  | NetCreateBridge _ | NetCreateVlan _ => Some None
  | KvmUpdate id _ | KvmDelete id | KvmPower id _ | KvmClone id _ | KvmCreateSnapshot id _
  | KvmRollbackSnapshot id _ | KvmDeleteSnapshot id _ | KvmRestoreRam id _ | KvmResizeDisk id _ _
  | KvmAttachDisk id _ | KvmDetachDisk id _ | KvmMigrateDisk id _ | KvmAttachUsb id _
  | KvmDetachUsb id _ _ | KvmAttachPci id _ | KvmDetachPci id _
  | LxcUpdate id _ | LxcDelete id | LxcPowerCall id _ | LxcMigrateRootfs id _
  | ZfsCreateSnapshot id _ | ZfsCloneSnapshot id _ | SharesDelete id => Some (Some id)
  | _ => None
  end.

(** The calls that change something outside the control plane's own records: guests,
    disks and datasets, shares, the network and its firewall, devices, the files of the
    library. *)
Definition changes_host {B} (c : svc_call B) : bool :=
  match c with
  | KvmCreate _ | KvmUpdate _ _ | KvmDelete _ | KvmPower _ _ | KvmClone _ _ | KvmCreateSnapshot _ _
  | KvmRollbackSnapshot _ _ | KvmDeleteSnapshot _ _ | KvmRestoreRam _ _ | KvmResizeDisk _ _ _
  | KvmAttachDisk _ _ | KvmDetachDisk _ _ | KvmMigrateDisk _ _ | KvmAttachUsb _ _ | KvmDetachUsb _ _ _
  | KvmAttachPci _ _ | KvmDetachPci _ _ | KvmImportImage _ _ _
  | LxcCreate _ | LxcUpdate _ _ | LxcDelete _ | LxcPowerCall _ _ | LxcMigrateRootfs _ _
  | LxcSnapshotCall _ _ _ | LxcRollbackSnapshot _ _ | LxcDeleteSnapshot _ _
  | ZfsCreatePool _ | ZfsWipe _ | ZfsCreateDataset _ | ZfsCreateSnapshot _ _ | ZfsCloneSnapshot _ _
  | SharesCreate _ | SharesDelete _ | LibUpload _ _ _ | LibDelete _ _ | LibFetch _
  | NetCreateBridge _ | NetCreateVlan _ | FwUpdate _ | GpuBind _ _ => true
  | _ => false
  end.

(** Those of them that no record of the journal needs to precede: the snapshots of
    containers, wiping a disk, the firewall of the host, binding a device (one of its two
    endpoints is journalled), importing an image, and the library. *)
Definition unrecorded {B} (c : svc_call B) : bool :=
  match c with
  | LxcSnapshotCall _ _ _ | LxcRollbackSnapshot _ _ | LxcDeleteSnapshot _ _ | ZfsWipe _ | FwUpdate _
  | GpuBind _ _ | KvmImportImage _ _ _ | LibUpload _ _ _ | LibDelete _ _ | LibFetch _ => true
  | _ => false
  end.

Lemma journal_of_changes {B} (c : svc_call B) :
  changes_host c = true → unrecorded c = true ∨ ∃ resource, journal_of c = Some resource.
Proof. destruct c; simpl; try done; eauto. Qed.
End router.
Arguments EPools {_ T}.
Arguments EVms {_ T}.
Arguments EContainers {_ T}.
Arguments EStorage {_ T}.
Arguments ELibrary {_ T}.
Arguments ENetwork {_ T}.
Arguments ESecurity {_ T}.
Arguments EDevices {_ T}.
Arguments EOperations {_ T}.
Arguments ENotifications {_ T}.
Arguments EMetrics {_ T}.
Arguments EUsers {_ T}.
Arguments ESelf {_ T}.
Arguments EBackups {_ T}.
Arguments ESchedules {_ T}.
