(* ===== verification/ApiProofs.v ===== *)
(** * The HTTP layer authorizes, scopes and records what it does *)

From S2P Require Export ApiRouter TokensProofs.

Section every.
Context `{Schema}.
Implicit Types (P : option journal → ∀ B, svc_call B → Prop) (j : option journal).

(** [P] holds of every call of a handler, with the journal entry it runs under. *)
Fixpoint every {A} P j (p : prog A) : Prop :=
  match p with
  | Ret _ | Throw _ => True
  | Call c k => P j _ c ∧ ∀ r, every P j (k r)
  | Run e body k => every P (Some e) body ∧ ∀ r, every P j (k r)
  | Enqueue e body k => (∀ handle, every P (Some e) (body handle)) ∧ ∀ r, every P j (k r)
  end.

Lemma every_bind {A B} P j (p : prog A) (f : A → prog B) :
  every P j p → (∀ a, every P j (f a)) → every P j (p ≫= f).
Proof.
  unfold mbind, prog_mbind. revert A p f. fix IH 2. intros A p f Hp Hf.
  destruct p as [a|e|C c k|C e body k|e body k]; simpl in *; [apply Hf|done| | |];
    destruct Hp as [H1 H2]; (split; [done|]); intros r; by apply IH.
Qed.
Lemma every_assoc {A B C} P j (p : prog A) (f : A → prog B) (g : B → prog C) :
  every P j (p ≫= λ a, f a ≫= g) → every P j ((p ≫= f) ≫= g).
Proof.
  unfold mbind, prog_mbind. revert A p f. fix IH 2. intros A p f.
  destruct p as [a|e|D c k|D e body k|e body k]; simpl; [done|done| | |];
    intros [H1 H2]; (split; [done|]); intros r; by apply IH.
Qed.
Lemma every_ret {A} P j (a : A) : every P j (mret a).
Proof. done. Qed.
Lemma every_throw {A} P j e : every P j (Throw (A:=A) e).
Proof. done. Qed.
Lemma every_returned {A} P j (r : ApiResult A) : every P j (returned r).
Proof. by destruct r. Qed.
Lemma every_await {A} P j (c : svc_call (ApiResult A)) : P j _ c → every P j (await c).
Proof. intros Hc. split; [done|]. intros r. apply every_returned. Qed.
Lemma every_ask {A} P j (c : svc_call A) : P j _ c → every P j (ask c).
Proof. by split. Qed.
Lemma every_requires {A} P j user p (f : unit → prog A) :
  (require user p = Ok tt → every P j (f tt)) → every P j (requires user p ≫= f).
Proof. intros Hf. unfold requires, returned. destruct (require user p) as [[]|] eqn:E; [by apply Hf|done]. Qed.
Lemma every_journaled {A} P j user kind rt rid (body : prog A) :
  every P (Some (mkJournal (lit kind) (Some (lit rt)) rid (Some (user_id user)))) body →
  every P j (journaled user kind rt rid body).
Proof. intros Hb. split; [done|]. intros r. apply every_returned. Qed.
Lemma every_enqueued P j user kind rt rid progress body :
  (∀ handle, P (Some (mkJournal (lit kind) (Some (lit rt)) rid (Some (user_id user)))) _
     (OpsUpdateProgress handle 10 (Some (lit progress)))) →
  (∀ handle, every P (Some (mkJournal (lit kind) (Some (lit rt)) rid (Some (user_id user)))) (body handle)) →
  every P j (enqueued user kind rt rid progress body).
Proof.
  intros Hp Hb. split; [|intros r; apply every_returned]. intros handle.
  apply every_bind; [by apply every_await|]. intros _. apply Hb.
Qed.
Lemma every_if {A} P j (b : bool) (p q : prog A) :
  every P j p → every P j q → every P j (if b then p else q).
Proof. by destruct b. Qed.
End every.

Ltac every_step :=
  lazymatch goal with
  | |- every _ _ (requires _ _ ≫= _) => apply every_requires; intros ?
  | |- every _ _ ((_ ≫= _) ≫= _) => apply every_assoc
  | |- every _ _ (match ?x with _ => _ end ≫= _) => destruct x eqn:?
  | |- every _ _ (_ ≫= _) => apply every_bind; [|intros ?]
  | |- every _ _ (mret _) => apply every_ret
  | |- every _ _ (Throw _) => apply every_throw
  | |- every _ _ (returned _) => apply every_returned
  | |- every _ _ (requires _ _) => apply every_returned
  | |- every _ _ (await _) => apply every_await
  | |- every _ _ (ask _) => apply every_ask
  | |- every _ _ (audited _ _ _ _ _ _) => apply every_ask
  | |- every _ _ (journaled _ _ _ _ _) => apply every_journaled
  | |- every _ _ (enqueued _ _ _ _ _ _) => apply every_enqueued; intros ?
  | |- every _ _ (match ?x with _ => _ end) => destruct x eqn:?
  | |- every _ _ (let _ := _ in _) => cbv zeta
  end.
Ltac every := repeat every_step.

Section paths.
Context `{Schema}.
(** The parameters of a request's path are plain segments, which need no encoding. *)
Definition plain {T} (e : endpoint T) : Prop := Forall good_segment (route e).2.


Lemma item_path (kind id : str) rest :
  str_in kind collections = true → Forall good_segment (kind :: id :: rest) →
  resource_path_for (render (kind :: id :: rest)) = render [kind; id].
Proof.
  intros Hk Hf. apply Forall_cons in Hf as [_ Hf]. apply Forall_cons in Hf as [Hid _].
  assert (item_suffix (flat_map (λ s, ch "/" :: s) rest)) as Hr.
  { destruct rest as [|r rest]; [by left|right]. by eexists. }
  destruct (resource_item kind id _ Hk Hid Hr) as [E _]. exact E.
Qed.

(** ** What a caller is permitted to call *)

(** The path at which a call is checked: its item, or the path of the request. *)
Definition check_path {B} (user : AuthUser) (c : svc_call B) : str :=
  match item_of c with Some (kind, id) => render [kind; id] | None => a_path user end.
Definition permitted (user : AuthUser) {B} (c : svc_call B) : Prop :=
  match need_of c with
  | Anyone => True
  | Own u => u = user_id user
  | OneOf ps => Exists (λ p, require_at user p (check_path user c) = Ok tt) ps
  end.
End paths.

(** Close a leaf: one of the permissions is the one that was required. *)
Ltac permitted :=
  unfold permitted, check_path; cbn [need_of item_of];
  try match goal with Hp : a_path _ = _ |- _ => rewrite <- Hp end;
  first [ exact I | reflexivity
        | match goal with Hr : require _ _ = Ok tt |- _ =>
            unfold require in Hr; repeat first [apply Exists_cons_hd; exact Hr | apply Exists_cons_tl] end ].

(** Split on the kind of guest that decides a required permission. *)
Ltac kind_cbn := cbn [SchedulesApi.power_permission SchedulesApi.write_permission SchedulesApi.read_permission] in *.
Ltac by_kind :=
  repeat match goal with
  | E : ?k = _, Hr : require _ (?f ?k) = Ok tt |- _ => rewrite E in Hr; kind_cbn
  | Hr : require _ (SchedulesApi.power_permission ?k) = Ok tt |- _ => destruct k; kind_cbn
  | Hr : require _ (SchedulesApi.write_permission ?k) = Ok tt |- _ => destruct k; kind_cbn
  | Hr : require _ (SchedulesApi.read_permission ?k) = Ok tt |- _ => destruct k; kind_cbn
  end.

(** A call whose own permission depends on the kind. *)
Ltac kinds :=
  unfold permitted, check_path; cbn [need_of item_of];
  match goal with E : ?k = _ |- _ => rewrite E in *; kind_cbn end;
  by_kind; match goal with Hr : require _ _ = Ok tt |- _ => apply Exists_cons_hd; exact Hr end.

(** The handlers, whose bodies are looked at below. *)
Ltac handlers := unfold PoolsApi.list_, PoolsApi.create,
  PoolsApi.detail, PoolsApi.update, PoolsApi.delete_, VmsApi.list_, VmsApi.iso_images,
  VmsApi.create, VmsApi.get_one, VmsApi.update, VmsApi.delete_, VmsApi.power, VmsApi.guest_agent,
  VmsApi.restore_ram_snapshot, VmsApi.list_disks, VmsApi.resize_disk, VmsApi.attach_disk,
  VmsApi.migrate_disk, VmsApi.detach_disk, VmsApi.list_usb, VmsApi.attach_usb, VmsApi.detach_usb,
  VmsApi.list_pci, VmsApi.attach_pci, VmsApi.detach_pci, VmsApi.clone_vm, VmsApi.list_snapshots,
  VmsApi.create_snapshot, VmsApi.rollback_snapshot, VmsApi.delete_snapshot, VmsApi.console,
  VmsApi.serial_console, VmsApi.spice_connection, ContainersApi.console, ContainersApi.list_,
  ContainersApi.create, ContainersApi.get_one, ContainersApi.update, ContainersApi.delete_,
  ContainersApi.list_snapshots, ContainersApi.create_snapshot, ContainersApi.rollback_snapshot,
  ContainersApi.delete_snapshot, ContainersApi.power, ContainersApi.migrate_rootfs,
  StorageApi.list_pools, StorageApi.create_pool, StorageApi.list_disks, StorageApi.smart_disk,
  StorageApi.wipe_disk, StorageApi.list_datasets, StorageApi.create_dataset,
  StorageApi.list_snapshots, StorageApi.create_snapshot, StorageApi.clone_snapshot,
  StorageApi.list_shares, StorageApi.create_share, StorageApi.delete_share,
  LibraryApi.list_isos, LibraryApi.list_ct_templates, LibraryApi.list_disk_images,
  LibraryApi.upload_iso, LibraryApi.upload_ct_template,
  LibraryApi.upload_disk_image, LibraryApi.delete_iso,
  LibraryApi.delete_ct_template, LibraryApi.delete_disk_image, LibraryApi.import_disk_image,
  LibraryApi.fetch_disk_image, LibraryApi.list_disk_image_fetches, NetworkApi.get_firewall,
  NetworkApi.update_firewall, NetworkApi.list_bridges, NetworkApi.create_bridge,
  NetworkApi.list_vlans, NetworkApi.create_vlan, SecurityApi.acme_status,
  SecurityApi.update_acme_config, SecurityApi.issue_acme, SecurityApi.broker_split,
  DevicesApi.gpus_list, DevicesApi.gpus_bind, DevicesApi.pci_list, DevicesApi.pci_bind,
  DevicesApi.usb_list, OperationsApi.list_, OperationsApi.get_one, OperationsApi.reconcile,
  OperationsApi.list_quarantine, OperationsApi.decide_quarantine, OperationsApi.list_audit,
  NotificationsApi.list_, NotificationsApi.create, NotificationsApi.get_one,
  NotificationsApi.update, NotificationsApi.delete_, NotificationsApi.test_,
  NotificationsApi.alerts_list, NotificationsApi.alerts_create, NotificationsApi.alerts_get_one,
  NotificationsApi.alerts_update, NotificationsApi.alerts_delete, MetricsApi.node,
  MetricsApi.current_guests, MetricsApi.history, MetricsApi.prometheus, MetricsApi.stream_ticket,
  UsersApi.list_, UsersApi.create, UsersApi.update, UsersApi.delete_, UsersApi.list_acl,
  UsersApi.create_acl, UsersApi.delete_acl, SelfApi.list_tokens, SelfApi.create_token,
  SelfApi.delete_token, SelfApi.me, SelfApi.logout, SelfApi.change_password,
  SelfApi.two_factor_setup, SelfApi.two_factor_confirm, SelfApi.two_factor_disable,
  BackupsApi.list_plans, BackupsApi.create_plan, BackupsApi.get_plan, BackupsApi.update_plan,
  BackupsApi.delete_plan, BackupsApi.run_plan, BackupsApi.list_artifacts, BackupsApi.restore,
    SchedulesApi.list_,
  SchedulesApi.create, SchedulesApi.get_one, SchedulesApi.update, SchedulesApi.delete_,
  SchedulesApi.snap_list, SchedulesApi.snap_create, SchedulesApi.snap_get_one,
  SchedulesApi.snap_update, SchedulesApi.snap_delete, PoolsApi.members_of, PoolsApi.ensure_pool_assignment,
  SchedulesApi.ensure_target_exists, SchedulesApi.require_kinds, LibraryApi.list_kind, LibraryApi.upload_kind, LibraryApi.delete_kind.

(** The calls of one group: its handlers and its paths, then every leaf. *)
Ltac group_cbn := cbn [PoolsApi.handle VmsApi.handle ContainersApi.handle StorageApi.handle
  LibraryApi.handle NetworkApi.handle SecurityApi.handle DevicesApi.handle OperationsApi.handle
  NotificationsApi.handle MetricsApi.handle UsersApi.handle SelfApi.handle BackupsApi.handle
  SchedulesApi.handle].
Ltac routes_cbn Hp Hf := cbn [route PoolsApi.route VmsApi.route ContainersApi.route StorageApi.route
  LibraryApi.route NetworkApi.route SecurityApi.route DevicesApi.route OperationsApi.route
  NotificationsApi.route MetricsApi.route UsersApi.route SelfApi.route BackupsApi.route
  SchedulesApi.route snd] in Hp, Hf.
Ltac guarded_group e leaf :=
  let Hp := fresh "Hp" in let Hf := fresh "Hf" in
  unfold uri, plain; intros Hp Hf; destruct e; group_cbn; routes_cbn Hp Hf;
  try (rewrite item_path in Hp by done); handlers; every; leaf.

Section authorized.
Context `{Schema}.
Implicit Types (user : AuthUser).
Abbreviation guarded user := (every (λ _ B c, permitted user (B:=B) c) None).

Lemma members_guarded user name :
  require user PoolRead = Ok tt ∨ require user PoolWrite = Ok tt → guarded user (PoolsApi.members_of name).
Proof. intros [Hr|Hr]; handlers; every; permitted. Qed.
Lemma summaries_guarded user pools :
  require user PoolRead = Ok tt → guarded user (PoolsApi.summaries pools).
Proof.
  intros Hr. induction pools as [|pool pools IH]; [done|]. cbn [PoolsApi.summaries].
  apply every_bind; [apply members_guarded; auto|]. intros members. apply every_bind; [exact IH|]. done.
Qed.

Lemma pools_guarded {T} (e : PoolsApi.endpoint T) user :
  a_path user = resource_path_for (uri (EPools e)) → plain (EPools e) → guarded user (PoolsApi.handle e user).
Proof. guarded_group e ltac:(first [by apply summaries_guarded | permitted]). Qed.
Lemma vms_guarded {T} (e : VmsApi.endpoint T) user :
  a_path user = resource_path_for (uri (EVms e)) → plain (EVms e) → guarded user (VmsApi.handle e user).
Proof. guarded_group e ltac:(permitted). Qed.
Lemma containers_guarded {T} (e : ContainersApi.endpoint T) user :
  a_path user = resource_path_for (uri (EContainers e)) → plain (EContainers e) → guarded user (ContainersApi.handle e user).
Proof. guarded_group e ltac:(permitted). Qed.
Lemma storage_guarded {T} (e : StorageApi.endpoint T) user :
  a_path user = resource_path_for (uri (EStorage e)) → plain (EStorage e) → guarded user (StorageApi.handle e user).
Proof. guarded_group e ltac:(permitted). Qed.
Lemma library_guarded {T} (e : LibraryApi.endpoint T) user :
  a_path user = resource_path_for (uri (ELibrary e)) → plain (ELibrary e) → guarded user (LibraryApi.handle e user).
Proof. guarded_group e ltac:(permitted). Qed.
Lemma network_guarded {T} (e : NetworkApi.endpoint T) user :
  a_path user = resource_path_for (uri (ENetwork e)) → plain (ENetwork e) → guarded user (NetworkApi.handle e user).
Proof. guarded_group e ltac:(permitted). Qed.
Lemma security_guarded {T} (e : SecurityApi.endpoint T) user :
  a_path user = resource_path_for (uri (ESecurity e)) → plain (ESecurity e) → guarded user (SecurityApi.handle e user).
Proof. guarded_group e ltac:(permitted). Qed.
Lemma devices_guarded {T} (e : DevicesApi.endpoint T) user :
  a_path user = resource_path_for (uri (EDevices e)) → plain (EDevices e) → guarded user (DevicesApi.handle e user).
Proof. guarded_group e ltac:(permitted). Qed.
Lemma operations_guarded {T} (e : OperationsApi.endpoint T) user :
  a_path user = resource_path_for (uri (EOperations e)) → plain (EOperations e) → guarded user (OperationsApi.handle e user).
Proof. guarded_group e ltac:(permitted). Qed.
Lemma notifications_guarded {T} (e : NotificationsApi.endpoint T) user :
  a_path user = resource_path_for (uri (ENotifications e)) → plain (ENotifications e) → guarded user (NotificationsApi.handle e user).
Proof. guarded_group e ltac:(permitted). Qed.
Lemma metrics_guarded {T} (e : MetricsApi.endpoint T) user :
  a_path user = resource_path_for (uri (EMetrics e)) → plain (EMetrics e) → guarded user (MetricsApi.handle e user).
Proof. guarded_group e ltac:(permitted). Qed.
Lemma users_guarded {T} (e : UsersApi.endpoint T) user :
  a_path user = resource_path_for (uri (EUsers e)) → plain (EUsers e) → guarded user (UsersApi.handle e user).
Proof. guarded_group e ltac:(permitted). Qed.
Lemma self_guarded {T} (e : SelfApi.endpoint T) user :
  a_path user = resource_path_for (uri (ESelf e)) → plain (ESelf e) → guarded user (SelfApi.handle e user).
Proof. guarded_group e ltac:(permitted). Qed.
Lemma backups_guarded {T} (e : BackupsApi.endpoint T) user :
  a_path user = resource_path_for (uri (EBackups e)) → plain (EBackups e) → guarded user (BackupsApi.handle e user).
Proof. guarded_group e ltac:(permitted). Qed.
Lemma schedules_guarded {T} (e : SchedulesApi.endpoint T) user :
  a_path user = resource_path_for (uri (ESchedules e)) → plain (ESchedules e) → guarded user (SchedulesApi.handle e user).
Proof. guarded_group e ltac:(first [solve [permitted] | by_kind; solve [permitted] | kinds]). Qed.

Lemma handle_guarded {T} (e : endpoint T) user :
  a_path user = resource_path_for (uri e) → plain e → guarded user (handle e user).
Proof.
  intros Hp Hf. destruct e; cbn [handle];
    first [by apply pools_guarded|by apply vms_guarded|by apply containers_guarded|by apply storage_guarded
          |by apply library_guarded|by apply network_guarded|by apply security_guarded|by apply devices_guarded
          |by apply operations_guarded|by apply notifications_guarded|by apply metrics_guarded
          |by apply users_guarded|by apply self_guarded|by apply backups_guarded|by apply schedules_guarded].
Qed.
End authorized.

(** ** The password gate *)

(** The endpoints a caller reaches who has to change the password first. *)
Definition before_password_change `{Schema} {T} (e : endpoint T) : bool :=
  match e with ESelf SelfApi.Me | ESelf SelfApi.Logout | ESelf (SelfApi.ChangePassword _) => true | _ => false end.
Definition gate_segments (segs : list str) : bool :=
  match reverse segs with
  | b :: a :: _ => (a =s? "auth") && str_in b ["me"; "change-password"; "logout"]
  | _ => false
  end.

Lemma render_ends segs a b :
  Forall good_segment segs → ch "/" ∉ a → ch "/" ∉ b → ends_with (render [a; b]) (render segs) = true →
  ∃ pre, segs = pre ++ [a; b].
Proof.
  intros Hf Ha Hb He. unfold ends_with in He. apply starts_with_spec in He as [r Hr].
  apply (f_equal reverse) in Hr. rewrite reverse_involutive, reverse_app, reverse_involutive in Hr.
  apply (f_equal (split (ch "/"))) in Hr.
  assert (split (ch "/") (reverse r ++ render [a; b]) = split (ch "/") (reverse r) ++ [a; b]) as E.
  { unfold render. cbn [flat_map]. rewrite app_nil_r.
    change ((ch "/" :: a) ++ ch "/" :: b) with (ch "/" :: a ++ ch "/" :: b).
    by rewrite (split_sep _ (reverse r)), (split_sep _ a), (split_nosep _ a), (split_nosep _ b). }
  rewrite E in Hr. destruct segs as [|x segs].
  - apply (f_equal length) in Hr. destruct (split_cons (ch "/") (reverse r)) as (p & ps & Hp).
    rewrite Hp in Hr. simpl in Hr. rewrite length_app in Hr. simpl in Hr. lia.
  - unfold render in Hr. rewrite split_rendered in Hr by (by apply good_segments_plain).
    destruct (split_cons (ch "/") (reverse r)) as (p & ps & Hp). rewrite Hp in Hr.
    injection Hr as _ Hr. by exists ps.
Qed.
Lemma gate_open_segments segs : Forall good_segment segs →
  password_gate_open (render segs) = true → gate_segments segs = true.
Proof.
  intros Hf. unfold password_gate_open. rewrite !orb_true_iff.
  assert (∀ b, ch "/" ∉ lit b → ends_with (render [lit "auth"; lit b]) (render segs) = true →
    str_in (lit b) ["me"; "change-password"; "logout"] = true → gate_segments segs = true) as Hg.
  { intros b Hb He Hin. apply render_ends in He as [pre ->]; [|done|by apply contains_char_false; vm_compute|done].
    unfold gate_segments. rewrite reverse_app. cbn [reverse rev_append app]. simpl. exact Hin. }
  intros [[H|H]|H]; [apply (Hg "me")|apply (Hg "change-password")|apply (Hg "logout")];
    first [exact H|by apply contains_char_false; vm_compute|by vm_compute].
Qed.

(** ** Requests *)

Section requests.
Context `{Schema}.
Context `{RU : RecordStore StoredUser} `{RA : RecordStore AclEntry} `{RT : RecordStore StoredApiToken}.
Context (sha256 : list N → list N) (to_rfc3339 : Z → str) (parse_rfc3339 : str → option Z).

Lemma gate_endpoint {T} (e : endpoint T) :
  gate_segments (route e).2 = true → before_password_change e = true.
Proof.
  destruct e as [e|e|e|e|e|e|e|e|e|e|e|e|e|e|e]; destruct e; try done;
    try match goal with kind : StorageFileKind |- _ => destruct kind end;
    unfold gate_segments; cbn [route VmsApi.route PoolsApi.route ContainersApi.route StorageApi.route
      LibraryApi.route LibraryApi.kind_segment DevicesApi.route OperationsApi.route NotificationsApi.route UsersApi.route SelfApi.route
      BackupsApi.route SchedulesApi.route NetworkApi.route SecurityApi.route MetricsApi.route snd];
    first [intros Hg; vm_compute in Hg; discriminate Hg
          |cbn [reverse rev_append]; intros [_ Hg]%andb_true_iff; vm_compute in Hg; discriminate Hg].
Qed.

(** C18: Every call that a request makes, on every branch, is one its caller is
    permitted: a call on a VM, a container or a pool needs its permission at that very
    item, any other call at the path of the request, and a call on an account is on the
    caller's own; a caller who has to change the password reaches only the three
    handlers for that. *)
Theorem request_authorized {T} (e : endpoint T) header now
    (s s' : AppState (RU:=RU) (RA:=RA) (RT:=RT)) user :
  plain e →
  from_request_parts sha256 to_rfc3339 parse_rfc3339 header (uri e) now s = (s', Ok user) →
  every (λ _ B c, permitted user c) None (handle e user) ∧
  (c_must_change_password (a_current user) = true → before_password_change e = true).
Proof.
  intros Hf (token & current & _ & -> & Hgate & _)%extract_ok. split; [by apply handle_guarded|].
  intros Hm. apply gate_endpoint, gate_open_segments; [exact Hf|]. by apply Hgate.
Qed.
End requests.

(** ** The records of what was done *)

Section accountable.
Context `{Schema}.

(** The caller a call names as the one behind it. *)
Definition actor_of {B} (c : svc_call B) : option (option str) :=
  match c with
  | BkEnqueueBackup _ actor | BkEnqueueRestore _ _ actor | OpsReconcile _ actor => Some actor
  | OpsDecide _ _ actor _ => Some (Some actor)
  | AuditRecord event => Some (n_actor_id event)
  | _ => None
  end.
Definition accountable (user : AuthUser) (j : option journal) {B} (c : svc_call B) : Prop :=
  (∀ resource, journal_of c = Some resource →
    ∃ e, j = Some e ∧ j_actor e = Some (user_id user) ∧ j_resource_id e = resource) ∧
  (∀ actor, actor_of c = Some actor → actor = Some (user_id user)).
Abbreviation recorded user := (every (λ j B c, accountable user j (B:=B) c) None).

Lemma plainly_accountable user j {B} (c : svc_call B) :
  journal_of c = None → actor_of c = None ∨ actor_of c = Some (Some (user_id user)) → accountable user j c.
Proof. unfold accountable. intros -> [-> | ->]; split; naive_solver. Qed.
Lemma journal_accountable user kind rt rid {B} (c : svc_call B) :
  journal_of c = Some rid → actor_of c = None →
  accountable user (Some (mkJournal kind rt rid (Some (user_id user)))) c.
Proof. unfold accountable. intros -> ->. split; [|done]. intros r [= <-]. by eexists. Qed.

Lemma summaries_recorded user pools : recorded user (PoolsApi.summaries pools).
Proof.
  induction pools as [|pool pools IH]; [done|]. cbn [PoolsApi.summaries].
  apply every_bind; [handlers; every; by apply plainly_accountable; auto|].
  intros members. apply every_bind; [exact IH|]. done.
Qed.

Lemma handle_recorded {T} (e : endpoint T) (user : AuthUser) : recorded user (handle e user).
Proof.
  destruct e as [e|e|e|e|e|e|e|e|e|e|e|e|e|e|e]; cbn [handle]; destruct e; group_cbn;
    handlers; every;
    first [apply summaries_recorded | apply journal_accountable; reflexivity
          | solve [apply plainly_accountable; [reflexivity|first [by left|by right]]]].
Qed.

(** What a request changes is on record: every change of a guest, a dataset, a
    share or the network runs as a journalled operation that names the caller and the
    resource of the request, and every job, decision and audit event of a request
    names the caller as its actor. *)
Theorem request_recorded {T} (e : endpoint T) (user : AuthUser) : recorded user (handle e user).
Proof. apply handle_recorded. Qed.
End accountable.

(** ** A concrete request *)

#[local] Instance demo_schema : Schema := {| BrokerSplitInventory := unit |}.
Definition demo_endpoint : endpoint unit := EVms (VmsApi.Delete_ "v1").

Theorem request_authorized_witness :
  ∃ s' user, from_request_parts toy_sha sample_print sample_parse (Some (lit "Bearer old"))
      (uri demo_endpoint) 0 sample_app = (s', Ok user) ∧
    uri demo_endpoint = lit "/vms/v1" ∧
    every (λ _ B c, permitted user c) None (handle demo_endpoint user).
Proof.
  destruct (from_request_parts toy_sha sample_print sample_parse (Some (lit "Bearer old"))
      (uri demo_endpoint) 0 sample_app) as [s' x] eqn:E.
  destruct x as [user|e];
    [|exfalso; apply (f_equal (is_ok ∘ snd)) in E; vm_compute in E; discriminate E].
  exists s', user. split; [done|]. split; [done|].
  apply (request_authorized toy_sha sample_print sample_parse demo_endpoint
    (Some (lit "Bearer old")) 0 sample_app s' user); [|exact E].
  unfold plain, demo_endpoint. cbn [route VmsApi.route snd].
  repeat constructor; try done; by apply contains_char_false; vm_compute.
Defined.

(** Listing the schedules of one kind of guest without naming a guest reads all of
    them, of both kinds. *)
Lemma schedules_of_other_kind user :
  require user VmRead = Ok tt →
  SchedulesApi.list_ user (Some Schedules.Vm) None = (r ← await SchList; mret (json r)).
Proof.
  intros Hr. unfold SchedulesApi.list_, SchedulesApi.require_kinds. cbn [SchedulesApi.read_permission].
  unfold requires. by rewrite Hr.
Qed.
