(* ===== verification/Serving.v ===== *)
(** * The server at work (src/src/api/mod.rs, src/src/auth/mod.rs,
      src/src/services/operations.rs)

    Handlers put on a machine: requests arrive at any time and run concurrently with each
    other and with the workers of queued operations.  A call of a service is one step;
    between two steps any other thread may run, and the future of a request may be
    dropped where it waits, when its client goes away.  The trace says who made which
    call, and when journal records were written. *)

From S2P Require Export ApiProofs OperationsProofs.

Section serving.
Context `{Schema} `{RU : RecordStore StoredUser} `{RA : RecordStore AclEntry} `{RT : RecordStore StoredApiToken}.
Context `{RO : RecordStore OperationRecord} `{RQ : RecordStore QuarantineRecord}
        `{RC : RecordStore ConsumedApproval} {X : Type}.
(** The journal with everything else around it. *)
Abbreviation World := (OperationService.state (RO:=RO) (RQ:=RQ) (RC:=RC) (H:=X)).
(** The services, the clock, the ids drawn for new records. *)
Context (call : ∀ B, svc_call B → World → World * B) (now_ts new_id : World → str).

Inductive label :=
  | Arrived {T} (e : endpoint T)
  | Called {B} (c : svc_call B)
  | Began (handle : str) (j : journal)
  | Settled (handle : str)
  | Answered (status : N).

(** What a thread has left to do. *)
Inductive act :=
  | Done
  | Do {B} (step : World → World * B) (l : B → option label) (k : B → act)
  | Fork (worker k : act).

(** *** The journal around a body *)

Definition begin_run (j : journal) (w : World) : World * ApiResult str :=
  OperationService.begin (now_ts w) (j_kind j) (j_resource_type j) (j_resource_id j) (j_actor j) (new_id w) w.
Definition begin_queue (j : journal) (w : World) : World * ApiResult (str * OperationRecord) :=
  OperationService.queue (now_ts w) (j_kind j) (j_resource_type j) (j_resource_id j) (j_actor j) (new_id w) w.
Definition start (handle : str) (w : World) : World * ApiResult unit :=
  OperationService.mark_running (now_ts w) handle w.
(** The final write of a record, whose failure is only logged; [message] is that of a
    success. *)
Definition settle {A} (j : journal) (handle : str) (message : A → option str) (r : ApiResult A) (w : World) :
    World * unit :=
  (match r with
   | Ok a => (OperationService.succeed (now_ts w) handle (j_resource_type j) (j_resource_id j) (message a) w).1
   | Err e => (OperationService.fail_operation (now_ts w) handle (Errors.message e) w).1
   end, tt).
Definition began {A} (j : journal) (handle_of : A → str) (r : ApiResult A) : option label :=
  match r with Ok a => Some (Began (handle_of a) j) | Err _ => None end.

(** The thread of a handler that goes on with [k]. *)
Fixpoint elab {A} (p : prog A) (k : ApiResult A → act) : act :=
  match p with
  | Ret a => k (Ok a)
  | Throw e => k (Err e)
  | Call c k' => Do (call _ c) (λ _, Some (Called c)) (λ r, elab (k' r) k)
  | Run j body k' =>
      Do (begin_run j) (began j id) (λ b,
        match b with
        | Err e => elab (k' (Err e)) k
        | Ok handle =>
            elab body (λ r, Do (settle j handle (λ _, None) r) (λ _, Some (Settled handle)) (λ _, elab (k' r) k))
        end)
  | Enqueue j body k' =>
      Do (begin_queue j) (began j fst) (λ b,
        match b with
        | Err e => elab (k' (Err e)) k
        | Ok (handle, record) =>
            Fork
              (Do (start handle) (λ _, None) (λ started,
                 match started with
                 | Err _ => Done
                 | Ok _ => elab (body handle) (λ r,
                     Do (settle j handle id r) (λ _, Some (Settled handle)) (λ _, Done))
                 end))
              (elab (k' (Ok record)) k)
        end)
  end.

Definition answer_status {T} (r : ApiResult (reply T)) : N :=
  match r with Ok reply => rp_status reply | Err e => Errors.status e end.
Definition answered {T} (r : ApiResult (reply T)) : act :=
  Do (λ w, (w, tt)) (λ _, Some (Answered (answer_status r))) (λ _, Done).
Definition request {T} (e : endpoint T) (user : AuthUser) : act := elab (handle e user) answered.

(** *** The machine *)

Section machine.
Context (sha256 : list N → list N) (to_rfc3339 : Z → str) (parse_rfc3339 : str → option Z).
(** The part of the world that the extractor of the caller reads. *)
Context (app_of : World → AppState (RU:=RU) (RA:=RA) (RT:=RT)) (set_app : AppState (RU:=RU) (RA:=RA) (RT:=RT) → World → World).

Record system := mkSys {
  sy_world : World; sy_threads : list (AuthUser * act); sy_trace : list (AuthUser * label) }.

(** A request whose other extractors fail never reaches its handler and is no step. *)
Inductive sys_step : system → system → Prop :=
  | step_arrive {T} (e : endpoint T) header now app user w ts tr :
      from_request_parts sha256 to_rfc3339 parse_rfc3339 header (uri e) now (app_of w) = (app, Ok user) →
      plain e →
      sys_step (mkSys w ts tr) (mkSys (set_app app w) (ts ++ [(user, request e user)]) (tr ++ [(user, Arrived e)]))
  | step_refuse {T} (e : endpoint T) header now app error w ts tr :
      from_request_parts sha256 to_rfc3339 parse_rfc3339 header (uri e) now (app_of w) = (app, Err error) →
      sys_step (mkSys w ts tr) (mkSys (set_app app w) ts tr)
  | step_do {B} (step : World → World * B) l k user w w' b ts1 ts2 tr :
      step w = (w', b) →
      sys_step (mkSys w (ts1 ++ (user, Do step l k) :: ts2) tr)
        (mkSys w' (ts1 ++ (user, k b) :: ts2) (tr ++ match l b with Some l => [(user, l)] | None => [] end))
  | step_fork worker k user w ts1 ts2 tr :
      sys_step (mkSys w (ts1 ++ (user, Fork worker k) :: ts2) tr)
        (mkSys w (ts1 ++ (user, k) :: ts2 ++ [(user, worker)]) tr)
  | step_drop user a w ts1 ts2 tr :
      sys_step (mkSys w (ts1 ++ (user, a) :: ts2) tr) (mkSys w (ts1 ++ ts2) tr).
End machine.

(** A thread that runs alone, its workers after it. *)
Fixpoint alone (a : act) (w : World) : World * list label :=
  match a with
  | Done => (w, [])
  | Do step l k =>
      let '(w, b) := step w in
      let '(w, ls) := alone (k b) w in
      (w, match l b with Some l => l :: ls | None => ls end)
  | Fork worker k =>
      let '(w, ls) := alone k w in
      let '(w, ls') := alone worker w in
      (w, ls ++ ls')
  end.
End serving.
