(* ===== verification/ServingProofs.v ===== *)
(** * The server at work: whoever interleaves, calls are permitted and on record first *)

From S2P Require Export Serving.

Section serving.
Context `{Schema} `{RU : RecordStore StoredUser} `{RA : RecordStore AclEntry} `{RT : RecordStore StoredApiToken}.
Context `{RO : RecordStore OperationRecord} `{RQ : RecordStore QuarantineRecord}
        `{RC : RecordStore ConsumedApproval} {X : Type}.
Abbreviation World := (OperationService.state (RO:=RO) (RQ:=RQ) (RC:=RC) (H:=X)).
Context (call : ∀ B, svc_call B → World → World * B) (now_ts new_id : World → str).
Abbreviation act := (act (RO:=RO) (RQ:=RQ) (RC:=RC) (X:=X)).
Abbreviation elab := (elab call now_ts new_id).
Abbreviation request := (request call now_ts new_id).
Implicit Types (known : label → Prop) (user : AuthUser).

(** *** Threads all of whose events are good *)

(** Every event of a thread is good in view of what the caller's threads have done, on
    every result of every step. *)
Fixpoint act_ok (good : (label → Prop) → label → Prop) known (a : act) : Prop :=
  match a with
  | Done => True
  | Do _ l k => ∀ b,
      match l b with
      | Some l => good known l ∧ act_ok good (λ l', known l' ∨ l' = l) (k b)
      | None => act_ok good known (k b)
      end
  | Fork worker k => act_ok good known worker ∧ act_ok good known k
  end.

(** An event is good when a call is permitted, names its caller, and runs under a record
    already written if it belongs into the journal. *)
Definition good user known (l : label) : Prop :=
  match l with
  | Called c =>
      permitted user c ∧ (∃ T (e : endpoint T), known (Arrived e)) ∧
      (∀ resource, journal_of c = Some resource → ∃ handle j, known (Began handle j) ∧
         j_actor j = Some (user_id user) ∧ j_resource_id j = resource) ∧
      (∀ actor, actor_of c = Some actor → actor = Some (user_id user))
  | _ => True
  end.

Lemma good_mono user known known' l : (∀ l, known l → known' l) → good user known l → good user known' l.
Proof. intros Hk. destruct l; cbn; naive_solver. Qed.
Lemma act_ok_mono user known known' a :
  (∀ l, known l → known' l) → act_ok (good user) known a → act_ok (good user) known' a.
Proof.
  revert known known'. induction a as [|B step l k IH|worker IHw k IHk]; intros known known' Hk; cbn; [done| |].
  - intros Ha b. specialize (Ha b). destruct (l b) as [lb|].
    + destruct Ha as [Hg Ha]. split; [by eapply good_mono|]. eapply IH; [|exact Ha]. naive_solver.
    + by eapply IH.
  - intros [Hw Hc]. split; eauto.
Qed.

(** *** Handlers make good threads *)

Definition fine user (j : option journal) B (c : svc_call B) : Prop := permitted user c ∧ accountable user j c.

Lemma elab_ok {A} user j (p : prog A) : every (fine user) j p → ∀ known k,
  (∃ T (e : endpoint T), known (Arrived e)) →
  (∀ e, j = Some e → ∃ handle, known (Began handle e)) →
  (∀ known' r, (∀ l, known l → known' l) → act_ok (good user) known' (k r)) →
  act_ok (good user) known (elab p k).
Proof.
  revert A j p. fix IH 3. intros A j p Hp known k Harr Hj Hk.
  assert (∀ l, known l → known l) as Hrefl by done.
  destruct p as [a|e|B c k'|B e body k'|e body k']; cbn [Serving.elab].
  - by apply Hk.
  - by apply Hk.
  - destruct Hp as [[Hperm [Hjr Ha]] Hp]. intros b. split.
    + cbn. split_and!; [done|naive_solver| |done]. intros resource Hres.
      destruct (Hjr _ Hres) as (j' & -> & Hact & Hrid). destruct (Hj _ eq_refl) as [h Hh]. by exists h, j'.
    + apply (IH _ j); [apply Hp|naive_solver|naive_solver|]. intros known' r Hkn. apply Hk. auto.
  - destruct Hp as [Hb Hp]. intros [h|err]; cbn [began].
    2: { apply (IH _ j); [apply Hp|done..]. }
    split; [done|]. cbn. apply (IH _ (Some e)); [exact Hb|naive_solver|naive_solver|].
    intros known1 r Hk1 []. split; [done|]. apply (IH _ j); [apply Hp|naive_solver| |].
    + intros e' He'. destruct (Hj _ He') as [h' Hh']. exists h'. auto.
    + intros known2 r2 Hk2. apply Hk. auto.
  - destruct Hp as [Hb Hp]. intros [[h record]|err]; cbn [began].
    2: { apply (IH _ j); [apply Hp|done..]. }
    split; [done|]. cbn. split.
    + intros [[]|err]; [|done]. apply (IH _ (Some e)); [apply Hb|naive_solver|naive_solver|].
      intros known1 r Hk1 []. by split.
    + apply (IH _ j); [apply Hp|naive_solver|naive_solver|]. intros known' r Hkn. apply Hk. auto.
Qed.

Lemma every_and {A} P Q j (p : prog A) :
  every P j p → every Q j p → every (λ j B c, P j B c ∧ Q j B c) j p.
Proof.
  revert A j p. fix IH 3. intros A j p HP HQ. destruct p; cbn in *; [done|done|naive_solver|naive_solver|naive_solver].
Qed.
Lemma request_ok {T} (e : endpoint T) user known :
  a_path user = resource_path_for (uri e) → plain e → known (Arrived e) →
  act_ok (good user) known (request e user).
Proof.
  intros Hp Hf Ha. unfold Serving.request.
  apply (elab_ok user None); [|by eexists _, _|done|intros known' r _; by intros []].
  unfold fine. apply (every_and (λ _ B c, permitted user (B:=B) c) (λ j B c, accountable user j (B:=B) c));
    [by apply handle_guarded|apply handle_recorded].
Qed.

(** *** Every reachable state of the machine *)

Context (sha256 : list N → list N) (to_rfc3339 : Z → str) (parse_rfc3339 : str → option Z).
Context (app_of : World → AppState (RU:=RU) (RA:=RA) (RT:=RT))
  (set_app : AppState (RU:=RU) (RA:=RA) (RT:=RT) → World → World).
Abbreviation sys_step := (sys_step call now_ts new_id sha256 to_rfc3339 parse_rfc3339 app_of set_app).

Definition known_of user (tr : list (AuthUser * label)) (l : label) : Prop := (user, l) ∈ tr.
Definition threads_ok (ts : list (AuthUser * act)) tr : Prop :=
  ∀ user a, (user, a) ∈ ts → act_ok (good user) (known_of user tr) a.
Definition trace_ok (tr : list (AuthUser * label)) : Prop :=
  ∀ tr1 user l tr2, tr = tr1 ++ (user, l) :: tr2 → good user (known_of user tr1) l.

Lemma trace_ok_snoc tr user l : trace_ok tr → good user (known_of user tr) l → trace_ok (tr ++ [(user, l)]).
Proof.
  intros Ht Hg tr1 user' l' tr2 E. destruct tr2 as [|x tr2 _] using rev_ind.
  - apply app_inj_tail in E as [-> [= <- <-]]. exact Hg.
  - rewrite app_comm_cons, app_assoc in E. apply app_inj_tail in E as [-> _]. by eapply Ht.
Qed.
Lemma threads_ok_grow ts tr tr' : threads_ok ts tr → threads_ok ts (tr ++ tr').
Proof.
  intros Ht user a Hin. eapply act_ok_mono; [|by eapply Ht]. intros l. unfold known_of. set_solver.
Qed.
Lemma threads_ok_iff ts tr : threads_ok ts tr ↔ Forall (λ t, act_ok (good t.1) (known_of t.1 tr) t.2) ts.
Proof. unfold threads_ok. rewrite Forall_forall. split; [intros Ht [user a] Hin; by apply Ht|intros Ht user a; apply (Ht (user, a))]. Qed.

(** One step keeps both; only the thread that moves has to be looked at. *)
Lemma sys_step_ok y y' : sys_step y y' →
  threads_ok (sy_threads y) (sy_trace y) ∧ trace_ok (sy_trace y) →
  threads_ok (sy_threads y') (sy_trace y') ∧ trace_ok (sy_trace y').
Proof.
  intros Hs [Hts Htr]. destruct Hs as [T e header now app user w ts tr Hx Hf|T e header now app error w ts tr Hx
    |B step l k user w w' b ts1 ts2 tr Hw|worker k user w ts1 ts2 tr|user a w ts1 ts2 tr];
    cbn [sy_threads sy_trace] in *.
  - split; [|by apply trace_ok_snoc]. apply extract_ok in Hx as (token & current & _ & -> & _).
    apply threads_ok_iff, Forall_app; split; [by apply threads_ok_iff, threads_ok_grow|].
    apply Forall_singleton, request_ok; [done|exact Hf|]. unfold known_of. set_solver.
  - done.
  - apply threads_ok_iff in Hts. rewrite Forall_app, Forall_cons in Hts. destruct Hts as (H1 & Ha & H2).
    specialize (Ha b). cbn [fst snd] in Ha. destruct (l b) as [lb|].
    + destruct Ha as [Hg Ha]. split; [|by apply trace_ok_snoc].
      apply threads_ok_iff in H1, H2. apply (threads_ok_grow _ _ [(user, lb)]) in H1, H2.
      apply threads_ok_iff in H1, H2. apply threads_ok_iff. rewrite Forall_app, Forall_cons. split_and!; [done| |done].
      eapply act_ok_mono; [|exact Ha]. intros l'. unfold known_of. cbn [fst].
      rewrite elem_of_app, list_elem_of_singleton. intros [?| ->]; auto.
    + rewrite app_nil_r. split; [|done]. apply threads_ok_iff. rewrite Forall_app, Forall_cons. by split_and!.
  - split; [|done]. rewrite threads_ok_iff in *. rewrite !Forall_app, !Forall_cons in *.
    cbn [fst snd act_ok] in *. rewrite Forall_app, Forall_singleton. naive_solver.
  - split; [|done]. rewrite threads_ok_iff in *. rewrite !Forall_app, !Forall_cons in *. naive_solver.
Qed.
Lemma reachable_ok w y : rtc sys_step (mkSys w [] []) y →
  threads_ok (sy_threads y) (sy_trace y) ∧ trace_ok (sy_trace y).
Proof.
  intros Hr. assert (∀ y0, rtc sys_step y0 y → threads_ok (sy_threads y0) (sy_trace y0) ∧ trace_ok (sy_trace y0) →
    threads_ok (sy_threads y) (sy_trace y) ∧ trace_ok (sy_trace y)) as Hall.
  { intros y0. induction 1 as [|y0 y1 y2 Hs _ IH]; [done|]. eauto using sys_step_ok. }
  apply (Hall _ Hr). split; [intros u a; cbn; set_solver|]. cbn. by intros [] ? ? ?.
Qed.

(** C17: However requests, the workers of queued operations and the failures of their
    calls interleave, and whichever of them are dropped on the way, every call of a
    service ever made was made for a caller who was let in before, is permitted to that
    caller and names nobody else as its actor. And where it changes a guest, a dataset,
    a share, the network, a device or the library ([changes_host]), it comes after a
    record of the journal that names the caller and the resource, unless it is one of
    the calls listed in [unrecorded]. *)
Theorem server_accountable w y tr1 user B (c : svc_call B) tr2 :
  rtc sys_step (mkSys w [] []) y → sy_trace y = tr1 ++ (user, Called c) :: tr2 →
  permitted user c ∧ (∃ T (e : endpoint T), (user, Arrived e) ∈ tr1) ∧
  (changes_host c = true → unrecorded c = true ∨
     ∃ handle j, (user, Began handle j) ∈ tr1 ∧
       j_actor j = Some (user_id user) ∧ journal_of c = Some (j_resource_id j)) ∧
  (∀ actor, actor_of c = Some actor → actor = Some (user_id user)).
Proof.
  intros Hr Htr. apply reachable_ok in Hr as [_ Ht].
  destruct (Ht _ _ _ _ Htr) as (Hp & Ha & Hj & Hac). split_and!; [done|done| |done].
  intros [?|[rid Hc]]%journal_of_changes; [by left|right].
  destruct (Hj rid Hc) as (h & j & ? & ? & Hrid). exists h, j. by rewrite Hrid.
Qed.

(** *** The records, and threads that run alone *)

(** The record a [Began] stands for is in the journal when the event happens. *)
Lemma begin_run_durable j w w' handle : begin_run now_ts new_id j w = (w', Ok handle) →
  ∃ r, op_record w' handle = Some r ∧ o_kind r = j_kind j ∧ o_actor r = j_actor j ∧ o_status r = Running.
Proof.
  intros (_ & -> & r & _ & Hk & Hs & Ha & Hr)%begin_spec. exists r. rewrite Hr. by rewrite decide_True.
Qed.

Definition answers (ls : list label) : list N :=
  omap (λ l, match l with Answered n => Some n | _ => None end) ls.
(** The events of a handler's thread hold no answer but that of its continuation, which
    is reached whatever the calls return. *)
Lemma elab_answers {A} (p : prog A) k w : ∃ r w',
  answers (alone (elab p k) w).2 = answers (alone (k r) w').2.
Proof.
  revert A p k w. fix IH 2. intros A p k w. destruct p as [a|e|B c k'|B e body k'|e body k']; cbn.
  - by exists (Ok a), w.
  - by exists (Err e), w.
  - destruct (call B c w) as [w1 b]. destruct (IH _ (k' b) k w1) as (r & w' & E). exists r, w'.
    rewrite <- E. by destruct (alone _ w1).
  - destruct (begin_run now_ts new_id e w) as [w1 [h|err]]; cbn.
    + destruct (IH _ body (λ r, Do (settle now_ts e h (λ _, None) r) (λ _, Some (Settled h)) (λ _, elab (k' r) k)) w1)
        as (r1 & w2 & E1). destruct (alone _ w1) as [w3 ls]. cbn in *. rewrite E1.
      cbn. destruct (IH _ (k' r1) k (settle now_ts e h (λ _, None) r1 w2).1) as (r & w' & E). exists r, w'.
      rewrite <- E. cbn. by destruct (alone _ _).
    + destruct (IH _ (k' (Err err)) k w1) as (r & w' & E). exists r, w'. rewrite <- E. by destruct (alone _ w1).
  - destruct (begin_queue now_ts new_id e w) as [w1 [[h record]|err]]; cbn.
    + destruct (IH _ (k' (Ok record)) k w1) as (r & w' & E). exists r, w'. rewrite <- E.
      destruct (alone (elab (k' (Ok record)) k) w1) as [w2 ls]. destruct (start now_ts h w2) as [w3 [[]|err]]; cbn.
      2: { by rewrite app_nil_r. }
      destruct (IH _ (body h) (λ r, Do (settle now_ts e h id r) (λ _, Some (Settled h)) (λ _, Done)) w3) as (r1 & w4 & E1).
      destruct (alone _ w3) as [w5 ls']. cbn in *. unfold answers in *. by rewrite omap_app, E1, app_nil_r.
    + destruct (IH _ (k' (Err err)) k w1) as (r & w' & E). exists r, w'. rewrite <- E. by destruct (alone _ w1).
Qed.

(** A request that is not dropped is answered, once, whatever its calls return. *)
Lemma request_answered {T} (e : endpoint T) user w :
  ∃ r : ApiResult (reply T), answers (alone (request e user) w).2 = [answer_status r].
Proof.
  unfold Serving.request. destruct (elab_answers (handle e user) answered w) as (r & w' & E).
  exists r. by rewrite E.
Qed.

(** A journalled call of the host that runs alone is [OperationService.run], at one
    instant. *)
Lemma run_alone {A} t j (c : svc_call (ApiResult A)) (m : Svc X A) (k : ApiResult A → act) w :
  (∀ w, now_ts w = t) →
  (∀ w, call _ c w = OperationService.on_host m w) →
  (alone (elab (Run j (await c) returned) k) w).1 =
    let '(w', r) := OperationService.run t (j_kind j) (j_resource_type j) (j_resource_id j) (j_actor j) (new_id w) m w in
    (alone (k r) w').1.
Proof.
  intros Ht Hc. cbn. unfold OperationService.run, begin_run, mbind, svc_bind. rewrite Ht.
  destruct (OperationService.begin _ _ _ _ _ _ w) as [w1 [h|e]]; cbn; [|by destruct (alone _ w1)].
  rewrite Hc. unfold OperationService.try. destruct (OperationService.on_host m w1) as [w2 [a|e]]; cbn;
    rewrite Ht; unfold OperationService.best_effort; cbn; by destruct (alone _ _).
Qed.
End serving.

(** ** A concrete machine *)

#[local] Existing Instance demo_schema.
Definition demo_node : NodeMetrics := mkNode [] f64_zero 1 (f64_zero, f64_zero, f64_zero) 0 0 0 0 0 0 0 0 0.
Definition demo_acme : AcmeStatus :=
  mkAcmeStatus (mkAcmeConfig false [] [] [] false 30) AcmeDisabled [] None None None None false.
(** Services that delete any VM and fail otherwise. *)
Definition demo_reply {B} (c : svc_call B) : B.
Proof.
  destruct c;
    first [ lazymatch goal with id : str |- ApiResult unit => exact (Ok tt) end
          | exact (Err (internal "unavailable")) | exact [] | exact None | exact tt
          | exact demo_node | exact demo_acme | exact ([], []) ].
Defined.
Abbreviation demo_app := (AppState (RU:=map_store _) (RA:=map_store _) (RT:=map_store _)).
Abbreviation demo_world := (OperationService.state (RO:=map_store OperationRecord)
  (RQ:=map_store QuarantineRecord) (RC:=map_store ConsumedApproval) (H:=demo_app)).
Definition demo_call B (c : svc_call B) (w : demo_world) : demo_world * B := (w, demo_reply c).
Definition demo_set_app (a : demo_app) (w : demo_world) : demo_world :=
  OperationService.mkState (OperationService.store w) (OperationService.quarantined w)
    (OperationService.consumed_approvals w) a.
Definition demo_start : demo_world :=
  OperationService.mkState (RO:=map_store _) (RQ:=map_store _) (RC:=map_store _) ∅ ∅ ∅ sample_app.
Abbreviation demo_step := (sys_step demo_call (λ _, lit "t") (λ _, lit "op1") toy_sha sample_print sample_parse
  OperationService.host demo_set_app).

(** The first thread takes a step. *)
Lemma demo_step_head {B} (step : demo_world → demo_world * B) l k user w tr :
  demo_step (mkSys w [(user, Do step l k)] tr)
    (mkSys (step w).1 [(user, k (step w).2)] (tr ++ match l (step w).2 with Some l => [(user, l)] | None => [] end)).
Proof.
  apply (step_do demo_call _ _ _ _ _ _ _ step l k user w _ (step w).2 [] []). by destruct (step w).
Qed.

(** The thread of the demo request, once the permission is there. *)
Definition demo_journal (user : AuthUser) : journal :=
  mkJournal (lit "vm.delete") (Some (lit "vm")) (Some (lit "v1")) (Some (user_id user)).

Lemma server_accountable_witness : ∃ y tr1 user,
  rtc demo_step (mkSys demo_start [] []) y ∧
  sy_trace y = tr1 ++ [(user, Called (KvmDelete "v1"))] ∧
  permitted user (KvmDelete "v1") ∧
  ∃ handle j, (user, Began handle j) ∈ tr1 ∧ j_actor j = Some (user_id user) ∧
    j_resource_id j = Some (lit "v1").
Proof.
  assert (match (from_request_parts toy_sha sample_print sample_parse (Some (lit "Bearer old"))
      (uri demo_endpoint) 0 sample_app).2 with Ok u => require u VmWrite | Err e => Err e end = Ok tt) as Hr
    by by vm_compute.
  destruct (from_request_parts toy_sha sample_print sample_parse (Some (lit "Bearer old"))
      (uri demo_endpoint) 0 sample_app) as [ap x] eqn:E. cbn [snd] in Hr.
  destruct x as [user|e]; [|discriminate Hr].
  assert (∃ y, rtc demo_step (mkSys demo_start [] []) y ∧
    sy_trace y = [(user, Arrived demo_endpoint); (user, Began (lit "op1") (demo_journal user))] ++
      [(user, Called (KvmDelete "v1"))]) as (y & Hy & Htr).
  { eexists. split.
    - eapply rtc_l; [eapply (step_arrive _ _ _ _ _ _ _ _ demo_endpoint); [exact E|]|].
      { unfold plain, demo_endpoint. cbn [route VmsApi.route snd].
        repeat constructor; try done; by apply contains_char_false; vm_compute. }
      unfold Serving.request, demo_endpoint. cbn [handle VmsApi.handle]. unfold VmsApi.delete_, requires.
      rewrite Hr. lazy [app elab mbind prog_mbind prog_bind returned journaled await].
      eapply rtc_l; [apply demo_step_head|]. lazy [elab began snd fst begin_run demo_start].
      eapply rtc_l; [apply demo_step_head|].
      apply rtc_refl.
    - reflexivity. }
  exists y, [(user, Arrived demo_endpoint); (user, Began (lit "op1") (demo_journal user))], user.
  split; [exact Hy|]. split; [exact Htr|].
  destruct (server_accountable demo_call (λ _, lit "t") (λ _, lit "op1") toy_sha sample_print sample_parse
    OperationService.host demo_set_app _ _ _ _ _ _ _ Hy Htr) as (Hp & _ & Hj & _).
  split; [exact Hp|]. destruct (Hj eq_refl) as [Hn|(handle & j & Hin & Ha & Hres)]; [discriminate Hn|].
  exists handle, j. split; [exact Hin|]. split; [exact Ha|]. by injection Hres as <-.
Defined.
